(* ===== verification/_CoqProject ===== *)
-Q . S2P
Prelude.v
PyFloat.v
PyString.v
PyJson.v
ModelId.v
WireModel.v
Activation.v
RoutingTypes.v
Admission.v
Eviction.v
Feasibility.v
Scoring.v
Engine.v
CapacityPool.v
CapacityPoolSteps.v
CapacityCounter.v
FifoWaitQueue.v
FifoCapacityGate.v
ConcurrencyBackend.v
ConcurrencyGate.v
PipelineStep.v
PipelineDag.v
PipelineExpansion.v
CriticalPath.v
DagExecutor.v
DagExecutorProofs.v
StepExecution.v
MapReduce.v
SseFraming.v
SseAccumulator.v
InFlight.v
GatewayTracker.v
EvictionExecution.v
ValueResolver.v
MapIteration.v
SequentialExecutor.v
EventBus.v
ErrorCodes.v
RateLimitedSource.v
CircuitBreaker.v
RequestTracker.v
FederatedLoad.v
TelemetryTracker.v
FederatedGateways.v
HttpPolling.v
RoutingCollectors.v
RouteOrchestrator.v
RouteOrchestratorProofs.v
ModelRouter.v
DispatchJournal.v
DispatchTracker.v
DispatchRecovery.v
