(* ===== verification/Prelude.v ===== *)
(** * A verification library for the Stargate inference router

    The repository is a gateway for local and cloud language models.  Its
    master process, Universal Stargate, answers one question for every
    inference request: which gateway (a machine with GPUs, or a cloud API)
    runs it, what has to be evicted there, and when may it start.  On top of
    it stand pipelines, graphs of such requests, which the same process
    executes.  This development models the routing decision, the admission
    control behind it, the forwarding to other masters, the execution of
    pipelines and the event streams that carry the results, and proves what
    they promise.

    ** The program and its parts

    - A caller's model id is a string; [libs/model_id] parses it into a
      [ModelId], whose normalized form is the key of every table.
    - [systems/routing/selection/decision] takes a snapshot of the gateways
      (telemetry) and a placement (model, VRAM and RAM needs) and returns a
      gateway and a trace.  For each gateway it classifies feasibility: T1
      feasible now, T2 feasible after evicting idle models, T0 infeasible,
      with machine-readable failures.  Admission verdicts compare needs and
      margins with free memory less what loading models will take; the
      planner picks victims among idle models, subject to a load cooldown, to
      queued demand and to the models reserved for retrieval.  Feasible
      gateways get a utility score, and a rule picks one: hard affinity, then
      tier, score and name, then a guard that keeps sticky models in place.
    - [systems/routing/capacity/_pool] admits the routed request: a bounded
      number of requests per (gateway, model) slot, a FIFO queue per model,
      cancellation and time-outs, and pauses by which a scheduler drains a
      model.
    - [systems/routing/eviction] carries out the eviction a selection asks
      for: unload requests shared between concurrent callers, each confirmed
      by an event of the gateway.  [src/core] keeps the requests in flight,
      whose models the planner spares, and which gateways are available.
    - [libs/universal_concurrency] holds the general-purpose primitives the
      pipelines use: a counter, a wait queue and a FIFO gate.  On the gate
      stands the pipelines' concurrency backend, which serialises executions
      that share a key (a chat, say).
    - [systems/pipeline/core] turns the steps of a pipeline into a graph,
      after expanding the sub-pipelines they refer to, and runs it: a
      scheduler starts the steps whose dependencies are done, one per local
      model, and fails fast.  A step runs under time-outs, retries and
      checkpoints, may fall back to other models, and may fan out into
      iterations.  A run may be dispatched in the background: a tracker in
      memory and a journal on disk record it, its result may be posted to a
      thread, and a run that stopped, or was lost in a restart, can be resumed
      by one successor.
    - [systems/proxy/core/nonstreaming/federated_routing] puts these parts
      together for one request: it reads the gateways from the manager
      ([systems/routing/selection]), selects, waits where waiting helps, is
      admitted by the pool, evicts, loads, and starts over when an eviction or
      a load failed.
    - [systems/federation/master] forwards requests to other Stargates: a
      circuit breaker decides whether a model there may be asked, an
      orchestrator loads it first, one load for all who ask, and a tracker
      knows the forwarded requests, so that they can be cancelled and their
      models are not evicted.  What is known of the gateways over there is
      kept by a manager, from messages over sockets and from polls; a polled
      remote answers with the differences since it was asked last.
    - [libs/sse] formats, frames and parses server-sent events, and drives a
      reducer over a stream of them.  [libs/universal_event_bus] publishes
      events, limits the rate of a source and runs coroutines one at a time;
      [libs/universal_protocol] names the errors.

    ** Files

    Paths are relative to src/; D is
    services/universal-stargate/systems/routing/selection/decision and P is
    services/universal-stargate/systems/routing/capacity/_pool.

    - [Prelude]: exceptions as values ([exn], [let?]), Python's stable sort
      ([sort_by], used through [StrictWeakOrder]), insertion-ordered dicts,
      tactics ([to_prop], [case_goal], [inv_bind]).
    - [PyFloat]: Python floats: exact rationals rounded to 53 bits, ties to
      even, after every operation ([rnd]); [int()], and the margin formulas
      [int(n * (1.0 + pct / 100))] with their monotonicity.
    - [ModelId]: libs/model_id/model_id.py.  [WireModel]: validation.py,
      wire_resolve.py and entity.py beside it.
    - [RoutingTypes]: selection/types.py and D/types.py; [AffinityRule] and
      [ScoringWeights] of D/config.py.
    - [Admission]: D/admission_verdict.py, requirements.py,
      resource_checks.py.
    - [Eviction]: D/eviction_cooldown_policy.py, busy_view.py,
      eviction_hysteresis.py, eviction_victim_select.py,
      eviction_planning.py, feasibility_reclaim.py and
      systems/routing/rag_protected_models.py.
    - [Feasibility]: D/model_checks.py, feasibility_gates.py, feasibility.py.
    - [Scoring]: D/config.py, stability.py, scorer.py.
    - [Engine]: D/engine/capacity_constraints.py, selection_rules.py, core.py.
    - [CapacityPool]: P/*.py, one definition per uninterrupted stretch of a
      method: [acquire_start] is [acquire_token] up to its suspension and
      [wait_resume] is [_wait_for_slot] from one wake-up to the next.
      [CapacityPoolSteps]: the pool, the tokens handed out and the suspended
      requests as a transition system ([run_op], [reachable]), its invariant
      [inv], and the theorems about every interleaving.
    - [CapacityCounter], [FifoWaitQueue] (with queue_utils.py),
      [FifoCapacityGate]: the files of libs/universal_concurrency; the gate
      comes with its own transition system ([run_gate], [gate_reachable]) and
      a specification ([SlotLock], [lock_step]).
    - [ConcurrencyBackend]: the abstract ConcurrencyBackend of
      systems/pipeline/core/execution/concurrency_backend.py as a type class
      with laws, and the in-process backend as its instance.
      [ConcurrencyGate]: concurrency.py, the client of that interface: the key
      template and the executions serialised on a key.
    - With C for services/universal-stargate/systems/pipeline/core:
      [PyString]: the string functions all parts share.
      [PipelineStep]: C/step_types.py, step_config/config.py, conditions.py.
      [PipelineDag], [PipelineExpansion]: C/dag.py, the builder and the
      expansion of sub-pipelines.
      [CriticalPath]: C/execution/critical_path.py.
      [DagExecutor]: C/execution/dag_executor and model_tracker.py, as a
      transition system ([tick], [sstep], [reachable]) of the scheduler
      coroutine, a program counter [PC], and the tasks it starts;
      [DagExecutorProofs]: its invariant ([Inv], [Frontier], [PcInv]),
      termination measure and theorems.
      [StepExecution]: C/execution/retry.py, timeout.py, step_wrapper.py,
      fallback_eligibility.py, step_model_fallback.py: computations [M] that
      count handler calls and time.
      [MapReduce]: C/execution/map_reduce: modes, thresholds, outputs.
      [ValueResolver]: C/execution/resolver.py and the values of
      C/step_types.py.  [MapIteration]: map_executor/iteration_preparer.py and
      map_executor/executor of map_reduce, from the items of a map step to its
      run in one of those modes.
      [PyJson]: JSON values.  [DispatchJournal]: C/execution/dispatch_journal.py
      and dispatch_journal_transitions.py, tables as lists, one function per
      transaction.  [DispatchTracker]: C/execution/async_tracker, records in a
      heap that the pending tasks share.  [DispatchRecovery]: both together as
      a transition system ([Action], [step]) with the journal writers, cut at
      their suspensions ([run_task]), and the restart of
      S/systems/proxy/stargate/runtime/dispatch_journal_startup.py.
    - [SseFraming]: libs/sse/core.py, framing.py; [SseAccumulator]:
      libs/sse/accumulator.py.
    - With S for services/universal-stargate: [InFlight]:
      S/src/core/gateway/in_flight_requests.py, against a table of open
      requests ([Represents], [spec_op]).  [GatewayTracker]:
      S/src/core/gateway/status_registry.py, S/src/core/gateway_tracker.py and
      S/systems/federation/remote/api/slot_management.py.
    - [EvictionExecution]: S/systems/routing/eviction/executor.py and
      event_waiter.py as a transition system ([step], [reachable]): callers,
      the tasks they share through the registry, and what comes from outside.
      Callers and tasks are cut at their suspensions: [advance] and [resume]
      for [execute_eviction_plan], [start_task], [on_http], [on_wake],
      [on_timeout] and [on_published] for [_evict_single_model].

    - [SequentialExecutor]: libs/universal_event_bus/actor/sequential.py, its
      loop tasks, queue and futures as a transition system ([step],
      [reached]).  [EventBus]: events/event_bus.py there, the tasks that
      publishing makes and the loop's ready queue ([step], [play]).
      [RateLimitedSource]: backpressure/rate_limited_source.py there, calls and
      consumer cut at their suspensions.  [ErrorCodes]:
      libs/universal_protocol/error_codes.py.
    - With F for S/systems/federation/master: [CircuitBreaker]:
      F/circuit_breaker.py, one function per method, histories of timed calls
      ([run]), a specification ([Circuit], [c_step]), and its use by
      execute_federated_request of
      S/systems/proxy/core/nonstreaming/executor/federated_execution.py
      ([act], [play]).  [RequestTracker]: F/routing/orchestrator.py, tracked
      requests in a heap shared by the streams and the cancelling tasks.
      [FederatedLoad]: F/orchestration/load_terminal_wait.py (one [attempt])
      and load_orchestrator.py ([call_remote_load], then callers, futures and
      timers in [step]); its worlds contain a [RequestTracker].
      [FederatedGateways]: F/manager/federated_gateway_manager.py and the
      gateways and payloads of S/systems/federation/common/types.py, one
      function per method, histories of timed operations ([Op], [run]); it
      writes into a [CapacityPool].  [TelemetryTracker]:
      S/systems/federation/remote/telemetry/state_tracker.py and
      remote/api/telemetry.py, the polled end.  [HttpPolling]:
      S/systems/federation/link/http_polling/master, the polling end
      ([poll]), and both with the network between them ([act], [play]).

    - [Activation]: S/gateways/filtering/activation.py.  [RoutingCollectors]:
      S/systems/routing/selection/stargate_collector.py, collector.py and
      catalog.py, and S/systems/routing/aggregate_model_availability.py: from
      the gateways of the manager to the snapshots of the engine, and the
      queries on the catalogs.
    - [RouteOrchestrator]: S/systems/proxy/core/nonstreaming/federated_routing,
      the files of handler/orchestrator with wait_logic.py and
      wait_continuation.py, and ../constraint_retryable.py: the coroutine of
      one request, cut at its suspensions ([Phase], [start], [resume]), in a
      monad of state and exceptions ([M]); other requests, the gateways, the
      pool, evictions and loads are the environment.
      [RouteOrchestratorProofs]: a logic of pre- and postconditions for [M]
      ([wp]), the invariant of the suspensions ([phase_ok]), the runs
      ([reach], and [travels] with the worlds they meet) and the theorems
      about them.  [ModelRouter]:
      S/systems/routing/model_router.py, the other way into the engine.

    Functions keep their Python names, without the leading underscore.

    ** What is proved

    - Capacity pool: slots are conserved in every state reached without the
      repairs that overwrite counts ([slots_conserved], [repair_over_admits]), requests are never lost ([waiters_not_lost]),
      dispatch is work conserving, keeps order and never over-admits
      ([dispatch_guarantees]), releases return and are idempotent
      ([release_total_idempotent]), pauses hold ([pause_suspends]).
    - Engine: selections are sound ([select_sound]), total ([select_total]),
      best by the rule ([selection_rule_optimal], [hard_affinity_obeyed]) and
      independent of collection order ([selection_order_independent]);
      retries respect exclusions; sticky models stay; no selection drops a
      model in use ([select_never_evicts_in_flight]).
    - Feasibility: the tier invariants of the docstring, soundness of T1, and
      that every rejection says whether waiting helps
      ([rejection_fail_closed]).
    - Eviction: plans name only idle, unprotected models, make the room the
      later check asks for ([plan_makes_room]) and take no more victims than
      needed ([selection_minimal]); the cooldown filter and its override
      window are characterised exactly.
    - Admission: what an ADMIT guarantees and when a refusal is final
      ([vram_admit_sound], [vram_permanent_exact], [check_resources_sound]).
    - Scoring: ranges, that the score is the one its log explains, and what a
      wildcard rule matches ([glob_rule_matches]).
    - Model ids: printing and parsing round trip; valid ids mean what they
      look like ([valid_suffixes]); what an id resolves to resolves to itself
      ([resolve_idempotent]) and names its provider ([cloud_resolution_sound]);
      slugs are well-formed ([slug_well_formed]).
    - Gate and counter: bounds in every reachable state, and that the gate
      refines a lock with one FIFO line ([gate_refines_lock]; operations that
      name their request, with a fixed limit).
    - Pipelines: at most one execution holds a key
      ([executions_serialised], proved for any backend that keeps the laws of
      the interface), and keys are rendered as written ([render_key_pieces]).
    - Graphs: of the step lists with distinct ids the builder accepts exactly
      the acyclic ones ([build_correct]), expansion is exact ([expansion_correct]), the static
      analyses compute what they are called after ([topological_sort_correct],
      [step_depths_longest], [critical_path_exact],
      [parallel_siblings_exact]), and bindings parse as they print
      ([parse_binding_roundtrip]).
    - Execution, for every graph the builder returns and every interleaving:
      steps run after their dependencies, models are not shared and the
      bookkeeping agrees ([execution_safe]), there is no deadlock ([no_deadlock]), runs end
      ([execution_terminates]), states only move forward ([step_lifecycle]),
      and what a run leaves behind ([run_end]).
    - Steps: retries, time, fallback and checkpoints ([retry_exact],
      [step_time_bounded], [fallback_order], [checkpoint_rules]); map steps:
      failing fast decides like waiting ([fail_fast_equiv]), positions are
      kept ([aligned_exact]), the pool is obeyed ([select_from_pool_sound]).
    - Data flow: the handler inputs of a step are determined by its dependencies
      ([inputs_determined], [map_items_determined]), paths compose
      ([traverse_compositional], [dynamic_key_exact]), end
      ([traverse_path_equation]) and parse as they print ([path_roundtrip]);
      an iteration sees its own item and changes its step in nothing else
      ([iteration_inputs_exact], [iteration_step_exact]), and a map step
      returns what its iterations returned ([map_outputs_exact]).
    - Dispatched runs: the journal follows the tracker in whatever order the
      writers run ([journal_follows]), a restart decides every row for good,
      as long as it is not pruned ([restart_recovers], [sweep_exact], [terminal_stays]), the tracker is
      bounded and keeps active runs ([tracker_capacity]), ends are announced
      once ([dispatch_announced]); resumes are admitted exactly when they
      should be ([admission_exact]), once ([one_successor]), in their lineage
      ([lineage_exact], [resume_extends_lineage]); pruning forgets whole runs
      ([prune_exact]).
    - Event streams: chunks do not matter ([chunks_irrelevant]), formatted
      messages without newlines in their fields are read back ([sse_roundtrip], [message_roundtrip]) and
      reduced ([stream_reduced]), and every end of a stream has its documented
      reason and time ([accumulate_exact], [accumulate_bounded]).
    - Requests in flight: the tracker refines a table of open requests, each
      on one gateway ([tracker_refines_table]) and removes exactly what it should
      ([removal_exact]); slots are given back ([slot_released]) and gateways
      available as last reported ([availability_exact]).
    - Eviction: success means that the gateway reported every unload
      ([confirmed_sound]), unloads are not started twice
      ([one_task_per_model]), a report is not lost to a race
      ([no_lost_unload]), and evictions end ([eviction_terminates]).
    - A routed request: its tokens and marks are given back
      ([routing_conserves]), it goes where an engine or a loaded model it met
      justifies ([target_justified]), loads come after the evictions they need
      ([loads_after_eviction]), except for requests that recover from a
      rejection ([recovered_loads_without_eviction]), failures cannot keep it going
      ([retries_bounded]), and a request that recovers from a rejection fails
      ([recovered_request_fails]); the model router keeps to the same
      ([router_target]).  The collectors agree
      ([older_path_agrees]), the catalog queries are exact ([catalog_exact],
      [context_metadata_best], [activation_exact]) and availability is
      announced ([availability_tracked]).
    - Federation: the breaker refines one automaton per gateway and model
      ([breaker_refines]), its tables are consistent ([breaker_invariant]), it
      admits few probes ([probes_bounded]), excludes gateways by their streaks
      ([health_exact], [disconnects_exclude]), and the router's read-only
      question agrees with it ([admission_agrees]); a probe that never reports
      locks its model out ([lockout_permanent]).  Models of tracked requests
      are protected ([protection_exact], [tracking_exact]) and cancelled
      streams are silent ([no_chunk_after_cancel], [group_cancel_silences]).
      A model is loaded once for all ([single_flight]), those who wait are
      answered ([followers_not_abandoned]) and their model is protected
      ([load_protected]); attempts and retries are exact ([load_exact],
      [idle_timeout_exact]); and a cancellation at the wrong moment makes a
      failure permanent ([stale_failure_permanent]).
    - Federated gateways: what the manager stores is consistent
      ([gateways_consistent]), a model is believed to be loaded when the last
      word about it says so ([believed_exact]), and a gateway that comes back
      has its catalog ([catalog_survives_reconnect]).  Polls that arrive, from a
      remote that is not restarted, keep master and remote in step
      ([polling_in_sync], [list_delta_roundtrip]), a
      full snapshot brings them together again ([snapshot_resyncs]), and lost
      polls become rarer ([lost_polls_back_off]).
    - Sequential executor: one at a time and in order
      ([executor_sequential]), every caller served ([executor_serves]), unless
      one is cancelled ([cancelled_caller_kills]).  Events reach the active
      subscriptions ([publish_reaches_subscribers]) in order
      ([delivery_in_order]); a limited source keeps its bound, its order and its
      rate ([queue_fifo_bounded], [delivered_in_order], [rate_limited]).  A retryable error code has
      a status that says so ([retryable_status]).
    - Where modelling showed the code to differ from its documentation, a
      theorem exhibits it: [lazy_expiry_strands_queue],
      [key_locked_after_cancelled_handover], [anonymous_release_keeps_holder],
      [sticky_guard_waits_on_structural], [ram_admit_above_ceiling],
      [api_model_id_keeps_mcp], [duplicate_step_replaced],
      [nested_sub_pipeline_stays], [step_ref_not_prefixed], [run_end] and
      [abandoned_task] (registrations that leak), [timeout_blocks_fallback],
      [jitter_exceeds_cap], [fraction_modes_disagree],
      [no_success_not_aligned], [recovered_loads_without_eviction],
      [repair_over_admits], [unknown_capacity_hides_variants],
      [newline_in_event_splits], [trailing_newline_lost],
      [empty_data_rejected], [crlf_events_merge], [keepalive_stalls],
      [moved_request_lingers], [moved_request_unprotected],
      [joiner_cancels_owner], [stale_read_reopens],
      [pruned_root_blocks_resume], [undelivered_end_is_lost],
      [map_inputs_no_dependency], [dynamic_key_no_dependency],
      [custom_namespace_unreachable], [nested_key_rejected],
      [wildcard_lost_with_key], [failures_unreported],
      [resumed_iteration_unreadable], [template_input_taken_for_field],
      [lockout_permanent], [deadline_timeouts_open_circuit],
      [cooldown_admits_all], [cancelled_caller_kills],
      [cancelled_coroutine_kills], [restart_runs_two], [stop_strands_queue],
      [retrack_leaks_key], [cancelled_response_returned],
      [undelivered_cancel_forgotten], [replay_failure_loses_cancel],
      [closed_stream_not_cancelled], [cancelled_failure_sticks],
      [orphaned_load_breaks_single_flight], [event_beats_http],
      [prefix_model_confused], [url_of_another_gateway],
      [polls_wake_nobody], [heartbeat_forgets_sequence],
      [heartbeat_registers_gateway], [foreign_gateway_updated],
      [blind_mark_conflicts], [unparsable_capacity_aborts],
      [phantom_after_lost_poll], [relay_load_unreported],
      [restart_unnoticed], [both_suffixes_refused],
      [substrate_with_cloud_backend], [local_admitted_as_cloud],
      [space_before_effort_kept], [concurrent_drop_loses_both],
      [stop_loses_taken_event], [stop_strands_producer],
      [restart_breaks_rate], [republished_id_seen_twice],
      [missing_matches_none], [recovered_request_fails],
      [allowed_gateways_stale], [unreachable_after_wait],
      [overflow_loads_first], [startup_list_stale],
      [highest_depends_on_order], [empty_list_shows_three],
      [shared_remote_collides], [refused_event_lost],
      [cold_request_allowed_nowhere].

    ** Modelling choices and bounds

    - Integers are Python's, unbounded: [Z].  Floats are rationals with
      binary64 rounding but without overflow, infinities and subnormals; the
      values here are megabytes, seconds and scores.  Bounds on them are
      hypotheses where a proof needs exactness: [plan_makes_room] asks for a
      VRAM footprint up to 2^30 MB, a percentage up to 10000 and a headroom
      of at least 1 MB, [check_resources_sound] for RAM up to 2^53 MB.
    - Strings are ASCII.  A frozenset is the list of its elements in
      iteration order, without repetition up to [ModelId] equality where a
      theorem needs it; a dict keyed by [ModelId] is a [gmap] on [mkey].
    - asyncio runs one task at a time, so a stretch of code between two
      suspensions is one function; futures live in a heap since waiter and
      task share them; background tasks are entries of a table.  A clock is
      read once per stretch.  [random.shuffle] is any permutation,
      [random.uniform] an argument, and concurrent requests have distinct
      ids.
    - Fuel: [digits_fuel] gets the bit length of its argument, more than its
      number of decimal digits; [dfs] one more than the number of steps, since
      its path never repeats a step; [kahn_loop] the number of steps, since it
      processes each once; [take_frames] the length of the buffer, since each
      frame shortens it; [lineage_loop] two more than the number of claims,
      since the runs it passes are the distinct successors of claims;
      [parse_loop] the length of the path, each part of which shortens it;
      [traverse_fuel] one more, since a key is shorter than the path it
      stands in ([traverse_path_equation] states the equation of the source
      without fuel); [count] one more than the length, since every occurrence
      shortens what is left.  [retry_loop] and the loops over batches and events
      recurse on what is left.
    - The pipeline scheduler moves one loop element at a time; tasks end, a
      deadline passes and a cancellation arrives only where the coroutine can
      be suspended.  [cancel] is taken as one step.  The clock of
      [StepExecution] is rational, that of [SseAccumulator] counts ticks, and
      in both only waiting and the code that is a parameter take time.  The
      clocks of the federation count ticks too: in [CircuitBreaker] a history
      carries the time of each call, in [FederatedLoad] time passes by an
      action of its own, and how an attempt, a forward or a message ends is an
      arbitrary action.  In [FederatedGateways] the clock counts milliseconds
      and one clock stands for wall and monotonic time.  Its methods run one at
      a time, as their decorator has it.  A message whose list of models has
      ids that do not parse loses these ids; one whose single model does not
      parse, which the source then handles as a plain string, is no operation
      of the model.
    - In [RouteOrchestrator] everything shared is a [World] that may change
      in any way between two stretches.  Publishing an event does not suspend,
      nor does giving a token back; the waits for a change of state end
      whenever the environment says so.
    - The lists of a polled state are objects that several states share, so
      [TelemetryTracker] keeps them in a heap ([Heap], [alloc],
      [append_list]).  The network delivers a poll, or loses the request or the
      answer ([Network]).
    - Parameters: regular expressions of affinity rules other than globs, the
      two model ids read from YAML, for the planner the tracker of requests in
      flight and the demand and availability callbacks; for pipelines the names in a
      condition and its value, the dependency fields of a handler, the model a
      step resolves to and its drift check, powers and random factors of
      delays, the ranking of fallback models, and how tasks end; for events
      [json.dumps] and [json.loads] (a round trip asks that [dumps] writes no
      newline); for bindings the methods and built-in attributes of values
      and which objects can be keys, for map steps the handler, the
      checkpoints found and the models that meet requirements; for the journal [datetime.fromisoformat] and the prose of
      recovery hints.  What is stored as JSON is read back as it was.
      Execution ids of pipelines are distinct; the gate of a key
      is always used with limit 1.
    - [reset_cold_slot] and [reconcile_gateway_state] are defined but are not
      steps of the pool's transition system: they overwrite counts to repair
      them.  [set_limit] likewise for the gate, whose theorems fix the limit.

    ** Not modelled

    Logging and reason texts; the sockets behind the event bus; [load_routing_policy];
    collect_gateways, which nothing calls; the request
    queue, which nothing instantiates; of the federation the HTTP forwarder,
    the sockets, and of the remote side all but its telemetry; proxying and
    provider calls; of pipelines the loader, handlers and the concurrency cap of map
    steps, of the journal the migration of old databases and the enrichment of
    their payloads; the inference engines; the RAG, Cortex, agent-bus, MCP and
    git services; scripts and user interfaces.  They are I/O or separate
    programs; the validation of pipelines is the next candidate. *)
From stdpp Require Import base gmap sets list strings sorting.
From Stdlib Require Import ZArith Lia.

Declare Scope gateway_scope.
Delimit Scope gateway_scope with gw.
Open Scope gateway_scope.

(** ** Python exceptions as values

    A function of the code that may raise returns [exn A].  The constructors
    of [error] are the exception classes the modelled code raises. *)
Inductive error : Type :=
  | ValueError (msg : string)
  | TypeError (msg : string)
  | KeyError
  | IndexError
  | ZeroDivisionError
  | CapacityLimitError
  | OverReleaseError
  | TransferHolderError
  | QueueFullError (model_id : string) (current_depth max_depth : Z)
  | CapacityAcquireTimeoutError (model_id : string)
  | TimeoutError
  | RuntimeError
  | ConcurrencyLockTimeoutError (key : string)
  | CancelledError (reason : string)
  | HTTPException (status_code : Z)
  | AttributeError
  | RecursionError
  (* [ValueError]s and [PipelineExecutionError]s of the pipelines, with the
     data their messages print. *)
  | UnknownDependency (step_id dep_id : string)
  | UnknownInput (step_id input_id : string)
  | CycleDetected (cycle : list string)
  | MissingSubPipelineSpec (step_id : string)
  | MissingSubPipelineInput (step_id input_name : string)
  | StepDefinitionError (step_id : string)
  | StepFailed (step_id : string)
  | ModelDrift (step_id : string)
  | PipelineTimeout (incomplete : list string)
  | PipelineDeadlock (incomplete : list string)
  | SSEParseError
  | SSEReductionError (original : error)
  | SSEStallError (elapsed_seconds : Z)
  | SSETimeoutError (elapsed_seconds : Z)
  | SSEProviderError
  | IntegrityError
  | TrackerCapacityError
  | BindingResolutionError (step_name field_name binding_repr : string)
  | InvalidNamespaceError (namespace : string)
  | NotImplementedError.

Inductive exn (A : Type) : Type :=
  | Ok (a : A)
  | Raise (e : error).
Arguments Ok {A} a.
Arguments Raise {A} e.

Definition exn_bind {A B : Type} (m : exn A) (k : A -> exn B) : exn B :=
  match m with
  | Ok a => k a
  | Raise e => Raise e
  end.

Notation "'let?' x := m 'in' k" := (exn_bind m (fun x => k))
  (at level 10, x pattern, m at level 100, k at level 200)
  : gateway_scope.

(** [[f(x) for x in l]], where [f] may raise. *)
Definition exn_map {A B : Type} (f : A -> exn B) : list A -> exn (list B) :=
  fix go l :=
    match l with
    | [] => Ok []
    | a :: l' => let? b := f a in let? bs := go l' in Ok (b :: bs)
    end.

Definition is_ok {A : Type} (m : exn A) : bool :=
  match m with Ok _ => true | Raise _ => false end.

(** ** Python [sorted(l, key=...)]

    [lt x y] is the strict comparison of the keys.  Insertion from the right
    keeps the input order of elements with equal keys, as Python's stable
    sort does. *)
Section StableSort.
Context {A : Type} (lt : A -> A -> bool).

Fixpoint insert_by (x : A) (l : list A) : list A :=
  match l with
  | [] => [x]
  | y :: l' => if lt y x then y :: insert_by x l' else x :: y :: l'
  end.

Fixpoint sort_by (l : list A) : list A :=
  match l with
  | [] => []
  | x :: l' => insert_by x (sort_by l')
  end.

End StableSort.

(** What a key comparison has to satisfy for sorting to mean anything. *)
Class StrictWeakOrder {A : Type} (lt : A -> A -> bool) : Prop := {
  swo_irrefl : forall x, lt x x = false;
  swo_neg_trans : forall x y z, lt x y = false -> lt y z = false -> lt x z = false;
  swo_asym : forall x y, lt x y = true -> lt y x = false
}.

(** ** Python dictionaries whose iteration order is observed

    An insertion-ordered association list: assignment to a present key keeps
    its position, a new key goes to the end. *)
Section PyDict.
Context {K V : Type} `{EqDecision K}.

Fixpoint dget (k : K) (d : list (K * V)) : option V :=
  match d with
  | [] => None
  | (k', v) :: d' => if decide (k = k') then Some v else dget k d'
  end.

Fixpoint dset (k : K) (v : V) (d : list (K * V)) : list (K * V) :=
  match d with
  | [] => [(k, v)]
  | (k', v') :: d' =>
      if decide (k = k') then (k, v) :: d' else (k', v') :: dset k v d'
  end.

Fixpoint ddel (k : K) (d : list (K * V)) : list (K * V) :=
  match d with
  | [] => []
  | (k', v') :: d' => if decide (k = k') then d' else (k', v') :: ddel k d'
  end.

Definition dkeys (d : list (K * V)) : list K := map fst d.

End PyDict.

(** [d.get(k, default)] *)
Definition get_or {A : Type} (default : A) (o : option A) : A :=
  match o with Some a => a | None => default end.

(** [s or t] on optional strings. *)
Definition or_else (s : option string) (t : string) : string :=
  match s with Some s => if bool_decide (s = ""%string) then t else s | None => t end.

(** ** Tactics *)

(** Destruct the scrutinee of the first [match] or [if] in the goal. *)
Ltac case_goal :=
  match goal with
  | |- context [match ?x with _ => _ end] =>
      match x with
      | context [match _ with _ => _ end] => fail 1
      | _ => destruct x eqn:?
      end
  end.

(** The same in a hypothesis. *)
Ltac case_hyp H :=
  match type of H with
  | context [match ?x with _ => _ end] =>
      match x with
      | context [match _ with _ => _ end] => fail 1
      | _ => destruct x eqn:?
      end
  end.

(** Turn boolean comparisons of the context into propositions. *)
Ltac to_prop :=
  repeat match goal with
  | H : andb _ _ = true |- _ => apply andb_true_iff in H as [? ?]
  | H : orb _ _ = false |- _ => apply orb_false_iff in H as [? ?]
  | H : negb _ = true |- _ => apply negb_true_iff in H
  | H : negb _ = false |- _ => apply negb_false_iff in H
  | H : Z.leb _ _ = true |- _ => apply Z.leb_le in H
  | H : Z.leb _ _ = false |- _ => apply Z.leb_gt in H
  | H : Z.ltb _ _ = true |- _ => apply Z.ltb_lt in H
  | H : Z.ltb _ _ = false |- _ => apply Z.ltb_ge in H
  | H : Z.eqb _ _ = true |- _ => apply Z.eqb_eq in H
  | H : Z.eqb _ _ = false |- _ => apply Z.eqb_neq in H
  | H : bool_decide _ = true |- _ => apply bool_decide_eq_true in H
  | H : bool_decide _ = false |- _ => apply bool_decide_eq_false in H
  end.

Create HintDb routing.

(** ** Error monad *)

Lemma exn_bind_ok {A B} (m : exn A) (k : A -> exn B) b :
  exn_bind m k = Ok b -> exists a, m = Ok a /\ k a = Ok b.
Proof. destruct m; simpl; intros H; [eauto | discriminate]. Qed.

(** Open up a chain of binds that returned normally. *)
Ltac inv_bind H :=
  let a := fresh "a" in
  let Ha := fresh "Ha" in
  apply exn_bind_ok in H as (a & Ha & H).

(** ** Lists *)

Lemma elem_of_lfilter {A} (f : A -> bool) (l : list A) x :
  x ∈ List.filter f l <-> x ∈ l /\ f x = true.
Proof. rewrite !list_elem_of_In. apply filter_In. Qed.

Lemma elem_of_rev {A} (l : list A) x : x ∈ rev l <-> x ∈ l.
Proof. rewrite !list_elem_of_In. symmetry. apply in_rev. Qed.

Lemma lfilter_nil_iff {A} (f : A -> bool) (l : list A) :
  List.filter f l = [] <-> forall x, x ∈ l -> f x = false.
Proof.
  split.
  - intros H x Hx. apply not_true_iff_false. intros Hf.
    assert (Hin : x ∈ List.filter f l) by (apply elem_of_lfilter; done).
    rewrite H in Hin. inversion Hin.
  - intros H. induction l as [|x l IH]; simpl; [done|].
    rewrite H by constructor. apply IH. intros y Hy. apply H. by constructor.
Qed.

Lemma lfilter_ext_in {A} (f g : A -> bool) (l : list A) :
  (forall x, x ∈ l -> f x = g x) -> List.filter f l = List.filter g l.
Proof. intros H. apply filter_ext_in. intros x Hx. apply H. by apply list_elem_of_In. Qed.

Lemma lfilter_true {A} (l : list A) : List.filter (fun _ => true) l = l.
Proof. induction l as [|x l IH]; simpl; [done | by rewrite IH]. Qed.

Lemma lfilter_perm {A} (f : A -> bool) (l l' : list A) :
  l ≡ₚ l' -> List.filter f l ≡ₚ List.filter f l'.
Proof.
  induction 1 as [|x ? ? ? IH|x y ?|]; simpl;
    [done | destruct (f x); by rewrite ?IH | destruct (f x), (f y); done || constructor | by etrans].
Qed.

Lemma sublist_map {A B} (f : A -> B) (l k : list A) :
  l `sublist_of` k -> map f l `sublist_of` map f k.
Proof. induction 1; simpl; by constructor. Qed.

Lemma lfilter_sublist {A} (f : A -> bool) (l : list A) : List.filter f l `sublist_of` l.
Proof. induction l as [|x l IH]; simpl; [done|]. destruct (f x); by constructor. Qed.

Lemma sum_list_with_le {A} (f g : A -> nat) (l : list A) :
  (forall x, x ∈ l -> (f x <= g x)%nat) -> (sum_list_with f l <= sum_list_with g l)%nat.
Proof.
  induction l as [|x l IH]; intros H; simpl; [lia|].
  assert (sum_list_with f l <= sum_list_with g l)%nat by (apply IH; intros y Hy; apply H; by right).
  specialize (H x ltac:(by left)). lia.
Qed.

Lemma sum_list_with_lt {A} (f g : A -> nat) (l : list A) y :
  (forall x, x ∈ l -> (f x <= g x)%nat) -> y ∈ l -> (f y < g y)%nat ->
  (sum_list_with f l < sum_list_with g l)%nat.
Proof.
  intros H Hy Hlt. apply list_elem_of_split in Hy as (l1 & l2 & ->). rewrite !sum_list_with_app. simpl.
  pose proof (sum_list_with_le f g l1 ltac:(set_solver)). pose proof (sum_list_with_le f g l2 ltac:(set_solver)). lia.
Qed.

Lemma NoDup_lfilter {A} (f : A -> bool) (l : list A) : NoDup l -> NoDup (List.filter f l).
Proof. intros H. eapply sublist_NoDup; [exact H | apply lfilter_sublist]. Qed.

Lemma lfilter_sublist_mono {A} (f f' : A -> bool) (l l' : list A) :
  l' `sublist_of` l -> (forall x, x ∈ l' -> f' x = true -> f x = true) ->
  List.filter f' l' `sublist_of` List.filter f l.
Proof.
  induction 1 as [|x l' l Hs IH|x l' l Hs IH]; simpl; intros Hf; [done| |].
  - assert (IH' : List.filter f' l' `sublist_of` List.filter f l)
      by (apply IH; intros y Hy; apply Hf; by right).
    destruct (f' x) eqn:E; [rewrite (Hf x ltac:(left) E); by constructor|].
    destruct (f x); [by constructor | done].
  - destruct (f x); [constructor|]; by apply IH.
Qed.

Lemma lfilter_length_le {A} (f g : A -> bool) (l : list A) :
  (forall x, x ∈ l -> g x = true -> f x = true) ->
  (length (List.filter g l) <= length (List.filter f l))%nat.
Proof.
  induction l as [|x l IH]; simpl; intros H; [lia|].
  assert (IH' := IH (fun y Hy => H y ltac:(by right))).
  specialize (H x ltac:(by left)). destruct (g x); [rewrite H by done; simpl; lia|].
  destruct (f x); simpl; lia.
Qed.

Lemma lfilter_length_lt {A} (f g : A -> bool) (l : list A) y :
  (forall x, x ∈ l -> g x = true -> f x = true) -> y ∈ l -> f y = true -> g y = false ->
  (length (List.filter g l) < length (List.filter f l))%nat.
Proof.
  intros H Hy Hf Hg. apply list_elem_of_split in Hy as (l1 & l2 & ->).
  rewrite !List.filter_app, !length_app. simpl. rewrite Hf, Hg. simpl.
  pose proof (lfilter_length_le f g l1 ltac:(set_solver)).
  pose proof (lfilter_length_le f g l2 ltac:(set_solver)). lia.
Qed.

Lemma NoDup_map_inj {A B} (f : A -> B) (l : list A) x y :
  NoDup (map f l) -> x ∈ l -> y ∈ l -> f x = f y -> x = y.
Proof.
  intros Hnd [i Hi]%list_elem_of_lookup [j Hj]%list_elem_of_lookup He.
  assert (i = j) as ->; [|congruence].
  apply (NoDup_lookup (map f l) i j (f x) Hnd).
  - by rewrite list_lookup_fmap, Hi.
  - by rewrite list_lookup_fmap, Hj, He.
Qed.

(** ** Sorting *)

Section StableSortFacts.
Context {A : Type} (lt : A -> A -> bool) `{!StrictWeakOrder lt}.

Lemma insert_by_perm x (l : list A) : insert_by lt x l ≡ₚ x :: l.
Proof.
  induction l as [|y l IH]; simpl; [done|].
  destruct (lt y x); [|done]. rewrite IH. constructor.
Qed.

Lemma sort_by_perm (l : list A) : sort_by lt l ≡ₚ l.
Proof.
  induction l as [|x l IH]; simpl; [done|].
  by rewrite insert_by_perm, IH.
Qed.

Lemma elem_of_sort_by x (l : list A) : x ∈ sort_by lt l <-> x ∈ l.
Proof. by rewrite sort_by_perm. Qed.

Lemma length_sort_by (l : list A) : length (sort_by lt l) = length l.
Proof. by rewrite sort_by_perm. Qed.

Lemma sort_by_nil_iff (l : list A) : sort_by lt l = [] <-> l = [].
Proof.
  split; [|by intros ->]. intros H. apply Permutation_nil_r.
  rewrite <- H. symmetry. apply sort_by_perm.
Qed.

Definition le_by (x y : A) : Prop := lt y x = false.

Lemma le_by_trans x y z : le_by x y -> le_by y z -> le_by x z.
Proof. unfold le_by. intros H1 H2. by eapply swo_neg_trans. Qed.

Lemma insert_by_sorted x (l : list A) :
  StronglySorted le_by l -> StronglySorted le_by (insert_by lt x l).
Proof.
  induction 1 as [|y l Hs IH Hy]; simpl.
  { repeat constructor. }
  destruct (lt y x) eqn:E.
  - constructor; [done|].
    apply Forall_forall. intros z Hz. rewrite insert_by_perm in Hz.
    apply elem_of_cons in Hz as [->|Hz].
    + unfold le_by. by apply swo_asym.
    + by eapply Forall_forall in Hy.
  - constructor; [by constructor|]. constructor; [done|].
    eapply Forall_impl; [exact Hy|]. intros z Hz. simpl.
    by eapply le_by_trans.
Qed.

Lemma sort_by_sorted (l : list A) : StronglySorted le_by (sort_by lt l).
Proof.
  induction l; simpl; [constructor|]. by apply insert_by_sorted.
Qed.

(** The head of a sorted list is a minimum of the input. *)
Lemma sort_by_head_min h t (l : list A) :
  sort_by lt l = h :: t -> h ∈ l /\ forall x, x ∈ l -> lt x h = false.
Proof.
  intros E. split.
  { apply elem_of_sort_by. rewrite E. constructor. }
  intros x Hx. apply elem_of_sort_by in Hx. rewrite E in Hx.
  apply elem_of_cons in Hx as [->|Hx]; [apply swo_irrefl|].
  pose proof (sort_by_sorted l) as Hs. rewrite E in Hs.
  inv Hs. by eapply Forall_forall in H2.
Qed.

End StableSortFacts.

(** ** Dictionaries *)

Section PyDictFacts.
Context {K V : Type} `{EqDecision K}.
Implicit Types d : list (K * V).

Lemma dget_dset_eq k v d : dget k (dset k v d) = Some v.
Proof.
  induction d as [|[k' v'] d IH]; simpl; [by rewrite decide_True|].
  destruct (decide (k = k')) as [->|]; simpl; case_decide; done.
Qed.

Lemma dget_dset_ne k k' v d : k <> k' -> dget k' (dset k v d) = dget k' d.
Proof.
  intros Hne. induction d as [|[j w] d IH]; simpl.
  { by rewrite decide_False. }
  destruct (decide (k = j)) as [->|]; simpl; repeat case_decide; congruence.
Qed.

Lemma dget_ddel_ne k k' d : k <> k' -> dget k' (ddel k d) = dget k' d.
Proof.
  intros Hne. induction d as [|[j w] d IH]; simpl; [done|].
  destruct (decide (k = j)) as [->|]; simpl; repeat case_decide; congruence.
Qed.

Lemma dget_app k d d' : dget k (d ++ d') = match dget k d with Some v => Some v | None => dget k d' end.
Proof. induction d as [|[k' v] d IH]; simpl; [done|]. by case_decide. Qed.

Lemma dget_None k d : dget k d = None <-> k ∉ dkeys d.
Proof.
  induction d as [|[j w] d IH]; simpl.
  { split; [intros _ H; inversion H | done]. }
  rewrite not_elem_of_cons. case_decide; naive_solver.
Qed.

Lemma dget_Some_in k v d : dget k d = Some v -> (k, v) ∈ d.
Proof.
  induction d as [|[j w] d IH]; simpl; [done|].
  case_decide; subst; intros; simplify_eq; [by left | right; auto].
Qed.

Lemma dkeys_ddel_subset k k' d : k' ∈ dkeys (ddel k d) -> k' ∈ dkeys d.
Proof.
  induction d as [|[j w] d IH]; simpl; [done|].
  destruct (decide (k = j)); simpl; rewrite ?elem_of_cons; naive_solver.
Qed.

Lemma NoDup_dkeys_ddel k d : NoDup (dkeys d) -> NoDup (dkeys (ddel k d)).
Proof.
  induction d as [|[j w] d IH]; simpl; [done|].
  intros [Hj Hd]%NoDup_cons. destruct (decide (k = j)); simpl; [done|].
  apply NoDup_cons. split; [|auto]. contradict Hj. by eapply dkeys_ddel_subset.
Qed.

Lemma dget_ddel_eq k d : NoDup (dkeys d) -> dget k (ddel k d) = None.
Proof.
  induction d as [|[j w] d IH]; simpl; [done|].
  intros [Hj Hd]%NoDup_cons. destruct (decide (k = j)) as [->|]; simpl.
  - by apply dget_None.
  - rewrite decide_False by done. auto.
Qed.

Lemma elem_of_dkeys_dset k k' v d : k' ∈ dkeys (dset k v d) <-> k' = k \/ k' ∈ dkeys d.
Proof.
  induction d as [|[j w] d IH]; simpl.
  { rewrite elem_of_cons. naive_solver. }
  destruct (decide (k = j)) as [->|]; simpl; rewrite !elem_of_cons; naive_solver.
Qed.

Lemma dkeys_dset_present k v d : k ∈ dkeys d -> dkeys (dset k v d) = dkeys d.
Proof.
  induction d as [|[j w] d IH]; simpl; [by inversion 1|]. intros Hk.
  destruct (decide (k = j)) as [->|]; simpl; [done|]. f_equal. apply IH.
  by apply elem_of_cons in Hk as [|].
Qed.

Lemma dkeys_dset_absent k v d : k ∉ dkeys d -> dkeys (dset k v d) = dkeys d ++ [k].
Proof.
  induction d as [|[j w] d IH]; simpl; [done|]. intros [Hj Hd]%not_elem_of_cons.
  rewrite decide_False by done. simpl. f_equal. by apply IH.
Qed.

Lemma dget_Some_key k v d : dget k d = Some v -> k ∈ dkeys d.
Proof. intros H. destruct (decide (k ∈ dkeys d)) as [|Hn]; [done | apply dget_None in Hn; congruence]. Qed.

Lemma dkeys_dget k d : k ∈ dkeys d -> exists v, dget k d = Some v.
Proof. intros H. destruct (dget k d) eqn:E; [eauto | by apply dget_None in E]. Qed.

Lemma elem_of_dget k v d : NoDup (dkeys d) -> (k, v) ∈ d -> dget k d = Some v.
Proof.
  induction d as [|[j w] d IH]; simpl; [by inversion 2|]. intros [Hj Hd]%NoDup_cons.
  intros [[= -> ->]|Hin]%elem_of_cons; [by rewrite decide_True|].
  rewrite decide_False; [by apply IH|]. intros ->. apply Hj.
  change j with (fst (j, v)). by apply list_elem_of_fmap_2.
Qed.

Lemma NoDup_dkeys_dset k v d : NoDup (dkeys d) -> NoDup (dkeys (dset k v d)).
Proof.
  induction d as [|[j w] d IH]; simpl; intros Hd.
  { apply NoDup_singleton. }
  apply NoDup_cons in Hd as [Hj Hd].
  destruct (decide (k = j)) as [->|]; simpl; apply NoDup_cons; split; auto.
  rewrite elem_of_dkeys_dset. naive_solver.
Qed.

End PyDictFacts.

#[export] Hint Resolve NoDup_dkeys_dset NoDup_dkeys_ddel : routing.
