(* ===== verification/PyFloat.v ===== *)
(** * Python floats: IEEE binary64 arithmetic on exact rationals

    A finite float is the rational number it denotes.  Every operation is the
    exact operation followed by one rounding to 53 significant bits, ties to
    even, which is how CPython evaluates [+ - * /] on floats and [int / int].
    Overflow to infinity, subnormal results and NaN are outside the model: the
    modelled code computes with megabyte counts, percentages, seconds and
    scores, far inside the normal range. *)
From Stdlib Require Import ZArith QArith Qround Qpower Qabs Lia Lqa.
From stdpp Require Import base.
From S2P Require Import Prelude.
Local Open Scope Q_scope.

(** ** Rounding *)

(** Round half to even to an integer. *)
Definition rne (x : Q) : Z :=
  let f := Qfloor x in
  match Qcompare (x - inject_Z f) (1#2) with
  | Lt => f
  | Gt => f + 1
  | Eq => if Z.even f then f else f + 1
  end%Z.

(** Binary exponent of a positive rational: [2^k <= q < 2^(k+1)]. *)
Definition qlog2 (q : Q) : Z :=
  let l := (Z.log2 (Qnum q) - Z.log2 (Zpos (Qden q)))%Z in
  if Qle_bool (2 ^ l) q then l else (l - 1)%Z.

(** Unit in the last place of a positive rational. *)
Definition ulp (q : Q) : Q := 2 ^ (qlog2 q - 52).

Definition rnd_pos (q : Q) : Q := inject_Z (rne (q / ulp q)) * ulp q.

Definition rnd (q : Q) : Q :=
  match Qcompare q 0 with
  | Eq => 0
  | Gt => Qred (rnd_pos q)
  | Lt => Qred (- rnd_pos (- q))
  end.

(** ** The operations *)

Definition of_int (n : Z) : Q := rnd (inject_Z n).
Definition fadd (a b : Q) : Q := rnd (a + b).
Definition fsub (a b : Q) : Q := rnd (a - b).
Definition fmul (a b : Q) : Q := rnd (a * b).
(** [a / b]; the callers guard [b <> 0] or raise [ZeroDivisionError]. *)
Definition fdiv (a b : Q) : Q := rnd (a / b).

(** [int(x)] truncates towards zero. *)
Definition py_int (x : Q) : Z := if Qle_bool 0 x then Qfloor x else Qceiling x.

(** Comparisons of floats, and of a float with an int, are exact. *)
Definition fle (a b : Q) : bool := Qle_bool a b.
Definition flt (a b : Q) : bool := negb (Qle_bool b a).
Definition feq (a b : Q) : bool := Qeq_bool a b.
(** [max(a, b)] keeps the first argument unless the second is greater. *)
Definition fmax (a b : Q) : Q := if flt a b then b else a.
Definition fmin (a b : Q) : Q := if flt b a then b else a.

(** [int(n * (1.0 + pct / 100))], the margin idiom of the resource checks. *)
Definition scale_pct (n : Z) (pct : Q) : Z :=
  py_int (fmul (of_int n) (fadd 1 (fdiv pct 100))).

(** [int(n * (pct / 100))] *)
Definition pct_of (n : Z) (pct : Q) : Z :=
  py_int (fmul (of_int n) (fdiv pct 100)).

(** ** Comparisons *)

Lemma fle_spec a b : fle a b = true <-> a <= b.
Proof. apply Qle_bool_iff. Qed.

Lemma fle_false a b : fle a b = false <-> b < a.
Proof.
  unfold fle. rewrite <- not_true_iff_false, Qle_bool_iff. split; intros H.
  - now apply Qnot_le_lt.
  - now apply Qlt_not_le.
Qed.

Lemma flt_spec a b : flt a b = true <-> a < b.
Proof. unfold flt. rewrite negb_true_iff. apply fle_false. Qed.

Lemma flt_false a b : flt a b = false <-> b <= a.
Proof. unfold flt. rewrite negb_false_iff. apply Qle_bool_iff. Qed.

Lemma feq_spec a b : feq a b = true <-> a == b.
Proof. apply Qeq_bool_iff. Qed.

Ltac q_prop :=
  repeat match goal with
  | H : fle _ _ = true |- _ => apply fle_spec in H
  | H : fle _ _ = false |- _ => apply fle_false in H
  | H : flt _ _ = true |- _ => apply flt_spec in H
  | H : flt _ _ = false |- _ => apply flt_false in H
  | H : feq _ _ = true |- _ => apply feq_spec in H
  | H : Qle_bool _ _ = true |- _ => apply Qle_bool_iff in H
  end.

Lemma fmax_l a b : a <= fmax a b.
Proof. unfold fmax. destruct (flt a b) eqn:E; q_prop; lra. Qed.

Lemma fmax_r a b : b <= fmax a b.
Proof. unfold fmax. destruct (flt a b) eqn:E; q_prop; lra. Qed.

Lemma fmin_l a b : fmin a b <= a.
Proof. unfold fmin. destruct (flt b a) eqn:E; q_prop; lra. Qed.

Lemma fmin_r a b : fmin a b <= b.
Proof. unfold fmin. destruct (flt b a) eqn:E; q_prop; lra. Qed.

Lemma fmax_mono a b b' : b <= b' -> fmax a b <= fmax a b'.
Proof.
  intros H. unfold fmax.
  destruct (flt a b) eqn:E1, (flt a b') eqn:E2; q_prop; lra.
Qed.

Lemma fmin_mono a b b' : b <= b' -> fmin a b <= fmin a b'.
Proof.
  intros H. unfold fmin.
  destruct (flt b a) eqn:E1, (flt b' a) eqn:E2; q_prop; lra.
Qed.

Lemma fmax_case (P : Q -> Prop) a b : P a -> P b -> P (fmax a b).
Proof. unfold fmax. destruct (flt a b); auto. Qed.

Lemma fmin_case (P : Q -> Prop) a b : P a -> P b -> P (fmin a b).
Proof. unfold fmin. destruct (flt b a); auto. Qed.

(** ** Rounding to an integer *)

Lemma floor_frac x : inject_Z (Qfloor x) <= x /\ x < inject_Z (Qfloor x) + 1.
Proof.
  split; [apply Qfloor_le|].
  pose proof (Qlt_floor x) as H. rewrite inject_Z_plus in H. exact H.
Qed.

Lemma rne_choice x :
  (rne x = Qfloor x /\ x - inject_Z (Qfloor x) <= 1#2) \/
  (rne x = (Qfloor x + 1)%Z /\ 1#2 <= x - inject_Z (Qfloor x)).
Proof.
  unfold rne. destruct (Qcompare _ _) eqn:E.
  - apply Qeq_alt in E. destruct (Z.even _); [left|right]; split; auto; lra.
  - apply Qlt_alt in E. left. split; auto. lra.
  - apply Qgt_alt in E. right. split; auto. lra.
Qed.

Lemma rne_err x : inject_Z (rne x) - x <= 1#2 /\ x - inject_Z (rne x) <= 1#2.
Proof.
  pose proof (floor_frac x) as [? ?].
  destruct (rne_choice x) as [[-> ?]|[-> ?]];
    rewrite ?inject_Z_plus; change (inject_Z 1) with 1; split; lra.
Qed.

Lemma rne_int n : rne (inject_Z n) = n.
Proof.
  destruct (rne_choice (inject_Z n)) as [[-> _]|[_ H]]; rewrite Qfloor_Z in *; auto.
  lra.
Qed.

Lemma rne_comp x y : x == y -> rne x = rne y.
Proof.
  intros H. unfold rne. rewrite (Qfloor_comp _ _ H).
  assert (E : Qcompare (x - inject_Z (Qfloor y)) (1#2)
            = Qcompare (y - inject_Z (Qfloor y)) (1#2)) by now rewrite H.
  now rewrite E.
Qed.

Lemma rne_mono x y : x <= y -> (rne x <= rne y)%Z.
Proof.
  intros H. pose proof (Qfloor_resp_le _ _ H) as Hf.
  destruct (Z.eq_dec (Qfloor x) (Qfloor y)) as [E|E].
  - unfold rne. rewrite E.
    destruct (Qcompare (x - _) _) eqn:Ex, (Qcompare (y - _) _) eqn:Ey;
      try (destruct (Z.even _)); try lia;
      rewrite <- ?Qeq_alt, <- ?Qlt_alt, <- ?Qgt_alt in *; lra.
  - destruct (rne_choice x) as [[-> _]|[-> _]], (rne_choice y) as [[-> _]|[-> _]]; lia.
Qed.

Lemma rne_ge n x : inject_Z n <= x -> (n <= rne x)%Z.
Proof. intros H. rewrite <- (rne_int n). now apply rne_mono. Qed.

Lemma rne_le n x : x <= inject_Z n -> (rne x <= n)%Z.
Proof. intros H. rewrite <- (rne_int n). now apply rne_mono. Qed.

(** ** Binary exponent *)

Lemma pow2_pos k : 0 < 2 ^ k.
Proof. apply Qpower_0_lt. reflexivity. Qed.

Lemma pow2_plus a b : 2 ^ (a + b) == 2 ^ a * 2 ^ b.
Proof. apply Qpower_plus. discriminate. Qed.

Lemma pow2_succ k : 2 ^ (k + 1) == 2 * 2 ^ k.
Proof. rewrite pow2_plus. change (2 ^ 1) with 2. ring. Qed.

Lemma pow2_le a b : (a <= b)%Z -> 2 ^ a <= 2 ^ b.
Proof. intros H. apply Qpower_le_compat_l; [auto|]. discriminate. Qed.

Lemma pow2_Z n : (0 <= n)%Z -> inject_Z (2 ^ n) == 2 ^ n.
Proof. intros H. now rewrite Zpower_Qpower. Qed.

Lemma log2_Q n : (0 < n)%Z ->
  2 ^ (Z.log2 n) <= inject_Z n /\ inject_Z n < 2 ^ (Z.log2 n + 1).
Proof.
  intros H. pose proof (Z.log2_spec n H) as [Hl Hu].
  pose proof (Z.log2_nonneg n).
  rewrite <- !pow2_Z by lia. rewrite <- Zle_Qle, <- Zlt_Qlt.
  rewrite Z.add_1_r. auto.
Qed.

Lemma Q_num_den q : q * inject_Z (Zpos (Qden q)) == inject_Z (Qnum q).
Proof. destruct q as [n d]. unfold Qeq, Qmult, inject_Z. simpl. lia. Qed.

Lemma qlog2_spec q : 0 < q -> 2 ^ qlog2 q <= q /\ q < 2 ^ (qlog2 q + 1).
Proof.
  intros Hq. assert (Hn : (0 < Qnum q)%Z).
  { destruct q as [n d]. unfold Qlt in Hq. simpl in *. lia. }
  pose proof (log2_Q (Qnum q) Hn) as [Ha Ha'].
  pose proof (log2_Q (Zpos (Qden q)) eq_refl) as [Hb Hb'].
  pose proof (Q_num_den q) as Hnd.
  set (a := Z.log2 (Qnum q)) in *. set (b := Z.log2 (Zpos (Qden q))) in *.
  assert (Hd : 0 < inject_Z (Zpos (Qden q))) by reflexivity.
  set (d := inject_Z (Zpos (Qden q))) in *.
  assert (Hlo : 2 ^ (a - b - 1) <= q).
  { apply (Qmult_le_r _ _ d Hd). rewrite Hnd.
    apply Qle_trans with (2 ^ (a - b - 1) * 2 ^ (b + 1)).
    - apply Qmult_le_l; [apply pow2_pos | now apply Qlt_le_weak].
    - rewrite <- pow2_plus. now replace (a - b - 1 + (b + 1))%Z with a by lia. }
  assert (Hhi : q < 2 ^ (a - b + 1)).
  { apply (Qmult_lt_r _ _ d Hd). rewrite Hnd.
    apply Qlt_le_trans with (2 ^ (a + 1)); [assumption|].
    replace (a + 1)%Z with (a - b + 1 + b)%Z by lia. rewrite pow2_plus.
    apply Qmult_le_l; [apply pow2_pos | assumption]. }
  unfold qlog2. fold a b. destruct (Qle_bool (2 ^ (a - b)) q) eqn:E.
  - apply Qle_bool_iff in E. auto.
  - split; [assumption|]. replace (a - b - 1 + 1)%Z with (a - b)%Z by lia.
    apply Qnot_le_lt. rewrite <- Qle_bool_iff. now rewrite E.
Qed.

Lemma qlog2_mono p q : 0 < p -> p <= q -> (qlog2 p <= qlog2 q)%Z.
Proof.
  intros Hp Hpq. pose proof (qlog2_spec p Hp) as [H1 _].
  pose proof (qlog2_spec q ltac:(lra)) as [_ H2].
  assert (H : 2 ^ qlog2 p < 2 ^ (qlog2 q + 1)) by lra.
  apply Qpower_lt_compat_l_inv in H; [lia | reflexivity].
Qed.

Lemma ulp_pos q : 0 < ulp q.
Proof. apply pow2_pos. Qed.

Lemma ulp_scale q : 0 < q ->
  inject_Z (2 ^ 52) * ulp q <= q /\ q < inject_Z (2 ^ 53) * ulp q.
Proof.
  intros H. pose proof (qlog2_spec q H) as [Hl Hu]. unfold ulp.
  rewrite !pow2_Z, <- !pow2_plus by lia.
  replace (52 + (qlog2 q - 52))%Z with (qlog2 q) by lia.
  now replace (53 + (qlog2 q - 52))%Z with (qlog2 q + 1)%Z by lia.
Qed.

(** ** Rounding to 53 bits *)

Lemma rnd_pos_bounds q : 0 < q ->
  (2 ^ 52 <= rne (q / ulp q))%Z /\ (rne (q / ulp q) <= 2 ^ 53)%Z.
Proof.
  intros H. pose proof (ulp_pos q). pose proof (ulp_scale q H) as [Hl Hu].
  split.
  - apply rne_ge. apply Qle_shift_div_l; assumption.
  - apply rne_le. apply Qle_shift_div_r; [assumption|]. now apply Qlt_le_weak.
Qed.

Lemma rnd_pos_range q : 0 < q ->
  2 ^ qlog2 q <= rnd_pos q /\ rnd_pos q <= 2 ^ (qlog2 q + 1).
Proof.
  intros H. pose proof (rnd_pos_bounds q H) as [Hl Hu].
  pose proof (ulp_pos q) as Hp. unfold rnd_pos.
  rewrite Zle_Qle in Hl, Hu.
  assert (E52 : inject_Z (2 ^ 52) * ulp q == 2 ^ qlog2 q).
  { unfold ulp. rewrite pow2_Z, <- pow2_plus by lia.
    now replace (52 + (qlog2 q - 52))%Z with (qlog2 q) by lia. }
  assert (E53 : inject_Z (2 ^ 53) * ulp q == 2 ^ (qlog2 q + 1)).
  { unfold ulp. rewrite pow2_Z, <- pow2_plus by lia.
    now replace (53 + (qlog2 q - 52))%Z with (qlog2 q + 1)%Z by lia. }
  rewrite <- E52, <- E53. split; apply Qmult_le_compat_r; auto; lra.
Qed.

Lemma rnd_pos_mono p q : 0 < p -> p <= q -> rnd_pos p <= rnd_pos q.
Proof.
  intros Hp Hpq. assert (Hq : 0 < q) by lra.
  pose proof (qlog2_mono p q Hp Hpq) as Hk.
  destruct (Z.eq_dec (qlog2 p) (qlog2 q)) as [E|E].
  - unfold rnd_pos, ulp. rewrite E. pose proof (pow2_pos (qlog2 q - 52)) as Hu.
    apply Qmult_le_compat_r; [|lra]. rewrite <- Zle_Qle. apply rne_mono.
    apply Qmult_le_compat_r; [assumption|].
    apply Qlt_le_weak, Qinv_lt_0_compat, Hu.
  - pose proof (rnd_pos_range p Hp) as [_ H1].
    pose proof (rnd_pos_range q Hq) as [H2 _].
    assert (2 ^ (qlog2 p + 1) <= 2 ^ qlog2 q) by (apply pow2_le; lia). lra.
Qed.

Lemma rnd_pos_comp p q : 0 < q -> p == q -> rnd_pos p == rnd_pos q.
Proof. intros H E. apply Qle_antisym; apply rnd_pos_mono; lra. Qed.

Lemma rnd_pos_err q : 0 < q ->
  rnd_pos q - q <= q * 2 ^ (-53) /\ q - rnd_pos q <= q * 2 ^ (-53).
Proof.
  intros H. pose proof (ulp_pos q) as Hu. pose proof (ulp_scale q H) as [Hl _].
  pose proof (rne_err (q / ulp q)) as [H1 H2]. unfold rnd_pos.
  assert (E : q == q / ulp q * ulp q) by (field; lra).
  assert (Hh : (1#2) * ulp q <= q * 2 ^ (-53)).
  { apply Qle_trans with (inject_Z (2 ^ 52) * ulp q * 2 ^ (-53)).
    - rewrite pow2_Z by lia.
      rewrite (Qmult_comm (2 ^ 52)), <- Qmult_assoc, <- pow2_plus.
      change (2 ^ (52 + -53)) with (1#2). rewrite Qmult_comm. apply Qle_refl.
    - apply Qmult_le_compat_r; [assumption|]. apply Qlt_le_weak, pow2_pos. }
  set (m := inject_Z (rne (q / ulp q))) in *. set (x := q / ulp q) in *.
  rewrite E at 2 4. split.
  - apply Qle_trans with ((1#2) * ulp q); [|assumption].
    assert (m * ulp q - x * ulp q == (m - x) * ulp q) as -> by ring.
    apply Qmult_le_compat_r; lra.
  - apply Qle_trans with ((1#2) * ulp q); [|assumption].
    assert (x * ulp q - m * ulp q == (x - m) * ulp q) as -> by ring.
    apply Qmult_le_compat_r; lra.
Qed.

Lemma rnd_gt q : 0 < q -> rnd q == rnd_pos q.
Proof.
  intros H. unfold rnd. destruct (Qcompare q 0) eqn:E.
  - apply Qeq_alt in E. lra.
  - apply Qlt_alt in E. lra.
  - apply Qred_correct.
Qed.

Lemma rnd_lt q : q < 0 -> rnd q == - rnd_pos (- q).
Proof.
  intros H. unfold rnd. destruct (Qcompare q 0) eqn:E.
  - apply Qeq_alt in E. lra.
  - apply Qred_correct.
  - apply Qgt_alt in E. lra.
Qed.

Lemma rnd_zero q : q == 0 -> rnd q == 0.
Proof.
  intros H. unfold rnd. destruct (Qcompare q 0) eqn:E; [reflexivity|..].
  - apply Qlt_alt in E. lra.
  - apply Qgt_alt in E. lra.
Qed.

Lemma rnd_pos_pos q : 0 < q -> 0 < rnd_pos q.
Proof.
  intros H. pose proof (rnd_pos_range q H) as [Hr _].
  pose proof (pow2_pos (qlog2 q)). lra.
Qed.

(** Rounding is monotone, hence a function of the denoted number. *)
Lemma rnd_mono p q : p <= q -> rnd p <= rnd q.
Proof.
  intros H.
  destruct (Q_dec p 0) as [[Hp|Hp]|Hp], (Q_dec q 0) as [[Hq|Hq]|Hq]; try lra;
    rewrite ?(rnd_lt p), ?(rnd_gt p), ?(rnd_zero p),
            ?(rnd_lt q), ?(rnd_gt q), ?(rnd_zero q) by assumption; try lra.
  - pose proof (rnd_pos_mono (- q) (- p) ltac:(lra) ltac:(lra)). lra.
  - pose proof (rnd_pos_pos (- p) ltac:(lra)). pose proof (rnd_pos_pos q Hq). lra.
  - pose proof (rnd_pos_pos (- p) ltac:(lra)). lra.
  - now apply rnd_pos_mono.
  - pose proof (rnd_pos_pos q Hq). lra.
Qed.

#[export] Instance rnd_proper : Proper (Qeq ==> Qeq) rnd.
Proof. intros p q H. apply Qle_antisym; apply rnd_mono; lra. Qed.

Lemma rnd_opp q : rnd (- q) == - rnd q.
Proof.
  destruct (Q_dec q 0) as [[H|H]|H].
  - rewrite (rnd_lt q), (rnd_gt (- q)) by lra. ring.
  - rewrite (rnd_gt q), (rnd_lt (- q)) by lra.
    now rewrite (rnd_pos_comp (- - q) q) by lra.
  - rewrite (rnd_zero q), (rnd_zero (- q)) by lra. ring.
Qed.

(** A number with at most 53 significant bits is left alone. *)
Lemma rnd_repr_lt m e : (0 < m < 2 ^ 53)%Z -> rnd (inject_Z m * 2 ^ e) == inject_Z m * 2 ^ e.
Proof.
  intros Hm. pose proof (pow2_pos e) as He.
  set (q := inject_Z m * 2 ^ e).
  assert (Hq : 0 < q).
  { unfold q. apply Qmult_lt_0_compat; [|assumption]. now rewrite <- (Zlt_Qlt 0). }
  rewrite rnd_gt by assumption. unfold rnd_pos.
  pose proof (qlog2_spec q Hq) as [Hl _].
  assert (Hk : (qlog2 q < 53 + e)%Z).
  { apply Qpower_lt_compat_l_inv with 2; [|reflexivity].
    apply Qle_lt_trans with q; [assumption|].
    rewrite pow2_plus, <- pow2_Z by lia. unfold q.
    apply Qmult_lt_r; [assumption|]. now rewrite <- Zlt_Qlt. }
  set (d := (e - (qlog2 q - 52))%Z). assert (0 <= d)%Z by (unfold d; lia).
  assert (E : q == inject_Z (m * 2 ^ d) * ulp q).
  { unfold q at 1, ulp. rewrite inject_Z_mult, pow2_Z by lia.
    rewrite <- Qmult_assoc, <- pow2_plus.
    now replace (d + (qlog2 q - 52))%Z with e by (unfold d; lia). }
  pose proof (ulp_pos q).
  assert (Ex : q / ulp q == inject_Z (m * 2 ^ d)) by (rewrite E at 1; field; lra).
  rewrite (rne_comp _ _ Ex), rne_int. now rewrite <- E.
Qed.

Lemma rnd_repr m e : (Z.abs m <= 2 ^ 53)%Z -> rnd (inject_Z m * 2 ^ e) == inject_Z m * 2 ^ e.
Proof.
  intros Hm.
  assert (Hpos : forall n, (0 < n <= 2 ^ 53)%Z ->
                           rnd (inject_Z n * 2 ^ e) == inject_Z n * 2 ^ e).
  { intros n Hn. destruct (Z.eq_dec n (2 ^ 53)) as [->|].
    - assert (E : inject_Z (2 ^ 53) * 2 ^ e == inject_Z (2 ^ 52) * 2 ^ (e + 1)).
      { rewrite !pow2_Z, <- !pow2_plus by lia.
        now replace (52 + (e + 1))%Z with (53 + e)%Z by lia. }
      rewrite E. apply rnd_repr_lt. lia.
    - apply rnd_repr_lt. lia. }
  destruct (Z.lt_trichotomy m 0) as [H|[->|H]].
  - assert (E : inject_Z m * 2 ^ e == - (inject_Z (- m) * 2 ^ e))
      by (rewrite inject_Z_opp; ring).
    rewrite E, rnd_opp, Hpos by lia. reflexivity.
  - rewrite rnd_zero; change (inject_Z 0) with 0; ring.
  - apply Hpos. lia.
Qed.

Lemma rnd_int n : (Z.abs n <= 2 ^ 53)%Z -> rnd (inject_Z n) == inject_Z n.
Proof.
  intros H. pose proof (rnd_repr n 0 H) as E. change (2 ^ 0) with 1 in E.
  now rewrite Qmult_1_r in E.
Qed.

Lemma rnd_idem q : rnd (rnd q) == rnd q.
Proof.
  assert (Hpos : forall p, 0 < p -> rnd (rnd_pos p) == rnd_pos p).
  { intros p Hp. apply rnd_repr. pose proof (rnd_pos_bounds p Hp). lia. }
  destruct (Q_dec q 0) as [[H|H]|H].
  - rewrite (rnd_lt q) by assumption. rewrite rnd_opp, Hpos by lra. reflexivity.
  - rewrite (rnd_gt q) by assumption. now apply Hpos.
  - rewrite (rnd_zero q) by assumption. now apply rnd_zero.
Qed.

Lemma rnd_ge_int n q : (Z.abs n <= 2 ^ 53)%Z -> inject_Z n <= q -> inject_Z n <= rnd q.
Proof. intros Hn H. rewrite <- (rnd_int n Hn). now apply rnd_mono. Qed.

Lemma rnd_le_int n q : (Z.abs n <= 2 ^ 53)%Z -> q <= inject_Z n -> rnd q <= inject_Z n.
Proof. intros Hn H. rewrite <- (rnd_int n Hn). now apply rnd_mono. Qed.

Lemma rnd_nonneg q : 0 <= q -> 0 <= rnd q.
Proof. apply (rnd_ge_int 0). lia. Qed.

Lemma rnd_err q : 0 <= q ->
  rnd q - q <= q * 2 ^ (-53) /\ q - rnd q <= q * 2 ^ (-53).
Proof.
  intros H. destruct (Qlt_le_dec 0 q).
  - rewrite rnd_gt by assumption. now apply rnd_pos_err.
  - assert (E : q == 0) by lra. rewrite (rnd_zero q E), E.
    change (2 ^ (-53)) with (1 # 9007199254740992). lra.
Qed.

(** ** Truncation *)

Lemma py_int_le x : 0 <= x -> inject_Z (py_int x) <= x /\ x < inject_Z (py_int x) + 1.
Proof.
  intros H. unfold py_int. apply Qle_bool_iff in H. rewrite H. apply floor_frac.
Qed.

Lemma py_int_ge n x : (0 <= n)%Z -> inject_Z n <= x -> (n <= py_int x)%Z.
Proof.
  intros Hn H. assert (H0 : 0 <= x).
  { apply Qle_trans with (inject_Z n); [|assumption]. now rewrite <- (Zle_Qle 0). }
  unfold py_int. apply Qle_bool_iff in H0. rewrite H0.
  rewrite <- (Qfloor_Z n). now apply Qfloor_resp_le.
Qed.

Lemma py_int_nonneg x : 0 <= x -> (0 <= py_int x)%Z.
Proof. apply (py_int_ge 0). lia. Qed.

Lemma py_int_int n : py_int (inject_Z n) = n.
Proof.
  unfold py_int. destruct (Qle_bool 0 (inject_Z n)); [apply Qfloor_Z|].
  unfold Qceiling. rewrite <- inject_Z_opp, Qfloor_Z. lia.
Qed.

#[export] Instance py_int_proper : Proper (Qeq ==> eq) py_int.
Proof.
  intros x y H. unfold py_int, Qceiling.
  assert (Qle_bool 0 x = Qle_bool 0 y) as ->.
  { apply eq_true_iff_eq. rewrite !Qle_bool_iff. now rewrite H. }
  destruct (Qle_bool 0 y); [now apply Qfloor_comp|].
  f_equal. apply Qfloor_comp. now rewrite H.
Qed.

(** ** The margin idioms

    [int(n * (1.0 + p/100))] is at least [n], and the two ways the code
    applies a percentage agree up to one unit. *)

Lemma fdiv_100_nonneg p : 0 <= p -> 0 <= fdiv p 100.
Proof. intros H. apply rnd_nonneg. unfold Qdiv. change (/ 100) with (1 # 100). lra. Qed.

Lemma fdiv_100_mono p q : p <= q -> fdiv p 100 <= fdiv q 100.
Proof. intros H. apply rnd_mono. unfold Qdiv. change (/ 100) with (1 # 100). lra. Qed.

Lemma fadd_1_ge a : 0 <= a -> 1 <= fadd 1 a.
Proof. intros H. apply (rnd_ge_int 1); [lia|]. change (inject_Z 1) with 1. lra. Qed.

Lemma of_int_small n : (0 <= n <= 2 ^ 53)%Z -> of_int n == inject_Z n.
Proof. intros H. apply rnd_int. lia. Qed.

Lemma inject_nonneg n : (0 <= n)%Z -> 0 <= inject_Z n.
Proof. intros H. now rewrite <- (Zle_Qle 0). Qed.

Lemma pct_of_nonneg n p : (0 <= n <= 2 ^ 53)%Z -> 0 <= p -> (0 <= pct_of n p)%Z.
Proof.
  intros Hn Hp. apply py_int_nonneg, rnd_nonneg.
  rewrite of_int_small by assumption.
  apply Qmult_le_0_compat; [apply inject_nonneg; lia | now apply fdiv_100_nonneg].
Qed.

Lemma scale_pct_ge n p : (0 <= n <= 2 ^ 53)%Z -> 0 <= p -> (n <= scale_pct n p)%Z.
Proof.
  intros Hn Hp. apply py_int_ge; [lia|]. apply rnd_ge_int; [lia|].
  rewrite of_int_small by assumption.
  pose proof (fadd_1_ge _ (fdiv_100_nonneg p Hp)) as H1.
  pose proof (inject_nonneg n ltac:(lia)) as H0. nra.
Qed.

Lemma pct_of_mono n p q : (0 <= n <= 2 ^ 53)%Z -> 0 <= p -> p <= q ->
  fmul (of_int n) (fdiv p 100) <= fmul (of_int n) (fdiv q 100).
Proof.
  intros Hn Hp Hpq. apply rnd_mono. rewrite of_int_small by assumption.
  pose proof (inject_nonneg n ltac:(lia)). pose proof (fdiv_100_mono p q Hpq). nra.
Qed.

(** [n + int(n * (p/100)) <= int(n * (1.0 + q/100)) + 1] for [p <= q]. *)
Lemma pct_of_scale_pct n p q :
  (0 <= n <= 2 ^ 30)%Z -> 0 <= p -> p <= q -> q <= 10000 ->
  (n + pct_of n p <= scale_pct n q + 1)%Z.
Proof.
  intros Hn Hp Hpq Hq.
  pose proof (pct_of_mono n p q ltac:(lia) Hp Hpq) as Hm.
  unfold pct_of, scale_pct.
  set (a := fdiv q 100) in *. set (x := inject_Z n).
  assert (Hx : 0 <= x /\ x <= 1073741824).
  { split; [apply inject_nonneg; lia|]. change 1073741824 with (inject_Z (2 ^ 30)).
    unfold x. rewrite <- Zle_Qle. lia. }
  assert (Ha : 0 <= a) by (apply fdiv_100_nonneg; lra).
  assert (Ha2 : a <= 100).
  { apply (rnd_le_int 100); [lia|]. change (inject_Z 100) with 100. unfold Qdiv. change (/ 100) with (1 # 100). lra. }
  pose proof (of_int_small n ltac:(lia)) as En. fold x in En.
  assert (Hpos : 0 <= fmul (of_int n) (fdiv p 100)).
  { apply rnd_nonneg. rewrite En. apply Qmult_le_0_compat; [tauto|].
    now apply fdiv_100_nonneg. }
  destruct (py_int_le _ Hpos) as [Hf _].
  assert (Hb : 0 <= fadd 1 a) by (pose proof (fadd_1_ge a Ha); lra).
  assert (Hb2 : 0 <= 1 + a) by lra.
  assert (Hxa : 0 <= x * a) by nra. assert (Hxb : 0 <= x * fadd 1 a) by nra.
  destruct (rnd_err (1 + a) Hb2) as [_ E1].
  destruct (rnd_err (x * a) Hxa) as [E2 _].
  destruct (rnd_err (x * fadd 1 a) Hxb) as [_ E3].
  fold (fadd 1 a) in E1. change (2 ^ (-53)) with (1 # 9007199254740992) in *.
  assert (Hm2 : fmul (of_int n) a <= rnd (x * a)) by (apply rnd_mono; rewrite En; lra).
  assert (Hm3 : rnd (x * fadd 1 a) <= fmul (of_int n) (fadd 1 a))
    by (apply rnd_mono; rewrite En; lra).
  assert (Hp2 : 0 <= fmul (of_int n) (fadd 1 a)) by (apply rnd_nonneg; rewrite En; assumption).
  destruct (py_int_le _ Hp2) as [_ Hg].
  assert (Hx2 : x * (1 + a) - x * fadd 1 a <= x * ((1 + a) * (1 # 9007199254740992))) by nra.
  assert (Hxa2 : x * a <= 107374182400) by nra.
  assert (Hb3 : fadd 1 a <= 101).
  { apply (rnd_le_int 101); [lia|]. change (inject_Z 101) with 101. lra. }
  assert (Hxb2 : x * fadd 1 a <= 108447924224) by nra.
  assert (Hlt : inject_Z (n + py_int (fmul (of_int n) (fdiv p 100)))
                < inject_Z (py_int (fmul (of_int n) (fadd 1 a)) + 2)).
  { rewrite !inject_Z_plus. fold x. change (inject_Z 2) with 2.
    assert (x * ((1 + a) * (1 # 9007199254740992)) <= 1 # 1000) by nra. lra. }
  rewrite <- Zlt_Qlt in Hlt. lia.
Qed.

(** Sorting by a float key is well defined. *)
#[export] Instance flt_key_order {A} (f : A -> Q) : StrictWeakOrder (fun x y => flt (f x) (f y)).
Proof.
  split; intros; repeat match goal with
  | H : flt _ _ = true |- _ => apply flt_spec in H
  | H : flt _ _ = false |- _ => apply flt_false in H
  end; try apply flt_false; lra.
Qed.
