(* ===== verification/PyString.v ===== *)
(** * Python strings as lists of ASCII characters

    The string methods the modelled code uses ([startswith], [endswith],
    [split], [strip], [count], [int] and [str] of naturals) and their
    properties.  Strings are ASCII. *)
From stdpp Require Import base list strings numbers.
From Stdlib Require Import Ascii ZArith NArith Lia.
From S2P Require Import Prelude.

(** ** Methods *)

Definition chars : string -> list ascii := String.list_ascii_of_string.
Definition unchars : list ascii -> string := String.string_of_list_ascii.

Fixpoint strip_prefix (p l : list ascii) : option (list ascii) :=
  match p, l with
  | [], _ => Some l
  | a :: p', b :: l' => if Ascii.eqb a b then strip_prefix p' l' else None
  | _ :: _, [] => None
  end.

(** [Some rest] when [l.endswith(suf)], with [rest = l[:-len(suf)]]. *)
Definition strip_suffix (suf l : list ascii) : option (list ascii) :=
  reverse <$> strip_prefix (reverse suf) (reverse l).

Definition starts_with (p s : string) : bool :=
  match strip_prefix (chars p) (chars s) with Some _ => true | None => false end.

Definition ends_with (suf s : string) : bool :=
  match strip_suffix (chars suf) (chars s) with Some _ => true | None => false end.

Definition is_space (c : ascii) : bool :=
  let n := nat_of_ascii c in
  ((9 <=? n)%nat && (n <=? 13)%nat) || ((28 <=? n)%nat && (n <=? 32)%nat).

Definition is_digit (c : ascii) : bool :=
  let n := nat_of_ascii c in (48 <=? n)%nat && (n <=? 57)%nat.

Definition slash : ascii := "/"%char.
Definition dash : ascii := "-"%char.

(** Longest prefix whose characters satisfy [p], and the rest. *)
Fixpoint span (p : ascii -> bool) (l : list ascii) : list ascii * list ascii :=
  match l with
  | [] => ([], [])
  | c :: l' => if p c then let (a, b) := span p l' in (c :: a, b) else ([], l)
  end.

(** [s.split("/", 1)[0]] *)
Definition first_segment (l : list ascii) : list ascii :=
  fst (span (fun c => negb (Ascii.eqb c slash)) l).

Definition has_slash (l : list ascii) : bool := existsb (Ascii.eqb slash) l.

(** [int(digits)] *)
Definition digit_val (c : ascii) : N := (N_of_ascii c - 48)%N.
Definition int_of_digits (l : list ascii) : N :=
  fold_left (fun acc c => 10 * acc + digit_val c)%N l 0%N.

(** [str(n)] *)
Definition digit_char (n : N) : ascii := ascii_of_N (48 + n).
Fixpoint digits_fuel (fuel : nat) (n : N) : list ascii :=
  match fuel with
  | O => []
  | S f => if (n <? 10)%N then [digit_char n]
           else digits_fuel f (n / 10) ++ [digit_char (n mod 10)]
  end.
Definition str_int (n : N) : list ascii :=
  if (n =? 0)%N then [digit_char 0] else digits_fuel (N.to_nat (N.size n)) n.


Definition lower_char (c : ascii) : ascii :=
  let n := nat_of_ascii c in
  if (65 <=? n)%nat && (n <=? 90)%nat then ascii_of_nat (n + 32) else c.

Definition dot : ascii := "."%char.
Definition lbracket : ascii := "["%char.
Definition rbracket : ascii := "]"%char.

Definition count_char (c : ascii) (l : list ascii) : nat :=
  length (List.filter (Ascii.eqb c) l).

(** [l.split(c, 1)]: the text before the first [c], and after it if any. *)
Definition split1 (c : ascii) (l : list ascii) : list ascii * option (list ascii) :=
  match span (fun x => negb (Ascii.eqb x c)) l with
  | (a, _ :: b) => (a, Some b)
  | (a, []) => (a, None)
  end.

(** [s.split(c)] and [c.join(parts)] *)
Fixpoint split_all (c : ascii) (l : list ascii) : list (list ascii) :=
  match l with
  | [] => [[]]
  | x :: l' =>
      if Ascii.eqb x c then [] :: split_all c l'
      else match split_all c l' with
           | part :: parts => (x :: part) :: parts
           | [] => [[x]]
           end
  end.
Fixpoint join (c : ascii) (parts : list (list ascii)) : list ascii :=
  match parts with
  | [] => []
  | [part] => part
  | part :: parts' => part ++ c :: join c parts'
  end.

(** [s.isdigit()] *)
Definition isdigit (l : list ascii) : bool := match l with [] => false | _ => forallb is_digit l end.

(** [s.strip()] *)
Definition lstrip (l : list ascii) : list ascii := snd (span is_space l).
Definition strip (s : string) : string :=
  unchars (reverse (lstrip (reverse (lstrip (chars s))))).

(** ** Characters and strings *)

Lemma unchars_chars s : unchars (chars s) = s.
Proof. apply String.string_of_list_ascii_of_string. Qed.

Lemma chars_unchars l : chars (unchars l) = l.
Proof. apply String.list_ascii_of_string_of_list_ascii. Qed.

Lemma chars_app a b : chars (a +:+ b) = chars a ++ chars b.
Proof. induction a as [|c a IH]; [done|]. unfold chars in *. simpl. by rewrite IH. Qed.

Lemma chars_inj a b : chars a = chars b -> a = b.
Proof. intros H. rewrite <- (unchars_chars a), <- (unchars_chars b). by rewrite H. Qed.

Lemma strip_prefix_spec p l r : strip_prefix p l = Some r <-> l = p ++ r.
Proof.
  revert l. induction p as [|a p IH]; intros [|b l]; simpl; try naive_solver.
  destruct (Ascii.eqb a b) eqn:E.
  - apply Ascii.eqb_eq in E as ->. rewrite IH. naive_solver.
  - apply Ascii.eqb_neq in E. naive_solver.
Qed.

Lemma strip_suffix_spec suf l r : strip_suffix suf l = Some r <-> l = r ++ suf.
Proof.
  unfold strip_suffix. rewrite fmap_Some. split.
  - intros (x & Hx%strip_prefix_spec & ->).
    apply (f_equal reverse) in Hx. rewrite reverse_involutive, reverse_app in Hx.
    by rewrite reverse_involutive in Hx.
  - intros ->. exists (reverse r). rewrite reverse_involutive. split; [|done].
    apply strip_prefix_spec. apply reverse_app.
Qed.

Lemma strip_suffix_app suf l : strip_suffix suf (l ++ suf) = Some l.
Proof. by apply strip_suffix_spec. Qed.

Lemma ends_with_spec suf s : ends_with suf s = true <-> exists r, chars s = r ++ chars suf.
Proof.
  unfold ends_with. destruct (strip_suffix _ _) as [r|] eqn:E.
  - apply strip_suffix_spec in E. naive_solver.
  - split; [done|]. intros [r Hr%strip_suffix_spec]. congruence.
Qed.

Lemma ends_with_false suf s :
  ends_with suf s = false <-> strip_suffix (chars suf) (chars s) = None.
Proof. unfold ends_with. by destruct (strip_suffix _ _). Qed.

Lemma span_app p l1 l2 :
  forallb p l1 = true -> (forall c, head l2 = Some c -> p c = false) ->
  span p (l1 ++ l2) = (l1, l2).
Proof.
  intros H1 H2. induction l1 as [|c l1 IH]; simpl in *.
  - destruct l2 as [|c l2]; simpl; [done|]. by rewrite H2.
  - apply andb_true_iff in H1 as [-> H1]. by rewrite IH.
Qed.

(** ** Decimal digits *)

Lemma digit_char_digit n : (n < 10)%N -> is_digit (digit_char n) = true.
Proof.
  intros H. unfold is_digit, digit_char, nat_of_ascii. rewrite N_ascii_embedding by lia.
  apply andb_true_iff. rewrite !Nat.leb_le. lia.
Qed.

Lemma digit_val_char n : (n < 10)%N -> digit_val (digit_char n) = n.
Proof.
  intros H. unfold digit_val, digit_char. rewrite N_ascii_embedding by lia. lia.
Qed.

Lemma int_of_digits_snoc l c :
  int_of_digits (l ++ [c]) = (10 * int_of_digits l + digit_val c)%N.
Proof. unfold int_of_digits. by rewrite fold_left_app. Qed.

Lemma int_of_digits_fuel f n : (n < 2 ^ N.of_nat f)%N ->
  int_of_digits (digits_fuel f n) = n.
Proof.
  revert n. induction f as [|f IH]; intros n Hn; simpl digits_fuel.
  { change (2 ^ N.of_nat 0)%N with 1%N in Hn. assert (n = 0)%N as -> by lia. done. }
  destruct (n <? 10)%N eqn:E.
  - apply N.ltb_lt in E. unfold int_of_digits. simpl. rewrite digit_val_char; lia.
  - apply N.ltb_ge in E. rewrite int_of_digits_snoc, IH, digit_val_char.
    + symmetry. apply N.div_mod. lia.
    + apply N.mod_lt. lia.
    + rewrite Nat2N.inj_succ, N.pow_succ_r' in Hn.
      apply N.Div0.div_lt_upper_bound. lia.
Qed.

Lemma int_of_str_int n : (0 < n)%N -> int_of_digits (str_int n) = n.
Proof.
  intros Hn. unfold str_int. destruct (n =? 0)%N eqn:E; [apply N.eqb_eq in E; lia|].
  apply int_of_digits_fuel. rewrite N2Nat.id. apply N.size_gt.
Qed.

Lemma digits_fuel_digits f n : forallb is_digit (digits_fuel f n) = true.
Proof.
  revert n. induction f as [|f IH]; intros n; simpl; [done|].
  destruct (n <? 10)%N eqn:E; simpl.
  - apply N.ltb_lt in E. by rewrite digit_char_digit.
  - rewrite forallb_app, IH. simpl. rewrite digit_char_digit; [done|].
    apply N.mod_lt. lia.
Qed.

Lemma length_digits_fuel_le f n k :
  (0 < k)%nat -> (n < 10 ^ N.of_nat k)%N -> (length (digits_fuel f n) <= k)%nat.
Proof.
  revert n k. induction f as [|f IH]; intros n k Hk Hn; simpl; [lia|].
  destruct (n <? 10)%N eqn:E; simpl; [lia|]. apply N.ltb_ge in E.
  rewrite length_app. simpl. destruct k as [|[|k]]; [lia|simpl in Hn; lia|].
  rewrite Nat2N.inj_succ, N.pow_succ_r' in Hn.
  pose proof (IH (n / 10)%N (S k) ltac:(lia)) as H.
  assert (n / 10 < 10 ^ N.of_nat (S k))%N by (apply N.Div0.div_lt_upper_bound; lia).
  specialize (H ltac:(done)). lia.
Qed.

Lemma length_digits_fuel_ge f n k :
  (n < 2 ^ N.of_nat f)%N -> (10 ^ N.of_nat k <= n)%N -> (k < length (digits_fuel f n))%nat.
Proof.
  revert n k. induction f as [|f IH]; intros n k Hf Hn.
  { change (2 ^ N.of_nat 0)%N with 1%N in Hf.
    pose proof (N.pow_nonzero 10 (N.of_nat k) ltac:(lia)). lia. }
  simpl. destruct (n <? 10)%N eqn:E; simpl.
  - apply N.ltb_lt in E. destruct k as [|k]; [lia|].
    rewrite Nat2N.inj_succ, N.pow_succ_r' in Hn.
    pose proof (N.pow_nonzero 10 (N.of_nat k) ltac:(lia)). lia.
  - apply N.ltb_ge in E. rewrite length_app. simpl. destruct k as [|k]; [lia|].
    rewrite Nat2N.inj_succ, N.pow_succ_r' in Hn, Hf.
    pose proof (IH (n / 10)%N k) as H.
    assert (n / 10 < 2 ^ N.of_nat f)%N by (apply N.Div0.div_lt_upper_bound; lia).
    assert (10 ^ N.of_nat k <= n / 10)%N by (apply N.div_le_lower_bound; lia).
    specialize (H ltac:(done) ltac:(done)). lia.
Qed.

Lemma str_int_digits n : forallb is_digit (str_int n) = true.
Proof. unfold str_int. destruct (n =? 0)%N; [done|]. apply digits_fuel_digits. Qed.

Lemma length_str_int n : (100 <= n <= 999999)%N -> (3 <= length (str_int n) <= 6)%nat.
Proof.
  intros Hn. unfold str_int. destruct (n =? 0)%N eqn:E; [apply N.eqb_eq in E; lia|].
  split.
  - apply length_digits_fuel_ge with (k := 2%nat); [|simpl; lia].
    rewrite N2Nat.id. apply N.size_gt.
  - apply length_digits_fuel_le with (k := 6%nat); simpl; lia.
Qed.

(** ** [split] and [count] *)

Lemma span_split (p : ascii -> bool) l : l = fst (span p l) ++ snd (span p l).
Proof. induction l as [|c l IH]; [done|]. simpl. destruct (p c); [|done]. destruct (span p l). simpl in *. by f_equal. Qed.

Lemma span_all (p : ascii -> bool) a c b :
  forallb p a = true -> p c = false -> span p (a ++ c :: b) = (a, c :: b).
Proof.
  intros Ha Hc. induction a as [|x a IH]; simpl in *; [by rewrite Hc|].
  apply andb_true_iff in Ha as [-> Ha]. by rewrite (IH Ha).
Qed.

Lemma span_none (p : ascii -> bool) a : forallb p a = true -> span p a = (a, []).
Proof.
  induction a as [|x a IH]; simpl; [done|]. intros [-> Ha]%andb_true_iff. by rewrite (IH Ha).
Qed.

Definition no_char (c : ascii) (l : list ascii) : bool :=
  forallb (fun x => negb (Ascii.eqb x c)) l.

Lemma split1_app c a b : no_char c a = true -> split1 c (a ++ c :: b) = (a, Some b).
Proof. intros Ha. unfold split1. by rewrite (span_all _ a c b Ha) by (by rewrite Ascii.eqb_refl). Qed.

Lemma split1_none c a : no_char c a = true -> split1 c a = (a, None).
Proof. intros Ha. unfold split1. by rewrite (span_none _ a Ha). Qed.

Lemma split1_spec c l :
  match split1 c l with
  | (a, Some b) => l = a ++ c :: b /\ no_char c a = true
  | (a, None) => l = a /\ no_char c a = true
  end.
Proof.
  unfold split1. induction l as [|x l IH]; simpl; [done|].
  destruct (Ascii.eqb_spec x c) as [->|Hne]; simpl; [done|].
  destruct (span _ l) as [a [|y b]]; destruct IH as [-> Hn]; simpl; rewrite Hn;
    rewrite (proj2 (Ascii.eqb_neq x c) Hne); done.
Qed.

Lemma no_char_app c a b : no_char c (a ++ b) = no_char c a && no_char c b.
Proof. apply forallb_app. Qed.

Lemma count_char_app c a b : count_char c (a ++ b) = (count_char c a + count_char c b)%nat.
Proof. unfold count_char. by rewrite List.filter_app, length_app. Qed.

Lemma count_char_zero c l : no_char c l = true <-> count_char c l = 0%nat.
Proof.
  unfold no_char, count_char. induction l as [|x l IH]; simpl; [done|].
  rewrite (Ascii.eqb_sym c x). destruct (Ascii.eqb x c); simpl; [done | exact IH].
Qed.

Lemma split_all_nil c l : split_all c l <> [].
Proof. destruct l as [|x l]; simpl; [done|]. destruct (Ascii.eqb x c); [done|]. by destruct (split_all c l). Qed.

Lemma split_join c parts : parts <> [] -> Forall (fun p => no_char c p = true) parts ->
  split_all c (join c parts) = parts.
Proof.
  assert (Hone : forall p, no_char c p = true -> split_all c p = [p]).
  { induction p as [|x p IH]; simpl; [done|]. intros [Hx Hp]%andb_true_iff. apply negb_true_iff in Hx. by rewrite Hx, IH. }
  assert (Hcons : forall p l, no_char c p = true -> split_all c (p ++ c :: l) = p :: split_all c l).
  { intros p l. induction p as [|x p IH]; simpl; [by rewrite Ascii.eqb_refl|]. intros [Hx Hp]%andb_true_iff.
    apply negb_true_iff in Hx. by rewrite Hx, (IH Hp). }
  intros Hne H. induction H as [|p parts Hp H IH]; [done|]. destruct parts as [|q parts]; [by apply Hone|].
  change (join c (p :: q :: parts)) with (p ++ c :: join c (q :: parts)). rewrite Hcons by done. by rewrite IH.
Qed.

Lemma join_split c l : join c (split_all c l) = l.
Proof.
  induction l as [|x l IH]; simpl; [done|]. destruct (Ascii.eqb_spec x c) as [->|Hne].
  - pose proof (split_all_nil c l). destruct (split_all c l); [done|]. simpl in *. by rewrite IH.
  - destruct (split_all c l) as [|p parts] eqn:E; [by destruct (split_all_nil c l)|]. destruct parts; simpl in *; by rewrite IH.
Qed.

Lemma split_all_no_char c l : Forall (fun p => no_char c p = true) (split_all c l).
Proof.
  induction l as [|x l IH]; simpl; [by constructor|]. destruct (Ascii.eqb_spec x c) as [->|Hne]; [by constructor|].
  apply Ascii.eqb_neq in Hne. destruct IH as [|p parts Hp Hps]; repeat constructor; simpl; rewrite ?Hne; done.
Qed.

Lemma split_all_app c a b : split_all c (a ++ c :: b) = split_all c a ++ split_all c b.
Proof.
  induction a as [|x a IH]; simpl; [by rewrite Ascii.eqb_refl|]. rewrite IH. destruct (Ascii.eqb x c); [done|].
  pose proof (split_all_nil c a). by destruct (split_all c a).
Qed.

(** ** The order of strings *)

(** [a < b] on strings, by code points. *)
Definition str_lt (a b : string) : bool := negb (String.leb b a).

Lemma leb_refl a : String.leb a a = true.
Proof. destruct (String.leb_total a a); done. Qed.

Lemma leb_total a b : String.leb a b = false -> String.leb b a = true.
Proof. destruct (String.leb_total a b); congruence. Qed.

Lemma leb_trans a b c : String.leb a b = true -> String.leb b c = true -> String.leb a c = true.
Proof.
  intros H1 H2. apply Is_true_true. change (String.le a c).
  transitivity b; by apply Is_true_true.
Qed.

#[export] Instance str_lt_order : StrictWeakOrder str_lt.
Proof.
  unfold str_lt. split.
  - intros x. by rewrite leb_refl.
  - intros x y z. rewrite !negb_false_iff. intros H1 H2. by eapply leb_trans.
  - intros x y. rewrite negb_true_iff, negb_false_iff. apply leb_total.
Qed.
