(* ===== verification/PyJson.v ===== *)
(** * JSON values

    What [json.loads] returns: the values of requests, records and step
    outputs.  Objects are Python dicts, so they keep the order of insertion. *)
From stdpp Require Import base list strings.
From Stdlib Require Import QArith.
From S2P Require Import Prelude.

Inductive json : Type :=
  | JNull
  | JBool (b : bool)
  | JNum (q : Q)
  | JStr (s : string)
  | JArr (l : list json)
  | JObj (o : list (string * json)).

(** [bool(j)] *)
Definition truthy (j : json) : bool :=
  match j with
  | JNull => false
  | JBool b => b
  | JNum q => negb (Qeq_bool q 0)
  | JStr s => negb (bool_decide (s = ""%string))
  | JArr l => match l with [] => false | _ => true end
  | JObj o => match o with [] => false | _ => true end
  end.

(** [o.get(k)] *)
Definition jget (k : string) (o : list (string * json)) : json := get_or JNull (dget k o).

(** [j if isinstance(j, dict) else {}] *)
Definition dict_or_empty (j : json) : list (string * json) := match j with JObj o => o | _ => [] end.
