(* ===== verification/ModelId.v ===== *)
(** * Model identifiers ([libs/model_id/model_id.py])

    Parsing of model id strings, the derived keys (normalized / routing key,
    tracking key, catalog key, upstream API id) and equality modulo the
    [-hybrid] suffix.  Strings are ASCII. *)
From stdpp Require Import base list strings numbers.
From Stdlib Require Import Ascii ZArith NArith Lia.
From S2P Require Import Prelude PyString.

(** ** The record *)

Record ModelId := mkModelId {
  original : string;
  base_id : string;
  context_length : option N;
  is_cpu : bool;
  is_hybrid : bool;
  backend_type : option string;
  provider : option string;
  routing_layer : option string
}.

#[export] Instance ModelId_eq_dec : EqDecision ModelId.
Proof. solve_decision. Defined.

(** ** Parsing *)

Definition ROUTING_PREFIXES : list string := ["openrouter"%string].

(** [_CONTEXT_PATTERN.search]: a final ["-" digit{3,6}], where [$] also
    matches before one trailing newline.  Returns the text before the match
    and the digits. *)
Definition context_match (l : list ascii) : option (list ascii * list ascii) :=
  let r := match reverse l with
           | c :: r' => if Ascii.eqb c "010"%char then r' else c :: r'
           | [] => []
           end in
  let (ds, rest) := span is_digit r in
  match rest with
  | c :: before =>
      if Ascii.eqb c dash && (3 <=? length ds)%nat && (length ds <=? 6)%nat
      then Some (reverse before, reverse ds)
      else None
  | [] => None
  end.

Definition parse_cloud (orig : string) (body : list ascii) (layer : option string) : ModelId :=
  let prov := unchars (first_segment body) in
  let backend := if bool_decide (prov = "cursor"%string) then "cursor_sdk"%string
                 else if bool_decide (prov = "cdp"%string) then "cdp"%string
                 else "cloud_api"%string in
  {| original := orig; base_id := unchars body; context_length := None;
     is_cpu := false; is_hybrid := false;
     backend_type := Some backend; provider := Some prov; routing_layer := layer |}.

Definition parse_local (orig : string) (body : list ascii) : ModelId :=
  let (cpu, b1) := match strip_suffix (chars "-cpu") body with
                   | Some r => (true, r) | None => (false, body) end in
  let (hyb, b2) := match strip_suffix (chars "-hybrid") b1 with
                   | Some r => (true, r) | None => (false, b1) end in
  let (ctx, b3) := match context_match b2 with
                   | Some (r, ds) => (Some (int_of_digits ds), r) | None => (None, b2) end in
  {| original := orig; base_id := unchars b3; context_length := ctx;
     is_cpu := cpu; is_hybrid := hyb;
     backend_type := None; provider := None; routing_layer := None |}.

(** [ModelId.parse] on a string. *)
Definition parse (model_id : string) : exn ModelId :=
  let l := chars model_id in
  if forallb is_space l then Raise (ValueError "Model ID cannot be empty") else
  let (layer, body) :=
    if has_slash l then
      let seg := unchars (first_segment l) in
      if bool_decide (seg ∈ ROUTING_PREFIXES)
      then (Some seg, drop (length (first_segment l) + 1) l)
      else (None, l)
    else (None, l) in
  if has_slash body then Ok (parse_cloud model_id body layer)
  (* the local branch does not pass routing_layer to the constructor *)
  else Ok (parse_local model_id body).

(** ** Derived keys *)

Definition join_context (m : ModelId) : string :=
  match context_length m with
  | Some n => base_id m +:+ "-" +:+ unchars (str_int n)
  | None => base_id m
  end.

Definition normalized (m : ModelId) : string :=
  if is_cpu m then join_context m +:+ "-cpu" else join_context m.

Definition routing_key (m : ModelId) : string := normalized m.
Definition process_key (m : ModelId) : string := normalized m.

Definition synthetic_id (m : ModelId) : string :=
  let r := if is_hybrid m then join_context m +:+ "-hybrid" else join_context m in
  if is_cpu m then r +:+ "-cpu" else r.

Definition tracking_key (m : ModelId) : string := synthetic_id m.
Definition catalog_lookup_id (m : ModelId) : string := join_context m.

Definition strip_mcp (s : string) : string :=
  match strip_suffix (chars "-mcp") (chars s) with Some r => unchars r | None => s end.

Definition api_model_id (m : ModelId) : string :=
  if bool_decide (routing_layer m = Some "openrouter"%string) then base_id m
  else match provider m with
  | Some p =>
      if bool_decide (p = ""%string) then strip_mcp (base_id m)
      else match strip_prefix (chars (p +:+ "/")) (chars (base_id m)) with
           | Some r => strip_mcp (unchars r)
           | None => strip_mcp (base_id m)
           end
  | None => strip_mcp (base_id m)
  end.

Definition is_synthetic (m : ModelId) : bool := bool_decide (is_Some (context_length m)).
Definition is_cloud (m : ModelId) : bool := bool_decide (backend_type m = Some "cloud_api"%string).

(** The key a [ModelId] has in a Python dict or set. *)
Definition mkey (m : ModelId) : string * option string := (normalized m, backend_type m).

(** [ModelId.__eq__] between two [ModelId]s, and [ModelId.__hash__]'s input. *)
Definition mid_eqb (a b : ModelId) : bool := bool_decide (mkey a = mkey b).
Definition hash_input (m : ModelId) : string := normalized m.

(** [ModelId.__eq__] with a string: parse failures compare unequal. *)
Definition mid_eq_str (a : ModelId) (s : string) : bool :=
  match parse s with Ok b => mid_eqb a b | Raise _ => false end.

(** [ModelId.matches] with a string raises on an empty id. *)
Definition mid_matches_str (a : ModelId) (s : string) : exn bool :=
  let? b := parse s in Ok (mid_eqb a b).

Definition with_context (m : ModelId) (n : N) : ModelId :=
  {| original := original m; base_id := base_id m; context_length := Some n;
     is_cpu := is_cpu m; is_hybrid := is_hybrid m; backend_type := backend_type m;
     provider := provider m; routing_layer := routing_layer m |}.

Definition with_suffix (m : ModelId) (cpu hybrid : bool) : exn ModelId :=
  if cpu && hybrid then Raise (ValueError "Cannot have both -cpu and -hybrid suffixes")
  else Ok {| original := original m; base_id := base_id m;
             context_length := context_length m; is_cpu := cpu; is_hybrid := hybrid;
             backend_type := backend_type m; provider := provider m;
             routing_layer := routing_layer m |}.

Definition get_compute_type (m : ModelId) : string :=
  if is_cpu m then "cpu" else if is_hybrid m then "hybrid" else "gpu".

Definition BARE_CLOUD_PREFIX_RULES : list (string * string) :=
  [("gpt-", "openai"); ("o1-", "openai"); ("o3-", "openai"); ("o4-", "openai");
   ("chatgpt-", "openai"); ("claude-", "anthropic"); ("grok-", "xai");
   ("gemini-", "google")]%string.

Definition infer_cloud_provider_from_bare (bare : string) : option string :=
  let lower := unchars (map lower_char (chars bare)) in
  snd <$> List.find (fun r => starts_with (fst r) lower) BARE_CLOUD_PREFIX_RULES.

(** Membership of a [ModelId] in a Python set or dict of [ModelId]s. *)
Definition mmem (m : ModelId) (l : list ModelId) : bool := existsb (mid_eqb m) l.

(** [set(a) == set(b)] *)
Definition mset_eq (a b : list ModelId) : bool :=
  forallb (fun m => mmem m b) a && forallb (fun m => mmem m a) b.

(** ** Examples *)

Example parse_hybrid :
  (let? m := parse "hermes3-70b-16384-hybrid" in
   Ok (base_id m, context_length m, is_hybrid m, normalized m))
  = Ok ("hermes3-70b"%string, Some 16384%N, true, "hermes3-70b-16384"%string).
Proof. vm_compute. reflexivity. Qed.

Example parse_openrouter :
  (let? m := parse "openrouter/anthropic/claude-3.5-sonnet" in
   Ok (base_id m, provider m, backend_type m, routing_layer m))
  = Ok ("anthropic/claude-3.5-sonnet"%string, Some "anthropic"%string,
        Some "cloud_api"%string, Some "openrouter"%string).
Proof. vm_compute. reflexivity. Qed.

Example parse_blank : parse "  " = Raise (ValueError "Model ID cannot be empty").
Proof. reflexivity. Qed.

(** ** Equality *)

Lemma mid_eqb_spec a b : mid_eqb a b = true <-> mkey a = mkey b.
Proof. apply bool_decide_eq_true. Qed.

Lemma mid_eqb_refl a : mid_eqb a a = true.
Proof. by apply mid_eqb_spec. Qed.

Lemma mid_eqb_sym a b : mid_eqb a b = mid_eqb b a.
Proof. unfold mid_eqb. apply bool_decide_ext. naive_solver. Qed.

Lemma mmem_spec m l : mmem m l = true <-> mkey m ∈ map mkey l.
Proof.
  unfold mmem. rewrite existsb_exists, list_elem_of_fmap. split.
  - intros (x & Hx & E). exists x. rewrite list_elem_of_In. by apply mid_eqb_spec in E.
  - intros (x & E & Hx). exists x. rewrite <- list_elem_of_In. by rewrite mid_eqb_spec.
Qed.

Lemma mmem_false m l : mmem m l = false <-> mkey m ∉ map mkey l.
Proof. rewrite <- mmem_spec. by rewrite not_true_iff_false. Qed.

Lemma mmem_in m l : m ∈ l -> mmem m l = true.
Proof. intros H. apply mmem_spec. by apply list_elem_of_fmap_2. Qed.

Lemma mset_eq_spec a b :
  mset_eq a b = true <-> forall k, k ∈ map mkey a <-> k ∈ map mkey b.
Proof.
  unfold mset_eq. rewrite andb_true_iff, !forallb_forall. split.
  - intros [H1 H2] k. rewrite !list_elem_of_fmap. split; intros (x & -> & Hx).
    + apply list_elem_of_In, H1, mmem_spec, list_elem_of_fmap in Hx. naive_solver.
    + apply list_elem_of_In, H2, mmem_spec, list_elem_of_fmap in Hx. naive_solver.
  - intros H. split; intros x Hx%list_elem_of_In; apply mmem_spec, H;
      by apply list_elem_of_fmap_2.
Qed.

(** ** Parsing the pieces of an id *)

Lemma strip_suffix_last suf l a b :
  a <> b -> strip_suffix (suf ++ [a]) (l ++ [b]) = None.
Proof.
  intros Hab. destruct (strip_suffix _ _) as [r|] eqn:E; [|done].
  apply strip_suffix_spec in E. rewrite app_assoc in E.
  apply app_inj_2 in E as [_ E]; [congruence | done].
Qed.

Lemma reverse_digits_head ds rest : ds <> [] -> forallb is_digit ds = true ->
  exists c r, reverse ds ++ rest = c :: r /\ is_digit c = true.
Proof.
  intros Hne Hd. destruct (exists_last Hne) as (l & c & ->).
  rewrite forallb_app in Hd. simpl in Hd. to_prop. rewrite reverse_app. simpl. eauto.
Qed.

Lemma context_match_digits b ds :
  forallb is_digit ds = true -> (3 <= length ds <= 6)%nat ->
  context_match (b ++ dash :: ds) = Some (b, ds).
Proof.
  intros Hd Hlen. unfold context_match.
  rewrite reverse_app, reverse_cons, <- app_assoc. simpl.
  assert (ds <> []) as Hne by (intros ->; simpl in Hlen; lia).
  destruct (reverse_digits_head ds (dash :: reverse b) Hne Hd) as (c & r & E & Hc).
  rewrite E. destruct (Ascii.eqb c "010"%char) eqn:Ec.
  { apply Ascii.eqb_eq in Ec as ->. done. }
  rewrite <- E, span_app.
  - cbv beta iota. rewrite length_reverse, !reverse_involutive.
    replace (length ds <=? 6)%nat with true by (symmetry; apply Nat.leb_le; lia).
    by destruct (length ds) as [|[|[|k]]]; [lia..|].
  - rewrite forallb_forall in *. intros x Hx. apply Hd.
    by rewrite <- list_elem_of_In, elem_of_reverse, list_elem_of_In in Hx.
  - simpl. by intros ? [= <-].
Qed.

Definition ctx_chars (ctx : option N) : list ascii :=
  match ctx with Some n => dash :: str_int n | None => [] end.

Lemma chars_synthetic m :
  chars (synthetic_id m) =
  chars (base_id m) ++ ctx_chars (context_length m)
    ++ (if is_hybrid m then chars "-hybrid" else [])
    ++ (if is_cpu m then chars "-cpu" else []).
Proof.
  unfold synthetic_id, join_context.
  destruct (context_length m), (is_hybrid m), (is_cpu m); simpl ctx_chars;
    rewrite ?chars_app, ?chars_unchars, ?app_nil_r, <- ?app_assoc; done.
Qed.

(** Components of a local id that the textual form determines: a context in
    the range the pattern accepts, and a base that does not itself end like a
    suffix unless a context separates it from the end. *)
Definition wf_local (m : ModelId) : Prop :=
  has_slash (chars (base_id m)) = false /\
  forallb is_space (chars (base_id m)) = false /\
  backend_type m = None /\ provider m = None /\ routing_layer m = None /\
  match context_length m with
  | Some n => (100 <= n <= 999999)%N
  | None => context_match (chars (base_id m)) = None /\
            strip_suffix (chars "-hybrid") (chars (base_id m)) = None /\
            strip_suffix (chars "-cpu") (chars (base_id m)) = None
  end.

Lemma ctx_chars_last b n suf a : (100 <= n <= 999999)%N -> is_digit a = false ->
  strip_suffix (suf ++ [a]) (b ++ ctx_chars (Some n)) = None.
Proof.
  intros Hn Ha. simpl.
  pose proof (length_str_int n Hn) as Hl. pose proof (str_int_digits n) as Hd.
  destruct (exists_last (l := str_int n)) as (l & c & E).
  { intros E. rewrite E in Hl. simpl in Hl. lia. }
  rewrite E in Hd |- *. rewrite forallb_app in Hd. simpl in Hd. to_prop.
  rewrite app_comm_cons, app_assoc. apply strip_suffix_last. congruence.
Qed.

Lemma context_match_prefix l r ds : context_match l = Some (r, ds) -> exists t, l = r ++ t.
Proof.
  unfold context_match. set (k := match reverse l with _ :: _ => _ | [] => [] end).
  assert (Hk : exists t, reverse l = t ++ k).
  { unfold k. destruct (reverse l) as [|c r']; [by exists []|]. destruct (Ascii.eqb c "010"); [by exists [c] | by exists []]. }
  clearbody k. pose proof (span_split is_digit k) as Hs. destruct (span is_digit k) as [a [|c before]]; [done|]. simpl in Hs.
  destruct (_ && _); [|done]. intros [= <- <-]. destruct Hk as [t Ht].
  exists (reverse (t ++ a ++ [c])). rewrite <- (reverse_involutive l), Ht, Hs. rewrite <- reverse_app. f_equal.
  by rewrite <- !app_assoc.
Qed.

Lemma parse_local_pieces orig l :
  let m := parse_local orig l in
  exists u, l = chars (base_id m) ++ u ++ (if is_hybrid m then chars "-hybrid" else [])
                ++ (if is_cpu m then chars "-cpu" else []).
Proof.
  unfold parse_local.
  destruct (strip_suffix (chars "-cpu") l) as [b1|] eqn:E1; [apply strip_suffix_spec in E1 as -> | set (b1 := l)];
    (destruct (strip_suffix (chars "-hybrid") b1) as [b2|] eqn:E2; [apply strip_suffix_spec in E2; rewrite E2 | set (b2 := b1)]);
    (destruct (context_match b2) as [[r ds]|] eqn:E3; [apply context_match_prefix in E3 as [u E3]; exists u | exists []]);
    cbn [base_id is_hybrid is_cpu]; rewrite chars_unchars, ?app_nil_r, <- ?app_assoc; try done;
    try (rewrite E3 at 1; by rewrite <- ?app_assoc); try (rewrite <- E3; done).
Qed.

Lemma wf_strip_base m : wf_local m ->
  let body := chars (base_id m) ++ ctx_chars (context_length m) in
  strip_suffix (chars "-hybrid") body = None /\ strip_suffix (chars "-cpu") body = None /\
  match context_match body with
  | Some (r, ds) => context_length m = Some (int_of_digits ds) /\ r = chars (base_id m)
  | None => context_length m = None /\ body = chars (base_id m)
  end.
Proof.
  intros (_ & _ & _ & _ & _ & Hctx). destruct (context_length m) as [n|].
  - split; [|split].
    + by apply (ctx_chars_last _ n (chars "-hybri") "d"%char).
    + by apply (ctx_chars_last _ n (chars "-cp") "u"%char).
    + simpl. rewrite context_match_digits.
      * by rewrite int_of_str_int by lia.
      * apply str_int_digits.
      * by apply length_str_int.
  - destruct Hctx as (Hc & Hh & Hp). simpl. rewrite app_nil_r, Hc. done.
Qed.

Lemma parse_local_synthetic m s : wf_local m ->
  parse_local s (chars (synthetic_id m)) =
  {| original := s; base_id := base_id m; context_length := context_length m;
     is_cpu := is_cpu m; is_hybrid := is_hybrid m;
     backend_type := None; provider := None; routing_layer := None |}.
Proof.
  intros Hwf. pose proof (wf_strip_base m Hwf) as (Hh & Hc & Hm).
  rewrite chars_synthetic, app_assoc. unfold parse_local.
  set (body := chars (base_id m) ++ ctx_chars (context_length m)) in *.
  assert (Hcpu : strip_suffix (chars "-cpu")
            (body ++ (if is_hybrid m then chars "-hybrid" else [])
                  ++ (if is_cpu m then chars "-cpu" else []))
          = if is_cpu m then Some (body ++ (if is_hybrid m then chars "-hybrid" else []))
            else None).
  { destruct (is_cpu m).
    - rewrite app_assoc. apply strip_suffix_app.
    - rewrite app_nil_r. destruct (is_hybrid m); [|by rewrite app_nil_r].
      change (chars "-hybrid") with (chars "-hybri" ++ ["d"%char]). rewrite app_assoc.
      by apply (strip_suffix_last (chars "-cp")). }
  assert (Hhyb : strip_suffix (chars "-hybrid")
            (body ++ (if is_hybrid m then chars "-hybrid" else []))
          = if is_hybrid m then Some body else None).
  { destruct (is_hybrid m); [apply strip_suffix_app | by rewrite app_nil_r]. }
  rewrite Hcpu. clearbody body.
  destruct (is_cpu m); rewrite ?app_nil_r, Hhyb;
    destruct (is_hybrid m); rewrite ?app_nil_r;
    destruct (context_match body) as [[r ds]|]; destruct Hm as [-> ->];
    by rewrite unchars_chars.
Qed.

Lemma forallb_app_false {A} (p : A -> bool) a b :
  forallb p a = false -> forallb p (a ++ b) = false.
Proof. intros H. by rewrite forallb_app, H. Qed.

Lemma has_slash_app a b : has_slash (a ++ b) = has_slash a || has_slash b.
Proof. apply existsb_app. Qed.

Lemma has_slash_digits l : forallb is_digit l = true -> has_slash l = false.
Proof.
  intros H. apply not_true_iff_false. unfold has_slash. rewrite existsb_exists.
  intros (c & Hc & E). apply Ascii.eqb_eq in E as <-.
  rewrite forallb_forall in H. by specialize (H _ Hc).
Qed.

Lemma has_slash_synthetic m :
  has_slash (chars (base_id m)) = false -> has_slash (chars (synthetic_id m)) = false.
Proof.
  intros H. rewrite chars_synthetic, !has_slash_app, H. simpl.
  destruct (context_length m); simpl; rewrite ?has_slash_digits by apply str_int_digits;
    by destruct (is_hybrid m), (is_cpu m).
Qed.

(** Writing a local model id as text with [synthetic_id] and parsing it
    back recovers every component (base, context, [-hybrid], [-cpu]). *)
Theorem parse_synthetic_roundtrip (m : ModelId) (Hwf : wf_local m) :
  parse (synthetic_id m) =
  Ok {| original := synthetic_id m; base_id := base_id m;
        context_length := context_length m; is_cpu := is_cpu m; is_hybrid := is_hybrid m;
        backend_type := None; provider := None; routing_layer := None |}.
Proof.
  pose proof Hwf as (Hs & Hb & _). unfold parse.
  assert (forallb is_space (chars (synthetic_id m)) = false) as ->.
  { rewrite chars_synthetic. by apply forallb_app_false. }
  cbv zeta. rewrite !has_slash_synthetic by done. by rewrite parse_local_synthetic.
Qed.

Definition sample_id : ModelId :=
  {| original := "m"; base_id := "hermes3-70b"; context_length := Some 16384%N;
     is_cpu := true; is_hybrid := true; backend_type := None; provider := None;
     routing_layer := None |}.

Lemma parse_synthetic_roundtrip_witness :
  wf_local sample_id /\
  parse "hermes3-70b-16384-hybrid-cpu" =
  Ok {| original := "hermes3-70b-16384-hybrid-cpu"; base_id := "hermes3-70b";
        context_length := Some 16384%N; is_cpu := true; is_hybrid := true;
        backend_type := None; provider := None; routing_layer := None |}.
Proof.
  assert (H : wf_local sample_id) by (repeat split; vm_compute; congruence).
  split; [exact H|]. exact (parse_synthetic_roundtrip sample_id H).
Defined.

(** [ModelId] equality is the equality of the dictionary keys, so it is an
    equivalence, equal ids hash alike, and the [-hybrid] flag never matters. *)
Lemma mid_eqb_equivalence :
  (forall a, mid_eqb a a = true) /\
  (forall a b, mid_eqb a b = mid_eqb b a) /\
  (forall a b c, mid_eqb a b = true -> mid_eqb b c = true -> mid_eqb a c = true) /\
  (forall a b, mid_eqb a b = true -> hash_input a = hash_input b) /\
  (forall a c m, with_suffix a c false = Ok m -> mid_eqb m
       {| original := original a; base_id := base_id a; context_length := context_length a;
          is_cpu := c; is_hybrid := true; backend_type := backend_type a;
          provider := provider a; routing_layer := routing_layer a |} = true).
Proof.
  split; [apply mid_eqb_refl|]. split; [apply mid_eqb_sym|]. split; [|split].
  - intros a b c. rewrite !mid_eqb_spec. congruence.
  - intros a b. rewrite mid_eqb_spec. unfold mkey, hash_input. congruence.
  - intros a c m. unfold with_suffix. rewrite andb_false_r. intros [= <-].
    by apply mid_eqb_spec.
Qed.

(** Upstream ids keep the Stargate-only [-mcp] annotation when the model is
    routed through OpenRouter, although the docstring excludes it. *)
Example api_model_id_keeps_mcp :
  exists m, parse "openrouter/anthropic/claude-mcp" = Ok m /\
            ends_with "-mcp" (api_model_id m) = true.
Proof. eexists. split; [vm_compute; reflexivity|]. reflexivity. Qed.
