(* ===== verification/WireModel.v ===== *)
(** * Model ids on the wire
    ([libs/model_id/validation.py], [wire_resolve.py] and [entity.py])

    Ids in configuration files are validated before they are parsed; ids of
    callers are resolved to the form with a provider that dispatch needs; and
    every id has a slug under which the model is an entity of the knowledge
    graph.  A set of ids is the list of its elements. *)
From stdpp Require Import base sets list strings.
From Stdlib Require Import Ascii ZArith NArith Lia.
From S2P Require Import Prelude PyString ModelId.

(** ** Substrings *)

(** The text before and after the first occurrence. *)
Fixpoint cut (sub l : list ascii) : option (list ascii * list ascii) :=
  match strip_prefix sub l with
  | Some r => Some ([], r)
  | None =>
      match l with
      | [] => None
      | c :: l' => (fun ab => (c :: ab.1, ab.2)) <$> cut sub l'
      end
  end.

(** [sub in s] *)
Definition contains (sub : string) (l : list ascii) : bool := bool_decide (is_Some (cut (chars sub) l)).

(** [s.count(sub)]: each occurrence shortens what is left. *)
Fixpoint count_from (fuel : nat) (sub l : list ascii) : nat :=
  match fuel with
  | O => O
  | S fuel' => match cut sub l with Some (_, r) => S (count_from fuel' sub r) | None => O end
  end.
Definition count (sub : string) (l : list ascii) : nat := count_from (S (length l)) (chars sub) l.

Definition blank (l : list ascii) : bool := forallb is_space l.

(** ** Validation *)

Definition validate_model_id (model_id : string) : option string :=
  let work_id := chars model_id in
  if blank work_id then Some "Model ID cannot be empty"%string
  else if (1 <? count "-cpu" work_id)%nat then Some "Model ID contains duplicate -cpu suffix"%string
  else if (1 <? count "-hybrid" work_id)%nat then Some "Model ID contains duplicate -hybrid suffix"%string
  else if contains "-cpu" work_id && contains "-hybrid" work_id
  then Some "Model ID cannot have both -cpu and -hybrid suffixes"%string
  else if contains "-cpu" work_id && negb (ends_with "-cpu" model_id)
  then Some "Invalid -cpu suffix: must be at end of model ID"%string
  else if contains "-hybrid" work_id then
    let check_id := match strip_suffix (chars "-cpu") work_id with Some r => r | None => work_id end in
    if ends_with "-hybrid" (unchars check_id) then None
    else Some "Invalid -hybrid suffix: must be at end (or before -cpu)"%string
  else None.

Definition validate_model_id_strict (model_id : string) : exn unit :=
  match validate_model_id model_id with Some e => Raise (ValueError e) | None => Ok tt end.

(** What is wrong with a model reference of a pipeline. *)
Inductive RefError : Type :=
  | FormatError (msg : string)
  | AvailableVariants (variants : list string)
  | NotAvailable.

Definition validate_pipeline_model_ref (model_id : string) (available_models : list string) : exn (option RefError) :=
  match validate_model_id model_id with
  | Some e => Ok (Some (FormatError e))
  | None =>
      let? parsed := parse model_id in
      if bool_decide (model_id ∈ available_models) then Ok None
      else if bool_decide (normalized parsed ∈ available_models) then Ok None
      else
        let matching := List.filter (starts_with (base_id parsed +:+ "-")) available_models in
        Ok (Some (if bool_decide (matching = []) then NotAvailable
                  else AvailableVariants (take 3 (sort_by str_lt matching))))
  end.

(** ** Resolution *)

Definition KNOWN_CLOUD_PROVIDERS : list string := ["openai"; "anthropic"; "xai"; "google"; "chatgpt"]%string.
Definition AGENT_SUBSTRATE_PROVIDERS : list string := ["cursor"; "cdp"]%string.
Definition LOCAL_ID_INDICATORS : list string :=
  ["instruct"; "chat"; "base"; "q4"; "q8"; "q6"; "f16"; "cpu"; "gpu"; "hybrid"; "uncensored"]%string.

Record WireModelResolution := mkResolution {
  wire_id : string;
  wire_provider : option string;
  was_bare : bool;
  wire_backend : option string
}.

(** [WireModelResolutionError] by the reason it gives, or an exception of
    [ModelId.parse]. *)
Inductive Reason : Type :=
  | EmptyId | NoProvider | NoPicker | UnknownProvider (p : string) | LooksLocal | UnroutableBare.

Inductive WireError : Type :=
  | WireModelResolutionError (model_id : string) (reason : Reason)
  | ParseError (e : error).

Notation Resolved := (WireModelResolution + WireError)%type.

Definition lower (s : string) : string := unchars (map lower_char (chars s)).

Definition strip_effort_suffix (model_id : string) : string :=
  match cut (chars "__effort_") (chars model_id) with Some (a, _) => unchars a | None => model_id end.

Definition in_context_range (seg : list ascii) : bool :=
  isdigit seg && (1000 <=? int_of_digits seg)%N && (int_of_digits seg <=? 999999)%N.

Definition looks_like_local_model_id (model_id : string) : bool :=
  let l := chars model_id in
  let segments := split_all dash l in
  (existsb (Ascii.eqb "_") l && negb (existsb (Ascii.eqb dash) l))
  || ((3 <=? length segments)%nat
      && existsb (fun seg => bool_decide (lower (unchars seg) ∈ LOCAL_ID_INDICATORS)) segments)
  || existsb in_context_range segments.

(** What follows the first slash. *)
Definition picker (model_id : string) : list ascii := get_or [] (split1 slash (chars model_id)).2.

(** The part after the routing layer. *)
Definition validate_provider (model_id : string) (parsed : ModelId) : Resolved :=
  match provider parsed with
  | None => inr (WireModelResolutionError model_id NoProvider)
  | Some p =>
      let p := lower p in
      if bool_decide (p ∈ AGENT_SUBSTRATE_PROVIDERS) then
        if blank (picker model_id) then inr (WireModelResolutionError model_id NoPicker)
        else inl (mkResolution model_id (Some p) false (backend_type parsed))
      else if negb (bool_decide (p ∈ KNOWN_CLOUD_PROVIDERS))
      then inr (WireModelResolutionError model_id (UnknownProvider p))
      else inl (mkResolution model_id (Some p) false (Some (get_or "cloud_api"%string (backend_type parsed))))
  end.

Definition validate_prefixed_id (model_id : string) : Resolved :=
  match parse model_id with
  | Raise e => inr (ParseError e)
  | Ok parsed =>
      match routing_layer parsed with
      | Some layer =>
          if bool_decide (layer ∈ ROUTING_PREFIXES)
          then inl (mkResolution model_id (Some layer) false (backend_type parsed))
          else validate_provider model_id parsed
      | None => validate_provider model_id parsed
      end
  end.

Definition resolve_wire_model_id (model_id : string) (require_cloud : bool) : Resolved :=
  let raw := strip model_id in
  if bool_decide (raw = ""%string) then inr (WireModelResolutionError model_id EmptyId)
  else
    let work := strip_effort_suffix raw in
    if has_slash (chars work) then validate_prefixed_id work
    else match infer_cloud_provider_from_bare work with
    | Some p => inl (mkResolution (p +:+ "/" +:+ work) (Some p) true (Some "cloud_api"%string))
    | None =>
        if looks_like_local_model_id work then
          if require_cloud then inr (WireModelResolutionError work LooksLocal)
          else inl (mkResolution work None false None)
        else inr (WireModelResolutionError work UnroutableBare)
    end.

(** [None] when the resolution is admitted, otherwise the substrate that cannot
    serve it. *)
Definition require_cloud_api_backend (r : WireModelResolution) : option string :=
  let p := lower (get_or ""%string (wire_provider r)) in
  if bool_decide (wire_backend r = Some "cursor_sdk"%string) || bool_decide (wire_backend r = Some "cdp"%string)
     || bool_decide (p ∈ AGENT_SUBSTRATE_PROVIDERS)
  then Some (if bool_decide (wire_backend r = Some "cdp"%string) || bool_decide (p = "cdp"%string)
             then "cdp"%string else "cursor"%string)
  else None.

Definition require_cloud_provider (parsed_provider : option string) (model : string) : string + WireError :=
  match parsed_provider with
  | Some p =>
      if bool_decide (p = ""%string) then inr (WireModelResolutionError model NoProvider) else inl (lower (strip p))
  | None => inr (WireModelResolutionError model NoProvider)
  end.

(** ** A [ModelId] as a string

    [__len__], [__contains__], [startswith] and [endswith] look at the text the
    id was parsed from. *)
Definition mid_len (m : ModelId) : nat := length (chars (original m)).
Definition mid_contains (item : string) (m : ModelId) : bool := contains item (chars (original m)).
Definition mid_startswith (prefix : string) (m : ModelId) : bool := starts_with prefix (original m).
Definition mid_endswith (suffix : string) (m : ModelId) : bool := ends_with suffix (original m).

(** ** Entities *)

Definition safe_char (c : ascii) : bool :=
  let n := nat_of_ascii c in
  ((97 <=? n)%nat && (n <=? 122)%nat) || is_digit c || Ascii.eqb c "."%char || Ascii.eqb c "_"%char || Ascii.eqb c dash.

(** Each run of other characters becomes one dash; [after] says that the last
    character read was one of them. *)
Fixpoint sub_unsafe (after : bool) (l : list ascii) : list ascii :=
  match l with
  | [] => []
  | c :: l' =>
      if safe_char c then c :: sub_unsafe false l'
      else if after then sub_unsafe true l' else dash :: sub_unsafe true l'
  end.

Definition strip_dashes (l : list ascii) : list ascii :=
  let d l := snd (span (Ascii.eqb dash) l) in reverse (d (reverse (d l))).

Definition last_segment (l : list ascii) : list ascii := default [] (last (split_all slash l)).

Definition canonical_model_slug (model_id : string) : exn string :=
  let? parsed := parse model_id in
  let identity := chars (api_model_id parsed) in
  let identity := match strip_prefix (chars "models/") identity with Some r => r | None => identity end in
  let slug := chars (lower (strip (unchars (last_segment identity)))) in
  let slug := strip_dashes (sub_unsafe false slug) in
  match slug with
  | [] => Raise (ValueError "Could not derive model entity slug")
  | _ => Ok (unchars slug)
  end.

Definition canonical_model_entity_id (model_id : string) : exn string :=
  let? slug := canonical_model_slug model_id in Ok ("model:" +:+ slug).

(** ** Substrings: facts *)

Lemma cut_spec sub l a b : cut sub l = Some (a, b) -> l = a ++ sub ++ b.
Proof.
  revert a. induction l as [|c l IH]; intros a; simpl; destruct (strip_prefix sub _) as [r|] eqn:E.
  - intros [= <- <-]. by apply strip_prefix_spec in E.
  - done.
  - intros [= <- <-]. by apply strip_prefix_spec in E.
  - destruct (cut sub l) as [[a' b']|] eqn:E'; [|done]. simpl. intros [= <- <-]. simpl. f_equal. by apply IH.
Qed.

Lemma cut_app_some sub a b : is_Some (cut sub (a ++ sub ++ b)).
Proof.
  induction a as [|c a IH]; simpl.
  - destruct (sub ++ b) as [|d l] eqn:El; simpl; rewrite (proj2 (strip_prefix_spec sub _ b)) by done; eauto.
  - destruct (strip_prefix sub _); [eauto|]. destruct IH as [[? ?] ->]. eauto.
Qed.

Lemma contains_spec sub l : contains sub l = true <-> exists a b, l = a ++ chars sub ++ b.
Proof.
  unfold contains. rewrite bool_decide_eq_true. split.
  - intros [[a b] E%cut_spec]. eauto.
  - intros (a & b & ->). apply cut_app_some.
Qed.

(** What precedes the first occurrence has none. *)
Lemma cut_before sub l a b : sub <> [] -> cut sub l = Some (a, b) -> cut sub a = None.
Proof.
  intros Hne. revert a. induction l as [|c l IH]; intros a; simpl; destruct (strip_prefix sub _) as [r|] eqn:E; try done.
  - intros [= <- <-]. destruct sub; [done|]. done.
  - intros [= <- <-]. destruct sub; [done|]. done.
  - destruct (cut sub l) as [[a' b']|] eqn:E'; [|done]. simpl. intros [= <- <-]. simpl.
    destruct (strip_prefix sub (c :: a')) as [r|] eqn:E2.
    + apply strip_prefix_spec in E2. apply cut_spec in E'. rewrite E' in E.
      assert (H : strip_prefix sub (c :: a' ++ sub ++ b') = Some (r ++ sub ++ b')).
      { apply strip_prefix_spec. rewrite app_comm_cons, E2. by rewrite <- app_assoc. }
      by rewrite H in E.
    + by rewrite (IH a').
Qed.

(** A prefix without the first character of [sub] makes no difference. *)
Lemma cut_skip d sub p l :
  Forall (fun c => c <> d) p -> cut (d :: sub) l = None -> cut (d :: sub) (p ++ l) = None.
Proof.
  induction 1 as [|c p Hc _ IH]; intros Hl; [done|]. cbn [app cut strip_prefix].
  rewrite (proj2 (Ascii.eqb_neq d c)) by congruence. by rewrite IH.
Qed.

Lemma ends_with_contains suf s : ends_with suf s = true -> contains suf (chars s) = true.
Proof. intros [r E]%ends_with_spec. apply contains_spec. exists r, []. by rewrite app_nil_r. Qed.

(** ** What validation guarantees *)

Lemma contains_app_l sub a b : contains sub a = true -> contains sub (a ++ b) = true.
Proof. rewrite !contains_spec. intros (x & y & ->). exists x, (y ++ b). by rewrite <- !app_assoc. Qed.

Lemma strip_prefix_length p l r : strip_prefix p l = Some r -> length l = (length p + length r)%nat.
Proof. intros ->%strip_prefix_spec. apply length_app. Qed.

Lemma cut_app_l sub x y a b : cut sub x = Some (a, b) -> cut sub (x ++ y) = Some (a, b ++ y).
Proof.
  revert a. induction x as [|c x IH]; intros a; cbn [cut]; destruct (strip_prefix sub _) as [r|] eqn:E; try done.
  - intros [= <- <-]. apply strip_prefix_spec in E. destruct sub; [|done]. simpl in E. subst r. simpl. by destruct y.
  - intros [= <- <-]. apply strip_prefix_spec in E. assert (H : strip_prefix sub ((c :: x) ++ y) = Some (r ++ y)).
    { apply strip_prefix_spec. rewrite E. by rewrite <- app_assoc. }
    cbn [app cut] in *. by rewrite H.
  - destruct (cut sub x) as [[a' b']|] eqn:Ex; [|done]. simpl. intros [= <- <-].
    assert (H : strip_prefix sub ((c :: x) ++ y) = None).
    { destruct (strip_prefix sub ((c :: x) ++ y)) as [r|] eqn:E2; [|done]. apply strip_prefix_spec in E2.
      apply cut_spec in Ex. assert (Hl : (length sub <= length (c :: x))%nat) by (rewrite Ex; simpl; rewrite !length_app; lia).
      assert (Hx : c :: x = sub ++ drop (length sub) (c :: x)).
      { rewrite <- (take_drop (length sub) (c :: x)) at 1. f_equal.
        transitivity (take (length sub) ((c :: x) ++ y)); [by rewrite take_app_le|]. rewrite E2. apply take_app_length. }
      by rewrite (proj2 (strip_prefix_spec sub (c :: x) _) Hx) in E. }
    cbn [app cut] in *. rewrite H, (IH a' eq_refl). done.
Qed.

Lemma count_twice suf x : chars suf <> [] -> contains suf x = true -> (1 <? count suf (x ++ chars suf))%nat = true.
Proof.
  intros Hne H. unfold contains in H. apply bool_decide_eq_true in H as [[a b] E].
  assert (Hl : exists n, length (x ++ chars suf) = S n).
  { rewrite length_app. destruct (chars suf); [done|]. simpl. exists (length x + length l)%nat. lia. }
  destruct Hl as [n Hn]. unfold count. rewrite Hn. cbn [count_from]. rewrite (cut_app_l _ _ _ _ _ E).
  pose proof (cut_app_some (chars suf) b []) as [[? ?] E2]. rewrite app_nil_r in E2. by rewrite E2.
Qed.

Lemma ends_with_strip suf s : ends_with suf s = true <-> is_Some (strip_suffix (chars suf) (chars s)).
Proof. unfold ends_with. destruct (strip_suffix _ _); naive_solver. Qed.

(** What a valid id says. *)
Lemma valid_spec s :
  validate_model_id s = None ->
  let l := chars s in
  blank l = false /\ (contains "-cpu" l = true -> ends_with "-cpu" s = true) /\
  (contains "-cpu" l = true -> contains "-hybrid" l = false) /\
  (contains "-hybrid" l = true -> ends_with "-hybrid" s = true) /\
  (1 <? count "-cpu" l)%nat = false /\ (1 <? count "-hybrid" l)%nat = false.
Proof.
  intros H l. unfold validate_model_id in H. fold l in H.
  destruct (blank l); [done|]. destruct (1 <? count "-cpu" l)%nat; [done|]. destruct (1 <? count "-hybrid" l)%nat; [done|].
  destruct (contains "-cpu" l) eqn:Ec.
  - destruct (contains "-hybrid" l) eqn:Eh; [done|]. destruct (ends_with "-cpu" s); done.
  - destruct (contains "-hybrid" l) eqn:Eh; [|done]. cbn [negb andb] in H.
    destruct (strip_suffix (chars "-cpu") l) as [r|] eqn:Es.
    + assert (Hc : ends_with "-cpu" s = true) by (apply ends_with_strip; fold l; rewrite Es; eauto).
      apply ends_with_contains in Hc. fold l in Hc. congruence.
    + assert (Hu : unchars l = s) by apply unchars_chars. rewrite Hu in H. by destruct (ends_with "-hybrid" s).
Qed.

(** A valid local id means what it looks like: the suffixes its text contains
    are the ones that parsing finds, it never has both, and none is left in the
    name of the model. *)
Theorem valid_suffixes s :
  validate_model_id s = None -> has_slash (chars s) = false ->
  exists m, parse s = Ok m /\ is_cpu m = contains "-cpu" (chars s) /\ is_hybrid m = contains "-hybrid" (chars s) /\
    is_cpu m && is_hybrid m = false /\
    contains "-cpu" (chars (base_id m)) = false /\ contains "-hybrid" (chars (base_id m)) = false.
Proof.
  intros H Hs. pose proof (valid_spec s H) as (Hb & Hc & Hboth & Hh & Nc & Nh). unfold parse. unfold blank in Hb.
  rewrite Hb, Hs. cbv beta iota zeta. rewrite Hs.
  eexists. split; [done|]. pose proof (parse_local_pieces s (chars s)) as [u Hu]. set (m := parse_local s (chars s)) in *.
  assert (Hcpu : is_cpu m = contains "-cpu" (chars s)).
  { apply Bool.eq_iff_eq_true. split; intros E.
    - rewrite E in Hu. rewrite Hu. apply contains_spec. exists (chars (base_id m) ++ u ++ (if is_hybrid m then chars "-hybrid" else [])), [].
      by rewrite app_nil_r, <- !app_assoc.
    - apply Hc, ends_with_strip in E as [b E]. unfold m, parse_local. rewrite E.
      destruct (strip_suffix (chars "-hybrid") b) as [b'|]; [destruct (context_match b') as [[? ?]|] | destruct (context_match b) as [[? ?]|]]; done. }
  assert (Hhyb : is_hybrid m = contains "-hybrid" (chars s)).
  { apply Bool.eq_iff_eq_true. split; intros E.
    - rewrite E in Hu. rewrite Hu. apply contains_spec. exists (chars (base_id m) ++ u), (if is_cpu m then chars "-cpu" else []).
      by rewrite <- !app_assoc.
    - assert (Hn : strip_suffix (chars "-cpu") (chars s) = None).
      { destruct (strip_suffix (chars "-cpu") (chars s)) as [b|] eqn:Es; [|done].
        assert (E' : ends_with "-cpu" s = true) by (apply ends_with_strip; eauto). apply ends_with_contains, Hboth in E'. congruence. }
      apply Hh, ends_with_strip in E as [b E]. unfold m, parse_local. rewrite Hn, E. by destruct (context_match b) as [[? ?]|]. }
  split; [done|]. split; [done|].
  assert (Hno : is_cpu m && is_hybrid m = false).
  { rewrite Hcpu, Hhyb. destruct (contains "-cpu" (chars s)); [simpl; by apply Hboth | done]. }
  split; [done|]. split; apply not_true_is_false; intros E.
  - assert (E' : is_cpu m = true) by (rewrite Hcpu, Hu; by apply contains_app_l). rewrite E' in Hu, Hno. simpl in Hno. rewrite Hno in Hu.
    cbv beta iota in Hu. rewrite app_nil_l, app_assoc in Hu. apply (contains_app_l _ _ u), (count_twice "-cpu") in E; [|done]. by rewrite <- Hu, Nc in E.
  - assert (E' : is_hybrid m = true) by (rewrite Hhyb, Hu; by apply contains_app_l).
    rewrite E', andb_true_r in Hno. rewrite E', Hno in Hu.
    rewrite app_nil_r, app_assoc in Hu. apply (contains_app_l _ _ u), (count_twice "-hybrid") in E; [|done]. by rewrite <- Hu, Nh in E.
Qed.

(** ** Resolutions *)

Lemma strip_effort_none s : cut (chars "__effort_") (chars (strip_effort_suffix s)) = None.
Proof.
  unfold strip_effort_suffix. destruct (cut _ (chars s)) as [[a b]|] eqn:E; [|done].
  rewrite chars_unchars. by apply cut_before in E.
Qed.

Lemma strip_effort_id s : cut (chars "__effort_") (chars s) = None -> strip_effort_suffix s = s.
Proof. unfold strip_effort_suffix. by intros ->. Qed.

Lemma infer_cases s p : infer_cloud_provider_from_bare s = Some p -> p ∈ ["openai"; "anthropic"; "xai"; "google"]%string.
Proof.
  unfold infer_cloud_provider_from_bare. destruct (List.find _ _) as [[pre q]|] eqn:E; [|done]. simpl. intros [= <-].
  apply find_some in E as [Hin _]. unfold BARE_CLOUD_PREFIX_RULES in Hin. simpl in Hin.
  repeat destruct Hin as [[= <- <-]|Hin]; try done; set_solver.
Qed.

Lemma has_slash_not_blank l : has_slash l = true -> blank l = false.
Proof.
  unfold has_slash, blank. intros (c & Hin & E)%existsb_exists. apply Ascii.eqb_eq in E as <-.
  apply not_true_is_false. rewrite forallb_forall. intros H. by specialize (H _ Hin).
Qed.

(** The provider a prefixed id is resolved to. *)
Definition admitted_providers : list string := KNOWN_CLOUD_PROVIDERS ++ AGENT_SUBSTRATE_PROVIDERS ++ ROUTING_PREFIXES.

Definition backends : list string := ["cloud_api"; "cursor_sdk"; "cdp"]%string.

Lemma parse_cloud_backend o b layer : exists k, backend_type (parse_cloud o b layer) = Some k /\ k ∈ backends.
Proof.
  unfold parse_cloud. simpl. eexists. split; [done|]. unfold backends. repeat case_bool_decide; set_solver.
Qed.

Lemma parse_prefixed w :
  has_slash (chars w) = true ->
  (exists b layer, parse w = Ok (parse_cloud w b layer) /\
     (layer = None /\ b = chars w \/ layer = Some "openrouter"%string /\ first_segment (chars w) = chars "openrouter")) \/
  (exists b, parse w = Ok (parse_local w b)).
Proof.
  intros Hs. unfold parse. pose proof (has_slash_not_blank _ Hs) as Hb. unfold blank in Hb. rewrite Hb, Hs.
  destruct (decide (unchars (first_segment (chars w)) ∈ ROUTING_PREFIXES)) as [Hr|Hr].
  - rewrite bool_decide_true by done. cbv beta iota zeta. unfold ROUTING_PREFIXES in Hr. apply list_elem_of_singleton in Hr.
    destruct (has_slash (drop _ _)); [left; eexists _, _; split; [reflexivity|] | right; eauto].
    right. split; [by rewrite Hr|]. by rewrite <- Hr, chars_unchars.
  - rewrite bool_decide_false by done. cbv beta iota zeta. rewrite Hs. left. eexists _, _. split; [reflexivity|]. by left.
Qed.

Lemma validate_spec w r :
  has_slash (chars w) = true -> validate_prefixed_id w = inl r ->
  wire_id r = w /\ exists p k, wire_provider r = Some p /\ wire_backend r = Some k /\ k ∈ backends /\
    p ∈ admitted_providers /\ p = lower (unchars (first_segment (chars w))).
Proof.
  intros Hs. unfold validate_prefixed_id. destruct (parse_prefixed w Hs) as [(b & layer & -> & Hl)|(b & ->)].
  - destruct (parse_cloud_backend w b layer) as (k & Hk & Hin).
    destruct Hl as [[-> ->]|[-> Hf]]; cbn [routing_layer parse_cloud].
    + unfold validate_provider. rewrite Hk. cbn [provider parse_cloud].
      case_bool_decide as Ha; [destruct (blank (picker w)); [done|]|case_bool_decide as Hn; [|done]];
        intros [= <-]; (split; [done|]); eexists _, _; (split; [done|]); (split; [done|]); (split; [done|]);
        (split; [|done]); unfold admitted_providers; set_solver.
    + rewrite bool_decide_true by (left). intros [= <-]. split; [done|]. eexists _, _. split; [done|]. split; [exact Hk|].
      split; [done|]. rewrite Hf. split; [|done]. unfold admitted_providers, ROUTING_PREFIXES. set_solver.
  - unfold parse_local. destruct (strip_suffix (chars "-cpu") b); [|]; destruct (strip_suffix (chars "-hybrid") _);
      destruct (context_match _) as [[? ?]|]; done.
Qed.

(** An id resolved for the cloud names its provider: a provider that dispatch
    knows, which is the first part of the id it is sent under; and what is then
    admitted by [require_cloud_api_backend] is served by a cloud API. *)
Theorem cloud_resolution_sound s r :
  resolve_wire_model_id s true = inl r ->
  exists p, wire_provider r = Some p /\ p ∈ admitted_providers /\
    has_slash (chars (wire_id r)) = true /\ p = lower (unchars (first_segment (chars (wire_id r)))) /\
    (require_cloud_api_backend r = None -> wire_backend r = Some "cloud_api"%string).
Proof.
  unfold resolve_wire_model_id. case_bool_decide; [done|]. set (work := strip_effort_suffix (strip s)).
  destruct (has_slash (chars work)) eqn:Hs.
  - intros Hv. destruct (validate_spec _ _ Hs Hv) as (Hw & p & k & Hp & Hk & Hin & Ha & Hf). exists p. rewrite Hw.
    repeat (split; [done|]). unfold require_cloud_api_backend. rewrite Hk. unfold backends in Hin.
    apply elem_of_cons in Hin as [->|Hin]; [done|]. apply elem_of_cons in Hin as [->|Hin]; [done|].
    by apply list_elem_of_singleton in Hin as ->.
  - destruct (infer_cloud_provider_from_bare work) as [p|] eqn:Ei; [|by destruct (looks_like_local_model_id work)].
    intros [= <-]. apply infer_cases in Ei. exists p. simpl. split; [done|].
    rewrite !elem_of_cons, elem_of_nil in Ei. destruct Ei as [->|[->|[->|[->|[]]]]]; (split; [unfold admitted_providers; set_solver|]); done.
Qed.

(** Resolving is idempotent: the id a caller's id was resolved to, unless
    spaces hide at its end, resolves to itself, with the same provider and
    backend. *)
Theorem resolve_idempotent s require_cloud r :
  resolve_wire_model_id s require_cloud = inl r -> strip (wire_id r) = wire_id r ->
  exists r', resolve_wire_model_id (wire_id r) require_cloud = inl r' /\ wire_id r' = wire_id r /\
    wire_provider r' = wire_provider r /\ wire_backend r' = wire_backend r.
Proof.
  unfold resolve_wire_model_id at 1. case_bool_decide; [done|]. set (work := strip_effort_suffix (strip s)).
  assert (Hcut : cut (chars "__effort_") (chars work) = None) by apply strip_effort_none.
  destruct (has_slash (chars work)) eqn:Hs.
  - intros Hv Hst. destruct (validate_spec _ _ Hs Hv) as (Hw & _). exists r. split; [|done].
    unfold resolve_wire_model_id. rewrite Hst, Hw, (strip_effort_id work Hcut), Hs, bool_decide_false; [done|].
    intros E. by rewrite E in Hs.
  - destruct (infer_cloud_provider_from_bare work) as [p|] eqn:Ei.
    + intros [= <-] Hst. cbn [wire_id wire_provider wire_backend] in *. apply infer_cases in Ei.
      set (w := p +:+ "/" +:+ work) in *.
      assert (Hw : chars w = chars p ++ slash :: chars work) by (unfold w; by rewrite !chars_app).
      assert (Hsl : has_slash (chars w) = true) by (rewrite Hw, has_slash_app; apply orb_true_r).
      assert (Hp : Forall (fun c => c <> "_"%char) (chars p ++ [slash]) /\ first_segment (chars w) = chars p).
      { rewrite Hw. rewrite !elem_of_cons, elem_of_nil in Ei.
        destruct Ei as [->|[->|[->|[->|[]]]]]; (split; [repeat constructor; discriminate | done]). }
      destruct Hp as [Hp Hf]. exists (mkResolution w (Some p) false (Some "cloud_api"%string)). split; [|done].
      unfold resolve_wire_model_id. rewrite Hst, (strip_effort_id w), Hsl.
      * rewrite bool_decide_false by (by intros E; rewrite E in Hsl).
        unfold validate_prefixed_id, parse. pose proof (has_slash_not_blank _ Hsl) as Hb. unfold blank in Hb.
        rewrite Hb, Hsl, Hf, unchars_chars. rewrite !elem_of_cons, elem_of_nil in Ei.
        destruct Ei as [E|[E|[E|[E|[]]]]]; rewrite E in Hf |- *; cbv beta iota zeta;
          (rewrite bool_decide_false by (unfold ROUTING_PREFIXES; set_solver)); cbv beta iota zeta; rewrite Hsl;
          cbn [routing_layer parse_cloud]; unfold validate_provider; cbn [provider backend_type parse_cloud];
          rewrite Hf; done.
      * rewrite Hw, cons_middle, app_assoc. by apply (cut_skip "_"%char).
    + destruct (looks_like_local_model_id work) eqn:El; [|done]. destruct require_cloud; [done|].
      intros [= <-] Hst. cbn [wire_id wire_provider wire_backend] in *. exists (mkResolution work None false None).
      split; [|done]. unfold resolve_wire_model_id. rewrite Hst, (strip_effort_id work Hcut), Hs, Ei, El.
      rewrite bool_decide_false; [done|]. intros E. by rewrite E in El.
Qed.

(** ** Slugs *)

Lemma sub_unsafe_safe after l : Forall (fun c => safe_char c = true) (sub_unsafe after l).
Proof.
  revert after. induction l as [|c l IH]; intros after; simpl; [constructor|].
  destruct (safe_char c) eqn:E; [by constructor|]. destruct after; [done | by constructor].
Qed.

Definition no_edge_dash (l : list ascii) : Prop := head l <> Some dash /\ last l <> Some dash.

Lemma drop_dashes_head l : head (snd (span (Ascii.eqb dash) l)) <> Some dash.
Proof.
  induction l as [|c l IH]; [done|]. cbn [span]. destruct (Ascii.eqb dash c) eqn:E.
  - by destruct (span (Ascii.eqb dash) l).
  - cbn [snd head]. intros [= ->]. by rewrite Ascii.eqb_refl in E.
Qed.

Lemma strip_dashes_spec l : no_edge_dash (strip_dashes l) /\ forall c, c ∈ strip_dashes l -> c ∈ l.
Proof.
  assert (Hin : forall l c, c ∈ snd (span (Ascii.eqb dash) l) -> c ∈ l).
  { intros k c Hc. rewrite (span_split (Ascii.eqb dash) k). set_solver. }
  unfold strip_dashes. set (k := snd (span (Ascii.eqb dash) l)). split; [split|].
  - intros E. pose proof (drop_dashes_head l) as Hh. fold k in Hh.
    rewrite head_reverse in E. pose proof (span_split (Ascii.eqb dash) (reverse k)) as Hs.
    destruct (snd (span (Ascii.eqb dash) (reverse k))) as [|c r] eqn:Er; [done|].
    assert (Hl : last (reverse k) = Some dash) by (rewrite Hs; rewrite last_app; by rewrite E).
    by rewrite last_reverse in Hl.
  - rewrite last_reverse. apply drop_dashes_head.
  - intros c Hc. apply elem_of_reverse, Hin in Hc. rewrite elem_of_reverse in Hc. exact (Hin l c Hc).
Qed.

(** A slug is not empty, is made of lower-case letters, digits, dots,
    underscores and dashes, and has no dash at either end. *)
Theorem slug_well_formed s t :
  canonical_model_slug s = Ok t ->
  t <> ""%string /\ Forall (fun c => safe_char c = true) (chars t) /\ no_edge_dash (chars t).
Proof.
  unfold canonical_model_slug. destruct (parse s) as [m|]; [|done]. cbn [exn_bind]. cbv zeta.
  match goal with |- context [strip_dashes ?x] => set (l := x) end.
  assert (Hl : Forall (fun c => safe_char c = true) l) by apply sub_unsafe_safe. clearbody l.
  destruct (strip_dashes_spec l) as [He Hin]. destruct (strip_dashes l) as [|c r] eqn:E; [done|].
  intros Ht. assert (Hc : chars t = c :: r) by (assert (Ht' : t = unchars (c :: r)) by congruence; by rewrite Ht', chars_unchars).
  rewrite Hc. split; [by intros ->|]. split; [|done]. rewrite Forall_forall in *. intros x Hx. by apply Hl, Hin.
Qed.

(** ** What the code does *)

(** The order of suffixes that the documentation allows is refused; the branch
    that looks for it is never reached with both suffixes. *)
Example both_suffixes_refused :
  validate_model_id "llama-8192-hybrid-cpu" = Some "Model ID cannot have both -cpu and -hybrid suffixes"%string /\
  (match parse "llama-8192-hybrid-cpu" with Ok m => is_cpu m && is_hybrid m | Raise _ => false end) = true.
Proof. vm_compute. split; reflexivity. Qed.

(** The provider is compared without its case, the backend with it. *)
Example substrate_with_cloud_backend :
  resolve_wire_model_id "CDP/opus-5" true =
    inl (mkResolution "CDP/opus-5" (Some "cdp") false (Some "cloud_api"))%string.
Proof. vm_compute. reflexivity. Qed.

(** An id that is resolved without asking for the cloud has no backend, and is
    admitted where only cloud backends are to be. *)
Example local_admitted_as_cloud :
  match resolve_wire_model_id "hermes3-llama-70b-16384" false with
  | inl r => require_cloud_api_backend r = None /\ wire_backend r = None
  | inr _ => False
  end.
Proof. vm_compute. split; reflexivity. Qed.

(** Spaces before the suffix for the effort stay in the id. *)
Example space_before_effort_kept :
  resolve_wire_model_id "gpt-5 __effort_high" true =
    inl (mkResolution "openai/gpt-5 " (Some "openai") true (Some "cloud_api"))%string.
Proof. vm_compute. reflexivity. Qed.

Example slug_of_gemini :
  canonical_model_entity_id "google/models/Gemini 3.6 (flash)" = Ok "model:gemini-3.6-flash"%string.
Proof. vm_compute. reflexivity. Qed.

(** ** Witnesses *)

Lemma valid_suffixes_witness :
  match parse "llama-8192-hybrid" with Ok m => is_hybrid m | Raise _ => false end = true.
Proof.
  destruct (valid_suffixes "llama-8192-hybrid" eq_refl eq_refl) as (m & E & _ & Hh & _).
  rewrite E, Hh. vm_compute. reflexivity.
Defined.

Lemma cloud_resolution_sound_witness :
  require_cloud_api_backend (mkResolution "xai/grok-4-base" (Some "xai") true (Some "cloud_api"))%string = None /\
  ("xai"%string ∈ admitted_providers).
Proof.
  destruct (cloud_resolution_sound "grok-4-base" (mkResolution "xai/grok-4-base" (Some "xai") true (Some "cloud_api"))%string
    eq_refl) as (p & Hp & Ha & _). simpl in Hp. injection Hp as <-. split; [vm_compute; reflexivity | exact Ha].
Defined.

Lemma resolve_idempotent_witness :
  exists r', resolve_wire_model_id "openai/gpt-5.5" true = inl r' /\ wire_provider r' = Some "openai"%string.
Proof.
  destruct (resolve_idempotent " gpt-5.5__effort_low" true
    (mkResolution "openai/gpt-5.5" (Some "openai") true (Some "cloud_api"))%string eq_refl eq_refl) as (r' & E & _ & Hp & _).
  exists r'. split; [exact E | exact Hp].
Defined.

Lemma slug_well_formed_witness : no_edge_dash (chars "claude-opus-5").
Proof. apply (slug_well_formed "anthropic/claude-opus-5-mcp" "claude-opus-5" eq_refl). Defined.
