(* ===== verification/Activation.v ===== *)
(** * Activation of model contexts
    ([services/universal-stargate/gateways/filtering/activation.py])

    A gateway offers a model in several context lengths, one id per context,
    and an operator may activate some of them.  [filter_by_activation] decides
    which ids a catalog shows: the activated ones where a list is given, the
    highest context otherwise.  A set of ids is the list of its elements in
    iteration order, which matters. *)
From stdpp Require Import base gmap sets list strings.
From Stdlib Require Import Ascii ZArith NArith Lia.
From S2P Require Import Prelude PyString ModelId.

(** ** Data *)

Record ActivationInfo := mkActivation { cpu : option (list N); gpu : option (list N) }.

(** The needs of a context; a missing key counts as zero. *)
Record Needs := mkNeeds { n_vram_mb : option Z; n_ram_mb : option Z }.

Record GatewayTotals := mkTotals { total_ram_mb : Z; total_vram_mb : Z }.

Section Filter.
Context (activated_contexts : gmap string ActivationInfo)
        (model_profile_resources : gmap string (gmap string (gmap N Needs)))
        (gateway_resources : list (string * GatewayTotals)).

(** ** Capacity *)

Definition max_of {A : Type} (le : A -> A -> bool) (l : list A) : option A :=
  match l with [] => None | x :: l' => Some (fold_left (fun m y => if le y m then m else y) l' x) end.

Definition get_max_gateway_capacity : Z * Z :=
  match max_of Z.leb (map (fun kr => total_ram_mb kr.2) gateway_resources),
        max_of Z.leb (map (fun kr => total_vram_mb kr.2) gateway_resources) with
  | Some r, Some v => (r, v)
  | _, _ => (0, 0)%Z
  end.

Definition compute_key (on_cpu : bool) : string := if on_cpu then "cpu" else "gpu".

Definition profiles_of (base_model_id : string) (on_cpu : bool) : gmap N Needs :=
  get_or ∅ (get_or ∅ (model_profile_resources !! base_model_id) !! compute_key on_cpu).

Definition needs_fit (on_cpu : bool) (n : Needs) : bool :=
  let '(max_ram, max_vram) := get_max_gateway_capacity in
  let vram_needed := get_or 0%Z (n_vram_mb n) in
  let ram_needed := get_or 0%Z (n_ram_mb n) in
  if on_cpu then (ram_needed <=? max_ram)%Z
  else (vram_needed <=? max_vram)%Z && (ram_needed <=? max_ram)%Z.

Definition no_capacity_known : bool :=
  let '(max_ram, max_vram) := get_max_gateway_capacity in (max_ram =? 0)%Z && (max_vram =? 0)%Z.

Definition context_fits_on_any_gateway (base_model_id : string) (context : N) (on_cpu : bool) : bool :=
  if no_capacity_known then true
  else match profiles_of base_model_id on_cpu !! context with
       | None => true
       | Some resources => needs_fit on_cpu resources
       end.

Definition get_highest_fitting_context (base_model_id : string) (on_cpu : bool) : option N :=
  if no_capacity_known then None
  else max_of N.leb (map fst (List.filter (fun cr => needs_fit on_cpu cr.2)
                                (map_to_list (profiles_of base_model_id on_cpu)))).

(** ** Contexts read off the ids *)

(** [int(s)] of a text without a minus sign: blanks around, one plus sign,
    single underscores between digits. *)
Definition c_space (c : ascii) : bool :=
  let n := nat_of_ascii c in ((9 <=? n)%nat && (n <=? 13)%nat) || (n =? 32)%nat.
Definition c_strip (l : list ascii) : list ascii :=
  reverse (snd (span c_space (reverse (snd (span c_space l))))).
Fixpoint grouped (l : list ascii) : bool :=
  match l with
  | [] => false
  | c :: l' => is_digit c && match l' with
                             | [] => true
                             | d :: l'' => if Ascii.eqb d "_"%char then grouped l'' else grouped l'
                             end
  end.
Definition int_text (l : list ascii) : option N :=
  let body := match c_strip l with c :: l' => if Ascii.eqb c "+"%char then l' else c :: l' | [] => [] end in
  if grouped body then Some (int_of_digits (List.filter is_digit body)) else None.

(** [s.rsplit("-", 1)] when it has two parts. *)
Definition rsplit_dash (l : list ascii) : option (list ascii * list ascii) :=
  match span (fun c => negb (Ascii.eqb c dash)) (reverse l) with
  | (_, []) => None
  | (last_part, _ :: before) => Some (reverse before, reverse last_part)
  end.

Definition context_of (base_model_id : string) (work_id : list ascii) : option N :=
  match rsplit_dash work_id with
  | Some (extracted_base, context_str) =>
      if bool_decide (extracted_base = chars base_model_id) then
        match int_text context_str with
        | Some context => if context_fits_on_any_gateway base_model_id context false then Some context else None
        | None => None
        end
      else None
  | None => None
  end.

Definition get_highest_hybrid_context (base_model_id : string) (model_ids : list string) : option N :=
  max_of N.leb (omap (fun s => match strip_suffix (chars "-hybrid") (chars s) with
                               | Some work_id => context_of base_model_id work_id
                               | None => None
                               end) model_ids).

Definition get_highest_full_gpu_context (base_model_id : string) (model_ids : list string) : option N :=
  max_of N.leb (omap (fun s => if ends_with "-hybrid" s || ends_with "-cpu" s then None
                               else context_of base_model_id (chars s)) model_ids).

(** ** The loop *)

(** The local variables of the loop.  [auto_selected] holds two kinds of
    values under keys with different ends; the entries of the empty lists are
    kept apart, in [auto_empty]. *)
Record Loop := mkLoop {
  auto_selected : gmap string (option N);
  auto_empty : gmap string (option N * option N);
  cache_selected_ctx : gmap string N;
  cache_selected_model : gmap string string;
  filtered : gset string
}.

Definition loop_start : Loop := mkLoop ∅ ∅ ∅ ∅ ∅.

Definition keep (s : string) (st : Loop) : Loop :=
  mkLoop (auto_selected st) (auto_empty st) (cache_selected_ctx st) (cache_selected_model st) ({[s]} ∪ filtered st).

Definition cache_key (base_model : string) (on_cpu : bool) : string :=
  base_model +:+ ":" +:+ compute_key on_cpu.
Definition cache_key_empty (base_model : string) : string := base_model +:+ ":empty_list".

Definition activated_list (m : ModelId) : option (list N) :=
  match activated_contexts !! base_id m with
  | Some activation => if is_cpu m then cpu activation else gpu activation
  | None => None
  end.

(** [ctx and context == ctx] *)
Definition is_ctx (context : N) (ctx : option N) : bool :=
  match ctx with Some c => negb (c =? 0)%N && (context =? c)%N | None => false end.

(** The choice for an empty list. *)
Definition chosen_by_default (m : ModelId) (context : N) (sel : option N * option N) : bool :=
  if is_hybrid m && is_ctx context sel.1 then context_fits_on_any_gateway (base_id m) context false
  else if negb (is_hybrid m) && negb (is_cpu m) && is_ctx context sel.2
       then context_fits_on_any_gateway (base_id m) context false
       else false.

Definition empty_selection (model_ids : list string) (base_model : string) : option N * option N :=
  (get_highest_hybrid_context base_model model_ids, get_highest_full_gpu_context base_model model_ids).

Definition visit_empty (model_ids : list string) (s : string) (m : ModelId) (context : N) (st : Loop) : Loop :=
  let key := cache_key_empty (base_id m) in
  let st := match auto_empty st !! key with
            | Some _ => st
            | None => mkLoop (auto_selected st) (<[key := empty_selection model_ids (base_id m)]> (auto_empty st))
                        (cache_selected_ctx st) (cache_selected_model st) (filtered st)
            end in
  if chosen_by_default m context (get_or (None, None) (auto_empty st !! key)) then keep s st else st.

Definition visit_auto (s : string) (m : ModelId) (context : N) (st : Loop) : Loop :=
  let key := cache_key (base_id m) (is_cpu m) in
  let st := match auto_selected st !! key with
            | Some _ => st
            | None => mkLoop (<[key := get_highest_fitting_context (base_id m) (is_cpu m)]> (auto_selected st))
                        (auto_empty st) (cache_selected_ctx st) (cache_selected_model st) (filtered st)
            end in
  match get_or None (auto_selected st !! key) with
  | Some selected_ctx => if (context =? selected_ctx)%N then keep s st else st
  | None =>
      if match cache_selected_ctx st !! key with None => true | Some c => (c <? context)%N end
      then mkLoop (auto_selected st) (auto_empty st) (<[key := context]> (cache_selected_ctx st))
             (<[key := s]> (cache_selected_model st))
             ({[s]} ∪ match cache_selected_model st !! key with
                      | Some current => filtered st ∖ {[current]}
                      | None => filtered st
                      end)
      else st
  end.

Definition visit (model_ids : list string) (st : Loop) (s : string) : Loop :=
  match parse s with
  | Raise _ => keep s st
  | Ok m =>
      match context_length m with
      | None => keep s st
      | Some context =>
          match activated_list m with
          | Some [] => visit_empty model_ids s m context st
          | Some l => if bool_decide (context ∈ l) && context_fits_on_any_gateway (base_id m) context (is_cpu m)
                      then keep s st else st
          | None => visit_auto s m context st
          end
      end
  end.

(** The hybrid variant of a full-GPU id. *)
Definition hybrid_variant (s : string) : option string :=
  match parse s with
  | Ok m =>
      if negb (is_cpu m) && negb (is_hybrid m) && bool_decide (is_Some (context_length m))
      then match with_suffix m false true with Ok v => Some (synthetic_id v) | Raise _ => None end
      else None
  | Raise _ => None
  end.

Definition with_variants (model_ids : list string) (f : gset string) : gset string :=
  f ∪ list_to_set (List.filter (fun v => bool_decide (v ∈ model_ids)) (omap hybrid_variant (elements f))).

Definition filter_by_activation (model_ids : list string) : gset string :=
  with_variants model_ids (filtered (fold_left (visit model_ids) model_ids loop_start)).

End Filter.

(** ** What is kept *)

Section Facts.
Context (activated_contexts : gmap string ActivationInfo)
        (model_profile_resources : gmap string (gmap string (gmap N Needs)))
        (gateway_resources : list (string * GatewayTotals))
        (model_ids : list string).

#[local] Abbreviation fits := (context_fits_on_any_gateway model_profile_resources gateway_resources).
#[local] Abbreviation highest := (get_highest_fitting_context model_profile_resources gateway_resources).
#[local] Abbreviation by_default := (empty_selection model_profile_resources gateway_resources model_ids).
#[local] Abbreviation step := (visit activated_contexts model_profile_resources gateway_resources model_ids).
#[local] Abbreviation result := (filter_by_activation activated_contexts model_profile_resources gateway_resources model_ids).

(** What the loop decides of an id by itself; [None] when the id competes for
    the highest context with the other ids of its base and compute type. *)
Definition verdict (s : string) : option bool :=
  match parse s with
  | Raise _ => Some true
  | Ok m =>
      match context_length m with
      | None => Some true
      | Some c =>
          match activated_list activated_contexts m with
          | Some [] => Some (chosen_by_default model_profile_resources gateway_resources m c (by_default (base_id m)))
          | Some l => Some (bool_decide (c ∈ l) && fits (base_id m) c (is_cpu m))
          | None => match highest (base_id m) (is_cpu m) with Some h => Some (c =? h)%N | None => None end
          end
      end
  end.

(** The competition an id takes part in, with its context. *)
Definition entry (s : string) : option (string * N) :=
  match verdict s, parse s with
  | None, Ok m => (fun c => (cache_key (base_id m) (is_cpu m), c)) <$> context_length m
  | _, _ => None
  end.

Lemma cache_key_inj b1 c1 b2 c2 : cache_key b1 c1 = cache_key b2 c2 -> b1 = b2 /\ c1 = c2.
Proof.
  intros H. apply (f_equal chars) in H. unfold cache_key in H. rewrite !chars_app in H.
  destruct c1, c2; apply app_inj_2 in H as [H1 H2]; try done; split; try done; by apply chars_inj.
Qed.

Lemma cache_key_empty_inj b1 b2 : cache_key_empty b1 = cache_key_empty b2 -> b1 = b2.
Proof.
  intros H. apply (f_equal chars) in H. unfold cache_key_empty in H. rewrite !chars_app in H.
  apply app_inj_2 in H as [H1 _]; [by apply chars_inj | done].
Qed.

(** The caches hold what they would be filled with. *)
Definition caches_ok (st : Loop) : Prop :=
  (forall b v, auto_empty st !! cache_key_empty b = Some v -> v = by_default b) /\
  (forall b c v, auto_selected st !! cache_key b c = Some v -> v = highest b c).

Definition insert_if (b : bool) (s : string) (f : gset string) : gset string := if b then {[s]} ∪ f else f.

Lemma visit_decided st s b : caches_ok st -> verdict s = Some b ->
  caches_ok (step st s) /\ filtered (step st s) = insert_if b s (filtered st) /\
  cache_selected_ctx (step st s) = cache_selected_ctx st /\ cache_selected_model (step st s) = cache_selected_model st.
Proof.
  intros [H1 H2]. unfold verdict, visit.
  destruct (parse s) as [m|e]; [|by intros [= <-]].
  destruct (context_length m) as [c|]; [|by intros [= <-]].
  destruct (activated_list activated_contexts m) as [[|x l]|].
  - intros [= <-]. unfold visit_empty.
    destruct (auto_empty st !! cache_key_empty (base_id m)) as [v|] eqn:E.
    + rewrite E. simpl. rewrite (H1 _ _ E). by destruct (chosen_by_default _ _ _ _ _).
    + simpl. rewrite lookup_insert_eq. simpl.
      assert (caches_ok (mkLoop (auto_selected st) (<[cache_key_empty (base_id m) := by_default (base_id m)]> (auto_empty st))
                (cache_selected_ctx st) (cache_selected_model st) (filtered st))) as Hc.
      { split; [|done]. intros b' v. simpl. rewrite lookup_insert_Some.
        intros [[E' <-]|[_ E']]; [apply cache_key_empty_inj in E' as <-; done | by apply H1]. }
      by destruct (chosen_by_default _ _ _ _ _).
  - intros [= <-]. by destruct (_ && _).
  - destruct (highest _ _) as [h|] eqn:Eh; [|done]. intros [= <-]. unfold visit_auto.
    destruct (auto_selected st !! cache_key (base_id m) (is_cpu m)) as [v|] eqn:E.
    + rewrite E. simpl. rewrite (H2 _ _ _ E), Eh. by destruct (c =? h)%N.
    + simpl. rewrite lookup_insert_eq, Eh. simpl.
      assert (caches_ok (mkLoop (<[cache_key (base_id m) (is_cpu m) := Some h]> (auto_selected st)) (auto_empty st)
                (cache_selected_ctx st) (cache_selected_model st) (filtered st))) as Hc.
      { split; [done|]. intros b' c' v. simpl. rewrite lookup_insert_Some.
        intros [[E' <-]|[_ E']]; [apply cache_key_inj in E' as [<- <-]; done | by apply H2]. }
      by destruct (c =? h)%N.
Qed.

Lemma entry_decided s b : verdict s = Some b -> entry s = None.
Proof. unfold entry. by intros ->. Qed.

Lemma entry_competes s : verdict s = None -> exists k c, entry s = Some (k, c).
Proof.
  unfold entry. intros E. rewrite E. unfold verdict in E.
  destruct (parse s) as [m|]; [|done]. destruct (context_length m); [|done]. simpl. eauto.
Qed.

Lemma visit_competes st s k c : caches_ok st -> entry s = Some (k, c) ->
  let win := match cache_selected_ctx st !! k with None => true | Some c' => (c' <? c)%N end in
  caches_ok (step st s) /\
  cache_selected_ctx (step st s) = (if win then <[k := c]> (cache_selected_ctx st) else cache_selected_ctx st) /\
  cache_selected_model (step st s) = (if win then <[k := s]> (cache_selected_model st) else cache_selected_model st) /\
  filtered (step st s) =
    (if win then {[s]} ∪ match cache_selected_model st !! k with
                         | Some current => filtered st ∖ {[current]}
                         | None => filtered st
                         end
     else filtered st).
Proof.
  intros [H1 H2]. unfold entry, verdict, visit.
  destruct (parse s) as [m|e]; [|done]. destruct (context_length m) as [c0|]; [|done].
  destruct (activated_list activated_contexts m) as [[|x l]|]; [done|done|].
  destruct (highest _ _) as [h|] eqn:Eh; [done|]. simpl. intros [= <- <-]. unfold visit_auto.
  destruct (auto_selected st !! cache_key (base_id m) (is_cpu m)) as [v|] eqn:E.
  - rewrite E. simpl. rewrite (H2 _ _ _ E), Eh. case_match; done.
  - simpl. rewrite lookup_insert_eq, Eh. simpl.
    assert (caches_ok (mkLoop (<[cache_key (base_id m) (is_cpu m) := None]> (auto_selected st)) (auto_empty st)
              (cache_selected_ctx st) (cache_selected_model st) (filtered st))) as Hc.
    { split; [done|]. intros b' c' v. simpl. rewrite lookup_insert_Some.
      intros [[E' <-]|[_ E']]; [apply cache_key_inj in E' as [<- <-]; done | by apply H2]. }
    case_match; done.
Qed.

(** *** The invariant of the loop after the ids [done] *)

Definition champion (seen : list string) (st : Loop) (k : string) : Prop :=
  match cache_selected_ctx st !! k, cache_selected_model st !! k with
  | None, None => forall s c, s ∈ seen -> entry s <> Some (k, c)
  | Some top, Some r =>
      entry r = Some (k, top) /\ r ∈ filtered st /\
      forall s c, s ∈ seen -> entry s = Some (k, c) -> (c <= top)%N /\ (s ∈ filtered st -> s = r)
  | _, _ => False
  end.

Record LoopOk (seen : list string) (st : Loop) : Prop := {
  ok_caches : caches_ok st;
  ok_seen : forall s, s ∈ filtered st -> s ∈ seen;
  ok_decided : forall s b, s ∈ seen -> verdict s = Some b -> (s ∈ filtered st <-> b = true);
  ok_champion : forall k, champion seen st k
}.

Lemma LoopOk_start : LoopOk [] loop_start.
Proof. split; [split; simpl; intros *; by rewrite lookup_empty | set_solver | set_solver | intros k; unfold champion; simpl; rewrite !lookup_empty; intros s c; set_solver]. Qed.

Lemma elem_of_insert_if b s s' f : s' ∈ insert_if b s f <-> (b = true /\ s' = s) \/ s' ∈ f.
Proof. destruct b; simpl; set_solver. Qed.

Lemma LoopOk_visit_decided seen st s b : verdict s = Some b -> LoopOk seen st -> LoopOk (seen ++ [s]) (step st s).
Proof.
  intros Ev [Hc Hs Hd Hk]. pose proof (entry_decided _ _ Ev) as Ee.
  destruct (visit_decided st s b Hc Ev) as (Hc' & Hf & Ex & Em). split; [done|..].
  - intros s'. rewrite Hf, elem_of_insert_if. set_solver.
  - intros s' b'. rewrite Hf, elem_of_insert_if, elem_of_app, list_elem_of_singleton. intros [Hin| ->] Ev'.
    + rewrite <- (Hd _ _ Hin Ev'). split; [|by right]. intros [[-> ->]|]; [|done].
      apply (Hd _ _ Hin Ev'). congruence.
    + rewrite Ev in Ev'. injection Ev' as <-. split; [intros [[? _]|Hin]; [done|] | by left].
      by apply (Hd _ _ (Hs _ Hin) Ev).
  - intros k. specialize (Hk k). unfold champion in *. rewrite Ex, Em.
    destruct (cache_selected_ctx st !! k), (cache_selected_model st !! k); try done.
    + destruct Hk as (E & Hin & Hmax). split; [done|]. split; [rewrite Hf; apply elem_of_insert_if; by right|].
      intros s' c'. rewrite Hf, elem_of_insert_if, elem_of_app, list_elem_of_singleton. intros [Hs'| ->] Es'; [|congruence].
      destruct (Hmax _ _ Hs' Es') as [Hle Heq]. split; [done|]. intros [[_ ->]|]; [congruence | by apply Heq].
    + intros s' c'. rewrite elem_of_app, list_elem_of_singleton. intros [Hs'| ->]; [by apply Hk | congruence].
Qed.

(** An id that does not beat the champion of its competition changes nothing. *)
Lemma champion_loses seen st s k c top : entry s = Some (k, c) -> LoopOk seen st ->
  cache_selected_ctx st !! k = Some top -> (c <= top)%N -> forall k', champion (seen ++ [s]) st k'.
Proof.
  intros Ee [Hc Hs Hd Hk] Et Hle k'. pose proof (Hk k') as Hk'. unfold champion in *.
  destruct (cache_selected_ctx st !! k') as [top'|] eqn:Et', (cache_selected_model st !! k') as [r|]; try done.
  - destruct Hk' as (E & Hin & Hmax). split; [done|]. split; [done|].
    intros s' c'. rewrite elem_of_app, list_elem_of_singleton. intros [Hs'| ->] Es'; [by apply Hmax|].
    simplify_eq. split; [done|]. intros Hf. apply (Hmax s c); [by apply Hs | done | done].
  - intros s' c'. rewrite elem_of_app, list_elem_of_singleton. intros [Hs'| ->] Es'; [by eapply Hk' | simplify_eq].
Qed.

Lemma champion_wins seen st s k c st' : entry s = Some (k, c) -> LoopOk seen st ->
  (forall top, cache_selected_ctx st !! k = Some top -> (top < c)%N) ->
  cache_selected_ctx st' = <[k := c]> (cache_selected_ctx st) ->
  cache_selected_model st' = <[k := s]> (cache_selected_model st) ->
  filtered st' = {[s]} ∪ match cache_selected_model st !! k with
                         | Some current => filtered st ∖ {[current]}
                         | None => filtered st
                         end ->
  forall k', champion (seen ++ [s]) st' k'.
Proof.
  intros Ee [Hc Hs Hd Hk] Htop Ex Em Hf k'. pose proof (Hk k') as Hk'. pose proof (Hk k) as Hkk.
  unfold champion in *. rewrite Ex, Em. destruct (decide (k = k')) as [<-|Hne].
  - rewrite !lookup_insert_eq. split; [done|]. rewrite Hf. split; [set_solver|].
    intros s' c'. rewrite elem_of_app, list_elem_of_singleton. intros [Hs'| ->] Es'.
    + destruct (cache_selected_ctx st !! k) as [top|], (cache_selected_model st !! k) as [r|]; try done;
        [|by destruct (Hkk _ _ Hs' Es')].
      destruct Hkk as (E & Hin & Hmax). destruct (Hmax _ _ Hs' Es') as [Hle Heq].
      pose proof (Htop _ eq_refl). split; [lia|]. set_solver.
    + simplify_eq. split; [lia | done].
  - rewrite !lookup_insert_ne by done.
    destruct (cache_selected_ctx st !! k') as [top'|], (cache_selected_model st !! k') as [r'|]; try done.
    + destruct Hk' as (E & Hin & Hmax). split; [done|]. split.
      * rewrite Hf. destruct (cache_selected_model st !! k) as [r|]; [|set_solver].
        destruct (cache_selected_ctx st !! k); [|done]. destruct Hkk as (Er & _).
        assert (r' <> r) by congruence. set_solver.
      * intros s' c'. rewrite elem_of_app, list_elem_of_singleton. intros [Hs'| ->] Es'; [|congruence].
        destruct (Hmax _ _ Hs' Es') as [Hle Heq]. split; [done|]. rewrite Hf, elem_of_union, elem_of_singleton.
        intros [->|Hin']; [congruence|]. apply Heq. case_match; set_solver.
    + intros s' c'. rewrite elem_of_app, list_elem_of_singleton. intros [Hs'| ->] Es'; [by eapply Hk' | congruence].
Qed.

Lemma LoopOk_visit seen st s : LoopOk seen st -> LoopOk (seen ++ [s]) (step st s).
Proof.
  intros Hok. destruct (verdict s) as [b|] eqn:Ev; [by apply (LoopOk_visit_decided _ _ _ b)|].
  destruct (entry_competes s Ev) as (k & c & Ee). pose proof Hok as [Hc Hs Hd Hk].
  destruct (visit_competes st s k c Hc Ee) as (Hc' & Ex & Em & Hf). pose proof (Hk k) as Hkk. unfold champion in Hkk.
  split; [done|..].
  - intros s'. rewrite Hf, elem_of_app, list_elem_of_singleton. repeat case_match; set_solver.
  - intros s' b'. rewrite elem_of_app, list_elem_of_singleton. intros [Hin| ->] Ev'; [|congruence].
    rewrite <- (Hd _ _ Hin Ev'), Hf. assert (s' <> s) by congruence. pose proof (entry_decided _ _ Ev') as Es'.
    destruct (cache_selected_ctx st !! k) as [top|], (cache_selected_model st !! k) as [r|]; try done; [|set_solver].
    destruct Hkk as (Er & _). assert (s' <> r) by congruence. destruct (top <? c)%N; set_solver.
  - destruct (cache_selected_ctx st !! k) as [top|] eqn:Et.
    + destruct (N.ltb_spec top c) as [Hlt|Hge].
      * apply (champion_wins _ st s k c); try done. congruence.
      * intros k'. pose proof (champion_loses _ _ _ _ _ _ Ee Hok Et Hge k') as H. unfold champion in *.
        by rewrite Ex, Em, Hf.
    + apply (champion_wins _ st s k c); try done. congruence.
Qed.

Lemma LoopOk_visits ids : forall seen st, LoopOk seen st -> LoopOk (seen ++ ids) (fold_left step ids st).
Proof.
  induction ids as [|s ids IH]; intros seen st H; simpl; [by rewrite app_nil_r|].
  rewrite (cons_middle s seen ids), app_assoc. by apply IH, LoopOk_visit.
Qed.

Lemma LoopOk_all : LoopOk model_ids (fold_left step model_ids loop_start).
Proof. by apply (LoopOk_visits model_ids []), LoopOk_start. Qed.

(** *** Hybrid variants *)

Lemma context_match_dash b ds : forallb is_digit ds = true -> ds <> [] ->
  context_match (b ++ dash :: ds) = if (3 <=? length ds)%nat && (length ds <=? 6)%nat then Some (b, ds) else None.
Proof.
  intros Hd Hne. unfold context_match. rewrite reverse_app, reverse_cons, <- app_assoc. simpl.
  destruct (reverse_digits_head ds (dash :: reverse b) Hne Hd) as (c & r & E & Hc). rewrite E.
  destruct (Ascii.eqb c "010"%char) eqn:Ec; [apply Ascii.eqb_eq in Ec as ->; done|].
  rewrite <- E, span_app.
  - cbv beta iota. rewrite length_reverse, !reverse_involutive. done.
  - rewrite forallb_forall in *. intros x Hx. apply Hd. by rewrite <- list_elem_of_In, elem_of_reverse, list_elem_of_In in Hx.
  - simpl. by intros ? [= <-].
Qed.

Lemma str_int_nonempty n : str_int n <> [].
Proof.
  unfold str_int. destruct (N.eqb_spec n 0) as [->|Hn]; [done|].
  destruct (N.to_nat (N.size n)) as [|f] eqn:E; [destruct n; simpl in E; lia|]. simpl.
  destruct (n <? 10)%N; [done|]. intros H%app_eq_nil. by destruct H.
Qed.

Lemma parse_context_local s m c : parse s = Ok m -> context_length m = Some c ->
  has_slash (chars (base_id m)) = false.
Proof.
  unfold parse. destruct (forallb is_space (chars s)); [done|]. cbv zeta. intros Hp Hc.
  match type of Hp with context [let (_, _) := ?x in _] => destruct x as [layer body] end.
  destruct (has_slash body) eqn:Es; [injection Hp as <-; done|]. injection Hp as <-.
  destruct (parse_local_pieces s body) as [u Hu]. rewrite Hu, has_slash_app in Es.
  by apply orb_false_iff in Es as [].
Qed.

(** The hybrid variant of an id is read as the same model with the same
    context, unless the context is written with fewer than three digits. *)
Lemma hybrid_variant_parse s v : hybrid_variant s = Some v -> exists m mv c,
  parse s = Ok m /\ is_cpu m = false /\ context_length m = Some c /\ parse v = Ok mv /\
  is_cpu mv = false /\
  forall c', context_length mv = Some c' -> base_id mv = base_id m /\ c' = c.
Proof.
  unfold hybrid_variant. destruct (parse s) as [m|] eqn:Ep; [|done].
  destruct (is_cpu m) eqn:Ecpu; [done|]. destruct (is_hybrid m); [done|].
  destruct (context_length m) as [c|] eqn:Ec; [|done]. simpl. intros [= <-].
  pose proof (parse_context_local _ _ _ Ep Ec) as Hs.
  set (mv := mkModelId (original m) (base_id m) (context_length m) false true (backend_type m) (provider m) (routing_layer m)).
  assert (Hch : chars (synthetic_id mv) = (chars (base_id m) ++ dash :: str_int c) ++ chars "-hybrid").
  { rewrite chars_synthetic. simpl. rewrite Ec. simpl. by rewrite <- app_assoc. }
  assert (Hsl : has_slash (chars (synthetic_id mv)) = false) by (by apply has_slash_synthetic).
  unfold parse. rewrite Hsl.
  replace (forallb is_space (chars (synthetic_id mv))) with false
    by (rewrite Hch, !forallb_app; simpl; by rewrite !andb_false_r).
  cbv beta iota zeta. rewrite Hsl, Hch. eexists m, _, c. split; [done|]. split; [done|]. split; [done|]. split; [done|].
  unfold parse_local.
  replace (strip_suffix (chars "-cpu") _) with (@None (list ascii))
    by (symmetry; change (chars "-hybrid") with (chars "-hybri" ++ ["d"%char]); rewrite app_assoc;
        by apply (strip_suffix_last (chars "-cp"))).
  rewrite strip_suffix_app, context_match_dash by (apply str_int_digits || apply str_int_nonempty).
  destruct (_ && _) eqn:El; simpl; [|done]. rewrite unchars_chars. split; [done|]. intros c' [= <-].
  rewrite int_of_str_int; [done|]. destruct c; [done | lia].
Qed.

Lemma elem_of_result s : s ∈ result <->
  s ∈ filtered (fold_left step model_ids loop_start) \/
  (s ∈ model_ids /\ exists x, x ∈ filtered (fold_left step model_ids loop_start) /\ hybrid_variant x = Some s).
Proof.
  unfold filter_by_activation, with_variants.
  rewrite elem_of_union, elem_of_list_to_set, elem_of_lfilter, list_elem_of_omap, bool_decide_eq_true.
  setoid_rewrite elem_of_elements. naive_solver.
Qed.

Lemma verdict_local s m c : parse s = Ok m -> context_length m = Some c ->
  verdict s = match activated_list activated_contexts m with
              | Some [] => Some (chosen_by_default model_profile_resources gateway_resources m c (by_default (base_id m)))
              | Some l => Some (bool_decide (c ∈ l) && fits (base_id m) c (is_cpu m))
              | None => match highest (base_id m) (is_cpu m) with Some h => Some (c =? h)%N | None => None end
              end.
Proof. unfold verdict. by intros -> ->. Qed.

(** A variant competes, or is listed, as the id it comes from. *)
Lemma variant_like s v mv c : hybrid_variant s = Some v -> parse v = Ok mv -> context_length mv = Some c ->
  exists m, parse s = Ok m /\ context_length m = Some c /\ base_id m = base_id mv /\ is_cpu m = is_cpu mv /\
    activated_list activated_contexts m = activated_list activated_contexts mv.
Proof.
  intros Hv Hp Hc. destruct (hybrid_variant_parse _ _ Hv) as (m & mv' & c' & Hm & Hcpu & Hcm & Hp' & Hcpu' & H).
  rewrite Hp in Hp'. injection Hp' as <-. destruct (H _ Hc) as [Eb ->].
  exists m. split; [done|]. split; [done|]. split; [done|]. split; [congruence|].
  unfold activated_list. by rewrite Eb, Hcpu, Hcpu'.
Qed.

(** C36: What [filter_by_activation] shows, in whatever order the set of ids is
    read: only ids of the catalog; every id that its own activation, or the
    lack of a context, admits; where a list of contexts is activated, nothing
    but contexts of the list that fit a gateway; where nothing is activated and
    no fitting context is known, of each competing base and compute type at
    least one id and only ids of the highest context (not all variants, as the
    docstring of the function says: [unknown_capacity_hides_variants]); and no
    other id, except hybrid variants of shown ones. *)
Theorem activation_exact :
  (forall s, s ∈ result -> s ∈ model_ids) /\
  (forall s, s ∈ model_ids -> verdict s = Some true -> s ∈ result) /\
  (forall s m c l, s ∈ result -> parse s = Ok m -> context_length m = Some c ->
     activated_list activated_contexts m = Some l -> l <> [] -> c ∈ l /\ fits (base_id m) c (is_cpu m) = true) /\
  (forall s k c, s ∈ model_ids -> entry s = Some (k, c) ->
     exists r top, r ∈ result /\ entry r = Some (k, top) /\ (c <= top)%N /\ (s ∈ result -> c = top)) /\
  (forall s, s ∈ result -> verdict s = Some false -> exists x, x ∈ result /\ hybrid_variant x = Some s).
Proof.
  pose proof LoopOk_all as [Hc Hs Hd Hk]. refine (conj _ (conj _ (conj _ (conj _ _)))).

  - intros s [H|[H _]]%elem_of_result; [by apply Hs | done].
  - intros s Hin Hv. apply elem_of_result. left. by apply (Hd _ true).
  - intros s m c l Hr Hp Hcx Hl Hne.
    assert (Hgen : forall s' m', s' ∈ filtered (fold_left step model_ids loop_start) -> parse s' = Ok m' ->
              context_length m' = Some c -> activated_list activated_contexts m' = Some l ->
              c ∈ l /\ fits (base_id m') c (is_cpu m') = true).
    { intros s' m' Hf Hp' Hc' Hl'. pose proof (verdict_local _ _ _ Hp' Hc') as Hv. rewrite Hl' in Hv.
      destruct l as [|x l]; [done|]. apply (Hd _ _ (Hs _ Hf) Hv) in Hf. by to_prop. }
    apply elem_of_result in Hr as [Hf|(Hin & x & Hf & Hx)]; [by apply (Hgen s)|].
    destruct (variant_like _ _ _ _ Hx Hp Hcx) as (mx & Hpx & Hcx' & Eb & Ec & El). rewrite <- Eb, <- Ec.
    apply (Hgen x mx); congruence.
  - intros s k c Hin He. pose proof (Hk k) as Hch. unfold champion in Hch.
    destruct (cache_selected_ctx _ !! k) as [top|], (cache_selected_model _ !! k) as [r|]; try done; [|by destruct (Hch _ _ Hin He)].
    destruct Hch as (Er & Hf & Hmax). exists r, top. split; [apply elem_of_result; by left|]. split; [done|].
    destruct (Hmax _ _ Hin He) as [Hle Heq]. split; [done|].
    intros [Hfs|(_ & x & Hfx & Hx)]%elem_of_result; [specialize (Heq Hfs); congruence|].
    assert (Ex : entry x = Some (k, c)).
    { unfold entry in He. destruct (verdict s) eqn:Ev; [done|]. destruct (parse s) as [ms|] eqn:Ep; [|done].
      destruct (context_length ms) as [cs|] eqn:Ecs; [|done]. simpl in He. injection He as <- <-.
      destruct (variant_like _ _ _ _ Hx Ep Ecs) as (mx & Hpx & Hcx & Eb & Ec & El).
      rewrite (verdict_local _ _ _ Ep Ecs) in Ev.
      unfold entry. rewrite (verdict_local _ _ _ Hpx Hcx), Hpx, Hcx, El, Eb, Ec.
      destruct (activated_list _ ms) as [[|y l]|]; [done | done|]. by destruct (highest _ _). }
    destruct (Hmax _ _ (Hs _ Hfx) Ex) as [_ Heq']. specialize (Heq' Hfx). congruence.
  - intros s [Hf|(Hin & x & Hfx & Hx)]%elem_of_result Hv.
    + by apply (Hd _ _ (Hs _ Hf) Hv) in Hf.
    + exists x. split; [apply elem_of_result; by left | done].
Qed.
End Facts.

(** ** Examples *)

Definition catalog_ids : list string :=
  ["m-4096"; "m-8192"; "m-8192-cpu"; "n-2048"; "n-4096"; "n-4096-hybrid"; "tool"]%string.

(** Of [m] only 4096 is activated on a GPU; nothing is said of [n]. *)
Example activated_and_highest :
  let r := filter_by_activation {["m"%string := mkActivation None (Some [4096%N])]} ∅
             [("local"%string, mkTotals 64000 24000)] catalog_ids in
  map (fun s => bool_decide (s ∈ r)) catalog_ids = [true; false; true; false; true; true; true].
Proof. vm_compute. reflexivity. Qed.

(** Ids of the same highest context, one of them hybrid, are both shown when
    the plain one is read first; read second it is lost.  A set of strings is
    read in an order that changes from one process to the next. *)
Example highest_depends_on_order :
  let shown ids := filter_by_activation ∅ ∅ [] ids in
  shown ["n-4096"; "n-4096-hybrid"]%string = {["n-4096"; "n-4096-hybrid"]}%string /\
  shown ["n-4096-hybrid"; "n-4096"]%string = {["n-4096-hybrid"]}%string.
Proof. vm_compute. done. Qed.

(** With no activation and no gateway resources the docstring promises all
    variants, as graceful degradation; all but the highest context are
    hidden. *)
Example unknown_capacity_hides_variants :
  let ids := ["n-2048"; "n-4096"; "n-8192"]%string in
  map (fun s => bool_decide (s ∈ filter_by_activation ∅ ∅ [] ids)) ids = [false; false; true].
Proof. vm_compute. reflexivity. Qed.

(** An empty list asks for the highest hybrid and the highest full-GPU ids.
    The hybrid variant of the latter is shown too, and no CPU id ever. *)
Example empty_list_shows_three :
  let ids := ["m-4096"; "m-4096-hybrid"; "m-8192-hybrid"; "m-8192-cpu"]%string in
  let r := filter_by_activation {["m"%string := mkActivation (Some []) (Some [])]} ∅ [] ids in
  map (fun s => bool_decide (s ∈ r)) ids = [true; true; true; false].
Proof. vm_compute. reflexivity. Qed.
