(* ===== verification/RoutingTypes.v ===== *)
(** * Data of the routing decision

    The dataclasses and enums of [systems/routing/selection/types.py] and
    [systems/routing/selection/decision/types.py].  A [frozenset[ModelId]] is
    the list of its elements in iteration order, used through membership
    modulo [ModelId] equality ([mmem]); a [dict[ModelId, _]] is a [gmap] on the
    dictionary key [mkey] of the id.  Human-readable reason texts are left
    out; the [details] dictionaries that later code reads are kept. *)
From stdpp Require Import base gmap list strings.
From Stdlib Require Import ZArith QArith.
From S2P Require Import Prelude PyFloat PyString ModelId.
Local Open Scope Z_scope.

(** ** Gateways and placements *)

Notation mkey_t := (string * option string)%type.

Record Placement := mkPlacement {
  model_id : ModelId;
  ram_mb : Z;
  vram_mb : Z;
  is_gpu : bool;
  original_model_id : option string;
  placement_context_length : option Z;
  endpoint_category : string
}.

(** [ModelDetails(TypedDict, total=False)]: every key may be missing. *)
Record ModelDetails := mkDetails {
  last_inference_time : option (option Q);
  vram_usage : option Z;
  ram_usage : option Z;
  status : option string;
  max_concurrent_requests : option Z
}.

(** Truth value of the details dictionary: some key is present. *)
Definition details_truthy (d : ModelDetails) : bool :=
  match last_inference_time d, vram_usage d, ram_usage d, status d, max_concurrent_requests d with
  | None, None, None, None, None => false
  | _, _, _, _, _ => true
  end.

Record Gateway := mkGateway {
  name : string;
  ram_free_mb : Z;
  vram_free_mb : Z;
  ram_total_mb : Z;
  vram_total_mb : Z;
  loaded_models : list ModelId;
  busy_models : list ModelId;
  loading_models : list ModelId;
  available_models : list ModelId;
  remote_stargate_id : option string;
  node_id : string;
  model_details : gmap mkey_t ModelDetails;
  model_measured_vram : gmap mkey_t Z;
  model_loaded_at : gmap mkey_t Q;
  health_score : Q;
  avg_latency_ms : Q;
  active_requests : Z;
  telemetry_timestamp : Q;
  last_heartbeat : Q;
  gateway_is_cloud : bool
}.

(** [Gateway.telemetry_age_ms], with [time.time()] as [now]. *)
Definition telemetry_age_ms (now : Q) (g : Gateway) : Z :=
  if feq (telemetry_timestamp g) 0 then 0
  else py_int (fmul (fsub now (telemetry_timestamp g)) (of_int 1000)).

Definition is_telemetry_stale (now : Q) (g : Gateway) (max_age_ms : Z) : bool :=
  max_age_ms <? telemetry_age_ms now g.

Definition get_model_resource_usage (g : Gateway) (m : ModelId) : Z * Z :=
  match model_details g !! mkey m with
  | Some d => if details_truthy d
              then (get_or 0 (vram_usage d), get_or 0 (ram_usage d))
              else (0, 0)
  | None => (0, 0)
  end.

Definition loaded_count (g : Gateway) : nat := length (loaded_models g).

(** A frozenset holds no two equal ids. *)
Definition wf_gateway (g : Gateway) : Prop :=
  NoDup (map mkey (loaded_models g)) /\ NoDup (map mkey (busy_models g)) /\
  NoDup (map mkey (loading_models g)) /\ NoDup (map mkey (available_models g)).

(** ** Feasibility *)

Inductive FeasibilityTier := T0_INFEASIBLE | T1_FEASIBLE_NOW | T2_FEASIBLE_EVICT.

#[export] Instance FeasibilityTier_eq_dec : EqDecision FeasibilityTier.
Proof. solve_decision. Defined.

(** A value of a [details] dictionary. *)
Inductive dval :=
  | DInt (z : Z)
  | DStr (s : string)
  | DBool (b : bool)
  | DFloat (q : Q)
  | DStrs (l : list string).

Record ConstraintFailure := mkFailure {
  constraint : string;
  details : gmap string dval
}.

(** [failure.details.get("retryable")] *)
Definition retryable (f : ConstraintFailure) : option bool :=
  match details f !! "retryable" with Some (DBool b) => Some b | _ => None end.

(** ** Eviction plans *)

Record EvictionPlanSummary := mkPlan {
  models_to_evict : list ModelId;
  freed_vram_mb : Z;
  freed_ram_mb : Z;
  estimated_cost : Q;
  catalog_freed_vram_mb : Z;
  hardware_used_vram_mb : option Z;
  non_evictable_vram_reserve_mb : Z;
  hardware_correction_applied : bool;
  catalog_freed_ram_mb : Z;
  hardware_used_ram_mb : option Z;
  non_evictable_ram_reserve_mb : Z;
  ram_hardware_correction_applied : bool;
  trigger_model_id : option string;
  plan_cooldown_protected_count : Z;
  plan_demand_protected_count : Z;
  plan_escape_hatch_used : bool;
  plan_escape_reason : option string;
  plan_escape_cooldown_remaining_s : option Q;
  plan_escape_model_id : option string;
  plan_cooldown_override_pending : bool;
  plan_cooldown_override_victim_id : option string;
  plan_cooldown_override_remaining_s : option Q
}.

Inductive Axis := vram | ram.
Inductive CorrectionBasis := catalog | corrected.
Inductive AbortReason :=
  | insufficient_vram_after_eviction
  | insufficient_ram_after_eviction
  | in_flight_eviction_prohibited.

Record EvictionPlanAbort := mkAbort {
  binding_axis : Axis;
  deficit_mb : Z;
  correction_basis : CorrectionBasis;
  abort_needed_mb : Z;
  abort_available_mb : Z;
  abort_reason : AbortReason
}.

Inductive EvictionPlan :=
  | PlanSummary (p : EvictionPlanSummary)
  | PlanAbort (a : EvictionPlanAbort).

Definition axis_str (a : Axis) : string := match a with vram => "vram" | ram => "ram" end.
Definition basis_str (b : CorrectionBasis) : string :=
  match b with catalog => "catalog" | corrected => "corrected" end.

(** [is_eviction_plan_actionable] *)
Definition is_eviction_plan_actionable (p : option EvictionPlan) : bool :=
  match p with
  | Some (PlanSummary s) => match models_to_evict s with [] => false | _ => true end
  | _ => false
  end.

(** ** Scores *)

Record ScoringWeights := mkWeights {
  w_affinity : Q; w_warm : Q; w_slack : Q; w_contention : Q; w_staleness : Q;
  w_stability : Q; eviction_base : Q; eviction_per_model : Q;
  w_empty_gateway : Q; w_busy_models : Q
}.

Record ScoreComponents := mkScore {
  sc_affinity : Q; sc_warm : Q; sc_slack : Q; sc_contention : Q; sc_staleness : Q;
  sc_stability : Q; sc_eviction : Q; sc_empty_gateway : Q; sc_busy_models : Q
}.

(** [ScoreComponents.total]; [+] and [*] round at every step. *)
Definition total (c : ScoreComponents) (w : ScoringWeights) : Q :=
  fadd (fadd (fadd (fadd (fadd (fadd (fadd (fadd
    (fmul (w_affinity w) (sc_affinity c))
    (fmul (w_warm w) (sc_warm c)))
    (fmul (w_slack w) (sc_slack c)))
    (fmul (w_contention w) (sc_contention c)))
    (fmul (w_staleness w) (sc_staleness c)))
    (fmul (w_stability w) (sc_stability c)))
    (sc_eviction c))
    (fmul (w_empty_gateway w) (sc_empty_gateway c)))
    (fmul (w_busy_models w) (sc_busy_models c)).

(** ** Affinity rules *)

Inductive AffinityStrength := SOFT | HARD.

Record AffinityRule := mkRule {
  match_ : string;
  node : string;
  strength : AffinityStrength;
  bonus : Q;
  evict_if_needed : bool
}.

(** ** Candidates and traces *)

Record GatewayCandidate := mkCandidate {
  gateway : Gateway;
  tier : FeasibilityTier;
  constraints_failed : list ConstraintFailure;
  score_components : option ScoreComponents;
  eviction_plan : option EvictionPlanSummary;
  affinity_rule : option AffinityRule;
  cached_score : Q
}.

Definition utility_score (c : GatewayCandidate) : Q :=
  match score_components c with None => 0%Q | Some _ => cached_score c end.

Definition is_feasible (c : GatewayCandidate) : bool :=
  negb (bool_decide (tier c = T0_INFEASIBLE)).

(** [selection_reason], with the texts that carry scores as constructors. *)
Inductive SelectionReason :=
  | hard_affinity_T1 (n : string)
  | hard_affinity_T2_eviction (n : string)
  | hard_affinity_infeasible (n : string)
  | T2_preferred
  | T1_preferred
  | T1_selected
  | T2_selected
  | no_feasible_gateways
  | sticky_capacity_wait (bound : string)
  | no_candidates_after_exclusion.

Record DecisionTrace := mkTrace {
  trace_model_id : string;
  trace_original_model_id : option string;
  request_id : option string;
  candidates : list GatewayCandidate;
  selected_gateway : option string;
  selection_reason : SelectionReason;
  selection_tier : option FeasibilityTier;
  is_sticky_trace : bool
}.

(** Counters of [to_log_dict] / [to_event_payload]. *)
Definition feasible_count (t : DecisionTrace) : nat :=
  length (List.filter is_feasible (candidates t)).

Definition correction_gateways (t : DecisionTrace) : list string :=
  map (fun c => name (gateway c))
    (List.filter (fun c => match eviction_plan c with
                           | Some p => hardware_correction_applied p | None => false end)
       (candidates t)).

(** ** Sample data for the witnesses *)

Definition sample_id (s : string) : ModelId :=
  match parse s with Ok m => m | Raise _ => mkModelId s s None false false None None None end.

Definition sample_details (v r : Z) : ModelDetails := mkDetails None (Some v) (Some r) None None.

Definition sample_gateway (n : string) (vfree vtot rfree rtot : Z)
    (loaded busy loading : list ModelId) (reqs : list (ModelId * (Z * Z))) : Gateway := {|
  name := n; ram_free_mb := rfree; vram_free_mb := vfree; ram_total_mb := rtot;
  vram_total_mb := vtot; loaded_models := loaded; busy_models := busy;
  loading_models := loading; available_models := map fst reqs;
  remote_stargate_id := None; node_id := n;
  model_details := list_to_map (map (fun '(m, (v, r)) => (mkey m, sample_details v r)) reqs);
  model_measured_vram := ∅; model_loaded_at := ∅; health_score := 1; avg_latency_ms := 0;
  active_requests := 0; telemetry_timestamp := 0; last_heartbeat := 0;
  gateway_is_cloud := false |}.

Definition sample_placement (m : ModelId) (v r : Z) : Placement :=
  mkPlacement m r v (0 <? v) None None "chat".
