(* ===== verification/Admission.v ===== *)
(** * Resource admission

    VRAM/RAM verdicts ([selection/decision/admission_verdict.py]), the
    requirements lookup ([requirements.py]) and the resource check of one
    gateway ([resource_checks.py]). *)
From stdpp Require Import base gmap list strings pretty.
From Stdlib Require Import ZArith QArith Lia Lqa.
From S2P Require Import Prelude PyFloat PyString ModelId RoutingTypes.
Local Open Scope Z_scope.

(** ** Verdicts *)

Inductive AdmissionVerdict :=
  | ADMIT
  | INSUFFICIENT_TRANSIENT
  | INSUFFICIENT_MARGIN
  | INSUFFICIENT_STRUCTURAL.

#[export] Instance AdmissionVerdict_eq_dec : EqDecision AdmissionVerdict.
Proof. solve_decision. Defined.

(** [StrEnum] values *)
Definition verdict_value (v : AdmissionVerdict) : string :=
  match v with
  | ADMIT => "admit"
  | INSUFFICIENT_TRANSIENT => "insufficient_transient"
  | INSUFFICIENT_MARGIN => "insufficient_margin"
  | INSUFFICIENT_STRUCTURAL => "insufficient_structural"
  end.

Record AdmissionEvaluation := mkAdmission {
  verdict : AdmissionVerdict;
  needed_mb : Z;
  footprint_est_mb : Z;
  margin_mb : Z;
  attainable_mb : Z;
  reserved_mb : Z;
  effective_free_mb : Z;
  ev_vram_margin_pct : Z;
  ev_vram_headroom_floor_mb : Z;
  ev_vram_margin_cap_mb : Z
}.

Definition to_payload (e : AdmissionEvaluation) : gmap string dval :=
  {[ "verdict_class" := DStr (verdict_value (verdict e));
     "needed_mb" := DInt (needed_mb e);
     "footprint_est_mb" := DInt (footprint_est_mb e);
     "margin_mb" := DInt (margin_mb e);
     "attainable_mb" := DInt (attainable_mb e);
     "reserved_mb" := DInt (reserved_mb e);
     "vram_free_effective" := DInt (effective_free_mb e);
     "vram_margin_pct" := DInt (ev_vram_margin_pct e) ]}.

Definition is_permanent (e : AdmissionEvaluation) : bool :=
  bool_decide (verdict e = INSUFFICIENT_STRUCTURAL).
Definition is_retryable (e : AdmissionEvaluation) : bool := negb (is_permanent e).

Record RamAdmissionEvaluation := mkRamAdmission {
  ram_verdict : AdmissionVerdict;
  ram_needed_mb : Z;
  ram_attainable_mb : Z;
  ram_freeable_mb : Z;
  ram_deficit_mb : Z;
  ram_reserve_mb : Z;
  ram_correction_applied : bool;
  ram_correction_basis : CorrectionBasis
}.

Definition ram_to_payload (e : RamAdmissionEvaluation) : gmap string dval :=
  {[ "ram_verdict_class" := DStr (verdict_value (ram_verdict e));
     "ram_attainable_mb" := DInt (ram_attainable_mb e);
     "ram_freeable_mb" := DInt (ram_freeable_mb e);
     "ram_deficit_mb" := DInt (ram_deficit_mb e);
     "ram_non_evictable_reserve_mb" := DInt (ram_reserve_mb e);
     "ram_correction_applied" := DBool (ram_correction_applied e);
     "ram_correction_basis" := DStr (basis_str (ram_correction_basis e)) ]}.

(** ** Margins *)

(** A [resource_margins] mapping; its values are Python numbers. *)
Notation margins_t := (gmap string Q).

Definition margin_get (margins : margins_t) (k : string) (default : Q) : Q :=
  get_or default (margins !! k).
Definition margin_int (margins : margins_t) (k : string) (default : Z) : Z :=
  py_int (margin_get margins k (inject_Z default)).

Definition MIN_NONRECLAIMABLE_VRAM_MB : Z := 512.
Definition NONRECLAIMABLE_VRAM_RATIO : Q := rnd (2 # 100).
Definition DEFAULT_VRAM_MARGIN_CAP_MB : Z := 4096.
Definition DEFAULT_RAM_NON_EVICTABLE_RESERVE_MB : Z := 4096.
Definition DEFAULT_RAM_NON_EVICTABLE_RESERVE_PCT : Q := rnd (10 # 100).

Definition clamp (value floor_mb cap_mb : Z) : Z :=
  if cap_mb <=? 0 then Z.max value floor_mb
  else Z.min (Z.max value floor_mb) cap_mb.

Definition nonreclaimable_overhead_mb (vram_total_mb : Z) : Z :=
  if vram_total_mb <=? 0 then MIN_NONRECLAIMABLE_VRAM_MB
  else Z.max MIN_NONRECLAIMABLE_VRAM_MB
             (py_int (fmul (of_int vram_total_mb) NONRECLAIMABLE_VRAM_RATIO)).

Definition attainable_ceiling_mb (vram_total_mb vram_free_mb : Z) : Z :=
  if 0 <? vram_total_mb
  then Z.max 0 (vram_total_mb - nonreclaimable_overhead_mb vram_total_mb)
  else Z.max 0 vram_free_mb.

Definition compute_capped_margin_mb
    (footprint_est_mb vram_margin_pct vram_headroom_floor_mb vram_margin_cap_mb : Z) : Z :=
  let pct_component := pct_of footprint_est_mb (inject_Z vram_margin_pct) in
  clamp pct_component vram_headroom_floor_mb vram_margin_cap_mb.

Definition compute_non_evictable_ram_reserve_mb (ram_total_mb : Z) (margins : margins_t) : Z :=
  let floor_mb := margin_int margins "ram_non_evictable_reserve_floor_mb"
                             DEFAULT_RAM_NON_EVICTABLE_RESERVE_MB in
  let reserve_pct := margin_get margins "ram_non_evictable_reserve_pct"
                                DEFAULT_RAM_NON_EVICTABLE_RESERVE_PCT in
  if ram_total_mb <=? 0 then floor_mb
  else Z.max floor_mb (py_int (fmul (of_int ram_total_mb) reserve_pct)).

(** ** Evaluations *)

Definition evaluate_ram_reclaim
    (needed catalog_freeable_mb ram_free ram_total loading_reservation_mb : Z)
    (full_evict : bool) (margins : margins_t) : RamAdmissionEvaluation :=
  let reserve := compute_non_evictable_ram_reserve_mb ram_total margins in
  let effective_free := Z.max 0 (ram_free - loading_reservation_mb) in
  let freeable := Z.max 0 catalog_freeable_mb in
  let '(freeable, applied, basis, attainable) :=
    if (0 <? ram_total) && full_evict then
      let used := Z.max 0 (ram_total - ram_free) in
      let hardware_freeable := Z.max 0 (used - reserve) in
      let '(f, a, b) := if freeable <? hardware_freeable
                        then (hardware_freeable, true, corrected)
                        else (freeable, false, catalog) in
      (f, a, b, Z.max 0 (ram_total - reserve - loading_reservation_mb))
    else (freeable, false, catalog, effective_free + freeable) in
  let available := effective_free + freeable in
  let deficit := Z.max 0 (needed - Z.min available attainable) in
  let v := if (needed <=? 0) || (needed <=? available) then ADMIT
           else if attainable <? needed then INSUFFICIENT_STRUCTURAL
           else if 0 <? loading_reservation_mb then INSUFFICIENT_TRANSIENT
           else INSUFFICIENT_MARGIN in
  {| ram_verdict := v; ram_needed_mb := needed; ram_attainable_mb := attainable;
     ram_freeable_mb := freeable; ram_deficit_mb := deficit; ram_reserve_mb := reserve;
     ram_correction_applied := applied; ram_correction_basis := basis |}.

Definition evaluate_vram_admission
    (footprint vram_free vram_total reserved : Z) (margins : margins_t) : AdmissionEvaluation :=
  let pct := margin_int margins "vram_margin_pct" 5 in
  let floor := margin_int margins "vram_headroom_mb" 2048 in
  let cap := margin_int margins "vram_margin_cap_mb" DEFAULT_VRAM_MARGIN_CAP_MB in
  let margin := compute_capped_margin_mb footprint pct floor cap in
  let needed := if 0 <? footprint then footprint + margin else 0 in
  let attainable := attainable_ceiling_mb vram_total vram_free in
  let effective_free := vram_free - reserved in
  let v := if (footprint <=? 0) || (needed <=? effective_free) then ADMIT
           else if attainable <? needed then INSUFFICIENT_STRUCTURAL
           else if 0 <? reserved then INSUFFICIENT_TRANSIENT
           else INSUFFICIENT_MARGIN in
  {| verdict := v; needed_mb := needed; footprint_est_mb := footprint; margin_mb := margin;
     attainable_mb := attainable; reserved_mb := reserved;
     effective_free_mb := effective_free; ev_vram_margin_pct := pct;
     ev_vram_headroom_floor_mb := floor; ev_vram_margin_cap_mb := cap |}.

(** ** Requirements *)

(** [create_requirements_lookup(details)]; [x or 0] maps a missing value to 0. *)
Definition create_requirements_lookup (md : gmap mkey_t ModelDetails) (m : ModelId) : Z * Z :=
  match md !! mkey m with
  | Some d => (get_or 0 (vram_usage d), get_or 0 (ram_usage d))
  | None => (0, 0)
  end.

Notation lookup_t := (ModelId -> Z * Z).

(** [_calculate_required_resources]:
    (vram_needed, ram_needed, vram_margin_pct, vram_headroom_mb, ram_margin_pct). *)
Definition calculate_required_resources (vram ram : Z) (margins : margins_t)
    : Z * Z * Z * Z * Z :=
  let ram_margin_pct := margin_int margins "ram_margin_pct" 3 in
  let vram_margin_pct := margin_int margins "vram_margin_pct" 5 in
  let vram_headroom_mb := margin_int margins "vram_headroom_mb" 2048 in
  let ram_needed := scale_pct ram (inject_Z ram_margin_pct) in
  let vram_pct := scale_pct vram (inject_Z vram_margin_pct) in
  let vram_needed := if 0 <? vram then vram_pct + vram_headroom_mb else 0 in
  (vram_needed, ram_needed, vram_margin_pct, vram_headroom_mb, ram_margin_pct).

(** [_compute_loading_reservation]: the loop over [loading_models - {target}]. *)
Fixpoint sum_reservations (lookup : lookup_t) (l : list ModelId) (acc : Z * Z * list string)
    : exn (Z * Z * list string) :=
  match l with
  | [] => Ok acc
  | m :: l' =>
      let '(v, r, ds) := acc in
      let (mv, mr) := lookup m in
      if (mv =? 0) && (mr =? 0)
      then Raise (ValueError "Missing requirements for loading model")
      else sum_reservations lookup l'
             (v + mv, r + mr, ds ++ [original m +:+ "(" +:+ pretty mv +:+ "MB VRAM)"])
  end.

Definition other_loading (g : Gateway) (target : ModelId) : list ModelId :=
  List.filter (fun m => negb (mid_eqb m target)) (loading_models g).

Definition compute_loading_reservation (g : Gateway) (target : ModelId) (lookup : lookup_t)
    : exn (Z * Z * list string) :=
  sum_reservations lookup (other_loading g target) (0, 0, []).

(** [resolve_gateway_requirements] *)
Definition resolve_gateway_requirements (g : Gateway) (p : Placement)
    : (Z * Z) + ConstraintFailure :=
  match model_details g !! mkey (model_id p) with
  | None =>
      inr {| constraint := "missing_gateway_resource_data";
             details := {[ "gateway" := DStr (name g);
                           "model_id" := DStr (original (model_id p));
                           "model_details_keys" := DInt (Z.of_nat (size (model_details g)));
                           "retryable" := DBool true ]} |}
  | Some d => inl (get_or 0 (vram_usage d), get_or 0 (ram_usage d))
  end.

(** Reservation when some model is loading, nothing otherwise
    ([if gateway.loading_models: ...]). *)
Definition loading_reservation (g : Gateway) (p : Placement) (lookup : lookup_t)
    : exn (Z * Z * list string) :=
  match loading_models g with
  | [] => Ok (0, 0, [])
  | _ => compute_loading_reservation g (model_id p) lookup
  end.

Definition loading_missing_failure (g : Gateway) : ConstraintFailure :=
  {| constraint := "loading_model_requirements_missing";
     details := {[ "loading_models" := DStrs (map original (loading_models g)) ]} |}.

Definition vram_failure (g : Gateway) (gw_vram vram_reserved effective pct : Z)
    (loading_details : list string) (a : AdmissionEvaluation) : ConstraintFailure :=
  {| constraint := "has_enough_vram";
     details := to_payload a ∪
       {[ "vram_free_hardware" := DInt (vram_free_mb g);
          "vram_total_hardware" := DInt (vram_total_mb g);
          "vram_reserved_loading" := DInt vram_reserved;
          "vram_free_effective" := DInt effective;
          "vram_needed" := DInt (needed_mb a);
          "vram_base" := DInt gw_vram;
          "vram_margin_pct" := DInt pct;
          "loading_models" := DStrs (map original (loading_models g));
          "loading_details" := DStrs loading_details;
          "retryable" := DBool (is_retryable a) ]} |}.

Definition ram_failure (g : Gateway) (ram_reserved effective ram_needed : Z)
    (loading_details : list string) : ConstraintFailure :=
  {| constraint := "has_enough_ram";
     details :=
       {[ "ram_free_hardware" := DInt (ram_free_mb g);
          "ram_reserved_loading" := DInt ram_reserved;
          "ram_free_effective" := DInt effective;
          "ram_needed" := DInt ram_needed;
          "loading_models" := DStrs (map original (loading_models g));
          "loading_details" := DStrs loading_details ]} |}.

(** [_check_resources]: (has_resources, failure). *)
Definition check_resources (g : Gateway) (p : Placement) (lookup : lookup_t)
    (margins : margins_t) : bool * option ConstraintFailure :=
  match resolve_gateway_requirements g p with
  | inr f => (false, Some f)
  | inl (gw_vram, gw_ram) =>
      let '(_, ram_needed, vram_margin_pct, _, _) :=
        calculate_required_resources gw_vram gw_ram margins in
      match loading_reservation g p lookup with
      | Raise _ => (false, Some (loading_missing_failure g))
      | Ok (vram_reserved, ram_reserved, loading_details) =>
          let effective_vram_free := vram_free_mb g - vram_reserved in
          let effective_ram_free := ram_free_mb g - ram_reserved in
          let admission := evaluate_vram_admission gw_vram (vram_free_mb g)
                             (vram_total_mb g) vram_reserved margins in
          if (0 <? gw_vram) && negb (bool_decide (verdict admission = ADMIT))
          then (false, Some (vram_failure g gw_vram vram_reserved effective_vram_free
                               vram_margin_pct loading_details admission))
          else if (0 <? gw_ram) && (effective_ram_free <? ram_needed)
          then (false, Some (ram_failure g ram_reserved effective_ram_free ram_needed
                               loading_details))
          else (true, None)
      end
  end.

(** ** Margins are clamped *)

Lemma clamp_spec v lo hi :
  (hi <= 0 -> clamp v lo hi = Z.max v lo) /\
  (0 < hi -> Z.min lo hi <= clamp v lo hi <= hi) /\
  clamp v lo hi <= Z.max v lo.
Proof. unfold clamp. case_goal; to_prop; lia. Qed.

(** The requirement of a model: its footprint plus the capped margin.  It
    depends on the model and the configuration only. *)
Definition vram_needed (fp : Z) (margins : margins_t) : Z :=
  if 0 <? fp
  then fp + compute_capped_margin_mb fp (margin_int margins "vram_margin_pct" 5)
              (margin_int margins "vram_headroom_mb" 2048)
              (margin_int margins "vram_margin_cap_mb" DEFAULT_VRAM_MARGIN_CAP_MB)
  else 0.

Lemma needed_mb_eq fp free tot res margins :
  needed_mb (evaluate_vram_admission fp free tot res margins) = vram_needed fp margins.
Proof. reflexivity. Qed.

Lemma vram_admit_iff fp free tot res margins :
  verdict (evaluate_vram_admission fp free tot res margins) = ADMIT <->
  fp <= 0 \/ vram_needed fp margins <= free - res.
Proof.
  unfold evaluate_vram_admission; simpl. fold (vram_needed fp margins).
  destruct (fp <=? 0) eqn:E1; simpl; to_prop; [naive_solver|].
  destruct (vram_needed fp margins <=? free - res) eqn:E2; to_prop; [naive_solver|].
  repeat case_goal; split; try done; lia.
Qed.

Lemma vram_structural_iff fp free tot res margins :
  verdict (evaluate_vram_admission fp free tot res margins) = INSUFFICIENT_STRUCTURAL <->
  0 < fp /\ free - res < vram_needed fp margins /\
  attainable_ceiling_mb tot free < vram_needed fp margins.
Proof.
  unfold evaluate_vram_admission; simpl. fold (vram_needed fp margins).
  destruct (fp <=? 0) eqn:E1; simpl; to_prop; [naive_solver lia|].
  destruct (vram_needed fp margins <=? free - res) eqn:E2; to_prop; [naive_solver lia|].
  destruct (attainable_ceiling_mb tot free <? vram_needed fp margins) eqn:E3; to_prop.
  - naive_solver lia.
  - case_goal; split; try done; lia.
Qed.

Lemma is_permanent_iff e : is_permanent e = true <-> verdict e = INSUFFICIENT_STRUCTURAL.
Proof. unfold is_permanent. apply bool_decide_eq_true. Qed.

(** The ceiling of a gateway with known hardware total does not depend on
    what is free now. *)
Lemma attainable_ceiling_total tot free free' : 0 < tot ->
  attainable_ceiling_mb tot free = attainable_ceiling_mb tot free'.
Proof. intros H. unfold attainable_ceiling_mb. apply Z.ltb_lt in H. by rewrite H. Qed.

(** An admitted GPU model fits: the free VRAM that is not reserved for
    models still loading covers its footprint and at least the configured
    headroom (or the margin cap, when that is the smaller of the two). *)
Theorem vram_admit_sound fp free tot res margins :
  0 < fp ->
  verdict (evaluate_vram_admission fp free tot res margins) = ADMIT ->
  let floor := margin_int margins "vram_headroom_mb" 2048 in
  let cap := margin_int margins "vram_margin_cap_mb" DEFAULT_VRAM_MARGIN_CAP_MB in
  fp + (if cap <=? 0 then floor else Z.min floor cap) <= free - res.
Proof.
  intros Hfp H. apply vram_admit_iff in H as [H|H]; [lia|]. unfold vram_needed in H.
  rewrite (proj2 (Z.ltb_lt 0 fp) Hfp) in H. unfold compute_capped_margin_mb in H. simpl.
  match type of H with context [clamp ?v ?lo ?hi] => pose proof (clamp_spec v lo hi) end.
  case_goal; to_prop; lia.
Qed.

Lemma vram_admit_sound_witness :
  12000 + 2048 <= 15000 - 500.
Proof.
  exact (vram_admit_sound 12000 15000 16000 500 ∅ eq_refl eq_refl).
Defined.

(** The permanent verdict is exact.  On a gateway whose total VRAM is
    known, and whose unreserved free VRAM is within what it can ever offer,
    the evaluation is permanent iff no amount of freeing memory (within the
    attainable ceiling) and no completion of loads would ever admit the
    model; so a retryable refusal is one that freeing memory can cure. *)
Theorem vram_permanent_exact fp free tot res margins :
  0 < tot -> 0 < fp -> free - res <= attainable_ceiling_mb tot free ->
  (is_permanent (evaluate_vram_admission fp free tot res margins) = true <->
   forall free' res', free' - res' <= attainable_ceiling_mb tot free ->
     verdict (evaluate_vram_admission fp free' tot res' margins) <> ADMIT).
Proof.
  intros Ht Hfp Hle. rewrite is_permanent_iff, vram_structural_iff. split.
  - intros (_ & _ & H) free' res' Hle' [H'|H']%vram_admit_iff; lia.
  - intros H. specialize (H (attainable_ceiling_mb tot free) 0 ltac:(lia)).
    rewrite vram_admit_iff in H. split; [done|]. lia.
Qed.

Lemma vram_permanent_exact_witness :
  is_permanent (evaluate_vram_admission 20000 10000 16000 0 ∅) = true /\
  verdict (evaluate_vram_admission 20000 15000 16000 0 ∅) <> ADMIT.
Proof.
  split; [reflexivity|].
  refine (proj1 (vram_permanent_exact 20000 10000 16000 0 ∅ eq_refl eq_refl _) eq_refl 15000 0 _);
    vm_compute; discriminate.
Defined.

(** ** RAM reclaim *)

Lemma ram_admit_iff needed cat free tot loading full margins :
  let e := evaluate_ram_reclaim needed cat free tot loading full margins in
  ram_verdict e = ADMIT <->
  needed <= 0 \/ needed <= Z.max 0 (free - loading) + ram_freeable_mb e.
Proof.
  unfold evaluate_ram_reclaim. simpl.
  repeat case_goal; simplify_eq; simpl; to_prop;
    repeat match goal with H : orb _ _ = true |- _ => apply orb_true_iff in H as [H|H] end;
    to_prop; split; try done; lia.
Qed.

(** The estimate of what eviction frees is never below the catalog's, and is
    the hardware bound when the correction applied. *)
Lemma ram_freeable_spec needed cat free tot loading full margins :
  let e := evaluate_ram_reclaim needed cat free tot loading full margins in
  Z.max 0 cat <= ram_freeable_mb e /\
  (ram_correction_applied e = true ->
     full = true /\ 0 < tot /\
     ram_freeable_mb e = Z.max 0 (Z.max 0 (tot - free) - ram_reserve_mb e)) /\
  (ram_correction_applied e = false -> ram_freeable_mb e = Z.max 0 cat).
Proof.
  unfold evaluate_ram_reclaim. simpl.
  destruct (0 <? tot) eqn:Et, full; simpl; repeat case_goal; simplify_eq; simpl;
    to_prop; repeat split; try done; lia.
Qed.

(** The RAM evaluation can admit and report a deficit at once.  The
    verdict compares the need with [available_mb] alone, the deficit with
    [min(available_mb, attainable_mb)]: a full eviction whose catalog
    estimate exceeds what the hardware can offer is admitted above the
    attainable ceiling. *)
Theorem ram_admit_above_ceiling :
  let e := evaluate_ram_reclaim 9500 9000 2000 10000 0 true ∅ in
  ram_verdict e = ADMIT /\ ram_deficit_mb e = 3596 /\ ram_attainable_mb e < ram_needed_mb e.
Proof. vm_compute. auto. Qed.

(** ** Loading reservations *)

Definition missing_req (lookup : lookup_t) (m : ModelId) : bool :=
  (fst (lookup m) =? 0) && (snd (lookup m) =? 0).

Definition sum_vram (lookup : lookup_t) (l : list ModelId) : Z :=
  foldr (fun m acc => fst (lookup m) + acc) 0 l.
Definition sum_ram (lookup : lookup_t) (l : list ModelId) : Z :=
  foldr (fun m acc => snd (lookup m) + acc) 0 l.

Lemma sum_reservations_ok lookup l v r ds :
  existsb (missing_req lookup) l = false ->
  exists ds', sum_reservations lookup l (v, r, ds) =
    Ok (v + sum_vram lookup l, r + sum_ram lookup l, ds ++ ds') /\ length ds' = length l.
Proof.
  revert v r ds. induction l as [|m l IH]; simpl; intros v r ds H.
  { exists []. rewrite !Z.add_0_r, app_nil_r. done. }
  apply orb_false_iff in H as [Hm H]. unfold missing_req in Hm.
  destruct (lookup m) as [mv mr] eqn:E. simpl in *. rewrite Hm.
  edestruct (IH (v + mv) (r + mr)) as (ds' & -> & Hl); [done|].
  eexists (_ :: ds'). rewrite <- app_assoc, !Z.add_assoc. simpl. split; [done|]. by rewrite Hl.
Qed.

Lemma sum_reservations_raise lookup l acc :
  existsb (missing_req lookup) l = true ->
  sum_reservations lookup l acc = Raise (ValueError "Missing requirements for loading model").
Proof.
  revert acc. induction l as [|m l IH]; simpl; intros [[v r] ds] H; [done|].
  unfold missing_req in H at 1. destruct (lookup m) as [mv mr]; simpl in *.
  destruct ((mv =? 0) && (mr =? 0)); [done|]. by apply IH.
Qed.

Lemma elem_of_other_loading m g target :
  m ∈ other_loading g target <-> m ∈ loading_models g /\ mid_eqb m target = false.
Proof.
  unfold other_loading. rewrite !list_elem_of_In, filter_In, negb_true_iff. done.
Qed.

(** The loading reservation is the sum of the requirements of every
    loading model other than the target; it raises exactly when one of those
    models has no known requirement, and never counts the target itself
    (docstring: "∀ model ∈ loading_models, model ≠ target ⟹ counted"). *)
Theorem loading_reservation_exact g target lookup :
  let others := other_loading g target in
  (compute_loading_reservation g target lookup =
     Raise (ValueError "Missing requirements for loading model")
   <-> exists m, m ∈ loading_models g /\ mid_eqb m target = false /\ lookup m = (0, 0)) /\
  (forall r, compute_loading_reservation g target lookup = Ok r ->
     fst r = (sum_vram lookup others, sum_ram lookup others) /\
     length (snd r) = length others).
Proof.
  simpl. unfold compute_loading_reservation.
  destruct (existsb (missing_req lookup) (other_loading g target)) eqn:E.
  - rewrite sum_reservations_raise by done. split; [|done]. split; [|done]. intros _.
    apply existsb_exists in E as (m & Hm & Hz). apply list_elem_of_In, elem_of_other_loading in Hm.
    exists m. unfold missing_req in Hz. destruct (lookup m); simpl in Hz. to_prop. naive_solver.
  - edestruct (sum_reservations_ok lookup) as (ds & -> & Hl); [exact E|].
    split; [|by intros r [= <-]]. split; [done|]. intros (m & Hin & Hne & Hz).
    enough (existsb (missing_req lookup) (other_loading g target) = true) by congruence.
    apply existsb_exists. exists m. split; [|by unfold missing_req; rewrite Hz].
    by apply list_elem_of_In, elem_of_other_loading.
Qed.

(** ** The resource check *)

(** [check_resources] passes iff the gateway knows the model, every loading
    model has known requirements and both axes are covered after the loading
    reservation. *)
Lemma check_resources_true g p lookup margins :
  fst (check_resources g p lookup margins) = true <->
  exists v r vres rres ds,
    resolve_gateway_requirements g p = inl (v, r) /\
    loading_reservation g p lookup = Ok (vres, rres, ds) /\
    (0 < v -> vram_needed v margins <= vram_free_mb g - vres) /\
    (0 < r -> scale_pct r (inject_Z (margin_int margins "ram_margin_pct" 3))
              <= ram_free_mb g - rres).
Proof.
  unfold check_resources. destruct (resolve_gateway_requirements g p) as [[v r]|f].
  2: { split; [done | naive_solver]. }
  unfold calculate_required_resources.
  destruct (loading_reservation g p lookup) as [[[vres rres] ds]|e].
  2: { split; [done | naive_solver]. }
  rewrite (bool_decide_ext _ _ (vram_admit_iff _ _ _ _ _)).
  destruct ((0 <? v) && negb (bool_decide (v <= 0 \/ vram_needed v margins <= vram_free_mb g - vres)))
    eqn:E1; [|destruct ((0 <? r) && _) eqn:E2]; simpl.
  - split; [done|]. intros (? & ? & ? & ? & ? & ? & ? & H & _). to_prop. simplify_eq. lia.
  - split; [done|]. intros (? & ? & ? & ? & ? & ? & ? & _ & H). to_prop. simplify_eq. lia.
  - split; [intros _|done]. exists v, r, vres, rres, ds.
    apply andb_false_iff in E1, E2. repeat split; [done..| |].
    + intros Hv. destruct E1 as [E1|E1]; to_prop; lia.
    + intros Hr. destruct E2 as [E2|E2]; to_prop; lia.
Qed.

(** A failed check always says why, a passed one never carries a failure. *)
Lemma check_resources_failure g p lookup margins :
  is_Some (snd (check_resources g p lookup margins)) <->
  fst (check_resources g p lookup margins) = false.
Proof.
  unfold check_resources, calculate_required_resources.
  repeat case_goal; simpl; split; try done; intros [? ?]; done.
Qed.

(** A gateway that passes the resource check has room on both axes:
    after subtracting what the models still loading will take, free VRAM
    covers the footprint with its headroom and free RAM covers the RAM
    footprint, for every model whose requirements are configured
    non-negative. *)
Theorem check_resources_sound g p lookup margins v r :
  resolve_gateway_requirements g p = inl (v, r) ->
  fst (check_resources g p lookup margins) = true ->
  (0 <= v /\ 0 <= r <= 2 ^ 53) ->
  0 <= margin_int margins "ram_margin_pct" 3 ->
  0 <= margin_int margins "vram_headroom_mb" 2048 ->
  exists vres rres ds, loading_reservation g p lookup = Ok (vres, rres, ds) /\
    (0 < v -> v <= vram_free_mb g - vres) /\ (0 < r -> r <= ram_free_mb g - rres).
Proof.
  intros Hr Hc Hb Hm Hh. apply check_resources_true in Hc as (? & ? & vres & rres & ds & Hr' & Hl & Hv & Hram).
  rewrite Hr in Hr'. injection Hr' as <- <-.
  exists vres, rres, ds. split; [done|]. split; intros H0.
  - specialize (Hv H0). unfold vram_needed, compute_capped_margin_mb in Hv.
    rewrite (proj2 (Z.ltb_lt 0 v) H0) in Hv.
    match type of Hv with context [clamp ?a ?lo ?hi] => pose proof (clamp_spec a lo hi) end. lia.
  - specialize (Hram H0).
    enough (r <= scale_pct r (inject_Z (margin_int margins "ram_margin_pct" 3))) by lia.
    apply scale_pct_ge; [lia|]. by apply inject_nonneg.
Qed.

Lemma check_resources_sound_witness :
  let a := sample_id "model-a" in
  let b := sample_id "model-b" in
  let g := sample_gateway "edge" 20000 24000 30000 64000 [] [] [b] [(a, (9000, 2000)); (b, (4000, 1000))] in
  let p := sample_placement a 9000 2000 in
  exists vres rres ds, loading_reservation g p (create_requirements_lookup (model_details g)) = Ok (vres, rres, ds) /\
    (0 < 9000 -> 9000 <= vram_free_mb g - vres) /\ (0 < 2000 -> 2000 <= ram_free_mb g - rres).
Proof.
  intros a b g p.
  apply (check_resources_sound g p (create_requirements_lookup (model_details g)) ∅ 9000 2000);
    vm_compute; repeat split; congruence.
Defined.
