(* ===== verification/Eviction.v ===== *)
(** * Eviction planning

    Which loaded models a gateway may drop to make room: in-flight
    classification ([busy_view.py]), models that are never evicted
    ([rag_protected_models.py]), load cooldown and its override
    ([eviction_cooldown_policy.py], [eviction_hysteresis.py]), the greedy
    selection ([eviction_victim_select.py]), the planner
    ([eviction_planning.py]) and the reclaimable-capacity classifier
    ([feasibility_reclaim.py]).  [time.monotonic()] is the argument [now]; the
    two model ids read from the pipeline YAML files are the variables [emb]
    and [ctx]. *)
From stdpp Require Import base gmap list strings sorting.
From Stdlib Require Import ZArith QArith Lia Lqa.
From S2P Require Import Prelude PyFloat PyString ModelId RoutingTypes Admission.
Local Open Scope Z_scope.

(** ** Cooldown policy *)

Definition COOLDOWN_HARD_FLOOR_S : Q := 10.
Definition DEFAULT_EVICTION_COOLDOWN_S : Q := 120.
Definition COOLDOWN_OVERRIDE_OSCILLATION_WINDOW_S : Q := 120.

Inductive EvictionRequestClass := REQUIRED | OPPORTUNISTIC.

#[export] Instance EvictionRequestClass_eq_dec : EqDecision EvictionRequestClass.
Proof. solve_decision. Defined.

(** [gateway.model_loaded_at.get(model_id, 0.0)] *)
Definition loaded_at (g : Gateway) (m : ModelId) : Q :=
  get_or (0 : Q) (model_loaded_at g !! mkey m).

Definition elapsed_s (now : Q) (g : Gateway) (m : ModelId) : Q := fsub now (loaded_at g m).

Definition remaining_cooldown_s (now : Q) (g : Gateway) (m : ModelId) (cooldown : Q) : Q :=
  fmax 0 (fsub cooldown (elapsed_s now g m)).

Definition cooldown_override_eligible (remaining hard_floor_s : Q) : bool :=
  flt hard_floor_s remaining.

(** [_override_timestamps], keyed by (gateway_id, victim_model_id). *)
Notation overrides_t := (gmap (string * string) Q).

Definition record_cooldown_override (k : string * string) (now : Q) (ts : overrides_t)
    : overrides_t := <[k := now]> ts.

Definition oscillation_hold_remaining_s (k : string * string) (window_s now : Q)
    (ts : overrides_t) : Q * overrides_t :=
  match ts !! k with
  | None => (0%Q, ts)
  | Some prior =>
      let remaining := fsub window_s (fsub now prior) in
      if fle remaining 0 then (0%Q, delete k ts) else (remaining, ts)
  end.

Definition oscillation_blocks_override (k : string * string) (window_s now : Q)
    (ts : overrides_t) : bool * overrides_t :=
  let (r, ts') := oscillation_hold_remaining_s k window_s now ts in (flt 0 r, ts').

Definition clear_cooldown_override_tracker : overrides_t := ∅.

(** ** Busy and idle models *)

(** A [RoutingKeyTracker]: routing keys in flight on a gateway. *)
Notation tracker_t := (string -> list string).

Definition is_model_actually_busy (g : Gateway) (m : ModelId) (tracker : option tracker_t)
    (keys : option (list string)) : bool :=
  match tracker with
  | Some t =>
      let in_flight := match keys with Some ks => ks | None => t (name g) end in
      bool_decide (routing_key m ∈ in_flight)
  | None => mmem m (busy_models g)
  end.

Definition resolve_keys (g : Gateway) (tracker : option tracker_t) (keys : option (list string))
    : option (list string) :=
  match keys, tracker with
  | None, Some t => Some (t (name g))
  | _, _ => keys
  end.

Definition actually_busy_models (g : Gateway) (tracker : option tracker_t)
    (keys : option (list string)) : list ModelId :=
  List.filter (fun m => is_model_actually_busy g m tracker (resolve_keys g tracker keys))
              (loaded_models g).

Definition idle_models (g : Gateway) (tracker : option tracker_t)
    (keys : option (list string)) : list ModelId :=
  let busy := actually_busy_models g tracker keys in
  List.filter (fun m => negb (mmem m busy) && negb (mmem m (loading_models g)))
              (loaded_models g).

(** ** RAG protection *)

Section RagProtected.
Context (emb ctx : option string).

Definition rag_contextualize_routing_key : option string :=
  match ctx with
  | None => None
  | Some mid => if bool_decide (mid = ""%string) then None else
      match parse mid with Ok m => Some (routing_key m) | Raise _ => Some mid end
  end.

Definition is_rag_protected_model (m : ModelId) : bool :=
  let by_embedding :=
    match emb with
    | None => false
    | Some e => if bool_decide (e = ""%string) then false else
        match parse e with
        | Ok em => mid_eqb m em || bool_decide (routing_key m = routing_key em)
        | Raise _ => bool_decide (original m = e)
        end
    end in
  let by_context :=
    match rag_contextualize_routing_key with
    | Some k => negb (bool_decide (k = ""%string)) && bool_decide (routing_key m = k)
    | None => false
    end in
  by_embedding || by_context.

End RagProtected.

(** ** Hysteresis *)

Record HysteresisResult := mkHyst {
  evictable : list ModelId;
  cooldown_protected_count : Z;
  demand_protected_count : Z;
  escape_hatch_used : bool;
  escape_reason : option string;
  escape_cooldown_remaining_s : option Q;
  escape_model_id : option string;
  cooldown_override_pending : bool;
  cooldown_override_victim_id : option string;
  cooldown_override_remaining_s : option Q
}.

Definition in_cooldown (now : Q) (g : Gateway) (cooldown : Q) (m : ModelId) : bool :=
  flt (elapsed_s now g m) cooldown.

Definition loaded_before (g : Gateway) (a b : ModelId) : bool := flt (loaded_at g a) (loaded_at g b).

Definition has_queued_demand (has_demand : option (string -> bool)) (m : ModelId) : bool :=
  match has_demand with Some f => f (routing_key m) | None => false end.

Definition filter_evictable_with_hysteresis (now : Q) (g : Gateway) (candidates : list ModelId)
    (cooldown : Q) (has_demand : option (string -> bool)) (cls : EvictionRequestClass)
    : option HysteresisResult :=
  let protected := List.filter (in_cooldown now g cooldown) candidates in
  let past := List.filter (fun m => negb (in_cooldown now g cooldown m)) candidates in
  let demanded := List.filter (has_queued_demand has_demand) past in
  let free := List.filter (fun m => negb (has_queued_demand has_demand m)) past in
  let plain ev := {|
    evictable := ev; cooldown_protected_count := Z.of_nat (length protected);
    demand_protected_count := Z.of_nat (length demanded);
    escape_hatch_used := false; escape_reason := None;
    escape_cooldown_remaining_s := None; escape_model_id := None;
    cooldown_override_pending := false; cooldown_override_victim_id := None;
    cooldown_override_remaining_s := None |} in
  match free with
  | _ :: _ => Some (plain free)
  | [] =>
    match sort_by (loaded_before g) demanded with
    | m :: _ => Some {|
        evictable := [m]; cooldown_protected_count := Z.of_nat (length protected);
        demand_protected_count := Z.of_nat (length demanded);
        escape_hatch_used := true; escape_reason := Some "demand"%string;
        escape_cooldown_remaining_s := None; escape_model_id := Some (original m);
        cooldown_override_pending := false; cooldown_override_victim_id := None;
        cooldown_override_remaining_s := None |}
    | [] =>
      match protected, cls with
      | [], _ => None
      | _, OPPORTUNISTIC => None
      | _, REQUIRED =>
        let eligible := List.filter
          (fun m => cooldown_override_eligible (remaining_cooldown_s now g m cooldown)
                      COOLDOWN_HARD_FLOOR_S) protected in
        match sort_by (loaded_before g) eligible with
        | [] => None
        | m :: _ =>
            let remaining := remaining_cooldown_s now g m cooldown in
            Some {|
              evictable := [m]; cooldown_protected_count := Z.of_nat (length protected);
              demand_protected_count := Z.of_nat (length demanded);
              escape_hatch_used := true; escape_reason := Some "cooldown"%string;
              escape_cooldown_remaining_s := Some remaining;
              escape_model_id := Some (original m);
              cooldown_override_pending := true;
              cooldown_override_victim_id := Some (original m);
              cooldown_override_remaining_s := Some remaining |}
        end
      end
    end
  end.

(** ** Victim selection *)

Definition MIN_NON_EVICTABLE_VRAM_RESERVE_MB : Z := 512.
Definition NON_EVICTABLE_VRAM_RESERVE_RATIO : Q := rnd (2 # 100).

Definition compute_non_evictable_vram_reserve_mb (vram_total : Z) : Z :=
  if vram_total <=? 0 then MIN_NON_EVICTABLE_VRAM_RESERVE_MB
  else Z.max MIN_NON_EVICTABLE_VRAM_RESERVE_MB
             (py_int (fmul (of_int vram_total) NON_EVICTABLE_VRAM_RESERVE_RATIO)).

(** A candidate with the VRAM and RAM its eviction is expected to free. *)
Notation victim := (ModelId * Z * Z)%type.
Definition v_id (x : victim) : ModelId := fst (fst x).
Definition v_vram (x : victim) : Z := snd (fst x).
Definition v_ram (x : victim) : Z := snd x.

Definition victim_resources (g : Gateway) (m : ModelId) : victim :=
  let (catalog_vram, ram_usage) := get_model_resource_usage g m in
  (m, get_or catalog_vram (model_measured_vram g !! mkey m), ram_usage).

(** Key [(-vram, -ram)]: larger VRAM first, then larger RAM. *)
Definition victim_before (x y : victim) : bool :=
  (v_vram y <? v_vram x) || ((v_vram y =? v_vram x) && (v_ram y <? v_ram x)).

(** The selection loop; the arguments are what the loop reads. *)
Fixpoint greedy (fp_vram fp_ram free_vram free_ram vram_target ram_target : Z)
    (l : list victim) (freed_vram freed_ram : Z) (acc : list victim) : list victim * Z * Z :=
  match l with
  | [] => (acc, freed_vram, freed_ram)
  | x :: l' =>
      let acc := acc ++ [x] in
      let freed_vram := freed_vram + v_vram x in
      let freed_ram := freed_ram + v_ram x in
      let vram_covered := (fp_vram <=? 0) || (vram_target <=? free_vram + freed_vram) in
      let ram_covered := (fp_ram <=? 0) || (ram_target <=? free_ram + freed_ram) in
      if vram_covered && ram_covered then (acc, freed_vram, freed_ram)
      else greedy fp_vram fp_ram free_vram free_ram vram_target ram_target l'
                  freed_vram freed_ram acc
  end.

Definition vram_target (gw_vram : Z) (margins : margins_t) : Z :=
  if 0 <? gw_vram
  then scale_pct gw_vram (margin_get margins "vram_margin_pct" 5)
       + margin_int margins "vram_headroom_mb" 2048
  else 0.
Definition ram_target (gw_ram : Z) (margins : margins_t) : Z :=
  scale_pct gw_ram (margin_get margins "ram_margin_pct" 3).

Definition chosen_victims (g : Gateway) (gw_vram gw_ram free_vram free_ram : Z)
    (margins : margins_t) (ids : list ModelId) : list victim * Z * Z :=
  greedy gw_vram gw_ram free_vram free_ram (vram_target gw_vram margins) (ram_target gw_ram margins)
         (sort_by victim_before (map (victim_resources g) ids)) 0 0 [].

(** Hardware correction of the freeable VRAM when every loaded model goes:
    (corrected, hardware_used, reserve, applied). *)
Definition vram_correction (g : Gateway) (evict : list ModelId) (catalog_freed : Z)
    : Z * option Z * Z * bool :=
  if (0 <? vram_total_mb g) && mset_eq evict (loaded_models g) then
    let used := Z.max 0 (vram_total_mb g - vram_free_mb g) in
    let reserve := compute_non_evictable_vram_reserve_mb (vram_total_mb g) in
    let upper := Z.max 0 (used - reserve) in
    if catalog_freed <? upper then (upper, Some used, reserve, true)
    else (catalog_freed, Some used, reserve, false)
  else (catalog_freed, None, 0, false).

Definition mk_basis (b : bool) : CorrectionBasis := if b then corrected else catalog.

Definition select_eviction_victims (g : Gateway) (p : Placement) (hyst : HysteresisResult)
    (gw_vram gw_ram free_vram free_ram : Z) (margins : margins_t)
    (tracker : option tracker_t) (keys : option (list string)) : EvictionPlan :=
  let '(victims, cat_vram, cat_ram) :=
    chosen_victims g gw_vram gw_ram free_vram free_ram margins (evictable hyst) in
  let evict := map v_id victims in
  let vt := vram_target gw_vram margins in
  let rt := ram_target gw_ram margins in
  let '(corr_vram, hw_used, reserve, applied) := vram_correction g evict cat_vram in
  let full := match evict with [] => false | _ => mset_eq evict (loaded_models g) end in
  let ram_eval := evaluate_ram_reclaim rt cat_ram (ram_free_mb g) (ram_total_mb g)
                    (Z.max 0 (ram_free_mb g - free_ram)) full margins in
  let hw_used_ram :=
    if (0 <? ram_total_mb g) && mset_eq evict (loaded_models g)
    then Some (Z.max 0 (ram_total_mb g - ram_free_mb g)) else None in
  let total_vram := free_vram + corr_vram in
  let total_ram := free_ram + ram_freeable_mb ram_eval in
  if (0 <? gw_vram) && (total_vram <? vt) then
    PlanAbort {| binding_axis := vram; deficit_mb := vt - total_vram;
                 correction_basis := mk_basis applied; abort_needed_mb := vt;
                 abort_available_mb := total_vram;
                 abort_reason := insufficient_vram_after_eviction |}
  else if (0 <? gw_ram) && (total_ram <? rt) then
    PlanAbort {| binding_axis := ram; deficit_mb := rt - total_ram;
                 correction_basis := ram_correction_basis ram_eval; abort_needed_mb := rt;
                 abort_available_mb := total_ram;
                 abort_reason := insufficient_ram_after_eviction |}
  else
    let violations := match tracker, keys with
      | Some _, Some ks => List.filter (fun m => bool_decide (routing_key m ∈ ks)) evict
      | _, _ => []
      end in
    match violations with
    | _ :: _ =>
        PlanAbort {| binding_axis := vram; deficit_mb := 0; correction_basis := mk_basis applied;
                     abort_needed_mb := vt; abort_available_mb := total_vram;
                     abort_reason := in_flight_eviction_prohibited |}
    | [] =>
        PlanSummary {|
          models_to_evict := evict; freed_vram_mb := corr_vram;
          freed_ram_mb := ram_freeable_mb ram_eval;
          estimated_cost := fadd (-30) (fmul (-20) (of_int (Z.of_nat (length evict))));
          catalog_freed_vram_mb := cat_vram; hardware_used_vram_mb := hw_used;
          non_evictable_vram_reserve_mb := reserve; hardware_correction_applied := applied;
          catalog_freed_ram_mb := cat_ram; hardware_used_ram_mb := hw_used_ram;
          non_evictable_ram_reserve_mb := ram_reserve_mb ram_eval;
          ram_hardware_correction_applied := ram_correction_applied ram_eval;
          trigger_model_id := Some (original (model_id p));
          plan_cooldown_protected_count := cooldown_protected_count hyst;
          plan_demand_protected_count := demand_protected_count hyst;
          plan_escape_hatch_used := escape_hatch_used hyst;
          plan_escape_reason := escape_reason hyst;
          plan_escape_cooldown_remaining_s := escape_cooldown_remaining_s hyst;
          plan_escape_model_id := escape_model_id hyst;
          plan_cooldown_override_pending := cooldown_override_pending hyst;
          plan_cooldown_override_victim_id := cooldown_override_victim_id hyst;
          plan_cooldown_override_remaining_s := cooldown_override_remaining_s hyst |}
    end.

(** ** The planner *)

(** What the planner is called with besides gateway and placement. *)
Record PlanContext := mkPlanCtx {
  pc_lookup : lookup_t;
  pc_tracker : option tracker_t;
  pc_cooldown_s : Q;
  pc_has_demand : option (string -> bool);
  pc_margins : margins_t;
  pc_class : EvictionRequestClass;
  pc_now : Q;
  pc_emb : option string;
  pc_ctx : option string
}.

Definition tracker_keys (c : PlanContext) (g : Gateway) : option (list string) :=
  match pc_tracker c with Some t => Some (t (name g)) | None => None end.

(** Idle models that may be evicted for [target]. *)
Definition evictable_models (c : PlanContext) (g : Gateway) (target : ModelId) : list ModelId :=
  List.filter (fun m => negb (mid_eqb m target)
                        && negb (is_rag_protected_model (pc_emb c) (pc_ctx c) m))
              (idle_models g (pc_tracker c) (tracker_keys c g)).

Definition compute_eviction_plan (c : PlanContext) (g : Gateway) (p : Placement)
    : option EvictionPlan :=
  match resolve_gateway_requirements g p with
  | inr _ => None
  | inl (gw_vram, gw_ram) =>
      match loading_reservation g p (pc_lookup c) with
      | Raise _ => None
      | Ok (vram_reserved, ram_reserved, _) =>
          match evictable_models c g (model_id p) with
          | [] => None
          | ev =>
              match filter_evictable_with_hysteresis (pc_now c) g ev (pc_cooldown_s c)
                      (pc_has_demand c) (pc_class c) with
              | None => None
              | Some hyst =>
                  Some (select_eviction_victims g p hyst gw_vram gw_ram
                          (vram_free_mb g - vram_reserved) (ram_free_mb g - ram_reserved)
                          (pc_margins c) (pc_tracker c) (tracker_keys c g))
              end
          end
      end
  end.

(** ** Reclaimable capacity *)

(** The loop of [can_fit_after_eviction_including_busy]: VRAM and RAM that
    evicting every unprotected loaded model would free. *)
Definition reclaim_of (c : PlanContext) (g : Gateway) (m : ModelId) : Z * Z :=
  if is_rag_protected_model (pc_emb c) (pc_ctx c) m then (0, 0) else
  let (catalog_vram, catalog_ram) := get_model_resource_usage g m in
  let (req_vram, req_ram) := pc_lookup c m in
  let effective_vram := get_or (Z.max req_vram catalog_vram) (model_measured_vram g !! mkey m) in
  let effective_ram := if 0 <? req_ram then req_ram else catalog_ram in
  (Z.max effective_vram 0, Z.max effective_ram 0).

Definition reclaimable_vram (c : PlanContext) (g : Gateway) (l : list ModelId) : Z :=
  foldr (fun m acc => fst (reclaim_of c g m) + acc) 0 l.
Definition reclaimable_ram (c : PlanContext) (g : Gateway) (l : list ModelId) : Z :=
  foldr (fun m acc => snd (reclaim_of c g m) + acc) 0 l.

Definition can_fit_after_eviction_including_busy (c : PlanContext) (g : Gateway) (p : Placement)
    : bool * gmap string dval :=
  match resolve_gateway_requirements g p with
  | inr _ => (false, ∅)
  | inl (gw_vram, gw_ram) =>
      let margins := pc_margins c in
      let ram_needed := scale_pct gw_ram (inject_Z (margin_int margins "ram_margin_pct" 3)) in
      match loading_reservation g p (pc_lookup c) with
      | Raise _ => (false, ∅)
      | Ok (vram_reserved, ram_reserved, _) =>
          let admission := evaluate_vram_admission gw_vram (vram_free_mb g) (vram_total_mb g)
                             vram_reserved margins in
          let vram_needed := needed_mb admission in
          let rv := vram_free_mb g - vram_reserved + reclaimable_vram c g (loaded_models g) in
          let ram_admission := evaluate_ram_reclaim ram_needed
                (reclaimable_ram c g (loaded_models g)) (ram_free_mb g) (ram_total_mb g)
                ram_reserved (match loaded_models g with [] => false | _ => true end) margins in
          let rr := ram_free_mb g - ram_reserved + ram_freeable_mb ram_admission in
          let vram_ok := (vram_needed <=? 0) || (vram_needed <=? rv) in
          let ram_ok := bool_decide (ram_verdict ram_admission = ADMIT) in
          (vram_ok && ram_ok,
           ram_to_payload ram_admission ∪ (to_payload admission ∪
           {[ "max_freeable_vram" := DInt rv;
              "required_vram" := DInt vram_needed;
              "vram_deficit_mb" := DInt (Z.max 0 (vram_needed - rv));
              "max_freeable_ram" := DInt rr;
              "required_ram" := DInt ram_needed;
              "ram_deficit_mb" := DInt (Z.max 0 (ram_needed - rr));
              "vram_reserved_loading" := DInt vram_reserved;
              "ram_reserved_loading" := DInt ram_reserved ]}))
      end
  end.

(** ** Idle models *)

Lemma busy_resolved g m t :
  is_model_actually_busy g m (Some t) (Some (t (name g))) = bool_decide (routing_key m ∈ t (name g)).
Proof. reflexivity. Qed.

Lemma idle_models_spec g tracker keys m :
  m ∈ idle_models g tracker keys ->
  m ∈ loaded_models g /\
  is_model_actually_busy g m tracker (resolve_keys g tracker keys) = false /\
  mmem m (loading_models g) = false.
Proof.
  unfold idle_models. rewrite elem_of_lfilter. intros [Hl H]. to_prop.
  repeat split; try done. apply not_true_iff_false. intros Hb.
  enough (mmem m (actually_busy_models g tracker keys) = true) by congruence.
  apply mmem_in. unfold actually_busy_models. by rewrite elem_of_lfilter.
Qed.

Lemma evictable_models_spec c g target m :
  m ∈ evictable_models c g target ->
  m ∈ loaded_models g /\ mmem m (loading_models g) = false /\
  mid_eqb m target = false /\ is_rag_protected_model (pc_emb c) (pc_ctx c) m = false /\
  match pc_tracker c with
  | Some t => routing_key m ∉ t (name g)
  | None => mmem m (busy_models g) = false
  end.
Proof.
  unfold evictable_models. rewrite elem_of_lfilter. intros [Hi H]. to_prop.
  apply idle_models_spec in Hi as (? & Hb & ?). repeat split; try done.
  unfold tracker_keys in Hb. destruct (pc_tracker c); simpl in Hb; [|done].
  by apply bool_decide_eq_false in Hb.
Qed.

(** ** Hysteresis *)

#[export] Instance loaded_before_order g : StrictWeakOrder (loaded_before g).
Proof. apply flt_key_order. Qed.

Lemma remaining_eligible now g m cooldown :
  cooldown_override_eligible (remaining_cooldown_s now g m cooldown) COOLDOWN_HARD_FLOOR_S = true <->
  (COOLDOWN_HARD_FLOOR_S < remaining_cooldown_s now g m cooldown)%Q.
Proof. apply flt_spec. Qed.

(** Every case of the filter: the plain survivors, the demand escape, the
    cooldown override, or nothing. *)
Inductive hyst_case (now : Q) (g : Gateway) (l : list ModelId) (cooldown : Q)
    (dem : option (string -> bool)) (cls : EvictionRequestClass)
    : option HysteresisResult -> Prop :=
  | HC_plain h :
      evictable h = List.filter (fun m => negb (has_queued_demand dem m))
                      (List.filter (fun m => negb (in_cooldown now g cooldown m)) l) ->
      evictable h <> [] -> escape_hatch_used h = false -> cooldown_override_pending h = false ->
      hyst_case now g l cooldown dem cls (Some h)
  | HC_demand h m :
      evictable h = [m] -> m ∈ l -> in_cooldown now g cooldown m = false ->
      has_queued_demand dem m = true ->
      (forall m', m' ∈ l -> in_cooldown now g cooldown m' = false ->
         has_queued_demand dem m' = true /\ loaded_before g m' m = false) ->
      escape_reason h = Some "demand"%string -> cooldown_override_pending h = false ->
      hyst_case now g l cooldown dem cls (Some h)
  | HC_override h m :
      evictable h = [m] -> m ∈ l -> cls = REQUIRED ->
      (forall m', m' ∈ l -> in_cooldown now g cooldown m' = true) ->
      (COOLDOWN_HARD_FLOOR_S < remaining_cooldown_s now g m cooldown)%Q ->
      (forall m', m' ∈ l -> (COOLDOWN_HARD_FLOOR_S < remaining_cooldown_s now g m' cooldown)%Q ->
         loaded_before g m' m = false) ->
      escape_reason h = Some "cooldown"%string -> cooldown_override_pending h = true ->
      cooldown_override_victim_id h = Some (original m) ->
      cooldown_override_remaining_s h = Some (remaining_cooldown_s now g m cooldown) ->
      hyst_case now g l cooldown dem cls (Some h)
  | HC_none :
      (forall m, m ∈ l -> in_cooldown now g cooldown m = true) ->
      (cls = REQUIRED -> forall m, m ∈ l ->
         (remaining_cooldown_s now g m cooldown <= COOLDOWN_HARD_FLOOR_S)%Q) ->
      hyst_case now g l cooldown dem cls None.

Lemma hysteresis_cases now g l cooldown dem cls :
  hyst_case now g l cooldown dem cls
    (filter_evictable_with_hysteresis now g l cooldown dem cls).
Proof.
  unfold filter_evictable_with_hysteresis.
  destruct (List.filter (fun m => negb (has_queued_demand dem m)) _) as [|f fs] eqn:Ef.
  2: { apply HC_plain; simpl; by rewrite ?Ef. }
  pose proof (proj1 (lfilter_nil_iff _ _) Ef) as Hf. clear Ef.
  assert (Hpast : forall m, m ∈ l -> in_cooldown now g cooldown m = false ->
                  has_queued_demand dem m = true).
  { intros m Hm Hc. apply negb_false_iff, Hf, elem_of_lfilter. by rewrite Hc. }
  destruct (sort_by (loaded_before g) (List.filter (has_queued_demand dem) _)) as [|m ms] eqn:Es.
  - apply sort_by_nil_iff in Es. pose proof (proj1 (lfilter_nil_iff _ _) Es) as Hd.
    assert (Hall : forall m, m ∈ l -> in_cooldown now g cooldown m = true).
    { intros m Hm. destruct (in_cooldown now g cooldown m) eqn:Hc; [done|].
      rewrite <- (Hpast m Hm Hc). symmetry. apply Hd, elem_of_lfilter. by rewrite Hc. }
    assert (Hprot : forall m, m ∈ List.filter (in_cooldown now g cooldown) l <-> m ∈ l).
    { intros m. rewrite elem_of_lfilter. naive_solver. }
    destruct (List.filter (in_cooldown now g cooldown) l) as [|q qs] eqn:Eq.
    { apply HC_none; [done|]. intros _ m Hm%Hprot. inversion Hm. }
    destruct cls; [|by apply HC_none].
    destruct (sort_by (loaded_before g) _) as [|m ms] eqn:Eo.
    + apply sort_by_nil_iff in Eo. apply HC_none; [done|]. intros _ m Hm.
      apply Qnot_lt_le. rewrite <- remaining_eligible.
      rewrite (proj1 (lfilter_nil_iff _ _) Eo m); [done | by apply Hprot].
    + apply sort_by_head_min in Eo as [Hm Hmin]; [|apply _]. apply elem_of_lfilter in Hm as [Hm Hel].
      apply (HC_override _ _ _ _ _ _ _ m); simpl; try done; [by apply Hprot | |].
      * by apply remaining_eligible.
      * intros m' Hm' Hr. apply Hmin, elem_of_lfilter. by rewrite Hprot, remaining_eligible.
  - apply sort_by_head_min in Es as [Hm Hmin]; [|apply _].
    apply elem_of_lfilter in Hm as [[Hm Hc]%elem_of_lfilter Hdem]. to_prop.
    apply (HC_demand _ _ _ _ _ _ _ m); simpl; try done.
    intros m' Hm' Hc'. pose proof (Hpast m' Hm' Hc'). split; [done|].
    apply Hmin. rewrite !elem_of_lfilter. by rewrite Hc'.
Qed.

Lemma hysteresis_subset now g l cooldown dem cls h :
  filter_evictable_with_hysteresis now g l cooldown dem cls = Some h ->
  evictable h <> [] /\ forall m, m ∈ evictable h -> m ∈ l.
Proof.
  intros E. pose proof (hysteresis_cases now g l cooldown dem cls) as H. rewrite E in H.
  inversion H as [? Hev Hne|? m Hev Hm|? m Hev Hm|]; subst.
  - split; [done|]. intros m. rewrite Hev, !elem_of_lfilter. tauto.
  - rewrite Hev. split; [done|]. by intros ? ->%list_elem_of_singleton.
  - rewrite Hev. split; [done|]. by intros ? ->%list_elem_of_singleton.
Qed.

(** A model inside its load cooldown is offered for eviction only as a
    required override: the request class is REQUIRED, more than the 10 s hard
    floor remains, no candidate is out of cooldown, the override is recorded
    as pending, and the victim is the only one and the one loaded longest ago
    among those above the floor.  An opportunistic request never evicts a
    model in cooldown. *)
Theorem hysteresis_respects_cooldown now g l cooldown dem cls h m :
  filter_evictable_with_hysteresis now g l cooldown dem cls = Some h ->
  m ∈ evictable h -> in_cooldown now g cooldown m = true ->
  cls = REQUIRED /\ evictable h = [m] /\ cooldown_override_pending h = true /\
  (COOLDOWN_HARD_FLOOR_S < remaining_cooldown_s now g m cooldown)%Q /\
  (forall m', m' ∈ l -> in_cooldown now g cooldown m' = true) /\
  (forall m', m' ∈ l -> (COOLDOWN_HARD_FLOOR_S < remaining_cooldown_s now g m' cooldown)%Q ->
     (loaded_at g m <= loaded_at g m')%Q).
Proof.
  intros E Hm Hc. pose proof (hysteresis_cases now g l cooldown dem cls) as H. rewrite E in H.
  inversion H as [? Hev|? m0 Hev Hm0 Hc0|? m0 Hev Hm0 ? Hall Hr Hmin|]; subst; rewrite Hev in Hm.
  - apply elem_of_lfilter in Hm as [[_ Hn]%elem_of_lfilter _]. to_prop. congruence.
  - apply list_elem_of_singleton in Hm as ->. congruence.
  - apply list_elem_of_singleton in Hm as ->. repeat split; try done.
    intros m' Hm' Hr'. apply flt_false. by apply Hmin.
Qed.

Lemma hysteresis_respects_cooldown_witness :
  let a := sample_id "model-a" in
  let g := sample_gateway "edge" 0 0 0 0 [a] [] [] [] in
  match filter_evictable_with_hysteresis 5 g [a] 120 None REQUIRED with
  | Some h => cooldown_override_pending h = true
  | None => False
  end.
Proof.
  intros a g. destruct (filter_evictable_with_hysteresis _ _ _ _ _ _) as [h|] eqn:E.
  - assert (Hin : a ∈ evictable h) by (clear -E; vm_compute in E; injection E as <-; left).
    apply (hysteresis_respects_cooldown 5 g [a] 120 None REQUIRED h a E Hin eq_refl).
  - vm_compute in E. discriminate.
Defined.

(** The filter gives up exactly when there is no legal victim: every
    candidate is in cooldown and, for a required eviction, none has more than
    the hard floor left.  Queued demand alone never blocks an eviction. *)
Theorem hysteresis_none_iff now g l cooldown dem cls :
  filter_evictable_with_hysteresis now g l cooldown dem cls = None <->
  (forall m, m ∈ l -> in_cooldown now g cooldown m = true) /\
  (cls = REQUIRED -> forall m, m ∈ l ->
     (remaining_cooldown_s now g m cooldown <= COOLDOWN_HARD_FLOOR_S)%Q).
Proof.
  pose proof (hysteresis_cases now g l cooldown dem cls) as H. split.
  - intros E. rewrite E in H. by inversion H.
  - intros [Hall Hfl].
    inversion H as [h Hev Hne|h m Hev Hm Hc|h m Hev Hm -> _ Hr|]; [exfalso..|done].
    + destruct (evictable h) as [|m ms]; [done|].
      assert (Hm : m ∈ m :: ms) by constructor. rewrite Hev in Hm.
      apply elem_of_lfilter in Hm as [[Hm Hn]%elem_of_lfilter _]. to_prop.
      rewrite Hall in Hn; done.
    + rewrite Hall in Hc; done.
    + apply (Qlt_not_le _ _ Hr). by apply Hfl.
Qed.

(** ** Oscillation tracking *)

(** After an override of a victim is recorded at [t], another override of
    the same victim is refused exactly while the (rounded) time since [t] is
    below the window; an expired entry is dropped on read; other victims are
    unaffected. *)
Theorem override_window_exact (k : string * string) (w t now : Q) (ts : overrides_t) :
  let ts1 := record_cooldown_override k t ts in
  let r := oscillation_blocks_override k w now ts1 in
  (rnd w == w)%Q ->
  (fst r = true <-> (fsub now t < w)%Q) /\
  (fst r = false -> snd r !! k = None) /\
  (forall k', k' <> k -> snd r !! k' = ts !! k').
Proof.
  intros ts1 r Hw.
  assert (Hr : (0 < fsub w (fsub now t))%Q <-> (fsub now t < w)%Q).
  { generalize (fsub now t). intros e. unfold fsub. split; intros H.
    - apply Qnot_le_lt. intros Hle. apply (Qlt_not_le _ _ H).
      apply (rnd_le_int 0); [lia|]. change (inject_Z 0) with 0%Q. lra.
    - assert (Hp : (0 < w - e)%Q) by lra. rewrite (rnd_gt _ Hp). by apply rnd_pos_pos. }
  subst r ts1. unfold record_cooldown_override, oscillation_blocks_override, oscillation_hold_remaining_s.
  rewrite lookup_insert_eq. destruct (fle (fsub w (fsub now t)) 0) eqn:E; simpl.
  - q_prop. change (flt 0 0) with false. split; [|split].
    + split; [done|]. intros H%Hr. lra.
    + intros _. apply lookup_delete_eq.
    + intros k' Hk. rewrite lookup_delete_ne, lookup_insert_ne by done. done.
  - q_prop. apply (proj2 (flt_spec _ _)) in E. rewrite E. apply flt_spec in E. split; [|split].
    + split; [|done]. intros _. by apply Hr.
    + done.
    + intros k' Hk. by rewrite lookup_insert_ne.
Qed.

Lemma override_window_exact_witness :
  fst (oscillation_blocks_override ("edge"%string, "m"%string) 120 100
         (record_cooldown_override ("edge"%string, "m"%string) 5 ∅)) = true.
Proof.
  apply (proj1 (override_window_exact ("edge"%string, "m"%string) 120 5 100 ∅ eq_refl)).
  reflexivity.
Defined.

(** ** Greedy selection *)

Definition sum_of (f : victim -> Z) (l : list victim) : Z := foldr (fun x acc => f x + acc) 0 l.

Lemma sum_of_app f l1 l2 : sum_of f (l1 ++ l2) = sum_of f l1 + sum_of f l2.
Proof. induction l1; simpl; lia. Qed.

Lemma sum_of_perm f l1 l2 : l1 ≡ₚ l2 -> sum_of f l1 = sum_of f l2.
Proof. induction 1; simpl; lia. Qed.

Section Greedy.
Context (fp_v fp_r free_v free_r vt rt : Z).

(** Whether evicting [l] meets both targets. *)
Definition covers (l : list victim) : bool :=
  ((fp_v <=? 0) || (vt <=? free_v + sum_of v_vram l)) &&
  ((fp_r <=? 0) || (rt <=? free_r + sum_of v_ram l)).

(** Reference: the shortest non-empty prefix that covers, everything if none. *)
Fixpoint shortest_cover (pre l : list victim) : list victim :=
  match l with
  | [] => pre
  | x :: l' => if covers (pre ++ [x]) then pre ++ [x] else shortest_cover (pre ++ [x]) l'
  end.

Lemma greedy_shortest_cover l pre :
  greedy fp_v fp_r free_v free_r vt rt l (sum_of v_vram pre) (sum_of v_ram pre) pre
  = let s := shortest_cover pre l in (s, sum_of v_vram s, sum_of v_ram s).
Proof.
  revert pre. induction l as [|x l IH]; intros pre; simpl; [done|].
  unfold covers. rewrite !sum_of_app. simpl. rewrite !Z.add_0_r.
  destruct (_ && _); [by rewrite !sum_of_app; simpl; rewrite !Z.add_0_r|].
  specialize (IH (pre ++ [x])). rewrite !sum_of_app in IH. simpl in IH.
  rewrite !Z.add_0_r in IH. exact IH.
Qed.

Lemma shortest_cover_take l pre :
  exists k, shortest_cover pre l = pre ++ take k l /\ (k <= length l)%nat /\
    (l <> [] -> (1 <= k)%nat) /\
    (forall j, (1 <= j < k)%nat -> covers (pre ++ take j l) = false) /\
    ((k < length l)%nat -> covers (pre ++ take k l) = true).
Proof.
  revert pre. induction l as [|x l IH]; intros pre; simpl.
  { exists 0%nat. rewrite app_nil_r. repeat split; try done; simpl; lia. }
  destruct (covers (pre ++ [x])) eqn:E.
  { exists 1%nat. simpl. rewrite take_0. repeat split; try done; lia. }
  destruct (IH (pre ++ [x])) as (k & Hk & Hle & Hne & Hmin & Hcov).
  exists (S k). simpl. rewrite Hk, <- app_assoc. repeat split; try done; try lia.
  - intros j Hj. destruct j as [|[|j]]; [lia | simpl; by rewrite take_0 |].
    rewrite <- (Hmin (S j)) by lia. simpl. by rewrite <- app_assoc.
  - intros Hl. rewrite <- Hcov by lia. by rewrite <- app_assoc.
Qed.

End Greedy.

#[export] Instance victim_before_order : StrictWeakOrder victim_before.
Proof.
  unfold victim_before. split.
  - intros x. apply orb_false_iff. rewrite !Z.ltb_irrefl, andb_false_r. done.
  - intros x y z. rewrite !orb_false_iff, !andb_false_iff.
    rewrite !Z.ltb_ge, !Z.eqb_neq. lia.
  - intros x y. rewrite orb_true_iff, andb_true_iff, orb_false_iff, andb_false_iff.
    rewrite !Z.ltb_ge, !Z.ltb_lt, !Z.eqb_neq, Z.eqb_eq. lia.
Qed.

Lemma victim_before_vram x y : victim_before y x = false -> v_vram y <= v_vram x.
Proof. unfold victim_before. intros H. to_prop. lia. Qed.

(** In a list sorted by falling VRAM no [n] elements free more than the first [n]. *)
Lemma top_sum_max l s :
  StronglySorted (le_by victim_before) l -> s ⊆+ l ->
  sum_of v_vram s <= sum_of v_vram (take (length s) l).
Proof.
  intros Hs. revert s. induction Hs as [|x l Hs IH Hx]; intros s Hsub.
  { apply submseteq_nil_r in Hsub as ->. done. }
  apply submseteq_cons_r in Hsub as [Hsub|(s' & Hp & Hsub)].
  - destruct s as [|y s]; simpl; [done|].
    assert (Hy : y ∈ l) by (eapply elem_of_submseteq; [constructor | exact Hsub]).
    assert (v_vram y <= v_vram x).
    { apply victim_before_vram. eapply Forall_forall in Hx; [exact Hx | done]. }
    assert (Hsub' : s ⊆+ l) by (etrans; [apply submseteq_cons; reflexivity | exact Hsub]).
    specialize (IH s Hsub'). lia.
  - rewrite (sum_of_perm _ _ _ Hp), (Permutation_length Hp). simpl.
    specialize (IH s' Hsub). lia.
Qed.

Lemma chosen_victims_spec g gv gr fv fr margins ids :
  let l := sort_by victim_before (map (victim_resources g) ids) in
  let s := shortest_cover gv gr fv fr (vram_target gv margins) (ram_target gr margins) [] l in
  chosen_victims g gv gr fv fr margins ids = (s, sum_of v_vram s, sum_of v_ram s).
Proof. apply (greedy_shortest_cover _ _ _ _ _ _ _ []). Qed.

Lemma v_id_resources g m : v_id (victim_resources g m) = m.
Proof. unfold victim_resources. by destruct (get_model_resource_usage g m). Qed.

Lemma map_v_id_resources g ids : map v_id (map (victim_resources g) ids) = ids.
Proof. induction ids; simpl; [done|]. rewrite v_id_resources. by f_equal. Qed.

(** The victims of [ids]: a non-empty selection of the candidates. *)
Lemma chosen_victims_sub g gv gr fv fr margins ids :
  map v_id (fst (fst (chosen_victims g gv gr fv fr margins ids))) ⊆+ ids /\
  (ids <> [] -> fst (fst (chosen_victims g gv gr fv fr margins ids)) <> []).
Proof.
  rewrite chosen_victims_spec. simpl.
  set (l := sort_by _ _).
  edestruct (shortest_cover_take gv gr fv fr (vram_target gv margins) (ram_target gr margins) l [])
    as (k & -> & Hk & Hne & _). simpl.
  assert (Hl : map v_id l ≡ₚ ids).
  { unfold l. by rewrite sort_by_perm, map_v_id_resources. }
  split.
  - rewrite <- Hl. apply sublist_submseteq. rewrite <- (take_drop k l) at 2.
    rewrite map_app. by apply sublist_inserts_r.
  - intros Hids Ht. destruct l as [|x l'].
    + apply Permutation_nil_l in Hl. by symmetry in Hl.
    + assert (x :: l' <> []) by done. destruct k; [specialize (Hne H); lia | done].
Qed.

(** ** Plans *)

Lemma select_summary_spec g p hyst gv gr fv fr margins tracker keys s :
  select_eviction_victims g p hyst gv gr fv fr margins tracker keys = PlanSummary s ->
  let '(victims, cat_vram, cat_ram) := chosen_victims g gv gr fv fr margins (evictable hyst) in
  models_to_evict s = map v_id victims /\
  catalog_freed_vram_mb s = cat_vram /\ catalog_freed_ram_mb s = cat_ram /\
  freed_vram_mb s = fst (fst (fst (vram_correction g (map v_id victims) cat_vram))) /\
  hardware_correction_applied s = snd (vram_correction g (map v_id victims) cat_vram) /\
  (exists full, freed_ram_mb s = ram_freeable_mb (evaluate_ram_reclaim (ram_target gr margins)
     cat_ram (ram_free_mb g) (ram_total_mb g) (Z.max 0 (ram_free_mb g - fr)) full margins)) /\
  (0 < gv -> vram_target gv margins <= fv + freed_vram_mb s) /\
  (0 < gr -> ram_target gr margins <= fr + freed_ram_mb s) /\
  plan_cooldown_override_pending s = cooldown_override_pending hyst.
Proof.
  unfold select_eviction_victims.
  destruct (chosen_victims _ _ _ _ _ _ _) as [[victims cv] cr].
  destruct (vram_correction _ _ _) as [[[corr hw] res] app] eqn:Ec.
  destruct ((0 <? gv) && _) eqn:E1; [done|]. destruct ((0 <? gr) && _) eqn:E2; [done|].
  destruct (match tracker with Some _ => _ | None => _ end) eqn:Ev; [|done].
  intros [= <-]; simpl. apply andb_false_iff in E1, E2.
  repeat split; try done; [by eexists | |]; intros H;
    [destruct E1 as [E1|E1] | destruct E2 as [E2|E2]]; to_prop; lia.
Qed.

(** What the planner had when it produced something. *)
Lemma compute_plan_inv c g p pl :
  compute_eviction_plan c g p = Some pl ->
  exists gv gr vres rres ds hyst,
    resolve_gateway_requirements g p = inl (gv, gr) /\
    loading_reservation g p (pc_lookup c) = Ok (vres, rres, ds) /\
    filter_evictable_with_hysteresis (pc_now c) g (evictable_models c g (model_id p))
      (pc_cooldown_s c) (pc_has_demand c) (pc_class c) = Some hyst /\
    pl = select_eviction_victims g p hyst gv gr (vram_free_mb g - vres) (ram_free_mb g - rres)
           (pc_margins c) (pc_tracker c) (tracker_keys c g).
Proof.
  unfold compute_eviction_plan. intros H.
  destruct (resolve_gateway_requirements g p) as [[gv gr]|]; [|done].
  destruct (loading_reservation g p (pc_lookup c)) as [[[vres rres] ds]|]; [|done].
  destruct (evictable_models c g (model_id p)) as [|e es] eqn:Ee; [done|].
  destruct (filter_evictable_with_hysteresis _ _ _ _ _ _) as [h|] eqn:Eh; [|done].
  injection H as <-. exists gv, gr, vres, rres, ds, h. done.
Qed.

Lemma lfilter_submseteq {A} (f : A -> bool) (l : list A) : List.filter f l ⊆+ l.
Proof.
  induction l as [|x l IH]; simpl; [done|].
  destruct (f x); [by constructor | by apply submseteq_cons].
Qed.

Lemma hysteresis_submseteq now g l cooldown dem cls h :
  filter_evictable_with_hysteresis now g l cooldown dem cls = Some h -> evictable h ⊆+ l.
Proof.
  intros E. pose proof (hysteresis_cases now g l cooldown dem cls) as H. rewrite E in H.
  inversion H as [? Hev Hne|? m Hev Hm|? m Hev Hm|]; subst; rewrite Hev.
  - etrans; apply lfilter_submseteq.
  - by apply singleton_submseteq_l.
  - by apply singleton_submseteq_l.
Qed.

Lemma idle_submseteq g tracker keys : idle_models g tracker keys ⊆+ loaded_models g.
Proof. apply lfilter_submseteq. Qed.

Lemma plan_victims_sub c g p s :
  compute_eviction_plan c g p = Some (PlanSummary s) ->
  models_to_evict s ⊆+ evictable_models c g (model_id p) /\ models_to_evict s <> [].
Proof.
  intros H. apply compute_plan_inv in H as (gv & gr & vres & rres & ds & hyst & _ & _ & Hh & Hs).
  symmetry in Hs. apply select_summary_spec in Hs.
  destruct (hysteresis_subset _ _ _ _ _ _ _ Hh) as [Hne _].
  apply hysteresis_submseteq in Hh.
  pose proof (chosen_victims_sub g gv gr (vram_free_mb g - vres) (ram_free_mb g - rres)
                (pc_margins c) (evictable hyst)) as [Hsub Hn].
  destruct (chosen_victims _ _ _ _ _ _ _) as [[victims cv] cr]. destruct Hs as (-> & _). simpl in *.
  split; [by etrans|]. specialize (Hn Hne). by destruct victims.
Qed.

(** An eviction plan names at least one model, and every model it names
    is loaded on the gateway, is not loading, is not the requested model, is
    not one of the models reserved for retrieval, and has no request in
    flight (by the master's tracker when there is one, by telemetry
    otherwise). *)
Theorem plan_evicts_only_idle c g p s :
  compute_eviction_plan c g p = Some (PlanSummary s) ->
  models_to_evict s <> [] /\
  forall m, m ∈ models_to_evict s ->
    m ∈ loaded_models g /\ mmem m (loading_models g) = false /\
    mid_eqb m (model_id p) = false /\
    is_rag_protected_model (pc_emb c) (pc_ctx c) m = false /\
    match pc_tracker c with
    | Some t => routing_key m ∉ t (name g)
    | None => mmem m (busy_models g) = false
    end.
Proof.
  intros H. apply plan_victims_sub in H as [Hsub Hne]. split; [done|].
  intros m Hm. apply evictable_models_spec. by eapply elem_of_submseteq.
Qed.

Definition sample_ctx : PlanContext :=
  mkPlanCtx (fun _ => (0, 0)) (Some (fun _ => ["model-b"%string])) 120 None ∅ REQUIRED 1000 None None.

Definition sample_full_gateway : Gateway :=
  let a := sample_id "model-a" in let b := sample_id "model-b" in
  let c := sample_id "model-c" in
  sample_gateway "edge" 2000 24000 30000 64000 [b; c] [] []
    [(a, (9000, 2000)); (b, (4000, 1000)); (c, (12000, 1000))].

Lemma plan_evicts_only_idle_witness :
  let p := sample_placement (sample_id "model-a") 9000 2000 in
  match compute_eviction_plan sample_ctx sample_full_gateway p with
  | Some (PlanSummary s) => models_to_evict s = [sample_id "model-c"] /\ models_to_evict s <> []
  | _ => False
  end.
Proof.
  intros p. destruct (compute_eviction_plan sample_ctx sample_full_gateway p) as [[s|]|] eqn:E;
    [| by vm_compute in E ..].
  split; [by vm_compute in E; injection E as <-|].
  apply (plan_evicts_only_idle sample_ctx sample_full_gateway p s E).
Defined.

(** The guard against in-flight victims never fires: whatever telemetry
    says, the planner has already excluded them, so no plan is ever aborted
    for [in_flight_eviction_prohibited]. *)
Lemma plan_in_flight_abort_unreachable c g p a :
  compute_eviction_plan c g p = Some (PlanAbort a) ->
  abort_reason a <> in_flight_eviction_prohibited.
Proof.
  intros H. apply compute_plan_inv in H as (gv & gr & vres & rres & ds & hyst & _ & _ & Hh & Hs).
  unfold select_eviction_victims in Hs. apply hysteresis_submseteq in Hh.
  pose proof (chosen_victims_sub g gv gr (vram_free_mb g - vres) (ram_free_mb g - rres)
                (pc_margins c) (evictable hyst)) as [Hsub _].
  destruct (chosen_victims _ _ _ _ _ _ _) as [[victims cv] cr]. simpl in Hsub.
  destruct (vram_correction _ _ _) as [[[corr hw] res] app].
  destruct ((0 <? gv) && _); [by injection Hs as ->|].
  destruct ((0 <? gr) && _); [by injection Hs as ->|].
  destruct (match pc_tracker c with Some _ => _ | None => _ end) as [|m ms] eqn:Ev; [done|].
  exfalso. unfold tracker_keys in Ev. destruct (pc_tracker c) as [t|] eqn:Et; [|done].
  assert (Hm : m ∈ List.filter (fun m => bool_decide (routing_key m ∈ t (name g))) (map v_id victims))
    by (rewrite Ev; constructor).
  apply elem_of_lfilter in Hm as [Hm Hk]. to_prop.
  assert (Hin : m ∈ evictable_models c g (model_id p)).
  { eapply elem_of_submseteq; [exact Hm|]. by etrans. }
  apply evictable_models_spec in Hin as (_ & _ & _ & _ & Hn). by rewrite Et in Hn.
Qed.

(** The selection loop takes the shortest non-empty prefix of the
    candidates, by falling (VRAM, RAM), that meets both targets, or all of
    them; and it is optimal for a placement without RAM requirement: no
    non-empty choice of fewer candidates frees enough VRAM. *)
Theorem selection_minimal g gv gr fv fr margins ids :
  let l := sort_by victim_before (map (victim_resources g) ids) in
  let chosen := fst (fst (chosen_victims g gv gr fv fr margins ids)) in
  chosen = shortest_cover gv gr fv fr (vram_target gv margins) (ram_target gr margins) [] l /\
  (gr <= 0 -> 0 < gv -> forall other, other <> [] -> other ⊆+ map (victim_resources g) ids ->
   vram_target gv margins <= fv + sum_of v_vram other ->
   (length chosen <= length other)%nat).
Proof.
  rewrite chosen_victims_spec. simpl. split; [done|]. intros Hgr Hgv other Hne Hsub Hcov.
  set (l := sort_by victim_before _).
  edestruct (shortest_cover_take gv gr fv fr (vram_target gv margins) (ram_target gr margins) l [])
    as (k & -> & Hk & _ & Hmin & _). simpl. rewrite length_take.
  destruct (decide (k <= length other)%nat) as [|Hlt]; [lia|exfalso].
  assert (Hl : other ⊆+ l) by (unfold l; by rewrite sort_by_perm).
  assert (1 <= length other)%nat by (destruct other; simpl; [done | lia]).
  specialize (Hmin (length other) ltac:(lia)). simpl in Hmin.
  pose proof (top_sum_max l other (sort_by_sorted _ _) Hl).
  unfold covers in Hmin. apply andb_false_iff in Hmin as [H1|H1]; to_prop; lia.
Qed.

Lemma selection_minimal_witness :
  let g := sample_full_gateway in
  (length (fst (fst (chosen_victims g 9000 0 2000 30000 ∅ (loaded_models g)))) <= 1)%nat.
Proof.
  intros g.
  apply (proj2 (selection_minimal g 9000 0 2000 30000 ∅ (loaded_models g)))
    with (other := [victim_resources g (sample_id "model-c")]);
    [lia | lia | done | apply singleton_submseteq_l; right; left | vm_compute; discriminate].
Defined.

(** ** What a plan promises *)

Lemma py_int_le_self q : (0 <= q)%Q -> (0 <= py_int q)%Z /\ (inject_Z (py_int q) <= q)%Q.
Proof. intros H. split; [by apply py_int_nonneg | by apply py_int_le]. Qed.

(** The planner's target covers what admission will ask for. *)
Lemma vram_target_covers gv (margins : margins_t) :
  0 < gv <= 2 ^ 30 ->
  (0 <= margin_get margins "vram_margin_pct" 5 <= 10000)%Q ->
  1 <= margin_int margins "vram_headroom_mb" 2048 ->
  vram_needed gv margins <= vram_target gv margins.
Proof.
  intros Hgv Hpct Hh. unfold vram_needed, vram_target, compute_capped_margin_mb.
  rewrite (proj2 (Z.ltb_lt 0 gv)) by lia.
  unfold margin_int at 1. change (inject_Z 5) with (5 : Q).
  set (q := margin_get margins "vram_margin_pct" 5) in *.
  destruct (py_int_le_self q) as [H1 H2]; [lra|].
  pose proof (pct_of_scale_pct gv (inject_Z (py_int q)) q ltac:(lia)
                (inject_nonneg _ H1) H2 ltac:(lra)).
  pose proof (scale_pct_ge gv q ltac:(lia) ltac:(lra)).
  match goal with |- context [clamp ?a ?lo ?hi] => pose proof (clamp_spec a lo hi) end.
  lia.
Qed.

Lemma scale_pct_mono n p q : 0 <= n <= 2 ^ 53 -> (0 <= p)%Q -> (p <= q)%Q ->
  scale_pct n p <= scale_pct n q.
Proof.
  intros Hn Hp Hpq. unfold scale_pct.
  assert (H0 : (0 <= of_int n)%Q) by (rewrite of_int_small by lia; apply inject_nonneg; lia).
  assert (Hm : (fadd 1 (fdiv p 100) <= fadd 1 (fdiv q 100))%Q).
  { apply rnd_mono. pose proof (fdiv_100_mono p q Hpq). lra. }
  pose proof (fadd_1_ge _ (fdiv_100_nonneg p Hp)).
  assert (Hle : (fmul (of_int n) (fadd 1 (fdiv p 100)) <= fmul (of_int n) (fadd 1 (fdiv q 100)))%Q).
  { apply rnd_mono. nra. }
  assert (Hnn : (0 <= fmul (of_int n) (fadd 1 (fdiv p 100)))%Q) by (apply rnd_nonneg; nra).
  destruct (py_int_le _ Hnn) as [Hf _].
  apply py_int_ge; [by apply py_int_nonneg | lra].
Qed.

(** Carrying out an eviction plan makes the model fit (the planner's
    docstring: "frees enough for the post-eviction resource check to pass
    without a wasted eviction cycle").  If the freed VRAM comes back as
    planned, VRAM admission admits; if the freed RAM does, the RAM check
    passes; although the planner and the check compute their margins by
    different formulas and roundings. *)
Theorem plan_makes_room c g p s gv gr vres rres ds :
  compute_eviction_plan c g p = Some (PlanSummary s) ->
  resolve_gateway_requirements g p = inl (gv, gr) ->
  loading_reservation g p (pc_lookup c) = Ok (vres, rres, ds) ->
  (gv <= 2 ^ 30 /\ gr <= 2 ^ 53) ->
  (0 <= margin_get (pc_margins c) "vram_margin_pct" 5 <= 10000)%Q ->
  (0 <= margin_get (pc_margins c) "ram_margin_pct" 3)%Q ->
  1 <= margin_int (pc_margins c) "vram_headroom_mb" 2048 ->
  (0 < gv -> verdict (evaluate_vram_admission gv (vram_free_mb g + freed_vram_mb s)
                        (vram_total_mb g) vres (pc_margins c)) = ADMIT) /\
  (0 < gr -> scale_pct gr (inject_Z (margin_int (pc_margins c) "ram_margin_pct" 3))
             <= ram_free_mb g + freed_ram_mb s - rres).
Proof.
  intros H Hr Hl [Hgv Hgr] Hvp Hrp Hh.
  apply compute_plan_inv in H as (gv' & gr' & vres' & rres' & ds' & hyst & Hr' & Hl' & _ & Hs).
  rewrite Hr in Hr'. injection Hr' as <- <-. rewrite Hl in Hl'. injection Hl' as <- <- <-.
  symmetry in Hs. apply select_summary_spec in Hs.
  destruct (chosen_victims _ _ _ _ _ _ _) as [[victims cv] cr].
  destruct Hs as (_ & _ & _ & _ & _ & _ & Hv & Hram & _).
  split; intros H0.
  - apply vram_admit_iff. right. specialize (Hv H0).
    pose proof (vram_target_covers gv (pc_margins c) ltac:(lia) Hvp Hh). lia.
  - specialize (Hram H0). unfold ram_target in Hram.
    unfold margin_int. change (inject_Z 3) with (3 : Q).
    set (q := margin_get (pc_margins c) "ram_margin_pct" 3) in *.
    destruct (py_int_le_self q Hrp) as [H1 H2].
    pose proof (scale_pct_mono gr (inject_Z (py_int q)) q ltac:(lia) (inject_nonneg _ H1) H2). lia.
Qed.

Lemma plan_makes_room_witness :
  let p := sample_placement (sample_id "model-a") 9000 2000 in
  match compute_eviction_plan sample_ctx sample_full_gateway p with
  | Some (PlanSummary s) =>
      0 < 9000 -> verdict (evaluate_vram_admission 9000 (2000 + freed_vram_mb s) 24000 0 ∅) = ADMIT
  | _ => False
  end.
Proof.
  intros p. destruct (compute_eviction_plan sample_ctx sample_full_gateway p) as [[s|]|] eqn:E;
    [| by vm_compute in E ..].
  refine (proj1 (plan_makes_room sample_ctx sample_full_gateway p s 9000 2000 0 0 []
                   E eq_refl eq_refl _ _ _ _));
    vm_compute; repeat split; discriminate.
Defined.
