(* ===== verification/Feasibility.v ===== *)
(** * Feasibility tiers

    Classification of one gateway for one placement into T0 / T1 / T2:
    residency checks ([model_checks.py]), the early gates
    ([feasibility_gates.py]) and the evaluation itself ([feasibility.py]).
    [ModelId.parse] of the caller's [original_model_id] may raise, so the
    results are in [exn]. *)
From stdpp Require Import base gmap list strings.
From Stdlib Require Import ZArith QArith Lia Lqa.
From S2P Require Import Prelude PyFloat PyString ModelId RoutingTypes Admission Eviction.
Local Open Scope Z_scope.

(** ** Residency *)

(** [if placement.original_model_id: ... ModelId.parse(...)]; [None] when the
    placement has no original id or an empty one. *)
Definition original_parsed (p : Placement) : exn (option ModelId) :=
  match original_model_id p with
  | None => Ok None
  | Some s => if bool_decide (s = ""%string) then Ok None
              else let? m := parse s in Ok (Some m)
  end.

(** [model_checks._is_model_loaded]: a model in transition is not loaded. *)
Definition is_model_loaded (g : Gateway) (p : Placement) : exn bool :=
  let? o := original_parsed p in
  let by_id := if mmem (model_id p) (loading_models g) then false
               else mmem (model_id p) (loaded_models g) in
  Ok match o with
     | Some om => if mmem om (loading_models g) then false
                  else if mmem om (loaded_models g) then true else by_id
     | None => by_id
     end.

Definition is_model_available (g : Gateway) (p : Placement) : exn bool :=
  let? loaded := is_model_loaded g p in
  if loaded then Ok true
  else Ok (existsb (fun a => mid_eqb a (model_id p)) (available_models g)).

(** ** Gates *)

Notation feasibility_result :=
  (FeasibilityTier * list ConstraintFailure * option EvictionPlanSummary)%type.

Definition circuit_failure (p : Placement) : ConstraintFailure :=
  {| constraint := "circuit_breaker";
     details := {[ "circuit_open" := DBool true;
                   "model_id" := DStr (original (model_id p));
                   "retryable" := DBool true ]} |}.
Definition health_failure (g : Gateway) : ConstraintFailure :=
  {| constraint := "is_healthy"; details := {[ "health_score" := DFloat (health_score g) ]} |}.
Definition catalog_failure (g : Gateway) : ConstraintFailure :=
  {| constraint := "has_model_available";
     details := {[ "available_models" := DStrs (map original (take 5 (available_models g))) ]} |}.

Definition early_feasibility_gates (g : Gateway) (p : Placement)
    (is_gateway_available_fn : option (string -> string -> bool))
    : exn (option feasibility_result) :=
  let circuit_open := match is_gateway_available_fn with
    | Some f => negb (f (name g) (original (model_id p)))
    | None => false
    end in
  if circuit_open then Ok (Some (T0_INFEASIBLE, [circuit_failure p], None))
  else if flt (health_score g) (1 # 2) then Ok (Some (T0_INFEASIBLE, [health_failure g], None))
  else
    let? available := is_model_available g p in
    if negb available then Ok (Some (T0_INFEASIBLE, [catalog_failure g], None))
    else if gateway_is_cloud g then Ok (Some (T1_FEASIBLE_NOW, [], None))
    else
      let? loaded := is_model_loaded g p in
      if loaded then Ok (Some (T1_FEASIBLE_NOW, [], None))
      else if mmem (model_id p) (loading_models g) then Ok (Some (T1_FEASIBLE_NOW, [], None))
      else Ok None.

(** ** Evaluation *)

Definition COLD_LOAD_MIN_SLACK_MB : Z := 1024.
Definition CAPACITY_FAILURES : list string :=
  ["has_enough_vram"; "has_enough_ram"; "can_fit_with_eviction";
   "eviction_blocked_by_busy_models"]%string.

Definition mark_capacity_failures_structural (fs : list ConstraintFailure)
    (axis : string) (reclaimable : gmap string dval) : list ConstraintFailure :=
  map (fun f =>
    if bool_decide (constraint f ∈ CAPACITY_FAILURES) then
      {| constraint := constraint f;
         details := reclaimable ∪
           ({[ "retryable" := DBool false; "binding_axis" := DStr axis;
               "classification_basis" := DStr "reclaimable_resources" ]} ∪ details f) |}
    else f) fs.

Definition get_int (m : gmap string dval) (k : string) : Z :=
  match m !! k with Some (DInt z) => z | _ => 0 end.
Definition has_str (m : gmap string dval) (k v : string) : bool :=
  match m !! k with Some (DStr s) => bool_decide (s = v) | _ => false end.

(** The fields every eviction failure reports. *)
Definition gateway_details (g : Gateway) : gmap string dval :=
  {[ "vram_free" := DInt (vram_free_mb g); "vram_total" := DInt (vram_total_mb g);
     "ram_free" := DInt (ram_free_mb g); "ram_total" := DInt (ram_total_mb g);
     "loaded_count" := DInt (Z.of_nat (length (loaded_models g)));
     "busy_count" := DInt (Z.of_nat (length (busy_models g))) ]}.

Definition blocked_failure (g : Gateway) (basis : string) (reclaimable : gmap string dval)
    : ConstraintFailure :=
  {| constraint := "eviction_blocked_by_busy_models";
     details := reclaimable ∪
       ({[ "retryable" := DBool true; "classification_basis" := DStr basis ]}
        ∪ gateway_details g) |}.

Definition cannot_fit_failure (g : Gateway) (axis : string) (reclaimable : gmap string dval)
    : ConstraintFailure :=
  {| constraint := "can_fit_with_eviction";
     details := reclaimable ∪
       ({[ "retryable" := DBool false;
           "classification_basis" := DStr "reclaimable_resources";
           "binding_axis" := DStr axis;
           "deficit_mb" := DInt (get_int reclaimable (axis +:+ "_deficit_mb")) ]}
        ∪ gateway_details g) |}.

(** The failures when neither free nor evictable memory is enough. *)
Definition eviction_failures (c : PlanContext) (g : Gateway) (p : Placement)
    (resource_failure : option ConstraintFailure) (plan : option EvictionPlan)
    : list ConstraintFailure :=
  let failures := match resource_failure with Some f => [f] | None => [] end in
  let '(can_fit, reclaimable) := can_fit_after_eviction_including_busy c g p in
  let vram_structural := has_str reclaimable "verdict_class" "insufficient_structural" in
  let ram_structural := has_str reclaimable "ram_verdict_class" "insufficient_structural" in
  let axis0 := if vram_structural && ram_structural
    then if get_int reclaimable "vram_deficit_mb" <=? get_int reclaimable "ram_deficit_mb"
         then "ram"%string else "vram"%string
    else if ram_structural then "ram"%string else "vram"%string in
  let '(axis, reclaimable) := match plan with
    | Some (PlanAbort a) =>
        (axis_str (binding_axis a),
         {[ "binding_axis" := DStr (axis_str (binding_axis a));
            "deficit_mb" := DInt (deficit_mb a);
            "correction_basis" := DStr (basis_str (correction_basis a)) ]} ∪ reclaimable)
    | _ => (axis0, reclaimable)
    end in
  if can_fit then failures ++ [blocked_failure g "reclaimable_resources" reclaimable]
  else if vram_structural || ram_structural then
    mark_capacity_failures_structural failures axis reclaimable
      ++ [cannot_fit_failure g axis reclaimable]
  else failures ++ [blocked_failure g "verdict_class" reclaimable].

(** The cold-load branch: a gateway that fits but with little VRAM to spare,
    and idle models to evict instead. *)
Definition low_slack (c : PlanContext) (g : Gateway) (p : Placement) : bool :=
  match resolve_gateway_requirements g p with
  | inr _ => false
  | inl (gw_vram, gw_ram) =>
      match loaded_models g with
      | [] => false
      | _ =>
          negb (mmem (model_id p) (loaded_models g)) &&
          (let '(needed, _, _, _, _) := calculate_required_resources gw_vram gw_ram (pc_margins c) in
           let slack := vram_free_mb g - needed in
           (0 <? gw_vram) && (0 <=? slack) && (slack <? COLD_LOAD_MIN_SLACK_MB))
      end
  end.

Definition evaluate_feasibility (c : PlanContext)
    (is_gateway_available_fn : option (string -> string -> bool)) (g : Gateway) (p : Placement)
    : exn feasibility_result :=
  let? gate := early_feasibility_gates g p is_gateway_available_fn in
  match gate with
  | Some r => Ok r
  | None =>
      let '(has_resources, resource_failure) :=
        check_resources g p (pc_lookup c) (pc_margins c) in
      if has_resources then
        if low_slack c g p then
          match compute_eviction_plan c g p with
          | Some (PlanSummary s) => Ok (T2_FEASIBLE_EVICT, [], Some s)
          | _ => Ok (T1_FEASIBLE_NOW, [], None)
          end
        else Ok (T1_FEASIBLE_NOW, [], None)
      else
        let failures := match resource_failure with Some f => [f] | None => [] end in
        if existsb (fun f => bool_decide (constraint f = "missing_gateway_resource_data"%string))
             failures
        then Ok (T0_INFEASIBLE, failures, None)
        else match compute_eviction_plan c g p with
             | Some (PlanSummary s) => Ok (T2_FEASIBLE_EVICT, [], Some s)
             | pl => Ok (T0_INFEASIBLE, eviction_failures c g p resource_failure pl, None)
             end
  end.

Definition has_tier (t : FeasibilityTier) (r : exn feasibility_result) : bool :=
  match r with Ok (t', _, _) => bool_decide (t' = t) | Raise _ => false end.

(** ** Tiers *)

Lemma eviction_failures_ne c g p f pl : eviction_failures c g p f pl <> [].
Proof.
  unfold eviction_failures.
  destruct (can_fit_after_eviction_including_busy c g p) as [cf r].
  destruct (match pl with Some _ => _ | None => _ end) as [axis r'].
  repeat case_goal; intros E; apply app_eq_nil in E as [_ E]; discriminate.
Qed.

(** What the gates can decide. *)
Lemma gates_cases g p avail r :
  early_feasibility_gates g p avail = Ok (Some r) ->
  (exists f, r = (T0_INFEASIBLE, [f], None) /\
     constraint f ∈ ["circuit_breaker"; "is_healthy"; "has_model_available"]%string) \/
  (r = (T1_FEASIBLE_NOW, [], None) /\ (1 # 2 <= health_score g)%Q /\
   is_model_available g p = Ok true /\
   (gateway_is_cloud g = true \/ is_model_loaded g p = Ok true \/
    mmem (model_id p) (loading_models g) = true)).
Proof.
  unfold early_feasibility_gates. intros H.
  destruct (match avail with Some _ => _ | None => _ end).
  { injection H as <-. left. eexists. split; [done|]. left. }
  destruct (flt (health_score g) (1 # 2)) eqn:Eh.
  { injection H as <-. left. eexists. split; [done|]. right; left. }
  q_prop. inv_bind H. destruct a; simpl in H.
  2: { injection H as <-. left. eexists. split; [done|]. right; right; left. }
  destruct (gateway_is_cloud g) eqn:Ec.
  { injection H as <-. right. tauto. }
  inv_bind H. destruct a; simpl in H.
  { injection H as <-. right. tauto. }
  destruct (mmem (model_id p) (loading_models g)) eqn:El; [|done].
  injection H as <-. right. tauto.
Qed.

Lemma gates_none g p avail :
  early_feasibility_gates g p avail = Ok None ->
  (1 # 2 <= health_score g)%Q /\ is_model_available g p = Ok true.
Proof.
  unfold early_feasibility_gates. intros H.
  destruct (match avail with Some _ => _ | None => _ end); [done|].
  destruct (flt (health_score g) (1 # 2)) eqn:Eh; [done|]. q_prop. split; [done|].
  inv_bind H. by destruct a.
Qed.

(** Every way an evaluation can end. *)
Lemma evaluate_cases c avail g p r :
  evaluate_feasibility c avail g p = Ok r ->
  let check := check_resources g p (pc_lookup c) (pc_margins c) in
  let plan := compute_eviction_plan c g p in
  early_feasibility_gates g p avail = Ok (Some r) \/
  early_feasibility_gates g p avail = Ok None /\
  (r = (T1_FEASIBLE_NOW, [], None) /\ fst check = true \/
   (exists s, plan = Some (PlanSummary s) /\ r = (T2_FEASIBLE_EVICT, [], Some s)) \/
   (exists f, snd check = Some f /\ r = (T0_INFEASIBLE, [f], None) /\
      constraint f = "missing_gateway_resource_data"%string) \/
   (exists f, snd check = Some f /\
      r = (T0_INFEASIBLE, eviction_failures c g p (Some f) plan, None))).
Proof.
  unfold evaluate_feasibility. intros H. inv_bind H.
  destruct a as [r'|]; [left; congruence|]. right. split; [done|].
  pose proof (check_resources_failure g p (pc_lookup c) (pc_margins c)) as Hf.
  destruct (check_resources _ _ _ _) as [b rf]. simpl in *. destruct b.
  - destruct (low_slack c g p); [|naive_solver].
    destruct (compute_eviction_plan c g p) as [[s|]|]; naive_solver.
  - destruct (proj2 Hf eq_refl) as [f ->]. simpl in H. rewrite orb_false_r in H.
    destruct (bool_decide _) eqn:E; to_prop; [naive_solver|].
    destruct (compute_eviction_plan c g p) as [[s|]|]; simplify_eq; eauto 8.
Qed.

(** The tier invariants of the docstring.  T0 carries at least one
    failure and no plan; T1 carries neither; T2 carries no failure and the
    plan the planner computed, which names at least one model. *)
Theorem feasibility_tier_invariants c avail g p tier fs plan :
  evaluate_feasibility c avail g p = Ok (tier, fs, plan) ->
  match tier with
  | T0_INFEASIBLE => fs <> [] /\ plan = None
  | T1_FEASIBLE_NOW => fs = [] /\ plan = None
  | T2_FEASIBLE_EVICT => fs = [] /\ exists s, plan = Some s /\ models_to_evict s <> [] /\
      compute_eviction_plan c g p = Some (PlanSummary s)
  end.
Proof.
  intros H. apply evaluate_cases in H as [H|(_ & H)].
  { apply gates_cases in H as [(f & [= -> -> ->] & _)|([= -> -> ->] & _)]; done. }
  destruct H as [([= -> -> ->] & _)|[(s & Hp & [= -> -> ->])|[(f & _ & [= -> -> ->] & _)|(f & _ & [= -> -> ->])]]];
    [done | | done | by split; [apply eviction_failures_ne|]].
  split; [done|]. exists s. by destruct (plan_victims_sub c g p s Hp).
Qed.

Lemma feasibility_tier_invariants_witness :
  let p := sample_placement (sample_id "model-a") 9000 2000 in
  match evaluate_feasibility sample_ctx None sample_full_gateway p with
  | Ok (T2_FEASIBLE_EVICT, fs, plan) => fs = [] /\ is_Some plan
  | _ => False
  end.
Proof.
  intros p.
  assert (Ht : has_tier T2_FEASIBLE_EVICT
    (evaluate_feasibility sample_ctx None sample_full_gateway p) = true)
    by (vm_compute; reflexivity).
  destruct (evaluate_feasibility _ _ _ _) as [[[tier fs] plan]|] eqn:E; [|discriminate].
  apply bool_decide_eq_true in Ht as ->.
  destruct (feasibility_tier_invariants sample_ctx None sample_full_gateway p _ _ _ E)
    as (-> & s & -> & _). by split; [|eexists].
Defined.

(** T1 means what it says: a gateway is classified "feasible now" only
    if it is healthy and lists the model, and it is a cloud gateway, has the
    model resident, is loading it, or has the free memory for it after the
    reservation for models still loading. *)
Theorem t1_sound c avail g p fs plan :
  evaluate_feasibility c avail g p = Ok (T1_FEASIBLE_NOW, fs, plan) ->
  (1 # 2 <= health_score g)%Q /\ is_model_available g p = Ok true /\
  (gateway_is_cloud g = true \/ is_model_loaded g p = Ok true \/
   mmem (model_id p) (loading_models g) = true \/
   fst (check_resources g p (pc_lookup c) (pc_margins c)) = true).
Proof.
  intros H. apply evaluate_cases in H as [H|(Hg & H)].
  { apply gates_cases in H as [(f & [=] & _)|(_ & ? & ? & ?)]; tauto. }
  apply gates_none in Hg as [??].
  destruct H as [(_ & Hc)|[(s & _ & [=])|[(f & _ & [=] & _)|(f & _ & [=])]]]. tauto.
Qed.

Lemma t1_sound_witness :
  let a := sample_id "model-a" in
  let g := sample_gateway "edge" 20000 24000 30000 64000 [] [] [] [(a, (9000, 2000))] in
  (1 # 2 <= health_score g)%Q /\ is_model_available g (sample_placement a 9000 2000) = Ok true.
Proof.
  intros a g.
  destruct (t1_sound sample_ctx None g (sample_placement a 9000 2000) [] None eq_refl) as (H1 & H2 & _).
  by split.
Defined.

(** ** Retryability *)

Lemma diagnostics_no_retryable c g p :
  snd (can_fit_after_eviction_including_busy c g p) !! "retryable" = None.
Proof.
  unfold can_fit_after_eviction_including_busy.
  destruct (resolve_gateway_requirements g p) as [[gv gr]|]; [|done].
  destruct (loading_reservation g p (pc_lookup c)) as [[[vr rr] ds]|]; [|done].
  simpl. rewrite !lookup_union_None. repeat split; reflexivity.
Qed.

Lemma retryable_union m f k :
  m !! "retryable" = None ->
  retryable {| constraint := k; details := m ∪ f |} = retryable {| constraint := k; details := f |}.
Proof. intros H. unfold retryable. simpl. by rewrite lookup_union_r. Qed.

(** What an evaluation that had to look at eviction reports. *)
Definition fail_closed (fs : list ConstraintFailure) : Prop :=
  (exists f, f ∈ fs /\ constraint f = "eviction_blocked_by_busy_models"%string /\
             retryable f = Some true) \/
  ((exists f, f ∈ fs /\ constraint f = "can_fit_with_eviction"%string) /\
   forall f, f ∈ fs -> constraint f ∈ CAPACITY_FAILURES -> retryable f = Some false).

Lemma eviction_failures_closed c g p f pl : fail_closed (eviction_failures c g p f pl).
Proof.
  unfold eviction_failures. pose proof (diagnostics_no_retryable c g p) as Hr.
  destruct (can_fit_after_eviction_including_busy c g p) as [cf r]. simpl in Hr.
  match goal with |- context [match pl with Some _ => _ | None => (?a, r) end] =>
    set (axis0 := a) end.
  assert (Hr' : snd (match pl with
    | Some (PlanAbort a) => (axis_str (binding_axis a),
         {[ "binding_axis" := DStr (axis_str (binding_axis a));
            "deficit_mb" := DInt (deficit_mb a);
            "correction_basis" := DStr (basis_str (correction_basis a)) ]} ∪ r)
    | _ => (axis0, r) end) !! "retryable" = None).
  { destruct pl as [[|a]|]; simpl; [done| |done]. by rewrite lookup_union_r. }
  destruct (match pl with Some _ => _ | None => _ end) as [axis r']. simpl in Hr'.
  assert (Hb : forall basis fs, fail_closed (fs ++ [blocked_failure g basis r'])).
  { intros basis fs. left. exists (blocked_failure g basis r').
    split; [apply elem_of_app; right; left|]. split; [done|].
    unfold blocked_failure. by rewrite retryable_union. }
  destruct cf; [apply Hb|]. destruct (_ || _); [|apply Hb].
  right. split.
  { exists (cannot_fit_failure g axis r'). split; [apply elem_of_app; right; left|done]. }
  intros x [Hx|Hx]%elem_of_app Hk.
  - unfold mark_capacity_failures_structural in Hx. apply list_elem_of_fmap in Hx as (y & -> & _).
    destruct (bool_decide (constraint y ∈ CAPACITY_FAILURES)) eqn:Ey; to_prop; [|done].
    rewrite retryable_union by done. unfold retryable. simpl.
    by rewrite (lookup_union_Some_l _ _ _ (DBool false)).
  - apply list_elem_of_singleton in Hx as ->. unfold cannot_fit_failure. by rewrite retryable_union.
Qed.

(** A gateway rejected after the eviction analysis says unambiguously
    whether waiting helps.  Either it reports a retryable
    [eviction_blocked_by_busy_models], or it reports [can_fit_with_eviction]
    and every capacity failure of the list, the resource check's own
    included, is stamped not retryable. *)
Theorem rejection_fail_closed c g p fs plan :
  early_feasibility_gates g p None = Ok None ->
  is_Some (model_details g !! mkey (model_id p)) ->
  evaluate_feasibility c None g p = Ok (T0_INFEASIBLE, fs, plan) -> fail_closed fs.
Proof.
  intros Hg Hd H. apply evaluate_cases in H as [H|(_ & H)]; [congruence|].
  destruct H as [([=] & _)|[(s & _ & [=])|[(f & Hf & _ & Hm)|(f & _ & [= -> ->])]]];
    [|apply eviction_failures_closed].
  exfalso. revert Hf Hm. unfold check_resources, resolve_gateway_requirements.
  destruct Hd as [d ->]. unfold calculate_required_resources.
  repeat case_goal; simpl; intros; simplify_eq; done.
Qed.

Lemma rejection_fail_closed_witness :
  let a := sample_id "model-a" in
  let g := sample_gateway "edge" 20000 24000 30000 64000 [] [] [] [(a, (90000, 2000))] in
  match evaluate_feasibility sample_ctx None g (sample_placement a 90000 2000) with
  | Ok (T0_INFEASIBLE, fs, plan) => fail_closed fs
  | _ => False
  end.
Proof.
  intros a g.
  assert (Ht : has_tier T0_INFEASIBLE
    (evaluate_feasibility sample_ctx None g (sample_placement a 90000 2000)) = true)
    by (vm_compute; reflexivity).
  destruct (evaluate_feasibility _ _ _ _) as [[[tier fs] plan]|] eqn:E; [|discriminate].
  apply bool_decide_eq_true in Ht as ->.
  apply (rejection_fail_closed sample_ctx g (sample_placement a 90000 2000) fs plan);
    [reflexivity | by eexists | exact E].
Defined.

Lemma evaluate_ok c avail g p :
  is_ok (original_parsed p) = true -> is_ok (evaluate_feasibility c avail g p) = true.
Proof.
  intros H. assert (Hl : exists b, is_model_loaded g p = Ok b).
  { unfold is_model_loaded. destruct (original_parsed p); [|done]. by eexists. }
  destruct Hl as [b Hl].
  assert (Ha : exists b', is_model_available g p = Ok b').
  { unfold is_model_available. rewrite Hl. simpl. destruct b; by eexists. }
  destruct Ha as [b' Ha].
  unfold evaluate_feasibility, early_feasibility_gates. rewrite Ha. simpl. rewrite Hl. simpl.
  repeat (case_goal; simpl; try done).
Qed.
