(* ===== verification/Scoring.v ===== *)
(** * Policy, stability and utility scores

    Affinity rules and the routing policy ([selection/decision/config.py]),
    sticky bindings ([stability.py]) and the utility score ([scorer.py]).
    [re.compile(p, re.IGNORECASE).match(s)] is modelled for the patterns that
    globs compile to (literals, [.], [.*] and a final [$]); for other regular
    expressions it is the variable [re_match].  [random.uniform(0.0, 0.5)] and
    [time.time()] are the arguments [jitter] and [now]. *)
From stdpp Require Import base gmap list strings.
From Stdlib Require Import Ascii ZArith QArith Lia Lqa.
From S2P Require Import Prelude PyFloat PyString ModelId RoutingTypes Admission Eviction Feasibility.
Local Open Scope Z_scope.

(** ** Policy *)

Record RoutingPolicy := mkPolicy {
  eviction_margin : Q;
  telemetry_max_age_ms : Z;
  telemetry_refresh_timeout_s : Q;
  capacity_acquire_timeout_s : Q;
  weights : ScoringWeights;
  affinity_rules : list AffinityRule;
  emit_decision_traces : bool;
  include_candidate_details : bool;
  default_sticky : bool;
  sticky_overrides : gmap string bool;
  resource_margins : margins_t;
  non_sticky_overflow_enabled : bool;
  non_sticky_overflow_queue_threshold : Z
}.

Definition default_weights : ScoringWeights := {|
  w_affinity := 50; w_warm := 15; w_slack := 10; w_contention := 20; w_staleness := 0;
  w_stability := 5; eviction_base := -30; eviction_per_model := -20;
  w_empty_gateway := 300; w_busy_models := 20 |}.

Definition default_policy : RoutingPolicy := {|
  eviction_margin := 10; telemetry_max_age_ms := 2000; telemetry_refresh_timeout_s := 1;
  capacity_acquire_timeout_s := 30; weights := default_weights; affinity_rules := [];
  emit_decision_traces := true; include_candidate_details := false; default_sticky := true;
  sticky_overrides := ∅; resource_margins := ∅; non_sticky_overflow_enabled := true;
  non_sticky_overflow_queue_threshold := 1 |}.

(** [AffinityRule.__post_init__]: the pattern of a rule with wildcards. *)
Definition star : ascii := "*"%char.
Definition qmark : ascii := "?"%char.
Definition caret : ascii := "^"%char.
Definition dollar : ascii := "$"%char.
Definition dot : ascii := "."%char.
Definition newline : ascii := "010"%char.

Definition is_pattern_rule (s : string) : bool :=
  existsb (fun c => Ascii.eqb c star || Ascii.eqb c qmark) (chars s) || starts_with "^" s.

(** [match.replace("*", ".*").replace("?", ".")] *)
Definition glob_chars (l : list ascii) : list ascii :=
  flat_map (fun c => if Ascii.eqb c star then [dot; star]
                     else if Ascii.eqb c qmark then [dot] else [c]) l.

Definition compiled_pattern (s : string) : option string :=
  if is_pattern_rule s then
    let p := unchars (glob_chars (chars s)) in
    Some (if starts_with "^" p then p else "^" +:+ p +:+ "$")
  else None.

(** The regular expressions in use: [^], then literals, [.] and [.*], then
    perhaps [$]. *)
Inductive ReTok := TChr (c : ascii) | TAny | TStar | TEnd.

Definition special (c : ascii) : bool :=
  existsb (Ascii.eqb c) (chars "\[](){}|+*?^$").

Fixpoint re_tokens (l : list ascii) : option (list ReTok) :=
  match l with
  | [] => Some []
  | c :: l' =>
      if Ascii.eqb c dot then
        match l' with
        | c' :: l'' => if Ascii.eqb c' star then cons TStar <$> re_tokens l''
                       else cons TAny <$> re_tokens l'
        | [] => Some [TAny]
        end
      else match l' with
           | [] => if Ascii.eqb c dollar then Some [TEnd]
                   else if special c then None else Some [TChr c]
           | _ => if special c then None else cons (TChr c) <$> re_tokens l'
           end
  end.

(** Does a match start here?  [$] also matches before a final newline, [.]
    matches no newline, letters match in either case. *)
Fixpoint re_here (ts : list ReTok) (l : list ascii) : bool :=
  match ts with
  | [] => true
  | TEnd :: ts' =>
      match l with
      | [] => re_here ts' l
      | [c] => Ascii.eqb c newline && re_here ts' l
      | _ => false
      end
  | TChr c :: ts' =>
      match l with
      | x :: l' => Ascii.eqb (lower_char x) (lower_char c) && re_here ts' l'
      | [] => false
      end
  | TAny :: ts' =>
      match l with x :: l' => negb (Ascii.eqb x newline) && re_here ts' l' | [] => false end
  | TStar :: ts' =>
      (fix any (l : list ascii) : bool :=
         re_here ts' l || match l with
                          | x :: l' => negb (Ascii.eqb x newline) && any l'
                          | [] => false
                          end) l
  end.

Section Affinity.
Context (re_match : string -> string -> bool).

(** [re.compile(pat, re.IGNORECASE).match(s)] *)
Definition pattern_match (pat s : string) : bool :=
  match chars pat with
  | c :: l => if Ascii.eqb c caret then
                match re_tokens l with
                | Some ts => re_here ts (chars s)
                | None => re_match pat s
                end
              else re_match pat s
  | [] => re_match pat s
  end.

(** [AffinityRule.matches] on a [ModelId]. *)
Definition matches (r : AffinityRule) (m : ModelId) : bool :=
  match compiled_pattern (match_ r) with
  | Some pat => pattern_match pat (original m)
  | None =>
      match parse (match_ r) with
      | Ok rm => mid_eqb m rm
      | Raise _ => bool_decide (match_ r = original m)
      end
  end.

(** [AffinityRule.matches] on a string. *)
Definition matches_str (r : AffinityRule) (s : string) : bool :=
  match parse s with
  | Ok m => matches r m
  | Raise _ => bool_decide (match_ r = s)
  end.

Fixpoint find_first (f : AffinityRule -> bool) (l : list AffinityRule) : option AffinityRule :=
  match l with
  | [] => None
  | r :: l' => if f r then Some r else find_first f l'
  end.

Definition find_affinity (pol : RoutingPolicy) (m : ModelId) : option AffinityRule :=
  find_first (fun r => matches r m) (affinity_rules pol).

Definition is_hard (r : AffinityRule) : bool :=
  match strength r with HARD => true | SOFT => false end.

Definition find_hard_affinity (pol : RoutingPolicy) (m : ModelId) : option AffinityRule :=
  match find_affinity pol m with
  | Some r => if is_hard r then Some r else None
  | None => None
  end.

End Affinity.

(** [RoutingPolicy.is_sticky]: exact id first, then the normalized one. *)
Definition sticky_lookup (pol : RoutingPolicy) (exact norm : string) : bool :=
  match sticky_overrides pol !! exact with
  | Some b => b
  | None => match sticky_overrides pol !! norm with
            | Some b => b
            | None => default_sticky pol
            end
  end.

Definition is_sticky (pol : RoutingPolicy) (m : ModelId) : bool :=
  sticky_lookup pol (original m) (normalized m).

Definition is_sticky_str (pol : RoutingPolicy) (s : string) : bool :=
  sticky_lookup pol s (match parse s with Ok m => normalized m | Raise _ => s end).

(** ** Sticky bindings: [StickyPlacementTracker] *)

Notation bindings_t := (gmap mkey_t string).

Definition get_current_best (b : bindings_t) (m : ModelId) : option string := b !! mkey m.
Definition update_binding (m : ModelId) (gw : string) (b : bindings_t) : bindings_t :=
  <[mkey m := gw]> b.
Definition clear_binding (m : ModelId) (b : bindings_t) : bindings_t := delete (mkey m) b.
Definition clear_all (b : bindings_t) : bindings_t := ∅.
Definition binding_count (b : bindings_t) : nat := size b.

(** ** Score components *)

(** [scorer._is_model_loaded]: unlike the residency check of the gates it
    does not look at [loading_models]. *)
Definition scorer_is_model_loaded (g : Gateway) (p : Placement) : exn bool :=
  let? o := original_parsed p in
  Ok (match o with Some om => mmem om (loaded_models g) | None => false end
      || mmem (model_id p) (loaded_models g)).

Definition scorer_is_model_loading (g : Gateway) (p : Placement) : exn bool :=
  let? o := original_parsed p in
  Ok (match o with Some om => mmem om (loading_models g) | None => false end
      || mmem (model_id p) (loading_models g)).

Definition calculate_slack_score (g : Gateway) (plan : option EvictionPlanSummary)
    (gw_vram gw_ram : Z) : Q :=
  let slack :=
    if 0 <? gw_vram
    then vram_free_mb g + match plan with Some s => freed_vram_mb s | None => 0 end - gw_vram
    else ram_free_mb g + match plan with Some s => freed_ram_mb s | None => 0 end
         - py_int (fmul (of_int gw_ram) (rnd (110 # 100))) in
  fmax 0 (fmin 10 (fdiv (of_int slack) 1000)).

Definition calculate_contention_score (g : Gateway) : Q :=
  fmax 0 (fsub 10 (fdiv (of_int (active_requests g)) 10)).

(** Raises for a zero [telemetry_max_age_ms] and stale telemetry. *)
Definition calculate_staleness_score (now : Q) (g : Gateway) (max_age : Z) : exn Q :=
  if feq (telemetry_timestamp g) 0 then Ok 0%Q
  else
    let age_ms := telemetry_age_ms now g in
    if age_ms <=? max_age then Ok 0%Q
    else if max_age =? 0 then Raise ZeroDivisionError
    else Ok (fmin 10 (fmul (rnd (inject_Z (age_ms - max_age) / inject_Z max_age)) 10)).

Definition busy_models_score (g : Gateway) (warm : bool) : Q :=
  if warm then 0%Q
  else let busy := Z.of_nat (length (busy_models g) + length (loading_models g)) in
       fmax 0 (fsub 10 (of_int (Z.min busy 10))).

Definition affinity_score (g : Gateway) (rule : option AffinityRule) : Q :=
  match rule with
  | Some r => if bool_decide (node r = node_id g) then bonus r else 0%Q
  | None => 0%Q
  end.

(** [sticky and current_best and gateway.name == current_best] *)
Definition stability_score (g : Gateway) (current_best : option string) (sticky : bool) : Q :=
  match current_best with
  | Some b => if sticky && negb (bool_decide (b = ""%string)) && bool_decide (name g = b)
              then 1%Q else 0%Q
  | None => 0%Q
  end.

Definition eviction_score (w : ScoringWeights) (t : FeasibilityTier)
    (plan : option EvictionPlanSummary) : Q :=
  match t, plan with
  | T2_FEASIBLE_EVICT, Some s =>
      fadd (eviction_base w)
           (fmul (eviction_per_model w) (of_int (Z.of_nat (length (models_to_evict s)))))
  | _, _ => 0%Q
  end.

(** [calculate_utility]: (components, weighted_total). *)
Definition calculate_utility (now jitter : Q) (g : Gateway) (p : Placement) (pol : RoutingPolicy)
    (t : FeasibilityTier) (plan : option EvictionPlanSummary) (rule : option AffinityRule)
    (current_best : option string) (sticky : bool) : exn (ScoreComponents * Q) :=
  let w := weights pol in
  let? loaded := scorer_is_model_loaded g p in
  let? loading := scorer_is_model_loading g p in
  let warm := loaded || (sticky && loading) in
  let '(gw_vram, gw_ram) := match resolve_gateway_requirements g p with
    | inr _ => (vram_mb p, ram_mb p)
    | inl r => r
    end in
  let? staleness := calculate_staleness_score now g (telemetry_max_age_ms pol) in
  let empty := if negb warm && (length (loaded_models g) + length (loading_models g) =? 0)%nat
               then 1%Q else 0%Q in
  let loading_penalty := if negb sticky && negb loaded && loading then (-1000)%Q else 0%Q in
  let warm_jitter := if negb sticky && loaded then jitter else 0%Q in
  let components := {|
    sc_affinity := affinity_score g rule;
    sc_warm := if warm then 100%Q else 0%Q;
    sc_slack := calculate_slack_score g plan gw_vram gw_ram;
    sc_contention := calculate_contention_score g;
    sc_staleness := staleness;
    sc_stability := stability_score g current_best sticky;
    sc_eviction := eviction_score w t plan;
    sc_empty_gateway := empty;
    sc_busy_models := busy_models_score g warm |} in
  Ok (components, fadd (fadd (total components w) loading_penalty) warm_jitter).

(** ** Policy lookups *)

Lemma find_first_spec f l r :
  find_first f l = Some r <->
  exists l1 l2, l = l1 ++ r :: l2 /\ f r = true /\ forall x, x ∈ l1 -> f x = false.
Proof.
  induction l as [|y l IH]; simpl.
  { split; [done|]. intros ([|] & ? & ? & _); done. }
  destruct (f y) eqn:E.
  - split.
    + intros [= ->]. exists [], l. repeat split; try done. intros x Hx. inversion Hx.
    + intros ([|z l1] & l2 & Hl & Hr & Hn); simplify_eq/=; [done|].
      rewrite Hn in E by constructor. done.
  - rewrite IH. split.
    + intros (l1 & l2 & -> & Hr & Hn). exists (y :: l1), l2. repeat split; try done.
      intros x [->|Hx]%elem_of_cons; auto.
    + intros ([|z l1] & l2 & Hl & Hr & Hn); simplify_eq/=; [congruence|].
      exists l1, l2. repeat split; try done. intros x Hx. apply Hn. by constructor.
Qed.

(** ** Globs *)

(** What a wildcard rule says: [*] is any text, [?] any character, every other
    character stands for itself in either case, except that a dot, which is not
    escaped, stands for any character too. *)
Inductive glob : list ascii -> list ascii -> Prop :=
  | glob_nil : glob [] []
  | glob_star p s l : glob p l -> glob (star :: p) (s ++ l)
  | glob_any p c x l : c = qmark \/ c = dot -> glob p l -> glob (c :: p) (x :: l)
  | glob_chr p c x l : c <> star -> c <> qmark -> c <> dot -> lower_char x = lower_char c ->
      glob p l -> glob (c :: p) (x :: l).

Definition glob_char (c : ascii) : bool :=
  Ascii.eqb c star || Ascii.eqb c qmark || negb (special c).
Definition token_of (c : ascii) : ReTok :=
  if Ascii.eqb c star then TStar
  else if Ascii.eqb c qmark || Ascii.eqb c dot then TAny else TChr c.

Lemma glob_chars_head p : exists c l, glob_chars p ++ [dollar] = c :: l /\ c <> star.
Proof.
  destruct p as [|c p]; simpl; [by exists dollar, []|].
  destruct (Ascii.eqb c star) eqn:E; simpl; [by eexists _, _|].
  destruct (Ascii.eqb c qmark); simpl; [by eexists _, _|].
  eexists _, _. split; [done|]. by apply Ascii.eqb_neq.
Qed.

Lemma tokens_glob p : forallb glob_char p = true ->
  re_tokens (glob_chars p ++ [dollar]) = Some (map token_of p ++ [TEnd]).
Proof.
  induction p as [|c p IH]; [done|]. simpl. intros [Hc Hp]%andb_true_iff. specialize (IH Hp).
  destruct (glob_chars_head p) as (h & t & Eh & Hh). apply Ascii.eqb_neq in Hh.
  unfold token_of at 1. destruct (Ascii.eqb c star) eqn:Es; simpl; [by rewrite IH|].
  destruct (Ascii.eqb c qmark) eqn:Eq; simpl.
  - rewrite Eh in IH |- *. by rewrite Hh, IH.
  - unfold glob_char in Hc. rewrite Es, Eq in Hc. simpl in Hc. apply negb_true_iff in Hc.
    rewrite Eh in IH |- *. destruct (Ascii.eqb c dot); [by rewrite Hh, IH | by rewrite Hc, IH].
Qed.

Lemma re_here_star ts l : newline ∉ l ->
  re_here (TStar :: ts) l = true <-> exists s l', l = s ++ l' /\ re_here ts l' = true.
Proof.
  simpl. induction l as [|x l IH]; intros Hn.
  - rewrite orb_false_r. split; [by exists [], []|]. intros (s & l' & E & H).
    symmetry in E. by apply app_eq_nil in E as [-> ->].
  - apply not_elem_of_cons in Hn as [Hx Hn]. specialize (IH Hn).
    rewrite orb_true_iff, andb_true_iff, IH. split.
    + intros [H|[_ (s & l' & -> & H)]]; [by exists [], (x :: l) | by exists (x :: s), l'].
    + intros ([|y s] & l' & E & H); simpl in E; [left; by subst|]. injection E as -> ->. right.
      split; [|by eexists _, _]. apply negb_true_iff, Ascii.eqb_neq. congruence.
Qed.

Lemma re_here_glob p l : newline ∉ l ->
  re_here (map token_of p ++ [TEnd]) l = true <-> glob p l.
Proof.
  revert l. induction p as [|c p IH]; intros l Hn.
  - destruct l as [|x [|y l]]; simpl; [by split; [constructor|] | |]; split; try by inversion 1.
    rewrite andb_true_r. intros ->%Ascii.eqb_eq. exfalso. apply Hn. by left.
  - change (map token_of (c :: p) ++ [TEnd]) with (token_of c :: map token_of p ++ [TEnd]).
    unfold token_of at 1. destruct (Ascii.eqb_spec c star) as [->|Hs].
    { rewrite re_here_star by done. split.
      - intros (s & l' & -> & H). apply IH in H; [by constructor|].
        intros Hin. apply Hn, elem_of_app. by right.
      - inversion 1 as [|? s l' Hg|? ? ? ? Hc|]; subst; [|by destruct Hc|done]. exists s, l'. split; [done|].
        apply IH; [|done]. intros Hin. apply Hn, elem_of_app. by right. }
    assert (Htl : forall x l', l = x :: l' -> x <> newline /\ newline ∉ l')
      by (intros x l' ->; apply not_elem_of_cons in Hn as [? ?]; done).
    destruct (Ascii.eqb_spec c qmark) as [Hq|Hq]; [|destruct (Ascii.eqb_spec c dot) as [Hd|Hd]]; simpl.
    all: destruct l as [|x l]; [split; [done | by inversion 1]|].
    all: destruct (Htl x l eq_refl) as [Hx Hl]; apply Ascii.eqb_neq in Hx;
      rewrite ?Hx, andb_true_iff, IH by done.
    1-2: split; [intros [_ H]; apply glob_any; tauto|]; inversion 1; subst; done.
    split; [intros [He%Ascii.eqb_eq H]; by apply glob_chr|]. inversion 1; subst; [done | tauto |].
    split; [by apply Ascii.eqb_eq | done].
Qed.

Lemma starts_caret c l : starts_with "^" (unchars (c :: l)) = Ascii.eqb caret c.
Proof.
  unfold starts_with. rewrite chars_unchars. change (chars "^") with [caret]. cbn [strip_prefix].
  by destruct (Ascii.eqb caret c).
Qed.

(** A wildcard rule without other regular-expression characters matches
    exactly the model ids that its glob describes, in either case and over the
    whole id; its dots match any character. *)
Theorem glob_rule_matches re r m :
  is_pattern_rule (match_ r) = true -> forallb glob_char (chars (match_ r)) = true ->
  newline ∉ chars (original m) ->
  matches re r m = true <-> glob (chars (match_ r)) (chars (original m)).
Proof.
  intros Hp Hg Hn. unfold matches, compiled_pattern. rewrite Hp.
  assert (Hc : starts_with "^" (unchars (glob_chars (chars (match_ r)))) = false).
  { destruct (chars (match_ r)) as [|c l]; [done|]. apply andb_true_iff in Hg as [Hg _].
    cbn [glob_chars flat_map]. destruct (Ascii.eqb c star); [cbn [app]; by rewrite starts_caret|].
    destruct (Ascii.eqb c qmark); cbn [app]; rewrite starts_caret; [done|].
    destruct (Ascii.eqb_spec caret c) as [<-|]; [by vm_compute in Hg | done]. }
  rewrite Hc. unfold pattern_match. rewrite !chars_app, chars_unchars.
  change (chars "^") with [caret]. change (chars "$") with [dollar]. simpl.
  rewrite tokens_glob by done. by apply re_here_glob.
Qed.

Definition sample_rule (pat : string) : AffinityRule := mkRule pat "edge" HARD 50 true.

Lemma glob_rule_matches_witness :
  matches (fun _ _ => false) (sample_rule "hermes3-*") (sample_id "Hermes3-70b") = true.
Proof.
  apply (glob_rule_matches (fun _ _ => false) (sample_rule "hermes3-*") (sample_id "Hermes3-70b")).
  - vm_compute. reflexivity.
  - vm_compute. reflexivity.
  - intros H. apply list_elem_of_In in H. vm_compute in H. intuition discriminate.
  - apply re_here_glob; [|vm_compute; reflexivity].
    intros H. apply list_elem_of_In in H. vm_compute in H. intuition discriminate.
Defined.

(** A rule written as a regular expression is rewritten like a glob, so its
    [.*] wants at least one character. *)
Example regex_rule_rewritten :
  matches (fun _ _ => false) (sample_rule "^qwen.*$") (sample_id "qwen") = false /\
  matches (fun _ _ => false) (sample_rule "^qwen.*$") (sample_id "qwen3") = true.
Proof. vm_compute. split; reflexivity. Qed.

(** The hard affinity of a model is its first matching rule, provided
    that rule is hard: a hard rule behind an earlier matching soft rule has
    no effect. *)
Lemma hard_affinity_first_match re pol m r :
  find_hard_affinity re pol m = Some r <->
  exists l1 l2, affinity_rules pol = l1 ++ r :: l2 /\ matches re r m = true /\
    is_hard r = true /\ (forall x, x ∈ l1 -> matches re x m = false).
Proof.
  unfold find_hard_affinity, find_affinity.
  destruct (find_first _ _) as [r'|] eqn:E.
  - apply find_first_spec in E as (l1 & l2 & Hl & Hm & Hn). split.
    + destruct (is_hard r') eqn:Eh; [|done]. intros [= <-]. exists l1, l2. done.
    + intros (l1' & l2' & Hl' & Hm' & Hh & Hn').
      assert (E' : find_first (fun r => matches re r m) (affinity_rules pol) = Some r)
        by (apply find_first_spec; by exists l1', l2').
      assert (E : find_first (fun r => matches re r m) (affinity_rules pol) = Some r')
        by (apply find_first_spec; by exists l1, l2).
      rewrite E in E'. injection E' as <-. by rewrite Hh.
  - split; [done|]. intros (l1 & l2 & Hl & Hm & _ & Hn).
    assert (E' : find_first (fun r => matches re r m) (affinity_rules pol) = Some r)
      by (apply find_first_spec; by exists l1, l2). congruence.
Qed.

(** ** Score facts *)

Lemma slack_score_range g plan v r :
  (0 <= calculate_slack_score g plan v r <= 10)%Q.
Proof.
  unfold calculate_slack_score. cbv zeta. split; [apply fmax_l|].
  apply fmax_case; [lra | apply fmin_l].
Qed.

Lemma contention_score_range g : 0 <= active_requests g ->
  (0 <= calculate_contention_score g <= 10)%Q.
Proof.
  intros H. unfold calculate_contention_score. split; [apply fmax_l|].
  apply fmax_case; [lra|]. apply (rnd_le_int 10); [lia|]. change (inject_Z 10) with 10%Q.
  enough (0 <= fdiv (of_int (active_requests g)) 10)%Q by lra.
  apply rnd_nonneg. unfold Qdiv. change (/ 10)%Q with (1 # 10).
  pose proof (rnd_nonneg _ (inject_nonneg _ H)). unfold of_int. lra.
Qed.

Lemma busy_score_range g warm : (0 <= busy_models_score g warm <= 10)%Q.
Proof.
  unfold busy_models_score. destruct warm; [lra|]. cbv zeta.
  split; [apply fmax_l|]. apply fmax_case; [lra|].
  apply (rnd_le_int 10); [lia|]. change (inject_Z 10) with 10%Q.
  match goal with |- context [of_int ?z] =>
    pose proof (rnd_nonneg (inject_Z z) (inject_nonneg z ltac:(lia))) end.
  unfold of_int. lra.
Qed.

Lemma staleness_score_range now g m s : 0 < m ->
  calculate_staleness_score now g m = Ok s -> (0 <= s <= 10)%Q.
Proof.
  unfold calculate_staleness_score. intros Hm.
  destruct (feq _ 0); [intros [= <-]; lra|].
  destruct (telemetry_age_ms now g <=? m) eqn:Ea; [intros [= <-]; lra|].
  destruct (m =? 0); [done|]. intros [= <-]. to_prop.
  split; [|apply fmin_l]. apply fmin_case; [lra|].
  apply rnd_nonneg. apply Qmult_le_0_compat; [|lra]. apply rnd_nonneg.
  apply Qle_shift_div_l.
  - by rewrite <- (Zlt_Qlt 0).
  - pose proof (inject_nonneg (telemetry_age_ms now g - m) ltac:(lia)). lra.
Qed.

Section Utility.
Context (now jitter : Q) (g : Gateway) (p : Placement) (pol : RoutingPolicy)
        (t : FeasibilityTier) (plan : option EvictionPlanSummary)
        (rule : option AffinityRule) (best : option string).

Notation utility := (calculate_utility now jitter g p pol t plan rule best).

Lemma utility_inv sticky c q :
  utility sticky = Ok (c, q) ->
  exists loaded loading gv gr st,
    scorer_is_model_loaded g p = Ok loaded /\ scorer_is_model_loading g p = Ok loading /\
    calculate_staleness_score now g (telemetry_max_age_ms pol) = Ok st /\
    let warm := loaded || (sticky && loading) in
    c = {| sc_affinity := affinity_score g rule;
           sc_warm := if warm then 100%Q else 0%Q;
           sc_slack := calculate_slack_score g plan gv gr;
           sc_contention := calculate_contention_score g;
           sc_staleness := st;
           sc_stability := stability_score g best sticky;
           sc_eviction := eviction_score (weights pol) t plan;
           sc_empty_gateway :=
             if negb warm && (length (loaded_models g) + length (loading_models g) =? 0)%nat
             then 1%Q else 0%Q;
           sc_busy_models := busy_models_score g warm |} /\
    q = fadd (fadd (total c (weights pol))
                   (if negb sticky && negb loaded && loading then (-1000)%Q else 0%Q))
             (if negb sticky && loaded then jitter else 0%Q).
Proof.
  unfold calculate_utility. intros H. inv_bind H. inv_bind H.
  destruct (match resolve_gateway_requirements g p with inl r => r | inr _ => _ end) as [gv gr] eqn:Er.
  inv_bind H. injection H as <- <-. by exists a, a0, gv, gr, a1.
Qed.

(** The normalised components stay in their documented 0-10 range, and
    the structural ones mean what they say: stability only for the bound
    gateway of a sticky model, the empty-gateway bonus only where nothing is
    loaded or loading, the eviction penalty only on T2. *)
Theorem score_components_range sticky c q :
  calculate_utility now jitter g p pol t plan rule best sticky = Ok (c, q) ->
  0 <= active_requests g -> 0 < telemetry_max_age_ms pol ->
  (0 <= sc_slack c <= 10 /\ 0 <= sc_contention c <= 10 /\ 0 <= sc_staleness c <= 10 /\
   0 <= sc_busy_models c <= 10)%Q /\
  (sc_stability c <> 0%Q -> sticky = true /\ best = Some (name g)) /\
  (sc_empty_gateway c <> 0%Q -> loaded_models g = [] /\ loading_models g = []) /\
  (sc_eviction c <> 0%Q -> t = T2_FEASIBLE_EVICT /\ is_Some plan).
Proof.
  intros H Ha Hm. apply utility_inv in H as (ld & lg & gv & gr & st & _ & _ & Hs & -> & _). simpl.
  split; [|split; [|split]].
  - split; [apply slack_score_range|]. split; [by apply contention_score_range|].
    split; [by eapply staleness_score_range | apply busy_score_range].
  - unfold stability_score. destruct best as [b|]; [|done].
    destruct sticky; [|done]. simpl. destruct (bool_decide (b = ""%string)); [done|]. simpl.
    case_bool_decide; [|done]. by subst.
  - destruct (_ && _) eqn:E; [|done]. intros _. to_prop. apply Nat.eqb_eq in H0.
    destruct (loaded_models g), (loading_models g); done.
  - unfold eviction_score. destruct t; try done. destruct plan; [|done]. by eauto.
Qed.

(** For a sticky model the ranking score is exactly what its logged
    components explain ([ScoreComponents.total]); for a non-sticky one it
    differs only by the load-spreading terms, -1000 where this very model is
    loading and the jitter where it is loaded, and never by both. *)
Theorem score_explained sticky c q :
  calculate_utility now jitter g p pol t plan rule best sticky = Ok (c, q) ->
  (sticky = true -> (q == total c (weights pol))%Q) /\
  (sticky = false -> exists loaded loading,
     scorer_is_model_loaded g p = Ok loaded /\ scorer_is_model_loading g p = Ok loading /\
     (q == if loaded then rnd (total c (weights pol) + jitter)
           else if loading then rnd (total c (weights pol) - 1000)
           else total c (weights pol))%Q).
Proof.
  intros H. apply utility_inv in H as (ld & lg & gv & gr & st & Hl & Hg & _ & Hc & ->).
  assert (Hadd0 : forall x, (fadd (rnd x) 0 == rnd x)%Q).
  { intros x. unfold fadd. rewrite (rnd_proper _ _ (Qplus_0_r (rnd x))). apply rnd_idem. }
  assert (Ht : exists x, total c (weights pol) = rnd x) by (unfold total, fadd; by eexists).
  destruct Ht as [x ->]. split; intros ->; simpl.
  - transitivity (fadd (rnd x) 0); [apply (Hadd0 (rnd x + 0)%Q) | apply Hadd0].
  - exists ld, lg. repeat split; try done.
    destruct ld; simpl; [|destruct lg; simpl].
    + unfold fadd at 1. apply rnd_proper. rewrite Hadd0. reflexivity.
    + unfold fadd at 2. apply (Hadd0 (rnd x + -1000)%Q).
    + unfold fadd at 1. rewrite (rnd_proper _ (rnd x)); [apply rnd_idem|].
      rewrite Hadd0. ring.
Qed.

End Utility.

Definition sample_warm_gateway : Gateway :=
  let a := sample_id "model-a" in
  sample_gateway "edge" 20000 24000 30000 64000 [a] [] [] [(a, (9000, 2000))].

Lemma score_components_range_witness :
  match calculate_utility 0 0 sample_warm_gateway (sample_placement (sample_id "model-a") 9000 2000)
          default_policy T1_FEASIBLE_NOW None None (Some "edge"%string) true with
  | Ok (c, _) => (0 <= sc_slack c <= 10)%Q
  | Raise _ => False
  end.
Proof.
  destruct (calculate_utility _ _ _ _ _ _ _ _ _ _) as [[c q]|] eqn:E; [|discriminate].
  apply (score_components_range _ _ _ _ _ _ _ _ _ _ _ _ E); vm_compute; congruence.
Defined.

Lemma score_explained_witness :
  match calculate_utility 0 0 sample_warm_gateway (sample_placement (sample_id "model-a") 9000 2000)
          default_policy T1_FEASIBLE_NOW None None (Some "edge"%string) true with
  | Ok (c, q) => (q == total c (weights default_policy))%Q
  | Raise _ => False
  end.
Proof.
  destruct (calculate_utility _ _ _ _ _ _ _ _ _ _) as [[c q]|] eqn:E; [|discriminate].
  by apply (proj1 (score_explained _ _ _ _ _ _ _ _ _ _ _ _ E)).
Defined.
