(* ===== verification/Engine.v ===== *)
(** * The decision engine

    Selection of a gateway for one placement: the capacity-constraint
    classification ([engine/capacity_constraints.py]), the selection rule
    ([engine/selection_rules.py]) and [DecisionEngine] ([engine/core.py]). *)
From stdpp Require Import base gmap list strings sorting.
From Stdlib Require Import ZArith QArith Lia Lqa.
From S2P Require Import Prelude PyFloat PyString ModelId RoutingTypes Admission Eviction Feasibility Scoring.
Local Open Scope Z_scope.

(** ** Capacity constraints *)

Definition CAPACITY_CONSTRAINTS : list string :=
  ["has_enough_vram"; "has_enough_ram"; "compute_type_capacity";
   "has_gateway_capacity"; "circuit_breaker"]%string.

Definition is_capacity_constrained (c : GatewayCandidate) : bool :=
  existsb (fun f => bool_decide (constraint f ∈ CAPACITY_CONSTRAINTS)) (constraints_failed c).

(** ** Selection rule *)

Definition cand_before (a b : GatewayCandidate) : bool :=
  flt (utility_score b) (utility_score a) ||
  (feq (utility_score a) (utility_score b) && str_lt (name (gateway a)) (name (gateway b))).

Definition of_tier (t : FeasibilityTier) (cs : list GatewayCandidate) : list GatewayCandidate :=
  List.filter (fun c => bool_decide (tier c = t)) cs.
Definition on_node (n : string) (cs : list GatewayCandidate) : list GatewayCandidate :=
  List.filter (fun c => bool_decide (node_id (gateway c) = n)) cs.

Definition apply_selection_rule (candidates : list GatewayCandidate)
    (hard_affinity : option AffinityRule) (margin : Q) : option GatewayCandidate * SelectionReason :=
  let t1 := of_tier T1_FEASIBLE_NOW candidates in
  let t2 := of_tier T2_FEASIBLE_EVICT candidates in
  match hard_affinity with
  | Some h =>
      match sort_by cand_before (on_node (node h) t1), sort_by cand_before (on_node (node h) t2) with
      | c :: _, _ => (Some c, hard_affinity_T1 (node h))
      | [], c :: _ => if evict_if_needed h then (Some c, hard_affinity_T2_eviction (node h))
                      else (None, hard_affinity_infeasible (node h))
      | [], [] => (None, hard_affinity_infeasible (node h))
      end
  | None =>
      match sort_by cand_before t1, sort_by cand_before t2 with
      | c1 :: _, c2 :: _ =>
          if fle (fadd (utility_score c1) margin) (utility_score c2)
          then (Some c2, T2_preferred) else (Some c1, T1_preferred)
      | c1 :: _, [] => (Some c1, T1_selected)
      | [], c2 :: _ => (Some c2, T2_selected)
      | [], [] => (None, no_feasible_gateways)
      end
  end.

(** ** The engine *)

Record DecisionEngine := mkEngine {
  policy : RoutingPolicy;
  routing_key_tracker : option tracker_t;
  gateway_available_fn : option (string -> string -> bool);
  eviction_cooldown_s : Q;
  engine_has_demand : option (string -> bool)
}.

(** What the engine reads from outside: clocks, jitter by gateway, the model
    ids of the pipeline files and the regex matcher. *)
Record Env := mkEnv {
  monotonic : Q;
  wall_clock : Q;
  jitter_of : Gateway -> Q;
  env_emb : option string;
  env_ctx : option string;
  env_re_match : string -> string -> bool
}.

Definition plan_context (e : DecisionEngine) (env : Env) (g : Gateway) : PlanContext := {|
  pc_lookup := create_requirements_lookup (model_details g);
  pc_tracker := routing_key_tracker e; pc_cooldown_s := eviction_cooldown_s e;
  pc_has_demand := engine_has_demand e; pc_margins := resource_margins (policy e);
  pc_class := REQUIRED; pc_now := monotonic env; pc_emb := env_emb env; pc_ctx := env_ctx env |}.

Definition evaluate_candidate (e : DecisionEngine) (env : Env) (p : Placement)
    (rule : option AffinityRule) (current_best : option string) (sticky : bool) (g : Gateway)
    : exn GatewayCandidate :=
  let? r := evaluate_feasibility (plan_context e env g) (gateway_available_fn e) g p in
  let '(t, failures, plan) := r in
  let mk comps score := {|
    gateway := g; tier := t; constraints_failed := failures; score_components := comps;
    eviction_plan := plan;
    affinity_rule := match rule with
                     | Some ar => if bool_decide (node ar = node_id g) then Some ar else None
                     | None => None
                     end;
    cached_score := score |} in
  match t with
  | T0_INFEASIBLE => Ok (mk None 0%Q)
  | _ =>
      let? s := calculate_utility (wall_clock env) (jitter_of env g) g p (policy e) t plan rule
                  current_best sticky in
      Ok (mk (Some (fst s)) (snd s))
  end.

Fixpoint map_exn {A B} (f : A -> exn B) (l : list A) : exn (list B) :=
  match l with
  | [] => Ok []
  | x :: l' => let? y := f x in let? ys := map_exn f l' in Ok (y :: ys)
  end.

(** The guard after the selection rule: a sticky model bound to a gateway at
    capacity waits for it. *)
Definition sticky_guard (candidates : list GatewayCandidate) (sticky : bool)
    (current_best : option string) (sel : option GatewayCandidate * SelectionReason)
    : option GatewayCandidate * SelectionReason :=
  match sel, current_best with
  | (Some c, _), Some b =>
      if sticky && negb (bool_decide (b = ""%string)) && negb (bool_decide (name (gateway c) = b))
      then match List.find (fun c' => bool_decide (name (gateway c') = b)) candidates with
           | Some bound => if is_capacity_constrained bound then (None, sticky_capacity_wait b)
                           else sel
           | None => sel
           end
      else sel
  | _, _ => sel
  end.

Definition get_sticky (e : DecisionEngine) (p : Placement) (sticky : option bool) : bool :=
  match sticky with Some b => b | None => is_sticky (policy e) (model_id p) end.

Definition best_of (tracker : option bindings_t) (p : Placement) : option string :=
  match tracker with Some b => get_current_best b (model_id p) | None => None end.

(** [DecisionEngine.select]: (gateway, trace, tracker after). *)
Definition select (e : DecisionEngine) (env : Env) (gateways : list Gateway) (p : Placement)
    (req : option string) (sticky : option bool) (tracker : option bindings_t)
    : exn (option Gateway * DecisionTrace * option bindings_t) :=
  let stick := get_sticky e p sticky in
  let rule := find_affinity (env_re_match env) (policy e) (model_id p) in
  let hard := find_hard_affinity (env_re_match env) (policy e) (model_id p) in
  let current_best := best_of tracker p in
  let? cands := map_exn (evaluate_candidate e env p rule current_best stick) gateways in
  let '(selected, reason) :=
    sticky_guard cands stick current_best
      (apply_selection_rule cands hard (eviction_margin (policy e))) in
  let tracker' := match selected, tracker with
    | Some c, Some b => Some (update_binding (model_id p) (name (gateway c)) b)
    | _, _ => tracker
    end in
  let trace := {|
    trace_model_id := original (model_id p);
    trace_original_model_id := original_model_id p;
    request_id := req; candidates := cands;
    selected_gateway := (fun c => name (gateway c)) <$> selected;
    selection_reason := reason; selection_tier := tier <$> selected;
    is_sticky_trace := stick |} in
  Ok (gateway <$> selected, trace, tracker').

Definition select_excluding (e : DecisionEngine) (env : Env) (gateways : list Gateway)
    (p : Placement) (excluded : list string) (req : option string) (sticky : option bool)
    (tracker : option bindings_t) : exn (option Gateway * DecisionTrace * option bindings_t) :=
  match List.filter (fun g => negb (bool_decide (name g ∈ excluded))) gateways with
  | [] =>
      Ok (None, {|
        trace_model_id := original (model_id p);
        trace_original_model_id := original_model_id p;
        request_id := req; candidates := []; selected_gateway := None;
        selection_reason := no_candidates_after_exclusion; selection_tier := None;
        is_sticky_trace := match sticky with
          | Some b => b
          | None => is_sticky_str (policy e) (original (model_id p))
          end |}, tracker)
  | filtered => select e env filtered p req sticky tracker
  end.

(** ** Ordering of candidates *)

#[export] Instance cand_before_order : StrictWeakOrder cand_before.
Proof.
  unfold cand_before, str_lt. split.
  - intros x. rewrite leb_refl, andb_false_r, orb_false_r. apply flt_false. lra.
  - intros x y z. rewrite !orb_false_iff, !andb_false_iff, !negb_false_iff.
    intros [Hu1 Hn1] [Hu2 Hn2]. apply flt_false in Hu1, Hu2. split.
    { apply flt_false. lra. }
    destruct (feq (utility_score x) (utility_score z)) eqn:E; [right | by left]. q_prop.
    destruct Hn1 as [Hn1|Hn1].
    { apply not_true_iff_false in Hn1. contradict Hn1. apply feq_spec. lra. }
    destruct Hn2 as [Hn2|Hn2].
    { apply not_true_iff_false in Hn2. contradict Hn2. apply feq_spec. lra. }
    by eapply leb_trans.
  - intros x y. rewrite orb_true_iff, orb_false_iff, andb_true_iff, andb_false_iff.
    rewrite negb_true_iff, negb_false_iff. intros [H|[H1 H2]]; q_prop.
    + split; [apply flt_false; lra|]. left. apply not_true_iff_false.
      intros Hf. q_prop. lra.
    + split; [apply flt_false; lra|]. right. by apply leb_total.
Qed.

(** [c] is no worse than [c'] in the ranking. *)
Definition ranks (c c' : GatewayCandidate) : Prop :=
  (utility_score c' <= utility_score c)%Q /\
  ((utility_score c' == utility_score c)%Q ->
   String.leb (name (gateway c)) (name (gateway c')) = true).

Lemma ranks_spec c c' : cand_before c' c = false <-> ranks c c'.
Proof.
  unfold cand_before, str_lt, ranks. rewrite orb_false_iff, andb_false_iff, negb_false_iff, flt_false.
  split; intros [H1 H2]; split; try done.
  - intros He%feq_spec. destruct H2; congruence.
  - destruct (feq _ _) eqn:E; [right | by left]. apply H2. by apply feq_spec.
Qed.

(** The head of a ranked selection: best of the candidates satisfying [f]. *)
Definition best_of_list (f : GatewayCandidate -> Prop) (cs : list GatewayCandidate)
    (c : GatewayCandidate) : Prop :=
  c ∈ cs /\ f c /\ forall c', c' ∈ cs -> f c' -> ranks c c'.

Lemma of_tier_spec t cs c : c ∈ of_tier t cs <-> c ∈ cs /\ tier c = t.
Proof. unfold of_tier. rewrite elem_of_lfilter, bool_decide_eq_true. done. Qed.

Lemma tier_head_best t cs c rest :
  sort_by cand_before (of_tier t cs) = c :: rest -> best_of_list (fun x => tier x = t) cs c.
Proof.
  intros H. apply sort_by_head_min in H as [Hin Hmin]; [|apply _].
  apply of_tier_spec in Hin as [Hin Hf]. split; [done|]. split; [done|].
  intros c' H1 H2. by apply ranks_spec, Hmin, of_tier_spec.
Qed.

Lemma node_head_best t n cs c rest :
  sort_by cand_before (on_node n (of_tier t cs)) = c :: rest ->
  best_of_list (fun x => tier x = t /\ node_id (gateway x) = n) cs c.
Proof.
  intros H. apply sort_by_head_min in H as [Hin Hmin]; [|apply _].
  unfold on_node in *. rewrite elem_of_lfilter, of_tier_spec, bool_decide_eq_true in Hin.
  split; [tauto|]. split; [tauto|]. intros c' H1 H2. apply ranks_spec, Hmin.
  rewrite elem_of_lfilter, of_tier_spec, bool_decide_eq_true. tauto.
Qed.

Lemma no_tier t cs : sort_by cand_before (of_tier t cs) = [] -> forall c, c ∈ cs -> tier c <> t.
Proof.
  intros H%sort_by_nil_iff c Hc Ht. pose proof (proj2 (of_tier_spec t cs c) (conj Hc Ht)) as Hin.
  rewrite H in Hin. inversion Hin.
Qed.

Lemma no_node t n cs : sort_by cand_before (on_node n (of_tier t cs)) = [] ->
  forall c, c ∈ cs -> tier c = t -> node_id (gateway c) <> n.
Proof.
  intros H%sort_by_nil_iff c Hc Ht Hn.
  assert (Hin : c ∈ on_node n (of_tier t cs)).
  { unfold on_node. by rewrite elem_of_lfilter, of_tier_spec, bool_decide_eq_true. }
  rewrite H in Hin. inversion Hin.
Qed.

Lemma is_feasible_spec c : is_feasible c = true <-> tier c = T1_FEASIBLE_NOW \/ tier c = T2_FEASIBLE_EVICT.
Proof. unfold is_feasible. rewrite negb_true_iff, bool_decide_eq_false. destruct (tier c); naive_solver. Qed.

(** ** The selection rule *)

(** Without a hard affinity, the rule returns nothing exactly when no
    candidate is feasible; otherwise it returns the best candidate of its
    tier (highest score, then smallest name), and a T2 candidate displaces
    every T1 candidate iff it beats the best of them by the eviction margin. *)
Theorem selection_rule_optimal cs margin sel reason :
  apply_selection_rule cs None margin = (sel, reason) ->
  match sel with
  | None => forall c, c ∈ cs -> is_feasible c = false
  | Some c =>
      best_of_list (fun x => tier x = tier c) cs c /\
      ((tier c = T1_FEASIBLE_NOW /\ forall c2, c2 ∈ cs -> tier c2 = T2_FEASIBLE_EVICT ->
          (utility_score c2 < fadd (utility_score c) margin)%Q) \/
       (tier c = T2_FEASIBLE_EVICT /\ forall c1, c1 ∈ cs -> tier c1 = T1_FEASIBLE_NOW ->
          (fadd (utility_score c1) margin <= utility_score c)%Q))
  end.
Proof.
  unfold apply_selection_rule.
  destruct (sort_by cand_before (of_tier T1_FEASIBLE_NOW cs)) as [|c1 r1] eqn:E1,
           (sort_by cand_before (of_tier T2_FEASIBLE_EVICT cs)) as [|c2 r2] eqn:E2;
    try apply tier_head_best in E1; try apply tier_head_best in E2;
    try pose proof (no_tier _ _ E1) as N1; try pose proof (no_tier _ _ E2) as N2.
  - intros [= <- <-] c Hc. apply not_true_iff_false. intros [H|H]%is_feasible_spec; naive_solver.
  - intros [= <- <-]. pose proof E2 as (? & Ht & _). rewrite Ht. split; [done|]. right.
    split; [done|]. naive_solver.
  - intros [= <- <-]. pose proof E1 as (? & Ht & _). rewrite Ht. split; [done|]. left.
    split; [done|]. naive_solver.
  - pose proof E1 as (? & Ht1 & M1). pose proof E2 as (? & Ht2 & M2).
    destruct (fle _ _) eqn:Ef; q_prop; intros [= <- <-].
    + rewrite Ht2. split; [done|]. right. split; [done|]. intros c Hc Ht.
      destruct (M1 c Hc Ht) as [Hle _].
      apply Qle_trans with (fadd (utility_score c1) margin); [|done]. apply rnd_mono. lra.
    + rewrite Ht1. split; [done|]. left. split; [done|]. intros c Hc Ht.
      destruct (M2 c Hc Ht) as [Hle _]. lra.
Qed.

Definition sample_candidate (n : string) (t : FeasibilityTier) (score : Q) : GatewayCandidate := {|
  gateway := sample_gateway n 0 0 0 0 [] [] [] []; tier := t; constraints_failed := [];
  score_components := Some (mkScore 0 0 0 0 0 0 0 0 0); eviction_plan := None;
  affinity_rule := None; cached_score := score |}.

Lemma selection_rule_optimal_witness :
  let cs := [sample_candidate "b" T1_FEASIBLE_NOW 30; sample_candidate "a" T1_FEASIBLE_NOW 30;
             sample_candidate "c" T2_FEASIBLE_EVICT 39] in
  best_of_list (fun x => tier x = T1_FEASIBLE_NOW) cs (sample_candidate "a" T1_FEASIBLE_NOW 30).
Proof.
  intros cs. apply (selection_rule_optimal cs 10 (Some (sample_candidate "a" T1_FEASIBLE_NOW 30)) T1_preferred).
  reflexivity.
Defined.

(** A hard affinity is obeyed or nothing is selected: the selected
    candidate is on the rule's node and the best of its tier there, T2 only
    when the node has no T1 candidate and the rule allows eviction; nothing
    is selected exactly when neither is available. *)
Theorem hard_affinity_obeyed cs h margin :
  let on_h t c := tier c = t /\ node_id (gateway c) = node h in
  match fst (apply_selection_rule cs (Some h) margin) with
  | Some c =>
      (best_of_list (on_h T1_FEASIBLE_NOW) cs c) \/
      (evict_if_needed h = true /\ best_of_list (on_h T2_FEASIBLE_EVICT) cs c /\
       forall c', c' ∈ cs -> ~ on_h T1_FEASIBLE_NOW c')
  | None =>
      (forall c, c ∈ cs -> ~ on_h T1_FEASIBLE_NOW c) /\
      (evict_if_needed h = false \/ forall c, c ∈ cs -> ~ on_h T2_FEASIBLE_EVICT c)
  end.
Proof.
  unfold apply_selection_rule. simpl.
  destruct (sort_by cand_before (on_node (node h) (of_tier T1_FEASIBLE_NOW cs))) as [|c1 r1] eqn:E1,
           (sort_by cand_before (on_node (node h) (of_tier T2_FEASIBLE_EVICT cs))) as [|c2 r2] eqn:E2;
    try apply node_head_best in E1; try apply node_head_best in E2;
    try pose proof (no_node _ _ _ E1) as N1; try pose proof (no_node _ _ _ E2) as N2; simpl.
  - split; [|right]; intros c Hc [? ?]; naive_solver.
  - destruct (evict_if_needed h) eqn:Ev; simpl.
    + right. split; [done|]. split; [exact E2|]. intros c Hc [? ?]. naive_solver.
    + split; [|by left]. intros c Hc [? ?]. naive_solver.
  - by left.
  - by left.
Qed.

(** *** Order of the candidates *)

Lemma best_unique (f : GatewayCandidate -> Prop) cs c c' :
  NoDup (map (fun x => name (gateway x)) cs) ->
  best_of_list f cs c -> best_of_list f cs c' -> c = c'.
Proof.
  intros Hnd (Hin & Hf & Hb) (Hin' & Hf' & Hb').
  destruct (Hb c' Hin' Hf') as [Hu Hn]. destruct (Hb' c Hin Hf) as [Hu' Hn'].
  assert (Hq : (utility_score c' == utility_score c)%Q) by lra.
  assert (En : name (gateway c) = name (gateway c')).
  { apply String.leb_antisym; [by apply Hn | apply Hn'; by symmetry]. }
  by apply (NoDup_map_inj (fun x => name (gateway x)) cs).
Qed.

Lemma sort_nil_perm (f : list GatewayCandidate -> list GatewayCandidate) cs cs' :
  f cs ≡ₚ f cs' -> sort_by cand_before (f cs) = [] -> sort_by cand_before (f cs') = [].
Proof. intros Hp H%sort_by_nil_iff. apply sort_by_nil_iff. rewrite H in Hp. by apply Permutation_nil_l in Hp. Qed.

Lemma best_perm f cs cs' c : cs ≡ₚ cs' -> best_of_list f cs c -> best_of_list f cs' c.
Proof.
  intros Hp (Hin & Hf & Hb). split; [by rewrite <- Hp|]. split; [done|].
  intros c' Hc'. apply Hb. by rewrite Hp.
Qed.

(** The head that the rule looks at does not depend on the order. *)
Lemma head_perm (sel : list GatewayCandidate -> list GatewayCandidate) (f : GatewayCandidate -> Prop)
    cs cs' :
  cs ≡ₚ cs' -> NoDup (map (fun x => name (gateway x)) cs) -> sel cs ≡ₚ sel cs' ->
  (forall l c r, sort_by cand_before (sel l) = c :: r -> best_of_list f l c) ->
  head (sort_by cand_before (sel cs)) = head (sort_by cand_before (sel cs')).
Proof.
  intros Hp Hnd Hs Hbest.
  destruct (sort_by cand_before (sel cs)) as [|c r] eqn:E.
  - by rewrite (sort_nil_perm sel cs cs').
  - destruct (sort_by cand_before (sel cs')) as [|c' r'] eqn:E'.
    + symmetry in Hs. rewrite (sort_nil_perm sel cs' cs Hs E') in E. done.
    + simpl. f_equal. eapply best_unique; [exact Hnd | by eapply Hbest |].
      eapply best_perm; [by symmetry | by eapply Hbest].
Qed.

(** The rule only looks at the heads of the sorted tiers. *)
Lemma rule_heads cs cs' h margin :
  (forall t, head (sort_by cand_before (of_tier t cs)) = head (sort_by cand_before (of_tier t cs'))) ->
  (forall n t, head (sort_by cand_before (on_node n (of_tier t cs)))
             = head (sort_by cand_before (on_node n (of_tier t cs')))) ->
  apply_selection_rule cs h margin = apply_selection_rule cs' h margin.
Proof.
  intros H1 H2. unfold apply_selection_rule. destruct h as [h|].
  - pose proof (H2 (node h) T1_FEASIBLE_NOW). pose proof (H2 (node h) T2_FEASIBLE_EVICT).
    repeat (case_goal; simplify_eq/=); done.
  - pose proof (H1 T1_FEASIBLE_NOW). pose proof (H1 T2_FEASIBLE_EVICT).
    destruct (sort_by cand_before (of_tier T1_FEASIBLE_NOW cs)),
      (sort_by cand_before (of_tier T1_FEASIBLE_NOW cs')),
      (sort_by cand_before (of_tier T2_FEASIBLE_EVICT cs)),
      (sort_by cand_before (of_tier T2_FEASIBLE_EVICT cs')); simplify_eq/=; done.
Qed.

(** The decision does not depend on the order in which the gateways were
    collected (names are unique). *)
Theorem selection_order_independent cs cs' h margin :
  cs ≡ₚ cs' -> NoDup (map (fun x => name (gateway x)) cs) ->
  apply_selection_rule cs h margin = apply_selection_rule cs' h margin.
Proof.
  intros Hp Hnd. apply rule_heads.
  - intros t. apply (head_perm (of_tier t) (fun x => tier x = t)); try done.
    + by apply lfilter_perm.
    + intros l c r. apply tier_head_best.
  - intros n t.
    apply (head_perm (fun l => on_node n (of_tier t l))
             (fun x => tier x = t /\ node_id (gateway x) = n)); try done.
    + by apply lfilter_perm, lfilter_perm.
    + intros l c r. apply node_head_best.
Qed.

Lemma selection_order_independent_witness :
  let a := sample_candidate "a" T1_FEASIBLE_NOW 30 in
  let b := sample_candidate "b" T1_FEASIBLE_NOW 30 in
  apply_selection_rule [a; b] None 10 = apply_selection_rule [b; a] None 10.
Proof.
  intros a b. apply (selection_order_independent [a; b] [b; a] None 10); [constructor|].
  apply (bool_decide_eq_true_1 (NoDup ["a"%string; "b"%string])). reflexivity.
Defined.

(** ** Selection as a whole *)

Lemma map_exn_spec {A B} (f : A -> exn B) l ys :
  map_exn f l = Ok ys -> Forall2 (fun x y => f x = Ok y) l ys.
Proof.
  revert ys. induction l as [|x l IH]; simpl; intros ys H.
  { injection H as <-. constructor. }
  inv_bind H. inv_bind H. injection H as <-. constructor; auto.
Qed.

Lemma map_exn_ok {A B} (f : A -> exn B) l :
  (forall x, x ∈ l -> is_ok (f x) = true) -> is_ok (map_exn f l) = true.
Proof.
  induction l as [|x l IH]; simpl; intros H; [done|].
  pose proof (H x ltac:(constructor)) as Hx. destruct (f x); [|done]. simpl.
  assert (Hl : is_ok (map_exn f l) = true) by (apply IH; intros; apply H; by constructor).
  by destruct (map_exn f l).
Qed.

(** What an evaluated candidate records. *)
Lemma evaluate_candidate_inv e env p rule best stick g c :
  evaluate_candidate e env p rule best stick g = Ok c ->
  gateway c = g /\
  evaluate_feasibility (plan_context e env g) (gateway_available_fn e) g p
    = Ok (tier c, constraints_failed c, eviction_plan c).
Proof.
  unfold evaluate_candidate. intros H. inv_bind H. destruct a as [[t fs] pl].
  destruct t; [by injection H as <- | |]; inv_bind H; by injection H as <-.
Qed.

Lemma candidates_gateways e env p rule best stick gs cs :
  map_exn (evaluate_candidate e env p rule best stick) gs = Ok cs -> map gateway cs = gs.
Proof.
  intros H%map_exn_spec. induction H as [|g c gs cs Hc _ IH]; simpl; [done|].
  apply evaluate_candidate_inv in Hc as [-> _]. by rewrite IH.
Qed.

Lemma rule_selected_in cs h margin c :
  fst (apply_selection_rule cs h margin) = Some c -> c ∈ cs /\ is_feasible c = true.
Proof.
  assert (Hb : forall f t, (forall x, f x -> tier x = t) -> t <> T0_INFEASIBLE ->
            best_of_list f cs c -> c ∈ cs /\ is_feasible c = true).
  { intros f t Hf Ht (Hin & Hc & _). split; [done|]. apply is_feasible_spec.
    rewrite (Hf c Hc). destruct t; tauto. }
  unfold apply_selection_rule. destruct h as [h|].
  - destruct (sort_by cand_before (on_node (node h) (of_tier T1_FEASIBLE_NOW cs))) as [|c1 r1] eqn:E1;
    destruct (sort_by cand_before (on_node (node h) (of_tier T2_FEASIBLE_EVICT cs))) as [|c2 r2] eqn:E2;
    try apply node_head_best in E1; try apply node_head_best in E2;
    try destruct (evict_if_needed h); intros; simplify_eq/=;
    (eapply Hb; [| |eassumption]; [intros x [Hx _]; exact Hx | done]).
  - destruct (sort_by cand_before (of_tier T1_FEASIBLE_NOW cs)) as [|c1 r1] eqn:E1;
    destruct (sort_by cand_before (of_tier T2_FEASIBLE_EVICT cs)) as [|c2 r2] eqn:E2;
    try apply tier_head_best in E1; try apply tier_head_best in E2;
    try (destruct (fle _ _)); intros; simplify_eq/=;
    (eapply Hb; [| |eassumption]; [intros x Hx; exact Hx | done]).
Qed.

Lemma guard_cases cs stick best sel :
  sticky_guard cs stick best sel = sel \/
  exists b, best = Some b /\ sticky_guard cs stick best sel = (None, sticky_capacity_wait b).
Proof.
  unfold sticky_guard. destruct sel as [[c|] r]; [|by left].
  destruct best as [b|]; [|by left].
  destruct (_ && _); [|by left]. destruct (List.find _ _); [|by left].
  destruct (is_capacity_constrained g); [right; eauto | by left].
Qed.

Lemma select_inv e env gs p req sticky tr0 sel tr tr' :
  select e env gs p req sticky tr0 = Ok (sel, tr, tr') ->
  exists cs c,
    map_exn (evaluate_candidate e env p (find_affinity (env_re_match env) (policy e) (model_id p))
      (best_of tr0 p) (get_sticky e p sticky)) gs = Ok cs /\
    fst (sticky_guard cs (get_sticky e p sticky) (best_of tr0 p)
       (apply_selection_rule cs (find_hard_affinity (env_re_match env) (policy e) (model_id p))
         (eviction_margin (policy e)))) = c /\
    sel = gateway <$> c /\ candidates tr = cs /\
    selected_gateway tr = (fun c => name (gateway c)) <$> c /\ selection_tier tr = tier <$> c /\
    tr' = match c, tr0 with
          | Some c, Some b => Some (update_binding (model_id p) (name (gateway c)) b)
          | _, _ => tr0 end.
Proof.
  unfold select. intros H. inv_bind H.
  destruct (sticky_guard _ _ _ _) as [c reason] eqn:Eg. injection H as <- <- <-.
  exists a, c. by rewrite Eg.
Qed.

(** The selected candidate was evaluated, feasible, from its own gateway. *)
Lemma selected_candidate e env gs p rule best stick cs h margin c b :
  map_exn (evaluate_candidate e env p rule best stick) gs = Ok cs ->
  fst (sticky_guard cs stick b (apply_selection_rule cs h margin)) = Some c ->
  c ∈ cs /\ is_feasible c = true /\ gateway c ∈ gs /\
  evaluate_feasibility (plan_context e env (gateway c)) (gateway_available_fn e) (gateway c) p
    = Ok (tier c, constraints_failed c, eviction_plan c).
Proof.
  intros Hm Hs.
  destruct (guard_cases cs stick b (apply_selection_rule cs h margin)) as [E|(? & _ & E)];
    rewrite E in Hs; [|done].
  apply rule_selected_in in Hs as [Hin Hf]. repeat split; try done.
  - rewrite <- (candidates_gateways _ _ _ _ _ _ _ _ Hm). by apply list_elem_of_fmap_2.
  - apply map_exn_spec in Hm. apply list_elem_of_lookup in Hin as [i Hi].
    destruct (Forall2_lookup_r _ _ _ _ _ Hm Hi) as (g & Hgi & Hc).
    by apply evaluate_candidate_inv in Hc as [<- Hc].
Qed.

(** C11: a selected gateway is one of the offered ones and was evaluated
    feasible; the trace lists one candidate per gateway in order and names
    the selection and its tier. *)
Theorem select_sound e env gs p req sticky tr0 sel tr tr' :
  select e env gs p req sticky tr0 = Ok (sel, tr, tr') ->
  map gateway (candidates tr) = gs /\ selected_gateway tr = name <$> sel /\
  match sel with
  | None => selection_tier tr = None /\ tr' = tr0
  | Some g => g ∈ gs /\ exists c, c ∈ candidates tr /\ gateway c = g /\ is_feasible c = true /\
      selection_tier tr = Some (tier c) /\
      evaluate_feasibility (plan_context e env g) (gateway_available_fn e) g p
        = Ok (tier c, constraints_failed c, eviction_plan c)
  end.
Proof.
  intros H. apply select_inv in H as (cs & c & Hm & Hg & -> & -> & -> & -> & ->).
  pose proof (candidates_gateways _ _ _ _ _ _ _ _ Hm). split; [done|].
  split; [by destruct c|]. destruct c as [c|]; simpl; [|done].
  pose proof (selected_candidate _ _ _ _ _ _ _ _ _ _ _ _ Hm Hg) as (? & ? & ? & ?).
  split; [done|]. by exists c.
Qed.

Definition sample_engine : DecisionEngine :=
  mkEngine default_policy (Some (fun _ => ["model-b"%string])) None 120 None.
Definition sample_env : Env :=
  mkEnv 1000 0 (fun _ => 0%Q) None None (fun _ _ => false).

Definition sample_gateways : list Gateway :=
  [sample_full_gateway;
   sample_gateway "spare" 20000 24000 30000 64000 [] [] [] [(sample_id "model-a", (9000, 2000))]].

Definition selects_tier (r : exn (option Gateway * DecisionTrace * option bindings_t))
    : option FeasibilityTier :=
  match r with Ok (Some _, tr, _) => selection_tier tr | _ => None end.

Lemma select_sound_witness :
  match select sample_engine sample_env sample_gateways
          (sample_placement (sample_id "model-a") 9000 2000) None None (Some ∅) with
  | Ok (sel, tr, _) => map gateway (candidates tr) = sample_gateways
  | Raise _ => False
  end.
Proof.
  destruct (select _ _ _ _ _ _ _) as [[[sel tr] tr']|] eqn:E.
  - apply (select_sound sample_engine sample_env sample_gateways
             (sample_placement (sample_id "model-a") 9000 2000) None None (Some ∅) sel tr tr' E).
  - exfalso. assert (H : is_ok (select sample_engine sample_env sample_gateways
      (sample_placement (sample_id "model-a") 9000 2000) None None (Some ∅)) = true)
      by (vm_compute; reflexivity).
    rewrite E in H. discriminate.
Defined.

(** C13: routing never plans to drop a model that is serving a request: when
    the selected gateway needs an eviction, its plan is not empty and no model
    of it has a routing key in flight there, is loading, or is the requested
    model. *)
Theorem select_never_evicts_in_flight e env gs p req sticky tr0 g tr tr' t :
  select e env gs p req sticky tr0 = Ok (Some g, tr, tr') ->
  routing_key_tracker e = Some t -> selection_tier tr = Some T2_FEASIBLE_EVICT ->
  exists c s, c ∈ candidates tr /\ gateway c = g /\ eviction_plan c = Some s /\
    models_to_evict s <> [] /\
    forall m, m ∈ models_to_evict s ->
      routing_key m ∉ t (name g) /\ mmem m (loading_models g) = false /\
      mid_eqb m (model_id p) = false /\ m ∈ loaded_models g.
Proof.
  intros H Ht Htier. apply select_inv in H as (cs & [c|] & Hm & Hg & Hsel & -> & _ & E & _); [|done].
  injection Hsel as ->. rewrite E in Htier. injection Htier as Htier.
  pose proof (selected_candidate _ _ _ _ _ _ _ _ _ _ _ _ Hm Hg) as (Hin & _ & _ & He).
  rewrite Htier in He. apply evaluate_cases in He as [He|(_ & He)].
  { apply gates_cases in He as [(f & [=] & _)|([=] & _)]. }
  destruct He as [([=] & _)|[(s & Hp & [= Hfs Hpl])|[(f & _ & [=] & _)|(f & _ & [=])]]].
  exists c, s. apply plan_victims_sub in Hp as [Hsub Hne].
  split; [done|]. split; [done|]. split; [done|]. split; [done|]. intros m Hm'.
  pose proof (elem_of_submseteq _ _ _ Hm' Hsub) as (? & ? & ? & _ & Hk)%evictable_models_spec.
  simpl in Hk. rewrite Ht in Hk. done.
Qed.

Lemma select_never_evicts_in_flight_witness :
  match select sample_engine sample_env [sample_full_gateway]
          (sample_placement (sample_id "model-a") 9000 2000) None None None with
  | Ok (Some g, tr, _) =>
      selection_tier tr = Some T2_FEASIBLE_EVICT /\
      exists c s, c ∈ candidates tr /\ gateway c = g /\ eviction_plan c = Some s /\
        models_to_evict s <> [] /\
        forall m, m ∈ models_to_evict s ->
          routing_key m ∉ ["model-b"%string] /\ mmem m (loading_models g) = false /\
          mid_eqb m (sample_id "model-a") = false /\ m ∈ loaded_models g
  | _ => False
  end.
Proof.
  assert (Ht : selects_tier (select sample_engine sample_env [sample_full_gateway]
            (sample_placement (sample_id "model-a") 9000 2000) None None None)
            = Some T2_FEASIBLE_EVICT) by (vm_compute; reflexivity).
  destruct (select _ _ _ _ _ _ _) as [[[[g|] tr] tr']|] eqn:E;
    [|discriminate Ht | discriminate Ht].
  simpl in Ht. split; [exact Ht|].
  apply (select_never_evicts_in_flight sample_engine sample_env [sample_full_gateway]
           (sample_placement (sample_id "model-a") 9000 2000) None None None g tr tr'
           (fun _ => ["model-b"%string]) E eq_refl Ht).
Defined.

(** Sticky routing stays put.  A sticky model bound to a gateway whose
    candidate reports a capacity constraint is routed there or not at all;
    the binding is kept in either case, and bindings of other models are
    never touched. *)
Theorem sticky_model_stays e env gs p req sticky bs sel tr tr' b c :
  select e env gs p req sticky (Some bs) = Ok (sel, tr, tr') ->
  get_sticky e p sticky = true -> get_current_best bs (model_id p) = Some b -> b <> ""%string ->
  NoDup (map name gs) ->
  c ∈ candidates tr -> name (gateway c) = b -> is_capacity_constrained c = true ->
  (sel = None \/ name <$> sel = Some b) /\
  exists bs', tr' = Some bs' /\ get_current_best bs' (model_id p) = Some b /\
    forall m, mid_eqb m (model_id p) = false -> get_current_best bs' m = get_current_best bs m.
Proof.
  intros H Hst Hb Hne Hnd Hc Hn Hcap.
  apply select_inv in H as (cs & o & Hm & Hg & -> & Ec & _ & _ & ->).
  rewrite Ec in Hc. rewrite Hst in Hg. simpl in Hg. rewrite Hb in Hg.
  assert (Hfind : List.find (fun c' => bool_decide (name (gateway c') = b)) cs = Some c).
  { destruct (List.find _ cs) as [c'|] eqn:Ef.
    - apply find_some in Ef as [Hin Hn']. to_prop. f_equal. apply list_elem_of_In in Hin.
      assert (Hnd' : NoDup (map (fun x => name (gateway x)) cs)).
      { rewrite <- (candidates_gateways _ _ _ _ _ _ _ _ Hm), map_map in Hnd. exact Hnd. }
      apply (NoDup_map_inj (fun x => name (gateway x)) cs); congruence.
    - eapply find_none in Ef; [|by apply list_elem_of_In]. simpl in Ef. to_prop. done. }
  assert (Ho : o = None \/ exists c', o = Some c' /\ name (gateway c') = b).
  { subst o. destruct (apply_selection_rule _ _ _) as [[c'|] r]; simpl; [|by left].
    rewrite bool_decide_false by done. simpl.
    destruct (bool_decide (name (gateway c') = b)) eqn:E; to_prop; simpl; [right; eauto|].
    rewrite Hfind, Hcap. by left. }
  destruct Ho as [->|(c' & -> & Hn')]; simpl.
  - split; [by left|]. exists bs. done.
  - split; [right; by rewrite Hn'|]. eexists. split; [done|].
    unfold get_current_best, update_binding. rewrite Hn'. split; [apply lookup_insert_eq|].
    intros m Hm'. apply lookup_insert_ne. intros E. symmetry in E.
    apply mid_eqb_spec in E. congruence.
Qed.

Definition sample_crowded : list Gateway :=
  [sample_gateway "edge" 2000 24000 30000 64000 [sample_id "model-b"] [] []
     [(sample_id "model-a", (9000, 2000)); (sample_id "model-b", (4000, 1000))];
   sample_gateway "spare" 20000 24000 30000 64000 [] [] [] [(sample_id "model-a", (9000, 2000))]].

Definition sample_bound : bindings_t := update_binding (sample_id "model-a") "edge" ∅.

Definition constrained_at (n : string)
    (r : exn (option Gateway * DecisionTrace * option bindings_t)) : bool :=
  match r with
  | Ok (_, tr, _) => existsb (fun c => bool_decide (name (gateway c) = n)
                                       && is_capacity_constrained c) (candidates tr)
  | Raise _ => false
  end.

Lemma sticky_model_stays_witness :
  match select sample_engine sample_env sample_crowded
          (sample_placement (sample_id "model-a") 9000 2000) None None (Some sample_bound) with
  | Ok (sel, _, _) => sel = None \/ name <$> sel = Some "edge"%string
  | Raise _ => False
  end.
Proof.
  set (p := sample_placement (sample_id "model-a") 9000 2000).
  assert (Hc : constrained_at "edge" (select sample_engine sample_env sample_crowded p None None
            (Some sample_bound)) = true) by (vm_compute; reflexivity).
  destruct (select _ _ _ _ _ _ _) as [[[sel tr] tr']|] eqn:E; [|discriminate Hc].
  simpl in Hc. apply existsb_exists in Hc as (c & Hin & Hc). apply andb_true_iff in Hc as [Hn Hc].
  apply (sticky_model_stays sample_engine sample_env sample_crowded p None None sample_bound
           sel tr tr' "edge" c E); [reflexivity | reflexivity | done | | | | exact Hc].
  - apply (bool_decide_eq_true_1 (NoDup ["edge"%string; "spare"%string])). reflexivity.
  - by apply list_elem_of_In.
  - by apply bool_decide_eq_true in Hn.
Defined.

(** A retry never comes back to a gateway it has excluded, and with
    every gateway excluded the engine answers "none" without raising. *)
Theorem select_excluding_sound e env gs p ex req sticky tr0 sel tr tr' :
  select_excluding e env gs p ex req sticky tr0 = Ok (sel, tr, tr') ->
  (forall g, sel = Some g -> g ∈ gs /\ name g ∉ ex) /\
  ((forall g, g ∈ gs -> name g ∈ ex) -> sel = None /\ candidates tr = [] /\ tr' = tr0).
Proof.
  unfold select_excluding. intros H.
  destruct (List.filter _ gs) as [|g0 gs'] eqn:Ef.
  { injection H as <- <- <-. split; [done|]. done. }
  rewrite <- Ef in H. apply select_inv in H as (cs & c & Hm & Hg & -> & -> & _ & _ & ->).
  split.
  - intros g Hs. destruct c as [c|]; [|done]. injection Hs as <-.
    pose proof (selected_candidate _ _ _ _ _ _ _ _ _ _ _ _ Hm Hg) as (_ & _ & Hin & _).
    apply elem_of_lfilter in Hin as [? Hn]. to_prop. done.
  - intros Hall. assert (Hin : g0 ∈ g0 :: gs') by constructor. rewrite <- Ef in Hin.
    apply elem_of_lfilter in Hin as [Hin Hn]. to_prop. by apply Hall in Hin.
Qed.

Lemma select_excluding_sound_witness :
  match select_excluding sample_engine sample_env sample_gateways
          (sample_placement (sample_id "model-a") 9000 2000) ["spare"%string] None None None with
  | Ok (sel, _, _) => forall g, sel = Some g -> g ∈ sample_gateways /\ name g ∉ ["spare"%string]
  | Raise _ => False
  end.
Proof.
  set (p := sample_placement (sample_id "model-a") 9000 2000).
  assert (Ht : is_ok (select_excluding sample_engine sample_env sample_gateways p
                 ["spare"%string] None None None) = true) by (vm_compute; reflexivity).
  destruct (select_excluding _ _ _ _ _ _ _ _) as [[[sel tr] tr']|] eqn:E; [|discriminate Ht].
  apply (select_excluding_sound sample_engine sample_env sample_gateways p
           ["spare"%string] None None None sel tr tr' E).
Defined.

(** Selection is total: with a parseable original id and a non-zero
    telemetry age limit the engine always answers, whatever the gateways
    report. *)
Theorem select_total e env gs p req sticky tr0 :
  is_ok (original_parsed p) = true -> telemetry_max_age_ms (policy e) <> 0 ->
  is_ok (select e env gs p req sticky tr0) = true.
Proof.
  intros Hp Hm. unfold select.
  match goal with |- context [map_exn ?f gs] => assert (Hc : is_ok (map_exn f gs) = true) end.
  { apply map_exn_ok. intros g _. unfold evaluate_candidate.
    pose proof (evaluate_ok (plan_context e env g) (gateway_available_fn e) g p Hp) as He.
    destruct (evaluate_feasibility _ _ _ _) as [[[t fs] pl]|]; [|done]. simpl.
    assert (Hu : forall r b s, is_ok (calculate_utility (wall_clock env) (jitter_of env g) g p
                   (policy e) t pl r b s) = true).
    { intros r b s. unfold calculate_utility, scorer_is_model_loaded, scorer_is_model_loading.
      destruct (original_parsed p); [|done]. simpl.
      destruct (match resolve_gateway_requirements g p with inl _ => _ | inr _ => _ end).
      unfold calculate_staleness_score. apply Z.eqb_neq in Hm. rewrite Hm.
      repeat (case_goal; simpl; try done). }
    destruct t; [done | |];
      match goal with |- context [calculate_utility ?a ?b ?c ?d ?e ?t ?f ?r ?bb ?s] =>
        specialize (Hu r bb s); destruct (calculate_utility a b c d e t f r bb s) end; done. }
  destruct (map_exn _ gs); [|done]. simpl. by destruct (sticky_guard _ _ _ _).
Qed.

Lemma select_total_witness :
  is_ok (select sample_engine sample_env sample_gateways
           (sample_placement (sample_id "model-a") 9000 2000) None None None) = true.
Proof.
  apply (select_total sample_engine sample_env sample_gateways
           (sample_placement (sample_id "model-a") 9000 2000) None None None);
    [reflexivity | discriminate].
Defined.

(** The sticky guard takes a permanent failure for a temporary one.  The
    bound gateway can never hold the model (every failure it reports is
    stamped not retryable), another gateway could serve it at once, and the
    engine still answers "wait for the bound gateway", because the guard
    looks at constraint names only. *)
Theorem sticky_guard_waits_on_structural :
  let big := sample_id "model-a" in
  let edge := sample_gateway "edge" 2000 24000 30000 64000 [] [] [] [(big, (40000, 2000))] in
  let spare := sample_gateway "spare" 70000 80000 30000 64000 [] [] [] [(big, (40000, 2000))] in
  match select sample_engine sample_env [edge; spare] (sample_placement big 40000 2000)
          None None (Some sample_bound) with
  | Ok (None, tr, _) =>
      selection_reason tr = sticky_capacity_wait "edge" /\
      map (fun c => (tier c, map retryable (constraints_failed c))) (candidates tr)
        = [(T0_INFEASIBLE, [Some false; Some false]); (T1_FEASIBLE_NOW, [])]
  | _ => False
  end.
Proof. vm_compute. split; reflexivity. Qed.
