(* ===== verification/CapacityPool.v ===== *)
(** * The capacity pool

    Per-(gateway, model) admission of inference requests
    ([systems/routing/capacity/_pool/]).  The event loop is single-threaded
    and a coroutine runs without interruption up to its next suspension, so
    every definition below is one such uninterrupted stretch of code, a
    function on the pool state; [CapacityPoolSteps.v] interleaves them.

    Futures live in a heap ([futures]), as the waiter in the queue and the
    task that awaits it share one; tasks made by [asyncio.create_task] are
    the entries of [bg].  [time.monotonic()] is read once per stretch (the
    argument [now]); [random.shuffle] is the function [shuf] on the request
    id and the list. *)
From stdpp Require Import base gmap list strings.
From Stdlib Require Import ZArith QArith Lia Lqa.
From S2P Require Import Prelude PyFloat.
Local Open Scope Z_scope.

(** ** Data *)

(** [_Slot(gateway_id, model_id)] *)
Notation slot := (string * string)%type.

(** [asyncio.Future[str]] *)
Inductive Future :=
  | FPending
  | FResult (gw : string)
  | FException (reason : string)
  | FCancelled.

#[export] Instance Future_eq_dec : EqDecision Future.
Proof. solve_decision. Defined.

Definition future_done (f : Future) : bool := match f with FPending => false | _ => true end.

(** [_Waiter] *)
Record Waiter := mkWaiter {
  w_request_id : string;
  allowed_gateway_ids : list string;
  w_future : nat;
  queued_at : Q
}.

(** [CapacityToken] *)
Record CapacityToken := mkToken {
  t_gateway_id : string;
  t_model_id : string;
  t_request_id : string;
  t_queued : bool;
  acquired_at : Q;
  t_released : bool
}.

Inductive PoolEvent :=
  | CapacityPoolQueued (rid m : string) (position allowed : Z)
  | CapacityPoolAdmitted (rid m gw : string) (wait_ms : Q)
  | CapacityPoolWaiting (rid m : string) (wait_ms : Q) (position depth : Z)
  | CapacityPoolFull (rid m : string) (depth max_depth : Z)
  | CapacityPoolCancelled (rid m : string) (wait_ms : Q) (reason : string)
  | CapacityAdmissionPaused (m : string) (duration_s : Q) (reason : string)
  | CapacityAdmissionResumed (m reason : string)
  | CapacitySlotLeakRecovered (rid gw m : string).

(** Tasks created in the background. *)
Inductive BgTask :=
  | BgDispatch (m : string)
  | BgResume (m : string) (duration_s : Q).

Record CapacityPool := mkPool {
  has_event_bus : bool;
  max_queue_depth : Z;
  capacity : list (slot * Z);
  in_flight : gmap slot Z;
  queues : list (string * list Waiter);
  subscribed : bool;
  paused_until : gmap string Q;
  paused_reason : gmap string string;
  resume_tasks : gmap string nat;
  slot_last_change : gmap slot Q;
  cold_slot_reset_quiet_s : Q;
  futures : gmap nat Future;
  next_future : nat;
  bg : gmap nat BgTask;
  next_task : nat;
  events : list PoolEvent
}.

(** [CapacityPool.__init__] *)
Definition new_pool (event_bus : bool) (max_depth : Z) : CapacityPool := {|
  has_event_bus := event_bus; max_queue_depth := Z.max 0 max_depth; capacity := [];
  in_flight := ∅; queues := []; subscribed := false; paused_until := ∅; paused_reason := ∅;
  resume_tasks := ∅; slot_last_change := ∅; cold_slot_reset_quiet_s := 120;
  futures := ∅; next_future := 0; bg := ∅; next_task := 0; events := [] |}.

(** *** Field updates *)

Definition with_capacity (c : list (slot * Z)) (p : CapacityPool) : CapacityPool :=
  {| has_event_bus := has_event_bus p; max_queue_depth := max_queue_depth p; capacity := c;
     in_flight := in_flight p; queues := queues p; subscribed := subscribed p;
     paused_until := paused_until p; paused_reason := paused_reason p;
     resume_tasks := resume_tasks p; slot_last_change := slot_last_change p;
     cold_slot_reset_quiet_s := cold_slot_reset_quiet_s p; futures := futures p;
     next_future := next_future p; bg := bg p; next_task := next_task p; events := events p |}.

Definition with_in_flight (f : gmap slot Z) (p : CapacityPool) : CapacityPool :=
  {| has_event_bus := has_event_bus p; max_queue_depth := max_queue_depth p;
     capacity := capacity p; in_flight := f; queues := queues p; subscribed := subscribed p;
     paused_until := paused_until p; paused_reason := paused_reason p;
     resume_tasks := resume_tasks p; slot_last_change := slot_last_change p;
     cold_slot_reset_quiet_s := cold_slot_reset_quiet_s p; futures := futures p;
     next_future := next_future p; bg := bg p; next_task := next_task p; events := events p |}.

Definition with_last_change (c : gmap slot Q) (p : CapacityPool) : CapacityPool :=
  {| has_event_bus := has_event_bus p; max_queue_depth := max_queue_depth p;
     capacity := capacity p; in_flight := in_flight p; queues := queues p;
     subscribed := subscribed p; paused_until := paused_until p;
     paused_reason := paused_reason p; resume_tasks := resume_tasks p; slot_last_change := c;
     cold_slot_reset_quiet_s := cold_slot_reset_quiet_s p; futures := futures p;
     next_future := next_future p; bg := bg p; next_task := next_task p; events := events p |}.

Definition with_queues (q : list (string * list Waiter)) (p : CapacityPool) : CapacityPool :=
  {| has_event_bus := has_event_bus p; max_queue_depth := max_queue_depth p;
     capacity := capacity p; in_flight := in_flight p; queues := q; subscribed := subscribed p;
     paused_until := paused_until p; paused_reason := paused_reason p;
     resume_tasks := resume_tasks p; slot_last_change := slot_last_change p;
     cold_slot_reset_quiet_s := cold_slot_reset_quiet_s p; futures := futures p;
     next_future := next_future p; bg := bg p; next_task := next_task p; events := events p |}.

Definition with_subscribed (b : bool) (p : CapacityPool) : CapacityPool :=
  {| has_event_bus := has_event_bus p; max_queue_depth := max_queue_depth p;
     capacity := capacity p; in_flight := in_flight p; queues := queues p; subscribed := b;
     paused_until := paused_until p; paused_reason := paused_reason p;
     resume_tasks := resume_tasks p; slot_last_change := slot_last_change p;
     cold_slot_reset_quiet_s := cold_slot_reset_quiet_s p; futures := futures p;
     next_future := next_future p; bg := bg p; next_task := next_task p; events := events p |}.

Definition with_pause (u : gmap string Q) (r : gmap string string) (t : gmap string nat)
    (p : CapacityPool) : CapacityPool :=
  {| has_event_bus := has_event_bus p; max_queue_depth := max_queue_depth p;
     capacity := capacity p; in_flight := in_flight p; queues := queues p;
     subscribed := subscribed p; paused_until := u; paused_reason := r; resume_tasks := t;
     slot_last_change := slot_last_change p;
     cold_slot_reset_quiet_s := cold_slot_reset_quiet_s p; futures := futures p;
     next_future := next_future p; bg := bg p; next_task := next_task p; events := events p |}.

Definition with_futures (f : gmap nat Future) (n : nat) (p : CapacityPool) : CapacityPool :=
  {| has_event_bus := has_event_bus p; max_queue_depth := max_queue_depth p;
     capacity := capacity p; in_flight := in_flight p; queues := queues p;
     subscribed := subscribed p; paused_until := paused_until p;
     paused_reason := paused_reason p; resume_tasks := resume_tasks p;
     slot_last_change := slot_last_change p;
     cold_slot_reset_quiet_s := cold_slot_reset_quiet_s p; futures := f; next_future := n;
     bg := bg p; next_task := next_task p; events := events p |}.

Definition with_bg (b : gmap nat BgTask) (n : nat) (p : CapacityPool) : CapacityPool :=
  {| has_event_bus := has_event_bus p; max_queue_depth := max_queue_depth p;
     capacity := capacity p; in_flight := in_flight p; queues := queues p;
     subscribed := subscribed p; paused_until := paused_until p;
     paused_reason := paused_reason p; resume_tasks := resume_tasks p;
     slot_last_change := slot_last_change p;
     cold_slot_reset_quiet_s := cold_slot_reset_quiet_s p; futures := futures p;
     next_future := next_future p; bg := b; next_task := n; events := events p |}.

(** Events go to the bus when there is one. *)
Definition publish (e : PoolEvent) (p : CapacityPool) : CapacityPool :=
  if has_event_bus p then
  {| has_event_bus := has_event_bus p; max_queue_depth := max_queue_depth p;
     capacity := capacity p; in_flight := in_flight p; queues := queues p;
     subscribed := subscribed p; paused_until := paused_until p;
     paused_reason := paused_reason p; resume_tasks := resume_tasks p;
     slot_last_change := slot_last_change p;
     cold_slot_reset_quiet_s := cold_slot_reset_quiet_s p; futures := futures p;
     next_future := next_future p; bg := bg p; next_task := next_task p;
     events := events p ++ [e] |}
  else p.

(** [asyncio.create_task] and [task.cancel()] *)
Definition create_task (t : BgTask) (p : CapacityPool) : CapacityPool :=
  with_bg (<[next_task p := t]> (bg p)) (S (next_task p)) p.
Definition cancel_task (id : nat) (p : CapacityPool) : CapacityPool :=
  with_bg (delete id (bg p)) (next_task p) p.

(** [deque] of a model, empty when there is none. *)
Definition queue_of (m : string) (p : CapacityPool) : list Waiter := get_or [] (dget m (queues p)).
Definition in_flight_of (s : slot) (p : CapacityPool) : Z := get_or 0 (in_flight p !! s).
Definition capacity_of (s : slot) (p : CapacityPool) : Z := get_or 0 (dget s (capacity p)).

(** ** Events *)

Definition ms (now start : Q) : Q := fmul (fsub now start) 1000.

Definition emit_admission_paused (m : string) (d : Q) (reason : string) (p : CapacityPool) :=
  publish (CapacityAdmissionPaused m d reason) p.
Definition emit_admission_resumed (m reason : string) (p : CapacityPool) :=
  publish (CapacityAdmissionResumed m reason) p.
Definition emit_slot_leak_recovered (rid gw m : string) (p : CapacityPool) :=
  publish (CapacitySlotLeakRecovered rid gw m) p.
Definition emit_queue_entered (rid m : string) (pos n : Z) (p : CapacityPool) :=
  publish (CapacityPoolQueued rid m pos n) p.
Definition emit_queue_admitted (rid m gw : string) (wait_ms : Q) (p : CapacityPool) :=
  publish (CapacityPoolAdmitted rid m gw wait_ms) p.
Definition emit_queue_full (rid m : string) (depth : Z) (p : CapacityPool) :=
  publish (CapacityPoolFull rid m depth (max_queue_depth p)) p.
Definition emit_queue_cancelled (rid m : string) (wait_ms : Q) (reason : string)
    (p : CapacityPool) :=
  publish (CapacityPoolCancelled rid m wait_ms reason) p.

(** 1-based position of a request in a queue. *)
Fixpoint position_from (i : Z) (rid : string) (q : list Waiter) : option Z :=
  match q with
  | [] => None
  | w :: q' => if bool_decide (w_request_id w = rid) then Some i else position_from (i + 1) rid q'
  end.

Definition emit_queue_waiting (rid m : string) (wait_ms : Q) (p : CapacityPool) : CapacityPool :=
  match position_from 1 rid (queue_of m p) with
  | Some pos => publish (CapacityPoolWaiting rid m wait_ms pos (Z.of_nat (length (queue_of m p)))) p
  | None => p
  end.

(** ** Bookkeeping *)

Definition available (s : slot) (p : CapacityPool) : Z :=
  Z.max 0 (capacity_of s p - in_flight_of s p).

(** [get_slot_info]: (available, in_flight, capacity). *)
Definition get_slot_info (s : slot) (p : CapacityPool) : Z * Z * Z :=
  (Z.max 0 (capacity_of s p - in_flight_of s p), in_flight_of s p, capacity_of s p).

Definition by_available_desc (a b : string * Z) : bool := snd b <? snd a.

Definition get_available_gateways (m : string) (p : CapacityPool) : list (string * Z) :=
  sort_by by_available_desc
    (List.filter (fun ga => 0 <? snd ga)
       (map (fun s => (fst s, available s p))
          (List.filter (fun s => bool_decide (snd s = m)) (dkeys (capacity p))))).

Definition slot_quiet_elapsed (now : Q) (s : slot) (quiet_s : option Q) (p : CapacityPool) : bool :=
  match slot_last_change p !! s with
  | None => false
  | Some last => fle (get_or (cold_slot_reset_quiet_s p) quiet_s) (fsub now last)
  end.

Definition reset_cold_slot (now : Q) (s : slot) (placeholder : Z) (p : CapacityPool) : CapacityPool :=
  create_task (BgDispatch (snd s))
    (with_last_change (<[s := now]> (slot_last_change p))
      (with_capacity (dset s placeholder (capacity p))
        (with_in_flight (<[s := 0]> (in_flight p)) p))).

Definition set_capacity (s : slot) (max_concurrent : Z) (p : CapacityPool) : CapacityPool :=
  let max_concurrent := if max_concurrent <? 0 then 0 else max_concurrent in
  let old := capacity_of s p in
  let p := with_capacity (dset s max_concurrent (capacity p)) p in
  let p := match in_flight p !! s with
           | Some _ => p
           | None => with_in_flight (<[s := 0]> (in_flight p)) p
           end in
  if (old <? max_concurrent) && bool_decide (is_Some (dget (snd s) (queues p)))
  then create_task (BgDispatch (snd s)) p else p.

(** One slot of [remove_gateway], and [remove_model]. *)
Definition remove_slot (s : slot) (p : CapacityPool) : CapacityPool :=
  if 0 <? in_flight_of s p then with_capacity (dset s 0 (capacity p)) p
  else with_in_flight (delete s (in_flight p)) (with_capacity (ddel s (capacity p)) p).

Definition remove_model (s : slot) (p : CapacityPool) : CapacityPool :=
  match dget s (capacity p) with
  | None => p
  | Some _ => remove_slot s p
  end.

Definition remove_gateway (gw : string) (p : CapacityPool) : CapacityPool :=
  let slots := List.filter (fun s => bool_decide (fst s = gw)) (dkeys (capacity p)) in
  foldl (fun p s => remove_slot s p) p slots.

(** ** Pause *)

Definition clear_pause (m reason : string) (p : CapacityPool) : CapacityPool :=
  let was_paused := bool_decide (is_Some (paused_until p !! m)) in
  let task := resume_tasks p !! m in
  let p := with_pause (delete m (paused_until p)) (delete m (paused_reason p))
                      (delete m (resume_tasks p)) p in
  let p := match task with Some id => cancel_task id p | None => p end in
  if was_paused then emit_admission_resumed m reason p else p.

(** [is_paused] drops an elapsed pause on the way. *)
Definition is_paused (now : Q) (m : string) (p : CapacityPool) : bool * CapacityPool :=
  match paused_until p !! m with
  | None => (false, p)
  | Some deadline => if fle deadline now then (false, clear_pause m "expired_lazy" p) else (true, p)
  end.

(** Returns the seconds the caller is told. *)
Definition pause_admission (now : Q) (m : string) (duration_s : Q) (reason : string)
    (p : CapacityPool) : Q * CapacityPool :=
  if fle duration_s 0 then (0%Q, p)
  else
    let new_deadline := fadd now duration_s in
    let existing := get_or (0 : Q) (paused_until p !! m) in
    if fle new_deadline existing then (fmax 0 (fsub existing now), p)
    else
      let old_task := resume_tasks p !! m in
      let p := match old_task with Some id => cancel_task id p | None => p end in
      let p := with_pause (<[m := new_deadline]> (paused_until p))
                          (<[m := reason]> (paused_reason p))
                          (<[m := next_task p]> (resume_tasks p)) p in
      let p := create_task (BgResume m duration_s) p in
      (duration_s, emit_admission_paused m duration_s reason p).

Definition resume_admission (m reason : string) (p : CapacityPool) : bool * CapacityPool :=
  match paused_until p !! m with
  | None => (false, p)
  | Some _ => (true, create_task (BgDispatch m) (clear_pause m reason p))
  end.

(** ** Admission *)

Section Admission.
Context (now : Q) (shuf : string -> list (string * Z) -> list (string * Z)).

Definition ranked (m : string) (allowed : list string) (p : CapacityPool) : list (string * Z) :=
  List.filter (fun ga => 0 <? snd ga) (map (fun gw => (gw, available (gw, m) p)) allowed).

Definition take_slot (s : slot) (p : CapacityPool) : CapacityPool :=
  with_last_change (<[s := now]> (slot_last_change p))
    (with_in_flight (<[s := in_flight_of s p + 1]> (in_flight p)) p).

Definition try_immediate (rid m : string) (allowed : list string) (p : CapacityPool)
    : option string * CapacityPool :=
  let (paused, p) := is_paused now m p in
  if paused then (None, p)
  else match ranked m allowed p with
       | [] => (None, p)
       | l => match sort_by by_available_desc (shuf rid l) with
              | (gw, _) :: _ => (Some gw, take_slot (gw, m) p)
              | [] => (None, p)
              end
       end.

(** [future.set_result]: [None] stands for [InvalidStateError]. *)
Definition set_result (f : nat) (gw : string) (p : CapacityPool) : option CapacityPool :=
  match futures p !! f with
  | Some FPending => Some (with_futures (<[f := FResult gw]> (futures p)) (next_future p) p)
  | _ => None
  end.

Definition fut (f : nat) (p : CapacityPool) : Future := get_or FCancelled (futures p !! f).

(** Undo of an admission nobody can claim. *)
Definition give_back (s : slot) (p : CapacityPool) : CapacityPool :=
  with_in_flight (<[s := Z.max 0 (in_flight_of s p - 1)]> (in_flight p)) p.

(** The loop of [_dispatch]: returns the waiters that stay, in order. *)
Fixpoint dispatch_loop (m : string) (q : list Waiter) (p : CapacityPool)
    : list Waiter * CapacityPool :=
  match q with
  | [] => ([], p)
  | w :: q' =>
      if future_done (fut (w_future w) p) then dispatch_loop m q' p
      else
        let (gw, p) := try_immediate (w_request_id w) m (allowed_gateway_ids w) p in
        match gw with
        | None => let (stay, p') := dispatch_loop m q' p in (w :: stay, p')
        | Some gw =>
            if future_done (fut (w_future w) p) then dispatch_loop m q' (give_back (gw, m) p)
            else match set_result (w_future w) gw p with
                 | Some p' => dispatch_loop m q' p'
                 | None => dispatch_loop m q' (give_back (gw, m) p)
                 end
        end
  end.

Definition dispatch (m : string) (p : CapacityPool) : CapacityPool :=
  match dget m (queues p) with
  | None | Some [] => p
  | Some q =>
      let (stay, p) := dispatch_loop m q p in
      match stay with
      | [] => with_queues (ddel m (queues p)) p
      | _ => with_queues (dset m stay (queues p)) p
      end
  end.

(** The subscriber of [GATEWAY_RESOURCE_UPDATE]. *)
Definition on_resource_update (p : CapacityPool) : CapacityPool :=
  foldl (fun p m => dispatch m p) p (dkeys (queues p)).

(** [reconcile_gateway_state] *)
Definition reconcile_gateway_state (gw : string) (idle : list string) (p : CapacityPool)
    : CapacityPool :=
  let recovered := List.filter (fun m => 0 <? in_flight_of (gw, m) p) idle in
  let p := foldl (fun p m => with_in_flight (<[(gw, m) := 0]> (in_flight p)) p) p recovered in
  foldl (fun p m => dispatch m p) p recovered.

(** ** Release *)

(** [_release].  [del self._in_flight[slot]] raises [KeyError] when the slot
    is missing. *)
Definition release_slot (s : slot) (p : CapacityPool) : exn CapacityPool :=
  let n := in_flight_of s p in
  let p := if n <=? 0 then p
           else with_last_change (<[s := now]> (slot_last_change p))
                  (with_in_flight (<[s := n - 1]> (in_flight p)) p) in
  let? p := (if (in_flight_of s p =? 0) && (get_or (-1) (dget s (capacity p)) =? 0)
    then match in_flight p !! s with
         | None => Raise KeyError
         | Some _ => Ok (with_in_flight (delete s (in_flight p))
                           (with_capacity (ddel s (capacity p)) p))
         end
    else Ok p) in
  Ok (dispatch (snd s) p).

(** [CapacityToken.release]: (token, pool) after. *)
Definition token_release (t : CapacityToken) (p : CapacityPool) : exn (CapacityToken * CapacityPool) :=
  if t_released t then Ok (t, p)
  else
    let t' := mkToken (t_gateway_id t) (t_model_id t) (t_request_id t) (t_queued t)
                      (acquired_at t) true in
    let? p := release_slot (t_gateway_id t, t_model_id t) p in Ok (t', p).

Definition held_ms (t : CapacityToken) : Q := ms now (acquired_at t).

(** ** Cancellation *)

(** First waiter with the request id, over the queues in order. *)
Fixpoint remove_first (rid : string) (q : list Waiter) : option (Waiter * list Waiter) :=
  match q with
  | [] => None
  | w :: q' =>
      if bool_decide (w_request_id w = rid) then Some (w, q')
      else match remove_first rid q' with
           | Some (x, q'') => Some (x, w :: q'')
           | None => None
           end
  end.

Fixpoint find_waiter (rid : string) (qs : list (string * list Waiter))
    : option (string * Waiter * list Waiter) :=
  match qs with
  | [] => None
  | (m, q) :: qs' =>
      match remove_first rid q with
      | Some (w, q') => Some (m, w, q')
      | None => find_waiter rid qs'
      end
  end.

Definition remove_waiter (rid reason : string) (wake_with_exception : bool) (p : CapacityPool)
    : bool * CapacityPool :=
  match find_waiter rid (queues p) with
  | None => (false, p)
  | Some (m, w, q') =>
      let p := if future_done (fut (w_future w) p) then p
               else with_futures (<[w_future w := if wake_with_exception then FException reason
                                                  else FCancelled]> (futures p))
                                 (next_future p) p in
      let p := match q' with
               | [] => with_queues (ddel m (queues p)) p
               | _ => with_queues (dset m q' (queues p)) p
               end in
      (true, emit_queue_cancelled rid m (ms now (queued_at w)) reason p)
  end.

Definition cancel_request (rid reason : string) (p : CapacityPool) : bool * CapacityPool :=
  remove_waiter rid reason true p.

Definition recover_leaked_slot (rid gw m : string) (p : CapacityPool) : CapacityPool :=
  let n := in_flight_of (gw, m) p in
  if n <=? 0 then p
  else create_task (BgDispatch m)
         (emit_slot_leak_recovered rid gw m
            (with_in_flight (<[(gw, m) := n - 1]> (in_flight p)) p)).

(** ** Waiting *)

(** A task suspended in [_wait_for_slot]. *)
Record WaitTask := mkWait {
  k_request_id : string;
  k_model_id : string;
  k_future : nat;
  k_deadline : option Q;
  k_start : Q
}.

Inductive AcqResult :=
  | AcqToken (t : CapacityToken)
  | AcqWaiting (k : WaitTask)
  | AcqError (e : error).

Definition mk_token (gw m rid : string) (queued : bool) : CapacityToken :=
  mkToken gw m rid queued now false.

Definition deadline_passed (d : option Q) : bool :=
  match d with Some d => fle d now | None => false end.

(** The top of the wait loop once the deadline has passed. *)
Definition at_deadline (k : WaitTask) (p : CapacityPool) : AcqResult * CapacityPool :=
  match fut (k_future k) p with
  | FResult gw =>
      (AcqToken (mk_token gw (k_model_id k) (k_request_id k) true),
       emit_queue_admitted (k_request_id k) (k_model_id k) gw (ms now (k_start k)) p)
  | FException _ => (AcqError (CancelledError "explicit_cancel"), p)
  | _ =>
      let (_, p) := remove_waiter (k_request_id k) "acquire_timeout" false p in
      (AcqError (CapacityAcquireTimeoutError (k_model_id k)), p)
  end.

(** [acquire_token] up to its first suspension. *)
Definition acquire_start (rid m : string) (allowed : list string) (timeout_s : option Q)
    (p : CapacityPool) : AcqResult * CapacityPool :=
  let p := if has_event_bus p then with_subscribed true p else p in
  let deadline := match timeout_s with
    | Some t => Some (if fle t 0 then now else fadd now t)
    | None => None
    end in
  let (gw, p) := try_immediate rid m allowed p in
  match gw with
  | Some gw => (AcqToken (mk_token gw m rid false), p)
  | None =>
      let depth := Z.of_nat (length (queue_of m p)) in
      if (0 <? max_queue_depth p) && (max_queue_depth p <=? depth) then
        (AcqError (QueueFullError m depth (max_queue_depth p)), emit_queue_full rid m depth p)
      else
        let p := emit_queue_entered rid m (depth + 1) (Z.of_nat (length allowed)) p in
        let f := next_future p in
        let p := with_futures (<[f := FPending]> (futures p)) (S f) p in
        let p := with_queues (dset m (queue_of m p ++ [mkWaiter rid allowed f now]) (queues p)) p in
        let k := mkWait rid m f deadline now in
        if deadline_passed deadline then at_deadline k p else (AcqWaiting k, p)
  end.

(** Why a suspended task runs again. *)
Inductive WakeCause :=
  | SliceTimeout       (* the 15 s slice, or the rest of the deadline, elapsed *)
  | FutureReady        (* the future is done *)
  | TaskCancelled.     (* task.cancel() *)

Definition wait_resume (cause : WakeCause) (k : WaitTask) (p : CapacityPool)
    : AcqResult * CapacityPool :=
  match cause with
  | SliceTimeout =>
      let p := emit_queue_waiting (k_request_id k) (k_model_id k) (ms now (k_start k)) p in
      if deadline_passed (k_deadline k) then at_deadline k p else (AcqWaiting k, p)
  | FutureReady =>
      match fut (k_future k) p with
      | FResult gw =>
          (AcqToken (mk_token gw (k_model_id k) (k_request_id k) true),
           emit_queue_admitted (k_request_id k) (k_model_id k) gw (ms now (k_start k)) p)
      | FException _ => (AcqError (CancelledError "explicit_cancel"), p)
      | FCancelled =>
          let (_, p) := remove_waiter (k_request_id k) "task_cancelled" false p in
          (AcqError (CancelledError ""), p)
      | FPending => (AcqWaiting k, p)
      end
  | TaskCancelled =>
      match fut (k_future k) p with
      | FResult gw =>
          (AcqError (CancelledError ""),
           recover_leaked_slot (k_request_id k) gw (k_model_id k) p)
      | FException _ => (AcqError (CancelledError "explicit_cancel"), p)
      | _ =>
          let (_, p) := remove_waiter (k_request_id k) "task_cancelled" false p in
          (AcqError (CancelledError ""), p)
      end
  end.

(** ** Background tasks *)

(** [_resume_after] once its sleep is over: a cancelled task is no longer in
    [bg].  [_clear_pause] also cancels this very task, which has no further
    suspension. *)
Definition run_bg (id : nat) (p : CapacityPool) : CapacityPool :=
  match bg p !! id with
  | None => p
  | Some (BgDispatch m) => dispatch m (cancel_task id p)
  | Some (BgResume m _) =>
      let p := cancel_task id p in
      match paused_until p !! m with
      | None => p
      | Some deadline =>
          if flt now deadline then p
          else dispatch m (clear_pause m "ttl_expired" p)
      end
  end.

End Admission.

(** ** Diagnostics *)

Record AdmissionState := mkAdmissionState {
  st_paused : bool;
  st_paused_reason : option string;
  st_paused_until_ms : option Z;
  st_queue_depth : Z
}.

Definition get_admission_state (now_mono now_wall : Q) (m : string) (p : CapacityPool)
    : AdmissionState :=
  let depth := Z.of_nat (length (queue_of m p)) in
  match paused_until p !! m with
  | Some deadline =>
      if flt now_mono deadline then
        {| st_paused := true; st_paused_reason := paused_reason p !! m;
           st_paused_until_ms :=
             Some (py_int (fmul (fadd now_wall (fsub deadline now_mono)) (of_int 1000)));
           st_queue_depth := depth |}
      else mkAdmissionState false None None depth
  | None => mkAdmissionState false None None depth
  end.

(** Rows (gateway_id, capacity, in_flight, available). *)
Definition get_model_slots (m : string) (p : CapacityPool) : list (string * Z * Z * Z) :=
  map (fun s => let '(a, i, c) := get_slot_info s p in (fst s, c, i, a))
      (List.filter (fun s => bool_decide (snd s = m)) (dkeys (capacity p))).

Record PoolSnapshot := mkSnapshot {
  sn_capacity : list (slot * Z);
  sn_in_flight : gmap slot Z;
  sn_queues : list (string * list (string * list string * bool));
  sn_paused : gmap string (Q * string);
  sn_total_capacity : Z;
  sn_total_in_flight : Z;
  sn_total_queued : Z
}.

Definition get_snapshot (now : Q) (p : CapacityPool) : PoolSnapshot := {|
  sn_capacity := capacity p;
  sn_in_flight := in_flight p;
  sn_queues := map (fun mq => (fst mq,
      map (fun w => (w_request_id w, allowed_gateway_ids w, future_done (fut (w_future w) p)))
          (snd mq))) (queues p);
  sn_paused := map_imap (fun m deadline =>
      if flt now deadline
      then Some (fmax 0 (fsub deadline now), get_or ""%string (paused_reason p !! m))
      else None) (paused_until p);
  sn_total_capacity := foldr (fun e acc => snd e + acc) 0 (capacity p);
  sn_total_in_flight := map_fold (fun _ n acc => n + acc) 0 (in_flight p);
  sn_total_queued := Z.of_nat (length (List.concat (map snd (queues p)))) |}.
