(* ===== verification/CapacityPoolSteps.v ===== *)
(** * Interleavings of the capacity pool

    The world of the pool: its state, the tokens handed out and the tasks
    suspended in [_wait_for_slot], stepped by the operations of
    [CapacityPool.v] in any order.  [reset_cold_slot] and
    [reconcile_gateway_state] are not steps: they overwrite the count on
    purpose, to repair what a leak elsewhere broke. *)
From stdpp Require Import base gmap list strings.
From Stdlib Require Import ZArith QArith Lia Lqa.
From S2P Require Import Prelude PyFloat CapacityPool.
Local Open Scope Z_scope.

(** ** Worlds and steps *)

Record World := mkWorld {
  pool : CapacityPool;
  tokens : list CapacityToken;
  waiting : list WaitTask
}.

Notation shuffle_t := (string -> list (string * Z) -> list (string * Z)).

(** The operations of the pool, except the two repairs:
    [reset_cold_slot] and [reconcile_gateway_state], which the gateway manager
    calls when a snapshot reports a model as absent or idle, overwrite the count
    of a slot whatever tokens there are; [repair_over_admits] shows what
    becomes of a token that is still held. *)
Inductive Op :=
  | OpAcquire (now : Q) (shuf : shuffle_t) (rid m : string) (allowed : list string)
              (timeout_s : option Q)
  | OpWake (now : Q) (cause : WakeCause) (i : nat)
  | OpRelease (now : Q) (shuf : shuffle_t) (i : nat)
  | OpBackground (now : Q) (shuf : shuffle_t) (id : nat)
  | OpSetCapacity (s : slot) (max_concurrent : Z)
  | OpRemoveModel (s : slot)
  | OpRemoveGateway (gw : string)
  | OpPause (now : Q) (m : string) (duration_s : Q) (reason : string)
  | OpResume (m reason : string)
  | OpCancel (now : Q) (rid reason : string)
  | OpResourceUpdate (now : Q) (shuf : shuffle_t).

Definition with_pool (p : CapacityPool) (w : World) : World := mkWorld p (tokens w) (waiting w).

Definition run_op (o : Op) (w : World) : exn World :=
  let p := pool w in
  match o with
  | OpAcquire now shuf rid m allowed timeout_s =>
      match acquire_start now shuf rid m allowed timeout_s p with
      | (AcqToken t, p') => Ok (mkWorld p' (tokens w ++ [t]) (waiting w))
      | (AcqWaiting k, p') => Ok (mkWorld p' (tokens w) (waiting w ++ [k]))
      | (AcqError _, p') => Ok (with_pool p' w)
      end
  | OpWake now cause i =>
      match waiting w !! i with
      | None => Ok w
      | Some k =>
          match wait_resume now cause k p with
          | (AcqToken t, p') => Ok (mkWorld p' (tokens w ++ [t]) (delete i (waiting w)))
          | (AcqWaiting _, p') => Ok (with_pool p' w)
          | (AcqError _, p') => Ok (mkWorld p' (tokens w) (delete i (waiting w)))
          end
      end
  | OpRelease now shuf i =>
      match tokens w !! i with
      | None => Ok w
      | Some t =>
          let? r := token_release now shuf t p in
          Ok (mkWorld (snd r) (<[i := fst r]> (tokens w)) (waiting w))
      end
  | OpBackground now shuf id => Ok (with_pool (run_bg now shuf id p) w)
  | OpSetCapacity s n => Ok (with_pool (set_capacity s n p) w)
  | OpRemoveModel s => Ok (with_pool (remove_model s p) w)
  | OpRemoveGateway gw => Ok (with_pool (remove_gateway gw p) w)
  | OpPause now m d reason => Ok (with_pool (snd (pause_admission now m d reason p)) w)
  | OpResume m reason => Ok (with_pool (snd (resume_admission m reason p)) w)
  | OpCancel now rid reason => Ok (with_pool (snd (cancel_request now rid reason p)) w)
  | OpResourceUpdate now shuf => Ok (with_pool (on_resource_update now shuf p) w)
  end.

(** When an operation can happen: request ids of concurrent requests differ,
    and the shuffle permutes. *)
Definition is_shuffle (shuf : shuffle_t) : Prop := forall rid l, shuf rid l ≡ₚ l.

Definition enabled (o : Op) (w : World) : Prop :=
  match o with
  | OpAcquire _ shuf rid _ _ _ => rid ∉ map k_request_id (waiting w) /\ is_shuffle shuf
  | OpRelease _ shuf _ | OpBackground _ shuf _ | OpResourceUpdate _ shuf => is_shuffle shuf
  | _ => True
  end.

Definition step (w w' : World) : Prop := exists o, enabled o w /\ run_op o w = Ok w'.

Inductive reachable : World -> Prop :=
  | R_init bus depth : reachable (mkWorld (new_pool bus depth) [] [])
  | R_step w w' : reachable w -> step w w' -> reachable w'.

(** ** Counting *)

Definition holds_token (s : slot) (t : CapacityToken) : bool :=
  negb (t_released t) && bool_decide ((t_gateway_id t, t_model_id t) = s).

(** A suspended task whose future already carries a gateway. *)
Definition holds_future (futs : gmap nat Future) (s : slot) (k : WaitTask) : bool :=
  match futs !! k_future k with
  | Some (FResult gw) => bool_decide ((gw, k_model_id k) = s)
  | _ => false
  end.

Definition count {A} (f : A -> bool) (l : list A) : Z := Z.of_nat (length (List.filter f l)).

Definition admitted (s : slot) (futs : gmap nat Future) (ts : list CapacityToken)
    (ks : list WaitTask) : Z :=
  count (holds_token s) ts + count (holds_future futs s) ks.

Definition b2z (b : bool) : Z := if b then 1 else 0.

Section Count.
Context {A : Type} (f : A -> bool).

Lemma count_app l1 l2 : count f (l1 ++ l2) = count f l1 + count f l2.
Proof. unfold count. rewrite List.filter_app, length_app. lia. Qed.

Lemma count_cons x l : count f (x :: l) = b2z (f x) + count f l.
Proof. unfold count. simpl. destruct (f x); simpl; lia. Qed.

Lemma count_nonneg l : 0 <= count f l.
Proof. unfold count. lia. Qed.

Lemma count_delete i x l : l !! i = Some x -> count f (delete i l) = count f l - b2z (f x).
Proof.
  revert i. induction l as [|y l IH]; intros [|i] H; simplify_eq/=; rewrite !count_cons.
  - lia.
  - rewrite (IH i H). lia.
Qed.

Lemma count_insert i x y l : l !! i = Some x ->
  count f (<[i := y]> l) = count f l - b2z (f x) + b2z (f y).
Proof.
  revert i. induction l as [|z l IH]; intros [|i] H; simplify_eq/=; rewrite !count_cons.
  - lia.
  - rewrite (IH i H). lia.
Qed.

Lemma count_pos x l : x ∈ l -> f x = true -> 0 < count f l.
Proof.
  intros [i Hi]%list_elem_of_lookup Hf. pose proof (count_delete i x l Hi).
  pose proof (count_nonneg (delete i l)). rewrite Hf in *. simpl in *. lia.
Qed.

Lemma count_zero l : (forall x, x ∈ l -> f x = false) -> count f l = 0.
Proof. intros H. unfold count. by rewrite (proj2 (lfilter_nil_iff f l) H). Qed.

End Count.

Lemma count_ext {A} (f g : A -> bool) l : (forall x, x ∈ l -> f x = g x) -> count f l = count g l.
Proof. intros H. unfold count. by rewrite (lfilter_ext_in f g l H). Qed.

(** ** The invariant *)

(** [Q] gives the queue of each model. *)
Record queue_inv (futs : gmap nat Future) (Q : string -> list Waiter) (next : nat)
    (ks : list WaitTask) : Prop := {
  qi_owner : forall m w, w ∈ Q m -> futs !! w_future w = Some FPending /\
     exists k, k ∈ ks /\ k_future k = w_future w /\ k_request_id k = w_request_id w /\ k_model_id k = m;
  qi_waiter : forall k, k ∈ ks -> futs !! k_future k = Some FPending ->
     exists w, w ∈ Q (k_model_id k) /\ w_future w = k_future k;
  qi_rids : forall m, NoDup (map w_request_id (Q m));
  qi_futures : NoDup (map k_future ks);
  qi_requests : NoDup (map k_request_id ks);
  qi_fresh : forall f, is_Some (futs !! f) -> (f < next)%nat;
  qi_defined : forall k, k ∈ ks -> is_Some (futs !! k_future k)
}.

Record slot_inv (ifl : gmap slot Z) (cap : list (slot * Z)) (qs : list (string * list Waiter))
    : Prop := {
  si_dom : forall s, is_Some (dget s cap) -> is_Some (ifl !! s);
  si_caps : NoDup (dkeys cap);
  si_queues : NoDup (dkeys qs)
}.

Definition conserved (ifl : gmap slot Z) (futs : gmap nat Future) (ts : list CapacityToken)
    (ks : list WaitTask) : Prop :=
  forall s, get_or 0 (ifl !! s) = admitted s futs ts ks.

Record inv (p : CapacityPool) (ts : list CapacityToken) (ks : list WaitTask) : Prop := {
  inv_slots : slot_inv (in_flight p) (capacity p) (queues p);
  inv_queue : queue_inv (futures p) (fun m => queue_of m p) (next_future p) ks;
  inv_count : conserved (in_flight p) (futures p) ts ks
}.

(** The part of the pool the invariant reads. *)
Definition core (p : CapacityPool) :=
  (in_flight p, capacity p, queues p, futures p, next_future p).

Lemma inv_core p p' ts ks : core p' = core p -> inv p ts ks -> inv p' ts ks.
Proof.
  unfold core. intros [= E1 E2 E3 E4 E5] [H1 H2 H3]. unfold queue_of in *.
  split; unfold queue_of; by rewrite ?E1, ?E2, ?E3, ?E4, ?E5.
Qed.

Lemma queue_inv_ext futs Q Q' next ks :
  (forall m, Q m = Q' m) -> queue_inv futs Q next ks -> queue_inv futs Q' next ks.
Proof.
  intros E [H1 H2 H3 H4 H5 H6 H7]. split; try done.
  - intros m w. rewrite <- E. apply H1.
  - intros k. rewrite <- E. apply H2.
  - intros m. rewrite <- E. apply H3.
Qed.

(** ** Operations outside the core *)

Lemma core_publish e p : core (publish e p) = core p.
Proof. unfold publish. by destruct (has_event_bus p). Qed.

Lemma core_clear_pause m reason p : core (clear_pause m reason p) = core p.
Proof.
  unfold clear_pause, emit_admission_resumed. cbv zeta.
  destruct (bool_decide _); rewrite ?core_publish; by destruct (resume_tasks p !! m).
Qed.

Lemma core_is_paused now m p : core (snd (is_paused now m p)) = core p.
Proof.
  unfold is_paused. destruct (paused_until p !! m); [|done].
  destruct (fle _ _); [|done]. apply core_clear_pause.
Qed.

Lemma core_queue_of p p' : core p' = core p -> forall m, queue_of m p' = queue_of m p.
Proof. unfold core, queue_of. by intros [= _ _ -> _ _] m. Qed.

Lemma core_in_flight_of p p' s : core p' = core p -> in_flight_of s p' = in_flight_of s p.
Proof. unfold core, in_flight_of. by intros [= -> _ _ _ _]. Qed.

Lemma core_capacity_of p p' s : core p' = core p -> capacity_of s p' = capacity_of s p.
Proof. unfold core, capacity_of. by intros [= _ -> _ _ _]. Qed.

Lemma core_available p p' s : core p' = core p -> available s p' = available s p.
Proof.
  intros E. unfold available. by rewrite (core_in_flight_of p p' s E), (core_capacity_of p p' s E).
Qed.

(** Admission changes nothing, or takes one available slot of an allowed
    gateway of an unpaused model. *)
Lemma try_immediate_spec now shuf rid m allowed p :
  is_shuffle shuf ->
  match try_immediate now shuf rid m allowed p with
  | (None, p') => core p' = core p
  | (Some gw, p') =>
      core p' = core (take_slot now (gw, m) p) /\ gw ∈ allowed /\ 0 < available (gw, m) p /\
      (forall gw', gw' ∈ allowed -> available (gw', m) p <= available (gw, m) p) /\
      fst (is_paused now m p) = false
  end.
Proof.
  intros Hs. unfold try_immediate. pose proof (core_is_paused now m p) as Hc.
  destruct (is_paused now m p) as [paused p1] eqn:Ep. simpl in Hc.
  destruct paused; [done|].
  assert (Hr : forall gw a, (gw, a) ∈ ranked m allowed p1 <->
            gw ∈ allowed /\ a = available (gw, m) p /\ 0 < a).
  { intros gw a. unfold ranked. rewrite elem_of_lfilter, list_elem_of_fmap. simpl. split.
    - intros [(x & [= -> ->] & Hx) Ha]. to_prop. by rewrite (core_available p p1) in *.
    - intros (Hin & -> & Ha). split; [|by apply Z.ltb_lt].
      exists gw. by rewrite (core_available p p1). }
  destruct (ranked m allowed p1) as [|r0 rs] eqn:Er; [done|].
  destruct (sort_by by_available_desc (shuf rid (r0 :: rs))) as [|[gw a] rest] eqn:Es; [done|].
  assert (Hord : StrictWeakOrder by_available_desc).
  { unfold by_available_desc. split; intros; rewrite ?Z.ltb_lt, ?Z.ltb_ge in *; lia. }
  apply sort_by_head_min in Es as [Hin Hmin]; [|done].
  rewrite (Hs rid) in Hin. apply Hr in Hin as (Hin & -> & Ha).
  split; [|split; [done|split; [done|split; [|done]]]].
  - unfold take_slot, core. simpl. rewrite (core_in_flight_of p p1) by done.
    unfold core in Hc. by injection Hc as -> -> -> -> ->.
  - intros gw' Hg'. destruct (decide (0 < available (gw', m) p)) as [Hp|Hp]; [|lia].
    assert (H : (gw', available (gw', m) p) ∈ shuf rid (r0 :: rs)) by (rewrite (Hs rid); by apply Hr).
    apply Hmin in H. unfold by_available_desc in H. simpl in H. to_prop. lia.
Qed.

(** ** Futures and queues *)

Definition upd (Q : string -> list Waiter) (m : string) (l : list Waiter) : string -> list Waiter :=
  fun m' => if decide (m' = m) then l else Q m'.

Lemma upd_eq Q m l : upd Q m l m = l.
Proof. unfold upd. by rewrite decide_True. Qed.

Lemma upd_ne Q m l m' : m' <> m -> upd Q m l m' = Q m'.
Proof. intros H. unfold upd. by rewrite decide_False. Qed.

(** The task that owns a queued waiter, and that no other task has its future. *)
Lemma owner_unique futs Q next ks m w k :
  queue_inv futs Q next ks -> w ∈ Q m -> k ∈ ks -> k_future k = w_future w ->
  k_request_id k = w_request_id w /\ k_model_id k = m.
Proof.
  intros H Hw Hk Hf. destruct (qi_owner _ _ _ _ H m w Hw) as (_ & k' & Hk' & Hf' & Hr & Hm).
  assert (k' = k) as ->; [|done].
  apply (NoDup_map_inj k_future ks); [apply H | done | done | congruence].
Qed.

Lemma waiter_unique futs Q next ks m m' w w' :
  queue_inv futs Q next ks -> w ∈ Q m -> w' ∈ Q m' ->
  w_future w' = w_future w \/ w_request_id w' = w_request_id w -> m' = m /\ w_request_id w' = w_request_id w /\ w_future w' = w_future w.
Proof.
  intros H Hw Hw' He.
  destruct (qi_owner _ _ _ _ H m w Hw) as (_ & k & Hk & Hf & Hr & Hm).
  destruct (qi_owner _ _ _ _ H m' w' Hw') as (_ & k' & Hk' & Hf' & Hr' & Hm').
  assert (k' = k) as ->; [|repeat split; congruence]. destruct He as [He|He].
  - apply (NoDup_map_inj k_future ks); [apply H | done | done | congruence].
  - apply (NoDup_map_inj k_request_id ks); [apply H | done | done | congruence].
Qed.

(** Resolving the future of a queued waiter and dropping it from the queue. *)
Lemma queue_inv_resolve futs Q next ks m pre w post c :
  queue_inv futs Q next ks -> Q m = pre ++ w :: post -> c <> FPending ->
  queue_inv (<[w_future w := c]> futs) (upd Q m (pre ++ post)) next ks.
Proof.
  intros H Hq Hc. assert (Hw : w ∈ Q m) by (rewrite Hq; apply elem_of_app; right; left).
  pose proof (qi_rids _ _ _ _ H m) as Hnd. rewrite Hq, map_app in Hnd. simpl in Hnd.
  assert (Hsub : forall m' w', w' ∈ upd Q m (pre ++ post) m' -> w' ∈ Q m' /\ w_future w' <> w_future w).
  { intros m' w' Hw'. assert (Hin : w' ∈ Q m').
    { destruct (decide (m' = m)) as [->|Hne]; [|by rewrite upd_ne in Hw'].
      rewrite upd_eq in Hw'. rewrite Hq. set_solver. }
    split; [done|]. intros Hf.
    destruct (waiter_unique _ _ _ _ m m' w w' H Hw Hin (or_introl Hf)) as (-> & Hr & _).
    rewrite upd_eq in Hw'. rewrite <- Permutation_middle in Hnd.
    apply NoDup_cons in Hnd as [Hn _]. apply Hn. rewrite <- Hr, <- map_app.
    by apply list_elem_of_fmap_2. }
  split; try apply H.
  - intros m' w' Hw'. destruct (Hsub m' w' Hw') as [Hin Hne].
    destruct (qi_owner _ _ _ _ H m' w' Hin) as [Hp Ho]. split; [|done].
    by rewrite lookup_insert_ne.
  - intros k Hk Hp. destruct (decide (k_future k = w_future w)) as [He|Hne].
    { rewrite He, lookup_insert_eq in Hp. congruence. }
    rewrite lookup_insert_ne in Hp by done.
    destruct (qi_waiter _ _ _ _ H k Hk Hp) as (w' & Hw' & Hf').
    exists w'. split; [|done]. destruct (decide (k_model_id k = m)) as [Hm|Hm].
    + rewrite Hm, upd_eq. rewrite Hm, Hq in Hw'. apply elem_of_app in Hw' as [Hw'|Hw'].
      * set_solver.
      * apply elem_of_cons in Hw' as [->|Hw']; [congruence | set_solver].
    + by rewrite upd_ne.
  - intros m'. destruct (decide (m' = m)) as [->|Hne].
    + rewrite upd_eq, map_app. rewrite <- Permutation_middle in Hnd. by apply NoDup_cons in Hnd as [_ ?].
    + rewrite upd_ne by done. apply H.
  - intros f Hf. apply (qi_fresh _ _ _ _ H). destruct (decide (f = w_future w)) as [->|Hne].
    + destruct (qi_owner _ _ _ _ H m w Hw) as [-> _]. done.
    + by rewrite lookup_insert_ne in Hf.
  - intros k Hk. destruct (decide (k_future k = w_future w)) as [->|Hne].
    + rewrite lookup_insert_eq. done.
    + rewrite lookup_insert_ne by done. by apply (qi_defined _ _ _ _ H).
Qed.

Lemma holds_pending futs s k : futs !! k_future k = Some FPending -> holds_future futs s k = false.
Proof. unfold holds_future. by intros ->. Qed.

(** The count when a queued waiter's future is resolved. *)
Lemma admitted_resolve futs Q next ts ks m w c s :
  queue_inv futs Q next ks -> w ∈ Q m ->
  admitted s (<[w_future w := c]> futs) ts ks =
  admitted s futs ts ks + match c with FResult gw => b2z (bool_decide ((gw, m) = s)) | _ => 0 end.
Proof.
  intros H Hw. destruct (qi_owner _ _ _ _ H m w Hw) as (Hp & k & Hk & Hf & _ & Hm).
  unfold admitted. rewrite <- Z.add_assoc. f_equal.
  apply list_elem_of_lookup in Hk as [i Hi].
  pose proof (qi_futures _ _ _ _ H) as Hnd.
  rewrite (delete_Permutation _ _ _ Hi) in Hnd. simpl in Hnd. apply NoDup_cons in Hnd as [Hn _].
  assert (E : count (holds_future (<[w_future w := c]> futs) s) (delete i ks)
            = count (holds_future futs s) (delete i ks)).
  { apply count_ext. intros k' Hk'. unfold holds_future. rewrite lookup_insert_ne; [done|].
    intros He. apply Hn. rewrite Hf, He. by apply list_elem_of_fmap_2. }
  rewrite !(count_delete _ _ _ _ Hi) in E. rewrite (holds_pending futs s k) in E by congruence.
  unfold holds_future at 2 in E. rewrite Hf, lookup_insert_eq, Hm in E.
  destruct c; simpl in E; lia.
Qed.

(** ** Slots *)

Lemma conserved_insert ifl futs ts ks s n d futs' ts' ks' :
  conserved ifl futs ts ks -> n = get_or 0 (ifl !! s) + d ->
  (forall s', admitted s' futs' ts' ks' = admitted s' futs ts ks + (if decide (s' = s) then d else 0)) ->
  conserved (<[s := n]> ifl) futs' ts' ks'.
Proof.
  intros H -> Ha s'. rewrite Ha, <- (H s'). destruct (decide (s' = s)) as [->|Hne].
  - by rewrite lookup_insert_eq.
  - rewrite lookup_insert_ne by done. lia.
Qed.

Lemma slot_inv_in_flight ifl cap qs s n :
  slot_inv ifl cap qs -> slot_inv (<[s := n]> ifl) cap qs.
Proof.
  intros [H1 H2 H3]. split; try done. intros s' Hs'. destruct (decide (s' = s)) as [->|Hne].
  - rewrite lookup_insert_eq. done.
  - rewrite lookup_insert_ne by done. auto.
Qed.

Lemma slot_inv_queues ifl cap qs qs' :
  slot_inv ifl cap qs -> NoDup (dkeys qs') -> slot_inv ifl cap qs'.
Proof. intros [H1 H2 H3] H. by split. Qed.

Lemma queue_of_dset m l p m' :
  queue_of m' (with_queues (dset m l (queues p)) p) = upd (fun m => queue_of m p) m l m'.
Proof.
  unfold queue_of, upd. simpl. destruct (decide (m' = m)) as [->|Hne].
  - by rewrite dget_dset_eq.
  - by rewrite dget_dset_ne.
Qed.

Lemma queue_of_ddel m p m' : NoDup (dkeys (queues p)) ->
  queue_of m' (with_queues (ddel m (queues p)) p) = upd (fun m => queue_of m p) m [] m'.
Proof.
  intros H. unfold queue_of, upd. simpl. destruct (decide (m' = m)) as [->|Hne].
  - by rewrite dget_ddel_eq.
  - by rewrite dget_ddel_ne.
Qed.

(** Storing a queue, or dropping it when it has become empty. *)
Definition store_queue (m : string) (l : list Waiter) (p : CapacityPool) : CapacityPool :=
  match l with
  | [] => with_queues (ddel m (queues p)) p
  | _ => with_queues (dset m l (queues p)) p
  end.

Lemma queue_of_store m l p m' : NoDup (dkeys (queues p)) ->
  queue_of m' (store_queue m l p) = upd (fun m => queue_of m p) m l m'.
Proof.
  intros H. destruct l; unfold store_queue; [by apply queue_of_ddel | by rewrite queue_of_dset].
Qed.

Lemma store_queue_rest m l p :
  in_flight (store_queue m l p) = in_flight p /\ capacity (store_queue m l p) = capacity p /\
  futures (store_queue m l p) = futures p /\ next_future (store_queue m l p) = next_future p /\
  (NoDup (dkeys (queues p)) -> NoDup (dkeys (queues (store_queue m l p)))).
Proof.
  destruct l; simpl; repeat split; intros; [by apply NoDup_dkeys_ddel | by apply NoDup_dkeys_dset].
Qed.

(** The invariant with the queues given by [Q]. *)
Record inv_with (Q : string -> list Waiter) (p : CapacityPool) (ts : list CapacityToken)
    (ks : list WaitTask) : Prop := {
  iw_slots : slot_inv (in_flight p) (capacity p) (queues p);
  iw_queue : queue_inv (futures p) Q (next_future p) ks;
  iw_count : conserved (in_flight p) (futures p) ts ks
}.

Lemma inv_with_queues p ts ks : inv p ts ks <-> inv_with (fun m => queue_of m p) p ts ks.
Proof. split; intros [H1 H2 H3]; by split. Qed.

Lemma inv_with_ext Q Q' p ts ks :
  (forall m, Q m = Q' m) -> inv_with Q p ts ks -> inv_with Q' p ts ks.
Proof. intros E [H1 H2 H3]. split; [done | by eapply queue_inv_ext | done]. Qed.

Lemma inv_with_core Q p p' ts ks : core p' = core p -> inv_with Q p ts ks -> inv_with Q p' ts ks.
Proof.
  unfold core. intros [= E1 E2 E3 E4 E5] [H1 H2 H3]. split; by rewrite ?E1, ?E2, ?E3, ?E4, ?E5.
Qed.

Lemma inv_store Q m l p ts ks :
  inv_with Q p ts ks -> (forall m', m' <> m -> Q m' = queue_of m' p) -> Q m = l ->
  inv (store_queue m l p) ts ks.
Proof.
  intros [H1 H2 H3] Hne He. destruct (store_queue_rest m l p) as (E1 & E2 & E3 & E4 & Hnd).
  split; rewrite ?E1, ?E2, ?E3, ?E4; [|eapply queue_inv_ext; [|exact H2]|done].
  - destruct H1 as [Ha Hb Hc]. split; auto.
  - intros m'. rewrite queue_of_store by apply H1. unfold upd.
    destruct (decide (m' = m)) as [->|]; auto.
Qed.

(** ** Dispatch *)

Section Dispatch.
Context (now : Q) (shuf : shuffle_t) (Hshuf : is_shuffle shuf).

Lemma dispatch_loop_inv m q : forall pre Q p ts ks stay p',
  inv_with Q p ts ks -> Q m = pre ++ q ->
  dispatch_loop now shuf m q p = (stay, p') ->
  inv_with (upd Q m (pre ++ stay)) p' ts ks /\ queues p' = queues p.
Proof.
  induction q as [|w q IH]; intros pre Q p ts ks stay p' H HQ E; simpl in E.
  { injection E as <- <-. split; [|done]. eapply inv_with_ext; [|exact H].
    intros m'. unfold upd. by destruct (decide (m' = m)) as [->|]. }
  assert (Hw : w ∈ Q m) by (rewrite HQ; apply elem_of_app; right; left).
  destruct (qi_owner _ _ _ _ (iw_queue _ _ _ _ H) m w Hw) as [Hp _].
  unfold fut in E at 1. rewrite Hp in E. simpl in E.
  pose proof (try_immediate_spec now shuf (w_request_id w) m (allowed_gateway_ids w) p Hshuf) as Ht.
  destruct (try_immediate _ _ _ _ _ p) as [[gw|] p1].
  - destruct Ht as (Hc & _). injection Hc as E1 E2 E3 E4 E5. simpl in E1, E2, E3, E4, E5.
    unfold fut, set_result in E. rewrite E4, Hp in E. simpl in E.
    eapply (IH pre (upd Q m (pre ++ q))) in E.
    + destruct E as [E Eq]. split; [|simpl in Eq; congruence].
      eapply inv_with_ext; [|exact E].
      intros m'. unfold upd. by destruct (decide (m' = m)) as [->|].
    + destruct H as [H1 H2 H3]. split; simpl; rewrite ?E1, ?E2, ?E3, ?E4, ?E5.
      * by apply slot_inv_in_flight.
      * by apply queue_inv_resolve.
      * eapply conserved_insert; [exact H3 | reflexivity |]. intros s.
        rewrite (admitted_resolve _ _ _ _ _ _ _ _ _ H2 Hw).
        destruct (decide (s = (gw, m))) as [->|]; [rewrite bool_decide_true by done; done|].
        rewrite bool_decide_false by congruence. done.
    + apply upd_eq.
  - destruct (dispatch_loop now shuf m q p1) as [stay' p2] eqn:E'. injection E as <- <-.
    eapply (IH (pre ++ [w]) Q) in E'.
    + rewrite <- app_assoc in E'. simpl in E'. destruct E' as [E' Eq]. split; [done|].
      injection Ht as _ _ Ht _ _. congruence.
    + eapply inv_with_core; [exact Ht | exact H].
    + by rewrite <- app_assoc.
Qed.

Lemma dispatch_inv m p ts ks : inv p ts ks -> inv (dispatch now shuf m p) ts ks.
Proof.
  intros H. unfold dispatch. destruct (dget m (queues p)) as [[|w q]|] eqn:Eq; [done| |done].
  destruct (dispatch_loop now shuf m (w :: q) p) as [stay p'] eqn:E.
  apply inv_with_queues in H.
  eapply (dispatch_loop_inv m (w :: q) []) in E; [|exact H | unfold queue_of; by rewrite Eq].
  destruct E as [E Hq]. change (inv (store_queue m stay p') ts ks).
  apply (inv_store _ _ _ _ _ _ E); [|apply upd_eq].
  intros m' Hne. rewrite upd_ne by done. unfold queue_of. by rewrite Hq.
Qed.

Lemma dispatch_all_inv ms p ts ks :
  inv p ts ks -> inv (foldl (fun p m => dispatch now shuf m p) p ms) ts ks.
Proof. revert p. induction ms; simpl; intros p H; [done|]. by apply IHms, dispatch_inv. Qed.

(** ** Release *)

Lemma in_flight_admitted p ts ks s : inv p ts ks -> in_flight_of s p = admitted s (futures p) ts ks.
Proof. intros H. apply (inv_count _ _ _ H). Qed.

Lemma admitted_nonneg s futs ts ks : 0 <= admitted s futs ts ks.
Proof.
  unfold admitted. pose proof (count_nonneg (holds_token s) ts).
  pose proof (count_nonneg (holds_future futs s) ks). lia.
Qed.

(** Dropping a slot nobody holds. *)
Lemma drop_slot_inv s p ts ks :
  inv p ts ks -> in_flight_of s p = 0 ->
  inv (with_in_flight (delete s (in_flight p)) (with_capacity (ddel s (capacity p)) p)) ts ks.
Proof.
  intros [[H1 H2 H3] Hq Hc] H0. split; simpl; [split|exact Hq|].
  - intros s' [c Hs']. destruct (decide (s' = s)) as [->|Hne].
    { by rewrite dget_ddel_eq in Hs'. }
    rewrite dget_ddel_ne in Hs' by done. rewrite lookup_delete_ne by done. apply H1. by eexists.
  - by apply NoDup_dkeys_ddel.
  - done.
  - intros s'. rewrite <- (Hc s'). destruct (decide (s' = s)) as [->|Hne].
    + rewrite lookup_delete_eq. simpl. symmetry. exact H0.
    + by rewrite lookup_delete_ne.
Qed.

Lemma token_release_inv p ts ks i t :
  inv p ts ks -> ts !! i = Some t ->
  exists t' p', token_release now shuf t p = Ok (t', p') /\ t_released t' = true /\
    inv p' (<[i := t']> ts) ks.
Proof.
  intros H Hi. unfold token_release. destruct (t_released t) eqn:Er.
  { exists t, p. by rewrite (list_insert_id ts i t Hi). }
  set (s := (t_gateway_id t, t_model_id t)).
  set (t' := mkToken _ _ _ _ _ true).
  assert (Ha : forall s', admitted s' (futures p) (<[i := t']> ts) ks =
               admitted s' (futures p) ts ks + (if decide (s' = s) then -1 else 0)).
  { intros s'. unfold admitted. rewrite (count_insert _ i t t' ts Hi).
    unfold holds_token at 2 3. rewrite Er. simpl. subst s.
    destruct (decide (s' = _)) as [->|Hne].
    - rewrite bool_decide_true by done. simpl. lia.
    - rewrite bool_decide_false by congruence. simpl. lia. }
  assert (Hn : 0 < in_flight_of s p).
  { rewrite (in_flight_admitted p ts ks s H). unfold admitted.
    pose proof (count_nonneg (holds_future (futures p) s) ks).
    assert (0 < count (holds_token s) ts); [|lia].
    apply (count_pos _ t); [by apply list_elem_of_lookup_2 in Hi|].
    unfold holds_token. rewrite Er. simpl. by apply bool_decide_eq_true. }
  unfold release_slot. rewrite (proj2 (Z.leb_gt _ _) Hn).
  set (p1 := with_last_change _ _).
  assert (H1 : inv p1 (<[i := t']> ts) ks).
  { destruct H as [Hs Hq Hc]. split; simpl; [by apply slot_inv_in_flight | exact Hq |].
    eapply conserved_insert; [exact Hc | | exact Ha]. unfold in_flight_of. lia. }
  change (t_gateway_id t, t_model_id t) with s.
  destruct ((in_flight_of s p1 =? 0) && (get_or (-1) (dget s (capacity p1)) =? 0)) eqn:Ec.
  - to_prop. destruct (in_flight p1 !! s) as [n|] eqn:En.
    + simpl. eexists _, _. split; [reflexivity|]. split; [done|].
      apply dispatch_inv. by apply (drop_slot_inv s p1).
    + exfalso. unfold p1 in En. simpl in En. by rewrite lookup_insert_eq in En.
  - simpl. eexists _, _. split; [reflexivity|]. split; [done|]. by apply dispatch_inv.
Qed.

End Dispatch.

(** ** Capacity changes *)

Lemma set_capacity_inv s n p ts ks : inv p ts ks -> inv (set_capacity s n p) ts ks.
Proof.
  intros [[H1 H2 H3] Hq Hc]. unfold set_capacity. cbv zeta.
  set (n' := if n <? 0 then 0 else n). set (p1 := with_capacity _ p).
  assert (Hi : inv (match in_flight p1 !! s with
                    | Some _ => p1
                    | None => with_in_flight (<[s := 0]> (in_flight p1)) p1 end) ts ks).
  { destruct (in_flight p1 !! s) eqn:Es; simpl in Es.
    - split; simpl; [split; simpl|exact Hq|exact Hc]; [|by apply NoDup_dkeys_dset|done].
      intros s' Hs'. destruct (decide (s' = s)) as [->|Hne]; [by eexists|].
      rewrite dget_dset_ne in Hs' by done. auto.
    - split; simpl; [split; simpl|exact Hq|]; [|by apply NoDup_dkeys_dset|done|].
      + intros s' Hs'. destruct (decide (s' = s)) as [->|Hne]; [by rewrite lookup_insert_eq|].
        rewrite lookup_insert_ne by done. rewrite dget_dset_ne in Hs' by done. auto.
      + intros s'. rewrite <- (Hc s'). destruct (decide (s' = s)) as [->|Hne].
        * by rewrite lookup_insert_eq, Es.
        * by rewrite lookup_insert_ne. }
  destruct (_ && _); [|exact Hi]. eapply inv_core; [|exact Hi]. done.
Qed.

Lemma remove_slot_inv s p ts ks :
  is_Some (in_flight p !! s) -> inv p ts ks -> inv (remove_slot s p) ts ks.
Proof.
  intros Hs H. unfold remove_slot. destruct (0 <? in_flight_of s p) eqn:E; to_prop.
  - destruct H as [[H1 H2 H3] Hq Hc]. split; simpl; [split; simpl|exact Hq|exact Hc];
      [|by apply NoDup_dkeys_dset|done].
    intros s' Hs'. destruct (decide (s' = s)) as [->|Hne]; [done|].
    rewrite dget_dset_ne in Hs' by done. auto.
  - apply (drop_slot_inv s p ts ks H). rewrite (in_flight_admitted p ts ks s H) in *.
    pose proof (admitted_nonneg s (futures p) ts ks). lia.
Qed.

Lemma remove_model_inv s p ts ks : inv p ts ks -> inv (remove_model s p) ts ks.
Proof.
  intros H. unfold remove_model. destruct (dget s (capacity p)) eqn:E; [|done].
  apply remove_slot_inv; [|done]. apply (si_dom _ _ _ (inv_slots _ _ _ H)). by eexists.
Qed.

Lemma remove_slot_inv' s p ts ks : inv p ts ks -> inv (remove_slot s p) ts ks.
Proof.
  intros H. destruct (in_flight p !! s) eqn:E; [apply remove_slot_inv; [by eexists|done]|].
  unfold remove_slot, in_flight_of at 1. rewrite E. simpl.
  apply (drop_slot_inv s p ts ks H). unfold in_flight_of. by rewrite E.
Qed.

Lemma remove_gateway_inv gw p ts ks : inv p ts ks -> inv (remove_gateway gw p) ts ks.
Proof.
  unfold remove_gateway. generalize (List.filter (fun s => bool_decide (fst s = gw)) (dkeys (capacity p))).
  intros l. revert p. induction l as [|s l IH]; simpl; intros p H; [done|].
  by apply IH, remove_slot_inv'.
Qed.

(** ** Removing waiters *)

Lemma remove_first_spec rid q :
  match remove_first rid q with
  | Some (w, q') => exists pre post, q = pre ++ w :: post /\ q' = pre ++ post /\ w_request_id w = rid
  | None => rid ∉ map w_request_id q
  end.
Proof.
  induction q as [|w q IH]; simpl; [set_solver|].
  destruct (bool_decide (w_request_id w = rid)) eqn:E; to_prop.
  - exists [], q. done.
  - destruct (remove_first rid q) as [[x q']|].
    + destruct IH as (pre & post & -> & -> & Hr). by exists (w :: pre), post.
    + set_solver.
Qed.

Lemma find_waiter_spec rid qs :
  NoDup (dkeys qs) ->
  match find_waiter rid qs with
  | Some (m, w, q') => exists pre post, dget m qs = Some (pre ++ w :: post) /\ q' = pre ++ post /\
                        w_request_id w = rid
  | None => forall m w, w ∈ get_or [] (dget m qs) -> w_request_id w <> rid
  end.
Proof.
  induction qs as [|[m q] qs IH]; simpl; intros Hnd; [set_solver|].
  apply NoDup_cons in Hnd as [Hm Hnd].
  pose proof (remove_first_spec rid q) as Hf. destruct (remove_first rid q) as [[w q']|].
  - destruct Hf as (pre & post & -> & -> & Hr). exists pre, post.
    by rewrite decide_True.
  - specialize (IH Hnd). destruct (find_waiter rid qs) as [[[m' w] q']|].
    + destruct IH as (pre & post & Hd & -> & Hr). exists pre, post. split; [|done].
      rewrite decide_False; [done|]. intros ->. apply dget_Some_in in Hd.
      apply Hm. unfold dkeys. apply list_elem_of_fmap. by exists (m, pre ++ w :: post).
    + intros m' w. destruct (decide (m' = m)) as [->|Hne]; [|apply IH]. simpl.
      intros Hw Hr. apply Hf. rewrite <- Hr. by apply list_elem_of_fmap_2.
Qed.

(** Removing a waiter resolves its future, so its task can go too. *)
Lemma remove_waiter_inv now rid reason wake p ts ks b p' :
  inv p ts ks -> remove_waiter now rid reason wake p = (b, p') ->
  inv p' ts ks /\
  (forall k, k ∈ ks -> k_request_id k = rid -> futures p' !! k_future k <> Some FPending) /\
  (forall f gw, futures p' !! f = Some (FResult gw) -> futures p !! f = Some (FResult gw)).
Proof.
  intros H E. unfold remove_waiter in E. pose proof H as [[Hd Hcap Hnd] Hq Hc].
  pose proof (find_waiter_spec rid (queues p) Hnd) as Hf.
  destruct (find_waiter rid (queues p)) as [[[m w] q']|].
  - destruct Hf as (pre & post & Hq' & -> & Hr).
    assert (HQ : queue_of m p = pre ++ w :: post) by (unfold queue_of; by rewrite Hq').
    assert (Hw : w ∈ queue_of m p) by (rewrite HQ; apply elem_of_app; right; left).
    destruct (qi_owner _ _ _ _ Hq m w Hw) as (Hp & k0 & Hk0 & Hf0 & Hr0 & Hm0).
    unfold fut in E. rewrite Hp in E. simpl in E.
    set (c := if wake then FException reason else FCancelled) in *.
    set (p1 := with_futures (<[w_future w := c]> (futures p)) (next_future p) p) in *.
    assert (Hc1 : c <> FPending /\ forall gw, c <> FResult gw) by (unfold c; by destruct wake).
    assert (Hi : inv (store_queue m (pre ++ post) p1) ts ks).
    { apply (inv_store (upd (fun m => queue_of m p) m (pre ++ post))); [|
        intros m' Hne; rewrite upd_ne by done; done | apply upd_eq].
      split; simpl; [done | apply queue_inv_resolve; [done | done | apply Hc1] |].
      intros s. rewrite (Hc s).
      rewrite (admitted_resolve _ _ _ _ _ _ _ c s Hq Hw).
      destruct c; try lia. by destruct (proj2 Hc1 gw). }
    assert (Ef : futures (store_queue m (pre ++ post) p1) = <[w_future w := c]> (futures p)).
    { by destruct (store_queue_rest m (pre ++ post) p1) as (_ & _ & -> & _). }
    injection E as _ Ep.
    assert (Ep' : p' = publish (CapacityPoolCancelled rid m (ms now (queued_at w)) reason)
              (store_queue m (pre ++ post) p1)) by (rewrite <- Ep; reflexivity).
    clear Ep. subst p'.
    pose proof (core_publish (CapacityPoolCancelled rid m (ms now (queued_at w)) reason)
                  (store_queue m (pre ++ post) p1)) as Hcore.
    split; [eapply inv_core; [exact Hcore | exact Hi]|].
    assert (Efut : futures (publish (CapacityPoolCancelled rid m (ms now (queued_at w)) reason)
                  (store_queue m (pre ++ post) p1)) = <[w_future w := c]> (futures p)).
    { rewrite <- Ef. unfold core in Hcore. by injection Hcore. }
    rewrite Efut. split.
    + intros k Hk Hrk. assert (k = k0) as ->.
      { apply (NoDup_map_inj k_request_id ks); [apply Hq | done | done | congruence]. }
      rewrite Hf0, lookup_insert_eq. intros [= Hx]. by apply Hc1.
    + intros f gw. destruct (decide (f = w_future w)) as [->|Hne].
      * rewrite lookup_insert_eq. intros [= Hx]. by destruct (proj2 Hc1 gw).
      * by rewrite lookup_insert_ne.
  - injection E as <- <-. split; [done|]. split; [|done]. intros k Hk Hr Hp.
    destruct (qi_waiter _ _ _ _ Hq k Hk Hp) as (w & Hw & Hfw).
    apply (Hf (k_model_id k) w Hw).
    by destruct (owner_unique _ _ _ _ _ _ _ Hq Hw Hk (eq_sym Hfw)) as [<- _].
Qed.

(** ** Waiting tasks *)

Lemma queue_inv_enqueue futs Q next ks m rid allowed now d :
  queue_inv futs Q next ks -> rid ∉ map k_request_id ks ->
  queue_inv (<[next := FPending]> futs) (upd Q m (Q m ++ [mkWaiter rid allowed next now]))
            (S next) (ks ++ [mkWait rid m next d now]).
Proof.
  intros H Hr.
  assert (Hn : futs !! next = None).
  { destruct (futs !! next) eqn:E; [|done]. pose proof (qi_fresh _ _ _ _ H next) as Hf.
    rewrite E in Hf. specialize (Hf ltac:(done)). lia. }
  assert (Hk : forall k, k ∈ ks -> k_future k <> next).
  { intros k Hk He. destruct (qi_defined _ _ _ _ H k Hk) as [x Hx]. congruence. }
  assert (Hin : forall m' w, w ∈ upd Q m (Q m ++ [mkWaiter rid allowed next now]) m' ->
            w ∈ Q m' \/ (m' = m /\ w = mkWaiter rid allowed next now)).
  { intros m' w. unfold upd. destruct (decide (m' = m)) as [->|]; [|by left].
    rewrite elem_of_app, list_elem_of_singleton. tauto. }
  assert (Hsup : forall m' w, w ∈ Q m' -> w ∈ upd Q m (Q m ++ [mkWaiter rid allowed next now]) m').
  { intros m' w. unfold upd. destruct (decide (m' = m)) as [->|]; [|done]. set_solver. }
  split.
  - intros m' w [Hw|[-> ->]]%Hin.
    + destruct (qi_owner _ _ _ _ H m' w Hw) as (Hp & k & Hk' & Hf & Ho). split.
      * rewrite lookup_insert_ne by congruence. done.
      * exists k. split; [apply elem_of_app; by left | done].
    + simpl. rewrite lookup_insert_eq. split; [done|].
      exists (mkWait rid m next d now). split; [apply elem_of_app; right; left | done].
  - intros k [Hk'|Hk'%list_elem_of_singleton]%elem_of_app Hp; [|subst k].
    + rewrite lookup_insert_ne in Hp by (apply not_eq_sym; auto).
      destruct (qi_waiter _ _ _ _ H k Hk' Hp) as (w & Hw & Hf). eauto.
    + exists (mkWaiter rid allowed next now). split; [|done]. simpl. rewrite upd_eq. set_solver.
  - intros m'. unfold upd. destruct (decide (m' = m)) as [->|]; [|apply H].
    rewrite map_app. apply NoDup_app. split; [apply H|]. split; [|apply NoDup_singleton].
    intros x (w & -> & Hw)%list_elem_of_fmap Hx%list_elem_of_singleton. simpl in Hx.
    destruct (qi_owner _ _ _ _ H m w Hw) as (_ & k & Hk' & _ & He & _).
    apply Hr. rewrite <- Hx, <- He. by apply list_elem_of_fmap_2.
  - rewrite map_app. apply NoDup_app. split; [apply H|]. split; [|apply NoDup_singleton].
    intros x (k & -> & Hk')%list_elem_of_fmap Hx%list_elem_of_singleton. by apply (Hk k Hk').
  - rewrite map_app. apply NoDup_app. split; [apply H|]. split; [|apply NoDup_singleton].
    intros x Hx Hx'%list_elem_of_singleton. by subst x.
  - intros f Hf. destruct (decide (f = next)) as [->|Hne]; [lia|].
    rewrite lookup_insert_ne in Hf by done. pose proof (qi_fresh _ _ _ _ H f Hf). lia.
  - intros k [Hk'|Hk'%list_elem_of_singleton]%elem_of_app; [|subst k].
    + rewrite lookup_insert_ne by (apply not_eq_sym; auto). by apply (qi_defined _ _ _ _ H).
    + simpl. by rewrite lookup_insert_eq.
Qed.

Lemma admitted_enqueue futs Q next ts ks k s :
  queue_inv futs Q next ks -> k_future k = next ->
  admitted s (<[next := FPending]> futs) ts (ks ++ [k]) = admitted s futs ts ks.
Proof.
  intros H Hk. unfold admitted. f_equal. rewrite count_app, count_cons.
  unfold holds_future at 2. rewrite Hk, lookup_insert_eq. simpl. rewrite Z.add_0_r.
  apply count_ext. intros k' Hk'. unfold holds_future. rewrite lookup_insert_ne; [done|].
  intros He. destruct (qi_defined _ _ _ _ H k' Hk') as [x Hx].
  pose proof (qi_fresh _ _ _ _ H (k_future k') ltac:(by eexists)). lia.
Qed.

Lemma elem_of_delete {A} (l : list A) i x : x ∈ delete i l -> x ∈ l.
Proof. intros H. eapply elem_of_submseteq; [exact H|]. apply sublist_submseteq, sublist_delete. Qed.

Lemma NoDup_map_delete {A B} (f : A -> B) l i y :
  l !! i = Some y -> NoDup (map f l) -> NoDup (map f (delete i l)).
Proof. intros E H. rewrite (delete_Permutation l i y E) in H. by apply NoDup_cons in H as [_ H]. Qed.

(** A task whose future is done may leave. *)
Lemma queue_inv_leave futs Q next ks i k :
  queue_inv futs Q next ks -> ks !! i = Some k -> futs !! k_future k <> Some FPending ->
  queue_inv futs Q next (delete i ks).
Proof.
  intros H Hi Hp. split.
  - intros m w Hw. destruct (qi_owner _ _ _ _ H m w Hw) as (Hpw & k' & Hk' & Hf & Ho).
    split; [done|]. exists k'. split; [|done].
    rewrite (delete_Permutation ks i k Hi) in Hk'. apply elem_of_cons in Hk' as [->|Hk']; congruence.
  - intros k' Hk'%elem_of_delete. apply (qi_waiter _ _ _ _ H k' Hk').
  - apply H.
  - by eapply NoDup_map_delete, H.
  - by eapply NoDup_map_delete, H.
  - apply H.
  - intros k' Hk'%elem_of_delete. by apply (qi_defined _ _ _ _ H).
Qed.

Lemma admitted_leave s futs ts ks i k : ks !! i = Some k ->
  admitted s futs ts (delete i ks) = admitted s futs ts ks - b2z (holds_future futs s k).
Proof. intros Hi. unfold admitted. rewrite (count_delete _ i k ks Hi). lia. Qed.

Lemma leave_error p ts ks i k :
  inv p ts ks -> ks !! i = Some k -> futures p !! k_future k <> Some FPending ->
  (forall gw, futures p !! k_future k <> Some (FResult gw)) -> inv p ts (delete i ks).
Proof.
  intros [Hs Hq Hc] Hi Hp Hr. split; [done | by eapply queue_inv_leave |].
  intros s. rewrite (Hc s), (admitted_leave s _ ts ks i k Hi). unfold holds_future.
  destruct (futures p !! k_future k) as [[]|] eqn:E; simpl; try lia. by destruct (Hr gw).
Qed.

Lemma leave_token p ts ks i k gw t :
  inv p ts ks -> ks !! i = Some k -> futures p !! k_future k = Some (FResult gw) ->
  t_released t = false -> t_gateway_id t = gw -> t_model_id t = k_model_id k ->
  inv p (ts ++ [t]) (delete i ks).
Proof.
  intros [Hs Hq Hc] Hi Hf Hr Hg Hm.
  split; [done | eapply queue_inv_leave; [done | done | congruence] |].
  intros s. rewrite (Hc s), (admitted_leave s _ _ ks i k Hi). unfold admitted.
  rewrite count_app, count_cons. unfold holds_token at 3. unfold holds_future at 3.
  rewrite Hf, Hr, Hg, Hm. simpl. change (count (holds_token s) []) with 0. lia.
Qed.

Lemma leave_leak p ts ks i k gw rid :
  inv p ts ks -> ks !! i = Some k -> futures p !! k_future k = Some (FResult gw) ->
  inv (recover_leaked_slot rid gw (k_model_id k) p) ts (delete i ks).
Proof.
  intros H Hi Hf. pose proof H as [Hs Hq Hc]. set (s0 := (gw, k_model_id k)).
  assert (Hn : 0 < in_flight_of s0 p).
  { rewrite (in_flight_admitted p ts ks s0 H). unfold admitted.
    pose proof (count_nonneg (holds_token s0) ts).
    assert (0 < count (holds_future (futures p) s0) ks); [|lia].
    apply (count_pos _ k); [by apply list_elem_of_lookup_2 in Hi|].
    unfold holds_future. rewrite Hf. by apply bool_decide_eq_true. }
  unfold recover_leaked_slot. fold s0. rewrite (proj2 (Z.leb_gt _ _) Hn).
  eapply inv_core with (p := with_in_flight (<[s0 := in_flight_of s0 p - 1]> (in_flight p)) p).
  { unfold emit_slot_leak_recovered, create_task.
    pose proof (core_publish (CapacitySlotLeakRecovered rid gw (k_model_id k))
      (with_in_flight (<[s0 := in_flight_of s0 p - 1]> (in_flight p)) p)) as Hcore.
    unfold core in *. simpl in *. by injection Hcore as -> -> -> -> ->. }
  split; simpl; [by apply slot_inv_in_flight | eapply queue_inv_leave; [done|done|congruence] |].
  eapply conserved_insert; [exact Hc | |].
  - unfold in_flight_of. reflexivity.
  - intros s. rewrite (admitted_leave s _ ts ks i k Hi). unfold holds_future. rewrite Hf.
    fold s0. destruct (decide (s = s0)) as [->|Hne].
    + rewrite bool_decide_true by done. simpl. lia.
    + rewrite bool_decide_false by congruence. simpl. lia.
Qed.

(** What a finished or still waiting acquisition does to the world. *)
Definition acq_ok (r : AcqResult * CapacityPool) (ts : list CapacityToken) (ks : list WaitTask)
    (i : nat) : Prop :=
  match r with
  | (AcqToken t, p') => inv p' (ts ++ [t]) (delete i ks)
  | (AcqWaiting k, p') => inv p' ts ks
  | (AcqError _, p') => inv p' ts (delete i ks)
  end.

Lemma fut_cases p ts ks k : inv p ts ks -> k ∈ ks -> futures p !! k_future k = Some (fut (k_future k) p).
Proof.
  intros H Hk. destruct (qi_defined _ _ _ _ (inv_queue _ _ _ H) k Hk) as [f Hf].
  unfold fut. by rewrite Hf.
Qed.

Lemma remove_and_leave now p ts ks i k reason :
  inv p ts ks -> ks !! i = Some k -> (forall gw, fut (k_future k) p <> FResult gw) ->
  inv (snd (remove_waiter now (k_request_id k) reason false p)) ts (delete i ks).
Proof.
  intros H Hi Hr. destruct (remove_waiter now (k_request_id k) reason false p) as [b p'] eqn:E.
  apply (remove_waiter_inv _ _ _ _ _ ts ks) in E as (Hi' & Hp & Hres); [|done]. simpl.
  assert (Hk : k ∈ ks) by (by eapply list_elem_of_lookup_2).
  apply (leave_error _ _ _ _ k); try done; [by apply Hp|].
  intros gw Hf. apply Hres in Hf. rewrite (fut_cases p ts ks k H Hk) in Hf.
  by destruct (Hr gw); injection Hf.
Qed.

Lemma at_deadline_ok now p ts ks i k :
  inv p ts ks -> ks !! i = Some k -> acq_ok (at_deadline now k p) ts ks i.
Proof.
  intros H Hi. assert (Hk : k ∈ ks) by (by eapply list_elem_of_lookup_2).
  pose proof (fut_cases p ts ks k H Hk) as Hf. unfold at_deadline.
  destruct (fut (k_future k) p) as [|gw|r|] eqn:Ef; simpl.
  - pose proof (remove_and_leave now p ts ks i k "acquire_timeout" H Hi) as Hl.
    rewrite Ef in Hl. specialize (Hl ltac:(done)). by destruct (remove_waiter _ _ _ _ _).
  - eapply inv_core; [apply core_publish|]. by eapply leave_token.
  - apply (leave_error _ _ _ _ k); congruence.
  - pose proof (remove_and_leave now p ts ks i k "acquire_timeout" H Hi) as Hl.
    rewrite Ef in Hl. specialize (Hl ltac:(done)). by destruct (remove_waiter _ _ _ _ _).
Qed.

Lemma at_deadline_not_waiting now k p k' p' : at_deadline now k p <> (AcqWaiting k', p').
Proof.
  unfold at_deadline. destruct (fut (k_future k) p); try done;
    by destruct (remove_waiter _ _ _ _ _).
Qed.

Lemma core_emit_waiting rid m q p : core (emit_queue_waiting rid m q p) = core p.
Proof. unfold emit_queue_waiting. case_goal; [apply core_publish | done]. Qed.

Lemma wait_resume_ok now cause p ts ks i k :
  inv p ts ks -> ks !! i = Some k -> acq_ok (wait_resume now cause k p) ts ks i.
Proof.
  intros H Hi. assert (Hk : k ∈ ks) by (by eapply list_elem_of_lookup_2).
  pose proof (fut_cases p ts ks k H Hk) as Hf.
  assert (Hrm : (forall gw, fut (k_future k) p <> FResult gw) ->
     inv (snd (remove_waiter now (k_request_id k) "task_cancelled" false p)) ts (delete i ks))
    by (apply remove_and_leave; done).
  destruct cause; unfold wait_resume.
  - assert (H' : inv (emit_queue_waiting (k_request_id k) (k_model_id k) (ms now (k_start k)) p) ts ks)
      by (eapply inv_core; [apply core_emit_waiting | done]).
    destruct (deadline_passed now (k_deadline k)); [by apply at_deadline_ok | done].
  - destruct (fut (k_future k) p) as [|gw|r|] eqn:Ef; simpl.
    + done.
    + eapply inv_core; [apply core_publish|]. by eapply leave_token.
    + apply (leave_error _ _ _ _ k); congruence.
    + specialize (Hrm ltac:(done)). by destruct (remove_waiter _ _ _ _ _).
  - destruct (fut (k_future k) p) as [|gw|r|] eqn:Ef; simpl.
    + specialize (Hrm ltac:(done)). by destruct (remove_waiter _ _ _ _ _).
    + by eapply leave_leak.
    + apply (leave_error _ _ _ _ k); congruence.
    + specialize (Hrm ltac:(done)). by destruct (remove_waiter _ _ _ _ _).
Qed.

Lemma take_slot_inv now s p ts ks t :
  inv p ts ks -> t_released t = false -> (t_gateway_id t, t_model_id t) = s ->
  inv (take_slot now s p) (ts ++ [t]) ks.
Proof.
  intros [Hs Hq Hc] Hr Ht. split; simpl; [by apply slot_inv_in_flight | exact Hq |].
  eapply conserved_insert; [exact Hc | reflexivity |]. intros s'. unfold admitted.
  rewrite count_app, count_cons. unfold holds_token at 2. rewrite Hr, Ht. simpl.
  change (count (holds_token s') []) with 0. destruct (decide (s' = s)) as [->|Hne].
  - rewrite bool_decide_true by done. simpl. lia.
  - rewrite bool_decide_false by congruence. simpl. lia.
Qed.

Lemma enqueue_inv now rid m allowed d p ts ks :
  inv p ts ks -> rid ∉ map k_request_id ks ->
  inv (with_queues (dset m (queue_of m p ++ [mkWaiter rid allowed (next_future p) now]) (queues p))
         (with_futures (<[next_future p := FPending]> (futures p)) (S (next_future p)) p))
      ts (ks ++ [mkWait rid m (next_future p) d now]).
Proof.
  intros [[H1 H2 H3] Hq Hc] Hr. split; simpl.
  - split; try done. by apply NoDup_dkeys_dset.
  - eapply queue_inv_ext; [|by apply (queue_inv_enqueue _ _ _ _ m rid allowed now d Hq)].
    intros m'. unfold queue_of, upd. simpl. destruct (decide (m' = m)) as [->|].
    + by rewrite dget_dset_eq.
    + by rewrite dget_dset_ne.
  - intros s. rewrite (Hc s). symmetry. by eapply admitted_enqueue.
Qed.

(** The outcome of [acquire_token]'s first stretch. *)
Definition start_ok (r : AcqResult * CapacityPool) (ts : list CapacityToken) (ks : list WaitTask)
    : Prop :=
  match r with
  | (AcqToken t, p') => inv p' (ts ++ [t]) ks
  | (AcqWaiting k, p') => inv p' ts (ks ++ [k])
  | (AcqError _, p') => inv p' ts ks
  end.

Lemma acquire_start_ok now shuf rid m allowed timeout p ts ks :
  is_shuffle shuf -> inv p ts ks -> rid ∉ map k_request_id ks ->
  start_ok (acquire_start now shuf rid m allowed timeout p) ts ks.
Proof.
  intros Hs H Hr. unfold acquire_start. cbv zeta.
  set (p1 := if has_event_bus p then with_subscribed true p else p).
  assert (H1 : inv p1 ts ks).
  { eapply inv_core; [|exact H]. unfold p1. by destruct (has_event_bus p). }
  pose proof (try_immediate_spec now shuf rid m allowed p1 Hs) as Ht.
  destruct (try_immediate now shuf rid m allowed p1) as [[gw|] p2]; simpl.
  - destruct Ht as [Hc _]. eapply inv_core; [exact Hc|]. by apply take_slot_inv.
  - assert (H2 : inv p2 ts ks) by (by eapply inv_core).
    destruct ((0 <? max_queue_depth p2) && _); simpl.
    { eapply inv_core; [apply core_publish | done]. }
    set (ev := emit_queue_entered _ _ _ _ _).
    assert (H3 : inv ev ts ks) by (eapply inv_core; [apply core_publish | done]).
    set (d := match timeout with Some _ => _ | None => _ end).
    pose proof (enqueue_inv now rid m allowed d ev ts ks H3 Hr) as H4.
    set (p4 := with_queues _ _) in *. set (k := mkWait _ _ _ _ _) in *.
    destruct (deadline_passed now d); [|exact H4].
    assert (Hk : (ks ++ [k]) !! length ks = Some k) by (by rewrite list_lookup_middle).
    pose proof (at_deadline_ok now p4 ts (ks ++ [k]) (length ks) k H4 Hk) as Ha.
    unfold acq_ok in Ha. rewrite delete_middle, app_nil_r in Ha.
    destruct (at_deadline now k p4) as [[t|k'|e] p'] eqn:E; try exact Ha.
    by apply at_deadline_not_waiting in E.
Qed.

Lemma run_bg_inv now shuf id p ts ks :
  is_shuffle shuf -> inv p ts ks -> inv (run_bg now shuf id p) ts ks.
Proof.
  intros Hs H. unfold run_bg. destruct (bg p !! id) as [[m|m d]|]; [| |done].
  - apply dispatch_inv; [done|]. by eapply inv_core; [|exact H].
  - set (p1 := cancel_task id p). assert (H1 : inv p1 ts ks) by (by eapply inv_core; [|exact H]).
    destruct (paused_until p1 !! m); [|done]. destruct (flt now q); [done|].
    apply dispatch_inv; [done|]. eapply inv_core; [apply core_clear_pause | done].
Qed.

Lemma core_pause now m d reason p : core (snd (pause_admission now m d reason p)) = core p.
Proof.
  unfold pause_admission. destruct (fle d 0); [done|]. cbv zeta.
  destruct (fle _ _); [done|]. simpl. unfold emit_admission_paused. rewrite core_publish.
  by destruct (resume_tasks p !! m).
Qed.

Lemma core_resume m reason p : core (snd (resume_admission m reason p)) = core p.
Proof.
  unfold resume_admission. destruct (paused_until p !! m); [|done]. simpl.
  unfold create_task. pose proof (core_clear_pause m reason p) as H. unfold core in *.
  simpl. exact H.
Qed.

(** ** Safety *)

Lemma init_inv bus depth : inv (new_pool bus depth) [] [].
Proof.
  split; simpl.
  - split; simpl; [intros s [? ?]; done | constructor | constructor].
  - split; simpl.
    + intros m w Hw. inversion Hw.
    + intros k Hk. inversion Hk.
    + intros m. constructor.
    + constructor.
    + constructor.
    + intros f [? Hf]. by rewrite lookup_empty in Hf.
    + intros k Hk. inversion Hk.
  - intros s. by rewrite lookup_empty.
Qed.

Lemma step_inv o w w' :
  enabled o w -> inv (pool w) (tokens w) (waiting w) -> run_op o w = Ok w' ->
  inv (pool w') (tokens w') (waiting w').
Proof.
  destruct w as [p ts ks]. intros He H Hr. destruct o; simpl in *.
  - destruct He as [Hf Hs].
    pose proof (acquire_start_ok now shuf rid m allowed timeout_s p ts ks Hs H Hf) as Ha.
    destruct (acquire_start _ _ _ _ _ _ _) as [[t|k|e] p']; by injection Hr as <-.
  - destruct (ks !! i) as [k|] eqn:Ei; [|by injection Hr as <-].
    pose proof (wait_resume_ok now cause p ts ks i k H Ei) as Ha.
    destruct (wait_resume _ _ _ _) as [[t|k'|e] p']; by injection Hr as <-.
  - destruct (ts !! i) as [t|] eqn:Ei; [|by injection Hr as <-].
    destruct (token_release_inv now shuf He p ts ks i t H Ei) as (t' & p' & E & _ & Hi).
    rewrite E in Hr. by injection Hr as <-.
  - injection Hr as <-. by apply run_bg_inv.
  - injection Hr as <-. by apply set_capacity_inv.
  - injection Hr as <-. by apply remove_model_inv.
  - injection Hr as <-. by apply remove_gateway_inv.
  - injection Hr as <-. eapply inv_core; [apply core_pause | done].
  - injection Hr as <-. eapply inv_core; [apply core_resume | done].
  - injection Hr as <-. unfold cancel_request.
    destruct (remove_waiter now rid reason true p) as [b p'] eqn:E.
    by apply (remove_waiter_inv _ _ _ _ _ ts ks) in E as [? _].
  - injection Hr as <-. by apply dispatch_all_inv.
Qed.

Lemma reachable_inv w : reachable w -> inv (pool w) (tokens w) (waiting w).
Proof.
  induction 1 as [bus depth|w w' _ IH (o & He & Hr)]; [apply init_inv|].
  by eapply step_inv.
Qed.

(** C1: slot conservation.  In every reachable state, under any interleaving
    of acquisitions, timeouts, cancellations, releases, pauses, background
    dispatches and capacity changes, the in-flight count of each slot is
    exactly the number of unreleased tokens on it plus the number of
    suspended requests already admitted to it.  So no slot leaks and none is
    counted twice; the count is never negative; and when nothing is held or
    waiting every count is zero.  The repairs that overwrite counts,
    [reset_cold_slot] and [reconcile_gateway_state], are not among the
    operations. *)
Theorem slots_conserved w :
  reachable w ->
  (forall s, in_flight_of s (pool w) = admitted s (futures (pool w)) (tokens w) (waiting w)) /\
  (forall s, 0 <= in_flight_of s (pool w)) /\
  (waiting w = [] -> (forall t, t ∈ tokens w -> t_released t = true) ->
   forall s, in_flight_of s (pool w) = 0).
Proof.
  intros H%reachable_inv.
  assert (Ha : forall s, in_flight_of s (pool w) = admitted s (futures (pool w)) (tokens w) (waiting w))
    by (intros s; by apply in_flight_admitted).
  split; [done|]. split; [intros s; rewrite Ha; apply admitted_nonneg|].
  intros Hw Ht s. rewrite Ha, Hw. unfold admitted. change (count _ []) with 0.
  rewrite count_zero; [done|]. intros t Hin. unfold holds_token. by rewrite (Ht t Hin).
Qed.

(** A run: one slot, one token, one queued request, then a release that
    admits it. *)
Definition no_shuffle : shuffle_t := fun _ l => l.

Lemma no_shuffle_ok : is_shuffle no_shuffle.
Proof. intros rid l. reflexivity. Qed.

Fixpoint run_ops (os : list Op) (w : World) : exn World :=
  match os with
  | [] => Ok w
  | o :: os' => let? w' := run_op o w in run_ops os' w'
  end.

(** Decidable check of [enabled] for runs without shuffling. *)
Fixpoint fresh_run (os : list Op) (w : World) : bool :=
  match os with
  | [] => true
  | o :: os' =>
      (match o with
       | OpAcquire _ _ rid _ _ _ => bool_decide (rid ∉ map k_request_id (waiting w))
       | _ => true end) &&
      match run_op o w with Ok w' => fresh_run os' w' | Raise _ => false end
  end.

Definition op_shuffle (o : Op) : Prop :=
  match o with
  | OpAcquire _ shuf _ _ _ _ | OpRelease _ shuf _ | OpBackground _ shuf _
  | OpResourceUpdate _ shuf => is_shuffle shuf
  | _ => True
  end.

Lemma run_reachable os w w' :
  reachable w -> Forall op_shuffle os -> fresh_run os w = true -> run_ops os w = Ok w' -> reachable w'.
Proof.
  revert w. induction os as [|o os IH]; simpl; intros w Hw Hs Hf Hr; [by injection Hr as <-|].
  apply Forall_cons in Hs as [Ho Hs]. apply andb_true_iff in Hf as [H1 Hf].
  destruct (run_op o w) as [w1|] eqn:E; [|done]. simpl in Hr.
  apply (IH w1); try done. apply (R_step w); [done|]. exists o. split; [|done].
  destruct o; simpl in *; try done. split; [by apply bool_decide_eq_true in H1 | done].
Qed.

Definition world0 : World := mkWorld (new_pool true 0) [] [].

Definition on_run (f : World -> bool) (os : list Op) : bool :=
  match run_ops os world0 with Ok w => f w | Raise _ => false end.

Lemma on_run_ok f os w : on_run f os = true -> run_ops os world0 = Ok w -> f w = true.
Proof. unfold on_run. by intros H E; rewrite E in H. Qed.

Lemma on_run_some f os : on_run f os = true -> exists w, run_ops os world0 = Ok w /\ f w = true.
Proof. unfold on_run. destruct (run_ops os world0) as [w|]; [by exists w | done]. Qed.

Definition edge_slot : slot := ("edge", "m")%string.

Definition sample_run : list Op :=
  [OpSetCapacity edge_slot 1;
   OpAcquire 0 no_shuffle "r1" "m" ["edge"%string] None;
   OpAcquire 1 no_shuffle "r2" "m" ["edge"%string] None;
   OpRelease 2 no_shuffle 0].

Lemma slots_conserved_witness :
  match run_ops sample_run world0 with
  | Ok w => in_flight_of edge_slot (pool w) = 1 /\
            admitted edge_slot (futures (pool w)) (tokens w) (waiting w) = 1 /\
            length (waiting w) = 1%nat
  | Raise _ => False
  end.
Proof.
  destruct (run_ops sample_run world0) as [w|] eqn:E; [|discriminate E].
  assert (Hr : reachable w).
  { apply (run_reachable sample_run world0 w); [apply R_init | by repeat constructor; apply no_shuffle_ok |
      vm_compute; reflexivity | exact E]. }
  pose proof (proj1 (slots_conserved w Hr) edge_slot) as Hc. rewrite <- Hc.
  pose proof (on_run_ok (fun w => (in_flight_of edge_slot (pool w) =? 1) &&
    (length (waiting w) =? 1)%nat) sample_run w ltac:(vm_compute; reflexivity) E) as Hn.
  apply andb_true_iff in Hn as [Hn1%Z.eqb_eq Hn2%Nat.eqb_eq]. tauto.
Defined.

(** A repair that strikes a token still held: the gateway has not reported the
    model as busy yet, the slot is counted as free, and the next request is
    admitted beside the first. *)
Example repair_over_admits :
  match run_ops (take 2 sample_run) world0 with
  | Ok w =>
      let w := with_pool (reconcile_gateway_state 2 no_shuffle "edge" ["m"%string] (pool w)) w in
      match run_ops [OpAcquire 3 no_shuffle "r3" "m" ["edge"%string] None] w with
      | Ok w' => length (List.filter (fun t => negb (t_released t)) (tokens w')) = 2%nat /\
                 capacity_of edge_slot (pool w') = 1 /\ in_flight_of edge_slot (pool w') = 1
      | Raise _ => False
      end
  | Raise _ => False
  end.
Proof. vm_compute. repeat split. Qed.

(** Releasing is safe and idempotent.  In every reachable state the
    release of any token returns normally (the deferred-cleanup [del] never
    raises [KeyError]) and marks it; releasing a marked token again changes
    nothing at all. *)
Theorem release_total_idempotent w now shuf i t :
  reachable w -> is_shuffle shuf -> tokens w !! i = Some t ->
  exists t' p', token_release now shuf t (pool w) = Ok (t', p') /\ t_released t' = true /\
    forall now' shuf' q, token_release now' shuf' t' q = Ok (t', q).
Proof.
  intros H%reachable_inv Hs Hi.
  destruct (token_release_inv now shuf Hs _ _ _ i t H Hi) as (t' & p' & E & Hr & _).
  exists t', p'. split; [done|]. split; [done|]. intros. unfold token_release. by rewrite Hr.
Qed.

Lemma release_total_idempotent_witness :
  match run_ops (take 2 sample_run) world0 with
  | Ok w => match tokens w !! 0%nat with
            | Some t => is_ok (token_release 2 no_shuffle t (pool w)) = true
            | None => False
            end
  | Raise _ => False
  end.
Proof.
  destruct (run_ops (take 2 sample_run) world0) as [w|] eqn:E; [|discriminate E].
  assert (Hr : reachable w).
  { apply (run_reachable (take 2 sample_run) world0 w); [apply R_init | by repeat constructor; apply no_shuffle_ok |
      vm_compute; reflexivity | exact E]. }
  destruct (tokens w !! 0%nat) as [t|] eqn:Et.
  - destruct (release_total_idempotent w 2 no_shuffle 0 t Hr no_shuffle_ok Et) as (t' & p' & -> & _).
    reflexivity.
  - pose proof (on_run_ok (fun w => match tokens w with [] => false | _ => true end)
      (take 2 sample_run) w ltac:(vm_compute; reflexivity) E) as Hn.
    cbv beta in Hn. destruct (tokens w); [discriminate Hn | discriminate Et].
Defined.

(** C37: no request is lost.  A suspended request whose future is not
    resolved sits in the queue of its model, under its own request id, and
    only there; every queued waiter belongs to exactly one suspended
    request. *)
Theorem waiters_not_lost w k :
  reachable w -> k ∈ waiting w -> fut (k_future k) (pool w) = FPending ->
  (exists x, x ∈ queue_of (k_model_id k) (pool w) /\ w_future x = k_future k /\
             w_request_id x = k_request_id k) /\
  (forall m x, x ∈ queue_of m (pool w) -> w_request_id x = k_request_id k ->
     m = k_model_id k /\ w_future x = k_future k).
Proof.
  intros H%reachable_inv Hk Hf. pose proof (fut_cases _ _ _ _ H Hk) as Hp. rewrite Hf in Hp.
  pose proof (inv_queue _ _ _ H) as Hq.
  destruct (qi_waiter _ _ _ _ Hq k Hk Hp) as (x & Hx & Hfx).
  destruct (owner_unique _ _ _ _ _ _ _ Hq Hx Hk (eq_sym Hfx)) as [Hr Hm].
  split; [by exists x|]. intros m y Hy Hry.
  destruct (waiter_unique _ _ _ _ _ m x y Hq Hx Hy ltac:(right; congruence)) as (-> & _ & ->). done.
Qed.

Definition one_pending (w : World) : bool :=
  match waiting w with
  | [k] => bool_decide (k_model_id k = "m"%string) &&
           bool_decide (fut (k_future k) (pool w) = FPending)
  | _ => false
  end.

Lemma waiters_not_lost_witness :
  match run_ops (take 3 sample_run) world0 with
  | Ok w => match waiting w with
            | [k] => exists x, x ∈ queue_of "m" (pool w) /\ w_future x = k_future k
            | _ => False
            end
  | Raise _ => False
  end.
Proof.
  destruct (run_ops (take 3 sample_run) world0) as [w|] eqn:E; [|discriminate E].
  assert (Hr : reachable w).
  { apply (run_reachable (take 3 sample_run) world0 w); [apply R_init | by repeat constructor; apply no_shuffle_ok |
      vm_compute; reflexivity | exact E]. }
  pose proof (on_run_ok one_pending (take 3 sample_run) w ltac:(vm_compute; reflexivity) E) as Hn.
  unfold one_pending in Hn. destruct (waiting w) as [|k [|]] eqn:Hw; try discriminate Hn.
  apply andb_true_iff in Hn as [Hm%bool_decide_eq_true Hf%bool_decide_eq_true].
  destruct (waiters_not_lost w k Hr ltac:(rewrite Hw; left) Hf) as ((x & Hx & Hfx & _) & _).
  exists x. by rewrite Hm in Hx.
Defined.

(** ** What admission and dispatch guarantee *)

Lemma available_zero s p : available s p <= 0 -> available s p = 0.
Proof. unfold available. lia. Qed.

Lemma try_immediate_none now shuf rid m allowed p p' :
  is_shuffle shuf -> try_immediate now shuf rid m allowed p = (None, p') ->
  fst (is_paused now m p) = true \/ forall gw, gw ∈ allowed -> available (gw, m) p = 0.
Proof.
  intros Hs. unfold try_immediate. pose proof (core_is_paused now m p) as Hc.
  destruct (is_paused now m p) as [[|] p1]; [by left|]. simpl in Hc.
  destruct (ranked m allowed p1) as [|r0 rs] eqn:Er.
  - intros _. right. intros gw Hg. apply available_zero.
    rewrite <- (core_available p p1 (gw, m) Hc). apply Z.nlt_ge. intros Ha.
    assert (Hin : (gw, available (gw, m) p1) ∈ ranked m allowed p1).
    { unfold ranked. apply elem_of_lfilter. split; [|by apply Z.ltb_lt].
      apply list_elem_of_fmap. by exists gw. }
    rewrite Er in Hin. inversion Hin.
  - destruct (sort_by by_available_desc (shuf rid (r0 :: rs))) as [|[gw a] rest] eqn:Es; [|done].
    apply sort_by_nil_iff in Es. pose proof (Hs rid (r0 :: rs)) as Hp. rewrite Es in Hp.
    by apply Permutation_nil_l in Hp.
Qed.

Lemma is_paused_ext now m p p' :
  paused_until p' !! m = paused_until p !! m -> fst (is_paused now m p') = fst (is_paused now m p).
Proof. intros E. unfold is_paused. rewrite E. repeat case_goal; done. Qed.

Lemma is_paused_again now m p : fst (is_paused now m (snd (is_paused now m p))) = fst (is_paused now m p).
Proof.
  destruct (is_paused now m p) as [b p1] eqn:Ei. simpl. unfold is_paused in Ei.
  destruct (paused_until p !! m) as [d|] eqn:E.
  - destruct (fle d now) eqn:Ed; injection Ei as <- <-.
    + unfold is_paused, clear_pause, emit_admission_resumed, publish. cbv zeta.
      destruct (resume_tasks p !! m); simpl;
        destruct (bool_decide _); simpl; try destruct (has_event_bus p); simpl;
        by rewrite lookup_delete_eq.
    + unfold is_paused. by rewrite E, Ed.
  - injection Ei as <- <-. unfold is_paused. by rewrite E.
Qed.

Lemma try_immediate_paused now shuf rid m allowed p :
  fst (is_paused now m (snd (try_immediate now shuf rid m allowed p))) = fst (is_paused now m p).
Proof.
  pose proof (is_paused_again now m p) as H. unfold try_immediate.
  destruct (is_paused now m p) as [[|] p1]; simpl in *; [exact H|].
  destruct (ranked m allowed p1); [exact H|].
  destruct (sort_by _ _) as [|[gw a] rest]; [exact H|].
  rewrite <- H. by apply is_paused_ext.
Qed.

Lemma fut_pending_lookup f p : future_done (fut f p) = false -> futures p !! f = Some FPending.
Proof. unfold fut. destruct (futures p !! f) as [[]|]; done. Qed.

Lemma in_flight_take now s p s' :
  in_flight_of s' (take_slot now s p) = in_flight_of s' p + (if decide (s' = s) then 1 else 0).
Proof.
  unfold in_flight_of at 1, take_slot. simpl. destruct (decide (s' = s)) as [->|Hne].
  - by rewrite lookup_insert_eq.
  - rewrite lookup_insert_ne by done. unfold in_flight_of. lia.
Qed.

(** What one run of the dispatch loop does to slots and queue. *)
Record dispatched (now : Q) (m : string) (p p' : CapacityPool) (q stay : list Waiter) : Prop := {
  d_capacity : capacity p' = capacity p;
  d_in_flight : forall s, in_flight_of s p <= in_flight_of s p' <= Z.max (in_flight_of s p) (capacity_of s p);
  d_paused : fst (is_paused now m p') = fst (is_paused now m p);
  d_stay : forall w, w ∈ stay -> fst (is_paused now m p) = true \/
     forall gw, gw ∈ allowed_gateway_ids w -> available (gw, m) p' = 0;
  d_order : stay `sublist_of` q
}.

Section DispatchFacts.
Context (now : Q) (shuf : shuffle_t) (Hshuf : is_shuffle shuf).

Lemma available_antitone s p p' :
  capacity p' = capacity p -> in_flight_of s p <= in_flight_of s p' ->
  available s p = 0 -> available s p' = 0.
Proof. intros Hc. unfold available, capacity_of. rewrite Hc. lia. Qed.

(** One turn of the loop on a waiter still pending: it is left in place, and
    then admission is paused or all its gateways are full, or it is served. *)
Definition left_in_place (m : string) (w : Waiter) (q : list Waiter) (p : CapacityPool) : Prop :=
  exists p1, core p1 = core p /\ fst (is_paused now m p1) = fst (is_paused now m p) /\
    (fst (is_paused now m p) = true \/
     forall gw, gw ∈ allowed_gateway_ids w -> available (gw, m) p = 0) /\
    dispatch_loop now shuf m (w :: q) p =
      (w :: fst (dispatch_loop now shuf m q p1), snd (dispatch_loop now shuf m q p1)).

Definition served_at_once (m : string) (w : Waiter) (q : list Waiter) (p : CapacityPool) : Prop :=
  exists gw p1, gw ∈ allowed_gateway_ids w /\ 0 < available (gw, m) p /\
    fst (is_paused now m p) = false /\ fst (is_paused now m p1) = false /\
    futures p1 = <[w_future w := FResult gw]> (futures p) /\ capacity p1 = capacity p /\
    (forall s, in_flight_of s p1 = in_flight_of s p + (if decide (s = (gw, m)) then 1 else 0)) /\
    dispatch_loop now shuf m (w :: q) p = dispatch_loop now shuf m q p1.

Lemma dispatch_loop_cons m w q p :
  futures p !! w_future w = Some FPending -> left_in_place m w q p \/ served_at_once m w q p.
Proof.
  intros Ed. pose proof (try_immediate_spec now shuf (w_request_id w) m (allowed_gateway_ids w) p Hshuf) as Ht.
  pose proof (try_immediate_none now shuf (w_request_id w) m (allowed_gateway_ids w) p) as Hn.
  pose proof (try_immediate_paused now shuf (w_request_id w) m (allowed_gateway_ids w) p) as Hp.
  unfold left_in_place, served_at_once. simpl.
  assert (Hd : future_done (fut (w_future w) p) = false) by (unfold fut; by rewrite Ed). rewrite Hd.
  destruct (try_immediate _ _ _ _ _ p) as [[gw|] p1]; simpl in Hp.
  - right. destruct Ht as (Hc & Hg & Ha & _ & Hf).
    assert (Ef : futures p1 = futures p) by (unfold core in Hc; by injection Hc).
    unfold fut, set_result. rewrite Ef, Ed. simpl.
    exists gw, (with_futures (<[w_future w := FResult gw]> (futures p)) (next_future p1) p1).
    repeat split; try done.
    + rewrite <- Hf, <- Hp. by apply is_paused_ext.
    + unfold core in Hc. by injection Hc.
    + intros s. change (in_flight_of s (with_futures _ _ _)) with (in_flight_of s p1).
      rewrite (core_in_flight_of _ _ s Hc). apply in_flight_take.
  - left. exists p1. repeat split; try done; [by apply (Hn p1)|]. by destruct (dispatch_loop now shuf m q p1).
Qed.

(** What a case of [dispatch_loop_cons] leaves to the rest of the queue. *)
Lemma core_futures p p1 : core p1 = core p -> futures p1 = futures p.
Proof. unfold core. by injection 1. Qed.

Lemma core_capacity p p1 : core p1 = core p -> capacity p1 = capacity p.
Proof. unfold core. by injection 1. Qed.

Definition all_pending (q : list Waiter) (p : CapacityPool) : Prop :=
  Forall (fun w => futures p !! w_future w = Some FPending) q /\ NoDup (map w_future q).

Lemma all_pending_same w q p p1 :
  all_pending (w :: q) p -> futures p1 = futures p -> all_pending q p1.
Proof. intros [[_ H1]%Forall_cons [_ H2]%NoDup_cons] E. split; [by rewrite E | done]. Qed.

Lemma all_pending_served w q p p1 F :
  all_pending (w :: q) p -> futures p1 = <[w_future w := F]> (futures p) -> all_pending q p1.
Proof.
  intros [[_ H1]%Forall_cons [Hn H2]%NoDup_cons] E. split; [|done].
  rewrite Forall_forall in *. intros x Hx. rewrite E, lookup_insert_ne; [by apply H1|].
  intros He. apply Hn. rewrite He. by apply list_elem_of_fmap_2.
Qed.

Lemma dispatch_loop_facts m q : forall p,
  all_pending q p ->
  dispatched now m p (snd (dispatch_loop now shuf m q p)) q (fst (dispatch_loop now shuf m q p)).
Proof.
  induction q as [|w q IH]; intros p Hap.
  { simpl. split; try done; try lia. intros w Hw. inversion Hw. }
  pose proof Hap as [[Hw _]%Forall_cons _].
  destruct (dispatch_loop_cons m w q p Hw)
    as [(p1 & Hc & Hp & Hn & ->)|(gw & p1 & _ & Ha & Hf & Hf1 & Ef & Ec & Hif & ->)].
  - destruct (IH p1 (all_pending_same w q p p1 Hap (core_futures _ _ Hc))) as [H1 H2 H3 H4 H5].
    assert (H2' : forall s, in_flight_of s p <= in_flight_of s (snd (dispatch_loop now shuf m q p1)) <=
                    Z.max (in_flight_of s p) (capacity_of s p)).
    { intros s. specialize (H2 s). by rewrite (core_in_flight_of _ _ s Hc), (core_capacity_of _ _ s Hc) in H2. }
    pose proof (core_capacity _ _ Hc) as Ec. simpl. split; try congruence; [done| |by constructor].
    intros x [->|Hx]%elem_of_cons; [|rewrite <- Hp; by apply H4].
    destruct Hn as [|Hz]; [by left|]. right. intros gw Hg.
    apply (available_antitone _ p); [congruence | apply H2' | by apply Hz].
  - destruct (IH p1 (all_pending_served w q p p1 _ Hap Ef)) as [H1 H2 H3 H4 H5].
    split; [congruence | | congruence | | by constructor].
    + intros s. specialize (H2 s). specialize (Hif s). unfold capacity_of in *. rewrite Ec in H2.
      unfold available, capacity_of in Ha. destruct (decide (s = (gw, m))) as [->|]; lia.
    + intros x Hx. destruct (H4 x Hx) as [He|]; [congruence | by right].
Qed.

(** The loop resolves only futures of the queue it walks, and an admission
    needs a slot that was free, and not paused, from the start. *)
Lemma dispatch_loop_other m q f : forall p, all_pending q p -> f ∉ map w_future q ->
  futures (snd (dispatch_loop now shuf m q p)) !! f = futures p !! f.
Proof.
  induction q as [|w q IH]; intros p Hap Hf; [done|]. apply not_elem_of_cons in Hf as [Hne Hf].
  pose proof Hap as [[Hw _]%Forall_cons _].
  destruct (dispatch_loop_cons m w q p Hw)
    as [(p1 & Hc & _ & _ & ->)|(gw & p1 & _ & _ & _ & _ & Ef & _ & _ & ->)]; simpl.
  - rewrite IH; [by rewrite (core_futures _ _ Hc) | by eapply all_pending_same, core_futures | done].
  - rewrite IH; [by rewrite Ef, lookup_insert_ne | by eapply all_pending_served | done].
Qed.

Lemma dispatch_loop_served m q f gw : forall p, all_pending q p ->
  futures p !! f = Some FPending ->
  futures (snd (dispatch_loop now shuf m q p)) !! f = Some (FResult gw) ->
  0 < available (gw, m) p /\ fst (is_paused now m p) = false.
Proof.
  induction q as [|w q IH]; intros p Hap Hf Hr; [simpl in Hr; congruence|].
  pose proof Hap as [[Hw _]%Forall_cons [Hn _]%NoDup_cons].
  destruct (dispatch_loop_cons m w q p Hw)
    as [(p1 & Hc & Hp & _ & E)|(gw' & p1 & _ & Ha & Hnp & _ & Ef & Ec & Hif & E)]; rewrite E in Hr; simpl in Hr.
  - pose proof (core_futures _ _ Hc) as Ef.
    destruct (IH p1 (all_pending_same _ _ _ _ Hap Ef) ltac:(by rewrite Ef) Hr) as [H1 H2].
    by rewrite (core_available p p1 _ Hc) in H1; rewrite Hp in H2.
  - split; [|done]. pose proof (all_pending_served _ _ _ _ _ Hap Ef) as Hap1.
    destruct (decide (f = w_future w)) as [->|Hne].
    { rewrite (dispatch_loop_other m q _ p1 Hap1 Hn), Ef, lookup_insert_eq in Hr. by injection Hr as <-. }
    destruct (IH p1 Hap1 ltac:(by rewrite Ef, lookup_insert_ne) Hr) as [H1 _].
    specialize (Hif (gw, m)). unfold available, capacity_of in *. rewrite Ec in H1.
    destruct (decide _); lia.
Qed.

Lemma dispatch_loop_fate m q : forall p x, all_pending q p -> x ∈ q ->
  let r := dispatch_loop now shuf m q p in
  (x ∈ fst r /\ futures (snd r) !! w_future x = Some FPending) \/
  exists gw, gw ∈ allowed_gateway_ids x /\ futures (snd r) !! w_future x = Some (FResult gw).
Proof.
  induction q as [|w q IH]; intros p x Hap Hx; [inversion Hx|].
  pose proof Hap as [[Hw _]%Forall_cons [Hn _]%NoDup_cons].
  destruct (dispatch_loop_cons m w q p Hw)
    as [(p1 & Hc & _ & _ & ->)|(gw & p1 & Hg & _ & _ & _ & Ef & _ & _ & ->)]; simpl.
  - pose proof (core_futures _ _ Hc) as Ef. pose proof (all_pending_same _ _ _ _ Hap Ef) as Hap1.
    apply elem_of_cons in Hx as [->|Hx].
    + left. split; [by left|]. by rewrite (dispatch_loop_other m q _ p1 Hap1 Hn), Ef.
    + destruct (IH p1 x Hap1 Hx) as [[]|]; [left; split; [by right | done] | by right].
  - pose proof (all_pending_served _ _ _ _ _ Hap Ef) as Hap1. apply elem_of_cons in Hx as [->|Hx].
    + right. exists gw. split; [done|]. by rewrite (dispatch_loop_other m q _ p1 Hap1 Hn), Ef, lookup_insert_eq.
    + by apply IH.
Qed.

(** A waiter that stays is not overtaken on a gateway it could have used. *)
Lemma dispatch_loop_no_overtaking m x l2 y gw l1 : forall p,
  all_pending (l1 ++ x :: l2) p -> y ∈ l2 ->
  let p' := snd (dispatch_loop now shuf m (l1 ++ x :: l2) p) in
  futures p' !! w_future x = Some FPending -> futures p' !! w_future y = Some (FResult gw) ->
  gw ∉ allowed_gateway_ids x.
Proof.
  induction l1 as [|w l1 IH]; intros p Hap Hy; simpl app; pose proof Hap as [[Hw Hall]%Forall_cons [Hn _]%NoDup_cons].
  - destruct (dispatch_loop_cons m x l2 p Hw)
      as [(p1 & Hc & Hp & Hx & ->)|(gw' & p1 & _ & _ & _ & _ & Ef & _ & _ & ->)]; simpl; intros Hpx Hpy Hg.
    + pose proof (core_futures _ _ Hc) as Ef. rewrite Forall_forall in Hall.
      destruct (dispatch_loop_served m l2 (w_future y) gw p1 (all_pending_same _ _ _ _ Hap Ef)
        ltac:(rewrite Ef; by apply Hall) Hpy) as [H1 H2].
      rewrite (core_available p p1 _ Hc) in H1. destruct Hx as [Hx|Hx]; [congruence|].
      specialize (Hx gw Hg). lia.
    + rewrite (dispatch_loop_other m l2 _ p1 (all_pending_served _ _ _ _ _ Hap Ef) Hn), Ef, lookup_insert_eq in Hpx.
      congruence.
  - destruct (dispatch_loop_cons m w (l1 ++ x :: l2) p Hw)
      as [(p1 & Hc & _ & _ & ->)|(gw' & p1 & _ & _ & _ & _ & Ef & _ & _ & ->)]; simpl.
    + apply (IH p1); [by eapply all_pending_same, core_futures | done].
    + apply (IH p1); [by eapply all_pending_served | done].
Qed.

Lemma inv_all_pending m p ts ks : inv p ts ks -> all_pending (queue_of m p) p.
Proof.
  intros H. pose proof (inv_queue _ _ _ H) as Hq. split.
  - apply Forall_forall. intros w Hw. by apply (qi_owner _ _ _ _ Hq m w Hw).
  - pose proof (qi_rids _ _ _ _ Hq m) as Hn.
    assert (Hall : forall x y, x ∈ queue_of m p -> y ∈ queue_of m p ->
              w_future x = w_future y -> w_request_id x = w_request_id y).
    { intros x y Hx Hy E. by destruct (waiter_unique _ _ _ _ m m x y Hq Hx Hy (or_introl (eq_sym E))) as (_ & -> & _). }
    induction (queue_of m p) as [|w q IH]; simpl in *; [constructor|].
    apply NoDup_cons in Hn as [Hw Hn]. apply NoDup_cons. split.
    + intros (y & Hfy & Hy)%list_elem_of_fmap. apply Hw.
      rewrite (Hall w y); [by apply list_elem_of_fmap_2 | by left | by right | done].
    + apply IH; [done|]. intros x y Hx Hy. apply Hall; by right.
Qed.

Lemma inv_queue_frame m q p ts ks stay p' :
  inv p ts ks -> queue_of m p = q -> dispatch_loop now shuf m q p = (stay, p') ->
  queues p' = queues p.
Proof.
  intros H%inv_with_queues Hq E.
  by apply (dispatch_loop_inv now shuf Hshuf m q [] _ p ts ks stay p' H) in E as [_ ?].
Qed.

(** [_dispatch] is the loop on the stored queue, its result stored back. *)
Lemma dispatch_as_loop m p ts ks :
  inv p ts ks ->
  let r := dispatch_loop now shuf m (queue_of m p) p in
  let p' := dispatch now shuf m p in
  queue_of m p' = fst r /\ (forall m', m' <> m -> queue_of m' p' = queue_of m' p) /\
  futures p' = futures (snd r) /\ (forall s, in_flight_of s p' = in_flight_of s (snd r)) /\
  (forall s, available s p' = available s (snd r)).
Proof.
  intros H. simpl. unfold dispatch. destruct (dget m (queues p)) as [[|w q]|] eqn:Eq.
  1,3: unfold queue_of; rewrite Eq; done.
  assert (Eqm : queue_of m p = w :: q) by (unfold queue_of; by rewrite Eq). rewrite Eqm.
  destruct (dispatch_loop now shuf m (w :: q) p) as [stay p'] eqn:E.
  pose proof (inv_queue_frame m (w :: q) p ts ks stay p' H Eqm E) as Hq.
  change (match stay with [] => with_queues (ddel m (queues p')) p'
          | _ => with_queues (dset m stay (queues p')) p' end) with (store_queue m stay p').
  destruct (store_queue_rest m stay p') as (E1 & E2 & E3 & _ & _).
  assert (Hnd : NoDup (dkeys (queues p'))) by (rewrite Hq; apply H).
  repeat split; simpl.
  - by rewrite queue_of_store, upd_eq.
  - intros m' Hne. rewrite queue_of_store, upd_ne by done. unfold queue_of. by rewrite Hq.
  - by destruct stay.
  - intros s. unfold in_flight_of. congruence.
  - intros s. unfold available, capacity_of, in_flight_of. congruence.
Qed.

End DispatchFacts.

Lemma fut_pending f p : fut f p = FPending <-> futures p !! f = Some FPending.
Proof. unfold fut. destruct (futures p !! f) as [[]|]; simpl; split; congruence. Qed.

Lemma fut_result f gw p : fut f p = FResult gw <-> futures p !! f = Some (FResult gw).
Proof. unfold fut. destruct (futures p !! f) as [[]|]; simpl; split; congruence. Qed.

(** C4: dispatch is work conserving, first-come-first-served and never
    over-admits.  In every reachable state, after [_dispatch] of a model:
    each queued waiter was either handed a gateway it allows or still waits,
    and then admission is paused or every gateway it allows is full; the
    waiters left keep their order; a waiter still pending was not overtaken
    by a later one on any gateway it allows; no slot's in-flight count was
    pushed above its capacity; and the other models' queues are untouched. *)
Theorem dispatch_guarantees now shuf m w :
  is_shuffle shuf -> reachable w ->
  let p := pool w in
  let p' := dispatch now shuf m p in
  (forall x, x ∈ queue_of m p ->
     (exists gw, gw ∈ allowed_gateway_ids x /\ fut (w_future x) p' = FResult gw) \/
     (x ∈ queue_of m p' /\ fut (w_future x) p' = FPending /\
      (fst (is_paused now m p) = true \/
       forall gw, gw ∈ allowed_gateway_ids x -> available (gw, m) p' = 0))) /\
  queue_of m p' `sublist_of` queue_of m p /\
  (forall l1 x l2 y gw, queue_of m p = l1 ++ x :: l2 -> y ∈ l2 ->
     fut (w_future x) p' = FPending -> fut (w_future y) p' = FResult gw ->
     gw ∉ allowed_gateway_ids x) /\
  (forall s, in_flight_of s p <= capacity_of s p -> in_flight_of s p' <= capacity_of s p) /\
  (forall m', m' <> m -> queue_of m' p' = queue_of m' p).
Proof.
  intros Hs H%reachable_inv p p'. fold p in H.
  destruct (dispatch_as_loop now shuf Hs m p _ _ H) as (Eq & Eo & Ef & Ei & Ea). fold p' in Eq, Eo, Ef, Ei, Ea.
  pose proof (inv_all_pending m p _ _ H) as Hap.
  destruct (dispatch_loop_facts now shuf Hs m _ p Hap) as [_ H2 _ H4 H5].
  rewrite <- Eq in H4, H5. split; [|split; [done|split; [|split; [|done]]]].
  - intros x Hx. destruct (dispatch_loop_fate now shuf Hs m _ p x Hap Hx) as [[Hin Hf]|(gw & Hg & Hf)];
      rewrite <- Ef in Hf; [right | left; exists gw; by rewrite fut_result].
    rewrite <- Eq in Hin. rewrite fut_pending. split; [done|]. split; [done|].
    destruct (H4 x Hin) as [|Hz]; [by left|]. right. intros gw Hg. rewrite Ea. by apply Hz.
  - intros l1 x l2 y gw Hq Hy. rewrite fut_pending, fut_result, Ef, Hq. rewrite Hq in Hap.
    by apply (dispatch_loop_no_overtaking now shuf Hs m x l2 y gw l1 p Hap Hy).
  - intros s Hle. rewrite Ei. specialize (H2 s). lia.
Qed.

(** Two waiters on a full gateway, a third that allows another one; the
    capacity is then raised and the model dispatched. *)
Definition queued_run : list Op :=
  [OpSetCapacity edge_slot 1;
   OpAcquire 0 no_shuffle "r1" "m" ["edge"%string] None;
   OpAcquire 1 no_shuffle "r2" "m" ["edge"%string] None;
   OpAcquire 1 no_shuffle "r3" "m" ["edge"%string] None;
   OpAcquire 1 no_shuffle "r4" "m" ["edge"%string; "gpu"%string] None;
   OpSetCapacity edge_slot 2; OpSetCapacity ("gpu", "m")%string 1].

Definition serves_r2_r4 (w : World) : bool :=
  bool_decide (map w_request_id (queue_of "m" (pool w)) = ["r2"; "r3"; "r4"]%string) &&
  bool_decide (map w_request_id (queue_of "m" (dispatch 2 no_shuffle "m" (pool w))) = ["r3"%string]).

Lemma dispatch_guarantees_witness :
  match run_ops queued_run world0 with
  | Ok w =>
      let p' := dispatch 2 no_shuffle "m" (pool w) in
      map w_request_id (queue_of "m" (pool w)) = ["r2"; "r3"; "r4"]%string /\
      map w_request_id (queue_of "m" p') = ["r3"%string] /\
      (forall s, in_flight_of s (pool w) <= capacity_of s (pool w) -> in_flight_of s p' <= capacity_of s (pool w))
  | Raise _ => False
  end.
Proof.
  destruct (on_run_some serves_r2_r4 queued_run ltac:(vm_compute; reflexivity)) as (w & E & Hn).
  rewrite E. apply andb_true_iff in Hn as [Hn1%bool_decide_eq_true Hn2%bool_decide_eq_true].
  assert (Hr : reachable w).
  { apply (run_reachable queued_run world0 w); [apply R_init | by repeat constructor; apply no_shuffle_ok |
      vm_compute; reflexivity | exact E]. }
  destruct (dispatch_guarantees 2 no_shuffle "m" w no_shuffle_ok Hr) as (_ & _ & _ & H4 & _).
  exact (conj Hn1 (conj Hn2 H4)).
Defined.

(** A pause really suspends admission and is never cut short by another
    pause.  While the deadline of a model lies ahead, an attempt to admit
    changes nothing and a dispatch keeps the whole queue and every count;
    and a second [pause_admission] leaves the later of the two deadlines. *)
Theorem pause_suspends now shuf m p d :
  is_shuffle shuf -> paused_until p !! m = Some d -> (now < d)%Q ->
  (forall rid allowed, try_immediate now shuf rid m allowed p = (None, p)) /\
  (forall s, in_flight_of s (dispatch now shuf m p) = in_flight_of s p) /\
  (forall w, w ∈ queue_of m p -> fut (w_future w) p = FPending ->
     w ∈ queue_of m (dispatch now shuf m p)) /\
  (forall dur reason, exists d',
     paused_until (snd (pause_admission now m dur reason p)) !! m = Some d' /\ (d <= d')%Q /\
     ((0 < dur)%Q -> (fadd now dur <= d')%Q)).
Proof.
  intros Hs Hp Hd. assert (Hi : is_paused now m p = (true, p)).
  { unfold is_paused. rewrite Hp. by rewrite (proj2 (fle_false d now)). }
  assert (Ht : forall rid allowed, try_immediate now shuf rid m allowed p = (None, p)).
  { intros. unfold try_immediate. by rewrite Hi. }
  assert (Hl : forall q, dispatch_loop now shuf m q p =
            (List.filter (fun w => negb (future_done (fut (w_future w) p))) q, p)).
  { induction q as [|w q IH]; simpl; [done|]. rewrite Ht, IH.
    by destruct (future_done (fut (w_future w) p)). }
  split; [done|]. split; [|split].
  - intros s. unfold dispatch. destruct (dget m (queues p)) as [[|w q]|]; try done.
    rewrite Hl. by destruct (List.filter _ _).
  - intros w Hw Hf. unfold dispatch, queue_of in *.
    destruct (dget m (queues p)) as [[|w0 q]|] eqn:Eq; try by rewrite Eq.
    rewrite Hl. assert (Hin : w ∈ List.filter (fun w => negb (future_done (fut (w_future w) p))) (w0 :: q)).
    { apply elem_of_lfilter. by rewrite Hf. }
    destruct (List.filter _ _) as [|x l]; [inversion Hin|]. simpl. by rewrite dget_dset_eq.
  - intros dur reason. unfold pause_admission. rewrite Hp. simpl.
    destruct (fle dur 0) eqn:E0; simpl; q_prop.
    { exists d. split; [done|]. split; [lra|]. intros. lra. }
    destruct (fle (fadd now dur) d) eqn:E1; simpl; q_prop.
    { exists d. split; [done|]. split; [lra|]. done. }
    exists (fadd now dur). split; [|split; [lra | intros; lra]].
    unfold emit_admission_paused, publish. simpl.
    destruct (resume_tasks p !! m); simpl; destruct (has_event_bus p); simpl; by rewrite lookup_insert_eq.
Qed.

Lemma pause_suspends_witness :
  let p := snd (pause_admission 0 "m" 30 "starvation_relief" (set_capacity edge_slot 1 (new_pool true 0))) in
  try_immediate 5 no_shuffle "r" "m" ["edge"%string] p = (None, p).
Proof.
  intros p. refine (proj1 (pause_suspends 5 no_shuffle "m" p 30 no_shuffle_ok _ _) "r"%string ["edge"%string]);
    reflexivity.
Defined.

(** An elapsed pause can strand the queue.  With a free slot, a request
    queued during a pause, and the pause elapsed, one other acquisition
    arriving before the resume task runs clears the pause and cancels that
    task without dispatching; if it cannot use the free slot itself, the slot
    stays free, the queue stays as it is and no scheduled task is left to
    serve it (only a later release, capacity change or resource event would).
    (The class docstring promises that queued waiters "wake on resume".) *)
Theorem lazy_expiry_strands_queue :
  let setup :=
    [OpSetCapacity edge_slot 1;
     OpPause 0 "m" 30 "starvation_relief";
     OpAcquire 1 no_shuffle "r1" "m" ["edge"%string] None] in
  let late := [OpAcquire 31 no_shuffle "r2" "m" ["other"%string] None] in
  on_run (fun w => (size (bg (pool w)) =? 1)%nat) setup = true /\
  on_run (fun w =>
    bool_decide (map w_request_id (queue_of "m" (pool w)) = ["r1"; "r2"]%string) &&
    bool_decide (paused_until (pool w) !! "m"%string = None) &&
    (available edge_slot (pool w) =? 1) &&
    (size (bg (pool w)) =? 0)%nat) (setup ++ late) = true.
Proof. split; vm_compute; reflexivity. Qed.
