(* ===== verification/CapacityCounter.v ===== *)
(** * Capacity counter

    [libs/universal_concurrency/capacity_counter.py]: a bounded counter with
    a release callback.  The callback is external; the model counts its
    invocations.  A dynamic limit is a callable: the value it returns at a
    call is the argument [dyn]. *)
From stdpp Require Import base list strings.
From Stdlib Require Import ZArith Lia.
From S2P Require Import Prelude.
Local Open Scope Z_scope.

(** Limit sources, shared with the gate. *)
Inductive LimitSource :=
  | Static (n : Z)
  | Dynamic.

(** [current_limit] *)
Definition current_limit (dyn : Z) (src : LimitSource) : exn Z :=
  match src with
  | Static n => Ok n
  | Dynamic => if dyn <? 1 then Raise CapacityLimitError else Ok dyn
  end.

(** The check of the constructors. *)
Definition valid_source (src : LimitSource) : exn LimitSource :=
  match src with
  | Static n => if n <? 1 then Raise CapacityLimitError else Ok src
  | Dynamic => Ok src
  end.

Record CapacityCounter := mkCounter {
  limit_source : LimitSource;
  has_on_release : bool;
  active_count : Z;
  total_acquired : Z;
  total_released : Z;
  callbacks : Z
}.

Definition new_counter (src : LimitSource) (on_release : bool) : exn CapacityCounter :=
  let? src := valid_source src in Ok (mkCounter src on_release 0 0 0 0).

Definition try_acquire (dyn : Z) (c : CapacityCounter) : bool * CapacityCounter :=
  match current_limit dyn (limit_source c) with
  | Raise _ => (false, c)
  | Ok limit =>
      if active_count c <? limit
      then (true, mkCounter (limit_source c) (has_on_release c) (active_count c + 1)
                    (total_acquired c + 1) (total_released c) (callbacks c))
      else (false, c)
  end.

Definition release (c : CapacityCounter) : exn CapacityCounter :=
  if active_count c =? 0 then Raise OverReleaseError
  else Ok (mkCounter (limit_source c) (has_on_release c) (active_count c - 1) (total_acquired c)
             (total_released c + 1)
             (if has_on_release c then callbacks c + 1 else callbacks c)).

Record CounterStats := mkStats { st_active : Z; st_limit : Z; st_acquired : Z; st_released : Z }.

Definition stats (dyn : Z) (c : CapacityCounter) : CounterStats :=
  mkStats (active_count c)
    (match current_limit dyn (limit_source c) with Ok l => l | Raise _ => -1 end)
    (total_acquired c) (total_released c).

(** ** Runs *)

Inductive counter_op := CAcquire (dyn : Z) | CRelease.

(** A failed release leaves the counter as it is (the error goes to the caller). *)
Definition run_counter (o : counter_op) (c : CapacityCounter) : CapacityCounter :=
  match o with
  | CAcquire dyn => snd (try_acquire dyn c)
  | CRelease => match release c with Ok c' => c' | Raise _ => c end
  end.

Lemma run_counter_books o c :
  active_count c = total_acquired c - total_released c -> 0 <= active_count c ->
  let c' := run_counter o c in
  active_count c' = total_acquired c' - total_released c' /\ 0 <= active_count c' /\
  limit_source c' = limit_source c.
Proof.
  intros Hb H0. destruct o; simpl; unfold try_acquire, release; repeat case_goal; simpl;
    to_prop; simplify_eq/=; repeat split; try done; lia.
Qed.

(** The counter's books balance over any run from a fresh counter, over-
    releases included: active is acquired minus released and never negative,
    and with a static limit it never exceeds the limit. *)
Theorem counter_books src cb c0 os :
  new_counter src cb = Ok c0 ->
  let c := foldl (fun c o => run_counter o c) c0 os in
  active_count c = total_acquired c - total_released c /\ 0 <= active_count c /\
  (forall n, src = Static n -> active_count c <= n).
Proof.
  intros H. unfold new_counter in H. inv_bind H. injection H as <-.
  assert (Hsrc : a = src /\ forall n, src = Static n -> 1 <= n).
  { unfold valid_source in Ha. destruct src as [n|]; [|by injection Ha as <-].
    destruct (n <? 1) eqn:E; [done|]. injection Ha as <-. split; [done|].
    intros ? [= <-]. to_prop. lia. }
  destruct Hsrc as [-> Hn].
  assert (Hinv : forall c, limit_source c = src ->
     active_count c = total_acquired c - total_released c -> 0 <= active_count c ->
     (forall n, src = Static n -> active_count c <= n) ->
     let c' := foldl (fun c o => run_counter o c) c os in
     active_count c' = total_acquired c' - total_released c' /\ 0 <= active_count c' /\
     (forall n, src = Static n -> active_count c' <= n)).
  { induction os as [|o os IH]; simpl; intros c Hs Hb H0 Hl; [done|].
    destruct (run_counter_books o c Hb H0) as (Hb' & H0' & Hs').
    apply IH; [congruence | done | done |]. intros n Hn'. specialize (Hl n Hn'). rewrite Hn' in Hs.
    destruct o; simpl.
    - unfold try_acquire. rewrite Hs. simpl. case_goal; simpl; to_prop; lia.
    - unfold release. case_goal; simpl; to_prop; lia. }
  apply Hinv; simpl; try done. intros n Hs. specialize (Hn n Hs). lia.
Qed.

Lemma counter_books_witness :
  let c := foldl (fun c o => run_counter o c) (mkCounter (Static 1) true 0 0 0 0)
             [CAcquire 0; CAcquire 0; CRelease; CRelease] in
  active_count c = total_acquired c - total_released c /\ active_count c <= 1.
Proof.
  destruct (counter_books (Static 1) true (mkCounter (Static 1) true 0 0 0 0)
              [CAcquire 0; CAcquire 0; CRelease; CRelease] eq_refl) as (H1 & _ & H2).
  split; [exact H1 | by apply H2].
Defined.
