(* ===== verification/FifoWaitQueue.v ===== *)
(** * FIFO wait queue

    [libs/universal_concurrency/fifo_wait_queue.py] and the batch drain of
    [queue_utils.py].  Futures live in a heap, as a caller may time out or be
    cancelled while its waiter is still queued. *)
From stdpp Require Import base gmap list strings.
From Stdlib Require Import ZArith QArith Lia.
From S2P Require Import Prelude PyFloat.
Local Open Scope Z_scope.

(** [asyncio.Future[None]] *)
Inductive Fut := Pending | Resolved | Excepted | Cancelled.

#[export] Instance Fut_eq_dec : EqDecision Fut.
Proof. solve_decision. Defined.

Definition done_ (f : Fut) : bool := match f with Pending => false | _ => true end.

Record Waiter := mkWaiter { w_id : string; w_fut : nat; enqueue_time : Q }.

Record FifoWaitQueue := mkQueue {
  waiters : list Waiter;
  futs : gmap nat Fut;
  next_fut : nat;
  woken_total : Z;
  cancelled_total : Z
}.

Definition new_queue : FifoWaitQueue := mkQueue [] ∅ 0 0 0.

Definition state_of (fs : gmap nat Fut) (f : nat) : Fut := get_or Cancelled (fs !! f).

Definition enqueue (now : Q) (rid : string) (q : FifoWaitQueue) : nat * FifoWaitQueue :=
  let f := next_fut q in
  (f, mkQueue (waiters q ++ [mkWaiter rid f now]) (<[f := Pending]> (futs q)) (S f)
        (woken_total q) (cancelled_total q)).

(** Oldest waiter whose future is pending, and the waiters after it. *)
Fixpoint pop_pending (fs : gmap nat Fut) (ws : list Waiter) : option (Waiter * list Waiter) :=
  match ws with
  | [] => None
  | w :: ws' => if done_ (state_of fs (w_fut w)) then pop_pending fs ws' else Some (w, ws')
  end.

Definition wake_next (q : FifoWaitQueue) : option string * FifoWaitQueue :=
  match pop_pending (futs q) (waiters q) with
  | Some (w, ws) =>
      (Some (w_id w), mkQueue ws (<[w_fut w := Resolved]> (futs q)) (next_fut q)
                        (woken_total q + 1) (cancelled_total q))
  | None => (None, mkQueue [] (futs q) (next_fut q) (woken_total q) (cancelled_total q))
  end.

Fixpoint take_waiter (rid : string) (ws : list Waiter) : option (Waiter * list Waiter) :=
  match ws with
  | [] => None
  | w :: ws' => if bool_decide (w_id w = rid) then Some (w, ws')
                else match take_waiter rid ws' with
                     | Some (x, r) => Some (x, w :: r)
                     | None => None
                     end
  end.

Definition cancel (rid : string) (q : FifoWaitQueue) : bool * FifoWaitQueue :=
  match take_waiter rid (waiters q) with
  | Some (w, ws) =>
      let fs := if done_ (state_of (futs q) (w_fut w)) then futs q
                else <[w_fut w := Excepted]> (futs q) in
      (true, mkQueue ws fs (next_fut q) (woken_total q) (cancelled_total q + 1))
  | None => (false, q)
  end.

Definition peek_oldest_wait_time (now : Q) (q : FifoWaitQueue) : option Q :=
  match pop_pending (futs q) (waiters q) with
  | Some (w, _) => Some (fsub now (enqueue_time w))
  | None => None
  end.

Definition queue_length (q : FifoWaitQueue) : nat := length (waiters q).
Definition active_waiter_count (q : FifoWaitQueue) : nat :=
  length (List.filter (fun w => negb (done_ (state_of (futs q) (w_fut w)))) (waiters q)).

Record WaitQueueStats := mkWQStats { queued : nat; woken : Z; cancelled : Z }.
Definition stats (q : FifoWaitQueue) : WaitQueueStats :=
  mkWQStats (length (waiters q)) (woken_total q) (cancelled_total q).

(** [drain_queue_batch] on the items an [asyncio.Queue] holds:
    (batch, items left). *)
Fixpoint drain_queue_batch {A} (items : list A) (max_size : nat) : list A * list A :=
  match max_size, items with
  | O, _ => ([], items)
  | S n, x :: xs => let (b, r) := drain_queue_batch xs n in (x :: b, r)
  | S _, [] => ([], [])
  end.

(** ** Facts *)

Lemma pop_pending_spec fs ws :
  match pop_pending fs ws with
  | Some (w, rest) => exists pre, ws = pre ++ w :: rest /\ state_of fs (w_fut w) = Pending /\
      forall x, x ∈ pre -> done_ (state_of fs (w_fut x)) = true
  | None => forall x, x ∈ ws -> done_ (state_of fs (w_fut x)) = true
  end.
Proof.
  induction ws as [|w ws IH]; simpl; [set_solver|].
  destruct (done_ (state_of fs (w_fut w))) eqn:E.
  - destruct (pop_pending fs ws) as [[x r]|].
    + destruct IH as (pre & -> & Hp & Hd). exists (w :: pre). split; [done|]. split; [done|].
      intros y [->|Hy]%elem_of_cons; auto.
    + intros y [->|Hy]%elem_of_cons; auto.
  - exists []. split; [done|]. split; [by destruct (state_of fs (w_fut w))|]. intros x Hx. inversion Hx.
Qed.

Lemma drain_spec {A} (items : list A) n :
  drain_queue_batch items n = (take n items, drop n items).
Proof.
  revert n. induction items as [|x xs IH]; intros [|n]; simpl; try done. by rewrite IH.
Qed.
