(* ===== verification/FifoCapacityGate.v ===== *)
(** * FIFO capacity gate

    [libs/universal_concurrency/fifo_capacity_gate.py]: bounded concurrency
    with FIFO hand-over.  The sections under [asyncio.Lock] contain no
    suspension, so the lock is always free when asked for and every definition
    below is one uninterrupted stretch of code.  A dynamic limit is a callable:
    the value it returns at a call is the argument [dyn]. *)
From stdpp Require Import base gmap sets list strings.
From Stdlib Require Import ZArith QArith Lia.
From S2P Require Import Prelude PyFloat CapacityCounter FifoWaitQueue.
Local Open Scope Z_scope.

Record FifoCapacityGate := mkGate {
  limit_source : LimitSource;
  active_count : Z;
  holders : gset string;
  gate_waiters : list Waiter;
  gate_futs : gmap nat Fut;
  gate_next : nat;
  total_acquired : Z;
  total_released : Z;
  total_timeouts : Z;
  total_cancellations : Z
}.

Definition new_gate (src : LimitSource) : exn FifoCapacityGate :=
  let? src := valid_source src in Ok (mkGate src 0 ∅ [] ∅ 0 0 0 0 0).

(** One slot more, held by [rid]. *)
Definition grant (rid : string) (g : FifoCapacityGate) : FifoCapacityGate :=
  mkGate (limit_source g) (active_count g + 1) ({[rid]} ∪ holders g) (gate_waiters g) (gate_futs g)
    (gate_next g) (total_acquired g + 1) (total_released g) (total_timeouts g)
    (total_cancellations g).

Definition try_acquire (dyn : Z) (rid : string) (g : FifoCapacityGate) : bool * FifoCapacityGate :=
  if bool_decide (rid ∈ holders g) then (true, g)
  else match current_limit dyn (limit_source g) with
       | Raise _ => (false, g)
       | Ok limit => if active_count g <? limit then (true, grant rid g) else (false, g)
       end.

Inductive GateAcquire :=
  | Acquired
  | WaitingOn (f : nat)
  | AcquireRaised (e : error).

(** [acquire] up to its first suspension. *)
Definition acquire_start (now : Q) (dyn : Z) (rid : string) (g : FifoCapacityGate)
    : GateAcquire * FifoCapacityGate :=
  let (ok, g) := try_acquire dyn rid g in
  if ok then (Acquired, g)
  else match current_limit dyn (limit_source g) with
       | Raise e => (AcquireRaised e, g)
       | Ok limit =>
           if active_count g <? limit then (Acquired, grant rid g)
           else let f := gate_next g in
                (WaitingOn f,
                 mkGate (limit_source g) (active_count g) (holders g)
                   (gate_waiters g ++ [mkWaiter rid f now]) (<[f := Pending]> (gate_futs g)) (S f)
                   (total_acquired g) (total_released g) (total_timeouts g)
                   (total_cancellations g))
       end.

(** [_remove_waiter]: by identity, here by future. *)
Definition remove_waiter (f : nat) (g : FifoCapacityGate) : FifoCapacityGate :=
  mkGate (limit_source g) (active_count g) (holders g)
    (List.filter (fun w => negb (w_fut w =? f)%nat) (gate_waiters g)) (gate_futs g) (gate_next g)
    (total_acquired g) (total_released g) (total_timeouts g) (total_cancellations g).

Definition cancel_future (f : nat) (g : FifoCapacityGate) : FifoCapacityGate :=
  if done_ (state_of (gate_futs g) f) then g
  else mkGate (limit_source g) (active_count g) (holders g) (gate_waiters g)
         (<[f := Cancelled]> (gate_futs g)) (gate_next g) (total_acquired g) (total_released g)
         (total_timeouts g) (total_cancellations g).

Definition count_timeout (g : FifoCapacityGate) : FifoCapacityGate :=
  mkGate (limit_source g) (active_count g) (holders g) (gate_waiters g) (gate_futs g) (gate_next g)
    (total_acquired g) (total_released g) (total_timeouts g + 1) (total_cancellations g).
Definition count_cancellation (g : FifoCapacityGate) : FifoCapacityGate :=
  mkGate (limit_source g) (active_count g) (holders g) (gate_waiters g) (gate_futs g) (gate_next g)
    (total_acquired g) (total_released g) (total_timeouts g) (total_cancellations g + 1).

(** Why a task suspended in [_wait_for_slot] runs again. *)
Inductive GateWake :=
  | WakeFuture          (* the waiter's future is done *)
  | WakeTimeout         (* asyncio.wait timed out with nothing done *)
  | WakeCancelEvent     (* cancellation_event is set, whatever the future's state *)
  | WakeTaskCancelled.  (* task.cancel() at asyncio.wait *)

Definition acquire_resume (why : GateWake) (f : nat) (g : FifoCapacityGate)
    : GateAcquire * FifoCapacityGate :=
  match why with
  | WakeFuture =>
      match state_of (gate_futs g) f with
      | Resolved => (Acquired, g)
      | Pending => (WaitingOn f, g)
      | Excepted | Cancelled =>
          (AcquireRaised (CancelledError ""), count_cancellation (remove_waiter f g))
      end
  | WakeTimeout =>
      (AcquireRaised TimeoutError, count_timeout (remove_waiter f (cancel_future f g)))
  | WakeCancelEvent =>
      (AcquireRaised (CancelledError ""),
       count_cancellation (remove_waiter f (cancel_future f g)))
  | WakeTaskCancelled =>
      (AcquireRaised (CancelledError ""), count_cancellation (remove_waiter f g))
  end.

(** Hand the slot to the oldest pending waiter, or nobody: [None]. *)
Definition hand_over (g : FifoCapacityGate) : option FifoCapacityGate * FifoCapacityGate :=
  match pop_pending (gate_futs g) (gate_waiters g) with
  | Some (w, ws) =>
      (Some (mkGate (limit_source g) (active_count g) ({[w_id w]} ∪ holders g) ws
               (<[w_fut w := Resolved]> (gate_futs g)) (gate_next g) (total_acquired g + 1)
               (total_released g) (total_timeouts g) (total_cancellations g)), g)
  | None =>
      (None, mkGate (limit_source g) (active_count g) (holders g) [] (gate_futs g) (gate_next g)
               (total_acquired g) (total_released g) (total_timeouts g) (total_cancellations g))
  end.

Definition drop_holder (rid : string) (g : FifoCapacityGate) : FifoCapacityGate :=
  mkGate (limit_source g) (active_count g) (holders g ∖ {[rid]}) (gate_waiters g) (gate_futs g)
    (gate_next g) (total_acquired g) (total_released g) (total_timeouts g) (total_cancellations g).
Definition count_release (g : FifoCapacityGate) : FifoCapacityGate :=
  mkGate (limit_source g) (active_count g) (holders g) (gate_waiters g) (gate_futs g) (gate_next g)
    (total_acquired g) (total_released g + 1) (total_timeouts g) (total_cancellations g).
Definition decrement (g : FifoCapacityGate) : FifoCapacityGate :=
  mkGate (limit_source g) (active_count g - 1) (holders g) (gate_waiters g) (gate_futs g)
    (gate_next g) (total_acquired g) (total_released g) (total_timeouts g) (total_cancellations g).

Definition release (rid : option string) (g : FifoCapacityGate) : exn FifoCapacityGate :=
  let unknown := match rid with Some r => negb (bool_decide (r ∈ holders g)) | None => false end in
  if unknown then Ok g
  else if active_count g =? 0 then Raise OverReleaseError
  else
    let g := match rid with Some r => drop_holder r g | None => g end in
    let g := count_release g in
    match hand_over g with
    | (Some g', _) => Ok g'
    | (None, g') => Ok (decrement g')
    end.

Definition transfer_holder (from_id to_id : string) (g : FifoCapacityGate) : exn FifoCapacityGate :=
  if negb (bool_decide (from_id ∈ holders g)) then Raise TransferHolderError
  else if bool_decide (from_id = to_id) then Ok g
  else Ok (mkGate (limit_source g) (active_count g) ({[to_id]} ∪ (holders g ∖ {[from_id]}))
             (gate_waiters g) (gate_futs g) (gate_next g) (total_acquired g) (total_released g)
             (total_timeouts g) (total_cancellations g)).

Definition force_release (rid : string) (g : FifoCapacityGate) : bool * FifoCapacityGate :=
  if negb (bool_decide (rid ∈ holders g)) then (false, g)
  else
    match hand_over (count_release (drop_holder rid g)) with
    | (Some g', _) => (true, g')
    | (None, g') => (true, if 0 <? active_count g' then decrement g' else g')
    end.

Definition set_limit (new_limit : Z) (g : FifoCapacityGate) : exn FifoCapacityGate :=
  match limit_source g with
  | Dynamic => Raise CapacityLimitError
  | Static _ =>
      if new_limit <? 1 then Raise CapacityLimitError
      else Ok (mkGate (Static new_limit) (active_count g) (holders g) (gate_waiters g) (gate_futs g)
                 (gate_next g) (total_acquired g) (total_released g) (total_timeouts g)
                 (total_cancellations g))
  end.

Definition cancel (rid : string) (g : FifoCapacityGate) : bool * FifoCapacityGate :=
  match take_waiter rid (gate_waiters g) with
  | None => (false, g)
  | Some (w, ws) =>
      let fs := if done_ (state_of (gate_futs g) (w_fut w)) then gate_futs g
                else <[w_fut w := Excepted]> (gate_futs g) in
      (true, mkGate (limit_source g) (active_count g) (holders g) ws fs (gate_next g)
               (total_acquired g) (total_released g) (total_timeouts g)
               (total_cancellations g + 1))
  end.

Record GateStats := mkGateStats {
  gs_active : Z; gs_limit : Z; gs_queued : nat; gs_acquired : Z; gs_released : Z;
  gs_timeouts : Z; gs_cancellations : Z }.

Definition stats (dyn : Z) (g : FifoCapacityGate) : GateStats :=
  mkGateStats (active_count g)
    (match current_limit dyn (limit_source g) with Ok l => l | Raise _ => -1 end)
    (length (gate_waiters g)) (total_acquired g) (total_released g) (total_timeouts g)
    (total_cancellations g).

(** ** Runs of a gate *)

(** The operations that name their request.  [release()] without an id, as the
    in-process backend calls it, is [release None]; it is not among them, since
    it leaves the holder on record ([anonymous_release_keeps_holder]), and
    neither is [set_limit]: the limit of a run is fixed. *)
Inductive GateOp :=
  | GAcquire (now : Q) (rid : string)
  | GWake (why : GateWake) (f : nat)
  | GRelease (rid : string)
  | GForce (rid : string)
  | GTransfer (from_id to_id : string)
  | GCancel (rid : string).

(** Operations that raise leave the gate as it is. *)
Definition run_gate (o : GateOp) (g : FifoCapacityGate) : FifoCapacityGate :=
  match o with
  | GAcquire now rid => snd (acquire_start now 0 rid g)
  | GWake why f => snd (acquire_resume why f g)
  | GRelease rid => match release (Some rid) g with Ok g' => g' | Raise _ => g end
  | GForce rid => snd (force_release rid g)
  | GTransfer a b => match transfer_holder a b g with Ok g' => g' | Raise _ => g end
  | GCancel rid => snd (cancel rid g)
  end.

Definition is_pending (g : FifoCapacityGate) (w : Waiter) : bool :=
  negb (done_ (state_of (gate_futs g) (w_fut w))).
Definition pending_ids (g : FifoCapacityGate) : list string :=
  map w_id (List.filter (is_pending g) (gate_waiters g)).

(** Request ids of concurrent requests differ. *)
Definition gate_enabled (o : GateOp) (g : FifoCapacityGate) : bool :=
  match o with
  | GAcquire _ rid => negb (bool_decide (rid ∈ pending_ids g))
  | GTransfer _ b => negb (bool_decide (b ∈ pending_ids g)) && negb (bool_decide (b ∈ holders g))
  | _ => true
  end.

Inductive gate_reachable (n : Z) : FifoCapacityGate -> Prop :=
  | GR_init g : new_gate (Static n) = Ok g -> gate_reachable n g
  | GR_step g o : gate_reachable n g -> gate_enabled o g = true -> gate_reachable n (run_gate o g).

(** ** Invariant *)

Record gate_inv (n : Z) (g : FifoCapacityGate) : Prop := {
  gi_limit : limit_source g = Static n;
  gi_count : active_count g = Z.of_nat (size (holders g));
  gi_bound : active_count g <= n;
  gi_apart : forall x, x ∈ pending_ids g -> x ∉ holders g;
  gi_ids : NoDup (pending_ids g);
  gi_futs : NoDup (map w_fut (gate_waiters g));
  gi_fresh : forall w, w ∈ gate_waiters g -> (w_fut w < gate_next g)%nat;
  gi_full : pending_ids g <> [] -> active_count g = n
}.

(** Only pending waiters matter, and losing some keeps the invariant. *)
Lemma gate_inv_shrink n g g' :
  gate_inv n g -> limit_source g' = limit_source g -> active_count g' = active_count g ->
  holders g' = holders g -> gate_next g' = gate_next g ->
  gate_waiters g' `sublist_of` gate_waiters g ->
  pending_ids g' `sublist_of` pending_ids g -> gate_inv n g'.
Proof.
  intros [H1 H2 H3 H4 H5 H6 H7 H8] E1 E2 E3 E4 Hw Hp.
  assert (Hin : forall x, x ∈ pending_ids g' -> x ∈ pending_ids g).
  { intros x Hx. eapply elem_of_submseteq; [exact Hx | by apply sublist_submseteq]. }
  split; rewrite ?E1, ?E2, ?E3, ?E4; try done.
  - intros x Hx. auto.
  - by eapply sublist_NoDup.
  - eapply sublist_NoDup; [exact H6 | by apply sublist_map].
  - intros w Hx. apply H7. eapply elem_of_submseteq; [exact Hx | by apply sublist_submseteq].
  - intros Hne. apply H8. intros E. rewrite E in Hp. by apply sublist_nil_r in Hp.
Qed.

(** Resolving futures to anything and dropping waiters loses pending ones. *)
Lemma pending_shrink g g' :
  gate_waiters g' `sublist_of` gate_waiters g ->
  (forall f, state_of (gate_futs g') f = Pending -> state_of (gate_futs g) f = Pending) ->
  pending_ids g' `sublist_of` pending_ids g.
Proof.
  intros Hw Hf. unfold pending_ids. apply sublist_map. apply lfilter_sublist_mono; [done|].
  unfold is_pending. intros x _. specialize (Hf (w_fut x)).
  destruct (state_of (gate_futs g') (w_fut x)); try done. by rewrite Hf.
Qed.

Lemma state_insert fs f v f' :
  state_of (<[f := v]> fs) f' = if decide (f' = f) then v else state_of fs f'.
Proof.
  unfold state_of. destruct (decide (f' = f)) as [->|Hne].
  - by rewrite lookup_insert_eq.
  - by rewrite lookup_insert_ne.
Qed.

Lemma state_insert_done fs f v f' : v <> Pending ->
  state_of (<[f := v]> fs) f' = Pending -> state_of fs f' = Pending.
Proof. intros Hv. rewrite state_insert. by destruct (decide (f' = f)). Qed.

Lemma grant_inv n rid g :
  gate_inv n g -> rid ∉ holders g -> rid ∉ pending_ids g -> active_count g < n -> gate_inv n (grant rid g).
Proof.
  intros [H1 H2 H3 H4 H5 H6 H7 H8] Hr Hp Hlt. split; simpl; try done.
  - rewrite size_union, size_singleton by set_solver. lia.
  - lia.
  - intros x Hx. specialize (H4 x Hx). intros [Hy%elem_of_singleton|]%elem_of_union; subst; done.
  - intros Hne. specialize (H8 Hne). lia.
Qed.

Lemma try_acquire_inv n dyn rid g b g' :
  gate_inv n g -> rid ∉ pending_ids g -> try_acquire dyn rid g = (b, g') ->
  gate_inv n g' /\ (b = false -> g' = g /\ rid ∉ holders g /\ n <= active_count g).
Proof.
  intros H Hr. unfold try_acquire. rewrite (gi_limit _ _ H). simpl.
  destruct (bool_decide (rid ∈ holders g)) eqn:E1; to_prop; [by intros [= <- <-]|].
  destruct (active_count g <? n) eqn:E2; to_prop; intros [= <- <-]; [|done].
  split; [|done]. by apply grant_inv.
Qed.

Lemma acquire_start_inv n now rid g :
  gate_inv n g -> rid ∉ pending_ids g -> gate_inv n (snd (acquire_start now 0 rid g)).
Proof.
  intros H Hr. unfold acquire_start.
  destruct (try_acquire 0 rid g) as [b g'] eqn:E. apply (try_acquire_inv n) in E as [H' Hf]; [|done..].
  destruct b; [done|]. destruct (Hf eq_refl) as (-> & Hh & Hn). rewrite (gi_limit _ _ H). simpl.
  rewrite (proj2 (Z.ltb_ge _ _) Hn). simpl.
  set (g1 := mkGate _ _ _ _ _ _ _ _ _ _).
  destruct H as [H1 H2 H3 H4 H5 H6 H7 H8].
  assert (Hp : pending_ids g1 = pending_ids g ++ [rid]).
  { unfold pending_ids, g1. simpl. rewrite List.filter_app, map_app. simpl.
    unfold is_pending at 2. simpl. rewrite state_insert, decide_True by done. simpl. f_equal. f_equal.
    apply lfilter_ext_in. intros w Hw. unfold is_pending. simpl. rewrite state_insert.
    rewrite decide_False; [done|]. specialize (H7 w Hw). lia. }
  split; simpl; rewrite ?Hp; try done.
  - intros x [Hx|Hx%list_elem_of_singleton]%elem_of_app; subst; auto.
  - apply NoDup_app. split; [done|]. split; [|apply NoDup_singleton].
    intros x Hx Hy%list_elem_of_singleton. by subst.
  - rewrite map_app. apply NoDup_app. split; [done|]. split; [|apply NoDup_singleton].
    intros x (w & -> & Hw)%list_elem_of_fmap Hx%list_elem_of_singleton. simpl in Hx.
    specialize (H7 w Hw). lia.
  - intros w [Hw|Hw%list_elem_of_singleton]%elem_of_app; subst; simpl; [specialize (H7 w Hw)|]; lia.
  - intros _. lia.
Qed.

Lemma cancel_future_states f g f' :
  state_of (gate_futs (cancel_future f g)) f' = Pending -> state_of (gate_futs g) f' = Pending.
Proof.
  unfold cancel_future. destruct (done_ _); [done|]. simpl. by apply state_insert_done.
Qed.

Lemma acquire_resume_inv n why f g : gate_inv n g -> gate_inv n (snd (acquire_resume why f g)).
Proof.
  intros H.
  assert (Hrm : gate_inv n (remove_waiter f g)).
  { eapply gate_inv_shrink; try done; simpl; [apply lfilter_sublist|].
    apply pending_shrink; simpl; [apply lfilter_sublist | done]. }
  assert (Hrc : gate_inv n (remove_waiter f (cancel_future f g))).
  { assert (E : forall A (p : FifoCapacityGate -> A),
      (forall a b c d e e' i j k l m, p (mkGate a b c d e i j k l m) = p (mkGate a b c d e' i j k l m)) ->
      p (cancel_future f g) = p g).
    { intros A p Hp. unfold cancel_future. destruct (done_ _); [done|]. destruct g. apply Hp. }
    eapply gate_inv_shrink; [exact H | simpl; by apply E .. | | ]; simpl.
    - rewrite (E _ gate_waiters) by done. apply lfilter_sublist.
    - apply pending_shrink; simpl; [rewrite (E _ gate_waiters) by done; apply lfilter_sublist|].
      apply cancel_future_states. }
  assert (Hc : forall g, gate_inv n g -> gate_inv n (count_timeout g) /\ gate_inv n (count_cancellation g)).
  { intros g0 [? ? ? ? ? ? ? ?]. split; by split. }
  destruct why; simpl; try (by apply Hc).
  destruct (state_of _ _); simpl; try done; by apply Hc.
Qed.

(** Handing the slot of [rid] over: to the oldest pending waiter, or freed. *)
Lemma hand_over_inv n rid g :
  gate_inv n g -> rid ∈ holders g ->
  match hand_over (count_release (drop_holder rid g)) with
  | (Some g', _) => gate_inv n g'
  | (None, g') => gate_inv n (decrement g') /\ 0 < active_count g'
  end.
Proof.
  intros H Hr. pose proof H as [H1 H2 H3 H4 H5 H6 H7 H8].
  assert (Hsz : Z.of_nat (size (holders g ∖ {[rid]})) = active_count g - 1 /\ 0 < active_count g).
  { rewrite size_difference, size_singleton by set_solver.
    assert (size (holders g) <> 0%nat) by (apply size_non_empty_iff; set_solver). lia. }
  unfold hand_over. simpl. pose proof (pop_pending_spec (gate_futs g) (gate_waiters g)) as Hp.
  destruct (pop_pending (gate_futs g) (gate_waiters g)) as [[w ws]|].
  - destruct Hp as (pre & Hw & Hs & Hd).
    assert (Hpend : pending_ids g = w_id w :: map w_id (List.filter (is_pending g) ws)).
    { unfold pending_ids. rewrite Hw, List.filter_app. simpl. unfold is_pending at 2. rewrite Hs. simpl.
      rewrite (proj2 (lfilter_nil_iff _ pre)); [done|]. intros x Hx. unfold is_pending. by rewrite Hd. }
    set (g1 := mkGate _ _ _ _ _ _ _ _ _ _).
    assert (Hsub : gate_waiters g1 `sublist_of` gate_waiters g)
      by (simpl; rewrite Hw; apply sublist_inserts_l, sublist_cons; reflexivity).
    assert (Hp1 : pending_ids g1 `sublist_of` map w_id (List.filter (is_pending g) ws)).
    { unfold pending_ids. apply sublist_map. apply lfilter_sublist_mono; [reflexivity|].
      unfold is_pending. intros x _. simpl. rewrite state_insert.
      destruct (decide _); [done|]. done. }
    rewrite Hpend in H5. apply NoDup_cons in H5 as [Hnw Hnd].
    assert (Hin : forall x, x ∈ pending_ids g1 -> x ∈ map w_id (List.filter (is_pending g) ws)).
    { intros x Hx. eapply elem_of_submseteq; [exact Hx | by apply sublist_submseteq]. }
    assert (Hwid : w_id w ∉ holders g) by (apply H4; rewrite Hpend; left).
    split; simpl; try done.
    + rewrite size_union, size_singleton by set_solver. lia.
    + intros x Hx. specialize (Hin x Hx).
      assert (x ∉ holders g) by (apply H4; rewrite Hpend; by right).
      intros [Hy%elem_of_singleton|[? _]%elem_of_difference]%elem_of_union; subst; done.
    + by eapply sublist_NoDup.
    + eapply sublist_NoDup; [exact H6 | by apply sublist_map].
    + intros x Hx. apply H7. eapply elem_of_submseteq; [exact Hx | by apply sublist_submseteq].
    + intros _. apply H8. rewrite Hpend. done.
  - split; [|simpl; tauto].
    split; simpl; try done; try lia; try (by intros; constructor); try (by constructor).
    + intros x Hx. inversion Hx.
    + intros w Hw. inversion Hw.
Qed.

Lemma run_gate_inv n o g : gate_inv n g -> gate_enabled o g = true -> gate_inv n (run_gate o g).
Proof.
  intros H He. destruct o; simpl in *; to_prop.
  - by apply acquire_start_inv.
  - by apply acquire_resume_inv.
  - unfold release. destruct (bool_decide (rid ∈ holders g)) eqn:Er; simpl; [|done]. to_prop.
    pose proof (hand_over_inv n rid g H Er) as Hh.
    destruct (active_count g =? 0); [done|].
    destruct (hand_over _) as [[g'|] g'']; [done | tauto].
  - unfold force_release. destruct (bool_decide (rid ∈ holders g)) eqn:Er; simpl; [|done]. to_prop.
    pose proof (hand_over_inv n rid g H Er) as Hh.
    destruct (hand_over _) as [[g'|] g'']; simpl; [done|]. destruct Hh as [Hh Hpos].
    by rewrite (proj2 (Z.ltb_lt _ _) Hpos).
  - unfold transfer_holder. destruct (bool_decide (from_id ∈ holders g)) eqn:Ef; simpl; [|done].
    destruct (bool_decide (from_id = to_id)); [done|]. to_prop.
    destruct H as [G1 G2 G3 G4 G5 G6 G7 G8]. split; simpl; try done.
    + rewrite size_union, size_singleton, size_difference, size_singleton by set_solver.
      assert (size (holders g) <> 0%nat) by (apply size_non_empty_iff; set_solver). lia.
    + intros x Hx. specialize (G4 x Hx). intros [Hy%elem_of_singleton|[? _]%elem_of_difference]%elem_of_union; subst; done.
  - unfold cancel. destruct (take_waiter rid (gate_waiters g)) as [[w ws]|] eqn:Et; simpl; [|done].
    assert (Hs : ws `sublist_of` gate_waiters g).
    { clear -Et. revert ws Et. induction (gate_waiters g) as [|y l IH]; simpl; intros ws; [done|].
      destruct (bool_decide _); [intros [= <- <-]; by apply sublist_cons|].
      destruct (take_waiter rid l) as [[x r]|]; [|done]. intros [= <- <-].
      apply sublist_skip. by apply IH. }
    eapply gate_inv_shrink; try done. apply pending_shrink; simpl; [done|].
    intros f. destruct (done_ _); [done|]. by apply state_insert_done.
Qed.

Lemma gate_reachable_inv n g : gate_reachable n g -> gate_inv n g.
Proof.
  induction 1 as [g Hg|]; [|by apply run_gate_inv].
  unfold new_gate in Hg. inv_bind Hg. injection Hg as <-. simpl in Ha.
  destruct (n <? 1) eqn:En; [done|]. injection Ha as <-. to_prop.
  split; simpl; try done; try lia; try (by constructor); intros x Hx; inversion Hx.
Qed.

(** The oldest pending waiter is the one popped. *)
Lemma pop_pending_first g :
  match pop_pending (gate_futs g) (gate_waiters g) with
  | Some (w, ws) => List.filter (is_pending g) (gate_waiters g) = w :: List.filter (is_pending g) ws
  | None => List.filter (is_pending g) (gate_waiters g) = []
  end.
Proof.
  pose proof (pop_pending_spec (gate_futs g) (gate_waiters g)) as Hp.
  destruct (pop_pending (gate_futs g) (gate_waiters g)) as [[w ws]|].
  - destruct Hp as (pre & -> & Hs & Hd). rewrite List.filter_app. simpl.
    unfold is_pending at 2. rewrite Hs. simpl.
    rewrite (proj2 (lfilter_nil_iff _ pre)); [done|]. intros x Hx. unfold is_pending. by rewrite Hd.
  - apply lfilter_nil_iff. intros x Hx. unfold is_pending. by rewrite Hp.
Qed.

(** ** Theorems *)

(** In every reachable state of a gate with limit [n], whatever the order of
    acquisitions, wake-ups, time-outs, cancellations, releases and transfers,
    the active count is the number of holders and at most [n], and a waiter is
    left pending only while every slot is taken. *)
Theorem gate_safe n g :
  gate_reachable n g ->
  active_count g = Z.of_nat (size (holders g)) /\ active_count g <= n /\
  (pending_ids g <> [] -> active_count g = n).
Proof. intros H%gate_reachable_inv. destruct H. done. Qed.

Definition gate1 : FifoCapacityGate := mkGate (Static 1) 0 ∅ [] ∅ 0 0 0 0 0.
Definition run_gates (os : list GateOp) (g : FifoCapacityGate) : FifoCapacityGate :=
  foldl (fun g o => run_gate o g) g os.
Fixpoint gates_enabled (os : list GateOp) (g : FifoCapacityGate) : bool :=
  match os with
  | [] => true
  | o :: os => gate_enabled o g && gates_enabled os (run_gate o g)
  end.

Lemma run_gates_reachable n os g :
  gate_reachable n g -> gates_enabled os g = true -> gate_reachable n (run_gates os g).
Proof.
  revert g. induction os as [|o os IH]; simpl; intros g Hg He; [done|]. to_prop.
  apply IH; [by apply GR_step | done].
Qed.

Definition two_waiting : list GateOp :=
  [GAcquire 0 "a"; GAcquire 1 "b"; GAcquire 2 "c"].

Lemma gate_safe_witness :
  let g := run_gates two_waiting gate1 in
  pending_ids g = ["b"; "c"]%string /\ active_count g = 1.
Proof.
  assert (Hp : pending_ids (run_gates two_waiting gate1) = ["b"; "c"]%string)
    by (vm_compute; reflexivity).
  split; [exact Hp|].
  refine (proj2 (proj2 (gate_safe 1 _ (run_gates_reachable 1 two_waiting gate1 _ _))) _).
  - apply GR_init. reflexivity.
  - vm_compute. reflexivity.
  - rewrite Hp. discriminate.
Defined.

(** *** Refinement: the gate is a lock with [n] slots and one line *)

Record SlotLock := mkLock { held : gset string; line : list string }.

Inductive LockOp :=
  | LEnter (rid : string)
  | LExit (rid : string)
  | LTransfer (from_id to_id : string)
  | LLeave (rid : string)
  | LSkip.

(** The specification: whoever finds a slot free takes it, the others stand in
    line, a slot that is given back goes to the head of the line, and people
    may leave the line. *)
Definition lock_step (n : Z) (o : LockOp) (l : SlotLock) : SlotLock :=
  match o with
  | LEnter rid =>
      if bool_decide (rid ∈ held l) then l
      else if Z.of_nat (size (held l)) <? n then mkLock ({[rid]} ∪ held l) (line l)
      else mkLock (held l) (line l ++ [rid])
  | LExit rid =>
      if bool_decide (rid ∈ held l) then
        match line l with
        | x :: q => mkLock ({[x]} ∪ held l ∖ {[rid]}) q
        | [] => mkLock (held l ∖ {[rid]}) []
        end
      else l
  | LTransfer a b =>
      if bool_decide (a ∈ held l) && negb (bool_decide (a = b))
      then mkLock ({[b]} ∪ held l ∖ {[a]}) (line l) else l
  | LLeave rid => mkLock (held l) (List.filter (fun x => negb (bool_decide (x = rid))) (line l))
  | LSkip => l
  end.

Definition lock_of (g : FifoCapacityGate) : SlotLock := mkLock (holders g) (map w_id (gate_waiters g)).

Definition waiter_of (f : nat) (g : FifoCapacityGate) : option Waiter :=
  List.find (fun w => (w_fut w =? f)%nat) (gate_waiters g).

(** What each operation of the gate is for the lock. *)
Definition lock_op (o : GateOp) (g : FifoCapacityGate) : LockOp :=
  match o with
  | GAcquire _ rid => LEnter rid
  | GRelease rid | GForce rid => LExit rid
  | GTransfer a b => LTransfer a b
  | GCancel rid => LLeave rid
  | GWake WakeFuture _ => LSkip
  | GWake _ f => match waiter_of f g with Some w => LLeave (w_id w) | None => LSkip end
  end.

Lemma active_nonzero n rid g : gate_inv n g -> rid ∈ holders g -> active_count g <> 0.
Proof.
  intros H Hr. rewrite (gi_count _ _ H).
  assert (size (holders g) <> 0%nat) by (apply size_non_empty_iff; set_solver). lia.
Qed.

(** Waiters in the queue are pending: whoever resolves or cancels one takes it
    out in the same stretch. *)
Definition all_pending (g : FifoCapacityGate) : Prop :=
  forall w, w ∈ gate_waiters g -> state_of (gate_futs g) (w_fut w) = Pending.

Lemma pending_ids_all g : all_pending g -> pending_ids g = map w_id (gate_waiters g).
Proof.
  intros H. unfold pending_ids. f_equal. unfold is_pending.
  rewrite (lfilter_ext_in _ (fun _ => true)); [by apply lfilter_true|].
  intros w Hw. by rewrite H.
Qed.

Lemma pop_all g : all_pending g ->
  pop_pending (gate_futs g) (gate_waiters g) =
    match gate_waiters g with [] => None | w :: ws => Some (w, ws) end.
Proof.
  intros H. destruct (gate_waiters g) as [|w ws] eqn:E; [done|]. simpl.
  by rewrite (H w ltac:(rewrite E; left)).
Qed.

Lemma take_waiter_spec rid ws : NoDup (map w_id ws) ->
  match take_waiter rid ws with
  | Some (w, ws') => w_id w = rid /\ w ∈ ws /\ ws' `sublist_of` ws /\ w ∉ ws' /\
      map w_id ws' = List.filter (fun x => negb (bool_decide (x = rid))) (map w_id ws)
  | None => List.filter (fun x => negb (bool_decide (x = rid))) (map w_id ws) = map w_id ws
  end.
Proof.
  induction ws as [|w ws IH]; simpl; intros Hn; [done|]. apply NoDup_cons in Hn as [Hw Hn].
  destruct (bool_decide (w_id w = rid)) eqn:E; simpl.
  - apply bool_decide_eq_true in E as <-. split; [done|]. split; [left|].
    split; [by apply sublist_cons|]. split; [intros Hin; apply Hw; by apply list_elem_of_fmap_2|].
    symmetry. rewrite (lfilter_ext_in _ (fun _ => true)); [by apply lfilter_true|].
    intros x Hx. rewrite bool_decide_false; [done|]. by intros ->.
  - specialize (IH Hn). destruct (take_waiter rid ws) as [[x r]|]; [|by rewrite IH].
    destruct IH as (H1 & H2 & H3 & H4 & H5). split; [done|]. split; [by right|].
    split; [by apply sublist_skip|]. split; [|simpl; by rewrite H5].
    intros [->|Hin]%elem_of_cons; [|done]. by rewrite H1, bool_decide_true in E.
Qed.

(** Leaving by future is leaving by id. *)
Lemma filter_fut_id f ws : NoDup (map w_id ws) -> NoDup (map w_fut ws) ->
  map w_id (List.filter (fun w => negb (w_fut w =? f)%nat) ws) =
    match List.find (fun w => (w_fut w =? f)%nat) ws with
    | Some w => List.filter (fun x => negb (bool_decide (x = w_id w))) (map w_id ws)
    | None => map w_id ws
    end.
Proof.
  induction ws as [|w ws IH]; simpl; intros Hn Hf; [done|].
  apply NoDup_cons in Hn as [Hw Hn], Hf as [Hfw Hf]. specialize (IH Hn Hf).
  destruct (w_fut w =? f)%nat eqn:E; simpl.
  - apply Nat.eqb_eq in E as <-. rewrite bool_decide_true by done. simpl.
    rewrite (lfilter_ext_in _ (fun _ => true)), lfilter_true.
    + rewrite (lfilter_ext_in _ (fun _ => true)), lfilter_true; [done|].
      intros x Hx. rewrite bool_decide_false; [done|]. by intros ->.
    + intros x Hx. apply negb_true_iff, Nat.eqb_neq. intros E. apply Hfw. rewrite <- E.
      by apply list_elem_of_fmap_2.
  - rewrite IH. destruct (List.find _ ws) as [x|] eqn:Ex; [|done].
    apply List.find_some in Ex as [Hx _]. rewrite bool_decide_false; [done|]. intros Heq. apply Hw.
    rewrite Heq. apply list_elem_of_fmap_2. by apply list_elem_of_In.
Qed.

Lemma sublist_pending g g' :
  all_pending g -> NoDup (map w_fut (gate_waiters g)) -> gate_waiters g' `sublist_of` gate_waiters g ->
  (forall w, w ∈ gate_waiters g' -> state_of (gate_futs g') (w_fut w) = state_of (gate_futs g) (w_fut w)) ->
  all_pending g'.
Proof.
  intros H Hn Hs Hst w Hw. rewrite Hst by done. apply H.
  eapply elem_of_submseteq; [exact Hw | by apply sublist_submseteq].
Qed.

Lemma hand_over_pending g g0 :
  all_pending g -> NoDup (map w_fut (gate_waiters g)) ->
  gate_waiters g0 = gate_waiters g -> gate_futs g0 = gate_futs g ->
  all_pending (match hand_over g0 with (Some g', _) => g' | (None, g') => g' end).
Proof.
  intros Hp Hn E1 E2. unfold hand_over. rewrite E1, E2, (pop_all g Hp).
  destruct (gate_waiters g) as [|w ws] eqn:Ew; simpl; [intros x Hx; inversion Hx|].
  intros x Hx. simpl in *. rewrite state_insert. apply NoDup_cons in Hn as [Hw _].
  rewrite decide_False; [apply Hp; rewrite Ew; by right|]. intros E. apply Hw. rewrite <- E.
  by apply list_elem_of_fmap_2.
Qed.

Lemma remove_waiter_pending f g : all_pending g ->
  all_pending (remove_waiter f g) /\ all_pending (remove_waiter f (cancel_future f g)).
Proof.
  intros Hp.
  assert (Hrm : forall fs, (forall f', f' <> f -> state_of fs f' = state_of (gate_futs g) f') ->
            forall w, w ∈ List.filter (fun w => negb (w_fut w =? f)%nat) (gate_waiters g) ->
            state_of fs (w_fut w) = Pending).
  { intros fs Hfs w [Hw Hne]%elem_of_lfilter. apply negb_true_iff, Nat.eqb_neq in Hne.
    rewrite Hfs by done. by apply Hp. }
  split; [exact (Hrm (gate_futs g) (fun _ _ => eq_refl))|]. unfold cancel_future.
  destruct (done_ _); [exact (Hrm (gate_futs g) (fun _ _ => eq_refl))|].
  refine (Hrm (<[f := Cancelled]> (gate_futs g)) _). intros f' Hf'. by rewrite state_insert, decide_False.
Qed.

Lemma run_gate_pending n o g :
  gate_inv n g -> all_pending g -> gate_enabled o g = true -> all_pending (run_gate o g).
Proof.
  intros H Hp He. pose proof (gi_futs _ _ H) as Hn.
  destruct o as [now rid|why f|rid|rid|a b|rid]; cbn [run_gate].
  - unfold acquire_start, try_acquire. rewrite (gi_limit _ _ H). simpl.
    repeat case_goal; simpl; try done.
    intros w [Hw|Hw%list_elem_of_singleton]%elem_of_app; simpl in *; rewrite state_insert.
    + pose proof (gi_fresh _ _ H w Hw). rewrite decide_False by lia. by apply Hp.
    + subst. by rewrite decide_True.
  - destruct (remove_waiter_pending f g Hp). destruct why; simpl; try done. by destruct (state_of _ _).
  - unfold release. destruct (negb _); [done|]. destruct (_ =? _); [done|].
    pose proof (hand_over_pending g (count_release (drop_holder rid g)) Hp Hn eq_refl eq_refl) as Hq.
    by destruct (hand_over _) as [[g'|] g''].
  - unfold force_release. destruct (negb _); [done|].
    pose proof (hand_over_pending g (count_release (drop_holder rid g)) Hp Hn eq_refl eq_refl) as Hq.
    destruct (hand_over _) as [[g'|] g'']; simpl in *; [done|]. by destruct (0 <? _).
  - unfold transfer_holder. by repeat case_goal.
  - unfold cancel. destruct (take_waiter rid (gate_waiters g)) as [[w ws]|] eqn:Et; [|done].
    pose proof (take_waiter_spec rid (gate_waiters g)) as Ht. rewrite Et in Ht.
    destruct Ht as (_ & Hw & Hs & Hnin & _); [rewrite <- pending_ids_all by done; apply (gi_ids _ _ H)|].
    intros x Hx. simpl in *. assert (Hx' : x ∈ gate_waiters g)
      by (eapply elem_of_submseteq; [exact Hx | by apply sublist_submseteq]).
    rewrite (Hp w Hw). simpl. rewrite state_insert, decide_False; [by apply Hp|]. intros E.
    apply Hnin. by rewrite <- (NoDup_map_inj w_fut _ x w Hn Hx' Hw E).
Qed.

Lemma gate_reachable_pending n g : gate_reachable n g -> all_pending g.
Proof.
  intros Hr. assert (Hi := gate_reachable_inv n g Hr). revert Hi.
  induction Hr as [g Hg|g o Hg IH He]; intros _.
  - unfold new_gate in Hg. inv_bind Hg. injection Hg as <-. intros w Hw. inversion Hw.
  - apply (run_gate_pending n); [by apply gate_reachable_inv | by apply IH, gate_reachable_inv | done].
Qed.

Lemma leave_future f g : all_pending g -> NoDup (map w_id (gate_waiters g)) ->
  NoDup (map w_fut (gate_waiters g)) ->
  lock_of (remove_waiter f g) =
    lock_step 0 (match waiter_of f g with Some w => LLeave (w_id w) | None => LSkip end) (lock_of g).
Proof.
  intros Hp Hi Hf. unfold lock_of. cbn [remove_waiter gate_waiters holders].
  rewrite (filter_fut_id f _ Hi Hf). unfold waiter_of. by destruct (List.find _ _).
Qed.

Lemma lock_cancel_future f g : lock_of (remove_waiter f (cancel_future f g)) = lock_of (remove_waiter f g).
Proof. unfold cancel_future. by destruct (done_ _). Qed.

Lemma waiter_of_done f g : all_pending g -> state_of (gate_futs g) f <> Pending -> waiter_of f g = None.
Proof.
  intros Hp Hs. unfold waiter_of. destruct (List.find _ _) as [w|] eqn:E; [|done].
  apply List.find_some in E as [Hw E]. apply Nat.eqb_eq in E as <-. exfalso. apply Hs, Hp.
  by apply list_elem_of_In.
Qed.

Lemma lock_exit n rid g : all_pending g -> rid ∈ holders g ->
  match hand_over (count_release (drop_holder rid g)) with
  | (Some g', _) => lock_of g'
  | (None, g') => lock_of g'
  end = lock_step n (LExit rid) (lock_of g).
Proof.
  intros Hp Hr. unfold hand_over. cbn [count_release drop_holder gate_futs gate_waiters].
  rewrite (pop_all g Hp). unfold lock_of. cbn. rewrite (bool_decide_true _ Hr).
  by destruct (gate_waiters g).
Qed.

(** C18: the gate refines the lock: with a fixed limit, in every state reached
    by operations that name their request, each of these operations, as long
    as request ids of concurrent requests differ ([gate_enabled]), does to the
    holders and the line exactly what the specification does for it. *)
Theorem gate_refines_lock n g o :
  gate_reachable n g -> gate_enabled o g = true ->
  lock_of (run_gate o g) = lock_step n (lock_op o g) (lock_of g).
Proof.
  intros Hr He. pose proof (gate_reachable_inv _ _ Hr) as H. pose proof (gate_reachable_pending _ _ Hr) as Hp.
  pose proof (gi_ids _ _ H) as Hi. rewrite (pending_ids_all g Hp) in Hi.
  pose proof (fun f => leave_future f g Hp Hi (gi_futs _ _ H)) as Hl.
  destruct o as [now rid|why f|rid|rid|a b|rid]; cbn [run_gate lock_op].
  - unfold acquire_start, try_acquire. rewrite (gi_limit _ _ H). cbn. rewrite <- (gi_count _ _ H).
    destruct (bool_decide _); [done|]. destruct (active_count g <? n) eqn:E; [done|].
    rewrite (gi_limit _ _ H). cbn. rewrite E. unfold lock_of. cbn. by rewrite map_app.
  - destruct why; cbn [acquire_resume snd].
    + destruct (state_of (gate_futs g) f) eqn:Es; try done; cbn [snd].
      all: change (lock_of (remove_waiter f g) = lock_of g); rewrite Hl, waiter_of_done; by rewrite ?Es.
    + change (lock_of (remove_waiter f (cancel_future f g)) = lock_step n (lock_op (GWake WakeTimeout f) g) (lock_of g)).
      rewrite lock_cancel_future, Hl. cbn. by destruct (waiter_of f g).
    + change (lock_of (remove_waiter f (cancel_future f g)) = lock_step n (lock_op (GWake WakeTimeout f) g) (lock_of g)).
      rewrite lock_cancel_future, Hl. cbn. by destruct (waiter_of f g).
    + change (lock_of (remove_waiter f g) = lock_step n (lock_op (GWake WakeTimeout f) g) (lock_of g)).
      rewrite Hl. cbn. by destruct (waiter_of f g).
  - unfold release. destruct (decide (rid ∈ holders g)) as [Eb|Eb].
    + rewrite (bool_decide_true _ Eb), <- (lock_exit n rid g Hp Eb).
      rewrite (proj2 (Z.eqb_neq _ 0)) by (by eapply active_nonzero).
      by destruct (hand_over _) as [[g'|] g''].
    + cbn. by rewrite (bool_decide_false _ Eb).
  - unfold force_release. destruct (decide (rid ∈ holders g)) as [Eb|Eb].
    + rewrite (bool_decide_true _ Eb), <- (lock_exit n rid g Hp Eb).
      destruct (hand_over _) as [[g'|] g'']; [done|]. cbn. by destruct (0 <? _).
    + cbn. by rewrite (bool_decide_false _ Eb).
  - unfold transfer_holder. cbn. destruct (bool_decide (a ∈ holders g)); [|done]. by destruct (bool_decide (a = b)).
  - unfold cancel. pose proof (take_waiter_spec rid (gate_waiters g) Hi) as Ht.
    destruct (take_waiter rid (gate_waiters g)) as [[w ws]|]; simpl.
    + destruct Ht as (_ & _ & _ & _ & Ht). unfold lock_of. simpl. by rewrite Ht.
    + unfold lock_of. by rewrite Ht.
Qed.

Lemma gate_refines_lock_witness :
  let g := run_gates two_waiting gate1 in
  lock_of (run_gate (GRelease "a") g) = lock_step 1 (LExit "a") (lock_of g) /\
  line (lock_of (run_gate (GRelease "a") g)) = ["c"]%string.
Proof.
  split; [|vm_compute; reflexivity].
  apply (gate_refines_lock 1 (run_gates two_waiting gate1) (GRelease "a")); [|reflexivity].
  apply run_gates_reachable; [apply GR_init|]; vm_compute; reflexivity.
Defined.

(** [release()] without a request id gives the slot back but keeps its last
    holder on record, so the same id acquires again at once, without a slot
    being counted for it. *)
Theorem anonymous_release_keeps_holder dyn n g r :
  gate_reachable n g -> r ∈ holders g -> pending_ids g = [] ->
  exists g', release None g = Ok g' /\ active_count g' = active_count g - 1 /\
    r ∈ holders g' /\ try_acquire dyn r g' = (true, g').
Proof.
  intros H%gate_reachable_inv Hr Hp. pose proof (pop_pending_first g) as Hf.
  assert (Hpos : active_count g <> 0).
  { rewrite (gi_count _ _ H). assert (size (holders g) <> 0%nat) by (apply size_non_empty_iff; set_solver). lia. }
  unfold release. simpl. rewrite (proj2 (Z.eqb_neq _ _)) by lia. unfold hand_over. simpl.
  unfold pending_ids in Hp. destruct (pop_pending _ _) as [[w ws]|]; [by rewrite Hf in Hp|].
  eexists. split; [done|]. simpl. split; [done|]. split; [done|].
  unfold try_acquire. simpl. by rewrite (bool_decide_true _ Hr).
Qed.

Lemma anonymous_release_keeps_holder_witness :
  exists g', release None (run_gate (GAcquire 0 "a") gate1) = Ok g' /\ active_count g' = 0 /\
             try_acquire 0 "a" g' = (true, g').
Proof.
  destruct (anonymous_release_keeps_holder 0 1 (run_gate (GAcquire 0 "a") gate1) "a"%string)
    as (g' & H1 & H2 & _ & H3).
  - apply GR_step; [apply GR_init|]; vm_compute; reflexivity.
  - apply (bool_decide_unpack _). vm_compute. exact I.
  - vm_compute. reflexivity.
  - exists g'. split; [exact H1|]. split; [exact H2 | exact H3].
Defined.
