(* ===== verification/ConcurrencyBackend.v ===== *)
(** * Per-key serialisation of pipeline executions

    [systems/pipeline/core/execution/concurrency_backend.py]: the abstract
    [ConcurrencyBackend] with the promise its clients rely on, as a type
    class, and the in-process backend, a store of FIFO gates with limit 1, as
    its instance.  The store lock is never held across a suspension, so it is
    always free.  Gate objects live in a heap: a suspended task keeps the gate
    it called [acquire] on, whatever the store does. *)
From stdpp Require Import base gmap sets list strings.
From Stdlib Require Import ZArith QArith Lia.
From S2P Require Import Prelude PyFloat CapacityCounter FifoWaitQueue FifoCapacityGate.
Local Open Scope Z_scope.

(** ** The interface *)

(** How a call of [acquire] stands after a stretch of code. *)
Inductive Outcome (T : Type) :=
  | Granted
  | Suspended (t : T)
  | Failed (e : error).
Arguments Granted {T}.
Arguments Suspended {T} t.
Arguments Failed {T} e.

Class ConcurrencyBackend (B T : Type) := {
  backend_new : B;
  backend_acquire : Q -> string -> string -> B -> Outcome T * B;
  backend_resume : GateWake -> T -> B -> Outcome T * B;
  backend_release : string -> B -> exn B
}.

(** The promise: [serves b used held waits] says that [b] is in order when
    the ids [used] have called [acquire], the keys [held] are held and the
    calls [waits] are suspended (each with its key).  It holds initially, every
    operation keeps it, a release of a held key returns, and no key is held
    twice. *)
Class ConcurrencyBackendLaws (B T : Type) `{ConcurrencyBackend B T} := {
  serves : B -> gset string -> list string -> list (string * T) -> Prop;
  serves_new : serves backend_new ∅ [] [];
  serves_acquire now key rid b used held waits :
    serves b used held waits -> rid ∉ used ->
    match backend_acquire now key rid b with
    | (Granted, b') => serves b' ({[rid]} ∪ used) (key :: held) waits
    | (Suspended t, b') => serves b' ({[rid]} ∪ used) held ((key, t) :: waits)
    | (Failed _, b') => serves b' ({[rid]} ∪ used) held waits
    end;
  serves_resume why key t b used held waits :
    serves b used held ((key, t) :: waits) ->
    match backend_resume why t b with
    | (Granted, b') => serves b' used (key :: held) waits
    | (Suspended t', b') => t' = t /\ serves b' used held ((key, t) :: waits)
    | (Failed _, b') => serves b' used held waits
    end;
  serves_release key b used held waits :
    serves b used (key :: held) waits ->
    exists b', backend_release key b = Ok b' /\ serves b' used held waits;
  serves_perm b used held held' waits waits' :
    serves b used held waits -> held ≡ₚ held' -> waits ≡ₚ waits' -> serves b used held' waits';
  serves_exclusive b used held waits : serves b used held waits -> NoDup held
}.

(** ** The in-process backend *)

Record InProcessConcurrencyBackend := mkBackend {
  gates : gmap string nat;
  heap : gmap nat FifoCapacityGate;
  next_gate : nat
}.

Definition get_or_create_gate (key : string) (b : InProcessConcurrencyBackend)
    : exn (nat * InProcessConcurrencyBackend) :=
  match gates b !! key with
  | Some i => Ok (i, b)
  | None =>
      let? g := new_gate (Static 1) in
      let i := next_gate b in
      Ok (i, mkBackend (<[key := i]> (gates b)) (<[i := g]> (heap b)) (S i))
  end.

(** A method call on the gate object [i]. *)
Definition set_gate (i : nat) (g : FifoCapacityGate) (b : InProcessConcurrencyBackend)
    : InProcessConcurrencyBackend :=
  mkBackend (gates b) (<[i := g]> (heap b)) (next_gate b).

(** A suspended call: the gate object and the future it awaits. *)
Notation ticket := (nat * nat)%type.

Definition outcome_of (i : nat) (r : GateAcquire) : Outcome ticket :=
  match r with
  | Acquired => Granted
  | WaitingOn f => Suspended (i, f)
  | AcquireRaised e => Failed e
  end.

(** Calls on an object that does not exist cannot happen; they change nothing. *)
Definition in_process_acquire (now : Q) (key rid : string) (b : InProcessConcurrencyBackend)
    : Outcome ticket * InProcessConcurrencyBackend :=
  match get_or_create_gate key b with
  | Raise e => (Failed e, b)
  | Ok (i, b) =>
      match heap b !! i with
      | None => (Failed RuntimeError, b)
      | Some g => let (r, g') := acquire_start now 0 rid g in (outcome_of i r, set_gate i g' b)
      end
  end.

Definition in_process_resume (why : GateWake) (t : ticket) (b : InProcessConcurrencyBackend)
    : Outcome ticket * InProcessConcurrencyBackend :=
  match heap b !! fst t with
  | None => (Failed RuntimeError, b)
  | Some g => let (r, g') := acquire_resume why (snd t) g in
              (outcome_of (fst t) r, set_gate (fst t) g' b)
  end.

Definition maybe_evict (key : string) (b : InProcessConcurrencyBackend)
    : InProcessConcurrencyBackend :=
  match gates b !! key with
  | None => b
  | Some i =>
      match heap b !! i with
      | None => b
      | Some g =>
          if (active_count g =? 0) && (length (gate_waiters g) =? 0)%nat
          then mkBackend (delete key (gates b)) (heap b) (next_gate b) else b
      end
  end.

Definition in_process_release (key : string) (b : InProcessConcurrencyBackend)
    : exn InProcessConcurrencyBackend :=
  match gates b !! key with
  | None => Raise RuntimeError
  | Some i =>
      match heap b !! i with
      | None => Raise RuntimeError
      | Some g => let? g' := release None g in Ok (maybe_evict key (set_gate i g' b))
      end
  end.

Definition gates_alive (b : InProcessConcurrencyBackend) : nat := size (gates b).

#[export] Instance in_process_backend
    : ConcurrencyBackend InProcessConcurrencyBackend ticket := {|
  backend_new := mkBackend ∅ ∅ 0;
  backend_acquire := in_process_acquire;
  backend_resume := in_process_resume;
  backend_release := in_process_release |}.

(** ** One gate, used by the backend *)

Definition resolved (g : FifoCapacityGate) (t : ticket) : bool :=
  bool_decide (state_of (gate_futs g) (snd t) = Resolved).
Definition granted (g : FifoCapacityGate) (ts : list ticket) : nat :=
  length (List.filter (resolved g) ts).

Definition waits_in (g : FifoCapacityGate) (i : nat) (t : ticket) : Prop :=
  fst t = i /\ (snd t < gate_next g)%nat /\
  (state_of (gate_futs g) (snd t) = Resolved \/
   state_of (gate_futs g) (snd t) = Pending /\ snd t ∈ map w_fut (gate_waiters g)).

(** [n] holders and the suspended calls [ts] fit the gate object [i]: each
    holder, and each call whose future is resolved, has its slot. *)
Record gate_ok (used : gset string) (i n : nat) (ts : list ticket) (g : FifoCapacityGate) : Prop := {
  go_limit : limit_source g = Static 1;
  go_used : holders g ⊆ used;
  go_bound : active_count g <= 1;
  go_load : Z.of_nat (n + granted g ts) <= active_count g;
  go_fresh : forall w, w ∈ gate_waiters g -> (w_fut w < gate_next g)%nat /\ w_id w ∈ used;
  go_waits : forall t, t ∈ ts -> waits_in g i t;
  go_nodup : NoDup ts
}.

Lemma gate_ok_perm used i n ts ts' g :
  ts ≡ₚ ts' -> gate_ok used i n ts g -> gate_ok used i n ts' g.
Proof.
  intros Hp [H1 H2 H3 H4 H5 H6 H7]. split; try done.
  - unfold granted in *. by rewrite <- (Permutation_length (lfilter_perm _ _ _ Hp)).
  - intros t Ht. apply H6. by rewrite Hp.
  - by rewrite <- Hp.
Qed.

Lemma gate_ok_used used used' i n ts g :
  used ⊆ used' -> gate_ok used i n ts g -> gate_ok used' i n ts g.
Proof.
  intros Hu [H1 H2 H3 H4 H5 H6 H7]. split; try done; [by transitivity used|].
  intros w Hw. destruct (H5 w Hw). by eauto.
Qed.

Lemma gate_ok_new used i : gate_ok used i 0 [] (mkGate (Static 1) 0 ∅ [] ∅ 0 0 0 0 0).
Proof.
  split; simpl; try done; try (by intros x Hx; inversion Hx); by constructor.
Qed.

(** Only what the invariant reads has to be kept. *)
Lemma gate_ok_ext used i n ts g g' :
  gate_ok used i n ts g -> limit_source g' = limit_source g -> holders g' = holders g ->
  active_count g' = active_count g -> gate_waiters g' = gate_waiters g ->
  gate_futs g' = gate_futs g -> gate_next g' = gate_next g -> gate_ok used i n ts g'.
Proof.
  intros [H1 H2 H3 H4 H5 H6 H7] E1 E2 E3 E4 E5 E6.
  split; unfold granted, resolved, waits_in; rewrite ?E1, ?E2, ?E3, ?E4, ?E5, ?E6; done.
Qed.

Lemma granted_ext g g' ts :
  (forall t, t ∈ ts -> resolved g' t = resolved g t) -> granted g' ts = granted g ts.
Proof. intros H. unfold granted. f_equal. by apply lfilter_ext_in. Qed.

Lemma granted_cons g t ts :
  granted g (t :: ts) = ((if resolved g t then 1 else 0) + granted g ts)%nat.
Proof. unfold granted. simpl. by destruct (resolved g t). Qed.

Lemma start_ok used i n ts now rid g :
  gate_ok used i n ts g -> rid ∉ used ->
  match acquire_start now 0 rid g with
  | (Acquired, g') => gate_ok ({[rid]} ∪ used) i (S n) ts g'
  | (WaitingOn f, g') => gate_ok ({[rid]} ∪ used) i n ((i, f) :: ts) g'
  | (AcquireRaised _, g') => gate_ok ({[rid]} ∪ used) i n ts g'
  end.
Proof.
  intros [H1 H2 H3 H4 H5 H6 H7] Hr. unfold acquire_start, try_acquire.
  rewrite bool_decide_false by (intros ?; apply Hr; by apply H2). rewrite H1. simpl.
  destruct (active_count g <? 1) eqn:Ea; to_prop; cbn.
  - split; simpl; try done; [by apply union_mono_l | lia | |
      intros w Hw; destruct (H5 w Hw); split; [done | by apply elem_of_union_r]].
    change (granted (grant rid g) ts) with (granted g ts). lia.
  - rewrite H1. simpl. rewrite (proj2 (Z.ltb_ge _ _)) by lia.
    assert (Hne : forall t, t ∈ ts -> snd t <> gate_next g)
      by (intros t Ht; destruct (H6 t Ht) as (_ & ? & _); lia).
    assert (Hst : forall t, t ∈ ts -> state_of (<[gate_next g := Pending]> (gate_futs g)) (snd t)
                                       = state_of (gate_futs g) (snd t))
      by (intros t Ht; rewrite state_insert, decide_False; [done | by apply Hne]).
    set (g1 := mkGate _ _ _ _ _ _ _ _ _ _).
    assert (Hg : granted g1 ((i, gate_next g) :: ts) = granted g ts).
    { rewrite granted_cons, (granted_ext g g1).
      - unfold resolved. simpl. rewrite state_insert, decide_True by done. by rewrite bool_decide_false.
      - intros t Ht. unfold resolved. simpl. by rewrite Hst. }
    split; rewrite ?Hg; simpl; try done.
    + etrans; [exact H2 | apply union_subseteq_r].
    + intros w [Hw|Hw%list_elem_of_singleton]%elem_of_app; subst; simpl.
      * destruct (H5 w Hw). split; [lia | by apply elem_of_union_r].
      * split; [lia|]. by apply elem_of_union_l, elem_of_singleton.
    + intros t [->|Ht]%elem_of_cons; unfold waits_in; simpl.
      * split; [done|]. split; [lia|]. right. rewrite state_insert, decide_True by done.
        split; [done|]. rewrite map_app. apply elem_of_app. right. by left.
      * destruct (H6 t Ht) as (? & ? & Hs). rewrite Hst by done. split; [done|]. split; [lia|].
        destruct Hs as [|[? ?]]; [by left | right]. split; [done|]. rewrite map_app. apply elem_of_app. by left.
    + constructor; [|done]. intros Ht. by apply (Hne (i, gate_next g)).
Qed.

Lemma waits_nodup_ne used i n f ts g t :
  gate_ok used i n ((i, f) :: ts) g -> t ∈ ts -> snd t <> f.
Proof.
  intros H Ht E. pose proof (go_nodup _ _ _ _ _ H) as Hn. apply NoDup_cons in Hn as [Hn _].
  destruct (go_waits _ _ _ _ _ H t) as (Hi & _); [by right|]. apply Hn. destruct t. simpl in *. by subst.
Qed.

(** A suspended call that gives up takes its waiter along. *)
Lemma give_up_ok used i n f ts g :
  gate_ok used i n ((i, f) :: ts) g ->
  gate_ok used i n ts (remove_waiter f g) /\ gate_ok used i n ts (remove_waiter f (cancel_future f g)).
Proof.
  intros H. pose proof (fun t => waits_nodup_ne _ _ _ _ _ _ t H) as Hne.
  enough (Hg : forall fs, (forall t, t ∈ ts -> state_of fs (snd t) = state_of (gate_futs g) (snd t)) ->
    gate_ok used i n ts (mkGate (limit_source g) (active_count g) (holders g)
      (List.filter (fun w => negb (w_fut w =? f)%nat) (gate_waiters g)) fs (gate_next g)
      (total_acquired g) (total_released g) (total_timeouts g) (total_cancellations g))).
  { split; [by apply Hg|]. unfold cancel_future. destruct (done_ _); [by apply Hg|]. simpl. apply Hg.
    simpl. intros t Ht. rewrite state_insert, decide_False; [done|]. by eapply Hne. }
  intros fs Hst. destruct H as [H1 H2 H3 H4 H5 H6 H7]. rewrite granted_cons in H4.
  split; simpl; try done.
  - rewrite (granted_ext g); [lia|]. intros t Ht. unfold resolved. simpl. by rewrite Hst.
  - intros w [Hw _]%elem_of_lfilter. by apply H5.
  - intros t Ht. destruct (H6 t) as (? & ? & Hs); [by right|]. unfold waits_in. simpl.
    rewrite Hst by done. split; [done|]. split; [done|]. destruct Hs as [|[Hp Hin]]; [by left|].
    right. split; [done|]. apply list_elem_of_fmap in Hin as (w & Hwf & Hw).
    apply list_elem_of_fmap. exists w. split; [done|]. apply elem_of_lfilter. split; [done|].
    rewrite <- Hwf. apply negb_true_iff, Nat.eqb_neq. by eapply Hne.
  - by apply NoDup_cons in H7 as [_ H7].
Qed.

Lemma resume_ok used i n f ts why g :
  gate_ok used i n ((i, f) :: ts) g ->
  match acquire_resume why f g with
  | (Acquired, g') => gate_ok used i (S n) ts g'
  | (WaitingOn f', g') => f' = f /\ gate_ok used i n ((i, f) :: ts) g'
  | (AcquireRaised _, g') => gate_ok used i n ts g'
  end.
Proof.
  intros H. destruct (give_up_ok _ _ _ _ _ _ H) as [Hg1 Hg2].
  assert (Hc : forall g0, gate_ok used i n ts g0 ->
    gate_ok used i n ts (count_timeout g0) /\ gate_ok used i n ts (count_cancellation g0)).
  { intros g0 H0. split; by eapply gate_ok_ext. }
  destruct why; simpl; try (by apply Hc).
  destruct (go_waits _ _ _ _ _ H (i, f)) as (_ & _ & [Hs|[Hs _]]); [by left| |]; simpl in Hs; rewrite Hs; [|done].
  destruct H as [H1 H2 H3 H4 H5 H6 H7]. rewrite granted_cons in H4. unfold resolved at 1 in H4.
  simpl in H4. rewrite bool_decide_true in H4 by done.
  split; try done; [lia | intros t Ht; apply H6; by right | by apply NoDup_cons in H7 as [_ H7]].
Qed.

(** Resolving one future grants at most one more slot. *)
Lemma granted_resolve g g' i ts f :
  NoDup ts -> (forall t, t ∈ ts -> fst t = i) ->
  gate_futs g' = <[f := Resolved]> (gate_futs g) -> (granted g' ts <= S (granted g ts))%nat.
Proof.
  intros Hn Hi Hf. revert Hn Hi. induction ts as [|t ts IH]; intros Hn Hi; [exact (Nat.le_0_l _)|].
  apply NoDup_cons in Hn as [Ht Hn]. rewrite !granted_cons.
  assert (Hr : forall x, snd x <> f -> resolved g' x = resolved g x)
    by (intros x Hx; unfold resolved; by rewrite Hf, state_insert, decide_False).
  destruct (decide (snd t = f)) as [E|E].
  - rewrite (granted_ext g g'); [destruct (resolved g' t); lia|]. intros x Hx. apply Hr. intros E'.
    apply Ht. pose proof (Hi t ltac:(by left)). pose proof (Hi x ltac:(by right)).
    destruct t, x. simpl in *. by subst.
  - rewrite Hr by done. specialize (IH Hn (fun x Hx => Hi x ltac:(by right))). lia.
Qed.

Lemma release_ok used i n ts g :
  gate_ok used i (S n) ts g -> exists g', release None g = Ok g' /\ gate_ok used i n ts g'.
Proof.
  intros [H1 H2 H3 H4 H5 H6 H7]. unfold release. simpl. rewrite (proj2 (Z.eqb_neq _ _)) by lia.
  unfold hand_over. simpl. pose proof (pop_pending_spec (gate_futs g) (gate_waiters g)) as Hp.
  destruct (pop_pending (gate_futs g) (gate_waiters g)) as [[w ws]|]; eexists; split; try done.
  - set (g1 := mkGate _ _ _ _ _ _ _ _ _ _). destruct Hp as (pre & Hw & Hs & Hd).
    pose proof (granted_resolve g g1 i ts (w_fut w) H7 (fun t Ht => proj1 (H6 t Ht)) eq_refl) as Hg.
    split; simpl; try done.
    + apply union_subseteq. split; [|done]. apply singleton_subseteq_l, H5. rewrite Hw.
      apply elem_of_app. right. by left.
    + lia.
    + intros x Hx. apply H5. rewrite Hw. apply elem_of_app. right. by right.
    + intros t Ht. destruct (H6 t Ht) as (? & ? & Hst). unfold waits_in. simpl. rewrite state_insert.
      split; [done|]. split; [done|]. destruct (decide _) as [|Hne]; [by left|].
      destruct Hst as [|[Hpd Hin]]; [by left | right]. split; [done|].
      rewrite Hw, map_app in Hin. apply elem_of_app in Hin as [Hin|Hin].
      * apply list_elem_of_fmap in Hin as (x & Hx & Hin). specialize (Hd x Hin).
        by rewrite <- Hx, Hpd in Hd.
      * simpl in Hin. by apply elem_of_cons in Hin as [Hin|Hin].
  - assert (Hres : forall t, t ∈ ts -> state_of (gate_futs g) (snd t) = Resolved).
    { intros t Ht. destruct (H6 t Ht) as (_ & _ & [|[Hpd Hin]]); [done|].
      apply list_elem_of_fmap in Hin as (x & Hx & Hin). specialize (Hp x Hin). by rewrite <- Hx, Hpd in Hp. }
    split; simpl; try done; [lia | change (granted _ ts) with (granted g ts); lia | intros x Hx; inversion Hx |].
    intros t Ht. destruct (H6 t Ht) as (? & ? & _). split; [done|]. split; [done|]. left. by apply Hres.
Qed.

(** A gate found idle with an empty queue serves nobody. *)
Lemma idle_gate used i n ts g :
  gate_ok used i n ts g -> active_count g = 0 -> gate_waiters g = [] -> n = 0%nat /\ ts = [].
Proof.
  intros [H1 H2 H3 H4 H5 H6 H7] Ha Hq. rewrite Ha in H4. split; [lia|].
  destruct ts as [|t ts]; [done|]. rewrite granted_cons in H4.
  destruct (H6 t ltac:(by left)) as (_ & _ & [Hs|[_ Hin]]).
  - unfold resolved in H4. rewrite bool_decide_true in H4 by done. lia.
  - rewrite Hq in Hin. inversion Hin.
Qed.

(** ** The store *)

Definition times (key : string) (held : list string) : nat :=
  length (List.filter (String.eqb key) held).
Definition of_key (key : string) (waits : list (string * ticket)) : list ticket :=
  map snd (List.filter (fun x => String.eqb key (fst x)) waits).

(** What the store has for a key, with [n] holders and the calls [ts]. *)
Definition entry_ok (b : InProcessConcurrencyBackend) (used : gset string) (key : string)
    (n : nat) (ts : list ticket) : Prop :=
  match gates b !! key with
  | Some i => (i < next_gate b)%nat /\ exists g, heap b !! i = Some g /\ gate_ok used i n ts g
  | None => n = 0%nat /\ ts = []
  end.

Record in_order (b : InProcessConcurrencyBackend) (used : gset string) (held : list string)
    (waits : list (string * ticket)) : Prop := {
  io_entry : forall key, entry_ok b used key (times key held) (of_key key waits);
  io_inj : forall k1 k2 i, gates b !! k1 = Some i -> gates b !! k2 = Some i -> k1 = k2
}.

Lemma times_cons key k held :
  times key (k :: held) = ((if String.eqb key k then 1 else 0) + times key held)%nat.
Proof. unfold times. simpl. by destruct (String.eqb key k). Qed.

Lemma of_key_cons key x waits :
  of_key key (x :: waits) = (if String.eqb key (fst x) then [snd x] else []) ++ of_key key waits.
Proof. unfold of_key. simpl. by destruct (String.eqb key (fst x)). Qed.

Lemma eqb_ne (a b : string) : a <> b -> String.eqb a b = false.
Proof. apply String.eqb_neq. Qed.

(** Changing the gate of one key leaves the other entries alone. *)
Lemma set_gate_entry b used key i g k n ts :
  (forall k1 k2 i, gates b !! k1 = Some i -> gates b !! k2 = Some i -> k1 = k2) ->
  gates b !! key = Some i -> k <> key ->
  entry_ok b used k n ts -> entry_ok (set_gate i g b) used k n ts.
Proof.
  intros Hinj Hk Hne. unfold entry_ok. simpl. destruct (gates b !! k) as [j|] eqn:Ej; [|done].
  intros (Hlt & g' & Hg & Hok). split; [done|]. exists g'.
  rewrite lookup_insert_ne; [done|]. intros <-. apply Hne. by eapply Hinj.
Qed.

Lemma entry_used b used used' key n ts :
  used ⊆ used' -> entry_ok b used key n ts -> entry_ok b used' key n ts.
Proof.
  unfold entry_ok. destruct (gates b !! key); [|done]. intros Hu (Hlt & g & Hg & Hok).
  split; [done|]. exists g. split; [done|]. by eapply gate_ok_used.
Qed.

(** One operation on the gate of [key]: only the bookkeeping of [key] moves. *)
Lemma in_order_set b used used' held held' waits waits' key i g' :
  in_order b used held waits -> gates b !! key = Some i -> used ⊆ used' ->
  (forall k, k <> key -> times k held' = times k held /\ of_key k waits' = of_key k waits) ->
  gate_ok used' i (times key held') (of_key key waits') g' ->
  in_order (set_gate i g' b) used' held' waits'.
Proof.
  intros [He Hi] Hk Hu Hrest Hok. split; [|done]. intros k. destruct (decide (k = key)) as [->|Hne].
  - specialize (He key). unfold entry_ok in *. simpl. rewrite Hk in *. destruct He as [Hlt _].
    split; [done|]. exists g'. by rewrite lookup_insert_eq.
  - destruct (Hrest k Hne) as [-> ->]. apply (set_gate_entry b used' key); [done..|].
    eapply entry_used; [exact Hu | apply He].
Qed.

Lemma get_or_create_ok key b used held waits :
  in_order b used held waits ->
  exists i b' g, get_or_create_gate key b = Ok (i, b') /\ in_order b' used held waits /\
    gates b' !! key = Some i /\ heap b' !! i = Some g.
Proof.
  intros H. pose proof H as [He Hi]. unfold get_or_create_gate.
  destruct (gates b !! key) as [i|] eqn:Ek.
  - specialize (He key). unfold entry_ok in He. rewrite Ek in He. destruct He as (_ & g & Hg & _).
    by exists i, b, g.
  - simpl. eexists _, _, _. split; [done|]. simpl. rewrite !lookup_insert_eq.
    split; [|done]. split; simpl.
    + intros k. specialize (He k). unfold entry_ok in *. simpl. destruct (decide (k = key)) as [->|Hne].
      * rewrite Ek in He. destruct He as [-> ->]. rewrite lookup_insert_eq. split; [lia|]. eexists.
        rewrite lookup_insert_eq. split; [done | apply gate_ok_new].
      * rewrite lookup_insert_ne by done. destruct (gates b !! k) as [j|]; [|done].
        destruct He as (Hlt & g & Hg & Hok). split; [lia|]. exists g.
        rewrite lookup_insert_ne by lia. done.
    + assert (Hfr : forall k, gates b !! k = Some (next_gate b) -> False).
      { intros k Hk. specialize (He k). unfold entry_ok in He. rewrite Hk in He. lia. }
      intros k1 k2 i. rewrite !lookup_insert_Some.
      intros [[<- <-]|[? H1]] [[<- E]|[? H2]]; subst; [done | | | by eapply Hi];
        exfalso; by eapply Hfr.
Qed.

Lemma entry_gate b used held waits key i :
  in_order b used held waits -> gates b !! key = Some i ->
  exists g, heap b !! i = Some g /\ gate_ok used i (times key held) (of_key key waits) g.
Proof.
  intros H Hk. pose proof (io_entry _ _ _ _ H key) as He. unfold entry_ok in He. rewrite Hk in He. tauto.
Qed.

Lemma maybe_evict_ok key b used held waits :
  in_order b used held waits -> in_order (maybe_evict key b) used held waits.
Proof.
  intros H. unfold maybe_evict. destruct (gates b !! key) as [i|] eqn:Ek; [|done].
  destruct (entry_gate _ _ _ _ _ _ H Ek) as (g & Hg & Hok). rewrite Hg.
  destruct (active_count g =? 0) eqn:Ea; [|done]. destruct (length (gate_waiters g)) eqn:El; [|done]. simpl.
  to_prop. destruct (idle_gate _ _ _ _ _ Hok) as [Hn Hts]; [done | by apply length_zero_iff_nil|].
  destruct H as [He Hi]. split; simpl.
  - intros k. destruct (decide (k = key)) as [->|Hne].
    + unfold entry_ok. simpl. by rewrite lookup_delete_eq, Hn, Hts.
    + specialize (He k). unfold entry_ok in *. simpl. by rewrite lookup_delete_ne.
  - intros k1 k2 j [_ H1]%lookup_delete_Some [_ H2]%lookup_delete_Some. by eapply Hi.
Qed.

Lemma in_order_perm b used held held' waits waits' :
  in_order b used held waits -> held ≡ₚ held' -> waits ≡ₚ waits' -> in_order b used held' waits'.
Proof.
  intros [He Hi] Hh Hw. split; [|done]. intros key. specialize (He key).
  assert (Et : times key held' = times key held)
    by (unfold times; by rewrite (Permutation_length (lfilter_perm _ _ _ Hh))).
  assert (Ew : of_key key waits ≡ₚ of_key key waits')
    by (unfold of_key; apply Permutation_map; by apply lfilter_perm).
  unfold entry_ok in *. rewrite Et. destruct (gates b !! key).
  - destruct He as (Hlt & g & Hg & Hok). split; [done|]. exists g. split; [done|].
    by eapply gate_ok_perm.
  - destruct He as [Hn Hts]. split; [done|]. rewrite Hts in Ew. by apply Permutation_nil_l in Ew.
Qed.

(** Bookkeeping of one more holder, call or id. *)
Lemma rest_of key held waits t k : k <> key ->
  times k (key :: held) = times k held /\ of_key k ((key, t) :: waits) = of_key k waits.
Proof. intros Hne. rewrite times_cons, of_key_cons. simpl. by rewrite (eqb_ne _ _ Hne). Qed.

Lemma own_key key held waits (t : ticket) :
  times key (key :: held) = S (times key held) /\
  of_key key ((key, t) :: waits) = t :: of_key key waits.
Proof. rewrite times_cons, of_key_cons. simpl. by rewrite String.eqb_refl. Qed.

Lemma acquire_serves now key rid b used held waits :
  in_order b used held waits -> rid ∉ used ->
  match in_process_acquire now key rid b with
  | (Granted, b') => in_order b' ({[rid]} ∪ used) (key :: held) waits
  | (Suspended t, b') => in_order b' ({[rid]} ∪ used) held ((key, t) :: waits)
  | (Failed _, b') => in_order b' ({[rid]} ∪ used) held waits
  end.
Proof.
  intros H Hr. unfold in_process_acquire.
  destruct (get_or_create_ok key _ _ _ _ H) as (i & b' & g & -> & H' & Hk & Hg). rewrite Hg.
  destruct (entry_gate _ _ _ _ _ _ H' Hk) as (g0 & Hg0 & Hok). rewrite Hg in Hg0. injection Hg0 as <-.
  pose proof (start_ok _ _ _ _ now _ _ Hok Hr) as Hs.
  destruct (acquire_start now 0 rid g) as [[|f|e] g']; cbn.
  all: eapply in_order_set; [exact H' | done | apply union_subseteq_r | |].
  + intros k Hne. split; [by apply (rest_of key held waits (i, 0%nat)) | done].
  + by rewrite (proj1 (own_key key held waits (i, 0%nat))).
  + intros k Hne. split; [done | by apply (rest_of key held waits (i, f))].
  + by rewrite (proj2 (own_key key held waits (i, f))).
  + done.
  + done.
Qed.

Lemma resume_serves why key t b used held waits :
  in_order b used held ((key, t) :: waits) ->
  match in_process_resume why t b with
  | (Granted, b') => in_order b' used (key :: held) waits
  | (Suspended t', b') => t' = t /\ in_order b' used held ((key, t) :: waits)
  | (Failed _, b') => in_order b' used held waits
  end.
Proof.
  destruct t as [j f]. intros H. unfold in_process_resume. simpl.
  pose proof (io_entry _ _ _ _ H key) as He. rewrite (proj2 (own_key key held waits (j, f))) in He.
  unfold entry_ok in He. destruct (gates b !! key) as [i|] eqn:Ek; [|destruct He; done].
  destruct He as (Hlt & g & Hg & Hok).
  assert (j = i) as -> by (destruct (go_waits _ _ _ _ _ Hok (j, f)) as (Hj & _); [by left | done]).
  rewrite Hg. pose proof (resume_ok _ _ _ _ _ why _ Hok) as Hs.
  assert (Hrest : forall k, k <> key -> times k held = times k held /\
            of_key k waits = of_key k ((key, (i, f)) :: waits))
    by (intros k Hne; split; [done | symmetry; by apply (rest_of key held waits (i, f))]).
  destruct (acquire_resume why f g) as [[|f'|e] g']; cbn.
  + eapply in_order_set; [exact H | done | done | | by rewrite (proj1 (own_key key held waits (i, f)))].
    intros k Hne. split; [by apply (rest_of key held waits (i, f)) | by apply Hrest].
  + destruct Hs as [-> Hs]. split; [done|].
    eapply in_order_set; [exact H | done | done | done | by rewrite (proj2 (own_key key held waits (i, f)))].
  + eapply in_order_set; [exact H | done | done | exact Hrest | done].
Qed.

Lemma release_serves key b used held waits :
  in_order b used (key :: held) waits ->
  exists b', in_process_release key b = Ok b' /\ in_order b' used held waits.
Proof.
  intros H. unfold in_process_release.
  pose proof (io_entry _ _ _ _ H key) as He. rewrite times_cons, String.eqb_refl in He. simpl in He.
  unfold entry_ok in He. destruct (gates b !! key) as [i|] eqn:Ek; [|by destruct He].
  destruct He as (Hlt & g & Hg & Hok). rewrite Hg.
  destruct (release_ok _ _ _ _ _ Hok) as (g' & -> & Hok'). simpl. eexists. split; [done|].
  apply maybe_evict_ok. eapply in_order_set; [exact H | done | done | | done].
  intros k Hne. split; [symmetry; by apply (rest_of key held waits (i, 0%nat)) | done].
Qed.

Lemma in_order_exclusive b used held waits : in_order b used held waits -> NoDup held.
Proof.
  intros H. apply NoDup_ListNoDup, (NoDup_count_occ String.string_dec).
  intros key. pose proof (io_entry _ _ _ _ H key) as He.
  assert (Hc : count_occ String.string_dec held key = times key held).
  { clear. induction held as [|k l IH]; [done|]. rewrite times_cons. simpl.
    destruct (String.string_dec k key) as [->|Hne]; [by rewrite String.eqb_refl, IH|].
    by rewrite (eqb_ne key k) by congruence. }
  rewrite Hc. unfold entry_ok in He. destruct (gates b !! key); [|lia].
  destruct He as (_ & g & _ & Hok). destruct Hok. lia.
Qed.

#[export] Instance in_process_laws : ConcurrencyBackendLaws InProcessConcurrencyBackend ticket.
Proof.
  refine {| serves := in_order |}.
  - split; [|done]. intros key. by unfold entry_ok.
  - apply acquire_serves.
  - apply resume_serves.
  - apply release_serves.
  - apply in_order_perm.
  - apply in_order_exclusive.
Defined.
