(* ===== verification/ConcurrencyGate.v ===== *)
(** * The pipeline concurrency gate

    [systems/pipeline/core/execution/concurrency.py]: rendering of the
    [concurrency.key] template of a pipeline, and the executions that
    [maybe_concurrency_gate] serialises on the rendered key.  The executions
    are proved against the backend interface of [ConcurrencyBackend.v]. *)
From stdpp Require Import base gmap sets list strings.
From Stdlib Require Import Ascii ZArith QArith Lia.
From S2P Require Import Prelude PyFloat PyString ModelId CapacityCounter FifoWaitQueue FifoCapacityGate ConcurrencyBackend.
Local Open Scope Z_scope.

(** ** The key *)

(** What the template may refer to.  [opt_house] and [opt_agent_id] are the
    options as text, [""] when missing; [runtime_options] is [None] when it is
    not a dict. *)
Record RuntimeOptions := mkOptions {
  opt_house : string;
  opt_houseless : bool;
  opt_agent_id : string
}.
Record PipelineContext := mkContext {
  chat_id : option string;
  dispatch_thread_id : option string;
  runtime_options : option RuntimeOptions
}.

(** [str.strip()] *)
Fixpoint drop_spaces (l : list ascii) : list ascii :=
  match l with
  | c :: l' => if is_space c then drop_spaces l' else l
  | [] => []
  end.
Definition strip (s : string) : string :=
  unchars (reverse (drop_spaces (reverse (drop_spaces (chars s))))).
Definition lower (s : string) : string := unchars (map lower_char (chars s)).

(** A truthy optional string. *)
Definition truthy (o : option string) : option string :=
  match o with
  | Some s => if bool_decide (s = ""%string) then None else Some s
  | None => None
  end.

Definition houseless_key (c : PipelineContext) : option string :=
  match runtime_options c with
  | None => None
  | Some o =>
      let house := lower (strip (opt_house o)) in
      let agent := strip (opt_agent_id o) in
      if (opt_houseless o || bool_decide (house = "none"%string))
         && negb (bool_decide (agent = ""%string))
      then Some ("houseless:" +:+ agent) else None
  end.

(** [_substitute] *)
Definition substitute (c : PipelineContext) (token : string) : exn string :=
  if bool_decide (token = "context.chat_id"%string) then
    match truthy (chat_id c) with
    | Some s => Ok s
    | None => Raise (ValueError "request did not provide chat_id")
    end
  else if bool_decide (token = "context.dispatch_thread_id"%string) then
    match truthy (dispatch_thread_id c) with
    | Some s => Ok s
    | None => match houseless_key c with
              | Some k => Ok k
              | None => Raise (ValueError "request did not provide dispatch_thread_id")
              end
    end
  else Raise (ValueError "unsupported placeholder").

Definition lbrace : ascii := "{"%char.
Definition rbrace : ascii := "}"%char.

(** [_PLACEHOLDER_RE.sub]: [open] holds, in reverse, the characters since a
    ["{"] that may start a match of [\{([^{}]+)\}]. *)
Fixpoint render_from (c : PipelineContext) (open : option (list ascii)) (l : list ascii)
    : exn (list ascii) :=
  match l, open with
  | [], None => Ok []
  | [], Some acc => Ok (lbrace :: reverse acc)
  | x :: l', None =>
      if Ascii.eqb x lbrace then render_from c (Some []) l'
      else let? r := render_from c None l' in Ok (x :: r)
  | x :: l', Some acc =>
      if Ascii.eqb x rbrace then
        match acc with
        | [] => let? r := render_from c None l' in Ok (lbrace :: rbrace :: r)
        | _ => let? v := substitute c (unchars (reverse acc)) in
               let? r := render_from c None l' in Ok (chars v ++ r)
        end
      else if Ascii.eqb x lbrace then
        let? r := render_from c (Some []) l' in Ok (lbrace :: reverse acc ++ r)
      else render_from c (Some (x :: acc)) l'
  end.

Definition render_key (c : PipelineContext) (template : string) : exn string :=
  let? r := render_from c None (chars template) in Ok (unchars r).

Example render_ex :
  render_key (mkContext (Some "42"%string) None None) "a{}{chat:{context.chat_id}}"
  = Ok "a{}{chat:42}"%string.
Proof. vm_compute. reflexivity. Qed.

(** ** Templates as pieces *)

Inductive Piece :=
  | Lit (s : list ascii)
  | Hole (token : list ascii).

Definition no_brace (l : list ascii) : bool :=
  forallb (fun x => negb (Ascii.eqb x lbrace) && negb (Ascii.eqb x rbrace)) l.
Definition piece_ok (p : Piece) : bool :=
  match p with
  | Lit s => forallb (fun x => negb (Ascii.eqb x lbrace)) s
  | Hole t => no_brace t && negb (bool_decide (t = []))
  end.
Definition write_piece (p : Piece) : list ascii :=
  match p with Lit s => s | Hole t => lbrace :: t ++ [rbrace] end.
Fixpoint fill (c : PipelineContext) (ps : list Piece) : exn (list ascii) :=
  match ps with
  | [] => Ok []
  | Lit s :: ps' => let? r := fill c ps' in Ok (s ++ r)
  | Hole t :: ps' => let? v := substitute c (unchars t) in
                     let? r := fill c ps' in Ok (chars v ++ r)
  end.

Lemma exn_bind_assoc {A B C} (m : exn A) (k : A -> exn B) (h : B -> exn C) :
  exn_bind (exn_bind m k) h = exn_bind m (fun x => exn_bind (k x) h).
Proof. by destruct m. Qed.

Lemma exn_bind_ret {A} (m : exn A) : exn_bind m Ok = m.
Proof. by destruct m. Qed.

Lemma render_literal c s l : forallb (fun x => negb (Ascii.eqb x lbrace)) s = true ->
  render_from c None (s ++ l) = let? r := render_from c None l in Ok (s ++ r).
Proof.
  induction s as [|x s IH]; simpl; intros H; [by rewrite exn_bind_ret|].
  apply andb_true_iff in H as [Hx Hs]. apply negb_true_iff in Hx. rewrite Hx, IH by done.
  by rewrite exn_bind_assoc.
Qed.

Lemma render_token c t acc l : no_brace t = true ->
  render_from c (Some acc) (t ++ l) = render_from c (Some (reverse t ++ acc)) l.
Proof.
  revert acc. induction t as [|x t IH]; simpl; intros acc H; [done|].
  apply andb_true_iff in H as [Hx Ht]. apply andb_true_iff in Hx as [Hl Hr].
  apply negb_true_iff in Hl, Hr. rewrite Hl, Hr, IH by done. f_equal.
  by rewrite reverse_cons, <- app_assoc.
Qed.

(** A template written from pieces (texts without an opening brace, and
    placeholders) renders to the pieces with each placeholder replaced by its
    value, and raises exactly where the leftmost placeholder without a value
    does: unknown name, missing or empty attribute. *)
Theorem render_key_pieces c ps :
  forallb piece_ok ps = true ->
  render_key c (unchars (flat_map write_piece ps)) = let? r := fill c ps in Ok (unchars r).
Proof.
  intros H. unfold render_key. rewrite chars_unchars. f_equal.
  induction ps as [|[s|t] ps IH]; simpl in *; [done| |]; apply andb_true_iff in H as [Hp Hs].
  - by rewrite render_literal, IH.
  - apply andb_true_iff in Hp as [Hb Hn]. rewrite <- app_assoc, render_token by done.
    rewrite app_nil_r. cbn. destruct (reverse t) as [|y acc] eqn:E.
    + apply (f_equal reverse) in E. rewrite reverse_involutive in E. by subst.
    + by rewrite <- E, reverse_involutive, IH.
Qed.

Lemma render_key_pieces_witness :
  render_key (mkContext None (Some "t1"%string) None) "thread:{context.dispatch_thread_id}"
  = Ok "thread:t1"%string.
Proof.
  apply (render_key_pieces (mkContext None (Some "t1"%string) None)
           [Lit (chars "thread:"); Hole (chars "context.dispatch_thread_id")]).
  vm_compute. reflexivity.
Defined.

(** ** Executions *)

Lemma map_delete_perm {A C} (f : A -> C) (l : list A) i x :
  l !! i = Some x -> map f l ≡ₚ f x :: map f (delete i l).
Proof. intros Hi. exact (Permutation_map f (delete_Permutation l i x Hi)). Qed.

(** [maybe_concurrency_gate] around every pipeline run that declares a key:
    [acquire] on entry, the body, [release] on every exit. *)
Section Executions.
Context {B T : Type} `{ConcurrencyBackend B T}.

Record Executions := mkExecs {
  backend : B;
  seen_ids : gset string;
  running : list (string * string);
  blocked : list (string * (string * T))
}.

Inductive ExecOp :=
  | EStart (now : Q) (execution_id key : string)
  | EWake (why : GateWake) (i : nat)
  | EFinish (i : nat).

(** How an entry that failed ends: time-outs get their own class. *)
Definition entry_error (key : string) (e : error) : error :=
  match e with TimeoutError => ConcurrencyLockTimeoutError key | _ => e end.

(** The world after a stretch, and the error its execution raised if any. *)
Definition run_exec (o : ExecOp) (w : Executions) : exn (Executions * option error) :=
  match o with
  | EStart now rid key =>
      let ids := {[rid]} ∪ seen_ids w in
      match backend_acquire now key rid (backend w) with
      | (Granted, b) => Ok (mkExecs b ids ((rid, key) :: running w) (blocked w), None)
      | (Suspended t, b) => Ok (mkExecs b ids (running w) ((rid, (key, t)) :: blocked w), None)
      | (Failed e, b) => Ok (mkExecs b ids (running w) (blocked w), Some (entry_error key e))
      end
  | EWake why i =>
      match blocked w !! i with
      | None => Ok (w, None)
      | Some (rid, (key, t)) =>
          match backend_resume why t (backend w) with
          | (Granted, b) =>
              Ok (mkExecs b (seen_ids w) ((rid, key) :: running w) (delete i (blocked w)), None)
          | (Suspended _, b) => Ok (mkExecs b (seen_ids w) (running w) (blocked w), None)
          | (Failed e, b) =>
              Ok (mkExecs b (seen_ids w) (running w) (delete i (blocked w)), Some (entry_error key e))
          end
      end
  | EFinish i =>
      match running w !! i with
      | None => Ok (w, None)
      | Some (_, key) =>
          let? b := backend_release key (backend w) in
          Ok (mkExecs b (seen_ids w) (delete i (running w)) (blocked w), None)
      end
  end.

(** Execution ids are not reused. *)
Definition exec_enabled (o : ExecOp) (w : Executions) : bool :=
  match o with EStart _ rid _ => negb (bool_decide (rid ∈ seen_ids w)) | _ => true end.

Inductive exec_reachable : Executions -> Prop :=
  | ER_init : exec_reachable (mkExecs backend_new ∅ [] [])
  | ER_step w o w' e : exec_reachable w -> exec_enabled o w = true ->
      run_exec o w = Ok (w', e) -> exec_reachable w'.

Definition keys_held (w : Executions) : list string := map snd (running w).

Context `{!ConcurrencyBackendLaws B T}.

(** The backend is in order for the executions of [w], and for holders [ghost]
    that are none of them. *)
Definition served (ghost : list string) (w : Executions) : Prop :=
  serves (backend w) (seen_ids w) (ghost ++ keys_held w) (map snd (blocked w)).

Lemma exec_ok ghost o w : served ghost w -> exec_enabled o w = true ->
  exists w' e, run_exec o w = Ok (w', e) /\ served ghost w'.
Proof.
  unfold served. intros Hs He. destruct o as [now rid key|why i|i]; simpl in *.
  - apply negb_true_iff, bool_decide_eq_false in He.
    pose proof (serves_acquire now key rid _ _ _ _ Hs He) as Ha.
    destruct (backend_acquire now key rid (backend w)) as [[|t|e] b]; eexists _, _; split; try done.
    eapply serves_perm; [exact Ha | apply Permutation_middle | done].
  - destruct (blocked w !! i) as [[rid [key t]]|] eqn:Ei; [|eexists _, _; by split].
    pose proof (serves_resume why key t (backend w) (seen_ids w) (ghost ++ keys_held w)
                  (map snd (delete i (blocked w)))) as Hr.
    specialize (Hr (serves_perm _ _ _ _ _ _ Hs (reflexivity _) (map_delete_perm snd _ _ _ Ei))).
    destruct (backend_resume why t (backend w)) as [[|t'|e] b]; eexists _, _; split; try done; simpl.
    + eapply serves_perm; [exact Hr | apply Permutation_middle | done].
    + destruct Hr as [-> Hr]. eapply serves_perm; [exact Hr | done|].
      symmetry. by apply (map_delete_perm snd _ _ _ Ei).
  - destruct (running w !! i) as [[rid key]|] eqn:Ei; [|eexists _, _; by split].
    destruct (serves_release key (backend w) (seen_ids w) (ghost ++ map snd (delete i (running w)))
                (map snd (blocked w))) as (b & -> & Hb); [|eexists _, _; by split].
    eapply serves_perm; [exact Hs | | done]. rewrite Permutation_middle. apply Permutation_app_head.
    by apply (map_delete_perm snd _ _ _ Ei).
Qed.

Lemma exec_reachable_served w : exec_reachable w -> served [] w.
Proof.
  induction 1 as [|w o w' e _ IH He Hr]; [apply serves_new|].
  destruct (exec_ok [] o w IH He) as (w'' & e' & Hr' & Hs). rewrite Hr in Hr'. by injection Hr' as <- _.
Qed.

(** What any backend that keeps its promise gives the pipelines. *)
Lemma serialised w : exec_reachable w ->
  NoDup (keys_held w) /\ forall o, exec_enabled o w = true -> is_ok (run_exec o w) = true.
Proof.
  intros Hr%exec_reachable_served. split; [by eapply serves_exclusive|].
  intros o Ho. destruct (exec_ok [] o w Hr Ho) as (w' & e & -> & _). done.
Qed.

End Executions.
Arguments Executions B T : clear implicits.

Notation Pipelines := (Executions InProcessConcurrencyBackend (nat * nat)).

(** C29: with the in-process backend, however executions start, wait, time out,
    are cancelled and finish, at most one execution holds a key at any moment,
    and leaving the gate never raises (the release of a held key always finds
    its gate and its slot). *)
Theorem executions_serialised (w : Pipelines) :
  exec_reachable w ->
  NoDup (keys_held w) /\
  forall i, exists w', run_exec (EFinish i) w = Ok (w', None).
Proof.
  intros Hr%serialised. destruct Hr as [Hn Hok]. split; [done|]. intros i.
  specialize (Hok (EFinish i) eq_refl). unfold run_exec in *.
  destruct (running w !! i) as [[rid key]|]; [|by eexists].
  destruct (backend_release key (backend w)); [by eexists | done].
Qed.

Fixpoint run_execs (os : list ExecOp) (w : Pipelines) : exn Pipelines :=
  match os with
  | [] => Ok w
  | o :: os => if exec_enabled o w then let? r := run_exec o w in run_execs os (fst r) else Ok w
  end.

Lemma run_execs_reachable os w w' : exec_reachable w -> run_execs os w = Ok w' -> exec_reachable w'.
Proof.
  revert w. induction os as [|o os IH]; simpl; intros w Hw; [by intros [= <-]|].
  destruct (exec_enabled o w) eqn:He; [|by intros [= <-]]. intros Hr. inv_bind Hr.
  destruct a as [w1 e]. eapply IH; [by eapply ER_step | done].
Qed.

Definition no_execs : Pipelines := mkExecs backend_new ∅ [] [].

(** "e1" and "e2" on one key, then "e1" finishes. *)
Definition two_on_a_key : list ExecOp :=
  [EStart 0 "e1" "chat:1"; EStart 1 "e2" "chat:1"; EFinish 0].

Definition after (f : Pipelines -> bool) (os : list ExecOp) : bool :=
  match run_execs os no_execs with Ok w => f w | Raise _ => false end.

Lemma after_reachable f os : after f os = true -> exists w, exec_reachable w /\ f w = true.
Proof.
  unfold after. destruct (run_execs os no_execs) as [w|] eqn:E; [|done]. intros Hf.
  exists w. split; [eapply run_execs_reachable; [apply ER_init | exact E] | done].
Qed.

Lemma executions_serialised_witness :
  exists w : Pipelines, exec_reachable w /\ keys_held w = ["chat:1"; "chat:2"]%string /\
    NoDup (keys_held w).
Proof.
  destruct (after_reachable
    (fun w => bool_decide (keys_held w = ["chat:1"; "chat:2"]%string))
    [EStart 0 "e2" "chat:2"; EStart 0 "e1" "chat:1"; EStart 1 "e3" "chat:1"]) as (w & Hr & Hk).
  - vm_compute. reflexivity.
  - apply bool_decide_eq_true in Hk. exists w. split; [exact Hr|]. split; [exact Hk|].
    exact (proj1 (executions_serialised w Hr)).
Defined.

(** A slot nobody holds is as good as a holder that never leaves. *)
Lemma ghost_holder b used held waits key i g :
  in_order b used held waits -> gates b !! key = Some i -> heap b !! i = Some g ->
  Z.of_nat (S (times key held + granted g (of_key key waits))) <= active_count g ->
  in_order b used (key :: held) waits.
Proof.
  intros H Hk Hg Hl. pose proof (entry_gate _ _ _ _ _ _ H Hk) as (g' & Hg' & Hok).
  rewrite Hg in Hg'. injection Hg' as <-. destruct H as [He Hi]. split; [|done]. intros k.
  specialize (He k). destruct (decide (k = key)) as [->|Hne].
  - rewrite times_cons, String.eqb_refl. unfold entry_ok in *. rewrite Hk in *.
    destruct He as (Hlt & _). split; [done|]. exists g. split; [done|]. by destruct Hok; split.
  - by rewrite times_cons, (eqb_ne _ _ Hne).
Qed.

Lemma ghost_stays ghost os (w w' : Pipelines) :
  served ghost w -> run_execs os w = Ok w' -> served ghost w'.
Proof.
  revert w. induction os as [|o os IH]; intros w Hw; cbn [run_execs]; [by intros [= <-]|].
  destruct (exec_enabled o w) eqn:He; [|by intros [= <-]].
  destruct (exec_ok ghost o w Hw He) as (w1 & e & -> & Hs). by apply IH.
Qed.

(** The key's gate has a slot taken while nothing runs or waits. *)
Definition slot_lost (key : string) (w : Pipelines) : bool :=
  match running w, blocked w, gates (backend w) !! key with
  | [], [], Some i => match heap (backend w) !! i with
                      | Some g => active_count g =? 1
                      | None => false
                      end
  | _, _, _ => false
  end.

Definition cancelled_handover : list ExecOp := two_on_a_key ++ [EWake WakeTaskCancelled 0].

(** A cancelled hand-over locks its key for good.  "e2" waits for the key
    of "e1"; "e1" finishes, which hands the slot to "e2"; "e2" is cancelled
    before it runs, so its [acquire] raises and nothing is ever released.  No
    execution is left, and from then on, whatever executions come and go,
    none ever holds that key again. *)
Theorem key_locked_after_cancelled_handover :
  exists w, run_execs cancelled_handover no_execs = Ok w /\ running w = [] /\ blocked w = [] /\
    forall os w', run_execs os w = Ok w' -> "chat:1"%string ∉ keys_held w'.
Proof.
  assert (Hb : after (slot_lost "chat:1") cancelled_handover = true) by (vm_compute; reflexivity).
  unfold after in Hb. destruct (run_execs cancelled_handover no_execs) as [w|] eqn:Ew; [|done].
  assert (Hr : exec_reachable w) by (eapply run_execs_reachable; [apply ER_init | exact Ew]).
  apply exec_reachable_served in Hr. exists w. split; [done|]. unfold slot_lost in Hb.
  destruct (running w) eqn:Er; [|done]. destruct (blocked w) eqn:Eb; [|done].
  split; [done|]. split; [done|]. destruct (gates (backend w) !! _) as [i|] eqn:Ei; [|done].
  destruct (heap (backend w) !! i) as [g|] eqn:Eg; [|done]. to_prop.
  assert (Hg : served ["chat:1"%string] w).
  { unfold served, keys_held in Hr |- *. rewrite Er, Eb in Hr |- *.
    apply (ghost_holder _ _ [] [] _ i g); [exact Hr | exact Ei | exact Eg|].
    change (1 <= active_count g). lia. }
  intros os w' Ho. apply (ghost_stays _ _ _ _ Hg) in Ho. apply serves_exclusive in Ho.
  by apply NoDup_cons in Ho as [Ho _].
Qed.
