(* ===== verification/PipelineStep.v ===== *)
(** * Steps of a pipeline and the steps they depend on
    ([pipeline/core/step_types.py], [step_config/config.py], [conditions.py])

    [InputBinding.parse] and [StepConfig.computed_depends_on].  Paths are
    relative to src/services/universal-stargate/systems.

    A Python [set] of step ids is the duplicate-free list of its elements in
    insertion order; the theorems about graphs hold for any order. *)
From stdpp Require Import base gmap sets list strings relations.
From Stdlib Require Import Ascii ZArith Lia.
From S2P Require Import Prelude PyString.

(** ** Sets of step ids *)

(** [s.add(x)] *)
Definition set_add (x : string) (s : list string) : list string :=
  if decide (x ∈ s) then s else s ++ [x].

Definition set_add_all (xs s : list string) : list string :=
  fold_left (fun acc x => set_add x acc) xs s.

(** ** Bindings *)

Record InputBinding := mkBinding {
  namespace : string;
  step_name : option string;
  field_path : string;
  declared_type : option string
}.

Definition NAMESPACES : list string := ["sourceNs"; "optionsNs"; "loopNs"; "mapNs"]%string.

(** [InputBinding.parse] *)
Definition parse_binding (binding_str : string) : exn InputBinding :=
  let l := chars binding_str in
  if negb (count_char lbracket l =? count_char rbracket l)%nat
  then Raise (ValueError "Unbalanced brackets in binding")
  else
    match split1 dot (fst (split1 lbracket l)) with
    | (_, None) => Raise (ValueError "Invalid binding: missing field path")
    | (prefix, Some base_field_path) =>
        let full_field_path :=
          if (0 <? count_char lbracket l)%nat
          then get_or [] (snd (split1 dot l)) else base_field_path in
        if bool_decide (unchars prefix ∈ NAMESPACES)
        then Ok (mkBinding (unchars prefix) None (unchars full_field_path) None)
        else Ok (mkBinding "step" (Some (unchars prefix)) (unchars full_field_path) None)
    end.

(** ** Step configurations

    Values of the YAML a step was loaded from, as far as the graph looks at
    them.  [model_extra] holds the fields the schema does not declare. *)
Inductive Yaml : Type :=
  | YNull
  | YBool (b : bool)
  | YInt (z : Z)
  | YStr (s : string)
  | YList (l : list Yaml)
  | YDict (d : list (string * Yaml)).

Inductive StepConfig : Type := mkStep {
  step_id : string;
  step_type : string;
  handler_inputs : list (string * InputBinding);
  reads_from : list string;
  map_config : option (list (string * Yaml));
  condition : option string;
  step_inputs : option (list string);
  model_extra : list (string * Yaml);
  sub_pipeline_spec : option SubPipelineSpec
}
with SubPipelineSpec : Type := mkSub {
  sub_id : string;
  sub_inputs : list string;
  sub_steps : list StepConfig;
  sub_output : string
}.

Definition binding_step (b : InputBinding) : option string :=
  if bool_decide (namespace b = "step"%string)
  then match step_name b with
       | Some s => if bool_decide (s = ""%string) then None else Some s
       | None => None
       end
  else None.

Definition list_of_option {A} (o : option A) : list A :=
  match o with Some a => [a] | None => [] end.

Definition handler_input_deps (s : StepConfig) : list string :=
  List.concat (map (fun kb => list_of_option (binding_step (snd kb))) (handler_inputs s)).

(** The string values of [map_config["map_over"]], parsed as bindings. *)
Fixpoint map_over_deps (vs : list (string * Yaml)) : exn (list string) :=
  match vs with
  | [] => Ok []
  | (_, YStr binding_str) :: vs' =>
      let? b := parse_binding binding_str in
      let? ds := map_over_deps vs' in
      Ok (list_of_option (binding_step b) ++ ds)
  | _ :: vs' => map_over_deps vs'
  end.

(** An empty [map_config] is falsy; [{}] is the default of [.get]. *)
Definition map_config_deps (s : StepConfig) : exn (list string) :=
  match map_config s with
  | None | Some [] => Ok []
  | Some mc =>
      match dget "map_over"%string mc with
      | None => Ok []
      | Some (YDict d) => map_over_deps d
      | Some _ => Raise AttributeError
      end
  end.

Definition step_field_deps (d : list (string * Yaml)) : list string :=
  List.concat (map (fun kv => match kv with
                              | (k, YStr v) => if ends_with "_step" k then [v] else []
                              | _ => []
                              end) d).

Definition extra_deps (s : StepConfig) : list string :=
  List.concat (map (fun kv => match kv with
                              | (k, YStr v) => if ends_with "_step" k then [v] else []
                              | (k, YDict d) =>
                                  if bool_decide (k = "config"%string)
                                  then step_field_deps d else []
                              | _ => []
                              end) (model_extra s)).

(** [get_domain_field] *)
Definition get_domain_field (field : string) (s : StepConfig) : option Yaml :=
  dget field (model_extra s).

(** ** Conditions *)

Definition SAFE_BUILTINS : list string :=
  ["len"; "bool"; "str"; "int"; "float"; "abs"; "min"; "max"; "sum"; "any"; "all";
   "True"; "False"; "None"]%string.

Definition KNOWN_CONDITION_NAMES : list string :=
  ["scope_scoped"; "chunks_present"; "catalog_unavailable"]%string.

Section Dependencies.

(** [cond_names c]: the identifiers of the [Name] nodes of the parsed
    expression, [None] for a syntax error.  [dependency_fields t]: what the
    registered handler of type [t] declares. *)
Context (cond_names : string -> option (list string)).
Context (dependency_fields : string -> list string).

Definition extract_condition_deps (condition : string) : list string :=
  if bool_decide (strip condition = ""%string) then []
  else if bool_decide (strip condition ∈ KNOWN_CONDITION_NAMES) then []
  else match cond_names condition with
       | None => []
       | Some names =>
           List.filter (fun n => negb (bool_decide (n ∈ "options"%string :: SAFE_BUILTINS))) names
       end.

Definition declared_field_deps (s : StepConfig) : list string :=
  List.concat (map (fun f => match get_domain_field f s with
                             | Some (YList items) =>
                                 List.concat (map (fun i => match i with YStr v => [v] | _ => [] end) items)
                             | _ => []
                             end) (dependency_fields (step_type s))).

Definition computed_depends_on (s : StepConfig) : exn (list string) :=
  let? mapped := map_config_deps s in
  let cond := match condition s with
              | Some c => extract_condition_deps c
              | None => [] end in
  Ok (set_add_all (handler_input_deps s ++ reads_from s ++ mapped ++ extra_deps s
                   ++ cond ++ declared_field_deps s) []).

End Dependencies.

(** ** Examples *)

Example parse_step_binding :
  parse_binding "extract.json" = Ok (mkBinding "step" (Some "extract"%string) "json" None).
Proof. reflexivity. Qed.

Example parse_index_binding :
  parse_binding "optionsNs.models[0].id" = Ok (mkBinding "optionsNs" None "models[0].id" None).
Proof. reflexivity. Qed.

Example parse_bare : parse_binding "a[x.y]" = Raise (ValueError "Invalid binding: missing field path").
Proof. reflexivity. Qed.

(** ** Bindings parse exactly as they print *)

(** The text of a binding in a pipeline file. *)
Definition print_binding (b : InputBinding) : string :=
  get_or (namespace b) (step_name b) +:+ "." +:+ field_path b.

(** What the text can express: a reserved namespace, or a step whose name has
    no dot and no opening bracket; brackets balanced in number. *)
Definition wf_binding (b : InputBinding) : Prop :=
  declared_type b = None /\
  match step_name b with
  | None => namespace b ∈ NAMESPACES
  | Some s => namespace b = "step"%string /\ s ∉ NAMESPACES /\
              no_char dot (chars s) = true /\ no_char lbracket (chars s) = true
  end /\
  count_char lbracket (chars (print_binding b)) = count_char rbracket (chars (print_binding b)).

Lemma chars_print_binding b :
  chars (print_binding b) = chars (get_or (namespace b) (step_name b)) ++ dot :: chars (field_path b).
Proof. unfold print_binding. by rewrite !chars_app. Qed.

Lemma namespaces_plain s : s ∈ NAMESPACES ->
  no_char dot (chars s) = true /\ no_char lbracket (chars s) = true.
Proof.
  unfold NAMESPACES. rewrite !elem_of_cons, elem_of_nil.
  intros [->|[->|[->|[->|[]]]]]; split; reflexivity.
Qed.

(** The dot that separates the prefix is the first one of the whole text and
    of the text before the first bracket. *)
Lemma split_binding a p :
  no_char dot a = true -> no_char lbracket a = true ->
  let l := a ++ dot :: p in
  split1 dot l = (a, Some p) /\
  exists p', split1 dot (fst (split1 lbracket l)) = (a, Some p') /\
             (count_char lbracket l = 0%nat -> p' = p).
Proof.
  intros Hd Hb l. split; [by apply split1_app|].
  pose proof (split1_spec lbracket l) as Hs.
  destruct (split1 lbracket l) as [base [r|]] eqn:E; simpl.
  - destruct Hs as [Hl Hn]. subst l.
    assert (Hbase : exists p', base = a ++ dot :: p').
    { clear -Hl Hb. revert base Hl. induction a as [|x a IH]; intros [|y base] Hl; simpl in *.
      - by injection Hl.
      - injection Hl as <- Hl. by exists base.
      - injection Hl as -> Hl. simpl in Hb. discriminate Hb.
      - injection Hl as <- Hl. apply andb_true_iff in Hb as [_ Hb].
        destruct (IH Hb base Hl) as [p' ->]. by exists p'. }
    destruct Hbase as [p' ->]. exists p'. split; [by apply split1_app|].
    intros Hz. rewrite Hl, count_char_app in Hz. unfold count_char in Hz. simpl in Hz. lia.
  - destruct Hs as [<- _]. exists p. split; [by apply split1_app | done].
Qed.

Lemma parse_binding_prefix a p :
  no_char dot a = true -> no_char lbracket a = true ->
  let l := a ++ dot :: p in
  count_char lbracket l = count_char rbracket l ->
  parse_binding (unchars l) =
    Ok (if bool_decide (unchars a ∈ NAMESPACES)
        then mkBinding (unchars a) None (unchars p) None
        else mkBinding "step" (Some (unchars a)) (unchars p) None).
Proof.
  intros Hd Hb l Hc. destruct (split_binding a p Hd Hb) as (E1 & p' & E2 & Hp).
  fold l in E1, E2, Hp. unfold parse_binding. rewrite chars_unchars, E1, E2. simpl.
  rewrite (proj2 (Nat.eqb_eq _ _) Hc). simpl.
  destruct (Nat.ltb_spec 0 (count_char lbracket l)); [|rewrite Hp by lia]; by case_bool_decide.
Qed.

(** Parsing a binding is the inverse of printing it.  A text parses to a
    binding exactly when the binding prints to that text and is expressible:
    its prefix has no dot or bracket, is a namespace or the name of a step,
    and the brackets balance; every other text is rejected. *)
Theorem parse_binding_roundtrip s b :
  parse_binding s = Ok b <-> print_binding b = s /\ wf_binding b.
Proof.
  split.
  - unfold parse_binding.
    destruct (Nat.eqb_spec (count_char lbracket (chars s)) (count_char rbracket (chars s))) as [Hc|]; [simpl|done].
    destruct (split1 dot _) as [a [p'|]] eqn:E; [|done].
    pose proof (split1_spec dot (fst (split1 lbracket (chars s)))) as Hs. rewrite E in Hs.
    destruct Hs as [Hbase Hd].
    pose proof (split1_spec lbracket (chars s)) as Hl.
    assert (exists p, chars s = a ++ dot :: p) as [p Hp].
    { destruct (split1 lbracket (chars s)) as [base [r|]]; destruct Hl as [Hl _];
        simpl in Hbase; rewrite Hl, Hbase, <- ?app_assoc; by eexists. }
    assert (Hb : no_char lbracket a = true).
    { destruct (split1 lbracket (chars s)) as [base [r|]]; destruct Hl as [_ Hl];
        simpl in Hbase; rewrite Hbase, no_char_app in Hl; by apply andb_true_iff in Hl as [? _]. }
    intros Hr. pose proof (parse_binding_prefix a p Hd Hb) as Hpp. simpl in Hpp.
    rewrite <- Hp in Hpp. specialize (Hpp Hc).
    rewrite unchars_chars in Hpp. unfold parse_binding in Hpp. rewrite E in Hpp.
    rewrite (proj2 (Nat.eqb_eq _ _) Hc) in Hpp. simpl in Hpp, Hr. rewrite Hr in Hpp.
    injection Hpp as ->.
    assert (Hpr : print_binding (if bool_decide (unchars a ∈ NAMESPACES)
        then mkBinding (unchars a) None (unchars p) None
        else mkBinding "step" (Some (unchars a)) (unchars p) None) = s).
    { apply chars_inj. rewrite chars_print_binding, Hp. by case_bool_decide; simpl; rewrite !chars_unchars. }
    split; [exact Hpr|]. unfold wf_binding. rewrite Hpr.
    case_bool_decide; simpl; rewrite ?chars_unchars; tauto.
  - intros [<- (Ht & Hn & Hc)]. rewrite chars_print_binding in Hc.
    rewrite <- (unchars_chars (print_binding b)), chars_print_binding.
    destruct b as [ns [n|] fp dt]; simpl in *; subst dt.
    + destruct Hn as (-> & Hni & Hd & Hb). rewrite parse_binding_prefix by done.
      rewrite bool_decide_false by (by rewrite unchars_chars). by rewrite !unchars_chars.
    + destruct (namespaces_plain ns Hn) as [Hd Hb]. rewrite parse_binding_prefix by done.
      rewrite bool_decide_true by (by rewrite unchars_chars). by rewrite !unchars_chars.
Qed.

(** ** Sets *)

Lemma elem_of_set_add x y s : y ∈ set_add x s <-> y = x \/ y ∈ s.
Proof.
  unfold set_add. case_decide; [naive_solver|]. rewrite elem_of_app, list_elem_of_singleton. naive_solver.
Qed.

Lemma NoDup_set_add x s : NoDup s -> NoDup (set_add x s).
Proof.
  intros H. unfold set_add. case_decide; [done|]. apply NoDup_app.
  split; [done|]. split; [set_solver | apply NoDup_singleton].
Qed.

Lemma elem_of_set_add_all xs s y : y ∈ set_add_all xs s <-> y ∈ xs \/ y ∈ s.
Proof.
  unfold set_add_all. revert s. induction xs as [|x xs IH]; intros s; simpl; [set_solver|].
  rewrite IH, elem_of_set_add, elem_of_cons. naive_solver.
Qed.

Lemma NoDup_set_add_all xs s : NoDup s -> NoDup (set_add_all xs s).
Proof.
  unfold set_add_all. revert s. induction xs as [|x xs IH]; intros s Hs; simpl; [done|].
  by apply IH, NoDup_set_add.
Qed.

#[export] Hint Resolve NoDup_set_add NoDup_set_add_all : routing.

Lemma computed_depends_on_nodup cn df s deps :
  computed_depends_on cn df s = Ok deps -> NoDup deps.
Proof.
  unfold computed_depends_on. intros H. inv_bind H. injection H as <-.
  apply NoDup_set_add_all. constructor.
Qed.
