(* ===== verification/PipelineDag.v ===== *)
(** * The dependency graph of a pipeline ([pipeline/core/dag.py])

    [DAGBuilder]: the node table, its reverse edges, the validation of
    references, cycle detection by a three-colour depth-first search, and the
    initially ready steps.  Expansion of sub-pipelines, which [build] does
    first, is in [PipelineExpansion.v].

    A Python [set] of step ids is the duplicate-free list of its elements in
    some order; [well_formed] graphs are taken in any order. *)
From stdpp Require Import base gmap sets list strings relations.
From Stdlib Require Import Ascii ZArith Lia.
From S2P Require Import Prelude PyString PipelineStep.

Inductive StepState : Type := PENDING | READY | RUNNING | COMPLETED | SKIPPED | FAILED.

#[export] Instance StepState_eq_dec : EqDecision StepState.
Proof. solve_decision. Defined.

(** [output] and [error] are filled in by the executor. *)
Record StepNode := mkNode {
  step : StepConfig;
  state : StepState;
  dependencies : list string;
  dependents : list string
}.

(** The node table: an insertion-ordered dict. *)
Definition Nodes : Type := list (string * StepNode).

Definition with_state (s : StepState) (n : StepNode) : StepNode :=
  mkNode (step n) s (dependencies n) (dependents n).

Definition with_dependents (ds : list string) (n : StepNode) : StepNode :=
  mkNode (step n) (state n) (dependencies n) ds.

(** ** Building *)

Section Build.
Context (cond_names : string -> option (list string)).
Context (dependency_fields : string -> list string).

(** The first loop of [build]. *)
Fixpoint create_nodes (steps : list StepConfig) (nodes : Nodes) : exn Nodes :=
  match steps with
  | [] => Ok nodes
  | s :: steps' =>
      let? deps := computed_depends_on cond_names dependency_fields s in
      create_nodes steps' (dset (step_id s) (mkNode s PENDING deps []) nodes)
  end.

(** The inner and outer loops that validate references and add the reverse
    edges.  Only [dependents] change, so the items may be taken up front. *)
Fixpoint link_deps (sid : string) (deps : list string) (nodes : Nodes) : exn Nodes :=
  match deps with
  | [] => Ok nodes
  | dep :: deps' =>
      match dget dep nodes with
      | None => Raise (UnknownDependency sid dep)
      | Some n => link_deps sid deps' (dset dep (with_dependents (set_add sid (dependents n)) n) nodes)
      end
  end.

Fixpoint link_all (items nodes : Nodes) : exn Nodes :=
  match items with
  | [] => Ok nodes
  | (sid, n) :: items' =>
      let? nodes' := link_deps sid (dependencies n) nodes in
      link_all items' nodes'
  end.

(** [_validate_inputs_refs] *)
Fixpoint check_inputs (sid : string) (inputs : list string) (nodes : Nodes) : exn unit :=
  match inputs with
  | [] => Ok tt
  | i :: inputs' =>
      match dget i nodes with
      | None => Raise (UnknownInput sid i)
      | Some _ => check_inputs sid inputs' nodes
      end
  end.

Fixpoint validate_inputs_refs (items nodes : Nodes) : exn unit :=
  match items with
  | [] => Ok tt
  | (sid, n) :: items' =>
      let? _ := check_inputs sid (get_or [] (step_inputs (step n))) nodes in
      validate_inputs_refs items' nodes
  end.

(** *** [_detect_cycles] *)

Inductive Color : Type := white | gray | black.

#[export] Instance Color_eq_dec : EqDecision Color.
Proof. solve_decision. Defined.

(** [path[path.index(x):]] *)
Fixpoint from_index (x : string) (path : list string) : list string :=
  match path with
  | [] => []
  | y :: path' => if decide (x = y) then path else from_index x path'
  end.

(** [dfs] with its inner loop.  [path] is restored by the [pop] after the
    loop, so it is passed by value.  [fuel] bounds the depth of the
    recursion; running out is Python's [RecursionError]. *)
Fixpoint dfs (fuel : nat) (nodes : Nodes) (sid : string) (path : list string)
    (colors : gmap string Color) : exn (gmap string Color) :=
  match fuel with
  | O => Raise RecursionError
  | S fuel' =>
      match colors !! sid with
      | None => Raise KeyError
      | Some gray => Raise (CycleDetected (from_index sid path ++ [sid]))
      | Some black => Ok colors
      | Some white =>
          match dget sid nodes with
          | None => Raise KeyError
          | Some n =>
              let? colors' :=
                (fix visit (ds : list string) (c : gmap string Color) : exn (gmap string Color) :=
                   match ds with
                   | [] => Ok c
                   | d :: ds' => let? c' := dfs fuel' nodes d (path ++ [sid]) c in visit ds' c'
                   end) (dependents n) (<[sid := gray]> colors) in
              Ok (<[sid := black]> colors')
          end
      end
  end.

Definition visit (fuel : nat) (nodes : Nodes) (path : list string) :
    list string -> gmap string Color -> exn (gmap string Color) :=
  fix visit (ds : list string) (c : gmap string Color) : exn (gmap string Color) :=
    match ds with
    | [] => Ok c
    | d :: ds' => let? c' := dfs fuel nodes d path c in visit ds' c'
    end.

Definition all_white (nodes : Nodes) : gmap string Color :=
  list_to_map (map (fun k => (k, white)) (dkeys nodes)).

(** The outer loop; [dfs] returns at once on a step that is not white, so the
    guard only saves a call. *)
Fixpoint dfs_roots (fuel : nat) (nodes : Nodes) (ids : list string) (colors : gmap string Color) : exn (gmap string Color) :=
  match ids with
  | [] => Ok colors
  | sid :: ids' =>
      let? colors' := if decide (colors !! sid = Some white) then dfs fuel nodes sid [] colors
                      else Ok colors in
      dfs_roots fuel nodes ids' colors'
  end.

Definition detect_cycles (nodes : Nodes) : exn unit :=
  let? _ := dfs_roots (S (length nodes)) nodes (dkeys nodes) (all_white nodes) in Ok tt.

(** [_mark_ready_steps] *)
Definition mark_ready_steps (nodes : Nodes) : Nodes :=
  map (fun kn => (fst kn, if bool_decide (dependencies (snd kn) = []) then with_state READY (snd kn)
                          else snd kn)) nodes.

(** [DAGBuilder.build] on expanded steps. *)
Definition build_expanded (steps : list StepConfig) : exn Nodes :=
  let? created := create_nodes steps [] in
  let? nodes := link_all created created in
  let? _ := validate_inputs_refs nodes nodes in
  let? _ := detect_cycles nodes in
  Ok (mark_ready_steps nodes).

End Build.

(** ** Graphs *)

(** [b] waits for [a]. *)
Definition edge (nodes : Nodes) (a b : string) : Prop :=
  exists n, dget a nodes = Some n /\ b ∈ dependents n.

Definition acyclic (nodes : Nodes) : Prop := forall x, ~ tc (edge nodes) x x.

(** [dependencies] and [dependents] mirror each other. *)
Record well_formed (nodes : Nodes) : Prop := {
  wf_keys : NoDup (dkeys nodes);
  wf_deps_nodup : forall k n, dget k nodes = Some n -> NoDup (dependencies n);
  wf_dependents_nodup : forall k n, dget k nodes = Some n -> NoDup (dependents n);
  wf_mirror : forall a b, edge nodes a b <->
    exists n, dget b nodes = Some n /\ a ∈ dependencies n;
  wf_closed : forall k n d, dget k nodes = Some n -> d ∈ dependencies n -> is_Some (dget d nodes)
}.

(** ** Walks and cycles *)

Section Walks.
Context (nodes : Nodes).

Fixpoint walk (l : list string) : Prop :=
  match l with
  | x :: (y :: _) as l' => edge nodes x y /\ walk l'
  | _ => True
  end.

(** A closed walk, written as the error message prints it. *)
Definition is_cycle (c : list string) : Prop := exists x l, c = x :: l ++ [x] /\ walk c.

Lemma walk_cons x y l : walk (x :: y :: l) <-> edge nodes x y /\ walk (y :: l).
Proof. done. Qed.

Lemma walk_snoc l y : walk l -> (forall x, last l = Some x -> edge nodes x y) -> walk (l ++ [y]).
Proof.
  induction l as [|x l IH]; [done|]. destruct l as [|z l]; intros Hw Hl.
  - split; [by apply Hl | done].
  - apply walk_cons in Hw as [H1 H2]. split; [done|]. apply (IH H2). intros u Hu. by apply Hl.
Qed.

Lemma walk_suffix a b : walk (a ++ b) -> walk b.
Proof.
  induction a as [|x a IH]; [done|]. intros Hw. apply IH.
  destruct (a ++ b) as [|y l] eqn:E; [done|]. simpl in Hw. rewrite E in Hw. by destruct Hw.
Qed.

Lemma walk_tc x l y : walk (x :: l ++ [y]) -> tc (edge nodes) x y.
Proof.
  revert x. induction l as [|z l IH]; intros x [H1 H2]; [by apply tc_once|].
  eapply tc_l; [done|]. by apply IH.
Qed.

Lemma cycle_not_acyclic c : is_cycle c -> ~ acyclic nodes.
Proof. intros (x & l & -> & Hw) Ha. by apply (Ha x), (walk_tc x l x). Qed.

(** Well-foundedness along the edges excludes cycles. *)
Lemma acc_no_cycle x : Acc (fun a b => edge nodes b a) x -> ~ tc (edge nodes) x x.
Proof.
  induction 1 as [x _ IH]. intros Ht.
  assert (Hs : exists y, edge nodes x y /\ rtc (edge nodes) y x).
  { inversion Ht; subst; [by exists x | eauto using tc_rtc]. }
  destruct Hs as (y & Hxy & Hyx). apply (IH y Hxy).
  eapply tc_rtc_l; [exact Hyx|]. by apply tc_once.
Qed.

End Walks.

(** ** Depth-first search *)

Section Dfs.
Context (nodes : Nodes).
Context (Hclosed : forall a b, edge nodes a b -> b ∈ dkeys nodes).

(** The colours while [path] is being explored. *)
Record colored (path : list string) (c : gmap string Color) : Prop := {
  co_dom : forall k, is_Some (c !! k) <-> k ∈ dkeys nodes;
  co_gray : forall k, c !! k = Some gray <-> k ∈ path;
  co_nodup : NoDup path;
  co_walk : walk nodes path;
  co_black : forall k, c !! k = Some black -> Acc (fun a b => edge nodes b a) k
}.

Definition grows (c c' : gmap string Color) : Prop :=
  (forall k, c !! k = Some black -> c' !! k = Some black) /\
  (forall k, c' !! k = Some white -> c !! k = Some white).

Definition whites (c : gmap string Color) : nat :=
  length (List.filter (fun k => bool_decide (c !! k = Some white)) (dkeys nodes)).

Definition dfs_post (path : list string) (c : gmap string Color) (sids : list string) (r : exn (gmap string Color)) : Prop :=
  match r with
  | Ok c' => colored path c' /\ grows c c' /\ forall k, k ∈ sids -> c' !! k = Some black
  | Raise e => exists cyc, e = CycleDetected cyc /\ is_cycle nodes cyc
  end.

Lemma grows_refl c : grows c c.
Proof. by split. Qed.

Lemma grows_trans a b c : grows a b -> grows b c -> grows a c.
Proof. intros [H1 H2] [H3 H4]. split; auto. Qed.

Lemma whites_grows c c' : grows c c' -> (whites c' <= whites c)%nat.
Proof.
  intros [_ H]. apply lfilter_length_le. intros k _ Hk%bool_decide_eq_true.
  by apply bool_decide_eq_true, H.
Qed.

Lemma from_index_spec x path : x ∈ path -> exists a b, path = a ++ x :: b /\ from_index x path = x :: b.
Proof.
  induction path as [|y path IH]; simpl; [by inversion 1|]. intros Hx.
  destruct (decide (x = y)) as [->|Hne]; [by exists [], path|].
  apply elem_of_cons in Hx as [|Hx]; [done|]. destruct (IH Hx) as (a & b & -> & E).
  by exists (y :: a), b.
Qed.

(** Meeting a gray step closes a cycle. *)
Lemma gray_cycle path sid :
  walk nodes path -> sid ∈ path -> (forall x, last path = Some x -> edge nodes x sid) ->
  is_cycle nodes (from_index sid path ++ [sid]).
Proof.
  intros Hw Hin Hl. destruct (from_index_spec sid path Hin) as (a & b & -> & ->).
  exists sid, b. split; [done|].
  apply (walk_snoc nodes (sid :: b)); [by apply walk_suffix in Hw|].
  intros x Hx. apply Hl. by rewrite last_app, Hx.
Qed.

Lemma colored_enter path c sid :
  colored path c -> c !! sid = Some white -> (forall x, last path = Some x -> edge nodes x sid) ->
  colored (path ++ [sid]) (<[sid := gray]> c) /\ grows c (<[sid := gray]> c) /\
  (whites (<[sid := gray]> c) < whites c)%nat.
Proof.
  intros [Hd Hg Hn Hw Hb] Hc Hl.
  assert (Hni : sid ∉ path) by (intros Hin%Hg; congruence).
  assert (Hk : sid ∈ dkeys nodes) by (apply Hd; eauto).
  split; [split|split; [split|]].
  - intros k. destruct (decide (sid = k)) as [->|]; [rewrite lookup_insert_eq | by rewrite lookup_insert_ne].
    split; eauto.
  - intros k. rewrite elem_of_app, list_elem_of_singleton. destruct (decide (sid = k)) as [->|].
    + rewrite lookup_insert_eq. naive_solver.
    + rewrite lookup_insert_ne by done. rewrite Hg. naive_solver.
  - apply NoDup_app. split; [done|]. split; [|apply NoDup_singleton]. set_solver.
  - by apply walk_snoc.
  - intros k. destruct (decide (sid = k)) as [->|]; [by rewrite lookup_insert_eq | rewrite lookup_insert_ne by done; apply Hb].
  - intros k Hk'. rewrite lookup_insert_ne; [done | congruence].
  - intros k. destruct (decide (sid = k)) as [->|]; [by rewrite lookup_insert_eq | by rewrite lookup_insert_ne].
  - apply (lfilter_length_lt _ _ _ sid); [|done| by apply bool_decide_eq_true | apply bool_decide_eq_false; by rewrite lookup_insert_eq].
    intros k _ Hk'%bool_decide_eq_true. apply bool_decide_eq_true.
    destruct (decide (sid = k)) as [->|]; [by rewrite lookup_insert_eq in Hk' | by rewrite lookup_insert_ne in Hk'].
Qed.

Lemma colored_leave path c sid n :
  colored (path ++ [sid]) c -> dget sid nodes = Some n -> (forall d, d ∈ dependents n -> c !! d = Some black) ->
  colored path (<[sid := black]> c).
Proof.
  intros [Hd Hg Hn Hw Hb] Hs Hds. apply NoDup_app in Hn as (Hn & Hni & _).
  split; [| |done| |].
  - intros k. rewrite <- Hd. destruct (decide (sid = k)) as [->|]; [rewrite lookup_insert_eq | by rewrite lookup_insert_ne].
    assert (c !! k = Some gray) as -> by (apply Hg; set_solver). split; eauto.
  - intros k. destruct (decide (sid = k)) as [->|].
    + rewrite lookup_insert_eq. split; [done|]. intros Hin. exfalso. apply (Hni k Hin). set_solver.
    + rewrite lookup_insert_ne by done. rewrite Hg. set_solver.
  - clear -Hw. revert Hw. induction path as [|x path IH]; [done|].
    destruct path as [|y path]; [done|]. intros [H1 H2]. split; [done|]. by apply IH.
  - intros k. destruct (decide (sid = k)) as [->|]; [|rewrite lookup_insert_ne by done; apply Hb].
    intros _. constructor. intros d (n' & Hn' & Hd'). apply Hb, Hds. by simplify_eq.
Qed.

Lemma dfs_correct fuel : forall sid path c,
  colored path c -> sid ∈ dkeys nodes -> (forall x, last path = Some x -> edge nodes x sid) ->
  (whites c < fuel)%nat -> dfs_post path c [sid] (dfs fuel nodes sid path c).
Proof.
  induction fuel as [|fuel IH]; intros sid path c Hc Hk Hl Hf; [lia|]. simpl.
  destruct (proj2 (co_dom _ _ Hc sid) Hk) as [col Hcol]. rewrite Hcol. destruct col.
  2: { eexists. split; [reflexivity|]. apply gray_cycle; [apply Hc | by apply Hc | done]. }
  2: { split; [done|]. split; [apply grows_refl|]. by intros k ->%list_elem_of_singleton. }
  destruct (dget sid nodes) as [n|] eqn:Hn; [|by apply dget_None in Hn].
  destruct (colored_enter path c sid Hc Hcol Hl) as (Hc1 & Hg1 & Hw1).
  change (dfs_post path c [sid]
    (exn_bind (visit fuel nodes (path ++ [sid]) (dependents n) (<[sid := gray]> c))
       (fun colors' => Ok (<[sid := black]> colors')))).
  assert (Hv : forall ds c1, colored (path ++ [sid]) c1 -> (whites c1 < fuel)%nat ->
            (forall d, d ∈ ds -> edge nodes sid d) ->
            dfs_post (path ++ [sid]) c1 ds (visit fuel nodes (path ++ [sid]) ds c1)).
  { induction ds as [|d ds IHd]; intros c1 H1 H2 H3; simpl.
    { split; [done|]. split; [apply grows_refl|]. intros k Hin. inversion Hin. }
    assert (He : edge nodes sid d) by (apply H3; by left).
    pose proof (IH d (path ++ [sid]) c1 H1 (Hclosed _ _ He)
      ltac:(rewrite last_snoc; intros x [= <-]; exact He) H2) as Hd.
    destruct (dfs fuel nodes d (path ++ [sid]) c1) as [c2|e]; simpl; [|done].
    destruct Hd as (Hc2 & Hg2 & Hb2).
    specialize (IHd c2 Hc2 ltac:(pose proof (whites_grows _ _ Hg2); lia)
      ltac:(intros; apply H3; by right)).
    destruct (visit fuel nodes (path ++ [sid]) ds c2) as [c3|e]; [|done].
    destruct IHd as (Hc3 & Hg3 & Hb3). split; [done|]. split; [by eapply grows_trans|].
    intros k [->|Hin]%elem_of_cons; [|by apply Hb3]. apply Hg3, Hb2. by left. }
  specialize (Hv (dependents n) _ Hc1 ltac:(lia) ltac:(intros d Hd; by exists n)).
  destruct (visit _ _ _ _ _) as [c'|e]; simpl; [|done].
  destruct Hv as (Hc' & Hg' & Hb'). split; [by eapply colored_leave|].
  split; [|by intros k ->%list_elem_of_singleton; rewrite lookup_insert_eq].
  eapply grows_trans; [exact Hg1|]. eapply grows_trans; [exact Hg'|]. split; intros k.
  - destruct (decide (sid = k)) as [->|]; [by rewrite lookup_insert_eq | by rewrite lookup_insert_ne].
  - destruct (decide (sid = k)) as [->|]; [by rewrite lookup_insert_eq | by rewrite lookup_insert_ne].
Qed.

Lemma dfs_roots_correct fuel ids : forall c,
  colored [] c -> (forall k, k ∈ ids -> k ∈ dkeys nodes) -> (whites c < fuel)%nat ->
  dfs_post [] c ids (dfs_roots fuel nodes ids c).
Proof.
  induction ids as [|sid ids IH]; intros c Hc Hin Hf; simpl.
  { split; [done|]. split; [apply grows_refl|]. intros k Hk. inversion Hk. }
  assert (Hs : sid ∈ dkeys nodes) by (apply Hin; by left).
  assert (H1 : dfs_post [] c [sid] (if decide (c !! sid = Some white) then dfs fuel nodes sid [] c else Ok c)).
  { destruct (decide (c !! sid = Some white)); [by apply dfs_correct|].
    split; [done|]. split; [apply grows_refl|]. intros k ->%list_elem_of_singleton.
    destruct (proj2 (co_dom _ _ Hc sid) Hs) as [[] Hcol]; [done| |done].
    apply (co_gray _ _ Hc) in Hcol. inversion Hcol. }
  destruct (if decide _ then _ else _) as [c1|e]; simpl; [|done].
  destruct H1 as (Hc1 & Hg1 & Hb1).
  specialize (IH c1 Hc1 ltac:(intros; apply Hin; by right) ltac:(pose proof (whites_grows _ _ Hg1); lia)).
  destruct (dfs_roots fuel nodes ids c1) as [c2|e]; [|done].
  destruct IH as (Hc2 & Hg2 & Hb2). split; [done|]. split; [by eapply grows_trans|].
  intros k [->|Hk]%elem_of_cons; [|by apply Hb2]. apply Hg2, Hb1. by left.
Qed.

Lemma lookup_all_white k : all_white nodes !! k = if decide (k ∈ dkeys nodes) then Some white else None.
Proof.
  clear Hclosed. unfold all_white, dkeys. induction nodes as [|[a n] l IH]; simpl; [done|].
  destruct (decide (a = k)) as [->|Hne].
  - rewrite lookup_insert_eq, decide_True by (by left). done.
  - rewrite lookup_insert_ne, IH by done. apply decide_ext. rewrite elem_of_cons.
    split; [by right | intros [->|]; [done|done]].
Qed.

Lemma colored_start : colored [] (all_white nodes).
Proof.
  split; [| |constructor|done|]; intros k; rewrite lookup_all_white; case_decide.
  - split; eauto.
  - split; [by intros [] | done].
  - split; [done | by inversion 1].
  - split; [done | by inversion 1].
  - done.
  - done.
Qed.

Lemma detect_cycles_cases :
  (detect_cycles nodes = Ok tt /\ acyclic nodes) \/
  exists cyc, detect_cycles nodes = Raise (CycleDetected cyc) /\ is_cycle nodes cyc.
Proof.
  unfold detect_cycles.
  pose proof (dfs_roots_correct (S (length nodes)) (dkeys nodes) (all_white nodes) colored_start ltac:(done)) as H.
  assert (Hw : (whites (all_white nodes) < S (length nodes))%nat).
  { unfold whites, dkeys. rewrite <- (length_map fst nodes). pose proof (lfilter_length_le (fun _ => true)
      (fun k => bool_decide (all_white nodes !! k = Some white)) (map fst nodes) ltac:(done)) as Hle.
    rewrite lfilter_true in Hle. lia. }
  specialize (H Hw). destruct (dfs_roots _ _ _ _) as [c|e]; simpl.
  - left. split; [done|]. destruct H as (Hc & _ & Hb). intros x Ht.
    assert (Hx : x ∈ dkeys nodes).
    { inversion Ht as [? ? (n & E & _)|? ? ? (n & E & _)]; subst;
        (destruct (decide (x ∈ dkeys nodes)) as [|Hn]; [done | apply dget_None in Hn; congruence]). }
    by apply (acc_no_cycle nodes x (co_black _ _ Hc x (Hb x Hx))).
  - right. destruct H as (cyc & -> & Hcyc). by exists cyc.
Qed.

End Dfs.

(** ** The node table *)

(** [nodes'] is [nodes] with dependents added: [x] to those of [k] when
    [P x k]. *)
Definition linked (P : string -> string -> Prop) (nodes nodes' : Nodes) : Prop :=
  dkeys nodes' = dkeys nodes /\
  forall k n', dget k nodes' = Some n' -> exists n, dget k nodes = Some n /\
    step n' = step n /\ state n' = state n /\ dependencies n' = dependencies n /\
    (NoDup (dependents n) -> NoDup (dependents n')) /\
    forall x, x ∈ dependents n' <-> x ∈ dependents n \/ P x k.

Lemma linked_none nodes P : (forall x k, ~ P x k) -> linked P nodes nodes.
Proof. intros H. split; [done|]. intros k n Hn. exists n. naive_solver. Qed.

Lemma linked_trans P Q a b c :
  linked P a b -> linked Q b c -> linked (fun x k => P x k \/ Q x k) a c.
Proof.
  intros [K1 H1] [K2 H2]. split; [congruence|]. intros k n3 E3.
  destruct (H2 k n3 E3) as (n2 & E2 & S2 & T2 & D2 & N2 & X2).
  destruct (H1 k n2 E2) as (n1 & E1 & S1 & T1 & D1 & N1 & X1).
  exists n1. repeat split; try congruence; [by auto| |]; rewrite X2, X1; tauto.
Qed.

Lemma linked_iff P Q a b : (forall x k, P x k <-> Q x k) -> linked P a b -> linked Q a b.
Proof.
  intros H [K H1]. split; [done|]. intros k n' E. destruct (H1 k n' E) as (n & ? & ? & ? & ? & ? & X).
  exists n. repeat split; try done; rewrite X, H; done.
Qed.

Lemma link_deps_spec sid deps : forall nodes,
  match link_deps sid deps nodes with
  | Ok nodes' => linked (fun x k => x = sid /\ k ∈ deps) nodes nodes' /\
                 forall d, d ∈ deps -> d ∈ dkeys nodes
  | Raise e => exists d, e = UnknownDependency sid d /\ d ∈ deps /\ d ∉ dkeys nodes
  end.
Proof.
  induction deps as [|d deps IH]; intros nodes; simpl.
  { split; [apply linked_none; set_solver | set_solver]. }
  destruct (dget d nodes) as [n|] eqn:E; [|apply dget_None in E; exists d; split; [done | set_solver]].
  set (nodes1 := dset d _ nodes). specialize (IH nodes1).
  assert (Hk : dkeys nodes1 = dkeys nodes) by (apply dkeys_dset_present; by eapply dget_Some_key).
  assert (H1 : linked (fun x k => x = sid /\ k = d) nodes nodes1).
  { split; [done|]. intros k n' En. unfold nodes1 in En. destruct (decide (k = d)) as [->|Hne].
    - rewrite dget_dset_eq in En. injection En as <-. exists n. simpl.
      repeat split; [done | by auto with routing | |]; rewrite elem_of_set_add; naive_solver.
    - rewrite dget_dset_ne in En by done. exists n'. naive_solver. }
  destruct (link_deps sid deps nodes1) as [nodes2|e].
  - destruct IH as [H2 Hd]. split.
    + eapply linked_iff, linked_trans; [|exact H1|exact H2]. set_solver.
    + rewrite Hk in Hd. intros y [->|Hy]%elem_of_cons; [by eapply dget_Some_key | auto].
  - destruct IH as (y & -> & Hy & Hn). exists y. rewrite Hk in Hn. set_solver.
Qed.

Lemma link_all_spec items : forall nodes,
  match link_all items nodes with
  | Ok nodes' => linked (fun x k => exists n, (x, n) ∈ items /\ k ∈ dependencies n) nodes nodes' /\
                 forall x n d, (x, n) ∈ items -> d ∈ dependencies n -> d ∈ dkeys nodes
  | Raise e => exists x n d, e = UnknownDependency x d /\ (x, n) ∈ items /\
                 d ∈ dependencies n /\ d ∉ dkeys nodes
  end.
Proof.
  induction items as [|[sid n] items IH]; intros nodes; simpl.
  { split; [apply linked_none|]; set_solver. }
  pose proof (link_deps_spec sid (dependencies n) nodes) as H1.
  destruct (link_deps sid (dependencies n) nodes) as [nodes1|e]; simpl.
  - destruct H1 as [H1 Hd1]. specialize (IH nodes1). pose proof (proj1 H1) as Hk.
    destruct (link_all items nodes1) as [nodes2|e].
    + destruct IH as [H2 Hd2]. split.
      * eapply linked_iff, linked_trans; [|exact H1|exact H2]. intros x k. simpl. split.
        -- intros [[-> Hx]|(n0 & Hin & Hx)]; [exists n | exists n0]; (split; [|done]); [by left | by right].
        -- intros (n0 & [[= -> ->]|Hin]%elem_of_cons & Hx); [by left | right; by exists n0].
      * rewrite Hk in Hd2. intros x n0 d [[= -> ->]|Hin]%elem_of_cons Hx; [by apply Hd1 | by eapply Hd2].
    + destruct IH as (x & n0 & d & -> & Hin & Hd & Hn). exists x, n0, d. rewrite Hk in Hn.
      split; [done|]. split; [by right | done].
  - destruct H1 as (d & -> & Hd & Hn). exists sid, n, d. split; [done|]. split; [by left | done].
Qed.

Lemma check_inputs_spec sid inputs nodes :
  match check_inputs sid inputs nodes with
  | Ok _ => forall i, i ∈ inputs -> i ∈ dkeys nodes
  | Raise e => exists i, e = UnknownInput sid i /\ i ∈ inputs /\ i ∉ dkeys nodes
  end.
Proof.
  induction inputs as [|i inputs IH]; simpl; [set_solver|].
  destruct (dget i nodes) eqn:E; [apply dget_Some_key in E | apply dget_None in E; exists i; set_solver].
  destruct (check_inputs sid inputs nodes); [set_solver|]. destruct IH as (j & -> & Hj & Hn). exists j. set_solver.
Qed.

Lemma validate_inputs_spec items nodes :
  match validate_inputs_refs items nodes with
  | Ok _ => forall x n i, (x, n) ∈ items -> i ∈ get_or [] (step_inputs (step n)) -> i ∈ dkeys nodes
  | Raise e => exists x n i, e = UnknownInput x i /\ (x, n) ∈ items /\
                 i ∈ get_or [] (step_inputs (step n)) /\ i ∉ dkeys nodes
  end.
Proof.
  induction items as [|[sid n] items IH]; simpl; [set_solver|].
  pose proof (check_inputs_spec sid (get_or [] (step_inputs (step n))) nodes) as H1.
  destruct (check_inputs _ _ _); simpl.
  - destruct (validate_inputs_refs items nodes).
    + intros x n0 i [[= -> ->]|Hin]%elem_of_cons Hi; [by apply H1 | by eapply IH].
    + destruct IH as (x & n0 & i & -> & Hin & Hi & Hn). exists x, n0, i. split; [done|]. split; [by right|done].
  - destruct H1 as (i & -> & Hi & Hn). exists sid, n, i. split; [done|]. split; [by left | done].
Qed.

Section Built.
Context (cond_names : string -> option (list string)).
Context (dependency_fields : string -> list string).
Local Abbreviation deps_of := (computed_depends_on cond_names dependency_fields).

(** The node the first loop makes of a step. *)
Definition fresh_node (k : string) (n : StepNode) : Prop :=
  step_id (step n) = k /\ deps_of (step n) = Ok (dependencies n) /\
  state n = PENDING /\ dependents n = [].

Lemma create_nodes_spec steps : forall nodes,
  NoDup (dkeys nodes) -> (forall k n, dget k nodes = Some n -> fresh_node k n) ->
  match create_nodes cond_names dependency_fields steps nodes with
  | Ok nodes' => NoDup (dkeys nodes') /\
      (forall k n, dget k nodes' = Some n -> fresh_node k n /\ (step n ∈ steps \/ dget k nodes = Some n)) /\
      (forall k, k ∈ dkeys nodes' <-> k ∈ dkeys nodes \/ k ∈ map step_id steps)
  | Raise e => exists s, s ∈ steps /\ deps_of s = Raise e
  end.
Proof.
  induction steps as [|s steps IH]; intros nodes Hnd Hf; simpl.
  { split; [done|]. split; [|set_solver]. intros k n Hn. split; [by apply Hf | by right]. }
  destruct (deps_of s) as [deps|e] eqn:E; simpl; [|exists s; split; [by left | done]].
  specialize (IH (dset (step_id s) (mkNode s PENDING deps []) nodes)).
  destruct (create_nodes _ _ steps _) as [nodes'|e].
  - destruct IH as (H1 & H2 & H3); [by auto with routing| |].
    { intros k n Hn. destruct (decide (k = step_id s)) as [->|Hne].
      - rewrite dget_dset_eq in Hn. by injection Hn as <-.
      - rewrite dget_dset_ne in Hn by done. by apply Hf. }
    split; [done|]. split.
    + intros k n Hn. destruct (H2 k n Hn) as [Hfn [Hs|Hs]]; (split; [done|]); [left; by right|].
      destruct (decide (k = step_id s)) as [->|Hne].
      * rewrite dget_dset_eq in Hs. injection Hs as <-. left. by left.
      * rewrite dget_dset_ne in Hs by done. by right.
    + intros k. rewrite H3, elem_of_dkeys_dset, elem_of_cons. tauto.
  - destruct IH as (s' & Hs & He); [by auto with routing| |exists s'; split; [by right | done]].
    intros k n Hn. destruct (decide (k = step_id s)) as [->|Hne].
    + rewrite dget_dset_eq in Hn. by injection Hn as <-.
    + rewrite dget_dset_ne in Hn by done. by apply Hf.
Qed.

End Built.

Section BuildCorrect.
Context (cond_names : string -> option (list string)).
Context (dependency_fields : string -> list string).
Local Abbreviation deps_of := (computed_depends_on cond_names dependency_fields).
Local Abbreviation build := (build_expanded cond_names dependency_fields).

(** Step [b] declares that it depends on [a]. *)
Definition waits_for (steps : list StepConfig) (a b : string) : Prop :=
  exists s deps, s ∈ steps /\ step_id s = b /\ deps_of s = Ok deps /\ a ∈ deps.

(** A step list as the graph of its declared dependencies. *)
Fixpoint declared_walk (steps : list StepConfig) (l : list string) : Prop :=
  match l with
  | x :: (y :: _) as l' => waits_for steps x y /\ declared_walk steps l'
  | _ => True
  end.

(** What is wrong with a step list that [build] rejects. *)
Inductive build_failure (steps : list StepConfig) : error -> Prop :=
  | BF_binding s e : s ∈ steps -> deps_of s = Raise e -> build_failure steps e
  | BF_dependency s deps d :
      s ∈ steps -> deps_of s = Ok deps -> d ∈ deps -> d ∉ map step_id steps ->
      build_failure steps (UnknownDependency (step_id s) d)
  | BF_input s i :
      s ∈ steps -> i ∈ get_or [] (step_inputs s) -> i ∉ map step_id steps ->
      build_failure steps (UnknownInput (step_id s) i)
  | BF_cycle x l :
      declared_walk steps (x :: l ++ [x]) -> build_failure steps (CycleDetected (x :: l ++ [x])).

(** The table [build] returns. *)
Record dag_of (steps : list StepConfig) (nodes : Nodes) : Prop := {
  dag_wf : well_formed nodes;
  dag_acyclic : acyclic nodes;
  dag_keys : forall k, k ∈ dkeys nodes <-> k ∈ map step_id steps;
  dag_node : forall k n, dget k nodes = Some n ->
    step n ∈ steps /\ step_id (step n) = k /\ deps_of (step n) = Ok (dependencies n) /\
    state n = (if bool_decide (dependencies n = []) then READY else PENDING) /\
    forall i, i ∈ get_or [] (step_inputs (step n)) -> i ∈ map step_id steps
}.

Lemma dget_mark_ready k (nodes : Nodes) :
  dget k (mark_ready_steps nodes) =
  (fun n => if bool_decide (dependencies n = []) then with_state READY n else n) <$> dget k nodes.
Proof.
  unfold mark_ready_steps. induction nodes as [|[j n] l IH]; simpl; [done|]. by case_decide.
Qed.

Lemma dkeys_mark_ready (nodes : Nodes) : dkeys (mark_ready_steps nodes) = dkeys nodes.
Proof. unfold dkeys, mark_ready_steps. rewrite map_map. by apply map_ext. Qed.

Lemma edge_mark_ready (nodes : Nodes) a b : edge (mark_ready_steps nodes) a b <-> edge nodes a b.
Proof.
  unfold edge. rewrite dget_mark_ready. split.
  - intros (n & Hn & Hb). apply fmap_Some in Hn as (n0 & -> & ->). exists n0.
    by destruct (bool_decide _).
  - intros (n & -> & Hb). simpl. eexists. split; [done|]. by destruct (bool_decide _).
Qed.

Lemma well_formed_mark_ready (nodes : Nodes) : well_formed nodes -> well_formed (mark_ready_steps nodes).
Proof.
  assert (Hd : forall k n, dget k (mark_ready_steps nodes) = Some n -> exists n0, dget k nodes = Some n0 /\
    dependencies n = dependencies n0 /\ dependents n = dependents n0).
  { intros k n E. rewrite dget_mark_ready in E. apply fmap_Some in E as (n0 & E & ->). exists n0.
    by destruct (bool_decide _). }
  intros [H1 H2 H3 H4 H5]. split.
  - by rewrite dkeys_mark_ready.
  - intros k n E. destruct (Hd k n E) as (n0 & E0 & -> & _). by eapply H2.
  - intros k n E. destruct (Hd k n E) as (n0 & E0 & _ & ->). by eapply H3.
  - intros a b. rewrite edge_mark_ready, H4. split.
    + intros (n & E & Hb). rewrite dget_mark_ready, E. simpl. eexists. split; [done|]. by destruct (bool_decide _).
    + intros (n & E & Hb). destruct (Hd b n E) as (n0 & E0 & Ed & _). exists n0. by rewrite <- Ed.
  - intros k n d E Hin. destruct (Hd k n E) as (n0 & E0 & Ed & _). rewrite Ed in Hin.
    rewrite dget_mark_ready. destruct (H5 k n0 d E0 Hin) as [m ->]. by eexists.
Qed.

Lemma acyclic_mark_ready (nodes : Nodes) : acyclic nodes -> acyclic (mark_ready_steps nodes).
Proof.
  intros H x Ht. apply (H x).
  assert (Hm : forall a b, tc (edge (mark_ready_steps nodes)) a b -> tc (edge nodes) a b); [|by apply Hm].
  clear. induction 1 as [a b E|a b c E _ IH]; apply (proj1 (edge_mark_ready _ _ _)) in E;
    [by apply tc_once | by eapply tc_l].
Qed.

(** The linked table before validation: what [create_nodes] and [link_all]
    establish together. *)
Lemma linked_table created nodes :
  NoDup (dkeys created) -> (forall k n, dget k created = Some n -> fresh_node cond_names dependency_fields k n) ->
  link_all created created = Ok nodes ->
  well_formed nodes /\ dkeys nodes = dkeys created /\
  forall k n, dget k nodes = Some n -> exists n0, dget k created = Some n0 /\
    step n = step n0 /\ dependencies n = dependencies n0 /\ state n = PENDING.
Proof.
  intros Hnd Hfr E. pose proof (link_all_spec created created) as H. rewrite E in H.
  destruct H as [[Hk H] Hd].
  assert (Hn : forall k n, dget k nodes = Some n -> exists n0, dget k created = Some n0 /\
    step n = step n0 /\ dependencies n = dependencies n0 /\ state n = PENDING /\ NoDup (dependents n) /\
    forall x, x ∈ dependents n <-> exists m, dget x created = Some m /\ k ∈ dependencies m).
  { intros k n En. destruct (H k n En) as (n0 & E0 & S0 & T0 & D0 & N0 & X0).
    destruct (Hfr k n0 E0) as (_ & _ & Hst & Hds). exists n0. rewrite Hds in *.
    split; [done|]. split; [done|]. split; [done|]. split; [congruence|].
    split; [apply N0; constructor|]. intros x. rewrite X0. split.
    - intros [Hx|(m & Hin & Hx)]; [inversion Hx|]. exists m. split; [by apply elem_of_dget | done].
    - intros (m & Hm & Hx). right. exists m. split; [by apply dget_Some_in | done]. }
  assert (Hex : forall k n0, dget k created = Some n0 -> exists n, dget k nodes = Some n /\ dependencies n = dependencies n0).
  { intros k n0 E0. destruct (dkeys_dget k nodes) as [n En]; [rewrite Hk; by eapply dget_Some_key|].
    exists n. split; [done|]. destruct (Hn k n En) as (n1 & E1 & _ & D1 & _). congruence. }
  split; [|split; [done|]].
  2: { intros k n En. destruct (Hn k n En) as (n0 & ? & ? & ? & ? & _). by exists n0. }
  split.
  - by rewrite Hk.
  - intros k n En. destruct (Hn k n En) as (n0 & E0 & _ & -> & _).
    destruct (Hfr k n0 E0) as (_ & Hc & _). by eapply computed_depends_on_nodup.
  - intros k n En. by destruct (Hn k n En) as (n0 & _ & _ & _ & _ & ? & _).
  - intros a b. split.
    + intros (n & En & Hb). destruct (Hn a n En) as (n0 & E0 & _ & _ & _ & _ & X).
      apply X in Hb as (m & Em & Ha). destruct (Hex b m Em) as (m' & Em' & Dm). exists m'. by rewrite Dm.
    + intros (m' & Em' & Ha). destruct (Hn b m' Em') as (m & Em & _ & Dm & _). rewrite Dm in Ha.
      destruct (dkeys_dget a nodes) as [n En].
      { rewrite Hk. apply (Hd b m a); [by apply dget_Some_in | done]. }
      exists n. split; [done|]. destruct (Hn a n En) as (n0 & E0 & _ & _ & _ & _ & X). apply X. by exists m.
  - intros k n d En Hdn. destruct (Hn k n En) as (n0 & E0 & _ & Dn & _). rewrite Dn in Hdn.
    destruct (dkeys_dget d nodes) as [m ->]; [|done].
    rewrite Hk. apply (Hd k n0 d); [by apply dget_Some_in | done].
Qed.

(** A walk through a table whose steps come from [steps] is declared there. *)
Lemma walk_declared steps (nodes : Nodes) l :
  well_formed nodes ->
  (forall k n, dget k nodes = Some n ->
     step n ∈ steps /\ step_id (step n) = k /\ deps_of (step n) = Ok (dependencies n)) ->
  walk nodes l -> declared_walk steps l.
Proof.
  intros Hwf Hn. induction l as [|x [|y l] IH]; try done. intros [He Hw]. split; [|by apply IH].
  apply (wf_mirror _ Hwf) in He as (n & En & Hx). destruct (Hn y n En) as (Hs & Hi & Hd).
  by exists (step n), (dependencies n).
Qed.

Lemma build_cases steps :
  match build steps with
  | Ok nodes => dag_of steps nodes
  | Raise e => build_failure steps e
  end.
Proof.
  unfold build_expanded.
  pose proof (create_nodes_spec cond_names dependency_fields steps [] (NoDup_nil_2) ltac:(done)) as Hc.
  destruct (create_nodes _ _ steps []) as [created|e]; simpl.
  2: { destruct Hc as (s & Hs & He). by apply (BF_binding steps s). }
  destruct Hc as (Hnd & Hcn & Hck).
  assert (Hfr : forall k n, dget k created = Some n -> fresh_node cond_names dependency_fields k n /\ step n ∈ steps).
  { intros k n En. by destruct (Hcn k n En) as [? [|]]. }
  assert (Hkeys : forall k, k ∈ dkeys created <-> k ∈ map step_id steps) by (intros k; rewrite Hck; set_solver).
  pose proof (link_all_spec created created) as Hl.
  destruct (link_all created created) as [nodes|e] eqn:El; simpl.
  2: { destruct Hl as (x & n & d & -> & Hin & Hd & Hnk). apply elem_of_dget in Hin; [|done].
       destruct (Hfr x n Hin) as [(<- & Hdep & _ & _) Hs]. rewrite Hkeys in Hnk.
       by apply (BF_dependency steps (step n) (dependencies n)). }
  destruct (linked_table created nodes Hnd (fun k n E => proj1 (Hfr k n E)) El) as (Hwf & Hk & Hn).
  assert (Hn' : forall k n, dget k nodes = Some n ->
     step n ∈ steps /\ step_id (step n) = k /\ deps_of (step n) = Ok (dependencies n)).
  { intros k n En. destruct (Hn k n En) as (n0 & E0 & -> & -> & _).
    by destruct (Hfr k n0 E0) as [(? & ? & _ & _) ?]. }
  pose proof (validate_inputs_spec nodes nodes) as Hv.
  destruct (validate_inputs_refs nodes nodes) as [[]|e]; simpl.
  2: { destruct Hv as (x & n & i & -> & Hin & Hi & Hnk). apply elem_of_dget in Hin; [|by rewrite Hk].
       destruct (Hn' x n Hin) as (Hs & <- & _). rewrite Hk, Hkeys in Hnk. by apply BF_input. }
  assert (Hcl : forall a b, edge nodes a b -> b ∈ dkeys nodes).
  { intros a b He. apply (wf_mirror _ Hwf) in He as (n & En & _). by eapply dget_Some_key. }
  destruct (detect_cycles_cases nodes Hcl) as [[-> Hac]|(cyc & -> & x & l & -> & Hw)]; simpl.
  2: { apply BF_cycle. by apply (walk_declared steps nodes). }
  split; [by apply well_formed_mark_ready | by apply acyclic_mark_ready | |].
  - intros k. by rewrite dkeys_mark_ready, Hk, Hkeys.
  - intros k n En. rewrite dget_mark_ready in En. apply fmap_Some in En as (n0 & En & ->).
    destruct (Hn' k n0 En) as (Hs & Hi & Hd). destruct (Hn k n0 En) as (_ & _ & _ & _ & Hp).
    assert (Hin : forall i, i ∈ get_or [] (step_inputs (step n0)) -> i ∈ map step_id steps).
    { intros i Hii. rewrite <- Hkeys, <- Hk. apply (Hv k n0); [by apply dget_Some_in | done]. }
    case_bool_decide as Hz; simpl; rewrite ?Hz; [rewrite bool_decide_true by done | rewrite bool_decide_false by done];
      repeat split; congruence || done.
Qed.

Lemma dag_of_no_failure steps nodes e :
  NoDup (map step_id steps) -> dag_of steps nodes -> ~ build_failure steps e.
Proof.
  intros Hnd [Hwf Hac Hk Hn].
  assert (Hs : forall s, s ∈ steps -> exists n, dget (step_id s) nodes = Some n /\ step n = s).
  { intros s Hs. destruct (dkeys_dget (step_id s) nodes) as [n En].
    { apply Hk. by apply list_elem_of_fmap_2. }
    exists n. split; [done|]. destruct (Hn _ _ En) as (Hin & Hi & _).
    by apply (NoDup_map_inj step_id steps). }
  destruct 1 as [s e Hin He|s deps d Hin He Hd Hni|s i Hin Hi Hni|x l Hw]; [| | |];
    try destruct (Hs s Hin) as (n & En & <-), (Hn _ _ En) as (_ & _ & Hd' & _ & Hi').
  - congruence.
  - rewrite He in Hd'. injection Hd' as ->. destruct (wf_closed _ Hwf _ _ _ En Hd) as [m Em].
    apply Hni, Hk. by eapply dget_Some_key.
  - by apply Hni, Hi'.
  - apply (Hac x). apply (walk_tc nodes x l x). clear Hac Hk. revert Hw.
    generalize (x :: l ++ [x]). clear x l. intros l. induction l as [|x [|y l] IH]; try done.
    intros [(s & deps & Hin & <- & Hd & Hx) Hw]. split; [|by apply IH].
    apply (wf_mirror _ Hwf). destruct (Hs s Hin) as (n & En & <-).
    destruct (Hn _ _ En) as (_ & _ & Hd' & _). exists n. split; [done|]. congruence.
Qed.

(** C12: [DAGBuilder.build] accepts exactly the acyclic step lists.  When it
    returns, the table mirrors the declared dependencies in both directions,
    is closed and acyclic, and precisely the steps without dependencies are
    READY.  When it raises, the error names a real defect: a binding that
    does not parse, a dependency or input that is no step, or a closed walk of
    declared dependencies.  Step lists with distinct ids that have such a
    defect are never accepted (with a repeated id the later step replaces the
    earlier one, defects and all). *)
Theorem build_correct steps :
  match build steps with
  | Ok nodes => dag_of steps nodes
  | Raise e => build_failure steps e
  end /\
  (NoDup (map step_id steps) ->
   (exists nodes, build steps = Ok nodes) <-> forall e, ~ build_failure steps e).
Proof.
  pose proof (build_cases steps) as H. split; [exact H|]. intros Hnd.
  destruct (build steps) as [nodes|e]; split; intros Hx.
  - intros e. by eapply dag_of_no_failure.
  - by exists nodes.
  - by destruct Hx.
  - by destruct (Hx e).
Qed.

End BuildCorrect.

(** ** Examples *)

Definition plain_step (id : string) (deps : list string) : StepConfig :=
  mkStep id "generate" [] deps None None None [] None.

Definition no_names : string -> option (list string) := fun _ => Some [].
Definition no_fields : string -> list string := fun _ => [].

Definition diamond : list StepConfig :=
  [plain_step "a" []; plain_step "b" ["a"%string]; plain_step "c" ["a"%string];
   plain_step "d" ["b"; "c"]%string].

Example build_diamond :
  match build_expanded no_names no_fields diamond with
  | Ok nodes => map (fun kn => (fst kn, state (snd kn), dependents (snd kn))) nodes
                = [("a", READY, ["b"; "c"]); ("b", PENDING, ["d"]); ("c", PENDING, ["d"]); ("d", PENDING, [])]%string
  | Raise _ => False
  end.
Proof. vm_compute. reflexivity. Qed.

Example build_cycle :
  build_expanded no_names no_fields [plain_step "a" ["c"%string]; plain_step "b" ["a"%string]; plain_step "c" ["b"%string]]
  = Raise (CycleDetected ["a"; "b"; "c"; "a"]%string).
Proof. vm_compute. reflexivity. Qed.

(** Two steps with the same id: the later one takes the place of the first,
    whose own dependency is forgotten, and nothing is reported. *)
Lemma duplicate_step_replaced :
  match build_expanded no_names no_fields
          [plain_step "a" ["b"%string]; plain_step "b" []; plain_step "a" []] with
  | Ok nodes => map (fun kn => (fst kn, state (snd kn))) nodes = [("a", READY); ("b", READY)]%string
  | Raise _ => False
  end.
Proof. vm_compute. reflexivity. Qed.

Lemma diamond_ids : NoDup (map step_id diamond).
Proof. by apply (bool_decide_unpack (NoDup (map step_id diamond))); vm_compute. Qed.

Lemma build_correct_witness :
  exists nodes, build_expanded no_names no_fields diamond = Ok nodes.
Proof.
  apply (build_correct no_names no_fields diamond).
  - exact diamond_ids.
  - intros e He. pose proof (build_correct no_names no_fields diamond) as [H _].
    destruct (build_expanded no_names no_fields diamond) as [nodes|e'] eqn:E; [|vm_compute in E; discriminate E].
    apply (dag_of_no_failure no_names no_fields diamond nodes e);
      [exact diamond_ids | exact H | exact He].
Defined.
