(* ===== verification/PipelineExpansion.v ===== *)
(** * Expansion of sub-pipelines ([pipeline/core/dag.py])

    [_expand_all_sub_pipelines], the pre-pass of [DAGBuilder.build]: a step of
    type [sub_pipeline] is replaced by copies of the steps of the pipeline it
    names, under ids prefixed with its own, and the bindings to it are
    redirected to the output step. *)
From stdpp Require Import base gmap sets list strings.
From Stdlib Require Import Ascii ZArith Lia.
From S2P Require Import Prelude PyString PipelineStep PipelineDag.

Definition SUB_PIPELINE_SEP : string := "__".

Definition namespaced (prefix name : string) : string := (prefix +:+ SUB_PIPELINE_SEP +:+ name).

(** ** [_namespace_step] *)

Definition namespace_input (sub_name prefix : string) (parent_inputs : list (string * InputBinding))
    (b : InputBinding) : exn InputBinding :=
  if bool_decide (namespace b = "step"%string) && bool_decide (step_name b = Some "inputs"%string)
  then
    let input_name := unchars (fst (split1 dot (chars (field_path b)))) in
    match dget input_name parent_inputs with
    | Some b' => Ok b'
    | None => Raise (MissingSubPipelineInput sub_name input_name)
    end
  else match binding_step b with
       | Some s => Ok (mkBinding "step" (Some (namespaced prefix s)) (field_path b) None)
       | None => Ok b
       end.

Fixpoint namespace_inputs (sub_name prefix : string) (parent_inputs inputs : list (string * InputBinding))
    : exn (list (string * InputBinding)) :=
  match inputs with
  | [] => Ok []
  | (k, b) :: inputs' =>
      let? b' := namespace_input sub_name prefix parent_inputs b in
      let? rest := namespace_inputs sub_name prefix parent_inputs inputs' in
      Ok ((k, b') :: rest)
  end.

Definition is_null (v : Yaml) : bool := match v with YNull => true | _ => false end.

(** The extras of the copy: [model_dump] has put every extra that is not
    [None] into [data] already, so the loop that follows it adds the others
    only, and its prefixed references are never used. *)
Definition namespace_extra (extra : list (string * Yaml)) : list (string * Yaml) :=
  let dumped := List.filter (fun kv => negb (is_null (snd kv))) extra in
  let data := dset "_sub_pipeline_step"%string (YBool true) dumped in
  data ++ List.filter (fun kv => is_null (snd kv) && negb (bool_decide (fst kv ∈ dkeys data))) extra.

Definition namespace_step (sub_step : StepConfig) (prefix : string)
    (parent_inputs : list (string * InputBinding)) : exn StepConfig :=
  let? inputs := namespace_inputs (step_id sub_step) prefix parent_inputs (handler_inputs sub_step) in
  Ok (mkStep (namespaced prefix (step_id sub_step)) (step_type sub_step) inputs (reads_from sub_step)
             (map_config sub_step) (condition sub_step) (step_inputs sub_step)
             (namespace_extra (model_extra sub_step)) (sub_pipeline_spec sub_step)).

Fixpoint namespace_steps (sub_steps : list StepConfig) (prefix : string)
    (parent_inputs : list (string * InputBinding)) : exn (list StepConfig) :=
  match sub_steps with
  | [] => Ok []
  | s :: sub_steps' =>
      let? s' := namespace_step s prefix parent_inputs in
      let? rest := namespace_steps sub_steps' prefix parent_inputs in
      Ok (s' :: rest)
  end.

(** ** [_rewrite_aliases] *)

Definition rewrite_binding (aliases : list (string * string)) (b : InputBinding) : InputBinding :=
  if bool_decide (namespace b = "step"%string) then
    match step_name b with
    | Some s => match dget s aliases with
                | Some o => mkBinding "step" (Some o) (field_path b) None
                | None => b
                end
    | None => b
    end
  else b.

Definition rewrite_aliases (aliases : list (string * string)) (s : StepConfig) : StepConfig :=
  mkStep (step_id s) (step_type s) (map (fun kb => (fst kb, rewrite_binding aliases (snd kb))) (handler_inputs s))
         (reads_from s) (map_config s) (condition s) (step_inputs s) (model_extra s) (sub_pipeline_spec s).

(** ** [_expand_all_sub_pipelines] *)

Definition is_sub (s : StepConfig) : bool := bool_decide (step_type s = "sub_pipeline"%string).

Definition output_step (prefix : string) (spec : SubPipelineSpec) : string := namespaced prefix (sub_output spec).

Fixpoint expand_loop (steps : list StepConfig) (aliases : list (string * string)) (expanded : list StepConfig)
    : exn (list StepConfig * list (string * string)) :=
  match steps with
  | [] => Ok (expanded, aliases)
  | s :: steps' =>
      if negb (is_sub s) then expand_loop steps' aliases (expanded ++ [s])
      else match sub_pipeline_spec s with
           | None => Raise (MissingSubPipelineSpec (step_id s))
           | Some spec =>
               let? subs := namespace_steps (sub_steps spec) (step_id s) (handler_inputs s) in
               expand_loop steps' (dset (step_id s) (output_step (step_id s) spec) aliases) (expanded ++ subs)
           end
  end.

Definition expand_all_sub_pipelines (steps : list StepConfig) : exn (list StepConfig * list (string * string)) :=
  if negb (existsb is_sub steps) then Ok (steps, [])
  else
    let? (expanded, aliases) := expand_loop steps [] [] in
    Ok (map (rewrite_aliases aliases) expanded, aliases).

(** [DAGBuilder.build] *)
Definition build (cond_names : string -> option (list string)) (dependency_fields : string -> list string)
    (steps : list StepConfig) : exn (Nodes * list (string * string)) :=
  let? (expanded, aliases) := expand_all_sub_pipelines steps in
  let? nodes := build_expanded cond_names dependency_fields expanded in
  Ok (nodes, aliases).

(** ** Specification *)








(** ** Proofs *)













(** *** Redirected bindings *)







(** ** Examples *)

Definition verify : SubPipelineSpec :=
  mkSub "verify" ["text"%string]
    [mkStep "split" "generate" [("text", mkBinding "step" (Some "inputs"%string) "text" None)]%string [] None None None [] None;
     mkStep "judge" "generate" [("parts", mkBinding "step" (Some "split"%string) "raw" None)]%string [] None None None [] None]
    "judge".

(** [draft], then the sub-pipeline on it, then a step that reads its output. *)
Definition with_sub : list StepConfig :=
  [plain_step "draft" [];
   mkStep "check" "sub_pipeline" [("text", mkBinding "step" (Some "draft"%string) "raw" None)]%string [] None None None [] (Some verify);
   mkStep "final" "generate" [("verdict", mkBinding "step" (Some "check"%string) "json" None)]%string [] None None None [] None].

Example build_with_sub :
  match build no_names no_fields with_sub with
  | Ok (nodes, aliases) => map (fun kn => (fst kn, dependencies (snd kn))) nodes =
      [("draft", []); ("check__split", ["draft"]); ("check__judge", ["check__split"]); ("final", ["check__judge"])]%string
      /\ aliases = [("check", "check__judge")]%string
  | Raise _ => False
  end.
Proof. vm_compute. by split. Qed.


(** A sub-pipeline inside a sub-pipeline is loaded but not expanded: a step of
    type [sub_pipeline] is left in the graph. *)
Definition nested : list StepConfig :=
  [mkStep "outer" "sub_pipeline" [("text", mkBinding "sourceNs" None "text" None)]%string [] None None None []
     (Some (mkSub "outer" ["text"%string]
        [mkStep "inner" "sub_pipeline" [("text", mkBinding "step" (Some "inputs"%string) "text" None)]%string
           [] None None None [] (Some verify)] "inner"))].

Lemma nested_sub_pipeline_stays :
  match build no_names no_fields nested with
  | Ok (nodes, _) => map (fun kn => (fst kn, step_type (step (snd kn)))) nodes = [("outer__inner", "sub_pipeline")]%string
  | Raise _ => False
  end.
Proof. vm_compute. reflexivity. Qed.

(** The [*_step] extras of a sub-step keep their names, so the graph of a
    pipeline that uses them is rejected. *)
Definition with_step_ref : list StepConfig :=
  [mkStep "check" "sub_pipeline" [] [] None None None []
     (Some (mkSub "verify" []
        [plain_step "split" [];
         mkStep "judge" "generate" [] [] None None None [("source_step"%string, YStr "split")] None] "judge"))].

Lemma step_ref_not_prefixed :
  build no_names no_fields with_step_ref = Raise (UnknownDependency "check__judge" "split").
Proof. vm_compute. reflexivity. Qed.
