(* ===== verification/CriticalPath.v ===== *)
(** * Static analysis of a pipeline graph
    ([pipeline/core/execution/critical_path.py])

    Kahn's topological sort, step depths, the critical path with its forward
    and backward passes on floats, and parallel siblings. *)
From stdpp Require Import base gmap sets list strings relations sorting.
From Stdlib Require Import ZArith QArith Qabs Lia Lqa.
From S2P Require Import Prelude PyFloat PyString PipelineStep PipelineDag.
Local Open Scope Z_scope.

(** ** [_topological_sort] *)

(** A dict of counters, in the order of the node table. *)
Definition Degrees : Type := list (string * Z).

(** [for dep_id in dependents: if dep_id in in_degree: in_degree[dep_id] += 1] *)
Definition bump (by_ : Z) (d : Degrees) (id : string) : Degrees :=
  match dget id d with
  | Some n => dset id (n + by_) d
  | None => d
  end.

Definition initial_degrees (nodes : Nodes) : Degrees :=
  fold_left (fun acc kn => fold_left (bump 1) (dependents (snd kn)) acc) nodes
            (map (fun kn => (fst kn, 0)) nodes).

(** The dependents of a processed step: lower their degree, queue those that
    reach zero. *)
Fixpoint release_dependents (ds : list string) (deg : Degrees) (queue : list string)
    : Degrees * list string :=
  match ds with
  | [] => (deg, queue)
  | d :: ds' =>
      match dget d deg with
      | Some n =>
          release_dependents ds' (dset d (n - 1) deg) (if n - 1 =? 0 then queue ++ [d] else queue)
      | None => release_dependents ds' deg queue
      end
  end.

(** [while queue: ...]; the loop runs once per queued step. *)
Fixpoint kahn_loop (fuel : nat) (nodes : Nodes) (queue : list string) (deg : Degrees)
    (result : list string) : exn (list string) :=
  match queue with
  | [] => Ok result
  | sid :: queue' =>
      match fuel with
      | O => Raise RuntimeError
      | S fuel' =>
          match dget sid nodes with
          | None => Raise KeyError
          | Some n =>
              let (deg', queue'') := release_dependents (dependents n) deg queue' in
              kahn_loop fuel' nodes queue'' deg' (result ++ [sid])
          end
      end
  end.

Definition topological_sort (nodes : Nodes) : exn (list string) :=
  let deg := initial_degrees nodes in
  let queue := map fst (List.filter (fun kd => snd kd =? 0) deg) in
  let? result := kahn_loop (length nodes) nodes queue deg [] in
  Ok (if (length result =? length nodes)%nat then result else []).

(** ** [calculate_step_depths] *)

(** [max(...)] of a non-empty sequence. *)
Fixpoint max_from (m : Z) (l : list Z) : Z :=
  match l with [] => m | x :: l' => max_from (Z.max m x) l' end.

Definition depth_of (nodes : Nodes) (depths : Degrees) (sid : string) : exn Z :=
  match dget sid nodes with
  | None => Raise KeyError
  | Some n =>
      match map (fun d => get_or 0 (dget d depths)) (dependencies n) with
      | [] => Ok 0
      | x :: l => Ok (max_from x l + 1)
      end
  end.

Fixpoint depths_loop (nodes : Nodes) (ids : list string) (depths : Degrees) : exn Degrees :=
  match ids with
  | [] => Ok depths
  | sid :: ids' =>
      let? d := depth_of nodes depths sid in
      depths_loop nodes ids' (dset sid d depths)
  end.

Definition calculate_step_depths (nodes : Nodes) : exn Degrees :=
  match nodes with
  | [] => Ok []
  | _ => let? ids := topological_sort nodes in depths_loop nodes ids []
  end.

(** ** [calculate_critical_path] *)

Definition Times : Type := list (string * Q).

Fixpoint fmax_from (m : Q) (l : list Q) : Q :=
  match l with [] => m | x :: l' => fmax_from (fmax m x) l' end.
Fixpoint fmin_from (m : Q) (l : list Q) : Q :=
  match l with [] => m | x :: l' => fmin_from (fmin m x) l' end.

Section CriticalPath.
Context (durations : Times).

Definition duration (sid : string) : Q := get_or 1%Q (dget sid durations).

(** Earliest start and finish, in topological order. *)
Fixpoint forward_pass (nodes : Nodes) (ids : list string) (start finish : Times) : exn (Times * Times) :=
  match ids with
  | [] => Ok (start, finish)
  | sid :: ids' =>
      match dget sid nodes with
      | None => Raise KeyError
      | Some n =>
          let s := match map (fun d => get_or 0%Q (dget d finish)) (dependencies n) with
                   | [] => 0%Q
                   | x :: l => fmax_from x l
                   end in
          forward_pass nodes ids' (dset sid s start) (dset sid (fadd s (duration sid)) finish)
      end
  end.

(** Latest start, in reverse topological order. *)
Fixpoint backward_pass (nodes : Nodes) (total : Q) (ids : list string) (start : Times) : exn Times :=
  match ids with
  | [] => Ok start
  | sid :: ids' =>
      match dget sid nodes with
      | None => Raise KeyError
      | Some n =>
          let f := match map (fun d => get_or total (dget d start)) (dependents n) with
                   | [] => total
                   | x :: l => fmin_from x l
                   end in
          backward_pass nodes total ids' (dset sid (fsub f (duration sid)) start)
      end
  end.

(** [1e-9] *)
Definition epsilon : Q := rnd (1 # 1000000000).

Definition total_duration (finish : Times) : Q :=
  match map snd finish with [] => 0%Q | x :: l => fmax_from x l end.

Definition zero_slack (start latest : Times) (sid : string) : exn bool :=
  match dget sid start, dget sid latest with
  | Some s, Some l => Ok (flt (Qabs (fsub s l)) epsilon)
  | _, _ => Raise KeyError
  end.

Fixpoint critical_of (start latest : Times) (ids : list string) : exn (list string) :=
  match ids with
  | [] => Ok []
  | sid :: ids' =>
      let? c := zero_slack start latest sid in
      let? rest := critical_of start latest ids' in
      Ok (if c then sid :: rest else rest)
  end.

Definition critical_path_of (nodes : Nodes) (ids : list string) : exn (list string) :=
  let? fwd := forward_pass nodes ids [] [] in
  let total := total_duration (snd fwd) in
  let? latest := backward_pass nodes total (rev ids) [] in
  critical_of (fst fwd) latest ids.

End CriticalPath.

(** [step_durations or {step_id: 1.0 ...}]: an empty dict is falsy too. *)
Definition calculate_critical_path (nodes : Nodes) (step_durations : option Times) : exn (list string) :=
  match nodes with
  | [] => Ok []
  | _ =>
      let durations := match step_durations with
                       | Some (d :: ds) => d :: ds
                       | _ => map (fun kn => (fst kn, 1%Q)) nodes
                       end in
      let? ids := topological_sort nodes in
      match ids with
      | [] => Ok []
      | _ => critical_path_of durations nodes ids
      end
  end.

(** ** [find_parallel_siblings] *)

(** [dep_to_dependents] *)
Definition dep_index (nodes : Nodes) : list (string * list string) :=
  fold_left (fun acc kn =>
    fold_left (fun acc d => dset d (set_add (fst kn) (get_or [] (dget d acc))) acc)
              (dependencies (snd kn)) acc) nodes [].

Definition siblings_of (index : list (string * list string)) (sid : string) (n : StepNode) : list string :=
  let s := fold_left (fun acc d => set_add_all (get_or [] (dget d index)) acc) (dependencies n) [] in
  sort_by str_lt (List.filter (fun x => negb (bool_decide (x = sid))) s).

Definition find_parallel_siblings (nodes : Nodes) : list (string * list string) :=
  let index := dep_index nodes in
  map (fun kn => (fst kn, siblings_of index (fst kn) (snd kn))) nodes.

(** ** Examples *)

Definition nodes_of (steps : list StepConfig) : Nodes :=
  match build_expanded no_names no_fields steps with Ok n => n | Raise _ => [] end.

(** The graph of the docstring: A → B → C and A → D. *)
Definition abcd : Nodes :=
  nodes_of [plain_step "a" []; plain_step "b" ["a"%string]; plain_step "c" ["b"%string];
            plain_step "d" ["a"%string]].

Example abcd_sorted : topological_sort abcd = Ok ["a"; "b"; "d"; "c"]%string.
Proof. vm_compute. reflexivity. Qed.

Example abcd_depths :
  calculate_step_depths abcd = Ok [("a", 0); ("b", 1); ("d", 1); ("c", 2)]%string.
Proof. vm_compute. reflexivity. Qed.

Example abcd_critical : calculate_critical_path abcd None = Ok ["a"; "b"; "c"]%string.
Proof. vm_compute. reflexivity. Qed.

Example abcd_siblings :
  find_parallel_siblings abcd = [("a", []); ("b", ["d"]); ("c", []); ("d", ["b"])]%string.
Proof. vm_compute. reflexivity. Qed.

(** ** Degrees *)

Definition in_list (x : string) (l : list string) : Z := if decide (x ∈ l) then 1 else 0.

Lemma in_list_cons x y l : y ∉ l -> in_list x (y :: l) = (if decide (x = y) then 1 else 0) + in_list x l.
Proof.
  intros H. unfold in_list. destruct (decide (x = y)) as [->|].
  - by rewrite decide_True, decide_False by (done || by left).
  - rewrite Z.add_0_l. apply decide_ext. rewrite elem_of_cons. split; [intros [|]; done | by right].
Qed.

Lemma dkeys_bump i d id : dkeys (bump i d id) = dkeys d.
Proof.
  unfold bump. destruct (dget id d) eqn:E; [|done]. apply dkeys_dset_present. by eapply dget_Some_key.
Qed.

Lemma dget_bump i d id k : dget k (bump i d id) = (fun z => z + (if decide (k = id) then i else 0)) <$> dget k d.
Proof.
  unfold bump. destruct (dget id d) as [n|] eqn:E.
  - destruct (decide (k = id)) as [->|Hne]; [by rewrite dget_dset_eq, E|].
    rewrite dget_dset_ne by done. destruct (dget k d); simpl; [f_equal; lia | done].
  - destruct (decide (k = id)) as [->|Hne]; [by rewrite E|]. destruct (dget k d); simpl; [f_equal; lia | done].
Qed.

Lemma bump_all_spec ds k : NoDup ds -> forall d,
  dkeys (fold_left (bump 1) ds d) = dkeys d /\
  dget k (fold_left (bump 1) ds d) = (fun z => z + in_list k ds) <$> dget k d.
Proof.
  induction ds as [|x ds IH]; intros Hnd d; simpl.
  { split; [done|]. destruct (dget k d); simpl; [f_equal; unfold in_list; case_decide; [by inversion H | lia] | done]. }
  apply NoDup_cons in Hnd as [Hx Hnd]. destruct (IH Hnd (bump 1 d x)) as [H1 H2].
  split; [by rewrite H1, dkeys_bump|]. rewrite H2, dget_bump, in_list_cons by done.
  destruct (dget k d); simpl; [f_equal; lia | done].
Qed.

Lemma release_dependents_spec ds : NoDup ds -> forall deg queue,
  (forall d, d ∈ ds -> d ∈ dkeys deg) ->
  let r := release_dependents ds deg queue in
  dkeys (fst r) = dkeys deg /\
  (forall k, dget k (fst r) = (fun z => z - in_list k ds) <$> dget k deg) /\
  snd r = queue ++ List.filter (fun d => bool_decide (dget d deg = Some 1)) ds.
Proof.
  induction ds as [|d ds IH]; intros Hnd deg queue Hin; simpl.
  { split; [done|]. split; [|by rewrite app_nil_r]. intros k. destruct (dget k deg); simpl; [|done].
    unfold in_list. case_decide; [by inversion H | f_equal; lia]. }
  apply NoDup_cons in Hnd as [Hd Hnd]. destruct (dkeys_dget d deg ltac:(apply Hin; by left)) as [n En].
  rewrite En. set (deg1 := dset d (n - 1) deg).
  assert (Hk : dkeys deg1 = dkeys deg) by (apply dkeys_dset_present; by eapply dget_Some_key).
  destruct (IH Hnd deg1 (if n - 1 =? 0 then queue ++ [d] else queue)) as (H1 & H2 & H3).
  { intros x Hx. rewrite Hk. apply Hin. by right. }
  split; [congruence|]. split.
  - intros k. rewrite H2, in_list_cons by done. unfold deg1. destruct (decide (k = d)) as [->|Hne].
    + rewrite dget_dset_eq, En. simpl. f_equal. lia.
    + rewrite dget_dset_ne by done. destruct (dget k deg); simpl; [f_equal; lia | done].
  - rewrite H3. rewrite (lfilter_ext_in _ (fun x => bool_decide (dget x deg = Some 1))).
    2: { intros x Hx. unfold deg1. rewrite dget_dset_ne; [done|]. intros ->. done. }
    destruct (Z.eqb_spec (n - 1) 0).
    + rewrite bool_decide_true by (f_equal; lia). by rewrite <- app_assoc.
    + rewrite bool_decide_false by (intros [= ?]; lia). done.
Qed.

Section Kahn.
Context (nodes : Nodes) (Hwf : well_formed nodes).

Lemma edge_dependencies a k n : dget k nodes = Some n -> edge nodes a k <-> a ∈ dependencies n.
Proof. intros E. rewrite (wf_mirror _ Hwf). split; [intros (n' & E' & ?); by simplify_eq | by exists n]. Qed.

Lemma edge_keys a b : edge nodes a b -> a ∈ dkeys nodes /\ b ∈ dkeys nodes.
Proof.
  intros He. split.
  - destruct He as (n & E & _). by eapply dget_Some_key.
  - apply (wf_mirror _ Hwf) in He as (n & E & _). by eapply dget_Some_key.
Qed.

Lemma initial_degrees_spec :
  dkeys (initial_degrees nodes) = dkeys nodes /\
  forall k n, dget k nodes = Some n -> dget k (initial_degrees nodes) = Some (Z.of_nat (length (dependencies n))).
Proof.
  assert (Hg : forall k (l : Nodes) (acc : Degrees), (forall x m, (x, m) ∈ l -> NoDup (dependents m)) ->
    dkeys (fold_left (fun acc kn => fold_left (bump 1) (dependents (snd kn)) acc) l acc) = dkeys acc /\
    dget k (fold_left (fun acc kn => fold_left (bump 1) (dependents (snd kn)) acc) l acc) =
    (fun z => z + Z.of_nat (length (List.filter (fun kn => bool_decide (k ∈ dependents (snd kn))) l))) <$> dget k acc).
  { intros k. induction l as [|[x m] l IH]; intros acc Hnd; simpl.
    { split; [done|]. destruct (dget k acc); simpl; [f_equal; lia | done]. }
    destruct (bump_all_spec (dependents m) k (Hnd x m ltac:(by left)) acc) as [B1 B2].
    destruct (IH (fold_left (bump 1) (dependents m) acc) ltac:(intros; eapply Hnd; by right)) as [I1 I2].
    split; [congruence|]. rewrite I2, B2. unfold in_list. destruct (dget k acc); simpl; [|done].
    case_decide; [rewrite bool_decide_true by done | rewrite bool_decide_false by done]; simpl; f_equal; lia. }
  unfold initial_degrees.
  assert (Hnd : forall x m, (x, m) ∈ nodes -> NoDup (dependents m)).
  { intros x m Hin. eapply (wf_dependents_nodup _ Hwf x), elem_of_dget; [apply Hwf | done]. }
  split.
  { rewrite (proj1 (Hg "" nodes _ Hnd)). unfold dkeys. rewrite map_map. by apply map_ext. }
  intros k n E. rewrite (proj2 (Hg k nodes _ Hnd)).
  assert (H0 : dget k (map (fun kn => (fst kn, 0)) nodes) = Some 0).
  { clear -E. induction nodes as [|[j m] l IH]; simpl in *; [done|]. case_decide; [done | by apply IH]. }
  rewrite H0. simpl. rewrite <- (length_map fst), Z.add_0_l. do 2 f_equal.
   apply Permutation_length, NoDup_Permutation.
  - eapply sublist_NoDup; [apply (wf_keys _ Hwf)|]. apply sublist_map, lfilter_sublist.
  - by apply (wf_deps_nodup _ Hwf k).
  - intros a. rewrite <- (edge_dependencies a k n E), list_elem_of_fmap. split.
    + intros ([a' m] & -> & [Hin Hk]%elem_of_lfilter). apply bool_decide_eq_true in Hk.
      exists m. split; [apply elem_of_dget; [apply Hwf | done] | done].
    + intros (m & Em & Hk). exists (a, m). split; [done|]. apply elem_of_lfilter.
      split; [by apply dget_Some_in | by apply bool_decide_eq_true].
Qed.

(** ** The invariant of Kahn's loop *)

(** The dependencies of a step that are not yet in [result]. *)
Definition remaining (result : list string) (n : StepNode) : list string :=
  List.filter (fun a => negb (bool_decide (a ∈ result))) (dependencies n).

(** Every step comes after all it depends on. *)
Definition topo_sorted (l : list string) : Prop :=
  forall l1 x l2, l = l1 ++ x :: l2 -> forall a, edge nodes a x -> a ∈ l1.

Record kahn_inv (result queue : list string) (deg : Degrees) : Prop := {
  ki_nodup : NoDup (result ++ queue);
  ki_keys : dkeys deg = dkeys nodes;
  ki_deg : forall k n, dget k nodes = Some n -> dget k deg = Some (Z.of_nat (length (remaining result n)));
  ki_zero : forall k n, dget k nodes = Some n -> (k ∈ result ++ queue <-> remaining result n = []);
  ki_in : forall k, k ∈ result ++ queue -> k ∈ dkeys nodes;
  ki_sorted : topo_sorted result
}.

Lemma remaining_nil result n : remaining result n = [] <-> forall a, a ∈ dependencies n -> a ∈ result.
Proof.
  unfold remaining. rewrite lfilter_nil_iff. split; intros H a Ha.
  - specialize (H a Ha). apply negb_false_iff in H. by apply bool_decide_eq_true in H.
  - apply negb_false_iff, bool_decide_eq_true. by apply H.
Qed.

Lemma remaining_snoc result sid n : sid ∉ result -> NoDup (dependencies n) ->
  Z.of_nat (length (remaining (result ++ [sid]) n)) =
  Z.of_nat (length (remaining result n)) - in_list sid (dependencies n).
Proof.
  intros Hs. unfold remaining, in_list. induction (dependencies n) as [|a l IH]; simpl; intros Hnd; [done|].
  apply NoDup_cons in Hnd as [Ha Hnd]. specialize (IH Hnd). destruct (decide (a = sid)) as [->|Hne].
  - rewrite bool_decide_true by set_solver. rewrite bool_decide_false by done. simpl.
    rewrite decide_True by (by left). rewrite decide_False in IH by done. rewrite IH. lia.
  - replace (bool_decide (a ∈ result ++ [sid])) with (bool_decide (a ∈ result)).
    2: { apply bool_decide_ext. set_solver. }
    rewrite (decide_ext (sid ∈ a :: l) (sid ∈ l)) by set_solver.
    destruct (bool_decide (a ∈ result)); simpl; lia.
Qed.

Lemma topo_sorted_snoc result sid n :
  topo_sorted result -> dget sid nodes = Some n -> (forall a, a ∈ dependencies n -> a ∈ result) ->
  topo_sorted (result ++ [sid]).
Proof.
  intros Hs En Hd l1 x l2 E a He. destruct (nil_or_length_pos l2) as [->|Hl].
  - apply app_inj_tail in E as [-> ->]. by apply Hd, (edge_dependencies a x n En).
  - destruct (exists_last (l := l2) ltac:(by intros ->)) as (l3 & y & ->).
    rewrite app_comm_cons, app_assoc in E. apply app_inj_tail in E as [-> _]. by eapply Hs.
Qed.

Lemma kahn_start :
  kahn_inv [] (map fst (List.filter (fun kd => snd kd =? 0) (initial_degrees nodes))) (initial_degrees nodes).
Proof.
  destruct initial_degrees_spec as [Hk Hd].
  assert (Hr : forall n, remaining [] n = dependencies n).
  { intros n. unfold remaining. rewrite (lfilter_ext_in _ (fun _ => true)); [apply lfilter_true|].
    intros a _. by rewrite bool_decide_false by (by inversion 1). }
  assert (Hnd : NoDup (dkeys (initial_degrees nodes))) by (rewrite Hk; apply Hwf).
  split; simpl.
  - eapply sublist_NoDup; [exact Hnd|]. apply sublist_map, lfilter_sublist.
  - done.
  - intros k n E. rewrite Hr. by apply Hd.
  - intros k n E. rewrite Hr. specialize (Hd k n E). rewrite list_elem_of_fmap. split.
    + intros ([k' z] & -> & [Hin Hz]%elem_of_lfilter). apply (elem_of_dget k' z _ Hnd) in Hin. simpl in *.
      rewrite Hd in Hin. injection Hin as <-. to_prop. destruct (dependencies n); [done|]. simpl in *. lia.
    + intros Hz. rewrite Hz in Hd. exists (k, 0). split; [done|]. apply elem_of_lfilter.
      split; [by apply dget_Some_in in Hd | done].
  - intros k. rewrite <- Hk, list_elem_of_fmap. intros ([k' z] & -> & [Hin _]%elem_of_lfilter).
    apply list_elem_of_fmap. by exists (k', z).
  - intros l1 x l2 E. by destruct l1.
Qed.

Lemma kahn_step result sid queue deg n :
  kahn_inv result (sid :: queue) deg -> dget sid nodes = Some n ->
  let r := release_dependents (dependents n) deg queue in
  kahn_inv (result ++ [sid]) (snd r) (fst r).
Proof.
  intros [Hnd Hk Hd Hz Hin Hs] En.
  assert (Hdn : NoDup (dependents n)) by (by eapply wf_dependents_nodup).
  assert (Hdk : forall d, d ∈ dependents n -> d ∈ dkeys deg).
  { intros d Hdd. rewrite Hk. apply (edge_keys sid d). by exists n. }
  destruct (release_dependents_spec (dependents n) Hdn deg queue Hdk) as (R1 & R2 & R3).
  simpl. rewrite R3. clear R3.
  assert (Hsr : sid ∉ result) by (apply NoDup_app in Hnd as (_ & Hnd & _); intros Hx; apply (Hnd sid Hx); by left).
  assert (Hmir : forall k m, dget k nodes = Some m -> in_list sid (dependencies m) = in_list k (dependents n)).
  { intros k m Em. unfold in_list. apply decide_ext. rewrite <- (edge_dependencies sid k m Em). unfold edge.
    split; [intros (n' & E' & ?); by simplify_eq | by exists n]. }
  assert (Hrem : forall k m, dget k nodes = Some m ->
    Z.of_nat (length (remaining (result ++ [sid]) m)) = Z.of_nat (length (remaining result m)) - in_list k (dependents n)).
  { intros k m Em. rewrite <- (Hmir k m Em). apply remaining_snoc; [done | by eapply wf_deps_nodup]. }
  assert (Hold : forall k m, dget k nodes = Some m -> k ∈ result ++ sid :: queue -> k ∉ dependents n).
  { intros k m Em Hq Hdd. apply (Hz k m Em) in Hq. specialize (Hrem k m Em). rewrite Hq in Hrem.
    unfold in_list in Hrem. rewrite decide_True in Hrem by done. simpl in Hrem. lia. }
  assert (Hone : forall k m, dget k nodes = Some m ->
    (bool_decide (dget k deg = Some 1) = true <-> length (remaining result m) = 1%nat)).
  { intros k m Em. rewrite bool_decide_eq_true, (Hd k m Em). split; [intros [= ?]; lia | intros ->; done]. }
  assert (Hnew : forall k, k ∈ List.filter (fun d => bool_decide (dget d deg = Some 1)) (dependents n) ->
    k ∉ result ++ sid :: queue /\ k ∈ dkeys nodes).
  { intros k [Hkd _]%elem_of_lfilter. assert (Hkk : k ∈ dkeys nodes) by (rewrite <- Hk; by apply Hdk).
    split; [|done]. intros Hq. destruct (dkeys_dget k nodes Hkk) as [m Em]. by apply (Hold k m Em Hq). }
  split.
  - rewrite app_assoc, <- (app_assoc result), <- app_assoc. simpl.
    change (NoDup (result ++ (sid :: queue) ++ List.filter (fun d => bool_decide (dget d deg = Some 1)) (dependents n))).
    rewrite app_assoc. apply NoDup_app. split; [done|]. split.
    + intros x Hx Hf. by apply (Hnew x Hf).
    + eapply sublist_NoDup; [exact Hdn | apply lfilter_sublist].
  - congruence.
  - intros k m Em. rewrite R2, (Hd k m Em). simpl. f_equal. by rewrite (Hrem k m Em).
  - intros k m Em. specialize (Hrem k m Em). specialize (Hz k m Em). specialize (Hone k m Em).
    rewrite <- length_zero_iff_nil. rewrite <- length_zero_iff_nil in Hz.
    assert (Hsplit : k ∈ (result ++ [sid]) ++ queue ++ List.filter (fun d => bool_decide (dget d deg = Some 1)) (dependents n)
              <-> k ∈ result ++ sid :: queue \/ k ∈ List.filter (fun d => bool_decide (dget d deg = Some 1)) (dependents n))
      by (rewrite !elem_of_app, !elem_of_cons, elem_of_nil; tauto).
    rewrite Hsplit, Hz, elem_of_lfilter, Hone. unfold in_list in Hrem. case_decide; intuition lia.
  - intros k Hq. rewrite !elem_of_app in Hq. destruct Hq as [[Hq|Hq]|[Hq|Hq]].
    + apply Hin. set_solver.
    + apply Hin. set_solver.
    + apply Hin. set_solver.
    + by apply Hnew.
  - apply (topo_sorted_snoc result sid n Hs En). apply remaining_nil, (Hz sid n En). set_solver.
Qed.

Lemma kahn_loop_spec fuel : forall queue deg result,
  kahn_inv result queue deg -> (fuel + length result = length nodes)%nat ->
  exists result' deg', kahn_loop fuel nodes queue deg result = Ok result' /\ kahn_inv result' [] deg'.
Proof.
  induction fuel as [|fuel IH]; intros [|sid queue] deg result Hi Hf; simpl;
    [by exists result, deg | | by exists result, deg |].
  - exfalso. assert (Hl : (length (result ++ sid :: queue) <= length (dkeys nodes))%nat).
    { apply submseteq_length, NoDup_submseteq; [apply Hi | apply Hi]. }
    unfold dkeys in Hl. rewrite length_map, length_app in Hl. simpl in Hl, Hf. lia.
  - destruct (dkeys_dget sid nodes) as [n En]; [apply (ki_in _ _ _ Hi); set_solver|]. rewrite En.
    pose proof (kahn_step result sid queue deg n Hi En) as Hs. simpl in Hs.
    destruct (release_dependents _ _ _) as [deg' queue']. apply IH; [done|].
    rewrite length_app. simpl. lia.
Qed.

End Kahn.

(** ** The sort is a topological order, or there is a cycle *)

Section Sorted.
Context (nodes : Nodes) (Hwf : well_formed nodes).

Lemma edge_keys_finite (R : relation string) x :
  (forall a b, R a b -> b ∈ dkeys nodes) -> pred_finite (tc R x).
Proof.
  intros H. exists (dkeys nodes). intros y Ht.
  induction Ht as [a b E|a b c E _ IH]; [by eapply H | exact IH].
Qed.

Lemma tc_flip {A} (R : relation A) x y : tc (flip R) x y <-> tc R y x.
Proof.
  assert (H : forall (S : relation A) x y, tc (flip S) x y -> tc S y x).
  { clear. intros S. induction 1 as [a b E|a b c E _ IH]; [by apply tc_once | by eapply tc_r]. }
  split; [apply H | apply (H (flip R))].
Qed.

(** Acyclic graphs can be recursed on in both directions. *)
Lemma acyclic_acc x : acyclic nodes -> Acc (edge nodes) x.
Proof.
  intros Hac. assert (Hs : sn (flip (edge nodes)) x).
  { apply tc_finite_sn.
    - intros y Hy. by apply (Hac y), tc_flip.
    - apply edge_keys_finite. intros a b He. by apply (edge_keys nodes Hwf b a). }
  exact Hs.
Qed.

Lemma acyclic_acc_flip x : acyclic nodes -> Acc (flip (edge nodes)) x.
Proof.
  intros Hac. apply tc_finite_sn; [exact Hac|].
  apply edge_keys_finite. intros a b He. by apply (edge_keys nodes Hwf a b).
Qed.

Lemma topo_sorted_tc l a x l1 l2 :
  topo_sorted nodes l -> l = l1 ++ x :: l2 -> tc (edge nodes) a x -> a ∈ l1.
Proof.
  intros Hs E Ht. revert l1 l2 E. induction Ht as [a b He|a b c He _ IH]; intros l1 l2 E; [by eapply Hs|].
  destruct (list_elem_of_split _ _ (IH l1 l2 E)) as (m1 & m2 & ->).
  rewrite <- app_assoc in E. apply elem_of_app. left. by eapply Hs.
Qed.

Lemma topo_sorted_acyclic l :
  topo_sorted nodes l -> NoDup l -> (forall k, k ∈ dkeys nodes -> k ∈ l) -> acyclic nodes.
Proof.
  intros Hs Hnd Hall x Ht.
  assert (Hx : x ∈ dkeys nodes) by (inversion Ht as [? ? He|? ? ? He]; subst; by destruct (edge_keys nodes Hwf _ _ He)).
  destruct (list_elem_of_split _ _ (Hall x Hx)) as (l1 & l2 & E).
  pose proof (topo_sorted_tc l x x l1 l2 Hs E Ht) as Hin. rewrite E in Hnd.
  apply NoDup_app in Hnd as (_ & Hd & _). apply (Hd x Hin). by left.
Qed.

Lemma topological_sort_cases :
  exists l, topological_sort nodes = Ok l /\
    ((acyclic nodes /\ l ≡ₚ dkeys nodes /\ topo_sorted nodes l) \/ (l = [] /\ ~ acyclic nodes)).
Proof.
  unfold topological_sort. pose proof (kahn_start nodes Hwf) as H0.
  destruct (kahn_loop_spec nodes Hwf (length nodes) _ _ [] H0 ltac:(simpl; lia)) as (r & deg & -> & Hi). simpl.
  eexists. split; [reflexivity|]. destruct Hi as [Hnd _ _ Hz Hin Hs]. rewrite app_nil_r in Hnd, Hz, Hin.
  assert (Hlen : (length r <= length nodes)%nat).
  { rewrite <- (length_map fst nodes). by apply submseteq_length, NoDup_submseteq. }
  destruct (Nat.eqb_spec (length r) (length nodes)) as [El|El].
  - assert (Hp : r ≡ₚ dkeys nodes).
    { apply submseteq_length_Permutation; [by apply NoDup_submseteq|]. unfold dkeys. rewrite length_map. lia. }
    left. split; [|done]. apply (topo_sorted_acyclic r); [done..|]. intros k Hk. by rewrite Hp.
  - right. split; [done|]. intros Hac. apply El.
    assert (Hall : forall k, k ∈ dkeys nodes -> k ∈ r).
    { intros k. induction (acyclic_acc k Hac) as [k _ IH]. intros Hk.
      destruct (dkeys_dget k nodes Hk) as [n En]. apply (Hz k n En), remaining_nil. intros a Ha.
      apply (edge_dependencies nodes Hwf a k n En) in Ha. apply (IH a Ha). by apply (edge_keys nodes Hwf a k). }
    assert (Hge : (length (dkeys nodes) <= length r)%nat).
    { apply submseteq_length, NoDup_submseteq; [apply Hwf | exact Hall]. }
    unfold dkeys in Hge. rewrite length_map in Hge. lia.
Qed.

(** [_topological_sort] is right on every well-formed table.  It always
    returns: on an acyclic graph all steps, each once and each after all it
    depends on; on a cyclic graph the empty list. *)
Theorem topological_sort_correct :
  exists l, topological_sort nodes = Ok l /\
    (acyclic nodes -> l ≡ₚ dkeys nodes /\
       forall l1 x l2 a, l = l1 ++ x :: l2 -> edge nodes a x -> a ∈ l1) /\
    (~ acyclic nodes -> l = []).
Proof.
  destruct topological_sort_cases as (l & E & [(Ha & Hp & Hs)|[-> Hn]]); eexists; (split; [exact E|]).
  - split; [|done]. intros _. split; [done|]. intros l1 x l2 a El He. by eapply Hs.
  - split; done.
Qed.

End Sorted.

(** ** Longest paths *)

Lemma nsteps_flip {A} (R : relation A) n x y : nsteps (flip R) n x y <-> nsteps R n y x.
Proof.
  assert (H : forall (S : relation A) m a b, nsteps (flip S) m a b -> nsteps S m b a).
  { clear. induction 1; [constructor | by eapply nsteps_r]. }
  split; [apply H | apply (H (flip R))].
Qed.

Section Longest.
Context {A : Type} (R : relation A).

(** The longest [R]-path from [x] has [n] steps. *)
Definition longest (x : A) (n : nat) : Prop :=
  (exists y, nsteps R n x y) /\ forall m y, nsteps R m x y -> (m <= n)%nat.

Lemma longest_unique x n m : longest x n -> longest x m -> n = m.
Proof. intros [[y Hy] H1] [[z Hz] H2]. pose proof (H1 _ _ Hz). pose proof (H2 _ _ Hy). lia. Qed.

Lemma longest_leaf x : (forall y, ~ R x y) -> longest x 0.
Proof.
  intros H. split; [exists x; constructor|]. intros m y Hn.
  inversion Hn as [|? ? z ? Hr]; subst; [lia | by destruct (H z)].
Qed.

Lemma max_list_in ns : ns <> [] -> max_list ns ∈ ns.
Proof.
  induction ns as [|n ns IH]; [done|]. intros _. simpl. destruct (decide (ns = [])) as [->|Hne].
  - simpl. rewrite Nat.max_0_r. by left.
  - destruct (Nat.max_spec n (max_list ns)) as [[_ ->]|[_ ->]]; [right; by apply IH | by left].
Qed.

Lemma longest_step x ds ns :
  (forall y, R x y <-> y ∈ ds) -> ds <> [] -> Forall2 longest ds ns -> longest x (S (max_list ns)).
Proof.
  intros HR Hne Hf. assert (Hns : ns <> []) by (destruct Hf; done). split.
  - apply max_list_in in Hns. apply list_elem_of_lookup in Hns as [i Hi].
    destruct (Forall2_lookup_r _ _ _ _ _ Hf Hi) as (y & Hy & [[z Hz] _]).
    exists z. econstructor; [|exact Hz]. apply HR. by eapply list_elem_of_lookup_2.
  - intros m y Hn. inversion Hn as [|m' ? z ? Hr Hm]; subst; [lia|]. apply HR in Hr.
    apply list_elem_of_lookup in Hr as [i Hi].
    destruct (Forall2_lookup_l _ _ _ _ _ Hf Hi) as (n & Hin & [_ Hmax]).
    pose proof (Hmax _ _ Hm). assert (n <= max_list ns)%nat; [|lia].
    clear -Hin. revert i Hin. induction ns as [|a ns IH]; intros [|i] Hin; simpl in *; try done.
    + injection Hin as ->. lia.
    + specialize (IH i Hin). lia.
Qed.

End Longest.

(** ** Passes over a topological order

    A value per step, computed from those of the steps it comes after. *)
Section Pass.
Context {V : Type} (nodes : Nodes) (R : relation string).
Context (den : nat -> V -> Prop).

(** [d] records the length of the longest path of every step of [pre]. *)
Definition recorded (pre : list string) (d : list (string * V)) : Prop :=
  forall k, k ∈ pre -> exists n v, longest R k n /\ (n < length pre)%nat /\
    dget k d = Some v /\ den n v.

Lemma recorded_extend pre d x n v :
  recorded pre d -> x ∉ pre -> longest R x n -> (n <= length pre)%nat -> den n v ->
  recorded (pre ++ [x]) (dset x v d).
Proof.
  intros H Hx Hl Hn Hv k Hk. rewrite length_app. simpl. destruct (decide (k = x)) as [->|Hne].
  - exists n, v. rewrite dget_dset_eq. repeat split; try apply Hl; (done || lia).
  - apply elem_of_app in Hk as [Hk|Hk]; [|by apply list_elem_of_singleton in Hk].
    destruct (H k Hk) as (m & w & ? & ? & ? & ?). exists m, w. rewrite dget_dset_ne by done.
    repeat split; try done; try lia; by destruct H0.
Qed.

(** The next step, all of whose successors along [R] are recorded. *)
Lemma recorded_next pre d x ds (def : V) :
  recorded pre d -> (forall y, R x y <-> y ∈ ds) -> (forall y, y ∈ ds -> y ∈ pre) ->
  (ds = [] /\ longest R x 0) \/
  (ds <> [] /\ exists ns, longest R x (S (max_list ns)) /\ (S (max_list ns) <= length pre)%nat /\
     Forall2 den ns (map (fun y => get_or def (dget y d)) ds) /\ length ns = length ds).
Proof.
  intros H HR Hin. destruct (decide (ds = [])) as [->|Hne].
  { left. split; [done|]. apply longest_leaf. intros y Hy%HR. inversion Hy. }
  right. split; [done|].
  assert (Hf : exists ns, Forall2 (longest R) ds ns /\ Forall (fun n => n < length pre)%nat ns /\
            Forall2 den ns (map (fun y => get_or def (dget y d)) ds)).
  { clear HR Hne. induction ds as [|y ds IH]; [by exists []|].
    destruct IH as (ns & H1 & H2 & H3); [intros z Hz; apply Hin; by right|].
    destruct (H y ltac:(apply Hin; by left)) as (n & v & Hl & Hlt & Hg & Hv).
    exists (n :: ns). split; [by constructor|]. split; [by constructor|]. simpl. rewrite Hg. by constructor. }
  destruct Hf as (ns & H1 & H2 & H3). exists ns. split; [by eapply longest_step|].
  pose proof (Forall2_length _ _ _ H1) as Hlen. split; [|done].
  assert (Hns : ns <> []) by (destruct ns; destruct ds; done).
  apply max_list_in in Hns. rewrite Forall_forall in H2. by apply H2 in Hns.
Qed.

End Pass.

Section Depths.
Context (nodes : Nodes) (Hwf : well_formed nodes).

Lemma max_from_list ns : forall m vs, Forall2 (fun n v => v = Z.of_nat n) ns vs ->
  max_from (Z.of_nat m) vs = Z.of_nat (Nat.max m (max_list ns)).
Proof.
  induction ns as [|n ns IH]; intros m vs Hf; inversion Hf; subst; simpl.
  - f_equal. lia.
  - rewrite <- Nat2Z.inj_max, IH by done. f_equal. lia.
Qed.

Lemma depths_loop_spec ids : forall pre d,
  topo_sorted nodes (pre ++ ids) -> NoDup (pre ++ ids) -> (forall k, k ∈ ids -> k ∈ dkeys nodes) ->
  recorded (flip (edge nodes)) (fun n v => v = Z.of_nat n) pre d ->
  exists d', depths_loop nodes ids d = Ok d' /\
    recorded (flip (edge nodes)) (fun n v => v = Z.of_nat n) (pre ++ ids) d'.
Proof.
  induction ids as [|x ids IH]; intros pre d Hs Hnd Hk Hr; simpl; [exists d; by rewrite app_nil_r|].
  destruct (dkeys_dget x nodes (Hk x ltac:(by left))) as [n En].
  pose proof (fun y => edge_dependencies nodes Hwf y x n En) as HR.
  assert (Hin : forall y, y ∈ dependencies n -> y ∈ pre) by (intros y Hy; by eapply Hs, HR).
  assert (Hx : x ∉ pre) by (apply NoDup_app in Hnd as (_ & Hd & _); intros Hp; apply (Hd x Hp); by left).
  assert (Hstep : exists m, depth_of nodes d x = Ok (Z.of_nat m) /\ longest (flip (edge nodes)) x m /\ (m <= length pre)%nat).
  { unfold depth_of. rewrite En.
    destruct (recorded_next _ _ pre d x (dependencies n) 0 Hr HR Hin) as [[-> Hl]|(Hne & ns & Hl & Hb & Hf & Hlen)].
    - exists 0%nat. split; [done|]. split; [done | lia].
    - exists (S (max_list ns)). split; [|done].
      destruct Hf as [|a v ns vs Ha Hf]; [destruct (dependencies n); done|].
      subst v. rewrite (max_from_list ns a vs Hf). do 2 f_equal. simpl. lia. }
  destruct Hstep as (m & -> & Hl & Hb). simpl.
  rewrite cons_middle, app_assoc in Hs, Hnd |- *.
  apply IH; [done..| |].
  - intros k Hk'. apply Hk. by right.
  - by eapply recorded_extend.
Qed.

(** On an acyclic table [calculate_step_depths] returns for every step the
    number of edges on the longest chain of dependencies below it. *)
Theorem step_depths_longest :
  acyclic nodes ->
  exists d, calculate_step_depths nodes = Ok d /\
    forall k, k ∈ dkeys nodes -> exists n, dget k d = Some (Z.of_nat n) /\
      (exists root, nsteps (edge nodes) n root k) /\
      forall m y, nsteps (edge nodes) m y k -> (m <= n)%nat.
Proof.
  intros Hac. destruct (topological_sort_cases nodes Hwf) as (l & E & [(_ & Hp & Hs)|[_ Hn]]); [|done].
  assert (Hnd : NoDup l) by (rewrite Hp; apply Hwf).
  destruct (depths_loop_spec l [] [] Hs Hnd ltac:(intros k; by rewrite Hp) ltac:(intros k Hk; inversion Hk)) as (d & Ed & Hr).
  exists d. split.
  { unfold calculate_step_depths. rewrite E. simpl. destruct nodes; [|exact Ed].
    apply Permutation_nil_r in Hp. simpl in Hp. by subst l. }
  intros k Hk. rewrite <- Hp in Hk. destruct (Hr k Hk) as (n & v & [[y Hy] Hmax] & _ & Hg & ->).
  exists n. split; [done|]. split; [exists y; by apply nsteps_flip|].
  intros m z Hz. by eapply Hmax, nsteps_flip.
Qed.

End Depths.

(** ** Uniform durations *)

Section UniformPath.
Context (nodes : Nodes) (Hwf : well_formed nodes).
Context (durations : Times) (Hone : forall k, duration durations k = 1%Q).
Context (Hsmall : Z.of_nat (length nodes) <= 2 ^ 53).

Lemma fadd_int a b m n : (a == inject_Z m)%Q -> (b == inject_Z n)%Q -> Z.abs (m + n) <= 2 ^ 53 ->
  (fadd a b == inject_Z (m + n))%Q.
Proof.
  intros Ha Hb Hs. unfold fadd. rewrite Ha, Hb, <- inject_Z_plus. by apply rnd_int.
Qed.

Lemma fsub_int a b m n : (a == inject_Z m)%Q -> (b == inject_Z n)%Q -> Z.abs (m - n) <= 2 ^ 53 ->
  (fsub a b == inject_Z (m - n))%Q.
Proof.
  intros Ha Hb Hs. unfold fsub, Qminus. rewrite Ha, Hb, <- inject_Z_opp, <- inject_Z_plus. by apply rnd_int.
Qed.

Definition is_int (n : Z) (v : Q) : Prop := (v == inject_Z n)%Q.

Lemma fmax_int a b m n : is_int m a -> is_int n b -> is_int (Z.max m n) (fmax a b).
Proof.
  unfold is_int, fmax. intros Ha Hb. destruct (flt a b) eqn:E; q_prop; rewrite Ha, Hb in E.
  - rewrite <- Zlt_Qlt in E. rewrite Hb. by rewrite Z.max_r by lia.
  - rewrite <- Zle_Qle in E. rewrite Ha. by rewrite Z.max_l by lia.
Qed.

Lemma fmin_int a b m n : is_int m a -> is_int n b -> is_int (Z.min m n) (fmin a b).
Proof.
  unfold is_int, fmin. intros Ha Hb. destruct (flt b a) eqn:E; q_prop; rewrite Ha, Hb in E.
  - rewrite <- Zlt_Qlt in E. rewrite Hb. by rewrite Z.min_r by lia.
  - rewrite <- Zle_Qle in E. rewrite Ha. by rewrite Z.min_l by lia.
Qed.

(** Finish times [n + 1] fold to the largest; start times [D - n] to the
    smallest. *)
Lemma fmax_from_list ns : forall m v vs, is_int (Z.of_nat m + 1) v ->
  Forall2 (fun n v => is_int (Z.of_nat n + 1) v) ns vs ->
  is_int (Z.of_nat (Nat.max m (max_list ns)) + 1) (fmax_from v vs).
Proof.
  induction ns as [|n ns IH]; intros m v vs Hv Hf; inversion Hf as [|? w ? vs' Hw Hf']; subst; simpl.
  { by rewrite Nat.max_0_r. }
  pose proof (fmax_int _ _ _ _ Hv Hw) as Hm.
  replace (Z.max (Z.of_nat m + 1) (Z.of_nat n + 1)) with (Z.of_nat (Nat.max m n) + 1) in Hm by lia.
  specialize (IH (Nat.max m n) _ vs' Hm Hf'). by rewrite Nat.max_assoc.
Qed.

Lemma fmin_from_list (D : Z) ns : forall m v vs, is_int (D - Z.of_nat m) v ->
  Forall2 (fun n v => is_int (D - Z.of_nat n) v) ns vs ->
  is_int (D - Z.of_nat (Nat.max m (max_list ns))) (fmin_from v vs).
Proof.
  induction ns as [|n ns IH]; intros m v vs Hv Hf; inversion Hf as [|? w ? vs' Hw Hf']; subst; simpl.
  { by rewrite Nat.max_0_r. }
  pose proof (fmin_int _ _ _ _ Hv Hw) as Hm.
  replace (Z.min (D - Z.of_nat m) (D - Z.of_nat n)) with (D - Z.of_nat (Nat.max m n)) in Hm by lia.
  specialize (IH (Nat.max m n) _ vs' Hm Hf'). by rewrite Nat.max_assoc.
Qed.

Lemma prefix_small (pre ids : list string) x :
  NoDup (pre ++ x :: ids) -> (forall k, k ∈ pre ++ x :: ids -> k ∈ dkeys nodes) ->
  Z.of_nat (length pre) < 2 ^ 53.
Proof.
  intros Hnd Hk. pose proof (submseteq_length _ _ (NoDup_submseteq _ _ Hnd Hk)) as Hl.
  unfold dkeys in Hl. rewrite length_map, length_app in Hl. simpl in Hl. lia.
Qed.

Lemma forward_pass_spec ids : forall pre start finish,
  topo_sorted nodes (pre ++ ids) -> NoDup (pre ++ ids) -> (forall k, k ∈ pre ++ ids -> k ∈ dkeys nodes) ->
  recorded (flip (edge nodes)) (fun n v => is_int (Z.of_nat n) v) pre start ->
  recorded (flip (edge nodes)) (fun n v => is_int (Z.of_nat n + 1) v) pre finish -> dkeys finish = pre ->
  exists start' finish', forward_pass durations nodes ids start finish = Ok (start', finish') /\
    recorded (flip (edge nodes)) (fun n v => is_int (Z.of_nat n) v) (pre ++ ids) start' /\
    recorded (flip (edge nodes)) (fun n v => is_int (Z.of_nat n + 1) v) (pre ++ ids) finish' /\
    dkeys finish' = pre ++ ids.
Proof.
  induction ids as [|x ids IH]; intros pre st fi Hs Hnd Hk Hrs Hrf Hkf; simpl;
    [exists st, fi; by rewrite app_nil_r|].
  destruct (dkeys_dget x nodes) as [n En]; [apply Hk; set_solver|]. rewrite En.
  pose proof (fun y => edge_dependencies nodes Hwf y x n En) as HR.
  assert (Hin : forall y, y ∈ dependencies n -> y ∈ pre) by (intros y Hy; by eapply Hs, HR).
  assert (Hx : x ∉ pre) by (apply NoDup_app in Hnd as (_ & Hd & _); intros Hp; apply (Hd x Hp); by left).
  pose proof (prefix_small pre ids x Hnd Hk) as Hsm.
  set (s := match map _ (dependencies n) with [] => 0%Q | y :: l => fmax_from y l end).
  assert (Hstep : exists m, is_int (Z.of_nat m) s /\ longest (flip (edge nodes)) x m /\ (m <= length pre)%nat).
  { destruct (recorded_next _ _ pre fi x (dependencies n) 0%Q Hrf HR Hin) as [[Hz Hl]|(Hne & ns & Hl & Hb & Hf & Hlen)].
    - exists 0%nat. unfold s. rewrite Hz. simpl. split; [done|]. split; [done | lia].
    - exists (S (max_list ns)). split; [|done]. unfold s.
      destruct Hf as [|a v ns vs Ha Hf]; [destruct (dependencies n); done|].
      pose proof (fmax_from_list ns a v vs Ha Hf) as Hm. simpl.
      replace (Z.of_nat (S (Nat.max a (max_list ns)))) with (Z.of_nat (Nat.max a (max_list ns)) + 1) by lia. done. }
  destruct Hstep as (m & Hm & Hl & Hb). rewrite cons_middle, app_assoc in Hs, Hnd, Hk |- *.
  apply IH; try done; [by eapply recorded_extend | eapply recorded_extend; try done | ].
  - rewrite Hone. apply (fadd_int s 1%Q _ 1); [done | done | lia].
  - rewrite dkeys_dset_absent by (by rewrite Hkf). by rewrite Hkf.
Qed.

Lemma backward_pass_spec (D : Z) total ids : forall pre start,
  is_int (D + 1) total -> 0 <= D < 2 ^ 53 ->
  (forall l1 x l2, pre ++ ids = l1 ++ x :: l2 -> forall b, edge nodes x b -> b ∈ l1) ->
  NoDup (pre ++ ids) -> (forall k, k ∈ pre ++ ids -> k ∈ dkeys nodes) ->
  recorded (edge nodes) (fun n v => is_int (D - Z.of_nat n) v) pre start ->
  exists start', backward_pass durations nodes total ids start = Ok start' /\
    recorded (edge nodes) (fun n v => is_int (D - Z.of_nat n) v) (pre ++ ids) start'.
Proof.
  induction ids as [|x ids IH]; intros pre st Ht HD Hs Hnd Hk Hr; simpl; [exists st; by rewrite app_nil_r|].
  destruct (dkeys_dget x nodes) as [n En]; [apply Hk; set_solver|]. rewrite En.
  assert (HR : forall y, edge nodes x y <-> y ∈ dependents n).
  { intros y. unfold edge. split; [intros (n' & E' & ?); by simplify_eq | by exists n]. }
  assert (Hin : forall y, y ∈ dependents n -> y ∈ pre) by (intros y Hy; by eapply Hs, HR).
  assert (Hx : x ∉ pre) by (apply NoDup_app in Hnd as (_ & Hd & _); intros Hp; apply (Hd x Hp); by left).
  pose proof (prefix_small pre ids x Hnd Hk) as Hsm.
  set (f := match map _ (dependents n) with [] => total | y :: l => fmin_from y l end).
  assert (Hstep : exists m, is_int (D + 1 - Z.of_nat m) f /\ longest (edge nodes) x m /\ (m <= length pre)%nat).
  { destruct (recorded_next _ _ pre st x (dependents n) total Hr HR Hin) as [[Hz Hl]|(Hne & ns & Hl & Hb & Hf & Hlen)].
    - exists 0%nat. unfold f. rewrite Hz. simpl. rewrite Z.sub_0_r. split; [done|]. split; [done | lia].
    - exists (S (max_list ns)). split; [|done]. unfold f.
      destruct Hf as [|a v ns vs Ha Hf]; [destruct (dependents n); done|].
      pose proof (fmin_from_list D ns a v vs Ha Hf) as Hm. simpl.
      replace (D + 1 - Z.of_nat (S (Nat.max a (max_list ns)))) with (D - Z.of_nat (Nat.max a (max_list ns))) by lia. done. }
  destruct Hstep as (m & Hm & Hl & Hb). rewrite cons_middle, app_assoc in Hs, Hnd, Hk |- *.
  apply IH; try done. eapply recorded_extend; try done.
  rewrite Hone. unfold is_int. replace (D - Z.of_nat m) with (D + 1 - Z.of_nat m - 1) by lia.
  apply (fsub_int f 1%Q _ 1); [done | done | lia].
Qed.

End UniformPath.

(** ** The critical path *)

(** [x] lies on a path that no path of the graph exceeds in length. *)
Definition on_longest_path (nodes : Nodes) (x : string) : Prop :=
  exists a b i j, nsteps (edge nodes) i a x /\ nsteps (edge nodes) j x b /\
    forall k a' b', nsteps (edge nodes) k a' b' -> (k <= i + j)%nat.

Section Critical.
Context (nodes : Nodes) (Hwf : well_formed nodes) (Hac : acyclic nodes).
Context (Hsmall : Z.of_nat (length nodes) <= 2 ^ 53).

Lemma rev_order l x l1 l2 b :
  topo_sorted nodes l -> NoDup l -> (forall k, k ∈ dkeys nodes -> k ∈ l) ->
  rev l = l1 ++ x :: l2 -> edge nodes x b -> b ∈ l1.
Proof.
  intros Hs Hnd Hall E He. assert (El : l = rev l2 ++ x :: rev l1).
  { rewrite <- (rev_involutive l), E, rev_app_distr. simpl. by rewrite <- app_assoc. }
  assert (Hb : b ∈ l) by (apply Hall; by destruct (edge_keys nodes Hwf x b He)).
  destruct (list_elem_of_split _ _ Hb) as (m1 & m2 & E2).
  pose proof (Hs m1 b m2 E2 x He) as Hx. rewrite El in Hb. apply elem_of_app in Hb as [Hb|Hb].
  - destruct (list_elem_of_split _ _ Hb) as (n1 & n2 & E3).
    assert (Hx' : x ∈ n1) by (eapply Hs; [|exact He]; rewrite El, E3, <- app_assoc; reflexivity).
    rewrite El in Hnd. apply NoDup_app in Hnd as (_ & Hd & _). exfalso.
    apply (Hd x); [rewrite E3; set_solver | by left].
  - apply elem_of_cons in Hb as [->|Hb].
    + exfalso. apply (Hac x). by apply tc_once.
    + by rewrite <- elem_of_rev.
Qed.

(** The largest of the recorded finish times. *)
Lemma fmax_from_bound vs : forall v, (v <= fmax_from v vs)%Q /\
  (forall w, w ∈ vs -> (w <= fmax_from v vs)%Q) /\ fmax_from v vs ∈ v :: vs.
Proof.
  induction vs as [|w vs IH]; intros v; simpl.
  { split; [apply Qle_refl|]. split; [intros w Hw; inversion Hw | by left]. }
  destruct (IH (fmax v w)) as (H1 & H2 & H3). pose proof (fmax_l v w). pose proof (fmax_r v w).
  split; [lra|]. split.
  - intros u [->|Hu]%elem_of_cons; [lra | by apply H2].
  - apply elem_of_cons in H3 as [->|H3]; [|by right; right].
    apply (fmax_case (fun q => q ∈ v :: w :: vs)); [by left | by right; left].
Qed.

Lemma total_duration_spec l finish :
  l <> [] -> recorded (flip (edge nodes)) (fun n v => is_int (Z.of_nat n + 1) v) l finish -> dkeys finish = l ->
  NoDup l -> exists D k, is_int (Z.of_nat D + 1) (total_duration finish) /\ k ∈ l /\
    longest (flip (edge nodes)) k D /\
    forall k' n, k' ∈ l -> longest (flip (edge nodes)) k' n -> (n <= D)%nat.
Proof.
  intros Hne Hr Hk Hnd. unfold total_duration.
  assert (Hv : forall v, v ∈ map snd finish -> exists k n, k ∈ l /\ longest (flip (edge nodes)) k n /\ is_int (Z.of_nat n + 1) v).
  { intros v ([k w] & -> & Hin)%list_elem_of_fmap. rewrite <- Hk in Hr, Hnd |- *.
    assert (Hkk : k ∈ dkeys finish) by (apply list_elem_of_fmap; by exists (k, w)).
    destruct (Hr k Hkk) as (n & v & Hl & _ & Hg & Hd). exists k, n. split; [done|]. split; [done|].
    rewrite (elem_of_dget k w _ Hnd Hin) in Hg. injection Hg as ->. done. }
  assert (Hm : forall k n, k ∈ l -> longest (flip (edge nodes)) k n -> exists v, v ∈ map snd finish /\ is_int (Z.of_nat n + 1) v).
  { intros k n Hin Hl. destruct (Hr k Hin) as (n' & v & Hl' & _ & Hg & Hd).
    rewrite (longest_unique _ _ _ _ Hl Hl'). exists v. split; [|done].
    apply list_elem_of_fmap. exists (k, v). split; [done | by apply dget_Some_in]. }
  destruct (map snd finish) as [|v vs].
  { destruct l as [|k l]; [done|]. destruct (Hr k ltac:(by left)) as (n & _ & Hl & _).
    destruct (Hm k n ltac:(by left) Hl) as (v & Hv' & _). inversion Hv'. }
  destruct (fmax_from_bound vs v) as (H1 & H2 & H3). destruct (Hv _ H3) as (k & D & Hin & Hl & HD).
  exists D, k. split; [done|]. split; [done|]. split; [done|]. intros k' n Hin' Hl'.
  destruct (Hm k' n Hin' Hl') as (w & Hw & Hn).
  assert (Hle : (w <= fmax_from v vs)%Q) by (apply elem_of_cons in Hw as [->|Hw]; [done | by apply H2]).
  unfold is_int in *. rewrite Hn, HD, <- Zle_Qle in Hle. lia.
Qed.

(** Zero slack between whole numbers is equality. *)
Lemma slack_int a b m n : is_int m a -> is_int n b -> Z.abs (m - n) <= 2 ^ 53 ->
  flt (Qabs (fsub a b)) epsilon = true <-> m = n.
Proof.
  intros Ha Hb Hs. pose proof (fsub_int a b m n Ha Hb Hs) as Hd.
  assert (He : (0 < epsilon /\ epsilon < 1)%Q) by (vm_compute; done). rewrite flt_spec.
  assert (Hq : (Qabs (fsub a b) == inject_Z (Z.abs (m - n)))%Q) by (rewrite Hd; reflexivity).
  rewrite Hq. split.
  - intros Hlt. destruct (Z.eq_dec m n) as [|Hne]; [done|].
    assert (H1 : (inject_Z 1 <= inject_Z (Z.abs (m - n)))%Q) by (rewrite <- Zle_Qle; lia).
    change (inject_Z 1) with 1%Q in H1. lra.
  - intros ->. rewrite Z.sub_diag. change (inject_Z (Z.abs 0)) with 0%Q. lra.
Qed.

Lemma critical_of_spec start latest (P : string -> Prop) ids :
  (forall k, k ∈ ids -> exists c, zero_slack start latest k = Ok c /\ (c = true <-> P k)) ->
  exists l, critical_of start latest ids = Ok l /\ l `sublist_of` ids /\ forall k, k ∈ l <-> k ∈ ids /\ P k.
Proof.
  induction ids as [|x ids IH]; intros H; simpl.
  { exists []. split; [done|]. split; [done|]. intros k. split; [intros Hk; inversion Hk | by intros [Hk _]]. }
  destruct (H x ltac:(by left)) as (c & -> & Hc). destruct IH as (l & -> & Hs & Hl); [intros k Hk; apply H; by right|].
  simpl. destruct c; eexists; (split; [reflexivity|]); (split; [by constructor|]); intros k;
    rewrite ?elem_of_cons, Hl.
  - split; [intros [->|[]]; split; auto; by apply Hc | intros [[->|] ?]; auto].
  - split; [intros []; auto | intros [[->|] Hp]; [by apply Hc in Hp | done]].
Qed.

(** The slack of a step compares the depth above it and below it with the
    length of the longest path. *)
Lemma slack_longest (l : list string) x k D d m :
  (forall y, y ∈ dkeys nodes -> y ∈ l) ->
  longest (flip (edge nodes)) k D -> (forall k' n, k' ∈ l -> longest (flip (edge nodes)) k' n -> (n <= D)%nat) ->
  (forall y, y ∈ l -> exists n, longest (flip (edge nodes)) y n) ->
  longest (flip (edge nodes)) x d -> longest (edge nodes) x m ->
  (Z.of_nat d = Z.of_nat D - Z.of_nat m <-> on_longest_path nodes x).
Proof.
  intros Hall [[r HD] _] Hmax Hex [[a Ha] Hd] [[b Hb] Hm].
  assert (Hany : forall n y z, nsteps (edge nodes) n y z -> (n <= D)%nat).
  { intros [|n] y z Hn; [lia|]. destruct (nsteps_inv_r _ _ _ Hn) as (w & _ & He).
    destruct (Hex z (Hall z (proj2 (edge_keys nodes Hwf w z He)))) as (h & Hh).
    pose proof (Hmax z h (Hall z (proj2 (edge_keys nodes Hwf w z He))) Hh).
    destruct Hh as [_ Hh]. specialize (Hh (S n) y ltac:(by apply nsteps_flip)). lia. }
  apply (proj1 (nsteps_flip _ _ _ _)) in Ha, HD. split.
  - intros E. exists a, b, d, m. split; [done|]. split; [done|]. intros n y z Hn. specialize (Hany n y z Hn). lia.
  - intros (a' & b' & i & j & Hi & Hj & Hbest). pose proof (Hbest _ _ _ HD) as H1.
    pose proof (Hd i a' ltac:(by apply nsteps_flip)). pose proof (Hm j b' Hj).
    pose proof (Hany _ _ _ (nsteps_trans _ _ _ _ _ Ha Hb)). lia.
Qed.

Lemma uniform_duration k : duration (map (fun kn => (fst kn, 1%Q)) nodes) k = 1%Q.
Proof.
  unfold duration. clear Hwf Hac Hsmall. induction nodes as [|[j n] l IH]; simpl; [done|]. by case_decide.
Qed.

(** Both passes and the comparison on a topological order. *)
Lemma critical_path_of_spec l :
  l ≡ₚ dkeys nodes -> topo_sorted nodes l -> l <> [] ->
  exists c, critical_path_of (map (fun kn => (fst kn, 1%Q)) nodes) nodes l = Ok c /\ c `sublist_of` l /\
    forall k, k ∈ c <-> k ∈ l /\ on_longest_path nodes k.
Proof.
  intros Hp Hs Hne. assert (Hnd : NoDup l) by (rewrite Hp; apply Hwf).
  assert (Hkl : forall k, k ∈ dkeys nodes <-> k ∈ l) by (intros k; by rewrite Hp).
  assert (Hlen : length l = length nodes) by (rewrite Hp; unfold dkeys; by rewrite length_map).
  set (du := map (fun kn : string * StepNode => (fst kn, 1%Q)) nodes).
  destruct (forward_pass_spec nodes Hwf du uniform_duration Hsmall l [] [] [] Hs Hnd
    ltac:(intros k; by rewrite Hkl) ltac:(intros k Hk; inversion Hk) ltac:(intros k Hk; inversion Hk) eq_refl)
    as (st & fi & Ef & Hst & Hfi & Hkf).
  destruct (total_duration_spec l fi Hne Hfi Hkf Hnd) as (D & k0 & HD & Hk0 & HlD & HmD).
  assert (HDs : 0 <= Z.of_nat D < 2 ^ 53).
  { destruct (Hst k0 Hk0) as (n & _ & Hl & Hlt & _). rewrite (longest_unique _ _ _ _ HlD Hl).
    rewrite app_nil_l in Hlt. lia. }
  destruct (backward_pass_spec nodes Hwf du uniform_duration Hsmall (Z.of_nat D) (total_duration fi) (rev l) [] []
    HD HDs ltac:(intros l1 x l2 El b He; exact (rev_order l x l1 l2 b Hs Hnd (fun k Hk => proj1 (Hkl k) Hk) El He))
    ltac:(simpl; by rewrite <- (Permutation_rev l))
    ltac:(intros k; simpl; rewrite elem_of_rev, Hkl; done) ltac:(intros k Hk; inversion Hk)) as (la & Eb & Hla).
  unfold critical_path_of. rewrite Ef. simpl. rewrite Eb. simpl.
  apply critical_of_spec. intros x Hx.
  destruct (Hst x Hx) as (d & v & Hd & Hdl & Hg & Hv).
  destruct (Hla x (proj2 (elem_of_rev l x) Hx)) as (m & w & Hm & Hml & Hgw & Hw).
  unfold zero_slack. rewrite Hg, Hgw. eexists. split; [reflexivity|].
  rewrite (slack_int v w (Z.of_nat d) (Z.of_nat D - Z.of_nat m) Hv Hw).
  - apply (slack_longest l x k0); try done; [intros y; by rewrite Hkl|].
    intros y Hy. destruct (Hst y Hy) as (n & _ & Hn & _). by exists n.
  - pose proof (HmD x d Hx Hd). rewrite app_nil_l, length_rev in Hml. rewrite app_nil_l in Hdl. lia.
Qed.

(** With the default durations [calculate_critical_path] returns exactly
    the steps that lie on a longest chain of dependencies, in an order that
    respects the dependencies.  The floats of the two passes are exact for
    graphs of up to 2^53 steps, so the tolerance never matters. *)
Theorem critical_path_exact :
  exists order l, topological_sort nodes = Ok order /\
    calculate_critical_path nodes None = Ok l /\ l `sublist_of` order /\
    forall x, x ∈ l <-> x ∈ dkeys nodes /\ on_longest_path nodes x.
Proof.
  destruct (topological_sort_cases nodes Hwf) as (l & E & [(_ & Hp & Hs)|[_ Hn]]); [|done]. exists l.
  unfold calculate_critical_path. rewrite E. destruct (decide (l = [])) as [->|Hne].
  - apply Permutation_nil_l in Hp. exists []. split; [done|].
    destruct nodes as [|kn nl]; [|discriminate Hp]. split; [done|]. split; [done|].
    intros x. rewrite <- Hp. split; [intros Hx; inversion Hx | by intros [Hx _]].
  - destruct (critical_path_of_spec l Hp Hs Hne) as (c & Ec & Hsub & Hc). exists c.
    split; [done|]. split; [|split; [done|]].
    + destruct nodes; [by apply Permutation_nil_r in Hp|]. simpl. destruct l; [done | exact Ec].
    + intros x. by rewrite Hc, Hp.
Qed.

End Critical.

(** ** Parallel siblings *)

Lemma dep_index_add y ds d : forall (acc : list (string * list string)) x,
  x ∈ get_or [] (dget d (fold_left (fun acc d => dset d (set_add y (get_or [] (dget d acc))) acc) ds acc)) <->
  x ∈ get_or [] (dget d acc) \/ x = y /\ d ∈ ds.
Proof.
  induction ds as [|e ds IH]; intros acc x; simpl; [set_solver|].
  rewrite IH, elem_of_cons. destruct (decide (d = e)) as [->|Hne].
  - rewrite dget_dset_eq. simpl. rewrite elem_of_set_add. tauto.
  - rewrite dget_dset_ne by done. tauto.
Qed.

Lemma dep_index_spec nodes d x :
  NoDup (dkeys nodes) ->
  x ∈ get_or [] (dget d (dep_index nodes)) <-> exists m, dget x nodes = Some m /\ d ∈ dependencies m.
Proof.
  intros Hnd. unfold dep_index.
  assert (H : forall (l : Nodes) acc, x ∈ get_or [] (dget d (fold_left (fun acc kn =>
      fold_left (fun acc d => dset d (set_add (fst kn) (get_or [] (dget d acc))) acc)
                (dependencies (snd kn)) acc) l acc)) <->
      x ∈ get_or [] (dget d acc) \/ exists m, (x, m) ∈ l /\ d ∈ dependencies m).
  { induction l as [|[y m] l IH]; intros acc; simpl; [set_solver|].
    rewrite IH, dep_index_add. simpl. setoid_rewrite elem_of_cons. naive_solver. }
  rewrite H. simpl. split.
  - intros [Hx|(m & Hin & Hd)]; [inversion Hx|]. exists m. split; [by apply elem_of_dget | done].
  - intros (m & Em & Hd). right. exists m. split; [by apply dget_Some_in | done].
Qed.

(** [find_parallel_siblings] gives every step the other steps that share
    a dependency with it, without repetition and in alphabetical order. *)
Theorem parallel_siblings_exact nodes x n :
  well_formed nodes -> dget x nodes = Some n ->
  exists l, dget x (find_parallel_siblings nodes) = Some l /\ StronglySorted (le_by str_lt) l /\ NoDup l /\
    forall y, y ∈ l <-> y <> x /\ exists d m, d ∈ dependencies n /\ dget y nodes = Some m /\ d ∈ dependencies m.
Proof.
  intros Hwf En. exists (siblings_of (dep_index nodes) x n). split.
  { unfold find_parallel_siblings. generalize (dep_index nodes). clear Hwf. intros index.
    induction nodes as [|[j m] l IH]; simpl in *; [done|]. case_decide; [by simplify_eq | by apply IH]. }
  unfold siblings_of. cbv zeta. split; [apply sort_by_sorted, _|]. split.
  - rewrite sort_by_perm. eapply sublist_NoDup; [|apply lfilter_sublist].
    assert (Hg : forall ds acc, NoDup acc ->
      NoDup (fold_left (fun acc d => set_add_all (get_or [] (dget d (dep_index nodes))) acc) ds acc)).
    { induction ds as [|d ds IH]; intros acc Hacc; simpl; [done|]. by apply IH, NoDup_set_add_all. }
    apply Hg. constructor.
  - intros y. rewrite elem_of_sort_by, elem_of_lfilter, negb_true_iff, bool_decide_eq_false.
    assert (H : forall ds acc, y ∈ fold_left (fun acc d => set_add_all (get_or [] (dget d (dep_index nodes))) acc) ds acc <->
      y ∈ acc \/ exists d m, d ∈ ds /\ dget y nodes = Some m /\ d ∈ dependencies m).
    { induction ds as [|d ds IH]; intros acc; simpl; [set_solver|].
      rewrite IH, elem_of_set_add_all, (dep_index_spec nodes d y (wf_keys _ Hwf)).
      setoid_rewrite elem_of_cons. naive_solver. }
    rewrite H. set_solver.
Qed.

(** ** Witnesses *)

Lemma nodes_of_ok steps nodes :
  build_expanded no_names no_fields steps = Ok nodes -> well_formed nodes /\ acyclic nodes.
Proof.
  intros E. pose proof (build_cases no_names no_fields steps) as H. rewrite E in H. by destruct H.
Qed.

Lemma abcd_ok : well_formed abcd /\ acyclic abcd.
Proof.
  eapply (nodes_of_ok [plain_step "a" []; plain_step "b" ["a"%string]; plain_step "c" ["b"%string];
            plain_step "d" ["a"%string]]). vm_compute. reflexivity.
Qed.

Lemma topological_sort_correct_witness : exists l, topological_sort abcd = Ok l /\ length l = 4%nat.
Proof.
  destruct (topological_sort_correct abcd (proj1 abcd_ok)) as (l & E & H & _). exists l. split; [exact E|].
  rewrite (proj1 (H (proj2 abcd_ok))). reflexivity.
Defined.

Lemma step_depths_longest_witness :
  exists d n, calculate_step_depths abcd = Ok d /\ dget "c"%string d = Some (Z.of_nat n).
Proof.
  destruct (step_depths_longest abcd (proj1 abcd_ok) (proj2 abcd_ok)) as (d & E & H).
  destruct (H "c"%string) as (n & Hn & _); [apply (bool_decide_unpack ("c"%string ∈ dkeys abcd)); vm_compute; exact I|].
  exists d, n. split; [exact E | exact Hn].
Defined.

Lemma critical_path_exact_witness :
  exists l, calculate_critical_path abcd None = Ok l /\ l = ["a"; "b"; "c"]%string.
Proof.
  destruct (critical_path_exact abcd (proj1 abcd_ok) (proj2 abcd_ok)) as (o & l & _ & E & _); [vm_compute; discriminate|].
  exists l. split; [exact E|]. rewrite abcd_critical in E. injection E as <-. reflexivity.
Defined.

Lemma parallel_siblings_exact_witness :
  exists n l, dget "b"%string abcd = Some n /\ dget "b"%string (find_parallel_siblings abcd) = Some l.
Proof.
  destruct (dget "b"%string abcd) as [n|] eqn:E; [|vm_compute in E; discriminate E].
  destruct (parallel_siblings_exact abcd "b" n (proj1 abcd_ok) E) as (l & El & _).
  exists n, l. split; [reflexivity | exact El].
Defined.
