(* ===== verification/DagExecutor.v ===== *)
(** * Execution of a pipeline graph
    ([pipeline/core/execution/dag_executor/executor/*.py],
    [model_tracker.py], [dag_executor/model_coordination.py],
    [dag_executor/observability/outcomes.py])

    [DAGExecutor.execute] as a transition system.  The scheduler coroutine is
    a program counter that advances one element of its loops at a time; the
    tasks of running steps finish while the scheduler is suspended, that is
    while it resolves models in [filter_ready_steps] and [launch_steps] or
    waits for completions.  Events and telemetry are left out. *)
From stdpp Require Import base gmap sets list strings relations.
From Stdlib Require Import ZArith Lia.
From S2P Require Import Prelude PyString PipelineStep PipelineDag CriticalPath.

(** ** [ModelUsageTracker]: model id to the step using it *)

Definition can_acquire (m : string) (t : gmap string string) : bool := bool_decide (t !! m = None).
Definition acquire (m sid : string) (t : gmap string string) : gmap string string := <[m := sid]> t.
Definition release (m sid : string) (t : gmap string string) : gmap string string :=
  if bool_decide (t !! m = Some sid) then delete m t else t.

(** ** State *)

(** How a step's task ended; a success may carry a stop. *)
Inductive Outcome : Type := Succeeded (stops : bool) | Failed.

Record Executor := mkExec {
  states : gmap string StepState;
  pending_tasks : list string;          (* started and not yet popped *)
  results : gmap string Outcome;        (* of the tasks that are done *)
  active : gmap string string;  (* the tracker *)
  tracked : gset string;                (* steps registered with gateway_tracker *)
  stop : option string;                 (* stop_step_id, once a stop is set *)
  outputs : list string;                (* keys of context.outputs *)
  execution_order : list string;
  cancelled : list string               (* tasks cancelled by fail-fast *)
}.

Inductive PC : Type :=
  | AtLoop
  | Filtering (ready todo launch : list string)
  | Launching (todo : list string) (launched skipped : bool)
  | Waiting
  | Handling (done : list string)
  | Done
  | Cancelled
  | Raised (e : error).

Definition set_state (x : string) (s : StepState) (e : Executor) : Executor :=
  mkExec (<[x := s]> (states e)) (pending_tasks e) (results e) (active e) (tracked e) (stop e)
         (outputs e) (execution_order e) (cancelled e).
Definition set_output (x : string) (e : Executor) : Executor :=
  mkExec (states e) (pending_tasks e) (results e) (active e) (tracked e) (stop e)
         (set_add x (outputs e)) (execution_order e) (cancelled e).

Definition state_is (e : Executor) (s : StepState) (x : string) : bool :=
  bool_decide (states e !! x = Some s).

(** A prerequisite that unlocks its dependents. *)
Definition satisfied (e : Executor) (x : string) : bool :=
  state_is e COMPLETED x || state_is e SKIPPED x.
Definition terminal (e : Executor) (x : string) : bool := satisfied e x || state_is e FAILED x.

(** Truth value of a YAML value. *)
Definition yaml_truthy (v : Yaml) : bool :=
  match v with
  | YNull => false
  | YBool b => b
  | YInt z => negb (z =? 0)%Z
  | YStr s => negb (bool_decide (s = ""%string))
  | YList l => negb (length l =? 0)%nat
  | YDict d => negb (length d =? 0)%nat
  end.

Section Executor.

(** The graph, fixed during a run. *)
Context (nodes : Nodes).

(** [evaluate_condition] on the outputs so far: it catches every exception of
    Python's [eval], so [None], a [ConditionDefinitionError], is its only
    failure; the model each step resolves
    to, cached for the run; whether the drift check passes; and whether the
    pipeline is [rag-search]. *)
Context (evaluate_condition : string -> list string -> option bool).
Context (target_model : string -> option string).
Context (consistent : string -> bool).
Context (is_rag_search : bool).

Definition deps (x : string) : list string :=
  match dget x nodes with Some n => dependencies n | None => [] end.
Definition successors (x : string) : list string :=
  match dget x nodes with Some n => dependents n | None => [] end.

Definition init : Executor :=
  mkExec (list_to_map (map (fun kn => (fst kn, state (snd kn))) nodes)) [] ∅ ∅ ∅ None [] [] [].

Definition all_done (e : Executor) : bool := forallb (terminal e) (dkeys nodes).
Definition incomplete_step_ids (e : Executor) : list string :=
  List.filter (fun x => negb (terminal e x)) (dkeys nodes).

(** [get_lock_model]; an empty model id is no model. *)
Definition truthy_model (m : option string) : option string :=
  match m with Some m => if bool_decide (m = ""%string) then None else Some m | None => None end.

Definition is_sub_step (x : string) : bool :=
  match dget x nodes with
  | Some n => match get_domain_field "_sub_pipeline_step" (step n) with
              | Some v => yaml_truthy v | None => false end
  | None => false
  end.

Definition get_lock_model (x : string) : option string :=
  if is_sub_step x then None else truthy_model (target_model x).

Definition can_launch_with_lock (x : string) (e : Executor) : bool :=
  match get_lock_model x with Some m => can_acquire m (active e) | None => true end.

(** [should_execute_step] *)
Definition should_execute_step (x : string) (e : Executor) : exn bool :=
  match dget x nodes with
  | None => Raise KeyError
  | Some n =>
      let enabled := match get_domain_field "enabled" (step n) with
                     | Some v => yaml_truthy v | None => true end in
      if negb enabled then Ok false
      else match condition (step n) with
           | None => Ok true
           | Some c =>
               if bool_decide (c = ""%string) then Ok true
               else match evaluate_condition c (outputs e) with
                    | Some b => Ok b
                    | None => if is_rag_search then Raise (StepDefinitionError x) else Ok false
                    end
           end
  end.

(** [propagate_completion] *)
Definition promote (e : Executor) (y : string) : Executor :=
  if forallb (satisfied e) (deps y) && state_is e PENDING y then set_state y READY e else e.

Definition propagate_completion (x : string) (e : Executor) : Executor :=
  match stop e with
  | Some _ => e
  | None => fold_left promote (successors x) e
  end.

Definition skip_step (x : string) (e : Executor) : Executor :=
  propagate_completion x (set_state x SKIPPED (set_output x e)).

(** [skip_unlaunched_for_stop]; no propagation.  Returns whether a node
    changed. *)
Definition skip_unlaunched (e : Executor) : Executor * bool :=
  fold_left (fun (acc : Executor * bool) x =>
    let (e, progressed) := acc in
    if state_is e PENDING x || state_is e READY x
    then (set_state x SKIPPED (set_output x e), true) else (e, progressed))
    (dkeys nodes) (e, false).

(** After [process_ready_steps]: the rest of the loop body of [execute_dag]. *)
Definition after_process (progress : bool) (e : Executor) : PC :=
  match pending_tasks e with
  | _ :: _ => Waiting
  | [] => if negb progress && negb (all_done e)
          then Raised (PipelineDeadlock (incomplete_step_ids e)) else AtLoop
  end.

(** [on_step_launched] after the drift check, and the new task. *)
Definition start_task (x : string) (e : Executor) : Executor :=
  mkExec (states e) (pending_tasks e ++ [x]) (results e)
         (match get_lock_model x with Some m => acquire m x (active e) | None => active e end)
         (match truthy_model (target_model x) with Some _ => {[x]} ∪ tracked e | None => tracked e end)
         (stop e) (outputs e) (execution_order e) (cancelled e).

(** [on_step_finished] and the removal of the task. *)
Definition finish_task (x : string) (e : Executor) : Executor :=
  mkExec (states e) (List.filter (fun y => negb (bool_decide (y = x))) (pending_tasks e)) (results e)
         (match truthy_model (target_model x) with Some m => release m x (active e) | None => active e end)
         (match truthy_model (target_model x) with Some _ => tracked e ∖ {[x]} | None => tracked e end)
         (stop e) (outputs e) (execution_order e) (cancelled e).

Definition cancel_remaining (e : Executor) : Executor :=
  mkExec (states e) (pending_tasks e) (results e) (active e) (tracked e) (stop e)
         (outputs e) (execution_order e) (pending_tasks e).

(** One step of the scheduler coroutine; it does not move while it waits. *)
Definition tick (pc : PC) (e : Executor) : PC * Executor :=
  match pc with
  | AtLoop =>
      if all_done e then (Done, e)
      else match stop e with
           | Some _ => let (e', progressed) := skip_unlaunched e in (after_process progressed e', e')
           | None =>
               match List.filter (state_is e READY) (dkeys nodes) with
               | [] => (after_process false e, e)
               | ready => (Filtering ready ready [], e)
               end
           end
  | Filtering ready (x :: todo) launch =>
      match should_execute_step x e with
      | Raise err => (Raised err, e)
      | Ok false => (Filtering ready todo launch, skip_step x e)
      | Ok true =>
          if can_launch_with_lock x e then (Filtering ready todo (launch ++ [x]), e)
          else (Filtering ready todo launch, e)
      end
  | Filtering ready [] launch =>
      let skip_progress := existsb (state_is e SKIPPED) ready in
      match launch with
      | [] => (after_process skip_progress e, e)
      | _ => (Launching launch false skip_progress, e)
      end
  | Launching (x :: todo) launched skipped =>
      match stop e with
      | Some _ => (after_process (launched || skipped) e, e)
      | None =>
          (* the models claimed in this pass are held by the tracker already *)
          if can_launch_with_lock x e then
            let e1 := set_state x RUNNING e in
            if consistent x then (Launching todo true skipped, start_task x e1)
            else (Raised (ModelDrift x), e1)
          else (Launching todo launched skipped, e)
      end
  | Launching [] launched skipped => (after_process (launched || skipped) e, e)
  | Handling (x :: done) =>
      let e' := finish_task x e in
      match results e !! x with
      | Some Failed => (Raised (StepFailed x), cancel_remaining (set_state x FAILED e'))
      | _ => (match done with [] => AtLoop | _ => Handling done end, e')
      end
  | Handling [] => (AtLoop, e)
  | Waiting | Done | Cancelled | Raised _ => (pc, e)
  end.

(** [cancel], on a client disconnect or when [asyncio.wait_for] times the run
    out; the tasks that end while it awaits another are taken as cancelled. *)
Definition cancel (e : Executor) : Executor :=
  let e' := fold_left (fun e x => finish_task x e) (pending_tasks e) e in
  mkExec (states e') [] (results e') (active e') (tracked e') (stop e') (outputs e') (execution_order e')
         (List.filter (fun x => bool_decide (results e !! x = None)) (pending_tasks e)).

(** [record_success] and [record_failure], run by the task itself. *)
Definition record_success (x : string) (stops : bool) (e : Executor) : Executor :=
  propagate_completion x
    (mkExec (<[x := COMPLETED]> (states e)) (pending_tasks e) (<[x := Succeeded stops]> (results e))
            (active e) (tracked e)
            (match stop e with None => if stops then Some x else None | Some s => Some s end)
            (set_add x (outputs e)) (execution_order e ++ [x]) (cancelled e)).

Definition record_failure (x : string) (e : Executor) : Executor :=
  mkExec (<[x := FAILED]> (states e)) (pending_tasks e) (<[x := Failed]> (results e))
         (active e) (tracked e) (stop e) (outputs e) (execution_order e) (cancelled e).

Definition finish_step (x : string) (o : Outcome) (e : Executor) : Executor :=
  match o with Succeeded stops => record_success x stops e | Failed => record_failure x e end.

(** The tasks [asyncio.wait] reports. *)
Definition done_tasks (e : Executor) : list string :=
  List.filter (fun x => bool_decide (is_Some (results e !! x))) (pending_tasks e).

(** The scheduler is at an [await] that can suspend it. *)
Definition suspended (pc : PC) : bool :=
  match pc with Filtering _ _ _ | Launching _ _ _ | Waiting => true | _ => false end.

(** A task runs while the scheduler is suspended, and after the scheduler has
    raised, unless the task was cancelled. *)
Definition tasks_run (pc : PC) : bool :=
  suspended pc || match pc with Raised _ => true | _ => false end.

Inductive sstep : PC * Executor -> PC * Executor -> Prop :=
  | S_tick pc e :
      (match pc with Waiting | Done | Cancelled | Raised _ => False | _ => True end) ->
      sstep (pc, e) (tick pc e)
  | S_timeout e :
      all_done e = false -> sstep (AtLoop, e) (Raised (PipelineTimeout (incomplete_step_ids e)), e)
  | S_wake done e :
      done ≡ₚ done_tasks e -> done <> [] -> sstep (Waiting, e) (Handling done, e)
  | S_task pc x o e :
      tasks_run pc = true -> x ∈ pending_tasks e -> x ∉ cancelled e -> results e !! x = None ->
      sstep (pc, e) (pc, finish_step x o e)
  | S_cancel pc e : suspended pc = true -> sstep (pc, e) (Cancelled, cancel e).

Definition reachable : PC * Executor -> Prop := rtc sstep (AtLoop, init).

End Executor.
