(* ===== verification/DagExecutorProofs.v ===== *)
(** * Correctness of the pipeline executor

    The invariant of [DagExecutor.v]'s transition system and what follows
    from it: steps run after their dependencies and models are exclusive,
    the deadlock error is unreachable, every run ends, and what a run leaves
    behind. *)
From stdpp Require Import base gmap sets list strings relations.
From Stdlib Require Import ZArith Lia.
From S2P Require Import Prelude PyString PipelineStep PipelineDag CriticalPath DagExecutor.

(** ** What each operation changes *)

Lemma state_is_spec e s x : state_is e s x = true <-> states e !! x = Some s.
Proof. apply bool_decide_eq_true. Qed.

Lemma satisfied_spec e x :
  satisfied e x = true <-> states e !! x = Some COMPLETED \/ states e !! x = Some SKIPPED.
Proof. unfold satisfied. by rewrite orb_true_iff, !state_is_spec. Qed.

Lemma terminal_spec e x :
  terminal e x = true <->
  states e !! x = Some COMPLETED \/ states e !! x = Some SKIPPED \/ states e !! x = Some FAILED.
Proof. unfold terminal. rewrite orb_true_iff, satisfied_spec, state_is_spec. tauto. Qed.

Section Proofs.
Context (nodes : Nodes).
Context (evaluate_condition : string -> list string -> option bool).
Context (target_model : string -> option string).
Context (consistent : string -> bool).
Context (is_rag_search : bool).

#[local] Notation deps := (deps nodes).
#[local] Notation successors := (successors nodes).
#[local] Notation promote := (promote nodes).
#[local] Notation propagate_completion := (propagate_completion nodes).
#[local] Notation lock := (get_lock_model nodes target_model).
#[local] Notation model x := (truthy_model (target_model x)).
#[local] Notation start_task := (start_task nodes target_model).
#[local] Notation finish_task := (finish_task target_model).
#[local] Notation finish_step := (finish_step nodes).
#[local] Notation skip_step := (skip_step nodes).
#[local] Notation skip_unlaunched := (skip_unlaunched nodes).
#[local] Notation sstep := (sstep nodes evaluate_condition target_model consistent is_rag_search).
#[local] Notation tick := (tick nodes evaluate_condition target_model consistent is_rag_search).
#[local] Notation cancel := (cancel target_model).
#[local] Notation reachable := (reachable nodes evaluate_condition target_model consistent is_rag_search).

(** [e'] is [e] with other step states. *)
Definition same_but_states (e e' : Executor) : Prop :=
  e' = mkExec (states e') (pending_tasks e) (results e) (active e) (tracked e) (stop e)
              (outputs e) (execution_order e) (cancelled e).

(** Every dependency of [y] lets it go. *)
Definition unblocked (e : Executor) (y : string) : Prop := forall d, d ∈ deps y -> satisfied e d = true.

Lemma unblocked_spec e y : forallb (satisfied e) (deps y) = true <-> unblocked e y.
Proof.
  unfold unblocked. rewrite forallb_forall. split; intros H d Hd; apply H; by apply list_elem_of_In.
Qed.

#[local] Instance unblocked_dec e y : Decision (unblocked e y).
Proof.
  destruct (forallb (satisfied e) (deps y)) eqn:E; [left | right].
  - by apply unblocked_spec.
  - intros H%unblocked_spec. congruence.
Defined.

Lemma unblocked_ext e e' y : (forall d, satisfied e d = satisfied e' d) -> unblocked e y <-> unblocked e' y.
Proof. intros H. unfold unblocked. by setoid_rewrite H. Qed.

Lemma satisfied_ext e e' x :
  (forall s, s = COMPLETED \/ s = SKIPPED -> states e !! x = Some s <-> states e' !! x = Some s) ->
  satisfied e x = satisfied e' x.
Proof.
  intros H. apply eq_true_iff_eq. rewrite !satisfied_spec. by rewrite !H by auto.
Qed.

(** What one or several promotions ready. *)
Definition promoted (e : Executor) (ys : list string) (k : string) : Prop :=
  k ∈ ys /\ states e !! k = Some PENDING /\ unblocked e k.

#[local] Instance promoted_dec e ys k : Decision (promoted e ys k).
Proof. unfold promoted. apply _. Defined.

Definition promoted_states (e e' : Executor) (ys : list string) : Prop :=
  same_but_states e e' /\
  forall k, states e' !! k = if decide (promoted e ys k) then Some READY else states e !! k.

Lemma promote_spec e y : promoted_states e (promote e y) [y].
Proof.
  unfold promote. rewrite <- (andb_comm (state_is e PENDING y)).
  destruct (state_is e PENDING y && forallb _ _) eqn:E.
  - apply andb_true_iff in E as [E1%state_is_spec E2%unblocked_spec]. split; [done|].
    intros k. simpl. case_decide as H.
    + destruct H as [->%list_elem_of_singleton _]. apply lookup_insert_eq.
    + apply lookup_insert_ne. intros ->. apply H. by split; [apply list_elem_of_singleton|].
  - apply andb_false_iff in E. split; [by destruct e|]. intros k.
    case_decide as H; [|done]. destruct H as (->%list_elem_of_singleton & Hp & Hu).
    apply state_is_spec in Hp. apply unblocked_spec in Hu. destruct E; congruence.
Qed.

(** Promotion does not change what is satisfied. *)
Lemma promoted_satisfied e e' ys d : promoted_states e e' ys -> satisfied e' d = satisfied e d.
Proof.
  intros [_ Hk]. apply satisfied_ext. intros s Hs. rewrite Hk. case_decide as H; [|done].
  destruct H as (_ & -> & _). destruct Hs as [-> | ->]; split; discriminate.
Qed.

Lemma promote_all_spec ys : forall e, promoted_states e (fold_left promote ys e) ys.
Proof.
  induction ys as [|y ys IH]; intros e; cbn [fold_left].
  - split; [by destruct e|]. intros k. rewrite decide_False; [done|]. intros [H _]. by apply elem_of_nil in H.
  - pose proof (promote_spec e y) as Hp. destruct (IH (promote e y)) as [Hs' Hk'].
    pose proof (fun d => promoted_satisfied e _ _ d Hp) as Hsat. destruct Hp as [Hs Hk].
    split; [unfold same_but_states in *; rewrite Hs', Hs; done|].
    intros k. rewrite Hk', Hk.
    assert (Hiff : promoted (promote e y) ys k <->
      k ∈ ys /\ states (promote e y) !! k = Some PENDING /\ unblocked e k).
    { unfold promoted. by rewrite (unblocked_ext (promote e y) e k Hsat). }
    assert (Hin : k ∈ y :: ys <-> k ∈ [y] \/ k ∈ ys) by (rewrite !elem_of_cons, elem_of_nil; tauto).
    destruct (decide (promoted e [y] k)) as [Hy|Hy].
    + rewrite (decide_True (P := promoted e (y :: ys) k)) by (destruct Hy as (? & ? & ?); split; tauto).
      by destruct (decide _).
    + rewrite (decide_ext (promoted (promote e y) ys k) (promoted e (y :: ys) k)); [done|].
      rewrite Hiff, Hk, decide_False by done. unfold promoted in *. tauto.
Qed.

Lemma propagate_spec x e :
  (stop e = None /\ promoted_states e (propagate_completion x e) (successors x)) \/
  (stop e <> None /\ propagate_completion x e = e).
Proof.
  unfold propagate_completion. destruct (stop e) eqn:E; [by right|]. left. split; [done|].
  apply promote_all_spec.
Qed.

(** ** The invariant *)

Definition final_state (o : Outcome) : StepState :=
  match o with Succeeded _ => COMPLETED | Failed => FAILED end.

(** What holds in every state, of a run that failed or was cancelled too. *)
Record Inv (e : Executor) : Prop := {
  i_dom : forall k, is_Some (states e !! k) <-> k ∈ dkeys nodes;
  i_unblocked : forall k s, states e !! k = Some s -> s <> PENDING -> s <> SKIPPED -> unblocked e k;
  i_pending : NoDup (pending_tasks e);
  i_running : forall k, k ∈ pending_tasks e -> results e !! k = None -> states e !! k = Some RUNNING;
  i_result : forall k o, results e !! k = Some o -> states e !! k = Some (final_state o);
  i_lock : forall m x, active e !! m = Some x <-> x ∈ pending_tasks e /\ lock x = Some m;
  i_tracked : forall x, x ∈ tracked e <-> x ∈ pending_tasks e /\ is_Some (model x);
  i_order_nodup : NoDup (execution_order e);
  i_order : forall k, k ∈ execution_order e <-> states e !! k = Some COMPLETED;
  i_order_deps : forall l1 x l2 d, execution_order e = l1 ++ x :: l2 -> d ∈ deps x ->
    states e !! d = Some SKIPPED \/ d ∈ l1;
  i_outputs : forall k, k ∈ outputs e <-> satisfied e k = true
}.

(** As long as no stop is set, a step that can be ready is not PENDING. *)
Definition Frontier (e : Executor) : Prop :=
  stop e = None -> forall k, states e !! k = Some PENDING -> ~ unblocked e k.

(** What holds until the scheduler raises. *)
Record Live (e : Executor) : Prop := {
  l_running : forall k, states e !! k = Some RUNNING -> k ∈ pending_tasks e /\ results e !! k = None;
  l_failed : forall k, states e !! k = Some FAILED -> k ∈ pending_tasks e /\ results e !! k = Some Failed;
  l_cancelled : cancelled e = []
}.

(** [e'] changes the state of [x] only. *)
Definition moves (x : string) (s s' : StepState) (e e' : Executor) : Prop :=
  states e !! x = Some s /\ states e' = <[x := s']> (states e).

Lemma moves_lookup x s s' e e' k : moves x s s' e e' ->
  states e' !! k = if decide (x = k) then Some s' else states e !! k.
Proof.
  intros [_ ->]. case_decide as H; [subst; apply lookup_insert_eq | by apply lookup_insert_ne].
Qed.

Definition open_state (s : StepState) : Prop := s <> COMPLETED /\ s <> SKIPPED.

Lemma moves_satisfied x s s' e e' d : moves x s s' e e' -> open_state s ->
  satisfied e d = true -> satisfied e' d = true.
Proof.
  intros Hm [H1 H2]. rewrite !satisfied_spec, !(moves_lookup _ _ _ _ _ d Hm).
  case_decide as H; [subst; destruct Hm as [-> _]; naive_solver | done].
Qed.

Lemma moves_unsatisfied x s s' e e' d : moves x s s' e e' -> x <> d ->
  satisfied e' d = true -> satisfied e d = true.
Proof. intros Hm Hne. by rewrite !satisfied_spec, !(moves_lookup _ _ _ _ _ d Hm), decide_False. Qed.

Lemma moves_unblocked x s s' e e' k : moves x s s' e e' -> open_state s -> unblocked e k -> unblocked e' k.
Proof. intros Hm Ho Hu d Hd. eapply moves_satisfied; eauto. Qed.

Lemma moves_dom x s s' e e' : moves x s s' e e' -> Inv e ->
  forall k, is_Some (states e' !! k) <-> k ∈ dkeys nodes.
Proof.
  intros Hm Hi k. rewrite (moves_lookup _ _ _ _ _ k Hm), <- (i_dom e Hi).
  case_decide; [|done]. subst. destruct Hm as [-> _]. split; eauto.
Qed.

Lemma moves_keeps_unblocked x s s' e e' : moves x s s' e e' -> Inv e -> open_state s ->
  s <> PENDING \/ s' = SKIPPED ->
  forall k t, states e' !! k = Some t -> t <> PENDING -> t <> SKIPPED -> unblocked e' k.
Proof.
  intros Hm Hi Ho Hs k t Hk Ht1 Ht2. eapply moves_unblocked; [done..|].
  rewrite (moves_lookup _ _ _ _ _ k Hm) in Hk. case_decide.
  - simplify_eq. destruct Hs as [Hs|]; [|done]. destruct Hm as [Hx _].
    by apply (i_unblocked e Hi k s); [| |apply Ho].
  - by apply (i_unblocked e Hi k t).
Qed.

Lemma promotion_Inv e e' ys : promoted_states e e' ys -> Inv e -> Inv e'.
Proof.
  intros Hp Hi. pose proof (fun d => promoted_satisfied _ _ _ d Hp) as Hsat.
  pose proof (fun k => unblocked_ext e' e k Hsat) as Hun.
  destruct Hp as [Hs Hk]. rewrite Hs in *. destruct Hi. split; simpl in *; try done.
  - intros k. rewrite Hk, <- i_dom0. case_decide as H; [|done]. destruct H as (_ & -> & _). split; eauto.
  - intros k s. rewrite Hk. intros Hks H1 H2. apply Hun. case_decide as H; [by destruct H as (_ & _ & ?)|]. eauto.
  - intros k H1 H2. rewrite Hk. rewrite decide_False; [auto|]. intros (_ & H & _).
    rewrite i_running0 in H by done. done.
  - intros k o H. rewrite Hk. rewrite decide_False; [auto|]. intros (_ & Hp & _).
    rewrite (i_result0 _ _ H) in Hp. by destruct o.
  - intros k. rewrite Hk, i_order0. case_decide as H; [|done]. destruct H as (_ & -> & _). done.
  - intros l1 x l2 d He Hd. destruct (i_order_deps0 l1 x l2 d He Hd) as [H|H]; [|by right]. left.
    rewrite Hk, decide_False; [done|]. intros (_ & H' & _). congruence.
  - intros k. by rewrite i_outputs0, Hsat.
Qed.

Lemma promotion_Live e e' ys : promoted_states e e' ys -> Live e -> Live e'.
Proof.
  intros [Hs Hk] [H1 H2 H3]. rewrite Hs in *. split; simpl in *; [| |done].
  - intros k. rewrite Hk. case_decide; [done|]. auto.
  - intros k. rewrite Hk. case_decide; [done|]. auto.
Qed.

Context (Hwf : well_formed nodes).

Lemma successors_deps x k : k ∈ successors x <-> x ∈ deps k.
Proof.
  pose proof (wf_mirror _ Hwf x k) as H. unfold edge in H. unfold DagExecutor.successors, DagExecutor.deps.
  destruct (dget x nodes) as [n|]; destruct (dget k nodes) as [m|]; rewrite ?elem_of_nil; naive_solver.
Qed.

(** Completing or skipping [x] can only unblock its successors. *)
Lemma frontier_propagate x s s' e e1 :
  moves x s s' e e1 -> s' <> PENDING -> (stop e1 = None -> stop e = None) ->
  Frontier e -> Frontier (propagate_completion x e1).
Proof.
  intros Hm Hs' Hst Hf. destruct (propagate_spec x e1) as [[Hn Hp]|[Hn ->]]; [|by intros H].
  intros _ k Hk Hu. pose proof (fun d => promoted_satisfied _ _ _ d Hp) as Hsat.
  apply (unblocked_ext _ _ k Hsat) in Hu.
  destruct Hp as [_ Hp]. rewrite Hp in Hk. case_decide as Hd; [done|].
  assert (Hx : x ∉ deps k). { intros Hx%successors_deps. by apply Hd. }
  rewrite (moves_lookup _ _ _ _ _ k Hm) in Hk. case_decide; [congruence|].
  apply (Hf (Hst Hn) k Hk). intros d Hdk. eapply moves_unsatisfied; [done| |by apply Hu].
  by intros ->.
Qed.

(** *** Starting *)

Lemma lock_model x m : lock x = Some m -> model x = Some m.
Proof. unfold get_lock_model. by destruct (is_sub_step nodes x). Qed.

Lemma can_acquire_spec m t : can_acquire m t = true <-> t !! m = None.
Proof. apply bool_decide_eq_true. Qed.

Lemma set_running_Inv x e : Inv e -> states e !! x = Some READY -> Inv (set_state x RUNNING e).
Proof.
  intros Hi Hx. assert (Hm : moves x READY RUNNING e (set_state x RUNNING e)) by done.
  pose proof (moves_dom _ _ _ _ _ Hm Hi) as Hd.
  pose proof (moves_keeps_unblocked _ _ _ _ _ Hm Hi ltac:(done) ltac:(auto)) as Hu.
  pose proof (fun k => moves_lookup _ _ _ _ _ k Hm) as Hk. simpl in Hk.
  destruct Hi; split; try done; simpl; intros k.
  - intros H1 H2. rewrite Hk. case_decide; [done | auto].
  - intros o Ho. rewrite Hk. case_decide; [subst|auto]. rewrite (i_result0 k o Ho) in Hx. by destruct o.
  - rewrite i_order0, Hk. case_decide; [subst|done]. by rewrite Hx.
  - intros y l2 d H1 H2. rewrite Hk. case_decide; [|eauto]. subst.
    destruct (i_order_deps0 k y l2 d H1 H2); [congruence | by right].
  - rewrite i_outputs0, !satisfied_spec. simpl. rewrite Hk. case_decide; [subst; rewrite Hx|done].
    naive_solver.
Qed.

Lemma ready_not_pending e x : Inv e -> states e !! x = Some READY ->
  results e !! x = None /\ x ∉ pending_tasks e.
Proof.
  intros Hi Hx. assert (Hr : results e !! x = None).
  { destruct (results e !! x) as [o|] eqn:E; [|done]. apply (i_result e Hi) in E. rewrite Hx in E. by destruct o. }
  split; [done|]. intros Hp. apply (i_running e Hi x Hp) in Hr. congruence.
Qed.

Lemma start_task_Inv x e :
  Inv e -> states e !! x = Some READY -> can_launch_with_lock nodes target_model x e = true ->
  Inv (start_task x (set_state x RUNNING e)).
Proof.
  intros Hi Hx Hl. destruct (ready_not_pending e x Hi Hx) as [_ Hp].
  apply (set_running_Inv x e Hi) in Hx as Hi'. clear Hi. destruct Hi'; split; try done; simpl in *.
  - apply NoDup_app. split; [done|]. split; [set_solver|]. apply NoDup_singleton.
  - intros k [Hk| ->%list_elem_of_singleton]%elem_of_app Hr; [auto|]. apply lookup_insert_eq.
  - intros m y. rewrite elem_of_app, list_elem_of_singleton. unfold can_launch_with_lock in Hl.
    destruct (lock x) as [m'|] eqn:E; [|rewrite i_lock0; naive_solver].
    apply can_acquire_spec in Hl. unfold acquire. destruct (decide (m = m')) as [->|Hne].
    + rewrite lookup_insert_eq. split; [intros [= ->]; by auto|]. intros [[H| ->] H2]; [|done].
      assert (active e !! m' = Some y) by by apply i_lock0. congruence.
    + rewrite lookup_insert_ne, i_lock0 by done. naive_solver.
  - intros y. rewrite elem_of_app, list_elem_of_singleton.
    destruct (model x) as [m'|] eqn:E; rewrite ?elem_of_union, ?elem_of_singleton, i_tracked0; [naive_solver|].
    split; [tauto|]. intros [[H| ->] [? H2]]; [by split|congruence].
Qed.

Lemma start_task_Live x e : Inv e -> Live e -> states e !! x = Some READY ->
  Live (start_task x (set_state x RUNNING e)).
Proof.
  intros Hi [H1 H2 H3] Hx. destruct (ready_not_pending e x Hi Hx) as [Hr Hp].
  assert (Hm : moves x READY RUNNING e (set_state x RUNNING e)) by done.
  split; simpl; [| |done]; intros k; rewrite elem_of_app, list_elem_of_singleton.
  - destruct (decide (x = k)) as [->|]; [by auto|]. rewrite lookup_insert_ne by done. naive_solver.
  - destruct (decide (x = k)) as [->|]; [by rewrite lookup_insert_eq|]. rewrite lookup_insert_ne by done. naive_solver.
Qed.

(** Leaving PENDING or READY unblocks nothing by itself. *)
Lemma frontier_running x e : states e !! x = Some READY -> Frontier e -> Frontier (set_state x RUNNING e).
Proof.
  intros Hx Hf Hs k Hk Hu. assert (Hm : moves x READY RUNNING e (set_state x RUNNING e)) by done.
  rewrite (moves_lookup _ _ _ _ _ k Hm) in Hk. case_decide; [done|]. apply (Hf Hs k Hk).
  intros d Hd. specialize (Hu d Hd). apply satisfied_spec in Hu. apply satisfied_spec.
  rewrite !(moves_lookup _ _ _ _ _ d Hm) in Hu. case_decide; [naive_solver|done].
Qed.

(** *** Finishing *)

Lemma elem_of_remove x y (l : list string) :
  y ∈ List.filter (fun z => negb (bool_decide (z = x))) l <-> y ∈ l /\ y <> x.
Proof. rewrite elem_of_lfilter, negb_true_iff, bool_decide_eq_false. tauto. Qed.

Lemma release_spec m x (t : gmap string string) m' y :
  release m x t !! m' = Some y <-> t !! m' = Some y /\ (m' = m -> y <> x).
Proof.
  unfold release. case_bool_decide as E.
  - rewrite lookup_delete_Some. split; [|naive_solver].
    intros [H1 H2]. split; [done|]. intros ->. done.
  - split; [|tauto]. intros H. split; [done|]. intros -> ->. done.
Qed.

Lemma finish_task_lock x e : Inv e -> forall m y,
  active (finish_task x e) !! m = Some y <-> y ∈ pending_tasks (finish_task x e) /\ lock y = Some m.
Proof.
  intros Hi m y. simpl. rewrite elem_of_remove.
  pose proof (i_lock e Hi m y) as H. pose proof (lock_model y m) as Hl.
  destruct (model x) as [m'|] eqn:E; [rewrite release_spec|]; rewrite H; clear H.
  - destruct (decide (y = x)) as [->|]; naive_solver.
  - split; [|tauto]. intros [H1 H2]. repeat split; try done. intros ->. rewrite Hl in E by done. done.
Qed.

Lemma finish_task_Inv x e : Inv e -> Inv (finish_task x e).
Proof.
  intros Hi. pose proof (finish_task_lock x e Hi) as Hl. destruct Hi; split; try done; simpl.
  - by apply NoDup_lfilter.
  - intros k [H1 H2]%elem_of_remove. auto.
  - intros y. rewrite elem_of_remove. destruct (model x) as [m|] eqn:E.
    + rewrite elem_of_difference, elem_of_singleton, i_tracked0. tauto.
    + rewrite i_tracked0. split; [|tauto]. intros [H1 H2]. repeat split; try done.
      intros ->. rewrite E in H2. by destruct H2.
Qed.

Lemma finish_task_Live x e : Live e -> (exists b, results e !! x = Some (Succeeded b)) -> Live (finish_task x e).
Proof.
  intros [H1 H2 H3] [b Hr]. split; simpl; [| |done]; intros k Hk; rewrite elem_of_remove.
  - destruct (H1 k Hk). repeat split; try done. intros ->. congruence.
  - destruct (H2 k Hk). repeat split; try done. intros ->. congruence.
Qed.

(** The state in which a task records its end, before the propagation. *)
Definition recorded (x : string) (o : Outcome) (e : Executor) : Executor :=
  mkExec (<[x := final_state o]> (states e)) (pending_tasks e) (<[x := o]> (results e))
         (active e) (tracked e)
         (match o, stop e with Succeeded true, None => Some x | _, s => s end)
         (match o with Succeeded _ => set_add x (outputs e) | Failed => outputs e end)
         (match o with Succeeded _ => execution_order e ++ [x] | Failed => execution_order e end)
         (cancelled e).

Lemma finish_step_recorded x o e :
  finish_step x o e =
    match o with Succeeded _ => propagate_completion x (recorded x o e) | Failed => recorded x o e end.
Proof. destruct o as [[]|]; [| |done]; simpl; unfold record_success, recorded; by destruct (stop e). Qed.

Section Record.
Context (x : string) (o : Outcome) (e : Executor).
Context (Hi : Inv e) (Hp : x ∈ pending_tasks e) (Hr : results e !! x = None).

Lemma recorded_moves : moves x RUNNING (final_state o) e (recorded x o e).
Proof. split; [by apply (i_running e Hi) | done]. Qed.

Lemma recorded_order_deps l1 y l2 d :
  execution_order (recorded x o e) = l1 ++ y :: l2 -> d ∈ deps y ->
  states (recorded x o e) !! d = Some SKIPPED \/ d ∈ l1.
Proof.
  pose proof (i_running e Hi x Hp Hr) as Hx. pose proof (moves_lookup _ _ _ _ _ d recorded_moves) as Hd.
  assert (Hold : states e !! d = Some SKIPPED -> states (recorded x o e) !! d = Some SKIPPED).
  { intros H. rewrite Hd, decide_False; [done|]. congruence. }
  destruct o as [b|]; simpl; intros He Hin.
  - destruct (list_eq_dec l2 []) as [->|(l2' & z & ->)%exists_last].
    + apply app_inj_tail in He as [<- <-].
      pose proof (i_unblocked e Hi x RUNNING Hx ltac:(done) ltac:(done) d Hin) as Hs.
      apply satisfied_spec in Hs as [Hs|Hs]; [right; by apply (i_order e Hi) | auto].
    + rewrite app_comm_cons, app_assoc in He. apply app_inj_tail in He as [He <-].
      destruct (i_order_deps e Hi l1 y l2' d He Hin); auto.
  - destruct (i_order_deps e Hi l1 y l2 d He Hin); auto.
Qed.

Lemma recorded_Inv : Inv (recorded x o e).
Proof.
  pose proof (i_running e Hi x Hp Hr) as Hx. pose proof recorded_moves as Hm.
  pose proof (moves_dom _ _ _ _ _ Hm Hi) as Hd.
  pose proof (moves_keeps_unblocked _ _ _ _ _ Hm Hi ltac:(done) ltac:(auto)) as Hu.
  pose proof (fun k => moves_lookup _ _ _ _ _ k Hm) as Hk. pose proof recorded_order_deps as Hod.
  pose proof (i_order e Hi x) as Hox. rewrite Hx in Hox.
  destruct Hi; split; try done; simpl in Hk; simpl.
  - intros k Hkp. destruct (decide (x = k)) as [->|]; [by rewrite lookup_insert_eq|].
    rewrite !lookup_insert_ne by done. auto.
  - intros k o'. destruct (decide (x = k)) as [->|]; [rewrite !lookup_insert_eq; congruence|].
    rewrite !lookup_insert_ne by done. auto.
  - destruct o; [|done]. apply NoDup_app. split; [done|]. split; [|apply NoDup_singleton].
    intros y Hy ->%list_elem_of_singleton. by apply Hox in Hy.
  - intros k. rewrite Hk. destruct o; simpl; rewrite ?elem_of_app, ?list_elem_of_singleton, i_order0; case_decide; naive_solver.
  - intros k. rewrite satisfied_spec. simpl. rewrite Hk.
    destruct o; simpl; rewrite ?elem_of_set_add, i_outputs0, satisfied_spec; case_decide; subst; rewrite ?Hx; naive_solver.
Qed.

Lemma recorded_Live : Live e -> Live (recorded x o e).
Proof.
  intros [H1 H2 H3]. pose proof (fun k => moves_lookup _ _ _ _ _ k recorded_moves) as Hk. simpl in Hk.
  split; simpl; [| |done]; intros k; rewrite Hk; case_decide as Hd.
  - by destruct o.
  - rewrite lookup_insert_ne by done. auto.
  - subst k. rewrite lookup_insert_eq. by destruct o.
  - rewrite lookup_insert_ne by done. auto.
Qed.

Lemma finish_step_Inv : Inv (finish_step x o e).
Proof.
  rewrite finish_step_recorded. destruct o eqn:E; [|rewrite <- E; apply recorded_Inv]. rewrite <- E.
  destruct (propagate_spec x (recorded x o e)) as [[_ Hpr]|[_ ->]]; [|apply recorded_Inv].
  eapply promotion_Inv; [exact Hpr | apply recorded_Inv].
Qed.

Lemma finish_step_Live : Live e -> Live (finish_step x o e).
Proof.
  intros Hl. rewrite finish_step_recorded. destruct o eqn:E; [|rewrite <- E; by apply recorded_Live]. rewrite <- E.
  destruct (propagate_spec x (recorded x o e)) as [[_ Hpr]|[_ ->]]; [|by apply recorded_Live].
  eapply promotion_Live; [exact Hpr | by apply recorded_Live].
Qed.

Lemma recorded_stop : stop (recorded x o e) = None -> stop e = None.
Proof. simpl. destruct o as [[]|], (stop e); done. Qed.

Lemma finish_step_frontier : Frontier e -> Frontier (finish_step x o e).
Proof.
  intros Hf. rewrite finish_step_recorded. destruct o eqn:E; rewrite <- E.
  - apply (frontier_propagate x RUNNING (final_state o) e); [apply recorded_moves | by subst | apply recorded_stop | done].
  - intros Hs k Hk Hu. pose proof recorded_stop Hs as Hs'.
    rewrite (moves_lookup _ _ _ _ _ k recorded_moves) in Hk. case_decide; [by subst|].
    apply (Hf Hs' k Hk). intros d Hd. specialize (Hu d Hd). apply satisfied_spec in Hu. apply satisfied_spec.
    rewrite !(moves_lookup _ _ _ _ _ d recorded_moves) in Hu. case_decide; [subst; naive_solver | done].
Qed.

End Record.

(** *** Skipping *)

Definition skipped_now (x : string) (e : Executor) : Executor := set_state x SKIPPED (set_output x e).

Section Skip.
Context (x : string) (s : StepState) (e : Executor).
Context (Hx : states e !! x = Some s) (Hs : s = PENDING \/ s = READY).

Lemma skipped_moves : moves x s SKIPPED e (skipped_now x e).
Proof. done. Qed.

Lemma skipped_Inv : Inv e -> Inv (skipped_now x e).
Proof.
  intros Hi. pose proof skipped_moves as Hm.
  assert (Ho : open_state s) by (split; destruct Hs; congruence).
  pose proof (moves_dom _ _ _ _ _ Hm Hi) as Hd.
  pose proof (moves_keeps_unblocked _ _ _ _ _ Hm Hi Ho ltac:(auto)) as Hu.
  pose proof (fun k => moves_lookup _ _ _ _ _ k Hm) as Hk. simpl in Hk.
  destruct Hi; split; try done; simpl; intros k.
  - intros H1 H2. rewrite Hk. case_decide; [subst|auto].
    rewrite (i_running0 k H1 H2) in Hx. destruct Hs; congruence.
  - intros o H. rewrite Hk. case_decide; [subst|auto].
    rewrite (i_result0 k o H) in Hx. destruct o, Hs; simpl in Hx; congruence.
  - rewrite i_order0, Hk. case_decide; [subst|done]. rewrite Hx. destruct Hs; subst; naive_solver.
  - intros y l2 d H1 H2. rewrite Hk. case_decide; [by left|]. by apply (i_order_deps0 k y l2).
  - rewrite elem_of_set_add, i_outputs0, !satisfied_spec. simpl. rewrite Hk. case_decide; naive_solver.
Qed.

Lemma skipped_Live : Live e -> Live (skipped_now x e).
Proof.
  intros [H1 H2 H3]. pose proof (fun k => moves_lookup _ _ _ _ _ k skipped_moves) as Hk. simpl in Hk.
  split; simpl; [| |done]; intros k; rewrite Hk; case_decide; by auto.
Qed.

Lemma skip_step_Inv : Inv e -> Inv (skip_step x e).
Proof.
  intros Hi. change (skip_step x e) with (propagate_completion x (skipped_now x e)). destruct (propagate_spec x (skipped_now x e)) as [[_ Hp]|[_ ->]].
  - eapply promotion_Inv; [exact Hp | by apply skipped_Inv].
  - by apply skipped_Inv.
Qed.

Lemma skip_step_Live : Live e -> Live (skip_step x e).
Proof.
  intros Hi. change (skip_step x e) with (propagate_completion x (skipped_now x e)). destruct (propagate_spec x (skipped_now x e)) as [[_ Hp]|[_ ->]].
  - eapply promotion_Live; [exact Hp | by apply skipped_Live].
  - by apply skipped_Live.
Qed.

Lemma skip_step_frontier : Frontier e -> Frontier (skip_step x e).
Proof. by apply (frontier_propagate x s SKIPPED e). Qed.

End Skip.

(** [skip_unlaunched] is a sequence of skips; it changes the steps not yet
    launched. *)
Definition skip_loop (ks : list string) (acc : Executor * bool) : Executor * bool :=
  fold_left (fun (acc : Executor * bool) x =>
    let (e, progressed) := acc in
    if state_is e PENDING x || state_is e READY x
    then (skipped_now x e, true) else (e, progressed)) ks acc.

Definition unlaunched (e : Executor) (k : string) : Prop :=
  states e !! k = Some PENDING \/ states e !! k = Some READY.

Lemma unlaunched_spec e k : state_is e PENDING k || state_is e READY k = true <-> unlaunched e k.
Proof. by rewrite orb_true_iff, !state_is_spec. Qed.

Lemma skip_loop_Inv ks : forall e b, Inv e -> Live e -> Inv (skip_loop ks (e, b)).1 /\ Live (skip_loop ks (e, b)).1.
Proof.
  induction ks as [|x ks IH]; intros e b Hi Hl; [done|]. simpl.
  destruct (state_is e PENDING x || state_is e READY x) eqn:E; [|by apply IH].
  apply unlaunched_spec in E as [E|E]; apply IH.
  - by apply (skipped_Inv x PENDING); [|left|].
  - by apply (skipped_Live x PENDING).
  - by apply (skipped_Inv x READY); [|right|].
  - by apply (skipped_Live x READY).
Qed.

#[local] Instance unlaunched_dec e k : Decision (unlaunched e k).
Proof. unfold unlaunched. apply _. Defined.

Definition skip_effect (ks : list string) (e e' : Executor) : Prop :=
  e' = mkExec (states e') (pending_tasks e) (results e) (active e) (tracked e) (stop e)
              (outputs e') (execution_order e) (cancelled e) /\
  forall k, states e' !! k = if decide (k ∈ ks /\ unlaunched e k) then Some SKIPPED else states e !! k.

Lemma skip_loop_effect ks : forall e b, skip_effect ks e (skip_loop ks (e, b)).1.
Proof.
  induction ks as [|x ks IH]; intros e b; simpl.
  - split; [by destruct e|]. intros k. rewrite decide_False; [done|]. intros [H _]. by apply elem_of_nil in H.
  - destruct (state_is e PENDING x || state_is e READY x) eqn:E.
    + apply unlaunched_spec in E. destruct (IH (skipped_now x e) true) as [Hs Hk].
      split; [rewrite Hs; done|]. intros k.
      assert (Hu : unlaunched (skipped_now x e) k <-> x <> k /\ unlaunched e k).
      { unfold unlaunched. simpl. destruct (decide (x = k)) as [->|].
        - rewrite lookup_insert_eq. naive_solver.
        - rewrite lookup_insert_ne by done. tauto. }
      rewrite Hk. destruct (decide (x = k)) as [->|Hne].
      * rewrite decide_False by tauto. rewrite decide_True by (split; [left | exact E]). apply lookup_insert_eq.
      * rewrite (decide_ext _ (k ∈ x :: ks /\ unlaunched e k)) by (rewrite Hu, elem_of_cons; naive_solver).
        simpl. by rewrite lookup_insert_ne.
    + destruct (IH e b) as [Hs Hk]. split; [done|]. intros k. rewrite Hk. apply decide_ext.
      rewrite elem_of_cons. split; [tauto|]. intros [[->|H] Hu]; [|done].
      apply unlaunched_spec in Hu. congruence.
Qed.

Lemma skip_loop_progress ks : forall e b,
  (skip_loop ks (e, b)).2 = b || existsb (fun k => state_is e PENDING k || state_is e READY k) ks.
Proof.
  induction ks as [|x ks IH]; intros e b; simpl; [by rewrite orb_false_r|].
  destruct (state_is e PENDING x || state_is e READY x) eqn:E; rewrite IH; [by rewrite orb_true_r | done].
Qed.

Lemma skip_loop_idle ks : forall e,
  (skip_loop ks (e, false)).2 = false -> (skip_loop ks (e, false)).1 = e.
Proof.
  induction ks as [|x ks IH]; intros e; simpl; [done|].
  destruct (state_is e PENDING x || state_is e READY x) eqn:E; [|apply IH].
  by rewrite skip_loop_progress.
Qed.

(** *** Cancelling *)

Lemma finish_all_Inv xs : forall e, Inv e -> Inv (fold_left (fun e x => finish_task x e) xs e).
Proof. induction xs as [|x xs IH]; intros e Hi; [done|]. by apply IH, finish_task_Inv. Qed.

Lemma finish_all_pending xs : forall e y,
  y ∈ pending_tasks (fold_left (fun e x => finish_task x e) xs e) <-> y ∈ pending_tasks e /\ y ∉ xs.
Proof.
  induction xs as [|x xs IH]; intros e y; simpl; [rewrite elem_of_nil; tauto|].
  rewrite IH. simpl. rewrite elem_of_remove, elem_of_cons. tauto.
Qed.

Lemma cancel_finishes e :
  pending_tasks (fold_left (fun e x => finish_task x e) (pending_tasks e) e) = [].
Proof. apply elem_of_nil_inv. intros y. rewrite finish_all_pending. tauto. Qed.

Lemma cancel_Inv e : Inv e -> Inv (cancel e).
Proof.
  intros Hi. pose proof (finish_all_Inv (pending_tasks e) e Hi) as Hf. pose proof (cancel_finishes e) as Hp.
  destruct Hf. unfold DagExecutor.cancel. rewrite Hp in *. by split.
Qed.

(** ** The invariant of the loop *)

Definition ready_list (e : Executor) (l : list string) : Prop :=
  NoDup l /\ forall x, x ∈ l -> states e !! x = Some READY.

(** A set stop comes from a task that has not been handled yet. *)
Definition stop_pending (e : Executor) : Prop := stop e <> None -> pending_tasks e <> [].

Definition PcInv (pc : PC) (e : Executor) : Prop :=
  match pc with
  | AtLoop => Live e /\ forall x, x ∈ pending_tasks e -> results e !! x = None
  | Filtering ready todo launch =>
      Live e /\ ready_list e (todo ++ launch) /\ stop_pending e /\
      ready <> [] /\ (length ready <= length nodes)%nat /\
      (pending_tasks e = [] -> forall x, x ∈ ready -> x ∈ todo \/ x ∈ launch \/ states e !! x = Some SKIPPED)
  | Launching todo launched skipped =>
      Live e /\ ready_list e todo /\ stop_pending e /\
      (launched = true \/ todo = [] -> pending_tasks e <> [])
  | Waiting => Live e /\ pending_tasks e <> []
  | Handling done =>
      Live e /\ NoDup done /\ done <> [] /\
      forall x, x ∈ done <-> x ∈ pending_tasks e /\ is_Some (results e !! x)
  | Done => Live e /\ pending_tasks e = [] /\ all_done nodes e = true
  | Cancelled => pending_tasks e = [] 
  | Raised err => (forall l, err <> PipelineDeadlock l) /\
      cancelled e = match err with StepFailed _ => pending_tasks e | _ => [] end
  end.

Definition Good (c : PC * Executor) : Prop := Inv c.2 /\ Frontier c.2 /\ PcInv c.1 c.2.

Context (Hac : acyclic nodes).
Context (Hfresh : forall k n, dget k nodes = Some n ->
  state n = if bool_decide (dependencies n = []) then READY else PENDING).

Lemma all_done_spec e : all_done nodes e = true <-> forall k, k ∈ dkeys nodes -> terminal e k = true.
Proof.
  unfold all_done. rewrite forallb_forall. split; intros H k Hk; apply H; by apply list_elem_of_In.
Qed.

(** A dependency that is not satisfied, found by search. *)
Lemma blocked_dep e k : ~ unblocked e k -> exists d, d ∈ deps k /\ satisfied e d = false.
Proof.
  intros H. rewrite <- unblocked_spec in H. apply not_true_is_false in H.
  induction (deps k) as [|d ds IH]; simpl in H; [done|].
  destruct (satisfied e d) eqn:E; [|by exists d; split; [left|]].
  destruct (IH H) as (d' & Hd & Hs). exists d'. split; [by right | done].
Qed.

Lemma deps_edge d k : d ∈ deps k <-> edge nodes d k.
Proof.
  rewrite (wf_mirror _ Hwf). unfold DagExecutor.deps. destruct (dget k nodes); [naive_solver|].
  rewrite elem_of_nil. naive_solver.
Qed.

(** With no task, no ready step and no stop, nothing is left to do. *)
Lemma quiescent_done e :
  Inv e -> Frontier e -> Live e -> stop e = None -> pending_tasks e = [] ->
  (forall k, states e !! k <> Some READY) -> all_done nodes e = true.
Proof.
  intros Hi Hf Hl Hs Hp Hr.
  assert (Hpend : forall k s, states e !! k = Some s -> satisfied e k = false -> s = PENDING).
  { intros k s Hk Hsat. destruct s; try done; exfalso.
    - by apply (Hr k).
    - apply (l_running e Hl) in Hk as [Hk _]. rewrite Hp in Hk. by apply elem_of_nil in Hk.
    - assert (satisfied e k = true) by (apply satisfied_spec; auto). congruence.
    - assert (satisfied e k = true) by (apply satisfied_spec; auto). congruence.
    - apply (l_failed e Hl) in Hk as [Hk _]. rewrite Hp in Hk. by apply elem_of_nil in Hk. }
  apply all_done_spec. intros k. induction (acyclic_acc nodes Hwf k Hac) as [k _ IH]. intros Hk.
  unfold terminal. destruct (satisfied e k) eqn:E; [done|]. exfalso.
  destruct (proj2 (i_dom e Hi k) Hk) as [s Es]. rewrite (Hpend k s Es E) in Es.
  destruct (blocked_dep e k (Hf Hs k Es)) as (d & Hd & Hsd). apply deps_edge in Hd as Hdk.
  destruct (edge_keys nodes Hwf d k Hdk) as [Hin _].
  specialize (IH d Hdk Hin). unfold terminal in IH. rewrite Hsd in IH. apply state_is_spec in IH.
  pose proof (Hpend d FAILED IH Hsd). done.
Qed.

Lemma after_process_ok progress e :
  Live e -> (pending_tasks e = [] -> progress = true \/ all_done nodes e = true) ->
  PcInv (after_process nodes progress e) e.
Proof.
  intros Hl H. unfold after_process. destruct (pending_tasks e) as [|x xs] eqn:E.
  - destruct (negb progress && negb (all_done nodes e)) eqn:Hn.
    + apply andb_true_iff in Hn as [H1%negb_true_iff H2%negb_true_iff]. destruct (H eq_refl); congruence.
    + split; [done|]. rewrite E. intros x Hx. by apply elem_of_nil in Hx.
  - split; [done|]. by rewrite E.
Qed.

(** *** Ticks *)

Lemma ready_nodes_spec e x : Inv e ->
  x ∈ List.filter (state_is e READY) (dkeys nodes) <-> states e !! x = Some READY.
Proof.
  intros Hi. rewrite elem_of_lfilter, state_is_spec. split; [tauto|]. intros H. split; [|done].
  apply (i_dom e Hi). eauto.
Qed.

Lemma tick_loop_good e : Good (AtLoop, e) -> Good (tick AtLoop e).
Proof.
  intros (Hi & Hf & Hl & Hu). simpl in *. destruct (all_done nodes e) eqn:Hd.
  { split; [done|]. split; [done|]. split; [done|]. split; [|done]. apply elem_of_nil_inv. intros x Hx.
    pose proof (i_running e Hi x Hx (Hu x Hx)) as Hr. apply all_done_spec with (k := x) in Hd.
    - apply terminal_spec in Hd. rewrite Hr in Hd. naive_solver.
    - apply (i_dom e Hi). eauto. }
  destruct (stop e) as [t|] eqn:Hs.
  - change (Good (let (e', p) := skip_loop (dkeys nodes) (e, false) in (after_process nodes p e', e'))).
    destruct (skip_loop_Inv (dkeys nodes) e false Hi Hl) as [Hi' Hl'].
    destruct (skip_loop_effect (dkeys nodes) e false) as [He Hk].
    pose proof (skip_loop_progress (dkeys nodes) e false) as Hp.
    pose proof (skip_loop_idle (dkeys nodes) e) as Hidle.
    destruct (skip_loop (dkeys nodes) (e, false)) as [e' p]. simpl in *.
    assert (Hs' : stop e' = Some t) by (by rewrite He). split; [done|]. split; [by intros H; simpl in H; congruence|].
    apply after_process_ok; [done|]. simpl. intros Hn. destruct p; [by left|right].
    rewrite (Hidle eq_refl) in *. apply all_done_spec. intros k Hin.
    destruct (proj2 (i_dom e Hi k) Hin) as [s Es]. apply terminal_spec.
    assert (Hno : state_is e PENDING k || state_is e READY k = false).
    { destruct (state_is e PENDING k || state_is e READY k) eqn:E; [|done].
      symmetry in Hp. rewrite <- Hp. symmetry. apply existsb_exists. exists k.
      split; [by apply list_elem_of_In|done]. }
    destruct s; auto.
    + apply state_is_spec in Es. by rewrite Es in Hno.
    + apply state_is_spec in Es. by rewrite Es, orb_true_r in Hno.
    + apply (l_running e Hl) in Es as [Es _]. rewrite Hn in Es. by apply elem_of_nil in Es.
  - pose proof (fun x => ready_nodes_spec e x Hi) as Hr.
    destruct (List.filter (state_is e READY) (dkeys nodes)) as [|y ys] eqn:E.
    + split; [done|]. split; [done|]. apply after_process_ok; [done|]. intros Hn. right.
      apply quiescent_done; try done. intros k Hk. apply Hr in Hk. by apply elem_of_nil in Hk.
    + split; [done|]. split; [done|]. simpl. split; [done|]. rewrite app_nil_r. split.
      { split; [rewrite <- E; apply NoDup_lfilter, (wf_keys _ Hwf) | by intros x Hx; apply Hr]. }
      split; [by intros H|]. split; [done|]. split; [|by auto].
      change (S (length ys)) with (length (y :: ys)). rewrite <- E.
      etrans; [apply List.filter_length_le|]. unfold dkeys. by rewrite length_map.
Qed.

Lemma ready_list_drop e l x l' : ready_list e (l ++ x :: l') -> ready_list e (l ++ l') /\ states e !! x = Some READY /\ x ∉ l ++ l'.
Proof.
  intros [Hn Hr]. apply NoDup_app in Hn as (H1 & H2 & H3). apply NoDup_cons in H3 as [H3 H4].
  repeat split; [apply NoDup_app; set_solver | set_solver | set_solver | set_solver].
Qed.

Lemma ready_list_swap e x todo launch : ready_list e ((x :: todo) ++ launch) -> ready_list e (todo ++ launch ++ [x]).
Proof.
  intros [Hn Hr]. split; [|intros y Hy; apply Hr; set_solver].
  assert (Hp : todo ++ launch ++ [x] ≡ₚ (x :: todo) ++ launch)
    by (rewrite app_assoc; symmetry; apply (Permutation_cons_append (todo ++ launch) x)).
  by rewrite Hp.
Qed.

(** Skipping [x] leaves the other ready steps ready. *)
Lemma skip_keeps x e k s : s <> PENDING -> x <> k -> states e !! k = Some s ->
  states (skip_step x e) !! k = Some s.
Proof.
  intros Hs Hne Hk. change (skip_step x e) with (propagate_completion x (skipped_now x e)).
  assert (Hk' : states (skipped_now x e) !! k = Some s) by (simpl; by rewrite lookup_insert_ne).
  destruct (propagate_spec x (skipped_now x e)) as [[_ [_ Hp]]|[_ ->]]; [|done].
  rewrite Hp, decide_False; [done|]. intros (_ & H & _). congruence.
Qed.

Lemma skip_sets x e : states (skip_step x e) !! x = Some SKIPPED.
Proof.
  change (skip_step x e) with (propagate_completion x (skipped_now x e)).
  assert (Hk' : states (skipped_now x e) !! x = Some SKIPPED) by apply lookup_insert_eq.
  destruct (propagate_spec x (skipped_now x e)) as [[_ [_ Hp]]|[_ ->]]; [|done].
  rewrite Hp, decide_False; [done|]. intros (_ & H & _). congruence.
Qed.

Lemma propagate_frame x e :
  pending_tasks (propagate_completion x e) = pending_tasks e /\ stop (propagate_completion x e) = stop e /\
  results (propagate_completion x e) = results e /\ cancelled (propagate_completion x e) = cancelled e /\
  active (propagate_completion x e) = active e.
Proof. by destruct (propagate_spec x e) as [[_ [-> _]]|[_ ->]]. Qed.

Lemma skip_frame x e :
  pending_tasks (skip_step x e) = pending_tasks e /\ stop (skip_step x e) = stop e /\
  results (skip_step x e) = results e /\ cancelled (skip_step x e) = cancelled e /\
  active (skip_step x e) = active e.
Proof. apply (propagate_frame x (skipped_now x e)). Qed.

Lemma should_execute_error x e err : should_execute_step nodes evaluate_condition is_rag_search x e = Raise err ->
  err = KeyError \/ err = StepDefinitionError x.
Proof.
  unfold should_execute_step. destruct (dget x nodes) as [n|]; [|intros [= <-]; auto].
  destruct (negb _); [done|]. destruct (condition (step n)) as [c|]; [|done].
  case_bool_decide; [done|]. destruct (evaluate_condition c (outputs e)); [done|].
  destruct is_rag_search; [intros [= <-]; auto | done].
Qed.

Lemma tick_filter_good ready todo launch e :
  Good (Filtering ready todo launch, e) -> Good (tick (Filtering ready todo launch) e).
Proof.
  intros (Hi & Hf & Hl & Hr & Hs & Hne & Hlen & Hp). simpl in *. destruct todo as [|x todo].
  - destruct launch as [|y launch].
    + split; [done|]. split; [done|]. apply after_process_ok; [done|]. simpl. intros Hn. left.
      destruct ready as [|z ready]; [done|]. apply existsb_exists. exists z. split; [by left|].
      apply state_is_spec. destruct (Hp Hn z ltac:(by left)) as [H|[H|H]]; [by apply elem_of_nil in H..|done].
    + split; [done|]. split; [done|]. simpl. split; [done|]. split; [done|]. split; [done|]. by intros [|].
  - destruct (ready_list_drop e [] x (todo ++ launch) Hr) as (Hr' & Hx & Hni). simpl in *.
    destruct (should_execute_step _ _ _ x e) as [[]|err] eqn:Ee.
    + destruct (can_launch_with_lock nodes target_model x e) eqn:Hc.
      * split; [done|]. split; [done|]. simpl. split; [done|]. split; [by apply ready_list_swap|].
        split; [done|]. split; [done|]. split; [done|]. intros Hn y Hy.
        destruct (Hp Hn y Hy) as [H|H]; [|set_solver]. apply elem_of_cons in H as [->|H]; set_solver.
      * split; [done|]. split; [done|]. simpl. repeat (split; [done|]). intros Hn. exfalso.
        unfold can_launch_with_lock in Hc. destruct (lock x) as [m|]; [|done].
        destruct (active e !! m) as [z|] eqn:Ea; [|apply can_acquire_spec in Ea; congruence].
        apply (i_lock e Hi) in Ea as [Ea _]. rewrite Hn in Ea. by apply elem_of_nil in Ea.
    + destruct (skip_frame x e) as (Fp & Fs & _).
      split; [by apply (skip_step_Inv x READY); auto|]. split; [by apply (skip_step_frontier x READY)|].
      simpl. split; [by apply (skip_step_Live x READY); auto|]. unfold stop_pending. rewrite Fp, Fs.
      split; [split; [apply Hr'|]|].
      { intros y Hy. apply skip_keeps; [done| |by apply Hr']. intros ->. done. }
      repeat (split; [done|]). intros Hn y Hy. destruct (decide (x = y)) as [->|Hxy]; [right; right; apply skip_sets|].
      destruct (Hp Hn y Hy) as [[->|H]%elem_of_cons|[H|H]]; [done|auto|auto|].
      right; right. by apply skip_keeps.
    + split; [done|]. split; [done|]. simpl. rewrite (l_cancelled e Hl).
      by destruct (should_execute_error x e err Ee) as [-> | ->].
Qed.

Lemma tick_launch_good todo launched skipped e :
  Good (Launching todo launched skipped, e) -> Good (tick (Launching todo launched skipped) e).
Proof.
  intros (Hi & Hf & Hl & Hr & Hs & Hp). simpl in *. destruct todo as [|x todo].
  { split; [done|]. split; [done|]. apply after_process_ok; [done|]. intros Hn. destruct (Hp ltac:(auto) Hn). }
  destruct (stop e) as [t|] eqn:Es.
  { split; [done|]. split; [done|]. apply after_process_ok; [done|]. intros Hn.
    unfold stop_pending in Hs. simpl in Hn. rewrite Es in Hs. by destruct (Hs ltac:(done) Hn). }
  destruct (ready_list_drop e [] x todo Hr) as (Hr' & Hx & Hni). simpl in *.
  destruct (can_launch_with_lock nodes target_model x e) eqn:Hc.
  - destruct (consistent x).
    + split; [by apply start_task_Inv|]. split; [exact (frontier_running x e Hx Hf)|]. simpl.
      split; [by apply start_task_Live|]. split.
      { split; [apply Hr'|]. intros y Hy. simpl. rewrite lookup_insert_ne; [by apply Hr'|]. by intros ->. }
      split; [by intros _ [_ ?]%app_nil|]. by intros _ [_ ?]%app_nil.
    + split; [by apply set_running_Inv|]. split; [by apply frontier_running|]. simpl.
      by rewrite (l_cancelled e Hl).
  - split; [done|]. split; [done|]. simpl. split; [done|]. split; [done|]. split; [done|]. intros _ Hn.
    unfold can_launch_with_lock in Hc. destruct (lock x) as [m|]; [|done].
    destruct (active e !! m) as [z|] eqn:Ea; [|apply can_acquire_spec in Ea; congruence].
    apply (i_lock e Hi) in Ea as [Ea _]. rewrite Hn in Ea. by apply elem_of_nil in Ea.
Qed.

Lemma set_state_same x s e : states e !! x = Some s -> set_state x s e = e.
Proof. intros H. destruct e. unfold set_state. simpl in *. by rewrite insert_id. Qed.

Lemma cancel_remaining_Inv e : Inv e -> Inv (cancel_remaining e).
Proof. intros []. by split. Qed.

Lemma tick_handle_good done e : Good (Handling done, e) -> Good (tick (Handling done) e).
Proof.
  intros (Hi & Hf & Hl & Hn & Hne & Hd). simpl in *. destruct done as [|x done]; [done|].
  apply NoDup_cons in Hn as [Hni Hn]. destruct (proj1 (Hd x) ltac:(by left)) as [Hp [o Ho]]. rewrite Ho.
  pose proof (finish_task_Inv x e Hi) as Hi'. destruct o as [b|].
  - split; [by destruct done|]. split; [by destruct done|].
    assert (Hl' : Live (finish_task x e)) by (apply finish_task_Live; eauto).
    destruct done as [|y done]; simpl.
    + split; [done|]. intros z [Hz Hzx]%elem_of_remove. destruct (results e !! z) eqn:Er; [|done].
      assert (z ∈ [x]) as ->%list_elem_of_singleton by (apply Hd; eauto). done.
    + split; [done|]. split; [done|]. split; [done|]. intros z. rewrite elem_of_remove.
      split.
      * intros Hz. destruct (proj1 (Hd z) ltac:(by right)) as [H1 H2]. repeat split; try done.
        by intros ->.
      * intros [[H1 H2] H3]. assert (Hz : z ∈ x :: y :: done) by (by apply Hd).
        apply elem_of_cons in Hz as [->|Hz]; [by destruct H2|done].
  - rewrite set_state_same by (apply (i_result e Hi x Failed Ho)).
    split; [by apply cancel_remaining_Inv|]. done.
Qed.

Lemma tick_good pc e : Good (pc, e) -> Good (tick pc e).
Proof.
  destruct pc; [apply tick_loop_good | apply tick_filter_good | apply tick_launch_good | done
               | apply tick_handle_good | done..].
Qed.

(** *** Tasks and interruptions *)

Lemma finish_step_frame x o e :
  pending_tasks (finish_step x o e) = pending_tasks e /\ cancelled (finish_step x o e) = cancelled e /\
  results (finish_step x o e) = <[x := o]> (results e).
Proof.
  rewrite finish_step_recorded. destruct o; [|done].
  by destruct (propagate_frame x (recorded x (Succeeded stops) e)) as (-> & _ & -> & -> & _).
Qed.

Lemma finish_step_keeps x o e k s :
  (s = READY \/ s = SKIPPED) -> states e !! x = Some RUNNING -> states e !! k = Some s ->
  states (finish_step x o e) !! k = Some s.
Proof.
  intros Hs Hx Hk. assert (Hk' : states (recorded x o e) !! k = Some s).
  { simpl. rewrite lookup_insert_ne; [done|]. intros ->. destruct Hs; congruence. }
  rewrite finish_step_recorded. destruct o as [b|]; [|done].
  destruct (propagate_spec x (recorded x (Succeeded b) e)) as [[_ [_ Hp]]|[_ ->]]; [|done].
  rewrite Hp, decide_False; [done|]. intros (_ & H & _). destruct Hs; congruence.
Qed.

Lemma task_good pc x o e : Good (pc, e) -> tasks_run pc = true -> x ∈ pending_tasks e ->
  results e !! x = None -> Good (pc, finish_step x o e).
Proof.
  intros (Hi & Hf & Hpc) Ht Hp Hr. destruct (finish_step_frame x o e) as (Fp & Fc & _).
  pose proof (i_running e Hi x Hp Hr) as Hx.
  assert (Hkeep : forall l, ready_list e l -> ready_list (finish_step x o e) l).
  { intros l [H1 H2]. split; [done|]. intros y Hy. apply finish_step_keeps; auto. }
  assert (Hpne : pending_tasks e <> []) by (intros Hn; rewrite Hn in Hp; by apply elem_of_nil in Hp).
  split; [by apply finish_step_Inv|]. split; [by apply finish_step_frontier|].
  destruct pc; try done; simpl in *; rewrite ?Fp, ?Fc; unfold stop_pending; rewrite ?Fp.
  - destruct Hpc as (Hl & Hrl & Hs & Hne & Hlen & Hc). split; [by apply finish_step_Live|].
    split; [by apply Hkeep|]. split; [done|]. split; [done|]. split; [done|]. done.
  - destruct Hpc as (Hl & Hrl & Hs & Hc). split; [by apply finish_step_Live|].
    split; [by apply Hkeep|]. split; done.
  - destruct Hpc as [Hl _]. split; [by apply finish_step_Live | done].
  - exact Hpc.
Qed.

Lemma cancel_good pc e : Good (pc, e) -> Good (Cancelled, cancel e).
Proof.
  intros (Hi & Hf & _). split; [by apply cancel_Inv|]. split; [|done].
  assert (Hs : forall xs e, states (fold_left (fun e x => finish_task x e) xs e) = states e /\
                       stop (fold_left (fun e x => finish_task x e) xs e) = stop e).
  { induction xs as [|x xs IH]; intros e'; [done|]. simpl. by destruct (IH (finish_task x e')) as [-> ->]. }
  destruct (Hs (pending_tasks e) e) as [H1 H2].
  intros Hst k Hk Hu. simpl in *. rewrite H2 in Hst. rewrite H1 in Hk. apply (Hf Hst k Hk).
  intros d Hd. specialize (Hu d Hd). apply satisfied_spec. apply satisfied_spec in Hu. simpl in Hu.
  by rewrite H1 in Hu.
Qed.

Lemma step_good c c' : Good c -> sstep c c' -> Good c'.
Proof.
  intros Hg Hs. destruct Hs as [pc e _|e Hd|done e Hp Hne|pc x o e Ht Hp _ Hr|pc e _].
  - by apply tick_good.
  - destruct Hg as (Hi & Hf & Hl & _). split; [done|]. split; [done|]. simpl.
    by rewrite (l_cancelled e Hl).
  - destruct Hg as (Hi & Hf & Hl & _). split; [done|]. split; [done|]. simpl. split; [done|].
    split; [rewrite Hp; apply NoDup_lfilter, (i_pending e Hi)|]. split; [done|].
    simpl. intros x. rewrite Hp. unfold done_tasks. by rewrite elem_of_lfilter, bool_decide_eq_true.
  - by apply task_good.
  - by apply (cancel_good pc).
Qed.

(** *** The initial state *)

Lemma init_states k : states (init nodes) !! k = state <$> dget k nodes.
Proof using Type.
  clear. simpl. induction nodes as [|[k' n] ns IH]; [done|]. simpl. case_decide as H.
  - subst. by rewrite lookup_insert_eq.
  - by rewrite lookup_insert_ne.
Qed.

Lemma init_unsatisfied k : satisfied (init nodes) k = false.
Proof.
  apply not_true_is_false. rewrite satisfied_spec, init_states. destruct (dget k nodes) as [n|] eqn:E; [|naive_solver].
  simpl. rewrite (Hfresh k n E). case_bool_decide; naive_solver.
Qed.

Lemma init_good : Good (AtLoop, init nodes).
Proof.
  assert (Hst : forall k s, states (init nodes) !! k = Some s ->
    (s = READY /\ deps k = []) \/ (s = PENDING /\ deps k <> [])).
  { intros k s. rewrite init_states. unfold DagExecutor.deps. intros (n & En & ->)%fmap_Some.
    rewrite En, (Hfresh k n En). case_bool_decide; auto. }
  split; [split|split; [|split; [split|]]]; try done; simpl; try (by constructor).
  - intros k. fold (states (init nodes)). change (list_to_map _) with (states (init nodes)).
    rewrite init_states, fmap_is_Some. split; [intros [n En]; by eapply dget_Some_key|].
    intros [n ->]%dkeys_dget. by exists n.
  - intros k s Hk H1 H2. destruct (Hst k s Hk) as [[_ E]|[? _]]; [|done].
    intros d. rewrite E. by intros ?%elem_of_nil.
  - by intros k ?%elem_of_nil.
  - intros m x. rewrite lookup_empty, elem_of_nil. naive_solver.
  - intros x. rewrite elem_of_empty, elem_of_nil. naive_solver.
  - intros k. rewrite elem_of_nil. split; [done|]. intros Hk.
    by destruct (Hst k _ Hk) as [[? _]|[? _]].
  - intros l1 x l2 d H. by destruct l1.
  - intros k. by rewrite elem_of_nil, init_unsatisfied.
  - intros _ k Hk Hu. destruct (Hst k _ Hk) as [[? _]|[_ Hd]]; [done|].
    destruct (deps k) as [|d ds] eqn:E; [done|].
    pose proof (Hu d ltac:(rewrite E; by left)) as H. by rewrite init_unsatisfied in H.
  - intros k Hk. by destruct (Hst k _ Hk) as [[? _]|[? _]].
  - intros k Hk. by destruct (Hst k _ Hk) as [[? _]|[? _]].
Qed.

Lemma reachable_good c : reachable c -> Good c.
Proof.
  apply (rtc_ind_r Good (AtLoop, init nodes)); [apply init_good|].
  intros c1 c2 _ Hs Hg. by eapply step_good.
Qed.

(** ** How states change *)

(** The life of a step. *)
Definition next_state (s s' : StepState) : bool :=
  match s, s' with
  | PENDING, (READY | SKIPPED) | READY, (RUNNING | SKIPPED) | RUNNING, (COMPLETED | FAILED) => true
  | _, _ => false
  end.

(** [k] may go from [s] to [s'] when the executor moves from [e]. *)
Definition allowed (e : Executor) (k : string) (s s' : StepState) : Prop :=
  s' = s \/
  next_state s s' = true /\
  (s' = RUNNING -> stop e = None /\ can_launch_with_lock nodes target_model k e = true) /\
  (s' = SKIPPED -> stop e <> None \/ should_execute_step nodes evaluate_condition is_rag_search k e = Ok false).

Definition evolves (e e' : Executor) : Prop :=
  (forall k s, states e !! k = Some s -> exists s', states e' !! k = Some s' /\ allowed e k s s') /\
  (forall k, k ∈ pending_tasks e' -> k ∈ pending_tasks e \/ states e' !! k = Some RUNNING) /\
  (forall x, stop e = Some x -> stop e' = Some x).

Lemma allowed_refl e k s : allowed e k s s.
Proof. by left. Qed.

Lemma evolves_same e e' : states e' = states e -> stop e' = stop e ->
  (forall k, k ∈ pending_tasks e' -> k ∈ pending_tasks e) -> evolves e e'.
Proof.
  intros H1 H2 H3. split; [|split; [auto|by rewrite H2]]. intros k s Hk. exists s.
  rewrite H1. by split; [|left].
Qed.

Lemma promoted_evolves e e' ys k s : promoted_states e e' ys -> states e !! k = Some s ->
  exists s', states e' !! k = Some s' /\ (s' = s \/ s = PENDING /\ s' = READY).
Proof.
  intros [_ Hp] Hk. rewrite Hp. case_decide as H; [|eauto]. exists READY.
  destruct H as (_ & H & _). split; [done|]. right. split; congruence.
Qed.

(** One step changes state and its successors are promoted. *)
Lemma propagate_evolves x s s' e e1 :
  moves x s s' e e1 -> allowed e x s s' -> s' <> PENDING ->
  pending_tasks e1 = pending_tasks e -> (forall y, stop e = Some y -> stop e1 = Some y) ->
  evolves e (propagate_completion x e1).
Proof.
  intros Hm Ha Hs' Hp Hst. destruct (propagate_frame x e1) as (Fp & Fs & _).
  split; [|split; [rewrite Fp, Hp; auto | by rewrite Fs]].
  assert (H1 : forall k t, states e !! k = Some t ->
    exists t', states e1 !! k = Some t' /\ (k = x /\ t' = s' /\ t = s \/ t' = t)).
  { intros k t Hk. rewrite (moves_lookup _ _ _ _ _ k Hm). case_decide; [|eauto].
    exists s'. subst. destruct Hm as [Hx _]. split; [done|]. left. repeat split; congruence. }
  intros k t Hk. destruct (H1 k t Hk) as (t' & Hk' & Ht').
  assert (Hall : allowed e k t t') by (destruct Ht' as [(-> & -> & ->)| ->]; [done | apply allowed_refl]).
  destruct (propagate_spec x e1) as [[_ Hpr]|[_ ->]]; [|by exists t'].
  destruct (promoted_evolves e1 _ _ k t' Hpr Hk') as (t2 & Hk2 & [->|[-> ->]]); [by exists t'|].
  exists READY. split; [done|]. destruct Ht' as [(_ & <- & _)|<-]; [done|]. by right.
Qed.

Lemma moves_evolves x s s' e e1 :
  moves x s s' e e1 -> allowed e x s s' ->
  (forall k, k ∈ pending_tasks e1 -> k ∈ pending_tasks e \/ states e1 !! k = Some RUNNING) ->
  (forall y, stop e = Some y -> stop e1 = Some y) -> evolves e e1.
Proof.
  intros Hm Ha Hp Hst. split; [|by split]. intros k t Hk. rewrite (moves_lookup _ _ _ _ _ k Hm).
  case_decide; [|exists t; by split; [|left]]. subst. destruct Hm as [Hx _]. exists s'. split; [done|]. congruence.
Qed.

Lemma after_process_pc progress e pc :
  after_process nodes progress e = pc -> pc = AtLoop \/ pc = Waiting \/ exists l, pc = Raised (PipelineDeadlock l).
Proof.
  intros <-. unfold after_process. destruct (pending_tasks e); [|auto]. destruct (_ && _); eauto.
Qed.

Lemma fold_finish_frame xs : forall e,
  states (fold_left (fun e x => finish_task x e) xs e) = states e /\
  stop (fold_left (fun e x => finish_task x e) xs e) = stop e.
Proof. induction xs as [|x xs IH]; intros e'; [done|]. simpl. by destruct (IH (finish_task x e')) as [-> ->]. Qed.

Lemma skip_loop_evolves e t : stop e = Some t -> evolves e (skip_loop (dkeys nodes) (e, false)).1.
Proof.
  intros Hs. destruct (skip_loop_effect (dkeys nodes) e false) as [He Hk]. split; [|split].
  - intros k s Hks. rewrite Hk. case_decide as H; [|exists s; by split; [|left]].
    exists SKIPPED. split; [done|]. right. split; [|split; [done|]].
    + destruct H as [_ [H|H]]; rewrite Hks in H; by injection H as ->.
    + intros _. left. congruence.
  - intros k. rewrite He. simpl. auto.
  - intros x. by rewrite He.
Qed.

Lemma tick_evolves pc e : Good (pc, e) -> evolves e (tick pc e).2.
Proof.
  intros (Hi & Hf & Hpc).
  assert (Hself : evolves e e) by (by apply evolves_same).
  destruct pc as [|ready [|x todo] launch|[|x todo] launched skipped| |[|x done]| | |]; simpl in *; try exact Hself.
  - destruct (all_done nodes e); [done|]. destruct (stop e) as [t|] eqn:Hs.
    + pose proof (skip_loop_evolves e t Hs) as H. unfold skip_loop, skipped_now in H.
      unfold DagExecutor.skip_unlaunched. by destruct (fold_left _ _ _).
    + by destruct (List.filter _ _).
  - by destruct launch.
  - destruct Hpc as (_ & [_ Hr] & _). pose proof (Hr x ltac:(by left)) as Hx.
    destruct (should_execute_step _ _ _ x e) as [[]|err] eqn:Ee; simpl; [by destruct (can_launch_with_lock _ _ x e)| |done].
    apply (propagate_evolves x READY SKIPPED e (skipped_now x e)); try done. right. split; [done|]. split; [done | by right].
  - destruct Hpc as (_ & [_ Hr] & _). pose proof (Hr x ltac:(by left)) as Hx.
    destruct (stop e) eqn:Hs; [done|]. destruct (can_launch_with_lock _ _ x e) eqn:Hc; [|done].
    assert (Ha : allowed e x READY RUNNING) by (right; by repeat split).
    destruct (consistent x); apply (moves_evolves x READY RUNNING); try done; try (by rewrite Hs); simpl.
    + intros k [Hk| ->%list_elem_of_singleton]%elem_of_app; [by left|]. right. apply lookup_insert_eq.
    + auto.
  - destruct Hpc as (_ & _ & _ & Hd). destruct (proj1 (Hd x) ltac:(by left)) as [_ [o Ho]]. rewrite Ho.
    assert (Hft : evolves e (finish_task x e)) by (apply evolves_same; try done; by intros k [? _]%elem_of_remove).
    destruct o; [by destruct done|]. simpl.
    rewrite set_state_same by (apply (i_result e Hi x Failed Ho)). exact Hft.
Qed.

Lemma step_evolves c c' : Good c -> sstep c c' -> evolves c.2 c'.2.
Proof.
  intros Hg Hs. destruct Hs as [pc e _|e Hd|done e Hp Hne|pc x o e Ht Hp _ Hr|pc e _]; simpl.
  - by apply tick_evolves.
  - by apply evolves_same.
  - by apply evolves_same.
  - destruct Hg as (Hi & _). simpl in Hi. pose proof (recorded_moves x o e Hi Hp Hr) as Hm.
    assert (Ha : allowed e x RUNNING (final_state o)) by (right; by destruct o).
    rewrite finish_step_recorded. destruct o as [b|].
    + eapply propagate_evolves; [exact Hm | exact Ha | done | done|]. intros y Hy. simpl. rewrite Hy. by destruct b.
    + eapply moves_evolves; [exact Hm | exact Ha | by left | done].
  - destruct (fold_finish_frame (pending_tasks e) e) as [H1 H2].
    apply evolves_same; [exact H1 | exact H2 |]. simpl. by intros k ?%elem_of_nil.
Qed.

(** ** Termination *)

(** What is left to happen to a step; a task that ended counts until it is
    handled. *)
Definition weight_of (e : Executor) (k : string) : nat :=
  match states e !! k with
  | Some PENDING => 4
  | Some READY => 3
  | Some RUNNING => 2
  | Some COMPLETED | Some FAILED => if bool_decide (k ∈ pending_tasks e) then 1 else 0
  | Some SKIPPED | None => 0
  end.

Definition weight (e : Executor) : nat := sum_list_with (weight_of e) (dkeys nodes).

(** The scheduler's moves until it waits; a pass that skipped a step may
    start another. *)
Definition another_pass (b : bool) : nat := if b then 2 * length nodes + 5 else 0.

Definition rank (c : PC * Executor) : nat :=
  match c.1 with
  | AtLoop => 2 * length nodes + 4
  | Filtering ready todo launch =>
      2 * length todo + length launch + 3 + another_pass (existsb (state_is c.2 SKIPPED) ready)
  | Launching todo launched skipped => length todo + 2 + another_pass skipped
  | Waiting => 1
  | _ => 0
  end.

Lemma allowed_weight e e' k s s' :
  (k ∈ pending_tasks e' -> k ∈ pending_tasks e \/ states e' !! k = Some RUNNING) ->
  states e !! k = Some s -> states e' !! k = Some s' -> allowed e k s s' ->
  (weight_of e' k <= weight_of e k)%nat /\ (s' <> s -> weight_of e' k < weight_of e k)%nat.
Proof.
  intros Hp Hs Hs' Ha. unfold weight_of. rewrite Hs, Hs' in *.
  destruct Ha as [->|[Hn _]].
  - split; [|done]. destruct s; try lia; repeat case_bool_decide; try lia; naive_solver.
  - destruct s, s'; try done; repeat case_bool_decide; lia.
Qed.

Lemma weight_of_le e e' : evolves e e' -> Inv e -> forall k, k ∈ dkeys nodes ->
  (weight_of e' k <= weight_of e k)%nat.
Proof.
  intros (H1 & H2 & _) Hi k Hk. destruct (proj2 (i_dom e Hi k) Hk) as [s Hs].
  destruct (H1 k s Hs) as (s' & Hs' & Ha). by apply (allowed_weight e e' k s s'); [apply H2|..].
Qed.

Lemma weight_le e e' : evolves e e' -> Inv e -> (weight e' <= weight e)%nat.
Proof. intros He Hi. apply sum_list_with_le. intros k Hk. by apply weight_of_le. Qed.

Lemma weight_lt e e' k s : evolves e e' -> Inv e -> states e !! k = Some s -> states e' !! k <> Some s ->
  (weight e' < weight e)%nat.
Proof.
  intros He Hi Hs Hne. apply (sum_list_with_lt _ _ _ k).
  - intros x Hx. by apply weight_of_le.
  - apply (i_dom e Hi). eauto.
  - destruct He as (H1 & H2 & _). destruct (H1 k s Hs) as (s' & Hs' & Ha).
    apply (allowed_weight e e' k s s'); [apply H2 | done | done | done|]. congruence.
Qed.

(** Every step lowers the weight, or keeps it and lowers the rank. *)
Definition descends (c c' : PC * Executor) : Prop :=
  (weight c'.2 < weight c.2)%nat \/ (weight c'.2 <= weight c.2)%nat /\ (rank c' < rank c)%nat.

Lemma after_process_rank progress e e' :
  (pending_tasks e = [] -> progress = false -> all_done nodes e = false) ->
  (rank (after_process nodes progress e, e') <
     match pending_tasks e with [] => if progress then 2 * length nodes + 5 else 2 | _ => 2 end)%nat.
Proof.
  intros H. unfold after_process. destruct (pending_tasks e) as [|x xs] eqn:E; [|unfold rank; simpl; lia].
  destruct progress; simpl; [unfold rank; simpl; lia|].
  rewrite (H eq_refl eq_refl). unfold rank. simpl. lia.
Qed.

Lemma tick_loop_descends e : Good (AtLoop, e) -> descends (AtLoop, e) (tick AtLoop e).
Proof.
  intros Hg. pose proof (tick_evolves AtLoop e Hg) as He. destruct Hg as (Hi & Hf & Hl & Hu). simpl in *.
  destruct (all_done nodes e) eqn:Hd; [right; split; [done|]; unfold rank; simpl; lia|].
  destruct (stop e) as [t|] eqn:Hs.
  - pose proof (skip_loop_progress (dkeys nodes) e false) as Hp.
    pose proof (skip_loop_idle (dkeys nodes) e) as Hidle.
    destruct (skip_loop_effect (dkeys nodes) e false) as [_ Hk].
    change (skip_unlaunched e) with (skip_loop (dkeys nodes) (e, false)) in *.
    destruct (skip_loop (dkeys nodes) (e, false)) as [e' p]. simpl in *. destruct p.
    + left. cbn [snd fst]. symmetry in Hp. apply existsb_exists in Hp as (k & Hin & Hun).
      apply list_elem_of_In in Hin. apply unlaunched_spec in Hun.
      specialize (Hk k). rewrite decide_True in Hk by done. destruct Hun as [Hun|Hun];
        (eapply weight_lt; [exact He | done | exact Hun | by rewrite Hk]).
    + rewrite (Hidle eq_refl). right. split; [done|].
      pose proof (after_process_rank false e e ltac:(done)) as Hr.
      eapply Nat.lt_le_trans; [exact Hr|]. unfold rank. simpl. destruct (pending_tasks e); lia.
  - destruct (List.filter (state_is e READY) (dkeys nodes)) as [|y ys] eqn:E.
    + right. split; [done|]. pose proof (after_process_rank false e e ltac:(done)) as Hr.
      eapply Nat.lt_le_trans; [exact Hr|]. unfold rank. simpl. destruct (pending_tasks e); lia.
    + right. split; [done|]. unfold rank. cbn [fst snd]. rewrite <- E.
      assert (Hex : existsb (state_is e SKIPPED) (List.filter (state_is e READY) (dkeys nodes)) = false).
      { apply not_true_is_false. intros (z & Hz & Hsk)%existsb_exists. apply list_elem_of_In in Hz.
        apply ready_nodes_spec in Hz; [|done]. apply state_is_spec in Hsk. congruence. }
      rewrite Hex. simpl. assert (Hlen : (length (List.filter (state_is e READY) (dkeys nodes)) <= length nodes)%nat).
      { etrans; [apply List.filter_length_le|]. unfold dkeys. by rewrite length_map. }
      lia.
Qed.

Lemma tick_filter_descends ready todo launch e :
  Good (Filtering ready todo launch, e) -> descends (Filtering ready todo launch, e) (tick (Filtering ready todo launch) e).
Proof.
  intros Hg. pose proof (tick_evolves _ e Hg) as He. destruct Hg as (Hi & Hf & Hl & Hr & Hs & Hne & Hlen & Hp).
  simpl in *. destruct todo as [|x todo].
  - right. destruct launch as [|y launch]; (split; [done|]).
    + assert (Hpr : pending_tasks e = [] -> existsb (state_is e SKIPPED) ready = false -> all_done nodes e = false).
      { intros Hn Hex. exfalso. destruct ready as [|z ready]; [done|].
        destruct (Hp Hn z ltac:(by left)) as [H|[H|H]]; [by apply elem_of_nil in H..|].
        apply state_is_spec in H. simpl in Hex. by rewrite H in Hex. }
      pose proof (after_process_rank (existsb (state_is e SKIPPED) ready) e e Hpr) as Hrk.
      eapply Nat.lt_le_trans; [exact Hrk|]. unfold rank. simpl. unfold another_pass.
      destruct (pending_tasks e), (existsb _ _); lia.
    + unfold rank. simpl. lia.
  - destruct (ready_list_drop e [] x (todo ++ launch) Hr) as (_ & Hx & _).
    destruct (should_execute_step _ _ _ x e) as [[]|err]; simpl in *.
    + right. destruct (can_launch_with_lock _ _ x e); (split; [done|]); unfold rank; simpl; rewrite ?length_app; simpl; lia.
    + left. eapply weight_lt; [exact He | done | exact Hx|].
      cbn [snd]. by rewrite skip_sets.
    + right. split; [done|]. unfold rank; simpl. lia.
Qed.

Lemma tick_launch_descends todo launched skipped e :
  Good (Launching todo launched skipped, e) -> descends (Launching todo launched skipped, e) (tick (Launching todo launched skipped) e).
Proof.
  intros Hg. pose proof (tick_evolves _ e Hg) as He. destruct Hg as (Hi & Hf & Hl & Hr & Hs & Hp).
  unfold stop_pending in Hs. simpl in *.
  assert (Hend : (launched = true \/ todo = [] \/ stop e <> None) ->
    descends (Launching todo launched skipped, e) (after_process nodes (launched || skipped) e, e)).
  { intros Hc. assert (Hpn : pending_tasks e <> []) by naive_solver. right. split; [done|].
    pose proof (after_process_rank (launched || skipped) e e ltac:(done)) as Hrk.
    eapply Nat.lt_le_trans; [exact Hrk|]. unfold rank. simpl. destruct (pending_tasks e); [done | lia]. }
  destruct todo as [|x todo]; [apply Hend; auto|].
  destruct (stop e) as [t|]; [apply Hend; auto|].
  destruct (ready_list_drop e [] x todo Hr) as (_ & Hx & _).
  destruct (can_launch_with_lock nodes target_model x e).
  - left. destruct (consistent x); (eapply weight_lt; [exact He | done | exact Hx|]); simpl; by rewrite lookup_insert_eq.
  - right. split; [done|]. unfold rank. simpl. lia.
Qed.

(** Handling a task takes it off the list. *)
Lemma handled_weight x e e' :
  evolves e e' -> Inv e -> x ∈ pending_tasks e -> is_Some (results e !! x) ->
  states e' = states e -> x ∉ pending_tasks e' -> (weight e' < weight e)%nat.
Proof.
  intros He Hi Hp [o Ho] Hs Hn. pose proof (i_result e Hi x o Ho) as Hx.
  apply (sum_list_with_lt _ _ _ x).
  - intros k Hk. by apply weight_of_le.
  - apply (i_dom e Hi). eauto.
  - unfold weight_of. rewrite Hs, Hx.
    destruct o; simpl; rewrite bool_decide_false, bool_decide_true by done; lia.
Qed.

Lemma tick_handle_descends done e : Good (Handling done, e) -> descends (Handling done, e) (tick (Handling done) e).
Proof.
  intros Hg. pose proof (tick_evolves _ e Hg) as He. destruct Hg as (Hi & Hf & Hl & Hn & Hne & Hd).
  simpl in *. destruct done as [|x done]; [done|].
  destruct (proj1 (Hd x) ltac:(by left)) as [Hp [o Ho]]. rewrite Ho in *. left.
  assert (Hx : x ∉ pending_tasks (finish_task x e)) by (intros [_ ?]%elem_of_remove; done).
  destruct o as [b|]; simpl in *.
  - apply (handled_weight x); try done; by destruct done.
  - rewrite set_state_same in * by (apply (i_result e Hi x Failed Ho)). by apply (handled_weight x).
Qed.

Lemma step_descends c c' : Good c -> sstep c c' -> descends c c'.
Proof.
  intros Hg Hs. pose proof (step_evolves c c' Hg Hs) as He.
  destruct Hs as [pc e Hpc|e Hd|done e Hp Hne|pc x o e Ht Hp _ Hr|pc e Hsu].
  - destruct pc; try done; [by apply tick_loop_descends | by apply tick_filter_descends
                           | by apply tick_launch_descends | by apply tick_handle_descends].
  - right. split; [done|]. unfold rank. simpl. lia.
  - right. split; [done|]. unfold rank. simpl. lia.
  - left. destruct Hg as (Hi & _). simpl in Hi. pose proof (i_running e Hi x Hp Hr) as Hx.
    eapply weight_lt; [exact He | done | exact Hx|].
    pose proof (finish_step_frame x o e) as (_ & _ & Hres).
    assert (Hg' : Inv (finish_step x o e)) by (by apply finish_step_Inv).
    simpl. rewrite (i_result _ Hg' x o) by (rewrite Hres; apply lookup_insert_eq). by destruct o.
  - right. split; [apply weight_le; [exact He | apply Hg]|]. destruct pc; try done; unfold rank; simpl; lia.
Qed.

Lemma good_terminates : forall n m c, Good c -> (weight c.2 <= n)%nat -> (rank c <= m)%nat -> Acc (flip sstep) c.
Proof.
  induction n as [n IHn] using lt_wf_ind. induction m as [m IHm] using lt_wf_ind.
  intros c Hg Hn Hm. constructor. intros c' Hs. pose proof (step_good c c' Hg Hs) as Hg'.
  destruct (step_descends c c' Hg Hs) as [H|[H1 H2]].
  - eapply (IHn (weight c'.2)); [lia | done | done | reflexivity].
  - eapply (IHm (rank c')); [lia | done | lia | lia].
Qed.

(** The scheduler or a task can always move, until the run has ended. *)
Definition ended (pc : PC) : bool :=
  match pc with Done | Cancelled | Raised _ => true | _ => false end.

Lemma good_progress c : Good c -> ended c.1 = false -> exists c', sstep c c'.
Proof.
  destruct c as [pc e]. intros (Hi & Hf & Hpc) He.
  destruct pc; try done; try (eexists; by apply S_tick). destruct Hpc as [Hl Hp]. simpl in *.
  destruct (done_tasks e) as [|x xs] eqn:E; [|exists (Handling (x :: xs), e); by apply S_wake; rewrite ?E].
  destruct (pending_tasks e) as [|x xs] eqn:Ep; [done|].
  exists (Waiting, finish_step x Failed e). apply S_task; [done | rewrite Ep; by left | |].
  - rewrite (l_cancelled e Hl). by intros ?%elem_of_nil.
  - destruct (results e !! x) as [o|] eqn:Er; [|done]. exfalso.
    assert (Hx : x ∈ done_tasks e); [|rewrite E in Hx; by apply elem_of_nil in Hx].
    unfold done_tasks. rewrite Ep. apply elem_of_lfilter. split; [by left|].
    apply bool_decide_eq_true. by rewrite Er.
Qed.

End Proofs.

(** A graph that [DAGBuilder.build] returns. *)
Lemma built_graph cond_names dependency_fields steps nodes :
  build_expanded cond_names dependency_fields steps = Ok nodes ->
  well_formed nodes /\ acyclic nodes /\
  forall k n, dget k nodes = Some n -> state n = if bool_decide (dependencies n = []) then READY else PENDING.
Proof.
  intros Hb. pose proof (build_cases cond_names dependency_fields steps) as H. rewrite Hb in H.
  destruct H as [H1 H2 _ H4]. split; [done|]. split; [done|]. intros k n En. by destruct (H4 k n En) as (_ & _ & _ & ? & _).
Qed.

(** ** What the executor guarantees *)

Section Guarantees.
Context (cond_names : string -> option (list string)) (dependency_fields : string -> list string).
Context (steps : list StepConfig) (nodes : Nodes).
Context (evaluate_condition : string -> list string -> option bool).
Context (target_model : string -> option string).
Context (consistent : string -> bool).
Context (is_rag_search : bool).

#[local] Notation deps := (deps nodes).
#[local] Notation lock := (get_lock_model nodes target_model).
#[local] Notation sstep := (sstep nodes evaluate_condition target_model consistent is_rag_search).
#[local] Notation reachable := (reachable nodes evaluate_condition target_model consistent is_rag_search).

(** A state of a run of the graph that [build] made of [steps]. *)
Definition run_state (c : PC * Executor) : Prop :=
  build_expanded cond_names dependency_fields steps = Ok nodes /\ reachable c.

Lemma run_good c : run_state c -> Good nodes target_model c.
Proof. intros [Hb Hr]. destruct (built_graph _ _ _ _ Hb) as (H1 & H2 & H3). by eapply reachable_good. Qed.

(** C2: Execution respects the graph, and the bookkeeping agrees with it.  In
    every reachable state of a run of a graph that [build] returned: exactly the
    steps of the graph have a state; a step that is READY, RUNNING, COMPLETED
    or FAILED has all its dependencies COMPLETED or SKIPPED, with outputs; the
    steps with outputs are those COMPLETED or SKIPPED; a task is listed once,
    and while it has no result its step is RUNNING; a step with a result is
    COMPLETED or FAILED, as the result says; the active tracker lists, for each
    local model, exactly the task that locks it, and no two tasks lock the
    same; the models registered with the gateway tracker are those of the
    tasks; [execution_order] lists each completed step once, after those of its
    dependencies that ran.  Until the run is cancelled or raises, the RUNNING
    steps are exactly those of the tasks without result, and a FAILED step has
    a task that has not been handled. *)
Theorem execution_safe pc e :
  run_state (pc, e) ->
  (forall k, is_Some (states e !! k) <-> k ∈ dkeys nodes) /\
  (forall k s d, states e !! k = Some s -> s <> PENDING -> s <> SKIPPED -> d ∈ deps k ->
     d ∈ outputs e /\ (states e !! d = Some COMPLETED \/ states e !! d = Some SKIPPED)) /\
  (forall k, k ∈ outputs e <-> states e !! k = Some COMPLETED \/ states e !! k = Some SKIPPED) /\
  (NoDup (pending_tasks e) /\
   (forall k, k ∈ pending_tasks e -> results e !! k = None -> states e !! k = Some RUNNING) /\
   (forall k o, results e !! k = Some o -> states e !! k = Some (final_state o))) /\
  ((forall m x, active e !! m = Some x <-> x ∈ pending_tasks e /\ lock x = Some m) /\
   forall x y m, x ∈ pending_tasks e -> y ∈ pending_tasks e -> lock x = Some m -> lock y = Some m -> x = y) /\
  (forall x, x ∈ tracked e <-> x ∈ pending_tasks e /\ is_Some (truthy_model (target_model x))) /\
  (NoDup (execution_order e) /\ (forall k, k ∈ execution_order e <-> states e !! k = Some COMPLETED) /\
   forall l1 x l2 d, execution_order e = l1 ++ x :: l2 -> d ∈ deps x ->
     states e !! d = Some SKIPPED \/ d ∈ l1) /\
  match pc with
  | Cancelled | Raised _ => True
  | _ => (forall k, states e !! k = Some RUNNING <-> k ∈ pending_tasks e /\ results e !! k = None) /\
         forall k, states e !! k = Some FAILED -> k ∈ pending_tasks e /\ results e !! k = Some Failed
  end.
Proof.
  intros (Hi & _ & Hpc)%run_good. simpl in Hi, Hpc. split; [apply Hi|]. split; [|split; [|split; [|split; [|split; [|split]]]]].
  - intros k s d Hk H1 H2 Hd. pose proof (i_unblocked _ _ _ Hi k s Hk H1 H2 d Hd) as Hs.
    split; [by apply (i_outputs _ _ _ Hi) | by apply satisfied_spec].
  - intros k. by rewrite (i_outputs _ _ _ Hi), satisfied_spec.
  - by split; [apply Hi|]; split; [apply (i_running _ _ _ Hi) | apply (i_result _ _ _ Hi)].
  - split; [apply (i_lock _ _ _ Hi)|]. intros x y m Hx Hy H1 H2.
    assert (active e !! m = Some x) by by apply (i_lock _ _ _ Hi).
    assert (active e !! m = Some y) by by apply (i_lock _ _ _ Hi). congruence.
  - apply (i_tracked _ _ _ Hi).
  - split; [|split]; apply Hi.
  - assert (Hl : Live e -> (forall k, states e !! k = Some RUNNING <-> k ∈ pending_tasks e /\ results e !! k = None) /\
                          forall k, states e !! k = Some FAILED -> k ∈ pending_tasks e /\ results e !! k = Some Failed).
    { intros L. split; [|apply L]. intros k. split; [apply L|]. intros []. by apply (i_running _ _ _ Hi). }
    destruct pc; try done; apply Hl, Hpc.
Qed.

(** C9: The deadlock error is never raised: when no step is ready and no task
    is running, every step has ended. *)
Theorem no_deadlock l e : ~ run_state (Raised (PipelineDeadlock l), e).
Proof. intros (_ & _ & H & _)%run_good. by apply (H l). Qed.

(** A step only moves forward: from PENDING to READY, from there to
    RUNNING, and to COMPLETED or FAILED, or it is SKIPPED before it runs.  It
    starts only while no stop is set and its model is free, and is skipped
    only because of a stop or because its condition says so; the first stop
    stays. *)
Theorem step_lifecycle c c' :
  run_state c -> sstep c c' ->
  (forall k s, states c.2 !! k = Some s -> exists s', states c'.2 !! k = Some s' /\
     (s' = s \/
      next_state s s' = true /\
      (s' = RUNNING -> stop c.2 = None /\ can_launch_with_lock nodes target_model k c.2 = true) /\
      (s' = SKIPPED -> stop c.2 <> None \/
         should_execute_step nodes evaluate_condition is_rag_search k c.2 = Ok false))) /\
  (forall x, stop c.2 = Some x -> stop c'.2 = Some x).
Proof.
  intros Hr Hs. destruct (built_graph _ _ _ _ (proj1 Hr)) as (H1 & H2 & H3).
  destruct (step_evolves nodes evaluate_condition target_model consistent is_rag_search
              c c' (run_good c Hr) Hs) as (He & _ & Hst). by split.
Qed.

(** C16: Every run ends: there is no infinite sequence of moves of the
    scheduler and its tasks, and as long as the run has not ended one of them
    can move. *)
Theorem execution_terminates :
  build_expanded cond_names dependency_fields steps = Ok nodes ->
  Acc (flip sstep) (AtLoop, init nodes) /\
  forall c, reachable c -> ended c.1 = false -> exists c', sstep c c'.
Proof.
  intros Hb. destruct (built_graph _ _ _ _ Hb) as (H1 & H2 & H3). split.
  - apply (good_terminates nodes evaluate_condition target_model consistent is_rag_search H1 H2 H3
      (weight nodes (init nodes)) (rank nodes (AtLoop, init nodes))); [by apply init_good | reflexivity..].
  - intros c Hr He. eapply good_progress; [exact (run_good c (conj Hb Hr)) | exact He].
Qed.


End Guarantees.

(** ** Runs of the diamond *)

Inductive move : Type := Tick | Wake | Task (x : string) (o : Outcome) | Interrupt.

Section Play.
Context (nodes : Nodes) (evaluate_condition : string -> list string -> option bool).
Context (target_model : string -> option string) (consistent : string -> bool) (is_rag_search : bool).

Definition play (m : move) (c : PC * Executor) : option (PC * Executor) :=
  let (pc, e) := c in
  match m with
  | Tick => match pc with
            | Waiting | Done | Cancelled | Raised _ => None
            | _ => Some (tick nodes evaluate_condition target_model consistent is_rag_search pc e)
            end
  | Wake => match pc, done_tasks e with Waiting, _ :: _ => Some (Handling (done_tasks e), e) | _, _ => None end
  | Task x o =>
      if tasks_run pc && bool_decide (x ∈ pending_tasks e) && bool_decide (x ∉ cancelled e)
         && bool_decide (results e !! x = None)
      then Some (pc, finish_step nodes x o e) else None
  | Interrupt => if suspended pc then Some (Cancelled, cancel target_model e) else None
  end.

Definition play_all (ms : list move) : option (PC * Executor) :=
  fold_left (fun c m => c ≫= play m) ms (Some (AtLoop, init nodes)).

Lemma play_sound m c c' : play m c = Some c' ->
  sstep nodes evaluate_condition target_model consistent is_rag_search c c'.
Proof.
  destruct c as [pc e], m as [| |x o|]; simpl.
  - intros H. destruct pc; try done; injection H as <-; by apply S_tick.
  - intros H. destruct pc; try done. destruct (done_tasks e) eqn:E; [done|]. injection H as <-.
    rewrite <- E. apply S_wake; [done|]. by rewrite E.
  - destruct (_ && _) eqn:E; [|done]. intros [= <-].
    apply andb_true_iff in E as [[[E1 E2]%andb_true_iff E3]%andb_true_iff E4].
    apply bool_decide_eq_true in E2, E3, E4. by apply S_task.
  - destruct (suspended pc) eqn:E; [|done]. intros [= <-]. by apply S_cancel.
Qed.

(** Where the moves lead; the initial state if they cannot be made. *)
Definition after (ms : list move) : PC * Executor := get_or (AtLoop, init nodes) (play_all ms).

Lemma played_reachable ms : reachable nodes evaluate_condition target_model consistent is_rag_search (after ms).
Proof.
  unfold after, play_all. enough (H : forall ms c, match c with Some c => reachable nodes evaluate_condition target_model consistent is_rag_search c | None => True end ->
    match fold_left (fun c m => c ≫= play m) ms c with
    | Some c => reachable nodes evaluate_condition target_model consistent is_rag_search c | None => True end).
  { specialize (H ms (Some (AtLoop, init nodes)) (rtc_refl _ _)). destruct (fold_left _ _ _); [done|]. apply rtc_refl. }
  clear ms. induction ms as [|m ms IH]; intros c Hc; [done|]. simpl. apply IH. destruct c as [c|]; [|done]. simpl.
  destruct (play m c) as [c'|] eqn:E; [|done]. eapply rtc_r; [exact Hc | by eapply play_sound].
Qed.

End Play.

Definition diamond_nodes : Nodes := nodes_of diamond.

Lemma diamond_nodes_ok : build_expanded no_names no_fields diamond = Ok diamond_nodes.
Proof. vm_compute. reflexivity. Qed.

Definition always : string -> list string -> option bool := fun _ _ => Some true.
Definition one_model : string -> option string := fun _ => Some "llama"%string.
Definition by_step : string -> option string := fun x => Some x.
Definition no_drift : string -> bool := fun _ => true.

(** [a] runs, then [b]; [c] waits for the model they share. *)
Definition shared_run : PC * Executor :=
  after diamond_nodes always one_model no_drift false
    [Tick; Tick; Tick; Tick; Tick; Task "a" (Succeeded false); Wake; Tick;
     Tick; Tick; Tick; Tick; Tick; Tick; Tick].

(** [b] and [c] run side by side and [b] fails. *)
Definition failing_run : PC * Executor :=
  after diamond_nodes always by_step no_drift false
    [Tick; Tick; Tick; Tick; Tick; Task "a" (Succeeded false); Wake; Tick;
     Tick; Tick; Tick; Tick; Tick; Tick; Tick; Task "b" Failed; Wake; Tick].

(** A run to the end, in which [b] stops the pipeline: [d] is skipped. *)
Definition stopped_run : PC * Executor :=
  after diamond_nodes always by_step no_drift false
    [Tick; Tick; Tick; Tick; Tick; Task "a" (Succeeded false); Wake; Tick;
     Tick; Tick; Tick; Tick; Tick; Tick; Tick; Task "b" (Succeeded true); Task "c" (Succeeded false);
     Wake; Tick; Tick; Tick; Tick].

Definition cancelled_run : PC * Executor :=
  after diamond_nodes always by_step no_drift false [Tick; Tick; Tick; Tick; Tick; Interrupt].

(** [c] runs while the condition of [b] turns out not to be a condition: the
    run raises and [c] is neither cancelled nor released. *)
Definition bad_condition : list StepConfig :=
  [plain_step "a" []; plain_step "c" [];
   mkStep "b" "generate" [] ["a"%string] None (Some "?"%string) None [] None].
Definition abandoned_run : PC * Executor :=
  after (nodes_of bad_condition) (fun _ _ => None) by_step no_drift true
    [Tick; Tick; Tick; Tick; Tick; Tick; Tick; Task "a" (Succeeded false); Wake; Tick; Tick; Tick].

Lemma execution_safe_witness :
  pending_tasks shared_run.2 = ["b"%string] /\ states shared_run.2 !! "c"%string = Some READY /\
  states shared_run.2 !! "a"%string = Some COMPLETED.
Proof.
  assert (Hr : reachable diamond_nodes always one_model no_drift false (shared_run.1, shared_run.2)).
  { rewrite <- surjective_pairing. apply played_reachable. }
  split; [vm_compute; reflexivity|]. split; [vm_compute; reflexivity|].
  destruct (execution_safe no_names no_fields diamond diamond_nodes always one_model no_drift false
              _ _ (conj diamond_nodes_ok Hr)) as (_ & Hd & _).
  assert (Hb : states shared_run.2 !! "b"%string = Some RUNNING) by (vm_compute; reflexivity).
  assert (Hin : "a"%string ∈ deps diamond_nodes "b"%string)
    by (apply (bool_decide_unpack ("a"%string ∈ deps diamond_nodes "b"%string)); vm_compute; exact I).
  destruct (Hd "b"%string RUNNING "a"%string Hb ltac:(discriminate) ltac:(discriminate) Hin) as [_ [H|H]];
    [exact H | vm_compute in H; discriminate H].
Defined.

Lemma no_deadlock_witness :
  ~ run_state no_names no_fields diamond diamond_nodes always by_step no_drift false
      (Raised (PipelineDeadlock ["d"%string]), failing_run.2) /\
  failing_run.1 = Raised (StepFailed "b"%string).
Proof.
  split; [|vm_compute; reflexivity].
  apply (no_deadlock no_names no_fields diamond diamond_nodes always by_step no_drift false).
Defined.

Lemma step_lifecycle_witness :
  exists s', states (tick diamond_nodes always one_model no_drift false AtLoop (init diamond_nodes)).2 !! "a"%string = Some s' /\
    s' = READY.
Proof.
  destruct (step_lifecycle no_names no_fields diamond diamond_nodes always one_model no_drift false
              (AtLoop, init diamond_nodes)
              (tick diamond_nodes always one_model no_drift false AtLoop (init diamond_nodes))) as [H _].
  - exact (conj diamond_nodes_ok (rtc_refl _ _)).
  - apply S_tick. exact I.
  - destruct (H "a"%string READY ltac:(vm_compute; reflexivity)) as (s' & Hs & _).
    exists s'. split; [exact Hs|]. vm_compute in Hs. injection Hs as <-. reflexivity.
Defined.

Lemma execution_terminates_witness :
  exists c', sstep diamond_nodes always one_model no_drift false shared_run c'.
Proof.
  apply (execution_terminates no_names no_fields diamond diamond_nodes always one_model no_drift false diamond_nodes_ok).
  - apply played_reachable.
  - vm_compute. reflexivity.
Defined.


Example stopped_run_end :
  stopped_run.1 = Done /\ states stopped_run.2 !! "d"%string = Some SKIPPED /\
  execution_order stopped_run.2 = ["a"; "b"; "c"]%string.
Proof. vm_compute. repeat split. Qed.

Example cancelled_run_end : cancelled_run.1 = Cancelled /\ cancelled cancelled_run.2 = ["a"%string].
Proof. vm_compute. repeat split. Qed.

(** A run that raises for another reason than a failed step abandons its
    tasks: they run on, registered with the gateway tracker. *)
Lemma abandoned_task :
  abandoned_run.1 = Raised (StepDefinitionError "b"%string) /\ pending_tasks abandoned_run.2 = ["c"%string] /\
  cancelled abandoned_run.2 = [] /\ elements (tracked abandoned_run.2) = ["c"%string].
Proof. vm_compute. repeat split. Qed.
