(* ===== verification/StepExecution.v ===== *)
(** * Running one step ([pipeline/core/execution/retry.py], [timeout.py],
    [step_wrapper.py], [fallback_eligibility.py],
    [dag_executor/step_model_fallback.py], [dag_executor/executor/step_runner.py])

    Retry with backoff, handler and step timeouts, checkpoints and the
    fallback to other models.  A computation is run against a clock: it takes
    the number of handler calls made so far and returns when, and with which
    model override, it called the handler again, how long it took, and its
    result.  Log lines, events and recorder entries are left out. *)
From Stdlib Require Import ZArith QArith Qminmax Lia Lqa.
From stdpp Require Import base list strings.
From S2P Require Import Prelude PyFloat PyString.
Local Open Scope Q_scope.

(** ** Exceptions *)

(** An exception, as [isinstance] and the retry filters see it: the names of
    [type(e).__mro__], its own class first. *)
Record Exc := mkExc { exc_mro : list string }.

Definition is_instance (cls : string) (e : Exc) : bool := bool_decide (cls ∈ exc_mro e).
Definition type_name (e : Exc) : string := get_or ""%string (head (exc_mro e)).

Definition exception_tail : list string := ["Exception"; "BaseException"; "object"]%string.
Definition pipeline_error (cls : string) : Exc :=
  mkExc ([cls; "PipelineError"; "RuntimeError"; "Exception"; "BaseException"; "ABC"; "object"]%string).
Definition StepTimeoutError : Exc := pipeline_error "StepTimeoutError".
Definition HandlerTimeoutError : Exc := pipeline_error "HandlerTimeoutError".
Definition TimeoutError : Exc := mkExc ("TimeoutError" :: "OSError" :: exception_tail)%string.
Definition ValueError : Exc := mkExc ("ValueError" :: exception_tail)%string.
Definition OverflowError : Exc := mkExc ("OverflowError" :: "ArithmeticError" :: exception_tail)%string.

Inductive Res (A : Type) : Type := Val (a : A) | Exn (e : Exc).
Arguments Val {A} a.
Arguments Exn {A} e.

(** ** Computations against the clock *)

Record Run (A : Type) := mkRun {
  started : list (Q * option string);
  elapsed : Q;
  result : Res A
}.
Arguments mkRun {A}.
Arguments started {A}.
Arguments elapsed {A}.
Arguments result {A}.

(** The argument counts the handler calls made before. *)
Definition M (A : Type) : Type := nat -> Run A.

Definition ret {A} (r : Res A) : M A := fun _ => mkRun [] 0 r.

(** [k] goes on from the result of [m], whatever it is. *)
Definition andthen {A B} (m : M A) (k : Res A -> M B) : M B := fun n =>
  let r := m n in
  let r' := k (result r) (n + length (started r))%nat in
  mkRun (started r ++ map (fun c => (elapsed r + fst c, snd c)) (started r'))
        (elapsed r + elapsed r') (result r').

Definition on_result {A B} (f : Res A -> Res B) (m : M A) : M B := fun n =>
  let r := m n in mkRun (started r) (elapsed r) (f (result r)).

Definition sleep (d : Q) : M unit := fun _ => mkRun [] (Qmax 0 d) (Val tt).

(** [asyncio.wait_for]: a result at the deadline still counts; calls that
    would have started later do not start. *)
Definition wait_for {A} (timeout : Q) (m : M A) : M A := fun n =>
  let r := m n in
  if Qle_bool (elapsed r) timeout then r
  else mkRun (List.filter (fun c => flt (fst c) timeout) (started r)) (Qmax 0 timeout) (Exn TimeoutError).

(** ** [RetryPolicy] *)

Record RetryPolicy := mkPolicy {
  max_attempts : Z;
  backoff_strategy : string;
  initial_interval_seconds : Q;
  max_interval_seconds : Q;
  multiplier : Q;
  jitter : bool;
  retry_on : list string;
  dont_retry_on : list string
}.

(** [__post_init__] *)
Definition valid_policy (p : RetryPolicy) : bool :=
  negb (max_attempts p <? 1)%Z && negb (fle (initial_interval_seconds p) 0)
  && negb (flt (max_interval_seconds p) (initial_interval_seconds p)).

Definition should_retry (p : RetryPolicy) (e : Exc) : bool :=
  if existsb (fun c => is_instance c e) (dont_retry_on p) then false
  else existsb (fun c => is_instance c e) (retry_on p).

Section Execution.

(** A step's output, whether it carries a stop or a stream, [**] on floats
    ([None]: [OverflowError]), and what [random.uniform(0.75, 1.25)] draws
    after the n-th call. *)
Context {StepOutput : Type} (has_stop has_stream : StepOutput -> bool).
Context (pow : Q -> Z -> option Q).
Context (uniform : nat -> Q).

Definition calculate_delay (p : RetryPolicy) (attempt : Z) (u : Q) : option Q :=
  let raw :=
    if bool_decide (backoff_strategy p = "fixed"%string) then Some (initial_interval_seconds p)
    else if bool_decide (backoff_strategy p = "linear"%string)
    then Some (fmul (initial_interval_seconds p) (of_int attempt))
    else if bool_decide (backoff_strategy p = "exponential"%string)
    then match pow (multiplier p) (attempt - 1) with
         | Some m => Some (fmul (initial_interval_seconds p) m)
         | None => None
         end
    else Some (initial_interval_seconds p) in
  match raw with
  | None => None
  | Some delay =>
      let delay := fmin delay (max_interval_seconds p) in
      Some (if jitter p then fmul delay u else delay)
  end.

(** [execute_with_retry] from attempt number [attempt], with [left] more
    allowed; the loop never runs out of attempts without raising. *)
Fixpoint retry_loop {A} (fn : M A) (p : RetryPolicy) (attempt : Z) (left : nat) : M A :=
  match left with
  | O => fn
  | S left' =>
      andthen fn (fun r n =>
        match r with
        | Val a => ret (Val a) n
        | Exn e =>
            if negb (should_retry p e) then ret (Exn e) n
            else if (max_attempts p <=? attempt)%Z then ret (Exn e) n
            else match calculate_delay p attempt (uniform n) with
                 | None => ret (Exn OverflowError) n
                 | Some d => andthen (sleep d) (fun _ => retry_loop fn p (attempt + 1) left') n
                 end
        end)
  end.

Definition execute_with_retry {A} (fn : M A) (p : RetryPolicy) : M A :=
  retry_loop fn p 1 (Z.to_nat (max_attempts p) - 1).

(** ** Timeouts *)

(** [except TimeoutError: raise e'], whoever raised it. *)
Definition map_timeout {A} (e' : Exc) (m : M A) : M A :=
  on_result (fun r => match r with
                      | Exn e => if is_instance "TimeoutError" e then Exn e' else Exn e
                      | Val a => Val a
                      end) m.

Definition execute_with_step_timeout {A} (fn : M A) (timeout_seconds : Q) : M A :=
  map_timeout StepTimeoutError (wait_for timeout_seconds fn).
Definition execute_with_handler_timeout {A} (fn : M A) (timeout_seconds : Q) : M A :=
  map_timeout HandlerTimeoutError (wait_for timeout_seconds fn).

(** ** [execute_step_with_wrappers] *)

Record StepOptions := mkOptions {
  timeout_seconds : option Q;
  handler_timeout_seconds : option Q;
  retry_policy : option RetryPolicy;
  checkpoint : option bool;           (* ["milestone"] counts as [True] *)
  model_ref : option string;
  has_model_requirements : bool;      (* a non-empty dict *)
  requires_cloud : bool               (* [model_requirements["source"] == "cloud"] *)
}.

Definition truthy_num (q : option Q) : option Q :=
  match q with Some q => if Qeq_bool q 0 then None else Some q | None => None end.

Definition with_handler_timeout (o : StepOptions) (handler_fn : M StepOutput) : M StepOutput :=
  match truthy_num (handler_timeout_seconds o) with
  | Some t => execute_with_handler_timeout handler_fn t
  | None => handler_fn
  end.

Definition with_retry (o : StepOptions) (handler_fn : M StepOutput) : M StepOutput :=
  match retry_policy o with
  | Some p => if valid_policy p then execute_with_retry (with_handler_timeout o handler_fn) p
              else ret (Exn ValueError)
  | None => with_handler_timeout o handler_fn
  end.

Definition with_step_timeout (o : StepOptions) (handler_fn : M StepOutput) : M StepOutput :=
  match truthy_num (timeout_seconds o) with
  | Some t => execute_with_step_timeout (with_retry o handler_fn) t
  | None => with_retry o handler_fn
  end.

(** The checkpoint manager of the run: whether it selects this step, and the
    output it has stored for it. *)
Record Checkpoints := mkCheckpoints { should_checkpoint_step : bool; stored : option StepOutput }.

Definition should_checkpoint (o : StepOptions) (c : Checkpoints) : bool :=
  match checkpoint o with Some b => b | None => should_checkpoint_step c end.

(** The result and what is saved; a failing save is not an error. *)
Definition execute_step_with_wrappers (o : StepOptions) (manager : option Checkpoints)
    (handler_fn : M StepOutput) : M (StepOutput * option StepOutput) :=
  match manager with
  | Some {| stored := Some cached |} => ret (Val (cached, None))
  | _ =>
      on_result (fun r => match r with
        | Exn e => Exn e
        | Val out =>
            Val (out, match manager with
                      | Some c => if should_checkpoint o c && negb (has_stop out) && negb (has_stream out)
                                  then Some out else None
                      | None => None
                      end)
        end) (with_step_timeout o handler_fn)
  end.

(** ** Fallback to other models *)

(** [classify_fallback_error] without a suppression reason. *)
Definition should_fallback (e : Exc) : bool :=
  is_instance "ProxyClientError" e
  || is_instance "TimeoutError" e || is_instance "TimeoutException" e || is_instance "TransportError" e.

(** The loop of [try_step_model_fallback]; [run_step_fn] runs the wrapper
    chain with the step's model overridden, and the override is removed after
    each attempt. *)
Fixpoint fallback_loop {A} (run_step_fn : string -> M A) (fallback_ids : list string) (last_error : Exc) : M A :=
  match fallback_ids with
  | [] => ret (Exn last_error)
  | fallback_id :: ids' =>
      andthen (run_step_fn fallback_id) (fun r n =>
        match r with
        | Val a => ret (Val a) n
        | Exn e => if negb (should_fallback e) then ret (Exn e) n else fallback_loop run_step_fn ids' e n
        end)
  end.

(** [primary]: the resolved primary model and whether it is local. *)
Definition try_step_model_fallback {A} (o : StepOptions) (primary_err : Exc) (primary : option (string * bool))
    (ranked : list string) (run_step_fn : string -> M A) : M A :=
  match primary with
  | None => ret (Exn primary_err)
  | Some (primary_model, is_local) =>
      if bool_decide (primary_model = ""%string) then ret (Exn primary_err)
      else if negb (has_model_requirements o) then ret (Exn primary_err)
      else if requires_cloud o && is_local then ret (Exn primary_err)
      else fallback_loop run_step_fn
             (List.filter (fun m => negb (bool_decide (m = primary_model))) ranked) primary_err
  end.

(** [run_step] of a step that is no map step. *)
Definition run_step (o : StepOptions) (manager : option Checkpoints) (primary : option (string * bool))
    (ranked : list string) (handler_fn : option string -> M StepOutput) : M (StepOutput * option StepOutput) :=
  let run_step_inner (override : option string) := execute_step_with_wrappers o manager (handler_fn override) in
  andthen (run_step_inner None) (fun r =>
    match r with
    | Val a => ret (Val a)
    | Exn e =>
        match model_ref o with
        | Some m =>
            if bool_decide (m = ""%string) || negb (has_model_requirements o) then ret (Exn e)
            else if negb (should_fallback e) then ret (Exn e)
            else try_step_model_fallback o e primary ranked (fun id => run_step_inner (Some id))
        | None => ret (Exn e)
        end
    end).


(** ** Retry *)

Section Retry.
Context {A : Type} (fn : M A) (p : RetryPolicy).
Context (Hone : forall n, length (started (fn n)) = 1%nat).

(** [r] comes from the [k]-th call after [n]. *)
Definition retry_outcome (attempt : Z) (n k : nat) (r : Res A) : Prop :=
  (forall j, (S j < k)%nat -> exists e, result (fn (n + j)%nat) = Exn e /\ should_retry p e = true) /\
  let last := result (fn (n + (k - 1))%nat) in
  let number := (attempt + Z.of_nat k - 1)%Z in
  (r = last /\ forall e, last = Exn e -> should_retry p e = false \/ number = max_attempts p) \/
  (r = Exn OverflowError /\ (exists e, last = Exn e /\ should_retry p e = true) /\
   calculate_delay p number (uniform (n + k)%nat) = None).

Lemma retry_loop_spec left : forall attempt n,
  (attempt + Z.of_nat left)%Z = max_attempts p ->
  let r := retry_loop fn p attempt left n in
  exists k, (1 <= k <= S left)%nat /\ length (started r) = k /\ retry_outcome attempt n k (result r).
Proof using Hone.
  induction left as [|left IH]; intros attempt n Hmax; simpl.
  - exists 1%nat. split; [lia|]. split; [apply Hone|]. split; [lia|]. left. rewrite Nat.add_0_r. split; [done|].
    intros e _. right. lia.
  - rewrite Hone. destruct (result (fn n)) as [a|e] eqn:Er; simpl.
    { exists 1%nat. rewrite app_nil_r, Hone. split; [lia|]. split; [done|]. split; [lia|]. left.
      by rewrite Nat.add_0_r, Er. }
    destruct (should_retry p e) eqn:Es; simpl.
    2: { exists 1%nat. rewrite app_nil_r, Hone. split; [lia|]. split; [done|]. split; [lia|]. left.
         rewrite Nat.add_0_r, Er. split; [done|]. intros e' [= <-]. by left. }
    rewrite (proj2 (Z.leb_gt _ _)) by lia.
    destruct (calculate_delay p attempt (uniform (n + 1))) as [d|] eqn:Ed; simpl.
    2: { exists 1%nat. rewrite app_nil_r, Hone. split; [lia|]. split; [done|]. split; [lia|]. right.
         rewrite Nat.add_0_r, Er. split; [done|]. split; [eauto|].
         by replace (attempt + Z.of_nat 1 - 1)%Z with attempt by lia. }
    destruct (IH (attempt + 1)%Z (n + 1 + 0)%nat ltac:(lia)) as (k & Hk & Hlen & Hj & Ho). simpl in *.
    exists (S k). split; [lia|]. rewrite length_app, !length_map, Hone. split; [lia|].
    replace (n + 1 + 0)%nat with (S n) in * by lia. split.
    + intros [|j] Hjk; [rewrite Nat.add_0_r; eauto|]. rewrite Nat.add_succ_r. apply (Hj j). lia.
    + replace (n + (S k - 1))%nat with (S n + (k - 1))%nat by lia.
      replace (attempt + Z.of_nat (S k) - 1)%Z with (attempt + 1 + Z.of_nat k - 1)%Z by lia.
      by replace (n + S k)%nat with (S n + k)%nat by lia.
Qed.

End Retry.

(** [execute_with_retry] calls the function at least once and at most
    [max_attempts] times, one call after the other: every call but the last
    failed with a retryable exception, and the last result is returned, which
    is a success, a failure that is not retryable, or the failure of attempt
    number [max_attempts].  The one exception is a delay that overflows. *)
Theorem retry_exact {A} (fn : M A) p n :
  valid_policy p = true -> (forall n, length (started (fn n)) = 1%nat) ->
  let r := execute_with_retry fn p n in
  exists k, (1 <= Z.of_nat k <= max_attempts p)%Z /\ length (started r) = k /\
    retry_outcome fn p 1 n k (result r).
Proof.
  unfold valid_policy. rewrite !andb_true_iff, !negb_true_iff. intros [[H1%Z.ltb_ge _] _] Hone.
  destruct (retry_loop_spec fn p Hone (Z.to_nat (max_attempts p) - 1) 1 n ltac:(lia)) as (k & Hk & H).
  exists k. split; [lia | exact H].
Qed.

(** *** Delays *)

Lemma fmul_mono_r a b c : 0 <= a -> b <= c -> fmul a b <= fmul a c.
Proof. intros Ha Hbc. apply rnd_mono. rewrite !(Qmult_comm a). by apply Qmult_le_compat_r. Qed.

Lemma fmul_mono_l a b c : 0 <= c -> a <= b -> fmul a c <= fmul b c.
Proof. intros Hc Hab. apply rnd_mono. by apply Qmult_le_compat_r. Qed.

Definition max_delay (p : RetryPolicy) : Q :=
  if jitter p then fmul (max_interval_seconds p) (5 # 4) else max_interval_seconds p.

Lemma valid_policy_spec p : valid_policy p = true ->
  (1 <= max_attempts p)%Z /\ 0 < initial_interval_seconds p /\
  initial_interval_seconds p <= max_interval_seconds p.
Proof.
  unfold valid_policy. rewrite !andb_true_iff, !negb_true_iff. intros [[H1%Z.ltb_ge H2%fle_false] H3%flt_false].
  auto.
Qed.

Lemma delay_upper p attempt u d : valid_policy p = true -> 3 # 4 <= u -> u <= 5 # 4 ->
  calculate_delay p attempt u = Some d -> d <= max_delay p.
Proof.
  intros (H1 & H2 & H3)%valid_policy_spec Hl Hu. unfold calculate_delay, max_delay.
  set (raw := if bool_decide _ then _ else _). destruct raw as [x|]; [|done].
  pose proof (fmin_r x (max_interval_seconds p)) as Hm. destruct (jitter p); intros [= <-].
  - eapply Qle_trans; [apply fmul_mono_l; [lra | exact Hm]|]. apply fmul_mono_r; lra.
  - exact Hm.
Qed.

(** *** Time *)

Lemma wait_for_elapsed {A} t (m : M A) n : 0 < t -> elapsed (wait_for t m n) <= t.
Proof.
  intros Ht. unfold wait_for. destruct (Qle_bool (elapsed (m n)) t) eqn:E; [by apply Qle_bool_iff|]. simpl.
  apply Q.max_lub; lra.
Qed.

Lemma retry_loop_elapsed {A} (fn : M A) p (T D : Q) :
  (forall n, elapsed (fn n) <= T) -> 0 <= D ->
  (forall attempt n d, calculate_delay p attempt (uniform n) = Some d -> d <= D) ->
  0 <= T -> forall left attempt n,
  elapsed (retry_loop fn p attempt left n) <= inject_Z (Z.of_nat left) * (T + D) + T.
Proof.
  intros Hfn HD Hd HT. induction left as [|left IH]; intros attempt n; cbn [retry_loop].
  { pose proof (Hfn n). change (inject_Z (Z.of_nat 0)) with 0. lra. }
  rewrite Nat2Z.inj_succ, <- Z.add_1_r. simpl.
  pose proof (Hfn n) as Hn. pose proof (IH (attempt + 1)%Z) as IH'.
  assert (Hleft : 0 <= inject_Z (Z.of_nat left) * (T + D)).
  { apply Qmult_le_0_compat; [apply inject_nonneg; lia | lra]. }
  rewrite inject_Z_plus. change (inject_Z 1) with 1.
  destruct (result (fn n)) as [a|e]; simpl; [lra|].
  destruct (negb (should_retry p e)); simpl; [lra|].
  destruct (max_attempts p <=? attempt)%Z; simpl; [lra|].
  destruct (calculate_delay p attempt _) as [d|] eqn:Ed; simpl; [|lra].
  specialize (Hd _ _ _ Ed). specialize (IH' (n + length (started (fn n)) + 0)%nat).
  assert (Qmax 0 d <= D) by (by apply Q.max_lub). lra.
Qed.

Lemma execute_elapsed o manager handler_fn n t : 0 <= t ->
  elapsed (with_step_timeout o handler_fn n) <= t ->
  elapsed (execute_step_with_wrappers o manager handler_fn n) <= t.
Proof. intros Ht H. unfold execute_step_with_wrappers. destruct manager as [[sc [c|]]|]; simpl; done. Qed.

(** The time a step takes.  A step timeout bounds the run of the whole
    chain, retries and delays included.  Without one, a handler timeout and a
    retry policy bound it: each attempt takes at most the handler timeout,
    and each delay is at most the policy's maximal interval, or 5/4 of it
    with jitter. *)
Theorem step_time_bounded o manager handler_fn n :
  (forall m, 3 # 4 <= uniform m /\ uniform m <= 5 # 4) ->
  (forall t, truthy_num (timeout_seconds o) = Some t -> 0 < t ->
     elapsed (execute_step_with_wrappers o manager handler_fn n) <= t) /\
  (forall ht p, truthy_num (timeout_seconds o) = None -> truthy_num (handler_timeout_seconds o) = Some ht -> 0 < ht ->
     retry_policy o = Some p -> valid_policy p = true ->
     elapsed (execute_step_with_wrappers o manager handler_fn n)
       <= inject_Z (max_attempts p - 1) * (ht + max_delay p) + ht).
Proof.
  intros Hu. split.
  - intros t Et Ht. apply execute_elapsed; [lra|]. unfold with_step_timeout. rewrite Et. simpl.
    by apply wait_for_elapsed.
  - intros ht p Et Eh Hht Ep Hv. destruct (valid_policy_spec p Hv) as (H1 & H2 & H3).
    assert (HD : 0 <= max_delay p).
    { unfold max_delay. destruct (jitter p); [|lra]. apply rnd_nonneg, Qmult_le_0_compat; lra. }
    pose proof (retry_loop_elapsed (with_handler_timeout o handler_fn) p ht (max_delay p)) as Hr.
    rewrite <- (Z2Nat.id (max_attempts p - 1)) by lia. rewrite Z2Nat.inj_sub by lia.
    apply execute_elapsed.
    { assert (0 <= inject_Z (Z.of_nat (Z.to_nat (max_attempts p) - Z.to_nat 1)) * (ht + max_delay p)).
      { apply Qmult_le_0_compat; [apply inject_nonneg; lia | lra]. }
      lra. }
    unfold with_step_timeout, with_retry. rewrite Et, Ep, Hv. apply Hr; [|lra| |lra].
    + intros m. unfold with_handler_timeout. rewrite Eh. simpl. by apply wait_for_elapsed.
    + intros attempt m d Hd. destruct (Hu m). by apply (delay_upper p attempt (uniform m)).
Qed.

(** ** Fallback *)

Definition calls {A} (r : Run A) : list (option string) := map snd (started r).

Lemma calls_andthen {A B} (m : M A) (k : Res A -> M B) n :
  calls (andthen m k n) = calls (m n) ++ calls (k (result (m n)) (n + length (started (m n)))%nat).
Proof. unfold calls. simpl. rewrite map_app, map_map. done. Qed.

(** All the calls of a run are made for the model [o]. *)
Definition calls_for {A} (o : option string) (m : M A) : Prop := forall n, Forall (eq o) (calls (m n)).

Lemma calls_for_ret {A} o (r : Res A) : calls_for o (ret r).
Proof. constructor. Qed.

Lemma calls_for_andthen {A B} o (m : M A) (k : Res A -> M B) :
  calls_for o m -> (forall r, calls_for o (k r)) -> calls_for o (andthen m k).
Proof. intros Hm Hk n. rewrite calls_andthen. apply Forall_app. split; [apply Hm | apply Hk]. Qed.

Lemma calls_for_wait {A} o t (m : M A) : calls_for o m -> calls_for o (wait_for t m).
Proof.
  intros Hm n. unfold wait_for. destruct (Qle_bool _ _); [apply Hm|]. unfold calls. simpl.
  specialize (Hm n). unfold calls in Hm. rewrite Forall_map in *. rewrite Forall_forall in *.
  intros c [Hc _]%elem_of_lfilter. by apply Hm.
Qed.

Lemma calls_for_retry {A} o (fn : M A) p left : calls_for o fn -> forall attempt, calls_for o (retry_loop fn p attempt left).
Proof.
  intros Hfn. induction left as [|left IH]; intros attempt; simpl; [done|].
  apply calls_for_andthen; [done|]. intros [a|e] n; [constructor|].
  destruct (negb _); [constructor|]. destruct (_ <=? _)%Z; [constructor|].
  destruct (calculate_delay _ _ _); [|constructor]. apply calls_for_andthen; [constructor|]. intros r. apply IH.
Qed.

Lemma calls_for_execute o opts manager handler_fn :
  calls_for o handler_fn -> calls_for o (execute_step_with_wrappers opts manager handler_fn).
Proof.
  intros Hh. assert (Hht : calls_for o (with_handler_timeout opts handler_fn)).
  { unfold with_handler_timeout. destruct (truthy_num _); [|done]. intros n. by apply calls_for_wait. }
  assert (Hr : calls_for o (with_retry opts handler_fn)).
  { unfold with_retry. destruct (retry_policy opts); [|done]. destruct (valid_policy _); [|constructor].
    by apply calls_for_retry. }
  assert (Hs : calls_for o (with_step_timeout opts handler_fn)).
  { unfold with_step_timeout. destruct (truthy_num _); [|done]. intros n. by apply calls_for_wait. }
  unfold execute_step_with_wrappers. destruct manager as [[sc [c|]]|]; [constructor | |]; intros n; apply Hs.
Qed.

(** The calls come in blocks, one per model tried. *)
Definition blocks (tried : list string) (cs : list (option string)) : Prop :=
  exists ls, cs = List.concat ls /\ Forall2 (fun id l => Forall (eq (Some id)) l) tried ls.

(** How a loop over [ids] ended after trying [tried]. *)
Definition fallback_end {A} (ids tried : list string) (r : Res A) : Prop :=
  tried `prefix_of` ids /\ (forall e, r = Exn e -> should_fallback e = true -> tried = ids).

Lemma fallback_loop_spec {A} (run : string -> M A) ids : (forall id, calls_for (Some id) (run id)) ->
  forall last n, let r := fallback_loop run ids last n in
  exists tried, blocks tried (calls r) /\ fallback_end ids tried (result r).
Proof.
  intros Hrun. induction ids as [|id ids IH]; intros last n; cbn [fallback_loop].
  { exists []. split; [by exists []|]. by split. }
  rewrite calls_andthen. simpl. destruct (result (run id n)) as [a|e] eqn:Er; simpl.
  - exists [id]. rewrite app_nil_r. split; [exists [calls (run id n)]; simpl; rewrite app_nil_r; split; [done|]; repeat constructor; apply Hrun|].
    split; [by exists ids | done].
  - destruct (should_fallback e) eqn:Ee; simpl.
    + destruct (IH e (n + length (started (run id n)))%nat) as (tried & (ls & Hc & Hls) & Hp & Hx).
      exists (id :: tried). split.
      * exists (calls (run id n) :: ls). simpl. rewrite Hc. split; [done|]. constructor; [apply Hrun | done].
      * split; [by apply prefix_cons|]. intros e' H1 H2. by rewrite (Hx e' H1 H2).
    + exists [id]. rewrite app_nil_r. split; [exists [calls (run id n)]; simpl; rewrite app_nil_r; split; [done|]; repeat constructor; apply Hrun|].
      split; [by exists ids|]. intros e' [= <-]. congruence.
Qed.

(** When a failure of the primary model may be recovered at all. *)
Definition fallback_enabled (o : StepOptions) (primary : option (string * bool)) : bool :=
  match model_ref o with Some m => negb (bool_decide (m = ""%string)) | None => false end
  && has_model_requirements o
  && match primary with
     | Some (pm, is_local) => negb (bool_decide (pm = ""%string)) && negb (requires_cloud o && is_local)
     | None => false
     end.

Definition candidates (primary : option (string * bool)) (ranked : list string) : list string :=
  match primary with
  | Some (pm, _) => List.filter (fun m => negb (bool_decide (m = pm))) ranked
  | None => []
  end.

Lemma blocks_nil : blocks [] [].
Proof. by exists []. Qed.

Lemma try_fallback_spec {A} o e primary ranked (run : string -> M A) n :
  (forall id, calls_for (Some id) (run id)) ->
  match model_ref o with Some m => negb (bool_decide (m = ""%string)) | None => false end = true ->
  has_model_requirements o = true ->
  let r := try_step_model_fallback o e primary ranked run n in
  if fallback_enabled o primary
  then exists tried, blocks tried (calls r) /\ fallback_end (candidates primary ranked) tried (result r)
  else result r = Exn e /\ calls r = [].
Proof.
  intros Hrun Hm Hr. unfold try_step_model_fallback, fallback_enabled. rewrite Hm, Hr. simpl.
  destruct primary as [[pm loc]|]; [|done]. simpl. destruct (bool_decide (pm = ""%string)); [done|]. simpl.
  destruct (requires_cloud o && loc); [done|]. simpl. by apply fallback_loop_spec.
Qed.

(** Model fallback.  A step first runs with its own model.  Only if that
    fails with an error another model could recover from, and the step allows
    it, other models are tried: in ranking order, never the primary one,
    each in its own block of handler calls, until one succeeds or fails with
    an error that no other model could recover from; an error that one could
    recover from is returned only when all were tried.  In every other case
    the first result stands and no further call is made. *)
Theorem fallback_order o manager primary ranked handler_fn n :
  (forall ov, calls_for ov (handler_fn ov)) ->
  let first := execute_step_with_wrappers o manager (handler_fn None) n in
  let r := run_step o manager primary ranked handler_fn n in
  exists tried cs, calls r = calls first ++ cs /\ blocks tried cs /\ Forall (eq None) (calls first) /\
    tried `prefix_of` candidates primary ranked /\
    match result first with
    | Val a => result r = Val a /\ cs = []
    | Exn e =>
        if should_fallback e && fallback_enabled o primary
        then forall e', result r = Exn e' -> should_fallback e' = true -> tried = candidates primary ranked
        else result r = Exn e /\ cs = []
    end.
Proof.
  intros Hh. simpl. pose proof (calls_for_execute None o manager (handler_fn None) (Hh None) n) as Hc.
  unfold run_step. rewrite calls_andthen. simpl.
  set (first := execute_step_with_wrappers o manager (handler_fn None) n) in *.
  assert (Hstop : forall B (r : Res B), exists tried cs, calls first ++ calls (ret r n) = calls first ++ cs /\
     blocks tried cs /\ Forall (eq None) (calls first) /\ tried `prefix_of` candidates primary ranked /\ tried = [] /\ cs = []).
  { intros B r. exists [], []. split; [done|]. split; [apply blocks_nil|]. split; [done|]. split; [apply prefix_nil|done]. }
  destruct (result first) as [a|e].
  { destruct (Hstop _ (Val a)) as (tr & cs & H1 & H2 & H3 & H4 & H5 & H6). by exists tr, cs. }
  destruct (Hstop _ (@Exn (StepOutput * option StepOutput) e)) as (tr & cs & H1 & H2 & H3 & H4 & H5 & H6).
  assert (Hno : fallback_enabled o primary = false \/ should_fallback e = false ->
    should_fallback e && fallback_enabled o primary = false) by (intros [->| ->]; [apply andb_false_r | done]).
  destruct (model_ref o) as [m|] eqn:Em.
  2: { exists tr, cs. rewrite Hno by (left; unfold fallback_enabled; by rewrite Em). done. }
  destruct (bool_decide (m = ""%string) || negb (has_model_requirements o)) eqn:Eb.
  { exists tr, cs. rewrite Hno; [done|]. left. unfold fallback_enabled. rewrite Em.
    apply orb_true_iff in Eb as [-> | ->%negb_true_iff]; [done | by rewrite andb_false_r]. }
  apply orb_false_iff in Eb as [Eb1 Eb2%negb_false_iff].
  destruct (should_fallback e) eqn:Ee; simpl; [|exists tr, cs; done].
  pose proof (try_fallback_spec o e primary ranked
    (fun id => execute_step_with_wrappers o manager (handler_fn (Some id))) (n + length (started first))) as Ht.
  rewrite Em, Eb1, Eb2 in Ht. specialize (Ht (fun id => calls_for_execute _ _ _ _ (Hh (Some id))) eq_refl eq_refl).
  simpl in Ht. destruct (fallback_enabled o primary).
  - destruct Ht as (tried & Hb & Hp & Hx). eexists tried, _. repeat split; try done.
  - destruct Ht as [Hr Hn]. exists [], []. rewrite Hn, Hr. split; [done|]. split; [apply blocks_nil|].
    split; [done|]. split; [apply prefix_nil | done].
Qed.

(** A step or handler timeout is never followed by a fallback. *)
Lemma timeout_blocks_fallback o manager primary ranked handler_fn n t :
  manager = None -> truthy_num (timeout_seconds o) = Some t ->
  t < elapsed (with_retry o (handler_fn None) n) ->
  result (run_step o manager primary ranked handler_fn n) = Exn StepTimeoutError /\
  calls (run_step o manager primary ranked handler_fn n)
  = calls (execute_step_with_wrappers o manager (handler_fn None) n).
Proof.
  intros -> Et Hlt.
  assert (Hfirst : result (execute_step_with_wrappers o None (handler_fn None) n) = Exn StepTimeoutError).
  { unfold execute_step_with_wrappers, with_step_timeout. rewrite Et. simpl. unfold wait_for.
    destruct (Qle_bool _ t) eqn:E; [|done]. apply Qle_bool_iff in E. lra. }
  unfold run_step. rewrite calls_andthen. unfold andthen at 1. cbn [result]. rewrite Hfirst.
  destruct (model_ref o) as [m|]; simpl; [|by rewrite app_nil_r].
  destruct (_ || _); simpl; by rewrite app_nil_r.
Qed.

(** Checkpoints.  A stored output is returned without calling the
    handler; otherwise the output is stored exactly when the step succeeds,
    is selected for checkpoints and carries neither a stop nor a stream. *)
Theorem checkpoint_rules o c handler_fn n :
  let r := execute_step_with_wrappers o (Some c) handler_fn n in
  match stored c with
  | Some out => result r = Val (out, None) /\ started r = []
  | None =>
      started r = started (with_step_timeout o handler_fn n) /\
      match result (with_step_timeout o handler_fn n) with
      | Exn e => result r = Exn e
      | Val out => exists saved, result r = Val (out, saved) /\
          (saved = Some out <-> should_checkpoint o c = true /\ has_stop out = false /\ has_stream out = false) /\
          (saved = None \/ saved = Some out)
      end
  end.
Proof.
  destruct c as [sc [out|]]; simpl; [done|]. split; [done|].
  destruct (result (with_step_timeout o handler_fn n)) as [out|e]; [|done]. eexists. split; [done|].
  destruct (should_checkpoint _ _), (has_stop out), (has_stream out); simpl; naive_solver.
Qed.

End Execution.

(** ** Examples *)

Definition exact_pow : Q -> Z -> option Q := fun b n => Some (Qred (b ^ n)).
Definition no_jitter : nat -> Q := fun _ => 1.

Definition transport_error : Exc := mkExc ("TimeoutError" :: "OSError" :: exception_tail)%string.

(** The n-th call takes a second and fails, except for the model [big]. *)
Definition flaky (ov : option string) : M string := fun n =>
  mkRun [(0, ov)] 1 (if bool_decide (ov = Some "big"%string) then Val "answer"%string else Exn transport_error).

Definition retry_twice : RetryPolicy :=
  mkPolicy 2 "exponential" 1 300 2 false ["Exception"%string] [].

Definition options (handler_timeout : option Q) : StepOptions :=
  mkOptions None handler_timeout (Some retry_twice) None (Some "small"%string) true false.

Definition ran (handler_timeout : option Q) : Run (string * option string) :=
  run_step (fun _ => false) (fun _ => false) exact_pow no_jitter (options handler_timeout) None
    (Some ("small"%string, true)) ["small"; "mid"; "big"]%string flaky 0%nat.

(** Two attempts each with the step's own model and with [mid]; [big] answers. *)
Example falls_back :
  result (ran None) = Val ("answer"%string, None) /\
  calls (ran None) = [None; None; Some "mid"; Some "mid"; Some "big"]%string.
Proof. vm_compute. by split. Qed.

(** With a handler timeout, although it is never reached, the same error is
    reported as a handler timeout and there is no fallback. *)
Lemma handler_timeout_blocks_fallback :
  result (ran (Some 60)) = Exn HandlerTimeoutError /\ calls (ran (Some 60)) = [None; None].
Proof. vm_compute. by split. Qed.

(** Jitter is applied after the cap. *)
Lemma jitter_exceeds_cap :
  calculate_delay exact_pow (mkPolicy 9 "fixed" 300 300 2 true [] []) 1 (5 # 4) = Some 375.
Proof. vm_compute. reflexivity. Qed.

Lemma flaky_calls ov : calls_for ov (flaky ov).
Proof. intros n. by repeat constructor. Qed.

Lemma retry_exact_witness : exists k : nat,
  length (started (execute_with_retry exact_pow no_jitter (flaky None) retry_twice 0%nat)) = k /\ (1 <= Z.of_nat k <= 2)%Z.
Proof.
  destruct (retry_exact exact_pow no_jitter (flaky None) retry_twice 0%nat) as (k & Hk & Hl & _).
  - vm_compute. reflexivity.
  - intros n. reflexivity.
  - exists k. split; [exact Hl | exact Hk].
Defined.

Lemma step_time_bounded_witness :
  elapsed (execute_step_with_wrappers (fun _ => false) (fun _ => false) exact_pow no_jitter
             (options (Some 60)) None (flaky None) 0%nat) <= inject_Z (2 - 1) * (60 + 300) + 60.
Proof.
  destruct (step_time_bounded (fun _ : string => false) (fun _ => false) exact_pow no_jitter
              (options (Some 60)) None (flaky None) 0%nat) as [_ H].
  - intros m. split; vm_compute; discriminate.
  - apply (H 60 retry_twice); vm_compute; reflexivity.
Defined.

Lemma fallback_order_witness :
  exists tried cs, calls (ran None) = [None; None] ++ cs /\ blocks tried cs /\ tried `prefix_of` ["mid"; "big"]%string.
Proof.
  destruct (fallback_order (fun _ : string => false) (fun _ => false) exact_pow no_jitter (options None) None
              (Some ("small"%string, true)) ["small"; "mid"; "big"]%string flaky 0%nat flaky_calls)
    as (tried & cs & H1 & H2 & _ & H4 & _).
  exists tried, cs. split; [|split; [exact H2 | exact H4]].
  etrans; [exact H1|]. f_equal.
Defined.
