(* ===== verification/MapReduce.v ===== *)
(** * Map steps ([pipeline/core/execution/map_reduce])

    The success threshold, the fail-fast and timeout execution modes, the
    collection of iteration results, and [MapOutputCollection].  The tasks of
    the iterations are an oracle: what each of them ends with, and in which
    order and after which pauses [asyncio.wait] reports them.  Event
    publication, dump files and durations are left out. *)
From Stdlib Require Import ZArith QArith Qround Lia Lqa.
From stdpp Require Import base gmap list strings sorting.
From S2P Require Import Prelude PyFloat PyString.
Local Open Scope Z_scope.

(** ** [threshold_policy] *)

Inductive Threshold : Type := NoThreshold | Count (n : Z) | Fraction (q : Q).

Definition success_count_meets_threshold (success_count total : Z) (threshold : Threshold) : bool :=
  match threshold with
  | NoThreshold => success_count =? total
  | Count n => n <=? success_count
  | Fraction q => if 0 <? total then fle q (fdiv (inject_Z success_count) (inject_Z total)) else true
  end.

Definition compute_required_success_count (total : Z) (threshold : Threshold) : Z :=
  match threshold with
  | NoThreshold => total
  | Count n => n
  | Fraction q => Qceiling (fmul (of_int total) q)
  end.

(** ** Iterations *)

Inductive IterationStatus : Type := COMPLETED | FAILED | TIMEOUT | CANCELLED.

#[export] Instance IterationStatus_eq_dec : EqDecision IterationStatus.
Proof. solve_decision. Defined.

Record IterationResult := mkIteration {
  index : nat;
  status : IterationStatus;
  gateway_id : option string;
  error_message : option string
}.

Section Map.
Context {Output : Type}.

(** How a task ended; [Stopped]: cancelled by the inference-timeout monitor. *)
Inductive TaskEnd : Type := Succeeds (out : Output) | Fails (msg : string) | Stopped.

(** What the tasks end with, and the gateway in their context. *)
Context (task_end : nat -> TaskEnd) (gateway : nat -> option string).

Definition succeeded (i : nat) : bool := match task_end i with Succeeds _ => true | _ => false end.

Definition count_success (done : list nat) : nat := length (List.filter succeeded done).

(** *** [collect_iteration_results] *)

Definition done_result (timeout_status : IterationStatus) (i : nat) : IterationResult :=
  match task_end i with
  | Succeeds _ => mkIteration i COMPLETED (gateway i) None
  | Fails msg => mkIteration i FAILED (gateway i) (Some msg)
  | Stopped => mkIteration i timeout_status (gateway i) None
  end.

Definition results_by_index (done : list nat) : gmap nat Output :=
  list_to_map (omap (fun i => match task_end i with Succeeds out => Some (i, out) | _ => None end) done).

(** The results sorted by index, as both modes sort them. *)
Definition iteration_results (done cancelled : list nat) (timeout_status : IterationStatus) : list IterationResult :=
  sort_by (fun a b => (index a <? index b)%nat)
    (map (done_result timeout_status) done
     ++ map (fun i => mkIteration i timeout_status (gateway i) None) cancelled).

(** *** [ordered_successful_outputs] *)

Record Outputs := mkOutputs {
  outputs : list Output;
  output_keys : list (option string);
  output_positions : list nat
}.

Fixpoint ordered_successful_outputs (iteration_metadata : list (nat * option string))
    (results : gmap nat Output) : Outputs :=
  match iteration_metadata with
  | [] => mkOutputs [] [] []
  | (idx, key) :: rest =>
      let r := ordered_successful_outputs rest results in
      match results !! idx with
      | Some out => mkOutputs (out :: outputs r) (key :: output_keys r) (idx :: output_positions r)
      | None => r
      end
  end.

(** *** [MapPartialFailureError] *)

Record PartialFailure := mkFailure {
  completed_count : nat;
  failed_count : nat;
  total_count : Z;
  failure_results : list IterationResult;
  gateway_serialization : option (list string)
}.

(** [Counter]: occurrences in order of first appearance. *)
Fixpoint counter (l : list string) (c : list (string * nat)) : list (string * nat) :=
  match l with
  | [] => c
  | x :: l' => counter l' (dset x (S (get_or 0%nat (dget x c))) c)
  end.

Definition serialized_gateways (rs : list IterationResult) : option (list string) :=
  let names := omap (fun r => match gateway_id r with
                              | Some g => if bool_decide (g = ""%string) then None else Some g
                              | None => None
                              end) rs in
  match map fst (List.filter (fun kv => (1 <? snd kv)%nat) (counter names [])) with
  | [] => None
  | l => Some l
  end.

(** ** Fail-fast mode *)

Definition remove_all (l pending : list nat) : list nat :=
  List.filter (fun i => negb (bool_decide (i ∈ l))) pending.

(** The wait loop, on the batches that [asyncio.wait] reports: everything
    done, the threshold out of reach with what is still pending, or still
    waiting when the batches run out. *)
Inductive LoopEnd : Type :=
  | AllDone (done : list nat)
  | Hopeless (done pending : list nat)
  | StillWaiting.

Fixpoint fail_fast_loop (required : Z) (done pending : list nat) (batches : list (list nat)) : LoopEnd :=
  match pending with
  | [] => AllDone done
  | _ =>
      match batches with
      | [] => StillWaiting
      | newly_done :: batches' =>
          let pending' := remove_all newly_done pending in
          let done' := done ++ newly_done in
          let max_possible := Z.of_nat (count_success done') + Z.of_nat (length pending') in
          if max_possible <? required then Hopeless done' pending'
          else fail_fast_loop required done' pending' batches'
      end
  end.

Inductive ModeResult : Type :=
  | Returned (o : Outputs) (failed_hints : list (nat * string))
  | PartialFailed (f : PartialFailure)
  | NotFinished.

Definition execute_with_fail_fast (metadata : list (nat * option string)) (total : Z) (threshold : Threshold)
    (batches : list (list nat)) : ModeResult :=
  let required := compute_required_success_count total threshold in
  match fail_fast_loop required [] (map fst metadata) batches with
  | StillWaiting => NotFinished
  | Hopeless done pending =>
      let rs := iteration_results done pending CANCELLED in
      PartialFailed (mkFailure (count_success done) (length done - count_success done + length pending)
                               total rs (serialized_gateways rs))
  | AllDone done =>
      let rs := iteration_results done [] CANCELLED in
      let results := results_by_index done in
      let success_count := size results in
      if negb (success_count_meets_threshold (Z.of_nat success_count) total threshold)
      then PartialFailed (mkFailure success_count (length rs - success_count) total rs (serialized_gateways rs))
      else Returned (ordered_successful_outputs metadata results) []
  end.

(** ** Timeout mode *)

(** The wait loop: a batch comes after a pause since the one before; a pause
    longer than the timeout, or no batch at all, is a stall. *)
Fixpoint timeout_loop (timeout : Q) (done pending : list nat) (batches : list (Q * list nat)) : list nat * list nat :=
  match pending with
  | [] => (done, [])
  | _ =>
      match batches with
      | [] => (done, pending)
      | (pause, newly_done) :: batches' =>
          if fle pause timeout then timeout_loop timeout (done ++ newly_done) (remove_all newly_done pending) batches'
          else (done, pending)
      end
  end.

Definition execute_with_timeout (metadata : list (nat * option string)) (total : Z) (timeout : Q)
    (threshold : Threshold) (batches : list (Q * list nat)) : ModeResult :=
  let (done, pending) := timeout_loop timeout [] (map fst metadata) batches in
  let rs := iteration_results done pending TIMEOUT in
  let results := results_by_index done in
  let completed := size results in
  if negb (success_count_meets_threshold (Z.of_nat completed) total threshold)
  then PartialFailed (mkFailure completed (Z.to_nat total - completed) total rs (serialized_gateways rs))
  else Returned (ordered_successful_outputs metadata results)
         (map (fun r => (index r, get_or ""%string (error_message r)))
              (List.filter (fun r => negb (bool_decide (status r = COMPLETED))) rs)).

(** ** [MapOutputCollection] *)

Record MapOutputCollection := mkCollection {
  c_outputs : list Output;
  c_keys : list (option string);
  c_positions : option (list nat);     (* an empty list is stored as [None] *)
  c_total : option nat
}.

Definition make_collection (o : Outputs) (total : nat) : MapOutputCollection :=
  mkCollection (outputs o) (output_keys o)
    (match output_positions o with [] => None | ps => Some ps end) (Some total).

(** [for pos, output in zip(...): aligned[pos] = output] *)
Fixpoint place (ps : list nat) (os : list Output) (aligned : list (option Output)) : exn (list (option Output)) :=
  match ps, os with
  | [], [] => Ok aligned
  | pos :: ps', out :: os' =>
      if (pos <? length aligned)%nat then place ps' os' (<[pos := Some out]> aligned) else Raise IndexError
  | _, _ => Raise (ValueError "zip() arguments have different lengths")
  end.

Definition outputs_aligned (c : MapOutputCollection) : exn (list (option Output)) :=
  match c_positions c, c_total c with
  | Some ps, Some total => place ps (c_outputs c) (replicate total None)
  | _, _ => Ok (map Some (c_outputs c))
  end.

(** [get_output]: Python indexing. *)
Definition get_output (c : MapOutputCollection) (i : Z) : exn Output :=
  let n := Z.of_nat (length (c_outputs c)) in
  let j := if i <? 0 then i + n else i in
  if (0 <=? j) && (j <? n) then
    match c_outputs c !! Z.to_nat j with Some o => Ok o | None => Raise IndexError end
  else Raise IndexError.

(** [_key_map]: later keys replace earlier ones. *)
Definition key_map (keys : list (option string)) : list (string * nat) :=
  fold_left (fun m ik => match snd ik with Some k => dset k (fst ik) m | None => m end)
            (zip (seq 0 (length keys)) keys) [].

Definition get_output_by_key (c : MapOutputCollection) (key : string) : option Output :=
  match dget key (key_map (c_keys c)) with
  | Some i => c_outputs c !! i
  | None => None
  end.

(** [items] *)
Definition collection_items (c : MapOutputCollection) : exn (list (string * Output)) :=
  match key_map (c_keys c) with
  | [] => Raise (ValueError "collection has no keys")
  | _ => Ok (omap (fun ko => match fst ko with Some k => Some (k, snd ko) | None => None end)
                  (zip (c_keys c) (c_outputs c)))
  end.

(** ** The fail-fast mode *)

(** A complete schedule: every pending task is reported once, in batches that
    are not empty. *)
Definition schedule (pending : list nat) (batches : list (list nat)) : Prop :=
  List.concat batches ≡ₚ pending /\ Forall (fun b => b <> []) batches.

Lemma count_success_app l k : count_success (l ++ k) = (count_success l + count_success k)%nat.
Proof. unfold count_success. by rewrite List.filter_app, length_app. Qed.

Lemma count_success_perm l k : l ≡ₚ k -> count_success l = count_success k.
Proof. intros H. unfold count_success. by rewrite (lfilter_perm _ _ _ H). Qed.

Lemma count_success_le l : (count_success l <= length l)%nat.
Proof. apply List.filter_length_le. Qed.

Lemma remove_all_perm b l pending : NoDup pending -> pending ≡ₚ b ++ l -> remove_all b pending ≡ₚ l.
Proof.
  intros Hn Hp. unfold remove_all. rewrite (lfilter_perm _ _ _ Hp), List.filter_app.
  rewrite Hp in Hn. apply NoDup_app in Hn as (_ & Hd & _).
  rewrite (proj2 (lfilter_nil_iff _ b)); [|intros x Hx; by rewrite bool_decide_true].
  simpl. rewrite (lfilter_ext_in _ (fun _ => true)); [by rewrite lfilter_true|].
  intros x Hx. rewrite bool_decide_false; [done|]. intros Hb. by apply (Hd x).
Qed.

Lemma schedule_step b batches pending :
  NoDup pending -> schedule pending (b :: batches) ->
  schedule (remove_all b pending) batches /\ NoDup (remove_all b pending) /\ pending ≡ₚ b ++ remove_all b pending.
Proof.
  intros Hn [Hp Hne]. simpl in Hp. apply Forall_cons in Hne as [_ Hne].
  pose proof (remove_all_perm b (List.concat batches) pending Hn ltac:(by symmetry)) as Hr.
  split; [by split|]. split; [by apply NoDup_lfilter|]. by rewrite Hr, Hp.
Qed.

Lemma fail_fast_loop_spec required batches : forall done pending,
  NoDup pending -> schedule pending batches ->
  (pending = [] -> required <= Z.of_nat (count_success done)) ->
  match fail_fast_loop required done pending batches with
  | AllDone d => d ≡ₚ done ++ pending /\ required <= Z.of_nat (count_success (done ++ pending))
  | Hopeless d p => d ++ p ≡ₚ done ++ pending /\ Z.of_nat (count_success (done ++ pending)) < required
  | StillWaiting => False
  end.
Proof.
  induction batches as [|b batches IH]; intros done pending Hn Hs Hreq; simpl.
  - destruct pending as [|i pending]; [rewrite app_nil_r; auto|].
    destruct Hs as [Hp _]. by apply Permutation_nil_cons in Hp.
  - destruct pending as [|i pending]; [rewrite app_nil_r; auto|].
    destruct (schedule_step b batches _ Hn Hs) as (Hs' & Hn' & Hp).
    set (rest := remove_all b (i :: pending)) in *.
    assert (Hall : done ++ i :: pending ≡ₚ (done ++ b) ++ rest) by (by rewrite <- app_assoc, <- Hp).
    rewrite (count_success_perm _ _ Hall).
    destruct (Z.ltb_spec (Z.of_nat (count_success (done ++ b)) + Z.of_nat (length rest)) required) as [Hlt|Hge].
    + split; [by rewrite Hall|]. rewrite count_success_app. pose proof (count_success_le rest). lia.
    + pose proof (IH (done ++ b) rest Hn' Hs') as H.
      destruct (fail_fast_loop required (done ++ b) rest batches); rewrite ?Hall; apply H; intros Hrest;
        rewrite Hrest in Hge; simpl in Hge; lia.
Qed.

Lemma timeout_loop_all timeout batches : forall done pending,
  (0 <= timeout)%Q -> NoDup pending -> schedule pending batches ->
  exists d, timeout_loop timeout done pending (map (fun b => (0%Q, b)) batches) = (d, []) /\ d ≡ₚ done ++ pending.
Proof.
  intros done pending Ht. revert done pending.
  induction batches as [|b batches IH]; intros done pending Hn Hs; simpl.
  - destruct pending as [|i pending]; [by exists done; rewrite app_nil_r|].
    destruct Hs as [Hp _]. by apply Permutation_nil_cons in Hp.
  - destruct pending as [|i pending]; [by exists done; rewrite app_nil_r|].
    destruct (schedule_step b batches _ Hn Hs) as (Hs' & Hn' & Hp).
    rewrite (proj2 (fle_spec 0 timeout) Ht).
    destruct (IH (done ++ b) _ Hn' Hs') as (d & -> & Hd). exists d. split; [done|].
    by rewrite Hd, <- app_assoc, <- Hp.
Qed.

Definition output_pairs (done : list nat) : list (nat * Output) :=
  omap (fun i => match task_end i with Succeeds out => Some (i, out) | _ => None end) done.

Lemma output_pairs_keys done : map fst (output_pairs done) = List.filter succeeded done.
Proof.
  unfold succeeded. induction done as [|i done IH]; [done|]. unfold output_pairs. simpl.
  destruct (task_end i); simpl; [f_equal|..]; exact IH.
Qed.

Lemma results_lookup done i : NoDup done ->
  results_by_index done !! i = match task_end i with Succeeds out => if decide (i ∈ done) then Some out else None | _ => None end.
Proof.
  intros Hn. unfold results_by_index. fold (output_pairs done).
  assert (Hk : NoDup (output_pairs done).*1) by (change ((output_pairs done).*1) with (map fst (output_pairs done)); rewrite output_pairs_keys; by apply NoDup_lfilter).
  apply option_eq. intros out. rewrite <- (elem_of_list_to_map (output_pairs done) i out Hk).
  unfold output_pairs. rewrite list_elem_of_omap. split.
  - intros (j & Hj & E). destruct (task_end j) as [o| |] eqn:Ej; simplify_eq. rewrite Ej. by rewrite decide_True.
  - destruct (task_end i) as [o| |] eqn:Ei; [|done..]. case_decide; [|done]. intros [= ->]. exists i. by rewrite Ei.
Qed.

Lemma results_perm done done' : NoDup done -> done ≡ₚ done' -> results_by_index done = results_by_index done'.
Proof.
  intros Hn Hp. apply map_eq. intros i. rewrite !results_lookup; [|by rewrite <- Hp | done].
  destruct (task_end i); try done. apply decide_ext. by rewrite Hp.
Qed.

Lemma results_size done : NoDup done -> size (results_by_index done) = count_success done.
Proof.
  intros Hn. unfold results_by_index. fold (output_pairs done).
  assert (Hk : NoDup (output_pairs done).*1).
  { change ((output_pairs done).*1) with (map fst (output_pairs done)). rewrite output_pairs_keys. by apply NoDup_lfilter. }
  rewrite map_size_list_to_map by done. unfold count_success. by rewrite <- output_pairs_keys, length_map.
Qed.

Lemma meets_required S total threshold : (forall q, threshold <> Fraction q) -> S <= total ->
  success_count_meets_threshold S total threshold = true <-> compute_required_success_count total threshold <= S.
Proof.
  intros Hq Hs. destruct threshold as [|n|q]; simpl; [| |by destruct (Hq q)].
  - rewrite Z.eqb_eq. lia.
  - by rewrite Z.leb_le.
Qed.

(** The fail-fast mode decides as if it waited.  For a threshold that is
    absent or a count, and whatever the order in which the iterations end, it
    returns the outputs that the mode that waits for all of them returns, and
    raises exactly when that one does; it always ends, and its error accounts
    for every iteration. *)
Theorem fail_fast_equiv metadata threshold timeout batches :
  NoDup (map fst metadata) -> metadata <> [] -> schedule (map fst metadata) batches ->
  (0 <= timeout)%Q -> (forall q, threshold <> Fraction q) ->
  let total := Z.of_nat (length metadata) in
  match execute_with_fail_fast metadata total threshold batches,
        execute_with_timeout metadata total timeout threshold (map (fun b => (0%Q, b)) batches) with
  | Returned o _, Returned o' _ => o = o'
  | PartialFailed f, PartialFailed _ => (completed_count f + failed_count f = length metadata)%nat
  | _, _ => False
  end.
Proof.
  intros Hn Hne Hs Ht Hq total. unfold execute_with_fail_fast, execute_with_timeout.
  destruct (timeout_loop_all timeout batches [] (map fst metadata) Ht Hn Hs) as (d' & -> & Hd'). simpl in Hd'.
  assert (Hnd' : NoDup d') by (by rewrite Hd').
  pose proof (fail_fast_loop_spec (compute_required_success_count total threshold) batches [] (map fst metadata) Hn Hs) as Hff.
  rewrite (results_size d' Hnd'), (count_success_perm _ _ Hd').
  assert (Hle : Z.of_nat (count_success (map fst metadata)) <= total).
  { pose proof (count_success_le (map fst metadata)) as H. rewrite length_map in H. unfold total. lia. }
  pose proof (meets_required _ total threshold Hq Hle) as Hm.
  specialize (Hff ltac:(by destruct metadata)). simpl in Hff.
  destruct (fail_fast_loop _ [] (map fst metadata) batches) as [d|d p|]; [| |done].
  - destruct Hff as [Hd Hr]. assert (Hnd : NoDup d) by (by rewrite Hd).
    rewrite (results_size d Hnd), (count_success_perm _ _ Hd), (proj2 Hm Hr). simpl.
    f_equal. apply results_perm; [done|]. by rewrite Hd, Hd'.
  - destruct Hff as [Hp Hlt]. destruct (success_count_meets_threshold _ total threshold) eqn:E; simpl.
    + pose proof (proj1 Hm eq_refl). lia.
    + apply Permutation_length in Hp. rewrite length_app, length_map in Hp.
      pose proof (count_success_le d). lia.
Qed.

End Map.

(** ** Outputs and positions *)

Section Positions.
Context {Output : Type}.
Implicit Types (results : gmap nat Output).

Lemma ordered_lengths metadata results :
  length (outputs (ordered_successful_outputs metadata results)) = length (output_positions (ordered_successful_outputs metadata results)) /\
  length (output_keys (ordered_successful_outputs metadata results)) = length (output_positions (ordered_successful_outputs metadata results)).
Proof.
  induction metadata as [|[i k] md [IH1 IH2]]; [done|]. simpl. destruct (results !! i); simpl; [|done].
  by rewrite IH1, IH2.
Qed.

Lemma place_spec metadata results : forall aligned,
  (forall i, i ∈ map fst metadata -> (i < length aligned)%nat) -> NoDup (map fst metadata) ->
  let o := ordered_successful_outputs metadata results in
  exists r, place (output_positions o) (outputs o) aligned = Ok r /\ length r = length aligned /\
    forall j, (j < length aligned)%nat ->
      r !! j = match results !! j with
               | Some out => if decide (j ∈ map fst metadata) then Some (Some out) else aligned !! j
               | None => aligned !! j
               end.
Proof.
  induction metadata as [|[i k] md IH]; intros aligned Hlt Hn.
  { exists aligned. split; [done|]. split; [done|]. intros j Hj. destruct (results !! j); [|done].
    rewrite decide_False; [done|]. by intros ?%elem_of_nil. }
  apply NoDup_cons in Hn as [Hni Hn]. simpl in Hlt. simpl.
  assert (Hi : (i < length aligned)%nat) by (apply Hlt; left).
  assert (Hmd : forall x, x ∈ map fst md -> (x < length aligned)%nat) by (intros x Hx; apply Hlt; by right).
  destruct (results !! i) as [out|] eqn:Ei; simpl.
  - rewrite (proj2 (Nat.ltb_lt i _) Hi).
    destruct (IH (<[i := Some out]> aligned)) as (r & -> & Hl & Hr); [intros x Hx; rewrite length_insert; auto | done|].
    rewrite length_insert in Hl, Hr. exists r. split; [done|]. split; [done|]. intros j Hj. rewrite Hr by done.
    destruct (decide (i = j)) as [->|Hne].
    + rewrite Ei, decide_False by done. rewrite decide_True by left. by apply list_lookup_insert_eq.
    + rewrite list_lookup_insert_ne by done. destruct (results !! j); [|done]. apply decide_ext.
      rewrite elem_of_cons. naive_solver.
  - destruct (IH aligned Hmd Hn) as (r & -> & Hl & Hr). exists r. split; [done|]. split; [done|].
    intros j Hj. rewrite Hr by done. destruct (results !! j) as [out|] eqn:Ej; [|done]. apply decide_ext.
    rewrite elem_of_cons. naive_solver.
Qed.

Lemma lookup_seq_map {B} (f : nat -> B) n j : (j < n)%nat -> map f (seq 0 n) !! j = Some (f j).
Proof.
  intros Hj. change (map f (seq 0 n)) with (f <$> seq 0 n).
  by rewrite list_lookup_fmap, lookup_seq_lt by lia.
Qed.

(** Positions survive the collection.  When some iteration succeeded,
    [outputs_aligned] of the collection built from a map run has one entry per
    iteration, the output of that iteration or nothing if it did not
    succeed. *)
Theorem aligned_exact metadata results :
  map fst metadata = seq 0 (length metadata) ->
  let o := ordered_successful_outputs metadata results in
  output_positions o <> [] ->
  outputs_aligned (make_collection o (length metadata)) = Ok (map (fun i => results !! i) (seq 0 (length metadata))).
Proof.
  intros Hm o Hne. unfold outputs_aligned, make_collection. simpl.
  destruct (output_positions o) as [|p ps] eqn:Eo; [done|]. rewrite <- Eo.
  destruct (place_spec metadata results (replicate (length metadata) None)) as (r & Hpl & Hl & Hr).
  - intros i. rewrite Hm, length_replicate, elem_of_seq. lia.
  - rewrite Hm. apply NoDup_seq.
  - fold o in Hpl. rewrite Hpl. rewrite length_replicate in Hl, Hr. f_equal. apply list_eq. intros j.
    destruct (decide (j < length metadata)%nat) as [Hj|Hj].
    + rewrite Hr, lookup_seq_map by done. rewrite lookup_replicate_2 by done.
      destruct (results !! j) eqn:Ej; [|done]. rewrite decide_True; [done|]. rewrite Hm, elem_of_seq. lia.
    + rewrite lookup_ge_None_2 by lia. symmetry. apply lookup_ge_None_2. rewrite length_map, length_seq. lia.
Qed.

End Positions.

Arguments TaskEnd Output : clear implicits.

(** ** [select_from_pool] *)

Definition select_from_pool (pool : list string) (originator : option string) (exclude_self : bool)
    (selection : string) (idx : nat) (random_choice : list string -> string) : exn string :=
  let candidates :=
    match originator with
    | Some o => if exclude_self && negb (bool_decide (o = ""%string)) then
                  match List.filter (fun m => negb (bool_decide (m = o))) pool with
                  | [] => [o]
                  | l => l
                  end
                else pool
    | None => pool
    end in
  match candidates with
  | [] => Raise (ValueError "Model candidate pool is empty after filtering.")
  | first :: _ =>
      if bool_decide (selection = "random"%string) then Ok (random_choice candidates)
      else if bool_decide (selection = "rotate"%string)
      then Ok (nth (idx mod length candidates) candidates first)
      else Ok first
  end.

Lemma nth_mod_lookup {A} (l : list A) i d : l <> [] -> l !! (i mod length l)%nat = Some (nth (i mod length l) l d).
Proof.
  intros Hl. destruct (nth_lookup_or_length l (i mod length l) d) as [H|H]; [done|].
  assert (length l <> 0)%nat by (by destruct l). pose proof (Nat.mod_upper_bound i (length l)). lia.
Qed.

(** The model picked for an iteration comes from the pool; with
    [exclude_self] it is the originator only if the pool offers nothing else,
    and rotation gives consecutive iterations the candidates in turn. *)
Theorem select_from_pool_sound pool originator exclude_self selection idx choose m :
  (forall l, l <> [] -> choose l ∈ l) ->
  select_from_pool pool originator exclude_self selection idx choose = Ok m ->
  (m ∈ pool \/ (exclude_self = true /\ originator = Some m /\ forall x, x ∈ pool -> x = m)) /\
  (exclude_self = true -> originator = Some m -> m <> ""%string -> forall x, x ∈ pool -> x = m) /\
  (originator = None -> selection = "rotate"%string -> pool !! (idx mod length pool)%nat = Some m).
Proof.
  intros Hch. unfold select_from_pool. set (cands := match originator with Some _ => _ | None => _ end).
  intros H. assert (Hin : m ∈ cands).
  { destruct cands as [|c cs]; [done|]. case_bool_decide; [injection H as <-; by apply Hch|].
    case_bool_decide; [|injection H as <-; left].
    assert (Hm : nth (idx mod length (c :: cs)) (c :: cs) c = m) by congruence. rewrite <- Hm.
    eapply list_elem_of_lookup_2. by apply nth_mod_lookup. }
  assert (Hc : (cands = pool /\ (exclude_self = true -> originator = Some m -> m = ""%string)) \/
    exists o, originator = Some o /\ exclude_self = true /\
      ((cands = [o] /\ forall x, x ∈ pool -> x = o) \/ (forall x, x ∈ cands -> x ∈ pool /\ x <> o))).
  { unfold cands. destruct originator as [o|]; [|left; by split].
    destruct exclude_self; [|left; by split]. destruct (bool_decide (o = ""%string)) eqn:Ho; simpl.
    { left. split; [done|]. intros _ [= <-]. by apply bool_decide_eq_true in Ho. }
    right. exists o. split; [done|]. split; [done|].
    destruct (List.filter _ pool) as [|c cs] eqn:Ef.
    - left. split; [done|]. intros x Hx. pose proof (proj1 (lfilter_nil_iff _ pool) Ef x Hx) as Hf.
      apply negb_false_iff in Hf. by apply bool_decide_eq_true in Hf.
    - right. rewrite <- Ef. intros x [Hx Hf%negb_true_iff]%elem_of_lfilter. by apply bool_decide_eq_false in Hf. }
  split; [|split].
  - destruct Hc as [[-> _]|(o & -> & -> & [[-> Hp]|Hp])]; [by left | right | left; by apply Hp].
    apply list_elem_of_singleton in Hin as ->. done.
  - intros -> -> Hne. destruct Hc as [[_ Hc]|(o & [= <-] & _ & [[_ Hp]|Hp])]; [by destruct Hne; apply Hc | done|].
    destruct (Hp m Hin) as [_ ?]. done.
  - intros -> ->. unfold cands in H. destruct pool as [|c cs]; [done|].
    rewrite bool_decide_false, bool_decide_true in H by done.
    assert (Hm : nth (idx mod length (c :: cs)) (c :: cs) c = m) by congruence. rewrite <- Hm.
    by apply nth_mod_lookup.
Qed.

(** ** Contention *)

Lemma counter_spec l x : forall c, get_or 0%nat (dget x (counter l c)) =
  (get_or 0%nat (dget x c) + length (List.filter (fun y => bool_decide (y = x)) l))%nat.
Proof.
  induction l as [|y l IH]; intros c; simpl; [lia|]. rewrite IH. case_bool_decide as H; simpl.
  - subst. rewrite dget_dset_eq. simpl. lia.
  - by rewrite dget_dset_ne.
Qed.

(** ** Examples *)

(** Ten iterations; those below [n] succeed. *)
Definition first_n (n i : nat) : TaskEnd string := if (i <? n)%nat then Succeeds "ok" else Fails "bad".
Definition no_gateway : nat -> option string := fun _ => None.
Definition items (n : nat) : list (nat * option string) := map (fun i => (i, None)) (seq 0 n).

Definition failed_early : ModeResult :=
  execute_with_fail_fast (first_n 3) no_gateway (items 5) 5 (Count 4) [[0; 3]; [4]; [1]; [2]]%nat.

(** Two of five have failed, so four successes are out of reach: the other
    tasks are cancelled. *)
Example fails_fast :
  match failed_early with
  | PartialFailed f => (completed_count f, failed_count f, map (fun r => (index r, status r)) (failure_results f))
      = (1%nat, 4%nat, [(0, COMPLETED); (1, CANCELLED); (2, CANCELLED); (3, FAILED); (4, FAILED)]%nat)
  | _ => False
  end.
Proof. vm_compute. reflexivity. Qed.

(** 7 of 100 successes for a threshold of 0.07: the fail-fast mode asks for
    8, since [100 * 0.07] rounds to 7.000000000000001, and raises; the
    timeout mode accepts. *)
Definition seven_percent : Q := rnd (7 # 100).

Lemma fraction_modes_disagree :
  compute_required_success_count 100 (Fraction seven_percent) = 8 /\
  success_count_meets_threshold 7 100 (Fraction seven_percent) = true /\
  match execute_with_fail_fast (first_n 7) no_gateway (items 100) 100 (Fraction seven_percent) [seq 0 100],
        execute_with_timeout (first_n 7) no_gateway (items 100) 100 60 (Fraction seven_percent) [(0%Q, seq 0 100)] with
  | PartialFailed _, Returned _ _ => True
  | _, _ => False
  end.
Proof. vm_compute. repeat split. Qed.

(** When every iteration failed and the threshold allows it, the aligned
    outputs are empty instead of one [None] per iteration. *)
Lemma no_success_not_aligned :
  match execute_with_fail_fast (first_n 0) no_gateway (items 3) 3 (Count 0) [[0; 1; 2]]%nat with
  | Returned o _ => outputs_aligned (make_collection o 3) = Ok []
  | _ => False
  end.
Proof. vm_compute. reflexivity. Qed.

Lemma items_schedule : schedule (map fst (items 5)) [[0; 3]; [4]; [1]; [2]]%nat.
Proof.
  split.
  - apply (bool_decide_unpack ((List.concat [[0; 3]; [4]; [1]; [2]]%nat) ≡ₚ map fst (items 5))). vm_compute. exact I.
  - repeat constructor; discriminate.
Qed.

Lemma fail_fast_equiv_witness :
  match execute_with_fail_fast (first_n 4) no_gateway (items 5) 5 (Count 3) [[0; 3]; [4]; [1]; [2]]%nat,
        execute_with_timeout (first_n 4) no_gateway (items 5) 5 60 (Count 3) (map (fun b => (0%Q, b)) [[0; 3]; [4]; [1]; [2]]%nat) with
  | Returned o _, Returned o' _ => o = o' /\ output_positions o = [0; 1; 2; 3]%nat
  | _, _ => False
  end.
Proof.
  pose proof (fail_fast_equiv (first_n 4) no_gateway (items 5) (Count 3) 60 [[0; 3]; [4]; [1]; [2]]%nat
    ltac:(apply (bool_decide_unpack (NoDup (map fst (items 5)))); vm_compute; exact I)
    ltac:(discriminate) items_schedule ltac:(vm_compute; discriminate) ltac:(discriminate)) as H.
  revert H. vm_compute. intros H. split; [exact H | reflexivity].
Defined.

Lemma aligned_exact_witness :
  outputs_aligned (make_collection (ordered_successful_outputs (items 3) ({[1%nat := "x"%string]} : gmap nat string)) 3)
  = Ok [None; Some "x"%string; None].
Proof.
  etrans; [apply (aligned_exact (items 3) {[1%nat := "x"%string]}); [reflexivity | vm_compute; discriminate]|].
  vm_compute. reflexivity.
Defined.

Lemma select_from_pool_sound_witness :
  select_from_pool ["a"; "b"; "c"]%string (Some "b"%string) true "rotate" 1 (fun l => get_or ""%string (head l)) = Ok "c"%string /\
  ("c" ∈ ["a"; "b"; "c"] \/ forall x, x ∈ ["a"; "b"; "c"] -> x = "c")%string.
Proof.
  assert (H : select_from_pool ["a"; "b"; "c"]%string (Some "b"%string) true "rotate" 1 (fun l => get_or ""%string (head l)) = Ok "c"%string)
    by (vm_compute; reflexivity).
  split; [exact H|].
  destruct (select_from_pool_sound ["a"; "b"; "c"]%string (Some "b"%string) true "rotate" 1
    (fun l => get_or ""%string (head l)) "c"%string ltac:(intros [|x l] Hl; [destruct (Hl eq_refl) | left]) H) as [[Hc|(_ & _ & Hc)] _];
    [left; exact Hc | right; exact Hc].
Defined.
