(* ===== verification/SseFraming.v ===== *)
(** * Server-sent events ([libs/sse/core.py], [libs/sse/framing.py])

    Formatting and parsing of messages, and the framing of a byte stream that
    arrives in chunks of any size.  Bytes are 8-bit characters; decoding UTF-8
    is left out, as the code only looks at ASCII characters of the text.
    [json.dumps] and [json.loads] are parameters. *)
From stdpp Require Import base list strings.
From Stdlib Require Import Ascii ZArith NArith Lia.
From S2P Require Import Prelude PyString.

Definition Bytes : Type := list ascii.

Definition nl : ascii := ascii_of_nat 10.
Definition colon : ascii := ":"%char.
Definition space : ascii := " "%char.

(** ** Text *)

(** ["\n".join(lines)] and [s.split("\n")] *)
#[local] Notation join_lines := (join nl).
#[local] Notation split_lines := (split_all nl).

Definition rstrip (l : list ascii) : list ascii := rev (lstrip (rev l)).
Definition strip_ (l : list ascii) : list ascii := rstrip (lstrip l).

(** [bytes.strip()]: fewer characters count as white space. *)
Definition is_byte_space (c : ascii) : bool :=
  let n := nat_of_ascii c in (n =? 32)%nat || ((9 <=? n)%nat && (n <=? 13)%nat).
Definition bytes_strip (l : Bytes) : Bytes :=
  rev (snd (span is_byte_space (rev (snd (span is_byte_space l))))).

Definition starts (p : string) (l : list ascii) : option (list ascii) := strip_prefix (chars p) l.

(** [int(s)] on ASCII: optional white space and sign, then digits that single
    underscores may separate. *)
Fixpoint digits_us (l : list ascii) (acc : N) : option N :=
  match l with
  | [] => Some acc
  | c :: l' =>
      if is_digit c then digits_us l' (10 * acc + digit_val c)%N
      else if Ascii.eqb c "_"%char then
        match l' with
        | d :: l'' => if is_digit d then digits_us l'' (10 * acc + digit_val d)%N else None
        | [] => None
        end
      else None
  end.

Definition unsigned (l : list ascii) : option N :=
  match l with
  | c :: l' => if is_digit c then digits_us l' (digit_val c) else None
  | [] => None
  end.

Definition parse_int (l : list ascii) : option Z :=
  match strip_ l with
  | c :: l' =>
      if Ascii.eqb c "-"%char then (fun n => (- Z.of_N n)%Z) <$> unsigned l'
      else if Ascii.eqb c "+"%char then Z.of_N <$> unsigned l'
      else Z.of_N <$> unsigned (c :: l')
  | [] => None
  end.

(** [str(z)] *)
Definition str_Z (z : Z) : list ascii :=
  if (z <? 0)%Z then "-"%char :: str_int (Z.to_N (- z)) else str_int (Z.to_N z).

(** ** Messages *)

(** What [json.loads] makes of a text: a JSON object, another JSON value, or a
    [JSONDecodeError]. *)
Inductive Loaded (JSON : Type) : Type := Mapping (j : JSON) | OtherJson | DecodeError.
Arguments Mapping {JSON} j.
Arguments OtherJson {JSON}.
Arguments DecodeError {JSON}.

Section Sse.
Context {JSON : Type} (dumps : JSON -> list ascii) (loads : list ascii -> Loaded JSON).

Inductive JSONData : Type := Text (s : list ascii) | Object_ (j : JSON).

Record SSEMessage := mkMsg {
  data : JSONData;
  event : option (list ascii);
  id : option (list ascii);
  retry : option Z
}.

Definition nonempty (o : option (list ascii)) : option (list ascii) :=
  match o with Some [] => None | o => o end.

Definition field (name : string) (v : list ascii) : list ascii := chars name ++ v.

Definition data_lines (d : JSONData) : list (list ascii) :=
  match d with Text s => split_lines s | Object_ j => [dumps j] end.

Definition message_lines (m : SSEMessage) : list (list ascii) :=
  match nonempty (event m) with Some e => [field "event: " e] | None => [] end
  ++ match nonempty (id m) with Some i => [field "id: " i] | None => [] end
  ++ match retry m with Some r => [field "retry: " (str_Z r)] | None => [] end
  ++ map (field "data: ") (data_lines (data m)).

Definition format_sse_message (m : SSEMessage) : list ascii := join_lines (message_lines m) ++ [nl; nl].

(** The fields read so far. *)
Record Fields := mkFields {
  f_event : option (list ascii);
  f_data : list (list ascii);
  f_id : option (list ascii);
  f_retry : option Z
}.

Definition empty_fields : Fields := mkFields None [] None None.

(** [parse_sse_message]: one line. *)
Definition parse_message_line (f : Fields) (line : list ascii) : exn Fields :=
  match starts "event: " line with
  | Some v => Ok (mkFields (Some v) (f_data f) (f_id f) (f_retry f))
  | None => match starts "data: " line with
  | Some v => Ok (mkFields (f_event f) (f_data f ++ [v]) (f_id f) (f_retry f))
  | None => match starts "id: " line with
  | Some v => Ok (mkFields (f_event f) (f_data f) (Some v) (f_retry f))
  | None => match starts "retry: " line with
  | Some v => match parse_int v with
              | Some r => Ok (mkFields (f_event f) (f_data f) (f_id f) (Some r))
              | None => Raise (ValueError "invalid literal for int()")
              end
  | None => Ok f
  end end end end.

Fixpoint parse_message_lines (f : Fields) (lines : list (list ascii)) : exn Fields :=
  match lines with
  | [] => Ok f
  | line :: lines' => let? f' := parse_message_line f line in parse_message_lines f' lines'
  end.

Definition parse_sse_message (raw : list ascii) : exn SSEMessage :=
  let? f := parse_message_lines empty_fields (split_lines (strip_ raw)) in
  match f_data f with
  | [] => Raise (ValueError "SSE message missing data field")
  | ls => let text := join_lines ls in
          Ok (mkMsg (match loads text with Mapping j => Object_ j | _ => Text text end)
                    (f_event f) (f_id f) (f_retry f))
  end.

(** The JSON-only interface. *)
Definition format_sse (j : JSON) : list ascii := chars "data: " ++ dumps j ++ [nl; nl].

Definition parse_sse (message : list ascii) : exn JSON :=
  match message with
  | [] => Raise (ValueError "Message must be non-empty string")
  | _ =>
      let line := strip_ message in
      let line := match starts "data: " line with Some l => l | None => line end in
      match line with
      | [] => Raise (ValueError "Empty message after removing SSE prefix")
      | _ => match loads line with
             | Mapping j => Ok j
             | OtherJson => Raise (ValueError "SSE JSON payload must be an object")
             | DecodeError => Raise (ValueError "Invalid JSON in SSE message")
             end
      end
  end.

(** ** Framing *)

(** [buffer.split(b"\n\n", 1)], if the boundary occurs. *)
Fixpoint split_boundary (l : Bytes) : option (Bytes * Bytes) :=
  match l with
  | a :: (b :: r) as t =>
      if Ascii.eqb a nl && Ascii.eqb b nl then Some ([], r)
      else match split_boundary t with
           | Some (x, y) => Some (a :: x, y)
           | None => None
           end
  | _ => None
  end.

(** The field name and value of a line. *)
Definition line_field (line : list ascii) : list ascii * list ascii :=
  match split1 colon line with
  | (_, None) => (rstrip line, [])
  | (name, Some value) => (name, match value with c :: v => if Ascii.eqb c space then v else value | [] => [] end)
  end.

Definition parse_event_line (f : Fields) (line : list ascii) : exn Fields :=
  match line with
  | [] => Ok f
  | c :: _ =>
      if Ascii.eqb c colon then Ok f
      else
        let (name, value) := line_field line in
        if bool_decide (name = chars "event") then Ok (mkFields (Some value) (f_data f) (f_id f) (f_retry f))
        else if bool_decide (name = chars "data") then Ok (mkFields (f_event f) (f_data f ++ [value]) (f_id f) (f_retry f))
        else if bool_decide (name = chars "id") then Ok (mkFields (f_event f) (f_data f) (Some value) (f_retry f))
        else if bool_decide (name = chars "retry") then
          match parse_int value with
          | Some r => Ok (mkFields (f_event f) (f_data f) (f_id f) (Some r))
          | None => Raise SSEParseError
          end
        else Ok f
  end.

Fixpoint parse_event_lines (f : Fields) (lines : list (list ascii)) : exn Fields :=
  match lines with
  | [] => Ok f
  | line :: lines' => let? f' := parse_event_line f line in parse_event_lines f' lines'
  end.

(** [_parse_event] *)
Definition parse_event (raw : Bytes) : exn (option SSEMessage) :=
  let? f := parse_event_lines empty_fields (split_lines raw) in
  Ok (match f_data f with
      | [] => None
      | ls => Some (mkMsg (Text (join_lines ls)) (f_event f) (f_id f) (f_retry f))
      end).

(** The complete frames of the buffer and what remains. *)
Fixpoint take_frames (fuel : nat) (buffer : Bytes) : list Bytes * Bytes :=
  match fuel with
  | O => ([], buffer)
  | S fuel' =>
      match split_boundary buffer with
      | None => ([], buffer)
      | Some (raw_event, rest) => let (fs, r) := take_frames fuel' rest in (raw_event :: fs, r)
      end
  end.

Definition frames (buffer : Bytes) : list Bytes * Bytes := take_frames (length buffer) buffer.

(** The events of frames, up to the first parse error. *)
Fixpoint parse_frames (fs : list Bytes) : list SSEMessage * option error :=
  match fs with
  | [] => ([], None)
  | raw :: fs' =>
      match bytes_strip raw with
      | [] => parse_frames fs'
      | _ => match parse_event raw with
             | Raise e => ([], Some e)
             | Ok None => parse_frames fs'
             | Ok (Some m) => let (ms, e) := parse_frames fs' in (m :: ms, e)
             end
      end
  end.

Fixpoint iter_loop (chunks : list Bytes) (buffer : Bytes) : list SSEMessage * option error :=
  match chunks with
  | [] => parse_frames [buffer]
  | chunk :: chunks' =>
      match chunk with
      | [] => iter_loop chunks' buffer
      | _ =>
          let (fs, rest) := frames (buffer ++ chunk) in
          match parse_frames fs with
          | (ms, Some e) => (ms, Some e)
          | (ms, None) => let (ms', e) := iter_loop chunks' rest in (ms ++ ms', e)
          end
      end
  end.

(** [iter_sse_events]: the events it yields, and the error that ends it. *)
Definition iter_sse_events (chunks : list Bytes) : list SSEMessage * option error := iter_loop chunks [].

(** ** Boundaries *)

Lemma split_boundary_cons a b r :
  split_boundary (a :: b :: r) =
    if Ascii.eqb a nl && Ascii.eqb b nl then Some ([], r)
    else match split_boundary (b :: r) with Some (x, y) => Some (a :: x, y) | None => None end.
Proof. done. Qed.

(** The first boundary stays the first when bytes are added. *)
Lemma split_boundary_app l k : forall x y,
  split_boundary l = Some (x, y) -> split_boundary (l ++ k) = Some (x, y ++ k).
Proof.
  induction l as [|a l IH]; [done|]. intros x y. destruct l as [|b r]; [done|].
  change ((a :: b :: r) ++ k) with (a :: b :: (r ++ k)). rewrite !split_boundary_cons.
  destruct (_ && _); [by intros [= <- <-]|].
  destruct (split_boundary (b :: r)) as [[x' y']|]; [|done].
  change (b :: r ++ k) with ((b :: r) ++ k). rewrite (IH x' y' eq_refl). by intros [= <- <-].
Qed.

Lemma split_boundary_length l x y : split_boundary l = Some (x, y) -> (length x + 2 + length y = length l)%nat.
Proof.
  revert x y. induction l as [|a l IH]; [done|]. intros x y. destruct l as [|b r]; [done|].
  rewrite split_boundary_cons. destruct (_ && _); [by intros [= <- <-]; simpl|].
  destruct (split_boundary (b :: r)) as [[x' y']|]; [|done]. specialize (IH x' y' eq_refl).
  intros [= <- <-]. simpl in *. lia.
Qed.

Lemma take_frames_fuel f1 : forall f2 l, (length l <= f1)%nat -> (length l <= f2)%nat ->
  take_frames f1 l = take_frames f2 l.
Proof.
  induction f1 as [|f1 IH]; intros f2 l H1 H2.
  - destruct l; [|simpl in H1; lia]. by destruct f2.
  - destruct f2 as [|f2]; [destruct l; [done | simpl in H2; lia]|]. simpl.
    destruct (split_boundary l) as [[x y]|] eqn:E; [|done]. apply split_boundary_length in E.
    by rewrite (IH f2 y) by lia.
Qed.

Lemma frames_step l :
  frames l = match split_boundary l with
             | None => ([], l)
             | Some (x, y) => let (fs, r) := frames y in (x :: fs, r)
             end.
Proof.
  unfold frames. destruct (split_boundary l) as [[x y]|] eqn:E.
  - pose proof (split_boundary_length _ _ _ E) as Hl. destruct (length l) as [|n] eqn:El; [lia|].
    simpl. rewrite E. by rewrite (take_frames_fuel n (length y) y) by lia.
  - destruct (length l); simpl; [done|]. by rewrite E.
Qed.

(** Frames can be taken as soon as they are there. *)
Lemma frames_app l k : frames (l ++ k) =
  let (fs, r) := frames l in let (fs', r') := frames (r ++ k) in (fs ++ fs', r').
Proof.
  remember (length l) as n eqn:Hn. revert l Hn. induction n as [n IH] using lt_wf_ind. intros l ->.
  rewrite (frames_step l). destruct (split_boundary l) as [[x y]|] eqn:E.
  - rewrite (frames_step (l ++ k)), (split_boundary_app l k x y E).
    pose proof (split_boundary_length _ _ _ E) as Hl. rewrite (IH (length y) ltac:(lia) y eq_refl).
    destruct (frames y) as [fs r]. by destruct (frames (r ++ k)).
  - by destruct (frames (l ++ k)).
Qed.

Lemma frames_rest l : split_boundary (frames l).2 = None.
Proof.
  pose proof (frames_app l []) as H. rewrite app_nil_r in H. destruct (frames l) as [fs rest]. simpl.
  rewrite app_nil_r, (frames_step rest) in H. destruct (split_boundary rest) as [[x y]|]; [|done].
  destruct (frames y) as [fs' r']. injection H as H _. apply (f_equal length) in H.
  rewrite length_app in H. simpl in H. lia.
Qed.

Lemma parse_frames_app fs gs : parse_frames (fs ++ gs) =
  match parse_frames fs with
  | (ms, Some e) => (ms, Some e)
  | (ms, None) => let (ms', e) := parse_frames gs in (ms ++ ms', e)
  end.
Proof.
  induction fs as [|raw fs IH]; simpl; [by destruct (parse_frames gs)|].
  destruct (bytes_strip raw); [done|]. destruct (parse_event raw) as [[m|]|e]; [|done|done].
  rewrite IH. destruct (parse_frames fs) as [ms [e|]]; [done|]. by destruct (parse_frames gs).
Qed.

(** The whole stream at once. *)
Definition iter_whole (stream : Bytes) : list SSEMessage * option error :=
  let (fs, r) := frames stream in parse_frames (fs ++ [r]).

Lemma iter_loop_whole chunks : forall buffer,
  split_boundary buffer = None -> iter_loop chunks buffer = iter_whole (buffer ++ List.concat chunks).
Proof.
  induction chunks as [|chunk chunks IH]; intros buffer Hb.
  - simpl. unfold iter_whole. rewrite app_nil_r, frames_step, Hb. done.
  - destruct chunk as [|c chunk]; [by apply IH|]. cbn [iter_loop List.concat].
    unfold iter_whole. rewrite app_assoc, (frames_app (buffer ++ c :: chunk)).
    destruct (frames (buffer ++ c :: chunk)) as [fs rest] eqn:Ef.
    assert (Hr : split_boundary rest = None) by (pose proof (frames_rest (buffer ++ c :: chunk)) as H; by rewrite Ef in H).
    rewrite (IH rest Hr). unfold iter_whole. destruct (frames (rest ++ List.concat chunks)) as [fs' r'].
    rewrite <- app_assoc, (parse_frames_app fs). by destruct (parse_frames fs) as [ms [e|]].
Qed.

(** ** Lines *)

Lemma no_char_cons c x l : no_char c (x :: l) = negb (Ascii.eqb x c) && no_char c l.
Proof. done. Qed.

Lemma split_lines_nil l : split_lines l <> [].
Proof. destruct l as [|c l]; [done|]. simpl. destruct (Ascii.eqb c nl), (split_lines l); done. Qed.

Lemma split_lines_single l : no_char nl l = true -> split_lines l = [l].
Proof.
  induction l as [|c l IH]; [done|]. rewrite no_char_cons. intros [Hc H]%andb_true_iff.
  apply negb_true_iff in Hc. simpl. by rewrite Hc, IH.
Qed.

Lemma split_lines_app l r : no_char nl l = true -> split_lines (l ++ nl :: r) = l :: split_lines r.
Proof.
  induction l as [|c l IH]; [done|]. rewrite no_char_cons. intros [Hc H]%andb_true_iff.
  apply negb_true_iff in Hc. simpl. by rewrite Hc, IH.
Qed.


Lemma split_lines_clean l : Forall (fun l => no_char nl l = true) (split_lines l).
Proof.
  induction l as [|c l IH]; simpl; [by constructor|]. destruct (Ascii.eqb c nl) eqn:E; [by constructor|].
  destruct (split_lines l) as [|line lines]; [repeat constructor; rewrite no_char_cons; by rewrite E|].
  inversion IH; subst. constructor; [|done]. rewrite no_char_cons. by rewrite E.
Qed.

(** A boundary is not found inside a line that is not empty. *)
Lemma split_boundary_line l c r : l <> [] -> no_char nl l = true ->
  split_boundary (l ++ nl :: c :: r) =
    if Ascii.eqb c nl then Some (l, r)
    else match split_boundary (c :: r) with
         | Some (x, y) => Some (l ++ nl :: x, y)
         | None => None
         end.
Proof.
  intros Hne. induction l as [|a l IH]; [done|]. rewrite no_char_cons.
  intros [Ha H]%andb_true_iff. apply negb_true_iff in Ha. destruct l as [|b l].
  - simpl app. rewrite split_boundary_cons, Ha. cbn [andb]. rewrite split_boundary_cons.
    rewrite Ascii.eqb_refl. cbn [andb]. destruct (Ascii.eqb c nl); [done|].
    by destruct (split_boundary (c :: r)) as [[x y]|].
  - change ((a :: b :: l) ++ nl :: c :: r) with (a :: b :: (l ++ nl :: c :: r)).
    rewrite split_boundary_cons, Ha. cbn [andb].
    change (b :: l ++ nl :: c :: r) with ((b :: l) ++ nl :: c :: r). rewrite IH by done.
    destruct (Ascii.eqb c nl); [done|]. by destruct (split_boundary (c :: r)) as [[x y]|].
Qed.

Definition proper_line (l : list ascii) : Prop := l <> [] /\ no_char nl l = true.

Lemma frame_found lines rest : lines <> [] -> Forall proper_line lines ->
  split_boundary (join_lines lines ++ nl :: nl :: rest) = Some (join_lines lines, rest).
Proof.
  intros Hne H. induction H as [|l lines [Hl Hc] H IH]; [done|]. destruct lines as [|l' lines].
  - simpl join_lines. by rewrite split_boundary_line, Ascii.eqb_refl.
  - change (join_lines (l :: l' :: lines)) with (l ++ nl :: join_lines (l' :: lines)).
    rewrite <- app_assoc. specialize (IH ltac:(done)). inversion H as [|? ? [Hl' Hc'] _]; subst.
    destruct (join_lines (l' :: lines)) as [|c k] eqn:Ek.
    { destruct l'; [done|]. by destruct lines. }
    assert (Hcn : Ascii.eqb c nl = false).
    { destruct l' as [|c' l']; [done|]. rewrite no_char_cons in Hc'. apply andb_true_iff in Hc' as [Hc' _].
      apply negb_true_iff in Hc'. destruct lines; simpl in Ek; by injection Ek as <- _. }
    change ((nl :: c :: k) ++ nl :: nl :: rest) with (nl :: c :: (k ++ nl :: nl :: rest)).
    rewrite split_boundary_line, Hcn by done.
    change (c :: k ++ nl :: nl :: rest) with ((c :: k) ++ nl :: nl :: rest). by rewrite IH.
Qed.

(** ** Fields *)

Definition set_event f v := mkFields (Some v) (f_data f) (f_id f) (f_retry f).
Definition add_data f v := mkFields (f_event f) (f_data f ++ [v]) (f_id f) (f_retry f).
Definition set_id f v := mkFields (f_event f) (f_data f) (Some v) (f_retry f).
Definition set_retry f r := mkFields (f_event f) (f_data f) (f_id f) (Some r).

Lemma event_line f v : parse_event_line f (field "event: " v) = Ok (set_event f v).
Proof. done. Qed.
Lemma data_line f v : parse_event_line f (field "data: " v) = Ok (add_data f v).
Proof. done. Qed.
Lemma id_line f v : parse_event_line f (field "id: " v) = Ok (set_id f v).
Proof. done. Qed.

Lemma digits_us_digits l : forall acc, forallb is_digit l = true ->
  digits_us l acc = Some (fold_left (fun a c => 10 * a + digit_val c)%N l acc).
Proof.
  induction l as [|c l IH]; intros acc; [done|]. cbn [forallb digits_us fold_left].
  intros [Hc Hl]%andb_true_iff. by rewrite Hc, IH.
Qed.

Lemma unsigned_str n : unsigned (str_int n) = Some n.
Proof.
  destruct (N.eq_dec n 0) as [->|Hn]; [done|].
  pose proof (str_int_digits n) as Hd. pose proof (int_of_str_int n ltac:(lia)) as Hi.
  destruct (str_int n) as [|c l]; [by rewrite <- Hi in Hn|]. cbn [forallb] in Hd. apply andb_true_iff in Hd as [Hc Hl].
  cbn [unsigned]. rewrite Hc, (digits_us_digits l _ Hl). f_equal. exact Hi.
Qed.

Lemma digit_no_space c : is_digit c = true -> is_space c = false.
Proof.
  unfold is_digit, is_space. intros [H1 H2]%andb_true_iff. apply Nat.leb_le in H1, H2.
  apply orb_false_iff; split; apply andb_false_iff; rewrite !Nat.leb_gt; lia.
Qed.

Lemma strip_solid l : (forall c, head l = Some c -> is_space c = false) ->
  (forall c, last l = Some c -> is_space c = false) -> strip_ l = l.
Proof.
  intros Hh Hl. unfold strip_, rstrip. assert (H1 : lstrip l = l).
  { destruct l as [|c l]; [done|]. unfold lstrip. simpl. by rewrite (Hh c eq_refl). }
  rewrite H1. destruct l as [|c l] using rev_ind; [done|]. rewrite rev_app_distr. simpl.
  rewrite last_snoc in Hl. unfold lstrip. simpl. rewrite (Hl c eq_refl). simpl. by rewrite rev_involutive.
Qed.

Lemma forallb_In {A} (p : A -> bool) l x : forallb p l = true -> x ∈ l -> p x = true.
Proof. rewrite forallb_forall. intros H Hx. apply H. by apply list_elem_of_In. Qed.

Lemma parse_int_str r : parse_int (str_Z r) = Some r.
Proof.
  unfold parse_int. rewrite strip_solid.
  - unfold str_Z. destruct (r <? 0)%Z eqn:E.
    + apply Z.ltb_lt in E. cbn [app]. rewrite Ascii.eqb_refl, unsigned_str. simpl. f_equal. lia.
    + apply Z.ltb_ge in E. pose proof (unsigned_str (Z.to_N r)) as Hu.
      pose proof (str_int_digits (Z.to_N r)) as Hd. destruct (str_int (Z.to_N r)) as [|c l]; [done|].
      cbn [forallb] in Hd. apply andb_true_iff in Hd as [Hc _].
      destruct (Ascii.eqb c "-"%char) eqn:E1; [by apply Ascii.eqb_eq in E1 as ->|].
      destruct (Ascii.eqb c "+"%char) eqn:E2; [by apply Ascii.eqb_eq in E2 as ->|].
      rewrite Hu. simpl. f_equal. lia.
  - intros c Hc. unfold str_Z in Hc. destruct (r <? 0)%Z; [by injection Hc as <-|].
    apply digit_no_space, (forallb_In is_digit (str_int (Z.to_N r))); [apply str_int_digits|].
    by apply head_Some_elem_of.
  - intros c Hc. unfold str_Z in Hc. apply last_Some_elem_of in Hc.
    destruct (r <? 0)%Z; [apply elem_of_cons in Hc as [->|Hc]; [done|]|];
      eapply digit_no_space, forallb_In; [apply str_int_digits | exact Hc | apply str_int_digits | exact Hc].
Qed.

Lemma retry_line f r : parse_event_line f (field "retry: " (str_Z r)) = Ok (set_retry f r).
Proof.
  change (parse_event_line f (field "retry: " (str_Z r)))
    with (match parse_int (str_Z r) with Some r => Ok (set_retry f r) | None => Raise SSEParseError end).
  by rewrite parse_int_str.
Qed.

Lemma data_lines_parsed ls : forall f,
  parse_event_lines f (map (field "data: ") ls) = Ok (mkFields (f_event f) (f_data f ++ ls) (f_id f) (f_retry f)).
Proof.
  induction ls as [|l ls IH]; intros f; [simpl; rewrite app_nil_r; by destruct f|].
  cbn [map parse_event_lines]. rewrite data_line. simpl. rewrite IH. unfold add_data. simpl.
  by rewrite <- app_assoc.
Qed.

(** ** Round trip *)

(** A message the format can carry: the event and the id are on one line. *)
Definition one_line (o : option (list ascii)) : bool :=
  match o with Some l => no_char nl l | None => true end.
Definition well_formed (m : SSEMessage) : bool := one_line (event m) && one_line (id m).

(** What the framing hands over: the data as text. *)
Definition data_text (d : JSONData) : list ascii := match d with Text s => s | Object_ j => dumps j end.
Definition as_received (m : SSEMessage) : SSEMessage :=
  mkMsg (Text (data_text (data m))) (nonempty (event m)) (nonempty (id m)) (retry m).

Lemma str_Z_clean r : no_char nl (str_Z r) = true.
Proof.
  assert (H : forall n, no_char nl (str_int n) = true).
  { intros n. apply forallb_forall. intros c Hc. apply negb_true_iff.
    pose proof (str_int_digits n) as Hd. rewrite forallb_forall in Hd. specialize (Hd c Hc).
    by destruct (Ascii.eqb_spec c nl) as [->|]. }
  unfold str_Z. destruct (r <? 0)%Z; [|apply H]. cbn [app]. rewrite no_char_cons. by rewrite H.
Qed.

Lemma data_lines_join d : join_lines (data_lines d) = data_text d.
Proof. destruct d; [apply join_split | done]. Qed.

Lemma data_lines_nonempty d : data_lines d <> [].
Proof. destruct d; [apply split_lines_nil | done]. Qed.

Section RoundTrip.
(** [json.dumps] escapes the control characters of strings and, without
    [indent], writes no newline of its own. *)
Hypothesis dumps_one_line : forall j, no_char nl (dumps j) = true.

Lemma message_lines_proper m : well_formed m = true -> Forall proper_line (message_lines m).
Proof.
  intros [He Hi]%andb_true_iff. unfold message_lines. rewrite !Forall_app.
  assert (Hf : forall name v, chars name <> [] -> no_char nl (chars name) = true -> no_char nl v = true ->
    proper_line (field name v)).
  { intros name v Hn Hc Hv. split; [|unfold field; by rewrite no_char_app, Hc].
    unfold field. by destruct (chars name). }
  repeat split.
  - destruct (event m) as [[|c e]|]; simpl; try constructor; [|constructor]. by apply Hf.
  - destruct (id m) as [[|c e]|]; simpl; try constructor; [|constructor]. by apply Hf.
  - destruct (retry m); repeat constructor; try done. apply Hf; [done..|apply str_Z_clean].
  - apply Forall_fmap, Forall_forall. intros l Hl. apply Hf; [done..|].
    destruct (data m) as [s|j]; simpl in Hl.
    + pose proof (split_lines_clean s) as Hs. rewrite Forall_forall in Hs. by apply Hs.
    + by apply list_elem_of_singleton in Hl as ->.
Qed.

Lemma message_lines_nonempty m : message_lines m <> [].
Proof.
  unfold message_lines. pose proof (data_lines_nonempty (data m)) as H. intros Hn.
  apply app_eq_nil in Hn as [_ Hn]. apply app_eq_nil in Hn as [_ Hn]. apply app_eq_nil in Hn as [_ Hn].
  by destruct (data_lines (data m)).
Qed.

Lemma message_lines_parsed m :
  parse_event_lines empty_fields (message_lines m) =
    Ok (mkFields (nonempty (event m)) (data_lines (data m)) (nonempty (id m)) (retry m)).
Proof.
  unfold message_lines.
  destruct (nonempty (event m)) as [e|], (nonempty (id m)) as [i|], (retry m) as [r|]; cbn [app parse_event_lines];
    rewrite ?event_line, ?id_line, ?retry_line; cbn [exn_bind parse_event_lines];
    rewrite ?id_line, ?retry_line; cbn [exn_bind parse_event_lines]; rewrite ?retry_line; cbn [exn_bind];
    by rewrite data_lines_parsed.
Qed.

Lemma format_parsed m : well_formed m = true ->
  parse_event (join_lines (message_lines m)) = Ok (Some (as_received m)).
Proof.
  intros Hw. unfold parse_event. rewrite split_join; [|apply message_lines_nonempty|].
  - rewrite message_lines_parsed. simpl. pose proof (data_lines_nonempty (data m)) as Hn.
    destruct (data_lines (data m)) as [|d ds] eqn:E; [done|]. unfold as_received.
    by rewrite <- data_lines_join, E.
  - eapply Forall_impl; [by apply message_lines_proper|]. by intros l [].
Qed.

Lemma bytes_strip_solid c l : is_byte_space c = false -> bytes_strip (c :: l) <> [].
Proof.
  intros Hc. unfold bytes_strip. cbn [span]. rewrite Hc. cbn [snd]. cbn [rev].
  assert (H : forall k, snd (span is_byte_space (k ++ [c])) <> []).
  { induction k as [|x k IH]; simpl; [by rewrite Hc|]. destruct (is_byte_space x); [|done].
    by destruct (span is_byte_space (k ++ [c])). }
  specialize (H (rev l)). destruct (snd _) as [|x k]; [done|]. simpl. by destruct (rev k).
Qed.

Lemma message_head m : exists c l, join_lines (message_lines m) = c :: l /\ is_space c = false /\ is_byte_space c = false.
Proof.
  assert (H : exists c l ls, message_lines m = (c :: l) :: ls /\ is_space c = false /\ is_byte_space c = false).
  { unfold message_lines. pose proof (data_lines_nonempty (data m)) as Hn.
    destruct (data_lines (data m)) as [|d ds]; [done|].
    destruct (nonempty (event m)), (nonempty (id m)), (retry m); do 3 eexists; (split; [reflexivity | done]). }
  destruct H as (c & l & ls & -> & Hc). destruct ls; by do 2 eexists.
Qed.

Lemma message_not_blank m : bytes_strip (join_lines (message_lines m)) <> [].
Proof. destruct (message_head m) as (c & l & -> & _ & Hc). by apply bytes_strip_solid. Qed.

Lemma frames_formatted ms : forallb well_formed ms = true ->
  frames (List.concat (map format_sse_message ms)) = (map (fun m => join_lines (message_lines m)) ms, []).
Proof.
  induction ms as [|m ms IH]; [done|]. cbn [forallb]. intros [Hm Hms]%andb_true_iff.
  cbn [map List.concat]. unfold format_sse_message at 1. rewrite frames_step, <- app_assoc.
  change ([nl; nl] ++ ?x) with (nl :: nl :: x).
  rewrite frame_found; [|apply message_lines_nonempty | by apply message_lines_proper]. by rewrite IH.
Qed.

Lemma parse_formatted ms : forallb well_formed ms = true ->
  parse_frames (map (fun m => join_lines (message_lines m)) ms ++ [[]]) = (map as_received ms, None).
Proof.
  induction ms as [|m ms IH]; [done|]. cbn [forallb]. intros [Hm Hms]%andb_true_iff.
  cbn [map app parse_frames]. pose proof (message_not_blank m) as Hb.
  destruct (bytes_strip (join_lines (message_lines m))); [done|].
  rewrite format_parsed by done. by rewrite IH.
Qed.

End RoundTrip.

(** ** One message as text *)

Lemma message_event_line f v : parse_message_line f (field "event: " v) = Ok (set_event f v).
Proof. done. Qed.
Lemma message_data_line f v : parse_message_line f (field "data: " v) = Ok (add_data f v).
Proof. done. Qed.
Lemma message_id_line f v : parse_message_line f (field "id: " v) = Ok (set_id f v).
Proof. done. Qed.
Lemma message_retry_line f r : parse_message_line f (field "retry: " (str_Z r)) = Ok (set_retry f r).
Proof.
  change (parse_message_line f (field "retry: " (str_Z r)))
    with (match parse_int (str_Z r) with
          | Some r => Ok (set_retry f r)
          | None => Raise (ValueError "invalid literal for int()") end).
  by rewrite parse_int_str.
Qed.

Lemma message_data_lines ls : forall f,
  parse_message_lines f (map (field "data: ") ls) = Ok (mkFields (f_event f) (f_data f ++ ls) (f_id f) (f_retry f)).
Proof.
  induction ls as [|l ls IH]; intros f; [simpl; rewrite app_nil_r; by destruct f|].
  cbn [map parse_message_lines]. rewrite message_data_line. simpl. rewrite IH. unfold add_data. simpl.
  by rewrite <- app_assoc.
Qed.

Lemma message_lines_read m :
  parse_message_lines empty_fields (message_lines m) =
    Ok (mkFields (nonempty (event m)) (data_lines (data m)) (nonempty (id m)) (retry m)).
Proof.
  unfold message_lines.
  destruct (nonempty (event m)) as [e|], (nonempty (id m)) as [i|], (retry m) as [r|]; cbn [app parse_message_lines];
    rewrite ?message_event_line, ?message_id_line, ?message_retry_line; cbn [exn_bind parse_message_lines];
    rewrite ?message_id_line, ?message_retry_line; cbn [exn_bind parse_message_lines];
    rewrite ?message_retry_line; cbn [exn_bind]; by rewrite message_data_lines.
Qed.

(** The text ends in a character that [str.strip] keeps. *)
Definition ends_solid (l : list ascii) : bool :=
  match last l with Some c => negb (is_space c) | None => false end.

Lemma join_lines_last ls l : exists k, join_lines (ls ++ [l]) = k ++ l.
Proof.
  induction ls as [|x ls [k IH]]; [by exists []|]. exists (x ++ nl :: k).
  rewrite <- app_assoc. cbn [app]. rewrite <- IH. simpl. destruct (ls ++ [l]) eqn:E; [|done].
  by apply app_eq_nil in E as [_ ?].
Qed.

Lemma last_app_solid k l : ends_solid l = true -> ends_solid (k ++ l) = true.
Proof.
  unfold ends_solid. destruct l as [|c l _] using rev_ind; [done|]. by rewrite app_assoc, !last_snoc.
Qed.

(** The last line of a text that ends in such a character does too. *)
Lemma last_line_solid ls l : ends_solid (join_lines (ls ++ [l])) = true -> ends_solid l = true.
Proof.
  destruct l as [|c l _] using rev_ind.
  - destruct ls as [|x ls _] using rev_ind; [done|]. intros H. exfalso. revert H. clear.
    induction ls as [|y ls IH]; simpl.
    + unfold ends_solid. by rewrite last_snoc.
    + intros H. apply IH. revert H. destruct ((ls ++ [x]) ++ [[]]) as [|z zs] eqn:E; [by apply app_eq_nil in E as [_ ?]|].
      unfold ends_solid. change (y ++ nl :: ?a) with (y ++ [nl] ++ a).
      destruct (join_lines (z :: zs)) as [|d k _] using rev_ind; [by rewrite app_nil_r, last_snoc|].
      by rewrite !app_assoc, !last_snoc.
  - intros H. destruct (join_lines_last ls (l ++ [c])) as [k E]. rewrite E in H. revert H.
    unfold ends_solid. by rewrite app_assoc, !last_snoc.
Qed.

Lemma strip_framed c l : is_space c = false -> ends_solid (c :: l) = true ->
  strip_ ((c :: l) ++ [nl; nl]) = c :: l.
Proof.
  intros Hc Hl. unfold strip_, rstrip, lstrip at 2. cbn [app span]. rewrite Hc. cbn [snd].
  change (c :: l ++ [nl; nl]) with ((c :: l) ++ [nl; nl]). rewrite rev_app_distr. cbn [rev app].
  unfold lstrip. cbn [span]. change (is_space nl) with true. cbn beta iota.
  change (rev l ++ [c]) with (rev (c :: l)). destruct (c :: l) as [|d k _] using rev_ind; [done|].
  unfold ends_solid in Hl. rewrite last_snoc in Hl. apply negb_true_iff in Hl.
  rewrite rev_app_distr. simpl. rewrite Hl. cbn. by rewrite rev_involutive.
Qed.

Lemma message_ends_solid m : ends_solid (data_text (data m)) = true ->
  ends_solid (join_lines (message_lines m)) = true.
Proof.
  rewrite <- data_lines_join. unfold message_lines. pose proof (data_lines_nonempty (data m)) as Hn.
  destruct (data_lines (data m)) as [|d ds _] using rev_ind; [done|]. intros H%last_line_solid.
  rewrite map_app, !app_assoc. cbn [map].
  match goal with |- ends_solid (join_lines (?a ++ [?b])) = _ => destruct (join_lines_last a b) as [k ->] end.
  unfold field. rewrite app_assoc. by apply last_app_solid.
Qed.

(** Whatever the chunks, formatted messages are read back. *)
Lemma formatted_read (Hd : forall j, no_char nl (dumps j) = true) ms chunks :
  forallb well_formed ms = true ->
  List.concat chunks = List.concat (map format_sse_message ms) ->
  iter_sse_events chunks = (map as_received ms, None).
Proof.
  intros Hw Hc. unfold iter_sse_events. rewrite iter_loop_whole by done. unfold iter_whole.
  rewrite app_nil_l, Hc, frames_formatted by done. by apply parse_formatted.
Qed.

(** C39: The events of a stream do not depend on how its bytes are cut into
    chunks: the iterator yields the same messages, and the same error after
    them, as for the whole stream in one chunk. *)
Theorem chunks_irrelevant chunks chunks' :
  List.concat chunks = List.concat chunks' -> iter_sse_events chunks = iter_sse_events chunks'.
Proof. intros H. unfold iter_sse_events. by rewrite !iter_loop_whole, H. Qed.

(** C38: A stream of formatted messages whose events and ids contain no newline
    ([well_formed]), cut into chunks anywhere, is read back as these messages
    in their order, nothing more and no error: each with its event and id (an
    empty one is absent) and retry interval, and with its data as text,
    newlines included (an object as its JSON text), provided that [json.dumps]
    writes no newline. *)
Theorem sse_roundtrip (Hd : forall j, no_char nl (dumps j) = true) ms chunks :
  forallb well_formed ms = true ->
  List.concat chunks = List.concat (map format_sse_message ms) ->
  iter_sse_events chunks = (map as_received ms, None).
Proof. by apply formatted_read. Qed.

(** [parse_sse_message] inverts [format_sse_message] on a message whose
    data text ends in a character other than white space: the fields come
    back, and the data as the JSON object it parses to or as the text. *)
Theorem message_roundtrip (Hd : forall j, no_char nl (dumps j) = true) m :
  well_formed m = true -> ends_solid (data_text (data m)) = true ->
  parse_sse_message (format_sse_message m) =
    Ok (mkMsg (match loads (data_text (data m)) with Mapping j => Object_ j | _ => Text (data_text (data m)) end)
              (nonempty (event m)) (nonempty (id m)) (retry m)).
Proof.
  intros Hw He. unfold parse_sse_message, format_sse_message.
  assert (Hs : strip_ (join_lines (message_lines m) ++ [nl; nl]) = join_lines (message_lines m)).
  { destruct (message_head m) as (c & l & E & Hc & _). rewrite E. apply strip_framed; [done|]. rewrite <- E.
    by apply message_ends_solid. }
  rewrite Hs, split_join; [|apply message_lines_nonempty|].
  - rewrite message_lines_read. simpl. rewrite <- data_lines_join.
    pose proof (data_lines_nonempty (data m)). by destruct (data_lines (data m)).
  - eapply Forall_impl; [by apply message_lines_proper|]. by intros l [].
Qed.

End Sse.

(** ** Concrete streams *)

Definition no_dumps (_ : False) : list ascii := [].
Definition no_loads (_ : list ascii) : Loaded False := DecodeError.

Definition hello : SSEMessage (JSON := False) :=
  mkMsg (Text (chars "line 1" ++ nl :: chars " line 2")) (Some (chars "log")) (Some []) (Some (-5)%Z).
Definition empty_hello : SSEMessage (JSON := False) := mkMsg (Text []) None (Some (chars "7")) None.

Definition stream : list ascii := List.concat (map (format_sse_message no_dumps) [hello; empty_hello]).

(** One byte at a time. *)
Definition bytewise : list Bytes := map (fun c => [c]) stream.

Lemma chunks_irrelevant_witness :
  iter_sse_events (JSON := False) bytewise = iter_sse_events [stream].
Proof. apply chunks_irrelevant. vm_compute. reflexivity. Defined.

Lemma sse_roundtrip_witness :
  iter_sse_events (JSON := False) bytewise = (map (as_received no_dumps) [hello; empty_hello], None).
Proof. apply (sse_roundtrip no_dumps); [intros [] | vm_compute; reflexivity..]. Defined.

Lemma message_roundtrip_witness :
  parse_sse_message no_loads (format_sse_message no_dumps hello) =
    Ok (mkMsg (data hello) (event hello) None (retry hello)).
Proof. apply (message_roundtrip no_dumps no_loads); [intros [] | vm_compute; reflexivity..]. Defined.

(** A newline in the event is written as it is, and ends the field: the rest of
    the event is lost, or even read as data. *)
Example newline_in_event_splits :
  let sent e := mkMsg (JSON := False) (Text (chars "x")) (Some e) None None in
  iter_sse_events [format_sse_message no_dumps (sent (chars "a" ++ nl :: chars "b"))] =
    ([sent (chars "a")], None) /\
  iter_sse_events (JSON := False) [format_sse_message no_dumps (sent (chars "a" ++ nl :: nl :: chars "data: y"))] =
    ([mkMsg (Text (chars "y" ++ nl :: chars "x")) None None None], None).
Proof. vm_compute. done. Qed.

(** [parse_sse_message] strips the whole message before it looks at the lines,
    which turns a last ["data: "] into ["data:"], a line it ignores: a text
    that ends in a newline loses it, ... *)
Lemma trailing_newline_lost :
  parse_sse_message no_loads (format_sse_message no_dumps (mkMsg (Text (chars "a" ++ [nl])) None None None))
    = Ok (mkMsg (Text (chars "a")) None None None).
Proof. vm_compute. reflexivity. Qed.

(** ... and a message with empty data, which the format writes and the framing
    reads back, is rejected. *)
Lemma empty_data_rejected :
  parse_sse_message no_loads (format_sse_message no_dumps empty_hello)
    = Raise (ValueError "SSE message missing data field") /\
  iter_sse_events (JSON := False) [format_sse_message no_dumps empty_hello] = ([empty_hello], None).
Proof. vm_compute. done. Qed.

(** The line ends of the protocol may also be CR LF; the framing finds no
    boundary in such a stream and joins its events into one. *)
Definition cr : ascii := ascii_of_nat 13.
Definition crlf_event (s : string) : Bytes := chars "data: " ++ chars s ++ [cr; nl; cr; nl].

Lemma crlf_events_merge :
  iter_sse_events (JSON := False) [crlf_event "a"; crlf_event "b"] =
    ([mkMsg (Text (chars "a" ++ [cr; nl] ++ chars "b" ++ [cr])) None None None], None).
Proof. vm_compute. reflexivity. Qed.
