(* ===== verification/SseAccumulator.v ===== *)
(** * Driving a reducer over an event stream ([libs/sse/accumulator.py])

    [accumulate_sse_stream] on a clock in whole ticks.  Only waiting takes
    time; the reducer and the callback are instantaneous. *)
From stdpp Require Import base list strings.
From Stdlib Require Import Ascii ZArith Lia.
From S2P Require Import Prelude PyString SseFraming.

(** What a reducer makes of an event: it goes on, ends the stream or raises. *)
Inductive Reduced (State : Type) : Type := Continue (s : State) | Terminal (s : State) | Raises (e : error).
Arguments Continue {State} s.
Arguments Terminal {State} s.
Arguments Raises {State} e.

(** ** The stream of events *)

Section Timed.
Context {JSON : Type}.
Local Notation Message := (SSEMessage (JSON := JSON)).

(** How a stream goes on after its last event: it ends or fails after a
    pause, or stays silent. *)
Inductive Ending : Type := Exhausted (pause : Z) | Broken (pause : Z) (e : error) | Silent.

(** The events of [iter_sse_events] with the pause before each, when the
    chunks arrive with the given pauses before them and the source ends after
    a last pause, if at all. *)
Definition timed (pause : Z) (ms : list Message) : list (Z * Message) * Z :=
  match ms with
  | [] => ([], pause)
  | m :: ms' => ((pause, m) :: map (pair 0%Z) ms', 0%Z)
  end.

Fixpoint timed_events (chunks : list (Z * Bytes)) (buffer : Bytes) (pause : Z) (last_pause : option Z)
  : list (Z * Message) * Ending :=
  match chunks with
  | [] =>
      match last_pause with
      | None => ([], Silent)
      | Some p =>
          let (ms, e) := parse_frames [buffer] in
          let (evs, pause') := timed (pause + p) ms in
          (evs, match e with Some e => Broken pause' e | None => Exhausted pause' end)
      end
  | (p, chunk) :: chunks' =>
      let (fs, rest) := frames (buffer ++ chunk) in
      let (ms, e) := parse_frames fs in
      let (evs, pause') := timed (pause + p) ms in
      match e with
      | Some e => (evs, Broken pause' e)
      | None => let (evs', ending) := timed_events chunks' rest pause' last_pause in (evs ++ evs', ending)
      end
  end.

(** ** The accumulator *)

Section Accumulator.
Context {State : Type}.

(** The reducer: its state after an event, and whether the event is terminal
    or the reducer raised (cancellation apart); what [terminal_error] makes of
    an error event; the state as the observer leaves it, whose exceptions are
    dropped; and the poll of [cancel_check] with a given number. *)
Context (reduce : State -> Message -> Reduced State).
Context (terminal_error : State -> Message -> exn State).
Context (on_event : option (Message -> State -> State)).
Context (stall_timeout : Z) (overall_timeout : option Z).
Context (cancel_check : nat -> bool).

Definition fire_on_event (m : Message) (s : State) : State :=
  match on_event with Some f => f m s | None => s end.

(** The whole budget is used up after [since] ticks. *)
Definition overall_reached (since : Z) : bool :=
  match overall_timeout with Some o => (o <=? since)%Z | None => false end.

Definition wait_for_next (since : Z) : Z :=
  match overall_timeout with
  | Some o => Z.min stall_timeout (Z.max 0 (o - since))
  | None => stall_timeout
  end.

(** The error when nothing came within the wait: [since] the start and since
    the last event. *)
Definition no_event (since last : Z) : exn State :=
  if overall_reached since then Raise (SSETimeoutError since) else Raise (SSEStallError last).

(** [since]: ticks since the start, [last]: at the last event, [polls]:
    [cancel_check] calls made.  The result and when it was there. *)
Fixpoint accumulate_loop (events : list (Z * Message)) (ending : Ending) (since last : Z) (polls : nat) (s : State)
  : exn State * Z :=
  if cancel_check polls then (Ok s, since)
  else if overall_reached since then (Raise (SSETimeoutError since), since)
  else
    let wait := wait_for_next since in
    let elapsed := (since + Z.max 0 wait)%Z in
    let timed_out := (no_event elapsed (elapsed - last), elapsed)%Z in
    match events with
    | (pause, m) :: events' =>
        if (pause <? wait)%Z then
          let since := (since + pause)%Z in
          if bool_decide (event m = Some (chars "error")) then (terminal_error s m, since)
          else match reduce s m with
               | Raises e => (Raise (SSEReductionError e), since)
               | Terminal s' => (Ok (fire_on_event m s'), since)
               | Continue s' =>
                   accumulate_loop events' ending since since (S polls) (fire_on_event m s')
               end
        else timed_out
    | [] =>
        match ending with
        | Exhausted pause => if (pause <? wait)%Z then (Ok s, (since + pause)%Z) else timed_out
        | Broken pause e => if (pause <? wait)%Z then (Raise e, (since + pause)%Z) else timed_out
        | Silent => timed_out
        end
    end.

Definition accumulate_sse_stream (events : list (Z * Message)) (ending : Ending) (initial_state : State)
  : exn State * Z := accumulate_loop events ending 0 0 0 initial_state.

(** ** What ends a run *)

(** An event that changes the state and lets the run go on. *)
Definition take_event (m : Message) (s : State) : option State :=
  if bool_decide (event m = Some (chars "error")) then None
  else match reduce s m with Continue s' => Some (fire_on_event m s') | _ => None end.

(** [events] were read one after the other, from [since] and state [s] to
    [since'] and [s'], each in time. *)
Inductive reads : list (Z * Message) -> Z -> nat -> State -> Z -> nat -> State -> Prop :=
  | reads_nil since polls s : reads [] since polls s since polls s
  | reads_cons pause m events since polls s s1 since' polls' s' :
      cancel_check polls = false -> overall_reached since = false -> (pause < wait_for_next since)%Z ->
      take_event m s = Some s1 ->
      reads events (since + pause) (S polls) s1 since' polls' s' ->
      reads ((pause, m) :: events) since polls s since' polls' s'.

(** The pause before the next thing the stream does. *)
Definition next_pause (events : list (Z * Message)) (ending : Ending) : option Z :=
  match events with
  | (pause, _) :: _ => Some pause
  | [] => match ending with Exhausted pause | Broken pause _ => Some pause | Silent => None end
  end.

(** Nothing comes for [wait] ticks. *)
Definition quiet (wait : Z) (events : list (Z * Message)) (ending : Ending) : Prop :=
  forall pause, next_pause events ending = Some pause -> (wait <= pause)%Z.

(** The ways a run ends at [since], in state [s] and before [events]. *)
Inductive stops (events : list (Z * Message)) (ending : Ending) (since : Z) (polls : nat) (s : State)
  : exn State * Z -> Prop :=
  | stops_cancelled :
      cancel_check polls = true -> stops events ending since polls s (Ok s, since)
  | stops_overall :
      overall_reached since = true -> stops events ending since polls s (Raise (SSETimeoutError since), since)
  | stops_in_wait o :
      overall_timeout = Some o -> (since < o)%Z -> (o - since <= stall_timeout)%Z ->
      quiet (o - since) events ending ->
      stops events ending since polls s (Raise (SSETimeoutError o), o)
  | stops_stalled :
      (forall o, overall_timeout = Some o -> (since + stall_timeout < o)%Z) -> quiet stall_timeout events ending ->
      stops events ending since polls s (Raise (SSEStallError stall_timeout), (since + stall_timeout)%Z)
  | stops_exhausted pause :
      events = [] -> ending = Exhausted pause -> (pause < wait_for_next since)%Z ->
      stops events ending since polls s (Ok s, (since + pause)%Z)
  | stops_broken pause e :
      events = [] -> ending = Broken pause e -> (pause < wait_for_next since)%Z ->
      stops events ending since polls s (Raise e, (since + pause)%Z)
  | stops_error_event pause m events' :
      events = (pause, m) :: events' -> event m = Some (chars "error") -> (pause < wait_for_next since)%Z ->
      stops events ending since polls s (terminal_error s m, (since + pause)%Z)
  | stops_reducer pause m events' e :
      events = (pause, m) :: events' -> event m <> Some (chars "error") -> reduce s m = Raises e ->
      (pause < wait_for_next since)%Z ->
      stops events ending since polls s (Raise (SSEReductionError e), (since + pause)%Z)
  | stops_terminal pause m events' s' :
      events = (pause, m) :: events' -> event m <> Some (chars "error") -> reduce s m = Terminal s' ->
      (pause < wait_for_next since)%Z ->
      stops events ending since polls s (Ok (fire_on_event m s'), (since + pause)%Z).

Hypothesis stall_positive : (0 < stall_timeout)%Z.

Lemma timed_out_stops events ending since polls s :
  overall_reached since = false -> quiet (wait_for_next since) events ending ->
  let elapsed := (since + Z.max 0 (wait_for_next since))%Z in
  stops events ending since polls s (no_event elapsed (elapsed - since), elapsed).
Proof.
  intros Ho Hq elapsed. unfold no_event, overall_reached, wait_for_next in *.
  destruct overall_timeout as [o|] eqn:E.
  - apply Z.leb_gt in Ho. destruct (Z.le_gt_cases (o - since) stall_timeout) as [H|H].
    + assert (elapsed = o) as -> by lia. rewrite Z.leb_refl. apply stops_in_wait; [done|done|done|].
      replace (o - since)%Z with (Z.min stall_timeout (Z.max 0 (o - since))) by lia. exact Hq.
    + assert (Hmin : Z.min stall_timeout (Z.max 0 (o - since)) = stall_timeout) by lia.
      assert (elapsed = since + stall_timeout)%Z as -> by lia.
      replace (o <=? since + stall_timeout)%Z with false by (symmetry; apply Z.leb_gt; lia).
      replace (since + stall_timeout - since)%Z with stall_timeout by lia.
      apply stops_stalled; [intros o' Eo; rewrite E in Eo; injection Eo as <-; lia|]. by rewrite <- Hmin.
  - assert (elapsed = since + stall_timeout)%Z as -> by lia.
    replace (since + stall_timeout - since)%Z with stall_timeout by lia.
    apply stops_stalled; [congruence | done].
Qed.

Lemma loop_stops events ending : forall since polls s,
  exists pre rest since' polls' s',
    events = pre ++ rest /\ reads pre since polls s since' polls' s' /\
    stops rest ending since' polls' s' (accumulate_loop events ending since since polls s).
Proof.
  induction events as [|[pause m] events IH]; intros since polls s; cbn [accumulate_loop].
  - exists [], [], since, polls, s. split; [done|]. split; [constructor|].
    destruct (cancel_check polls) eqn:Ec; [by apply stops_cancelled|].
    destruct (overall_reached since) eqn:Eo; [by apply stops_overall|].
    destruct ending as [p|p e|]; try destruct (p <? wait_for_next since)%Z eqn:Ep.
    + apply Z.ltb_lt in Ep. by apply stops_exhausted.
    + apply timed_out_stops; [done|]. intros p' [= <-]. by apply Z.ltb_ge.
    + apply Z.ltb_lt in Ep. by apply stops_broken.
    + apply timed_out_stops; [done|]. intros p' [= <-]. by apply Z.ltb_ge.
    + by apply timed_out_stops.
  - assert (Hnow : forall r, stops ((pause, m) :: events) ending since polls s r ->
      exists pre rest since' polls' s', (pause, m) :: events = pre ++ rest /\
        reads pre since polls s since' polls' s' /\ stops rest ending since' polls' s' r).
    { intros r Hr. exists [], ((pause, m) :: events), since, polls, s. split; [done|]. split; [constructor | done]. }
    destruct (cancel_check polls) eqn:Ec; [by apply Hnow, stops_cancelled|].
    destruct (overall_reached since) eqn:Eo; [by apply Hnow, stops_overall|].
    destruct (pause <? wait_for_next since)%Z eqn:Ep.
    2: { apply Hnow, timed_out_stops; [done|]. intros p' [= <-]. by apply Z.ltb_ge. }
    apply Z.ltb_lt in Ep. destruct (bool_decide (event m = Some (chars "error"))) eqn:Ee.
    { apply bool_decide_eq_true in Ee. by eapply Hnow, stops_error_event. }
    apply bool_decide_eq_false in Ee. destruct (reduce s m) as [s'|s'|e] eqn:Er.
    + destruct (IH (since + pause)%Z (S polls) (fire_on_event m s')) as (pre & rest & t & k & s2 & -> & Hr & Hs).
      exists ((pause, m) :: pre), rest, t, k, s2. split; [done|]. split; [|done].
      econstructor; try done. unfold take_event. by rewrite bool_decide_false, Er by done.
    + by eapply Hnow, stops_terminal.
    + by eapply Hnow, stops_reducer.
Qed.

(** How [accumulate_sse_stream] ends.  It reads events one after the
    other, each within the stall timeout and the overall budget, polling
    [cancel_check] before each and folding the reducer and the observer over
    them, and then stops for one of the reasons the module lists: a poll that
    says so, the budget used up (before an event or while waiting for one),
    no event for a whole stall timeout, the end or a failure of the stream, an
    error event, a reducer that raises, a terminal event; with the result and
    at the time that belong to it. *)
Theorem accumulate_exact events ending initial_state :
  exists pre rest since polls s,
    events = pre ++ rest /\ reads pre 0 0 initial_state since polls s /\
    stops rest ending since polls s (accumulate_sse_stream events ending initial_state).
Proof. apply loop_stops. Qed.

Lemma reads_before_overall o pre since polls s since' polls' s' :
  overall_timeout = Some o -> reads pre since polls s since' polls' s' -> (since <= o)%Z -> (since' <= o)%Z.
Proof.
  intros Ho. induction 1 as [|pause m events since polls s s1 since' polls' s' _ Hov Hp _ _ IH]; [done|].
  intros _. apply IH. unfold overall_reached, wait_for_next in *. rewrite Ho in *.
  apply Z.leb_gt in Hov. lia.
Qed.

Lemma reads_within_stall pre since polls s since' polls' s' :
  reads pre since polls s since' polls' s' -> (since' <= since + stall_timeout * Z.of_nat (length pre))%Z.
Proof.
  induction 1 as [|pause m events since polls s s1 since' polls' s' _ _ Hp _ _ IH]; [simpl; lia|].
  simpl length. rewrite Nat2Z.inj_succ, Z.mul_succ_r. unfold wait_for_next in Hp. destruct overall_timeout; lia.
Qed.

(** How long [accumulate_sse_stream] takes: never longer than the
    overall timeout, and never longer than one stall timeout per event and
    one more, however long the stream pauses or if it stays silent. *)
Theorem accumulate_bounded events ending initial_state :
  let t := snd (accumulate_sse_stream events ending initial_state) in
  (forall o, overall_timeout = Some o -> (0 <= o)%Z -> (t <= o)%Z) /\
  (t <= stall_timeout * (Z.of_nat (length events) + 1))%Z.
Proof.
  simpl. destruct (loop_stops events ending 0 0 initial_state) as (pre & rest & since & polls & s & -> & Hr & Hs).
  unfold accumulate_sse_stream. set (r := accumulate_loop _ _ _ _ _ _) in *. split.
  - intros o Ho Hpos. pose proof (reads_before_overall o _ _ _ _ _ _ _ Ho Hr Hpos) as Hb.
    assert (Hw : (wait_for_next since <= Z.max 0 (o - since))%Z) by (unfold wait_for_next; rewrite Ho; lia).
    destruct Hs as [| |o' E|H| | | | | ]; simpl; try lia; [congruence || (rewrite Ho in E; injection E as <-; lia)|].
    specialize (H o Ho). lia.
  - apply reads_within_stall in Hr. rewrite length_app. simpl in *.
    assert (Hw : (wait_for_next since <= stall_timeout)%Z) by (unfold wait_for_next; destruct overall_timeout; lia).
    destruct Hs; simpl; nia.
Qed.

End Accumulator.

(** ** Over the byte stream *)

Lemma timed_messages pause ms : map snd (timed pause ms).1 = ms.
Proof. destruct ms as [|m ms]; [done|]. simpl. by rewrite map_map, map_id. Qed.

Definition ending_error (e : Ending) : option error := match e with Broken _ e => Some e | _ => None end.

(** The timing adds nothing to and takes nothing from what the framing yields. *)
Lemma timed_events_messages last chunks : forall buffer pause,
  split_boundary buffer = None ->
  let (evs, ending) := timed_events chunks buffer pause (Some last) in
  (map snd evs, ending_error ending) = iter_loop (map snd chunks) buffer.
Proof.
  induction chunks as [|[p chunk] chunks IH]; intros buffer pause Hb; cbn [timed_events map snd iter_loop].
  - destruct (parse_frames [buffer]) as [ms e]. pose proof (timed_messages (pause + last) ms) as H.
    destruct (timed (pause + last) ms) as [evs pause']. simpl in H. by destruct e; simpl; rewrite H.
  - destruct chunk as [|c chunk].
    + rewrite app_nil_r, frames_step, Hb. simpl. specialize (IH buffer (pause + p)%Z Hb).
      by destruct (timed_events chunks buffer (pause + p) (Some last)) as [evs ending].
    + pose proof (frames_rest (buffer ++ c :: chunk)) as Hr.
      destruct (frames (buffer ++ c :: chunk)) as [fs rest]. simpl in Hr.
      destruct (parse_frames fs) as [ms e]. pose proof (timed_messages (pause + p) ms) as H.
      destruct (timed (pause + p) ms) as [evs pause']. simpl in H. destruct e as [e|]; [by simpl; rewrite H|].
      specialize (IH rest pause' Hr). destruct (timed_events chunks rest pause' (Some last)) as [evs' ending].
      destruct (iter_loop (map snd chunks) rest) as [ms' e']. injection IH as <- <-.
      by rewrite map_app, H.
Qed.

Definition total_pause (chunks : list (Z * Bytes)) (last : Z) : Z := fold_right Z.add last (map fst chunks).
Definition events_time (evs : list (Z * Message)) : Z := fold_right Z.add 0%Z (map fst evs).
Definition end_pause (e : Ending) : Z := match e with Exhausted p | Broken p _ => p | Silent => 0 end.

Lemma events_time_app l1 l2 : events_time (l1 ++ l2) = (events_time l1 + events_time l2)%Z.
Proof. unfold events_time. induction l1 as [|[p m] l1 IH]; simpl; [done|]. simpl in IH. lia. Qed.

Lemma timed_time pause ms : (0 <= pause)%Z ->
  (events_time (timed pause ms).1 + (timed pause ms).2 = pause)%Z /\
  Forall (fun e => (0 <= e.1)%Z) (timed pause ms).1 /\ (0 <= (timed pause ms).2)%Z.
Proof.
  intros Hp. destruct ms as [|m ms]; simpl; [done|].
  assert (H : events_time (map (pair 0%Z) ms) = 0%Z) by (induction ms as [|x ms IH]; [done | exact IH]).
  split; [unfold events_time in *; simpl; lia|]. split; [|lia]. constructor; [done|].
  apply Forall_map, Forall_true. simpl. lia.
Qed.

(** A stream of formatted messages, however chunked and timed. *)
Lemma timed_events_time last chunks : forall buffer pause,
  Forall (fun c => 0 <= c.1)%Z chunks -> (0 <= last)%Z -> (0 <= pause)%Z ->
  let (evs, ending) := timed_events chunks buffer pause (Some last) in
  Forall (fun e => 0 <= e.1)%Z evs /\ (0 <= end_pause ending)%Z /\
  (events_time evs + end_pause ending <= pause + total_pause chunks last)%Z /\ ending <> Silent.
Proof.
  induction chunks as [|[p chunk] chunks IH]; intros buffer pause Hc Hl Hp; cbn [timed_events].
  - destruct (parse_frames [buffer]) as [ms e]. pose proof (timed_time (pause + last) ms ltac:(lia)) as (H1 & H2 & H3).
    destruct (timed (pause + last) ms) as [evs pause']. unfold total_pause. simpl in *.
    destruct e; simpl; repeat split; try done; lia.
  - inversion Hc as [|? ? Hp0 Hc']; subst. simpl in Hp0.
    assert (Hsum : (total_pause ((p, chunk) :: chunks) last = p + total_pause chunks last)%Z) by done.
    assert (Hpos : (0 <= total_pause chunks last)%Z).
    { clear -Hc' Hl. unfold total_pause. induction Hc'; simpl; lia. }
    destruct (frames (buffer ++ chunk)) as [fs rest], (parse_frames fs) as [ms e].
    pose proof (timed_time (pause + p) ms ltac:(lia)) as (H1 & H2 & H3).
    destruct (timed (pause + p) ms) as [evs pause']. simpl in H1, H2, H3. rewrite Hsum. destruct e as [e|].
    + simpl. repeat split; try done; lia.
    + specialize (IH rest pause' Hc' Hl H3). destruct (timed_events chunks rest pause' (Some last)) as [evs' ending].
      destruct IH as (I1 & I2 & I3 & I4). rewrite events_time_app, Forall_app. repeat split; try done. lia.
Qed.

(** *** From the wire to the state *)

Section Pipeline.
Context {State : Type}.
Context (reduce : State -> Message -> Reduced State) (terminal_error : State -> Message -> exn State).
Context (on_event : option (Message -> State -> State)).
Context (stall_timeout : Z) (overall_timeout : option Z).

Fixpoint reduce_all (ms : list Message) (s : State) : option State :=
  match ms with
  | [] => Some s
  | m :: ms' => match take_event reduce on_event m s with Some s' => reduce_all ms' s' | None => None end
  end.

Lemma loop_in_time events pause : forall since polls s sf,
  Forall (fun e => 0 <= e.1)%Z events -> (0 <= pause)%Z -> reduce_all (map snd events) s = Some sf ->
  (events_time events + pause < stall_timeout)%Z ->
  (forall o, overall_timeout = Some o -> (since + events_time events + pause < o)%Z) ->
  accumulate_loop reduce terminal_error on_event stall_timeout overall_timeout (fun _ => false)
    events (Exhausted pause) since since polls s = (Ok sf, since + events_time events + pause)%Z.
Proof.
  induction events as [|[p m] events IH]; intros since polls s sf Hpos Hp Hs Hst Ho; cbn [accumulate_loop].
  - injection Hs as <-. unfold events_time in *. simpl in *. unfold overall_reached, wait_for_next.
    destruct overall_timeout as [o|]; [specialize (Ho o eq_refl)|].
    + replace (o <=? since)%Z with false by (symmetry; apply Z.leb_gt; lia).
      replace (pause <? _)%Z with true by (symmetry; apply Z.ltb_lt; lia). by rewrite Z.add_0_r.
    + replace (pause <? _)%Z with true by (symmetry; apply Z.ltb_lt; lia). by rewrite Z.add_0_r.
  - inversion Hpos as [|? ? Hp0 Hpos']; subst. simpl in Hp0.
    assert (Ht : (events_time ((p, m) :: events) = p + events_time events)%Z) by done. rewrite Ht in *.
    assert (Hpt : (0 <= events_time events)%Z) by (clear -Hpos'; unfold events_time; induction Hpos'; simpl; lia).
    assert (Hov : overall_reached overall_timeout since = false).
    { unfold overall_reached. destruct overall_timeout as [o|]; [|done]. specialize (Ho o eq_refl). apply Z.leb_gt. lia. }
    assert (Hw : (p <? wait_for_next stall_timeout overall_timeout since)%Z = true).
    { apply Z.ltb_lt. unfold wait_for_next. destruct overall_timeout as [o|]; [specialize (Ho o eq_refl)|]; lia. }
    rewrite Hov, Hw. cbn [map snd reduce_all] in Hs. unfold take_event in Hs.
    destruct (bool_decide (event m = Some (chars "error"))); [done|].
    destruct (reduce s m) as [s'| |]; [|done..]. rewrite (IH _ _ _ sf Hpos' Hp Hs ltac:(lia)).
    + f_equal. lia.
    + intros o Eo. specialize (Ho o Eo). lia.
Qed.

(** From the wire to the state.  When a server formats messages, and their
    bytes arrive in chunks of any size within the stall timeout and the overall
    budget, the accumulator returns the state the reducer and the observer
    build from exactly these messages in order, at the latest when the source
    ends. *)
Theorem stream_reduced {dumps : JSON -> list ascii} (Hd : forall j, no_char nl (dumps j) = true) ms chunks last s sf :
  forallb well_formed ms = true ->
  List.concat (map (@snd Z Bytes) chunks) = List.concat (map (format_sse_message dumps) ms) ->
  Forall (fun c => 0 <= c.1)%Z chunks -> (0 <= last)%Z ->
  (total_pause chunks last < stall_timeout)%Z ->
  (forall o, overall_timeout = Some o -> (total_pause chunks last < o)%Z) ->
  reduce_all (map (as_received dumps) ms) s = Some sf ->
  let (events, ending) := timed_events chunks [] 0 (Some last) in
  exists t, (t <= total_pause chunks last)%Z /\
    accumulate_sse_stream reduce terminal_error on_event stall_timeout overall_timeout (fun _ => false)
      events ending s = (Ok sf, t).
Proof.
  intros Hw Hc Hp Hl Hst Ho Hs.
  pose proof (timed_events_messages last chunks [] 0 eq_refl) as Hm.
  pose proof (timed_events_time last chunks [] 0 Hp Hl ltac:(lia)) as Ht.
  pose proof (formatted_read dumps Hd ms (map (@snd Z Bytes) chunks) Hw Hc) as Hi.
  change (iter_loop (map (@snd Z Bytes) chunks) [] = (map (as_received dumps) ms, None)) in Hi.
  destruct (timed_events chunks [] 0 (Some last)) as [events ending]. rewrite Hi in Hm. injection Hm as Hm He.
  destruct Ht as (H1 & H2 & H3 & H4). destruct ending as [p|p e|]; [|done..]. simpl in H2, H3.
  exists (0 + events_time events + p)%Z. split; [lia|]. unfold accumulate_sse_stream. apply loop_in_time; try done.
  - by rewrite Hm.
  - lia.
  - intros o Eo. specialize (Ho o Eo). lia.
Qed.

End Pipeline.
End Timed.

(** ** Concrete streams *)

Definition count_reduce (n : nat) (m : SSEMessage (JSON := False)) : Reduced nat := Continue (S n).
Definition raise_provider (n : nat) (m : SSEMessage (JSON := False)) : exn nat := Raise SSEProviderError.
Definition never : nat -> bool := fun _ => false.

(** The stream of two messages, a byte per tick. *)
Definition slow_bytes : list (Z * Bytes) := map (pair 1%Z) bytewise.

Lemma stream_reduced_witness :
  let (events, ending) := timed_events (JSON := False) slow_bytes [] 0 (Some 5%Z) in
  exists t, (t <= total_pause slow_bytes 5)%Z /\
    accumulate_sse_stream count_reduce raise_provider None 90000 None never events ending 0%nat = (Ok 2%nat, t).
Proof.
  apply (stream_reduced count_reduce raise_provider None 90000 None (dumps := no_dumps)) with (ms := [hello; empty_hello]).
  - intros [].
  - vm_compute. reflexivity.
  - vm_compute. reflexivity.
  - apply Forall_map, Forall_true. simpl. lia.
  - lia.
  - vm_compute. reflexivity.
  - done.
  - reflexivity.
Defined.

(** A second of silence after the first event, with a stall timeout of half a
    second. *)
Definition two_events : list (Z * SSEMessage (JSON := False)) := [(100%Z, hello); (1000%Z, empty_hello)].

Lemma accumulate_exact_witness : exists pre rest since polls s,
  two_events = pre ++ rest /\
  reads count_reduce None 500 (Some 2000%Z) never pre 0 0 0%nat since polls s /\
  stops count_reduce raise_provider None 500 (Some 2000%Z) never rest Silent since polls s
    (Raise (SSEStallError 500), 600%Z).
Proof. apply (accumulate_exact count_reduce raise_provider None 500 (Some 2000%Z) never ltac:(lia) two_events Silent 0%nat). Defined.

Lemma accumulate_bounded_witness :
  (snd (accumulate_sse_stream count_reduce raise_provider None 500 (Some 550%Z) never two_events Silent 0%nat) <= 550)%Z.
Proof.
  apply (accumulate_bounded count_reduce raise_provider None 500 (Some 550%Z) never ltac:(lia) two_events Silent 0%nat);
    [reflexivity | lia].
Defined.

(** Comments keep a connection alive but are not events: three of them, one a
    minute, do not keep a stall timeout of 90 seconds from going off. *)
Definition keepalive : list (Z * Bytes) := replicate 3 (60%Z, chars ": ping" ++ [nl; nl]).

Lemma keepalive_stalls :
  let (events, ending) := timed_events (JSON := False) keepalive [] 0 (Some 1%Z) in
  accumulate_sse_stream count_reduce raise_provider None 90 None never events ending 0%nat = (Raise (SSEStallError 90), 90%Z).
Proof. vm_compute. reflexivity. Qed.
