(* ===== verification/InFlight.v ===== *)
(** * Requests in flight ([src/core/gateway/in_flight_requests.py])

    The tracker that protects models in use from eviction and counts requests
    per gateway and capacity key.  What a request is labelled with for the
    admin view ([request_inflight_meta.py]) is opaque data here. *)
From stdpp Require Import base gmap sets list strings sorting relations.
From Stdlib Require Import ZArith QArith Lia.
From S2P Require Import Prelude PyFloat.
Open Scope Z_scope.

(** [(gateway_id, endpoint_category, compute_type)] *)
Notation CapacityKey := (string * string * string)%type.

Section Tracker.
Context {Meta : Type}.

Record InFlightRequestTracker := mkTracker {
  in_flight_requests : gmap string (gset string);
  gateway_by_request_id : gmap string string;
  request_routing_keys : gmap string string;
  request_capacity_keys : gmap string CapacityKey;
  inflight_by_capacity_key : gmap CapacityKey Z;
  request_timestamps : gmap string Q;
  request_meta : gmap string Meta
}.

Definition new_tracker : InFlightRequestTracker := mkTracker ∅ ∅ ∅ ∅ ∅ ∅ ∅.

Definition requests_of (t : InFlightRequestTracker) (gateway_id : string) : gset string :=
  get_or ∅ (in_flight_requests t !! gateway_id).

(** ** Operations *)

Definition register_gateway (gateway_id : string) (t : InFlightRequestTracker) : InFlightRequestTracker :=
  match in_flight_requests t !! gateway_id with
  | Some _ => t
  | None => mkTracker (<[gateway_id := ∅]> (in_flight_requests t)) (gateway_by_request_id t)
              (request_routing_keys t) (request_capacity_keys t) (inflight_by_capacity_key t)
              (request_timestamps t) (request_meta t)
  end.

Definition track_request (gateway_id request_id routing_key : string) (meta : Meta) (now : Q)
    (t : InFlightRequestTracker) : InFlightRequestTracker :=
  mkTracker (<[gateway_id := {[request_id]} ∪ requests_of t gateway_id]> (in_flight_requests t))
            (<[request_id := gateway_id]> (gateway_by_request_id t))
            (<[request_id := routing_key]> (request_routing_keys t))
            (request_capacity_keys t) (inflight_by_capacity_key t)
            (<[request_id := now]> (request_timestamps t))
            (<[request_id := meta]> (request_meta t)).

(** The limit is only logged; the answer is always [True]. *)
Definition try_reserve_slot (gateway_id endpoint_category compute_type request_id routing_key : string)
    (max_concurrent_requests : Z) (meta : Meta) (now : Q) (t : InFlightRequestTracker)
  : bool * InFlightRequestTracker :=
  let capacity_key := (gateway_id, endpoint_category, compute_type) in
  let current := get_or 0 (inflight_by_capacity_key t !! capacity_key) in
  let t' := track_request gateway_id request_id routing_key meta now t in
  (true,
   mkTracker (in_flight_requests t') (gateway_by_request_id t') (request_routing_keys t')
             (<[request_id := capacity_key]> (request_capacity_keys t'))
             (<[capacity_key := current + 1]> (inflight_by_capacity_key t'))
             (request_timestamps t') (request_meta t')).

Definition release_count (capacity_key : CapacityKey) (counts : gmap CapacityKey Z) : gmap CapacityKey Z :=
  match counts !! capacity_key with
  | Some old_count =>
      let new_count := Z.max 0 (old_count - 1) in
      if new_count =? 0 then delete capacity_key counts else <[capacity_key := new_count]> counts
  | None => counts
  end.

Definition in_map {A} (k : string) (m : gmap string A) : bool := bool_decide (is_Some (m !! k)).

Definition discard (gateway_id request_id : string) (m : gmap string (gset string)) : gmap string (gset string) :=
  match m !! gateway_id with Some rs => <[gateway_id := rs ∖ {[request_id]}]> m | None => m end.

Definition complete_request (gateway_id request_id : string) (t : InFlightRequestTracker) : InFlightRequestTracker :=
  let capacity_key := request_capacity_keys t !! request_id in
  let tracked_gateway_id := gateway_by_request_id t !! request_id in
  match capacity_key, tracked_gateway_id with
  | None, None =>
      if negb (in_map request_id (request_routing_keys t)) && negb (in_map request_id (request_timestamps t))
         && negb (in_map request_id (request_meta t))
      then t
      else mkTracker (discard gateway_id request_id (in_flight_requests t)) (gateway_by_request_id t)
             (delete request_id (request_routing_keys t)) (request_capacity_keys t) (inflight_by_capacity_key t)
             (delete request_id (request_timestamps t)) (delete request_id (request_meta t))
  | _, _ =>
      let effective_gateway_id :=
        or_else tracked_gateway_id (match capacity_key with Some k => k.1.1 | None => gateway_id end) in
      mkTracker (discard effective_gateway_id request_id (in_flight_requests t))
                (delete request_id (gateway_by_request_id t))
                (delete request_id (request_routing_keys t))
                (delete request_id (request_capacity_keys t))
                (match capacity_key with
                 | Some k => release_count k (inflight_by_capacity_key t)
                 | None => inflight_by_capacity_key t
                 end)
                (delete request_id (request_timestamps t)) (delete request_id (request_meta t))
  end.

Definition keys_in_use (t : InFlightRequestTracker) (request_ids : gset string) : gset string :=
  list_to_set (omap (fun rid => request_routing_keys t !! rid) (elements request_ids)).

Definition get_routing_keys_in_use (gateway_id : string) (t : InFlightRequestTracker) : gset string :=
  keys_in_use t (requests_of t gateway_id).

Definition gateway_ids (t : InFlightRequestTracker) : list string := map fst (map_to_list (in_flight_requests t)).

Definition get_routing_keys_in_use_globally (t : InFlightRequestTracker) : gset string :=
  ⋃ map (fun g => get_routing_keys_in_use g t) (gateway_ids t).

Definition delete_all {A} (rids : gset string) (m : gmap string A) : gmap string A :=
  filter (fun kv => kv.1 ∉ rids) m.

(** The requests it returns are to be retried. *)
Definition clear_gateway (gateway_id : string) (t : InFlightRequestTracker) : gset string * InFlightRequestTracker :=
  let affected_requests := requests_of t gateway_id in
  (affected_requests,
   mkTracker (<[gateway_id := ∅]> (in_flight_requests t))
             (delete_all affected_requests (gateway_by_request_id t))
             (delete_all affected_requests (request_routing_keys t))
             (delete_all affected_requests (request_capacity_keys t))
             (filter (fun kv => kv.1.1.1 <> gateway_id) (inflight_by_capacity_key t))
             (delete_all affected_requests (request_timestamps t))
             (delete_all affected_requests (request_meta t))).

Definition get_in_flight_count (gateway_id : string) (t : InFlightRequestTracker) : nat :=
  size (requests_of t gateway_id).

Definition get_total_in_flight (t : InFlightRequestTracker) : nat :=
  sum_list_with (fun gr => size gr.2) (map_to_list (in_flight_requests t)).

Definition get_capacity_count (gateway_id endpoint_category compute_type : string) (t : InFlightRequestTracker) : Z :=
  get_or 0 (inflight_by_capacity_key t !! (gateway_id, endpoint_category, compute_type)).

(** *** [cleanup_stale_requests] *)

Definition is_stale (t : InFlightRequestTracker) (now max_age_seconds : Q) (request_id : string) : bool :=
  match request_timestamps t !! request_id with
  | None => true
  | Some timestamp => flt max_age_seconds (fsub now timestamp)
  end.

Definition stale_requests (now max_age_seconds : Q) (t : InFlightRequestTracker) : list (string * string) :=
  List.concat (map (fun gr => map (pair gr.1) (List.filter (is_stale t now max_age_seconds) (elements gr.2)))
                   (map_to_list (in_flight_requests t))).

Definition complete_all (l : list (string * string)) (t : InFlightRequestTracker) : InFlightRequestTracker :=
  fold_left (fun t gr => complete_request gr.1 gr.2 t) l t.

Definition cleanup_stale_requests (now max_age_seconds : Q) (t : InFlightRequestTracker) : nat * InFlightRequestTracker :=
  let l := stale_requests now max_age_seconds t in (length l, complete_all l t).

(** *** [list_in_flight]: the rows in the order in which the dict and the sets
    are iterated, then sorted by start time and cut. *)
Definition row_of (t : InFlightRequestTracker) (now : Q) (gr : string * string) : Q * string * string * string :=
  (get_or now (request_timestamps t !! gr.2), gr.1, gr.2, get_or ""%string (request_routing_keys t !! gr.2)).

Definition list_in_flight (rows : list (string * string)) (limit : Z) (now : Q) (t : InFlightRequestTracker)
  : list (Q * string * string * string) :=
  take (Z.to_nat (Z.max 0 limit)) (sort_by (fun a b => flt a.1.1.1 b.1.1.1) (map (row_of t now) rows)).

(** ** What the tracker implements: a table of open requests *)

Record Request := mkRequest {
  req_gateway : string;
  req_key : string;
  req_slot : option (string * string);      (* endpoint category, compute type *)
  req_start : Q;
  req_meta : Meta
}.

Implicit Types (t : InFlightRequestTracker) (o : gmap string Request).

Definition slot_key (r : Request) : option CapacityKey :=
  (fun s => (req_gateway r, s.1, s.2)) <$> req_slot r.

Inductive Op : Type :=
  | Register (gateway_id : string)
  | Track (gateway_id request_id routing_key : string) (meta : Meta) (now : Q)
  | Reserve (gateway_id category compute request_id routing_key : string) (limit : Z) (meta : Meta) (now : Q)
  | Complete (gateway_id request_id : string)
  | Clear (gateway_id : string)
  | Cleanup (now max_age : Q).

Definition run_op (op : Op) t : InFlightRequestTracker :=
  match op with
  | Register g => register_gateway g t
  | Track g rid rk meta now => track_request g rid rk meta now t
  | Reserve g cat ct rid rk limit meta now => snd (try_reserve_slot g cat ct rid rk limit meta now t)
  | Complete g rid => complete_request g rid t
  | Clear g => snd (clear_gateway g t)
  | Cleanup now age => snd (cleanup_stale_requests now age t)
  end.

Definition expired (now max_age : Q) (r : Request) : bool := flt max_age (fsub now (req_start r)).

(** The same on the table; the gateway a completion names does not matter. *)
Definition spec_op (op : Op) o : gmap string Request :=
  match op with
  | Register _ => o
  | Track g rid rk meta now => <[rid := mkRequest g rk (o !! rid ≫= req_slot) now meta]> o
  | Reserve g cat ct rid rk _ meta now => <[rid := mkRequest g rk (Some (cat, ct)) now meta]> o
  | Complete _ rid => delete rid o
  | Clear g => filter (fun kr => req_gateway kr.2 <> g) o
  | Cleanup now age => filter (fun kr => expired now age kr.2 = false) o
  end.

(** What callers keep to: gateways have names, an open request is not tracked
    for another gateway, and no request takes two slots. *)
Definition admissible o (op : Op) : Prop :=
  match op with
  | Track g rid _ _ _ => g <> ""%string /\ forall r, o !! rid = Some r -> req_gateway r = g
  | Reserve g _ _ rid _ _ _ _ =>
      g <> ""%string /\ forall r, o !! rid = Some r -> req_gateway r = g /\ req_slot r = None
  | _ => True
  end.

Definition count_slots o (k : CapacityKey) : nat := size (filter (fun kr => slot_key kr.2 = Some k) o).

(** The tracker holds the open requests, spread over its tables. *)
Record Represents t o : Prop := {
  r_gateway : forall rid, gateway_by_request_id t !! rid = req_gateway <$> o !! rid;
  r_key : forall rid, request_routing_keys t !! rid = req_key <$> o !! rid;
  r_slot : forall rid, request_capacity_keys t !! rid = o !! rid ≫= slot_key;
  r_start : forall rid, request_timestamps t !! rid = req_start <$> o !! rid;
  r_meta : forall rid, request_meta t !! rid = req_meta <$> o !! rid;
  r_requests : forall g rid, rid ∈ requests_of t g <-> req_gateway <$> o !! rid = Some g;
  r_count : forall k, inflight_by_capacity_key t !! k =
              match count_slots o k with O => None | n => Some (Z.of_nat n) end;
  r_named : forall rid r, o !! rid = Some r -> req_gateway r <> ""%string
}.

(** *** Counting slots *)

Definition hit (k : CapacityKey) (r : option Request) : nat :=
  match r with Some r => if decide (slot_key r = Some k) then 1 else 0 | None => 0 end.

Lemma count_slots_delete o rid k : count_slots o k = (count_slots (delete rid o) k + hit k (o !! rid))%nat.
Proof.
  unfold count_slots. rewrite map_filter_delete. destruct (o !! rid) as [r|] eqn:E; simpl.
  - destruct (decide (slot_key r = Some k)) as [Hk|Hk].
    + rewrite map_size_delete_Some by (exists r; by apply map_lookup_filter_Some).
      assert (size (filter (fun kr => slot_key kr.2 = Some k) o) <> 0%nat); [|lia].
      rewrite map_size_non_empty_iff. intros H. apply (f_equal (fun m => m !! rid)) in H.
      rewrite lookup_empty in H. apply map_lookup_filter_None in H as [H|H]; [congruence | by apply (H r E)].
    + rewrite delete_id; [lia|]. apply map_lookup_filter_None. right. intros r' [= <-]%(eq_trans (eq_sym E)). done.
  - rewrite delete_id; [lia|]. apply map_lookup_filter_None. by left.
Qed.

Lemma count_slots_insert o rid r k :
  count_slots (<[rid := r]> o) k = (count_slots (delete rid o) k + hit k (Some r))%nat.
Proof. by rewrite (count_slots_delete _ rid), delete_insert_eq, lookup_insert_eq. Qed.

(** *** Each operation *)

Lemma requests_insert g rs m1 m2 m3 m4 m5 m6 m7 g' :
  requests_of (mkTracker (<[g := rs]> m1) m2 m3 m4 m5 m6 m7) g' =
    if decide (g' = g) then rs else requests_of (mkTracker m1 m2 m3 m4 m5 m6 m7) g'.
Proof.
  unfold requests_of. simpl. destruct (decide (g' = g)) as [->|Hg]; [by rewrite lookup_insert_eq|].
  by rewrite lookup_insert_ne.
Qed.

Lemma represents_new : Represents new_tracker ∅.
Proof. split; intros; simpl; by rewrite ?lookup_empty. Qed.

Lemma register_ok g t o : Represents t o -> Represents (register_gateway g t) o.
Proof.
  intros H. unfold register_gateway. destruct (in_flight_requests t !! g) as [rs|] eqn:E; [done|].
  destruct H. split; try done. intros g' rid. rewrite requests_insert, <- r_requests0.
  destruct t; simpl in *. destruct (decide (g' = g)) as [->|]; [|done].
  unfold requests_of. simpl. by rewrite E.
Qed.

(** Common to both ways of tracking: [r] replaces an open request of the same
    gateway, if there is one. *)
Lemma track_ok g rid rk meta now t o slot counts keys :
  Represents t o -> g <> ""%string ->
  (forall r, o !! rid = Some r -> req_gateway r = g) ->
  let r := mkRequest g rk slot now meta in
  keys = match slot_key r with Some k => <[rid := k]> (request_capacity_keys t) | None => request_capacity_keys t end ->
  (slot = None -> o !! rid ≫= req_slot = None) ->
  (forall k, counts !! k = match count_slots (<[rid := r]> o) k with O => None | n => Some (Z.of_nat n) end) ->
  let t' := track_request g rid rk meta now t in
  Represents (mkTracker (in_flight_requests t') (gateway_by_request_id t') (request_routing_keys t')
                keys counts (request_timestamps t') (request_meta t')) (<[rid := r]> o).
Proof.
  intros H Hg Hsame r Hkeys Hslot Hc. simpl. destruct H. split; simpl; try done.
  all: try (intros x; destruct (decide (x = rid)) as [->|]; [by rewrite !lookup_insert_eq | by rewrite !lookup_insert_ne]).
  - intros x. subst keys. unfold r, slot_key at 1. simpl. destruct (decide (x = rid)) as [->|Hx].
    + rewrite lookup_insert_eq. simpl. destruct slot as [s|]; simpl; [by rewrite lookup_insert_eq|].
      rewrite r_slot0. specialize (Hslot eq_refl). destruct (o !! rid) as [r0|]; [|done]. simpl in *.
      unfold slot_key. by rewrite Hslot.
    + rewrite lookup_insert_ne by done. destruct slot; simpl; [by rewrite lookup_insert_ne | done].
  - intros g' x. rewrite requests_insert. destruct (decide (x = rid)) as [->|Hx].
    + rewrite lookup_insert_eq. simpl. destruct (decide (g' = g)) as [->|Hg']; [split; [done | set_solver]|].
      split; [|intros [=]; congruence]. intros Hin.
      change (rid ∈ requests_of t g') in Hin.
      apply r_requests0 in Hin. destruct (o !! rid) as [r0|] eqn:E; [|done]. injection Hin as Hin.
      rewrite (Hsame r0 eq_refl) in Hin. congruence.
    + rewrite lookup_insert_ne by done. rewrite <- r_requests0.
      destruct (decide (g' = g)) as [->|]; [|by destruct t]. set_solver.
  - intros x r' Hr'. destruct (decide (x = rid)) as [->|Hx].
    + rewrite lookup_insert_eq in Hr'. by injection Hr' as <-.
    + rewrite lookup_insert_ne in Hr' by done. by eapply r_named0.
Qed.

Lemma release_count_spec t o k0 k : Represents t o -> (count_slots o k0 > 0)%nat ->
  release_count k0 (inflight_by_capacity_key t) !! k =
    match (count_slots o k - if decide (k = k0) then 1 else 0)%nat with O => None | n => Some (Z.of_nat n) end.
Proof.
  intros H Hp. unfold release_count. rewrite (r_count _ _ H k0).
  destruct (count_slots o k0) as [|n] eqn:E; [lia|].
  replace (Z.max 0 (Z.of_nat (S n) - 1)) with (Z.of_nat n) by lia.
  destruct (decide (k = k0)) as [->|Hk].
  - rewrite E. replace (S n - 1)%nat with n by lia. destruct n as [|n]; simpl.
    + by rewrite lookup_delete_eq.
    + by rewrite lookup_insert_eq.
  - rewrite Nat.sub_0_r, <- (r_count _ _ H k). destruct (Z.of_nat n =? 0);
      [by rewrite lookup_delete_ne | by rewrite lookup_insert_ne].
Qed.

Lemma elem_of_discard g rid m g' x :
  x ∈ get_or ∅ (discard g rid m !! g') <-> x ∈ get_or ∅ (m !! g') /\ ~ (g' = g /\ x = rid).
Proof.
  unfold discard. destruct (m !! g) as [rs|] eqn:E; destruct (decide (g' = g)) as [->|Hg].
  - rewrite lookup_insert_eq, E. simpl. set_solver.
  - rewrite lookup_insert_ne by done. naive_solver.
  - rewrite E. simpl. set_solver.
  - naive_solver.
Qed.

Lemma lookup_delete_fmap {A} (f : Request -> A) (m : gmap string A) o rid :
  (forall x, m !! x = f <$> o !! x) -> forall x, delete rid m !! x = f <$> delete rid o !! x.
Proof.
  intros H x. destruct (decide (x = rid)) as [->|]; [by rewrite !lookup_delete_eq | by rewrite !lookup_delete_ne].
Qed.

(** Whatever gateway is named, the request is gone. *)
Lemma complete_ok g rid t o : Represents t o -> Represents (complete_request g rid t) (delete rid o).
Proof.
  intros H. pose proof H as []. unfold complete_request. rewrite r_slot0, r_gateway0.
  destruct (o !! rid) as [r|] eqn:E; simpl.
  - assert (Hn : req_gateway r <> ""%string) by (by eapply r_named0).
    assert (Hg : or_else (Some (req_gateway r)) (match slot_key r with Some k => k.1.1 | None => g end) = req_gateway r).
    { simpl. by rewrite bool_decide_false. }
    destruct (slot_key r) as [k0|] eqn:Ek; simpl in Hg; rewrite Hg; split; simpl; try (by apply lookup_delete_fmap).
    1,5: intros x; destruct (decide (x = rid)) as [->|]; [by rewrite !lookup_delete_eq | by rewrite !lookup_delete_ne].
    1,4: intros g' x; unfold requests_of; simpl; rewrite elem_of_discard;
         change (get_or ∅ (in_flight_requests t !! g')) with (requests_of t g'); rewrite r_requests0;
         destruct (decide (x = rid)) as [->|Hx]; [rewrite lookup_delete_eq, E | rewrite lookup_delete_ne by done];
         simpl; naive_solver.
    + intros k. rewrite (release_count_spec t o k0 k H).
      2: { rewrite (count_slots_delete o rid), E. simpl. rewrite decide_True by done. lia. }
      rewrite (count_slots_delete o rid k), E. simpl. rewrite Ek. destruct (decide (k = k0)) as [->|Hk].
      * rewrite decide_True by done. by replace (count_slots (delete rid o) k0 + 1 - 1)%nat with (count_slots (delete rid o) k0) by lia.
      * rewrite decide_False by congruence. by rewrite Nat.sub_0_r, Nat.add_0_r.
    + intros x r' Hx. apply lookup_delete_Some in Hx as [_ Hx]. by eapply r_named0.
    + intros k. rewrite r_count0, (count_slots_delete o rid k), E. simpl. rewrite Ek, decide_False by done. by rewrite Nat.add_0_r.
    + intros x r' Hx. apply lookup_delete_Some in Hx as [_ Hx]. by eapply r_named0.
  - unfold in_map. rewrite r_key0, r_start0, r_meta0, E. simpl.
    by rewrite delete_id.
Qed.

(** *** Clearing a gateway and stale requests *)

Lemma lookup_delete_all {A} rids (m : gmap string A) x :
  delete_all rids m !! x = if decide (x ∈ rids) then None else m !! x.
Proof.
  unfold delete_all. destruct (decide (x ∈ rids)) as [Hx|Hx].
  - apply map_lookup_filter_None. right. intros a _ Hn. by apply Hn.
  - destruct (m !! x) as [a|] eqn:E; [by apply map_lookup_filter_Some|].
    apply map_lookup_filter_None. by left.
Qed.

Lemma lookup_clear g o x :
  spec_op (Clear g) o !! x =
    match o !! x with Some r => if decide (req_gateway r = g) then None else Some r | None => None end.
Proof.
  cbn [spec_op]. destruct (o !! x) as [r|] eqn:E; [|apply map_lookup_filter_None; by left].
  destruct (decide (req_gateway r = g)) as [Hr|Hr]; [|by apply map_lookup_filter_Some].
  apply map_lookup_filter_None. right. intros r' Hr' Hn. apply Hn. simpl. congruence.
Qed.

Lemma lookup_cleanup now age o x :
  spec_op (Cleanup now age) o !! x =
    match o !! x with Some r => if expired now age r then None else Some r | None => None end.
Proof.
  cbn [spec_op]. destruct (o !! x) as [r|] eqn:E; [|apply map_lookup_filter_None; by left].
  destruct (expired now age r) eqn:Er; [|by apply map_lookup_filter_Some].
  apply map_lookup_filter_None. right. intros r' Hr' Hn. simpl in Hn. congruence.
Qed.

Lemma count_clear g o k :
  count_slots (spec_op (Clear g) o) k = if decide (k.1.1 = g) then O else count_slots o k.
Proof.
  unfold count_slots. cbn [spec_op]. rewrite map_filter_filter. destruct (decide (k.1.1 = g)) as [Hk|Hk].
  - apply map_size_empty_iff, map_empty. intros x. apply map_lookup_filter_None. right. intros r _ [H1 H2].
    simpl in *. unfold slot_key in H1. destruct (req_slot r); [|done]. injection H1 as <-. by apply H2.
  - f_equal. apply map_filter_ext. intros x r _. simpl. split; [by intros [? _]|]. intros H. split; [done|].
    unfold slot_key in H. destruct (req_slot r); [|done]. by injection H as <-.
Qed.

Lemma clear_ok g t o : Represents t o ->
  Represents (snd (clear_gateway g t)) (spec_op (Clear g) o).
Proof.
  intros H. pose proof H as []. cbn [clear_gateway snd].
  assert (Hf : forall x, (x ∈ requests_of t g <-> exists r, o !! x = Some r /\ req_gateway r = g)).
  { intros x. rewrite r_requests0. destruct (o !! x); naive_solver. }
  assert (Hm : forall A (f : Request -> option A) (m : gmap string A), (forall x, m !! x = o !! x ≫= f) ->
    forall x, delete_all (requests_of t g) m !! x = spec_op (Clear g) o !! x ≫= f).
  { intros A f m Hm x. rewrite lookup_delete_all, lookup_clear, Hm.
    destruct (decide (x ∈ requests_of t g)) as [Hx|Hx]; rewrite Hf in Hx.
    - destruct Hx as (r & -> & Hr). by rewrite decide_True.
    - destruct (o !! x) as [r|] eqn:E; [|done]. rewrite decide_False; [done|]. intros Hr. apply Hx. by exists r. }
  assert (Hm' : forall A (f : Request -> A) (m : gmap string A), (forall x, m !! x = f <$> o !! x) ->
    forall x, delete_all (requests_of t g) m !! x = f <$> spec_op (Clear g) o !! x).
  { intros A f m Hm' x. rewrite (Hm A (fun r => Some (f r)) m); [by destruct (spec_op _ _ !! x)|].
    intros y. rewrite Hm'. by destruct (o !! y). }
  split; cbn -[spec_op]; try (by apply Hm').
  - by apply Hm.
  - intros g' x. rewrite requests_insert, lookup_clear. destruct (decide (g' = g)) as [->|Hg].
    + split; [set_solver|]. destruct (o !! x) as [r|]; [|done].
      destruct (decide (req_gateway r = g)); [done|]. intros [=]. congruence.
    + change (requests_of (mkTracker (in_flight_requests t) _ _ _ _ _ _) g') with (requests_of t g').
      rewrite r_requests0. destruct (o !! x) as [r|]; [|done].
      destruct (decide (req_gateway r = g)); [|done]. simpl. split; [intros [=]; congruence | done].
  - intros k. rewrite count_clear. destruct (decide (k.1.1 = g)) as [Hk|Hk].
    + apply map_lookup_filter_None. right. intros n _ Hn. by apply Hn.
    + rewrite <- r_count0. destruct (inflight_by_capacity_key t !! k) as [n|] eqn:E.
      * by apply map_lookup_filter_Some.
      * apply map_lookup_filter_None. by left.
  - intros x r. rewrite lookup_clear. destruct (o !! x) as [r0|] eqn:E; [|done].
    destruct (decide _); [done|]. intros [= <-]. by eapply r_named0.
Qed.

Lemma complete_all_ok l : forall t o, Represents t o ->
  Represents (complete_all l t) (fold_left (fun o gr => delete gr.2 o) l o).
Proof. induction l as [|gr l IH]; intros t o H; simpl; [done|]. by apply IH, complete_ok. Qed.

Lemma lookup_delete_list (l : list (string * string)) : forall o x,
  fold_left (fun o gr => delete gr.2 o) l o !! x = if decide (x ∈ map snd l) then None else o !! x.
Proof.
  induction l as [|gr l IH]; intros o x; simpl; [by destruct (decide (x ∈ [])) as [H%elem_of_nil|]|].
  rewrite IH. destruct (decide (x ∈ map snd l)) as [Hl|Hl], (decide (x ∈ gr.2 :: map snd l)) as [Hg|Hg]; try done.
  - exfalso. apply Hg. by right.
  - apply elem_of_cons in Hg as [->|?]; [by rewrite lookup_delete_eq | done].
  - rewrite lookup_delete_ne; [done|]. intros <-. apply Hg. by left.
Qed.

Lemma elem_of_stale now age t o g rid : Represents t o ->
  (g, rid) ∈ stale_requests now age t <-> exists r, o !! rid = Some r /\ req_gateway r = g /\ expired now age r = true.
Proof.
  intros H. pose proof H as []. unfold stale_requests. rewrite list_elem_of_In, in_concat. split.
  - intros (l & Hl & Hin). apply in_map_iff in Hl as ([g' rs] & <- & Hg). simpl in Hin.
    apply in_map_iff in Hin as (x & [= <- <-] & Hx). apply filter_In in Hx as [Hx Hs].
    apply list_elem_of_In, elem_of_elements in Hx. apply list_elem_of_In, elem_of_map_to_list in Hg.
    assert (Hr : x ∈ requests_of t g') by (unfold requests_of; by rewrite Hg).
    apply r_requests0 in Hr. destruct (o !! x) as [r|] eqn:E; [|done]. injection Hr as Hr. exists r.
    split; [done|]. split; [done|]. unfold is_stale in Hs. rewrite r_start0, E in Hs. exact Hs.
  - intros (r & Hr & Hg & He). assert (Hin : rid ∈ requests_of t g) by (apply r_requests0; by rewrite Hr, <- Hg).
    unfold requests_of in Hin. destruct (in_flight_requests t !! g) as [rs|] eqn:E; [|simpl in Hin; set_solver].
    exists (map (pair g) (List.filter (is_stale t now age) (elements rs))). split.
    + apply in_map_iff. exists (g, rs). split; [done|]. by apply list_elem_of_In, elem_of_map_to_list.
    + apply in_map_iff. exists rid. split; [done|]. apply filter_In. split.
      * by apply list_elem_of_In, elem_of_elements.
      * unfold is_stale. by rewrite r_start0, Hr.
Qed.

Lemma cleanup_ok now age t o : Represents t o ->
  Represents (snd (cleanup_stale_requests now age t)) (spec_op (Cleanup now age) o).
Proof.
  intros H. simpl. pose proof (complete_all_ok (stale_requests now age t) t o H) as Hc.
  assert (E : fold_left (fun o gr => delete gr.2 o) (stale_requests now age t) o
              = spec_op (Cleanup now age) o); [|by rewrite E in Hc].
  apply map_eq. intros x. rewrite lookup_delete_list, lookup_cleanup.
  destruct (decide (x ∈ map snd (stale_requests now age t))) as [Hx|Hx].
  - apply list_elem_of_fmap in Hx as ([g rid] & -> & Hs). simpl.
    apply (elem_of_stale now age t o g rid H) in Hs as (r & -> & _ & He). by rewrite He.
  - destruct (o !! x) as [r|] eqn:E; [|done].
    destruct (expired now age r) eqn:Ee; [|done]. exfalso. apply Hx. apply list_elem_of_fmap.
    exists (req_gateway r, x). split; [done|]. apply (elem_of_stale now age t o _ _ H). by exists r.
Qed.

(** ** Runs *)

Fixpoint admissible_all o (ops : list Op) : Prop :=
  match ops with
  | [] => True
  | op :: ops' => admissible o op /\ admissible_all (spec_op op o) ops'
  end.

Definition run_ops (ops : list Op) t : InFlightRequestTracker := fold_left (fun t op => run_op op t) ops t.
Definition spec_ops (ops : list Op) o : gmap string Request := fold_left (fun o op => spec_op op o) ops o.

Lemma reserve_ok g cat ct rid rk limit meta now t o :
  Represents t o -> admissible o (Reserve g cat ct rid rk limit meta now) ->
  Represents (run_op (Reserve g cat ct rid rk limit meta now) t) (spec_op (Reserve g cat ct rid rk limit meta now) o).
Proof.
  intros H [Hg Hr]. apply track_ok; try done; [intros r Er; by apply Hr|].
  intros k. rewrite count_slots_insert. pose proof (count_slots_delete o rid k) as Hd.
  assert (Hh : hit k (o !! rid) = O).
  { destruct (o !! rid) as [r|]; [|done]. simpl. unfold slot_key. by rewrite (proj2 (Hr r eq_refl)). }
  assert (Hs : slot_key (mkRequest g rk (Some (cat, ct)) now meta) = Some (g, cat, ct)) by done.
  cbn [hit]. rewrite Hs, !(r_count _ _ H). destruct (decide (k = (g, cat, ct))) as [->|Hk].
  - rewrite lookup_insert_eq, decide_True by done. rewrite Hd, Hh, Nat.add_0_r.
    destruct (count_slots (delete rid o) (g, cat, ct)) as [|n]; [done|]. simpl. f_equal. lia.
  - rewrite lookup_insert_ne by done. rewrite decide_False by congruence.
    by rewrite (r_count _ _ H), Hd, Hh.
Qed.

Lemma track_op_ok g rid rk meta now t o :
  Represents t o -> admissible o (Track g rid rk meta now) ->
  Represents (run_op (Track g rid rk meta now) t) (spec_op (Track g rid rk meta now) o).
Proof.
  intros H [Hg Hr]. cbn [run_op spec_op].
  assert (Hk : slot_key (mkRequest g rk (o !! rid ≫= req_slot) now meta) = o !! rid ≫= slot_key).
  { destruct (o !! rid) as [r|] eqn:E; [|done]. unfold slot_key. simpl. by rewrite (Hr r eq_refl). }
  apply (track_ok g rid rk meta now t o (o !! rid ≫= req_slot)); try done.
  - rewrite Hk, <- (r_slot _ _ H). destruct (request_capacity_keys t !! rid) as [k|] eqn:E; [|done].
    by rewrite insert_id.
  - intros k. rewrite (r_count _ _ H), count_slots_insert, (count_slots_delete o rid k). unfold hit. rewrite Hk.
    by destruct (o !! rid).
Qed.

Lemma run_op_ok op t o : Represents t o -> admissible o op -> Represents (run_op op t) (spec_op op o).
Proof.
  intros H Ha. destruct op.
  - by apply register_ok.
  - by apply track_op_ok.
  - by apply reserve_ok.
  - by apply complete_ok.
  - by apply clear_ok.
  - by apply cleanup_ok.
Qed.

Lemma run_ops_ok ops : forall t o, Represents t o -> admissible_all o ops ->
  Represents (run_ops ops t) (spec_ops ops o).
Proof.
  induction ops as [|op ops IH]; intros t o H; simpl; [done|]. intros [Ha Hs].
  apply IH; [by apply run_op_ok | done].
Qed.

(** *** What the tracker answers *)

Lemma elem_of_keys_in_use t o g rk : Represents t o ->
  rk ∈ get_routing_keys_in_use g t <->
    exists rid r, o !! rid = Some r /\ req_gateway r = g /\ req_key r = rk.
Proof.
  intros H. unfold get_routing_keys_in_use, keys_in_use. rewrite elem_of_list_to_set, list_elem_of_omap. split.
  - intros (rid & Hin & Hk). apply elem_of_elements, (r_requests _ _ H) in Hin. rewrite (r_key _ _ H) in Hk.
    destruct (o !! rid) as [r|] eqn:E; [|done]. injection Hin as Hin. injection Hk as Hk. by exists rid, r.
  - intros (rid & r & E & Hg & Hk). exists rid. split.
    + apply elem_of_elements, (r_requests _ _ H). by rewrite E, <- Hg.
    + by rewrite (r_key _ _ H), E, <- Hk.
Qed.

Lemma elem_of_keys_globally t o rk : Represents t o ->
  rk ∈ get_routing_keys_in_use_globally t <-> exists rid r, o !! rid = Some r /\ req_key r = rk.
Proof.
  intros H. unfold get_routing_keys_in_use_globally. rewrite elem_of_union_list. split.
  - intros (ks & Hks & Hin). apply list_elem_of_fmap in Hks as (g & -> & _).
    apply (elem_of_keys_in_use t o g rk H) in Hin as (rid & r & E & _ & Hk). by exists rid, r.
  - intros (rid & r & E & Hk). exists (get_routing_keys_in_use (req_gateway r) t). split.
    + apply list_elem_of_fmap. exists (req_gateway r). split; [done|]. unfold gateway_ids.
      assert (Hin : rid ∈ requests_of t (req_gateway r)) by (apply (r_requests _ _ H); by rewrite E).
      unfold requests_of in Hin. destruct (in_flight_requests t !! req_gateway r) as [rs|] eqn:Er; [|simpl in Hin; set_solver].
      apply list_elem_of_fmap. exists (req_gateway r, rs). split; [done|]. by apply elem_of_map_to_list.
    + apply (elem_of_keys_in_use t o _ rk H). by exists rid, r.
Qed.

Definition on_gateway (g : string) o : gmap string Request := filter (fun kr => req_gateway kr.2 = g) o.

Lemma size_of_requests t o g : Represents t o -> get_in_flight_count g t = size (on_gateway g o).
Proof.
  intros H. unfold get_in_flight_count. rewrite <- size_dom. f_equal. apply leibniz_equiv. intros rid.
  rewrite (r_requests _ _ H), elem_of_dom. unfold on_gateway. split.
  - intros Hr. destruct (o !! rid) as [r|] eqn:E; [|done]. injection Hr as Hr. exists r. by apply map_lookup_filter_Some.
  - intros [r Hr]. apply map_lookup_filter_Some in Hr as [-> Hr]. by rewrite <- Hr.
Qed.

Lemma NoDup_disjoint (l : list (string * list string)) :
  NoDup (map fst l) -> Forall (fun gs => NoDup gs.2) l ->
  (forall g1 s1 g2 s2 x, (g1, s1) ∈ l -> (g2, s2) ∈ l -> x ∈ s1 -> x ∈ s2 -> g1 = g2) ->
  NoDup (List.concat (map snd l)).
Proof.
  induction l as [|[g s] l IH]; intros Hn Hs Hd; simpl; [constructor|]. apply NoDup_cons in Hn as [Hg Hn].
  inversion Hs as [|? ? Hs1 Hs2]; subst. apply NoDup_app. split; [done|]. split.
  - intros x Hx (rs & Hrs & Hin)%list_elem_of_In%in_concat.
    apply in_map_iff in Hrs as ([g2 s2] & <- & H2). apply list_elem_of_In in H2, Hin.
    apply Hg. apply list_elem_of_fmap. exists (g2, s2). split; [|done]. simpl.
    apply (Hd g s g2 s2 x); [by left | by right | done..].
  - apply IH; [done..|]. intros g1 s1 g2 s2 x H1 H2. apply Hd; by right.
Qed.

(** The tracked requests, those that [p] accepts. *)
Definition tracked_by (p : string -> bool) t : list string :=
  List.concat (map (fun gr : string * gset string => List.filter p (elements gr.2)) (map_to_list (in_flight_requests t))).

Lemma tracked_by_spec p t o : Represents t o ->
  NoDup (tracked_by p t) /\ (forall x, x ∈ tracked_by p t <-> is_Some (o !! x) /\ p x = true).
Proof.
  intros H. unfold tracked_by. set (l := map_to_list (in_flight_requests t)).
  assert (Hin : forall g rs x, (g, rs) ∈ l -> x ∈ rs -> req_gateway <$> o !! x = Some g).
  { intros g rs x Hl Hx. apply elem_of_map_to_list in Hl. apply (r_requests _ _ H). unfold requests_of. by rewrite Hl. }
  split.
  - assert (E : map (fun gr : string * gset string => List.filter p (elements gr.2)) l
                = map snd (map (fun gr => (gr.1, List.filter p (elements gr.2))) l)) by (by rewrite map_map).
    rewrite E. apply NoDup_disjoint.
    + rewrite map_map. apply NoDup_fst_map_to_list.
    + apply Forall_map, Forall_true. intros gr. simpl. apply NoDup_lfilter, NoDup_elements.
    + intros g1 s1 g2 s2 x ([g1' r1] & [= -> ->] & H1)%list_elem_of_fmap ([g2' r2] & [= -> ->] & H2)%list_elem_of_fmap Hx1 Hx2.
      apply elem_of_lfilter in Hx1 as [Hx1 _], Hx2 as [Hx2 _]. apply elem_of_elements in Hx1, Hx2.
      pose proof (Hin _ _ _ H1 Hx1). pose proof (Hin _ _ _ H2 Hx2). simpl. congruence.
  - intros x. rewrite list_elem_of_In, in_concat. split.
    + intros (rs & Hrs & Hx). apply in_map_iff in Hrs as ([g s] & <- & Hl). apply list_elem_of_In in Hl, Hx.
      apply elem_of_lfilter in Hx as [Hx Hp]. apply elem_of_elements in Hx.
      pose proof (Hin g s x Hl Hx) as Hg. destruct (o !! x); [by split; [eexists|] | done].
    + intros [[r Hr] Hp]. assert (Hg : x ∈ requests_of t (req_gateway r)) by (apply (r_requests _ _ H); by rewrite Hr).
      unfold requests_of in Hg. destruct (in_flight_requests t !! req_gateway r) as [rs|] eqn:E; [|simpl in Hg; set_solver].
      exists (List.filter p (elements rs)). split.
      * apply in_map_iff. exists (req_gateway r, rs). split; [done|]. by apply list_elem_of_In, elem_of_map_to_list.
      * apply list_elem_of_In, elem_of_lfilter. split; [by apply elem_of_elements | done].
Qed.

Lemma size_by_list (l : list string) (m : gmap string Request) :
  NoDup l -> (forall x, x ∈ l <-> is_Some (m !! x)) -> length l = size m.
Proof.
  intros Hn Hl. rewrite <- size_dom, <- (size_list_to_set (C := gset string) _ Hn). f_equal. apply leibniz_equiv.
  intros x. by rewrite elem_of_list_to_set, elem_of_dom.
Qed.

Lemma total_is_size t o : Represents t o -> get_total_in_flight t = size o.
Proof.
  intros H. destruct (tracked_by_spec (fun _ => true) t o H) as [Hn Hin].
  rewrite <- (size_by_list _ o Hn) by (intros x; rewrite Hin; naive_solver).
  unfold get_total_in_flight, tracked_by. induction (map_to_list (in_flight_requests t)) as [|gr l IH]; [done|].
  simpl. by rewrite length_app, lfilter_true, IH.
Qed.

Lemma stale_count now age t o : Represents t o ->
  length (stale_requests now age t) = size (filter (fun kr => expired now age kr.2 = true) o).
Proof.
  intros H. destruct (tracked_by_spec (is_stale t now age) t o H) as [Hn Hin].
  rewrite <- (size_by_list _ (filter (fun kr => expired now age kr.2 = true) o) Hn).
  - unfold stale_requests, tracked_by. induction (map_to_list (in_flight_requests t)) as [|gr l IH]; [done|].
    simpl. by rewrite !length_app, length_map, IH.
  - intros x. rewrite Hin. unfold is_stale. rewrite (r_start _ _ H). split.
    + intros [[r Hr] He]. rewrite Hr in He. exists r. by apply map_lookup_filter_Some.
    + intros [r Hr]. apply map_lookup_filter_Some in Hr as [Hr He]. rewrite Hr. split; [by eexists | exact He].
Qed.

Lemma capacity_is_count t o g cat ct : Represents t o ->
  get_capacity_count g cat ct t = Z.of_nat (count_slots o (g, cat, ct)).
Proof. intros H. unfold get_capacity_count. rewrite (r_count _ _ H). by destruct (count_slots o (g, cat, ct)). Qed.

(** C19: The tracker of requests in flight refines a table of open requests.
    As long as a request is not tracked for two gateways at once, after any
    sequence of operations its dictionaries and sets represent the table that
    the same operations make of an empty one, and the queries that count or
    collect are answered from it: the models in use on a gateway, which an
    eviction must spare, are those of the open requests on it; so are the
    models in use anywhere, the requests per gateway and in total, and the
    slots taken per capacity key. *)
Theorem tracker_refines_table ops :
  admissible_all ∅ ops ->
  let t := run_ops ops new_tracker in
  let o := spec_ops ops ∅ in
  Represents t o /\
  (forall g rk, rk ∈ get_routing_keys_in_use g t <->
     exists rid r, o !! rid = Some r /\ req_gateway r = g /\ req_key r = rk) /\
  (forall rk, rk ∈ get_routing_keys_in_use_globally t <-> exists rid r, o !! rid = Some r /\ req_key r = rk) /\
  (forall g, get_in_flight_count g t = size (on_gateway g o)) /\
  get_total_in_flight t = size o /\
  (forall g cat ct, get_capacity_count g cat ct t = Z.of_nat (count_slots o (g, cat, ct))).
Proof.
  intros Ha t o. assert (H : Represents t o) by (apply run_ops_ok; [apply represents_new | done]).
  split; [done|]. split; [|split; [|split; [|split]]].
  - intros g rk. by apply elem_of_keys_in_use.
  - intros rk. by apply elem_of_keys_globally.
  - intros g. by apply size_of_requests.
  - by apply total_is_size.
  - intros g cat ct. by apply capacity_is_count.
Qed.

Lemma complete_unknown g rid t o : Represents t o -> o !! rid = None -> complete_request g rid t = t.
Proof.
  intros H E. unfold complete_request, in_map.
  by rewrite (r_slot _ _ H), (r_gateway _ _ H), (r_key _ _ H), (r_start _ _ H), (r_meta _ _ H), E.
Qed.

(** Completion and cleanup are exact.  Completing a request removes it
    and nothing else, whichever gateway the caller names, and a second
    completion changes nothing; cleaning up removes exactly the requests older
    than the limit and returns how many they were; clearing a gateway returns
    and removes exactly its requests. *)
Theorem removal_exact ops :
  admissible_all ∅ ops ->
  let t := run_ops ops new_tracker in
  let o := spec_ops ops ∅ in
  (forall g g' rid, Represents (complete_request g rid t) (delete rid o) /\
     complete_request g' rid (complete_request g rid t) = complete_request g rid t) /\
  (forall now age, let (n, t') := cleanup_stale_requests now age t in
     Represents t' (filter (fun kr => expired now age kr.2 = false) o) /\
     n = size (filter (fun kr => expired now age kr.2 = true) o)) /\
  (forall g, let (rids, t') := clear_gateway g t in
     rids = dom (on_gateway g o) /\ Represents t' (filter (fun kr => req_gateway kr.2 <> g) o)).
Proof.
  intros Ha t o. assert (H : Represents t o) by (apply run_ops_ok; [apply represents_new | done]).
  split; [|split].
  - intros g g' rid. pose proof (complete_ok g rid t o H) as Hc. split; [done|].
    apply (complete_unknown g' rid _ _ Hc). apply lookup_delete_eq.
  - intros now age. split; [exact (cleanup_ok now age t o H) | by apply stale_count].
  - intros g. split; [|exact (clear_ok g t o H)]. apply leibniz_equiv. intros rid.
    rewrite (r_requests _ _ H), elem_of_dom. unfold on_gateway. split.
    + intros Hr. destruct (o !! rid) as [r|] eqn:E; [|done]. injection Hr as Hr. exists r. by apply map_lookup_filter_Some.
    + intros [r Hr]. apply map_lookup_filter_Some in Hr as [-> Hr]. by rewrite <- Hr.
Qed.

End Tracker.

(** ** Concrete runs *)

Definition some_ops : list (Op (Meta := unit)) :=
  [Register "g1"; Track "g1" "r1" "llama" tt 10; Reserve "g1" "generation" "gpu" "r2" "qwen" 1 tt 20;
   Reserve "g1" "generation" "gpu" "r3" "qwen" 1 tt 700; Complete "elsewhere" "r2"; Cleanup 705 600].

Lemma some_ops_admissible : admissible_all ∅ some_ops.
Proof. repeat split; try discriminate; intros r Hr; vm_compute in Hr; discriminate Hr. Qed.

(** [r1] expired; [r3] is open and counted although the limit of 1 was
    reached when it was tracked. *)
Lemma tracker_refines_table_witness :
  let t := run_ops some_ops new_tracker in
  get_total_in_flight t = 1%nat /\ get_capacity_count "g1" "generation" "gpu" t = 1 /\
  "qwen"%string ∈ get_routing_keys_in_use "g1" t.
Proof.
  destruct (tracker_refines_table some_ops some_ops_admissible) as (_ & H1 & _ & _ & H4 & H5).
  cbv zeta. rewrite H4, H5. split; [vm_compute; reflexivity|]. split; [vm_compute; reflexivity|].
  apply H1. exists "r3"%string, (mkRequest "g1" "qwen" (Some ("generation", "gpu")) 700 tt).
  split; [vm_compute; reflexivity | split; reflexivity].
Defined.

Lemma removal_exact_witness :
  let t := run_ops some_ops new_tracker in
  complete_request "g2" "r3" (complete_request "g1" "r3" t) = complete_request "g1" "r3" t /\
  fst (cleanup_stale_requests 2000 600 t) = 1%nat.
Proof.
  destruct (removal_exact some_ops some_ops_admissible) as (H1 & H2 & _). split; [apply (H1 "g1" "g2" "r3")%string|].
  specialize (H2 2000%Q 600%Q). destruct (cleanup_stale_requests _ _ _) as [n t'] eqn:E. destruct H2 as [_ H2].
  simpl. rewrite H2. vm_compute. reflexivity.
Defined.

(** A request that is tracked for a second gateway before it completed on the
    first stays in the set of the first for good: neither its completion nor
    any cleanup removes it, and the total never returns to zero. *)
Lemma moved_request_lingers :
  let t := run_ops [Track "g1" "r" "llama" tt 0; Track "g2" "r" "llama" tt 1; Complete "g2" "r"]
             (new_tracker (Meta := unit)) in
  get_total_in_flight t = 1%nat /\
  (forall now age, cleanup_stale_requests now age t = (1%nat, t)) /\
  (forall g, complete_request g "r" t = t).
Proof. vm_compute. repeat split. Qed.

(** When the first gateway is then shut down, the request loses its
    protection on the second, where it is still in flight. *)
Lemma moved_request_unprotected :
  let t := run_ops [Track "g1" "r" "llama" tt 0; Track "g2" "r" "llama" tt 1; Clear "g1"]
             (new_tracker (Meta := unit)) in
  get_in_flight_count "g2" t = 1%nat /\ get_routing_keys_in_use "g2" t = ∅.
Proof. vm_compute. repeat split. Qed.
