(* ===== verification/GatewayTracker.v ===== *)
(** * Gateways and their requests ([src/core/gateway/status_registry.py],
    [src/core/gateway_tracker.py],
    [systems/federation/remote/api/slot_management.py])

    The registry of gateway availability, the facade that joins it with the
    tracker of requests in flight, and the slot a federated request holds
    while it is served. *)
From stdpp Require Import base gmap sets list strings.
From Stdlib Require Import ZArith QArith Lia.
From S2P Require Import Prelude PyFloat ModelId InFlight.
Open Scope Z_scope.

(** ** [GatewayStatusRegistry] *)

Record GatewayInfo := mkInfo {
  info_gateway_id : string;
  host : string;
  port : Z;
  available : bool;
  draining : bool;
  last_seen : Q;
  shutdown_timestamp : option Q;
  drain_timestamp : option Q
}.

Notation Registry := (list (string * GatewayInfo)).

Definition status_register (gateway_id host : string) (port : Z) (now : Q) (s : Registry) : Registry :=
  dset gateway_id (mkInfo gateway_id host port true false now None None) s.

(** [timestamp or time.time()] *)
Definition or_now (timestamp : option Q) (now : Q) : Q :=
  match timestamp with Some q => if Qeq_bool q 0 then now else q | None => now end.

Definition status_draining (gateway_id : string) (timestamp : option Q) (now : Q) (s : Registry) : Registry :=
  match dget gateway_id s with
  | None => s
  | Some g => dset gateway_id (mkInfo (info_gateway_id g) (host g) (port g) false true (last_seen g)
                                 (shutdown_timestamp g) (Some (or_now timestamp now))) s
  end.

Definition status_shutdown (gateway_id : string) (timestamp : Q) (s : Registry) : Registry :=
  match dget gateway_id s with
  | None => s
  | Some g => dset gateway_id (mkInfo (info_gateway_id g) (host g) (port g) false false (last_seen g)
                                 (Some timestamp) (drain_timestamp g)) s
  end.

Definition get_available_gateways (s : Registry) : list GatewayInfo :=
  List.filter (fun g => available g && negb (draining g)) (map snd s).

Definition is_available (gateway_id : string) (s : Registry) : bool :=
  match dget gateway_id s with Some g => available g | None => false end.

(** ** The facade *)

Section Facade.
Context {Meta : Type}.

Record GatewayTracker := mkGatewayTracker {
  status : Registry;
  in_flight : InFlightRequestTracker (Meta := Meta)
}.

Inductive GatewayOp : Type :=
  | RegisterGateway (gateway_id host : string) (port : Z) (now : Q)
  | MarkDraining (gateway_id : string) (timestamp : option Q) (now : Q)
  | MarkShutdown (gateway_id : string) (timestamp : Q)
  | Requests (op : Op (Meta := Meta)).      (* delegated to the tracker *)

Definition mark_shutdown (gateway_id : string) (timestamp : Q) (t : GatewayTracker) : gset string * GatewayTracker :=
  let (affected_requests, fl) := clear_gateway gateway_id (in_flight t) in
  (affected_requests, mkGatewayTracker (status_shutdown gateway_id timestamp (status t)) fl).

Definition run_gateway_op (op : GatewayOp) (t : GatewayTracker) : GatewayTracker :=
  match op with
  | RegisterGateway g h p now =>
      mkGatewayTracker (status_register g h p now (status t)) (register_gateway g (in_flight t))
  | MarkDraining g ts now => mkGatewayTracker (status_draining g ts now (status t)) (in_flight t)
  | MarkShutdown g ts => snd (mark_shutdown g ts t)
  | Requests op => mkGatewayTracker (status t) (run_op op (in_flight t))
  end.

Definition run_gateway_ops (ops : list GatewayOp) : GatewayTracker :=
  fold_left (fun t op => run_gateway_op op t) ops (mkGatewayTracker [] new_tracker).

(** ** [SlotContext] *)

Record SlotContext := mkSlot {
  slot_gateway_id : option string;
  model_str : string;
  slot_request_id : string;
  endpoint_category : string;
  compute_type : string;
  reserved : bool;
  slot_routing_key : option string
}.

(** Without a gateway or with an id that does not parse the request proceeds
    without a slot. *)
Definition try_reserve (max_concurrent_requests : Z) (meta : Meta) (now : Q) (c : SlotContext)
    (t : InFlightRequestTracker) : bool * SlotContext * InFlightRequestTracker :=
  match slot_gateway_id c with
  | Some gateway_id =>
      if bool_decide (gateway_id = ""%string) then (true, c, t)
      else match parse (model_str c) with
           | Raise _ => (true, c, t)
           | Ok m =>
               let (ok, t') := try_reserve_slot gateway_id (endpoint_category c) (compute_type c)
                                 (slot_request_id c) (routing_key m) max_concurrent_requests meta now t in
               (ok, mkSlot (slot_gateway_id c) (model_str c) (slot_request_id c) (endpoint_category c)
                      (compute_type c) ok (Some (routing_key m)), t')
           end
  | None => (true, c, t)
  end.

Definition slot_release (c : SlotContext) (t : InFlightRequestTracker (Meta := Meta))
  : SlotContext * InFlightRequestTracker :=
  match slot_gateway_id c with
  | Some gateway_id =>
      if negb (reserved c) || bool_decide (gateway_id = ""%string) then (c, t)
      else (mkSlot (slot_gateway_id c) (model_str c) (slot_request_id c) (endpoint_category c)
              (compute_type c) false (slot_routing_key c),
            complete_request gateway_id (slot_request_id c) t)
  | None => (c, t)
  end.

(** ** Availability *)

(** Whether [g] is available after [ops]: the last event about it decides. *)
Definition last_says (g : string) (ops : list GatewayOp) : bool :=
  fold_left (fun b op =>
    match op with
    | RegisterGateway g' _ _ _ => if decide (g' = g) then true else b
    | MarkDraining g' _ _ | MarkShutdown g' _ => if decide (g' = g) then false else b
    | Requests _ => b
    end) ops false.

Record registry_ok (s : Registry) : Prop := {
  ok_keys : NoDup (dkeys s);
  ok_info : forall g i, dget g s = Some i -> info_gateway_id i = g /\ (draining i = true -> available i = false)
}.

Lemma registry_dset g i s : registry_ok s -> info_gateway_id i = g -> (draining i = true -> available i = false) ->
  registry_ok (dset g i s).
Proof.
  intros [Hk Hi] Hg Hd. split; [by apply NoDup_dkeys_dset|]. intros g' i' H.
  destruct (decide (g' = g)) as [->|Hne].
  - rewrite dget_dset_eq in H. by injection H as <-.
  - rewrite dget_dset_ne in H by done. by apply Hi.
Qed.

Lemma is_available_dset g i s g' :
  is_available g' (dset g i s) = if decide (g = g') then available i else is_available g' s.
Proof.
  unfold is_available. destruct (decide (g = g')) as [->|Hg]; [by rewrite dget_dset_eq | by rewrite dget_dset_ne].
Qed.

Lemma run_status op t : registry_ok (status t) ->
  registry_ok (status (run_gateway_op op t)) /\
  forall g, is_available g (status (run_gateway_op op t)) =
    match op with
    | RegisterGateway g' _ _ _ => if decide (g' = g) then true else is_available g (status t)
    | MarkDraining g' _ _ | MarkShutdown g' _ => if decide (g' = g) then false else is_available g (status t)
    | Requests _ => is_available g (status t)
    end.
Proof.
  intros H. assert (Hun : forall g' g, dget g' (status t) = None ->
    is_available g (status t) = if decide (g' = g) then false else is_available g (status t)).
  { intros g' g Hg. destruct (decide (g' = g)) as [->|]; [|done]. unfold is_available. by rewrite Hg. }
  destruct op as [g' h p now|g' ts now|g' ts|op]; simpl.
  - split; [by apply registry_dset|]. intros g. apply is_available_dset.
  - unfold status_draining. destruct (dget g' (status t)) as [i|] eqn:E; [|by auto].
    destruct (ok_info _ H g' i E) as [Hi _]. split; [by apply registry_dset|]. intros g. apply is_available_dset.
  - unfold status_shutdown. destruct (dget g' (status t)) as [i|] eqn:E; [|by auto].
    destruct (ok_info _ H g' i E) as [Hi _]. split; [by apply registry_dset|]. intros g. apply is_available_dset.
  - by split.
Qed.

Lemma run_status_all ops : forall t b, registry_ok (status t) -> (forall g, is_available g (status t) = b g) ->
  let t' := fold_left (fun t op => run_gateway_op op t) ops t in
  registry_ok (status t') /\
  forall g, is_available g (status t') =
    fold_left (fun b op =>
      match op with
      | RegisterGateway g' _ _ _ => if decide (g' = g) then true else b
      | MarkDraining g' _ _ | MarkShutdown g' _ => if decide (g' = g) then false else b
      | Requests _ => b
      end) ops (b g).
Proof.
  induction ops as [|op ops IH]; intros t b H Hb; simpl; [done|].
  destruct (run_status op t H) as [H' Ha]. eapply IH in H' as [H1 H2]; [|intros g; apply Ha]. split; [exact H1|].
  intros g. rewrite H2. f_equal. by destruct op; rewrite ?Hb.
Qed.

(** A gateway is available exactly if the last thing reported of it is
    its registration, and not that it is draining or has shut down; the list
    of gateways offered for routing holds the available ones and no others.
    A shutdown hands over the requests in flight on the gateway and leaves
    none there. *)
Theorem availability_exact ops :
  let t := run_gateway_ops ops in
  (forall g, is_available g (status t) = last_says g ops) /\
  (forall i, i ∈ get_available_gateways (status t) <->
     dget (info_gateway_id i) (status t) = Some i /\ last_says (info_gateway_id i) ops = true) /\
  (forall g ts, let (rids, t') := mark_shutdown g ts t in
     rids = requests_of (in_flight t) g /\ get_in_flight_count g (in_flight t') = 0%nat /\
     is_available g (status t') = false).
Proof.
  cbv zeta. assert (H0 : registry_ok []) by (split; [constructor | done]).
  destruct (run_status_all ops (mkGatewayTracker [] new_tracker) (fun _ => false) H0 ltac:(done)) as [Hr Ha].
  change (fold_left _ ops (mkGatewayTracker [] new_tracker)) with (run_gateway_ops ops) in *.
  assert (Hl : forall g, last_says g ops = is_available g (status (run_gateway_ops ops))) by (intros g; symmetry; apply Ha).
  split; [exact Ha|]. split.
  - intros i. unfold get_available_gateways. rewrite elem_of_lfilter, Hl. split.
    + intros [Hi Hb]. apply andb_true_iff in Hb as [Hav _]. apply list_elem_of_fmap in Hi as ([g i'] & -> & Hi).
      apply (elem_of_dget _ _ _ (ok_keys _ Hr)) in Hi. destruct (ok_info _ Hr g i' Hi) as [Hid _]. simpl in *.
      rewrite Hid. split; [done|]. unfold is_available. by rewrite Hi.
    + intros [Hi Hav]. unfold is_available in Hav. rewrite Hi in Hav. split.
      * apply list_elem_of_fmap. exists (info_gateway_id i, i). split; [done|]. by apply dget_Some_in.
      * rewrite Hav. destruct (draining i) eqn:Ed; [|done]. rewrite (proj2 (ok_info _ Hr _ i Hi) Ed) in Hav. done.
  - intros g ts. simpl. split; [done|]. split.
    + unfold get_in_flight_count, requests_of. simpl. by rewrite lookup_insert_eq.
    + unfold status_shutdown. destruct (dget g (status (run_gateway_ops ops))) as [i|] eqn:E.
      * rewrite is_available_dset. by rewrite decide_True.
      * unfold is_available. by rewrite E.
Qed.

(** ** Slots *)

(** A slot is given back.  Reserving a slot always succeeds, and opens the
    request exactly if there is a gateway and the model id parses; releasing
    it, after whatever the tracker did meanwhile, closes that request and no
    other, and a second release changes nothing. *)
Theorem slot_released max meta now c t o :
  Represents t o -> o !! slot_request_id c = None -> reserved c = false ->
  let '(ok, c', t') := try_reserve max meta now c t in
  ok = true /\
  (reserved c' = true <-> exists g m, slot_gateway_id c = Some g /\ g <> ""%string /\ parse (model_str c) = Ok m) /\
  (if reserved c'
   then exists g m, slot_gateway_id c = Some g /\ parse (model_str c) = Ok m /\
     Represents t' (<[slot_request_id c := mkRequest g (routing_key m) (Some (endpoint_category c, compute_type c)) now meta]> o)
   else t' = t) /\
  forall t2 o2, Represents t2 o2 ->
    let (c'', t'') := slot_release c' t2 in
    Represents t'' (if reserved c' then delete (slot_request_id c) o2 else o2) /\
    slot_release c'' t'' = (c'', t'').
Proof.
  intros H Ho Hc. unfold try_reserve. destruct (slot_gateway_id c) as [g|] eqn:Eg.
  2: { split; [done|]. rewrite Hc. split; [split; [discriminate | intros (g & m & H1 & _); congruence]|]. split; [done|].
       intros t2 o2 H2. unfold slot_release. rewrite Eg. simpl. by rewrite Eg. }
  destruct (bool_decide (g = ""%string)) eqn:Ee.
  { apply bool_decide_eq_true in Ee as ->. split; [done|]. rewrite Hc.
    split; [split; [discriminate | intros (g & m & H1 & Hn & _); congruence]|]. split; [done|].
    intros t2 o2 H2. unfold slot_release. rewrite Eg, Hc. simpl. by rewrite Eg, Hc. }
  destruct (parse (model_str c)) as [m|e] eqn:Em.
  2: { split; [done|]. rewrite Hc. split; [split; [discriminate | intros (g' & m & _ & _ & H1); congruence]|]. split; [done|].
       intros t2 o2 H2. unfold slot_release. rewrite Eg, Hc. simpl. by rewrite Eg, Hc. }
  apply bool_decide_eq_false in Ee. simpl. split; [done|]. split; [split; [by exists g, m | done]|]. split.
  - exists g, m. split; [done|]. split; [done|].
    apply (reserve_ok g (endpoint_category c) (compute_type c) (slot_request_id c) (routing_key m) max meta now t o H).
    split; [done|]. intros r Hr. congruence.
  - intros t2 o2 H2. unfold slot_release. simpl. rewrite bool_decide_false by done. simpl.
    split; [by apply complete_ok | done].
Qed.

End Facade.

(** ** Concrete slots *)

Definition full_slot : SlotContext := mkSlot (Some "edge") "llama" "r9" "generation" "gpu" false None.

(** The context does not enforce a capacity: with a limit of 0 it reserves. *)
Lemma slot_released_witness :
  let '(ok, c', t') := try_reserve 0 tt 5 full_slot new_tracker in
  ok = true /\ reserved c' = true /\ Represents (snd (slot_release c' t')) ∅.
Proof.
  pose proof (slot_released 0 tt 5 full_slot new_tracker ∅ represents_new eq_refl eq_refl) as H.
  destruct (try_reserve 0 tt 5 full_slot new_tracker) as [[ok c'] t'] eqn:E.
  destruct H as (H1 & H2 & H3 & H4). assert (Hc : reserved c' = true) by (vm_compute in E; by injection E as <- <- <-).
  rewrite Hc in H3, H4. split; [exact H1|]. split; [exact Hc|]. destruct H3 as (g & m & _ & _ & H3).
  specialize (H4 t' _ H3). destruct (slot_release c' t') as [c'' t'']. destruct H4 as [H4 _].
  rewrite delete_insert_id in H4 by (apply lookup_empty). exact H4.
Defined.
