(* ===== verification/EvictionExecution.v ===== *)
(** * Carrying out eviction plans
    ([systems/routing/eviction/executor.py], [event_waiter.py])

    Requests that need room call [execute_eviction_plan] concurrently.  Each
    model of a plan is unloaded by a task of its own, shared between callers
    through a registry; a task counts as confirmed only when the gateway
    reports the unload.  The whole is a transition system: callers, tasks and
    the registry, moved by the environment's HTTP answers, events, timers and
    cancellations. *)
From stdpp Require Import base gmap sets list strings relations.
From Stdlib Require Import ZArith Lia.
From S2P Require Import Prelude ModelId RoutingTypes.

Notation Key := (string * string)%type.     (* gateway name, routing key *)

(** ** [EvictionWaiter] *)

Inductive UnloadResult : Type := UNLOADED | TIMEOUT | FAILED | SHUTDOWN.
#[export] Instance UnloadResult_eq_dec : EqDecision UnloadResult.
Proof. solve_decision. Defined.

(** [asyncio.Event] objects are numbered; [events] says which are set. *)
Record Waiter := mkWaiter {
  pending_unloads : gmap Key nat;
  wake_reasons : gmap Key UnloadResult;
  events : list bool;
  subscription_active : bool
}.

(** A new waiter, started. *)
Definition started_waiter : Waiter := mkWaiter ∅ ∅ [] true.

Definition set_event (ev : nat) (w : Waiter) : Waiter :=
  mkWaiter (pending_unloads w) (wake_reasons w) (<[ev := true]> (events w)) (subscription_active w).

Definition is_set (ev : nat) (w : Waiter) : bool := get_or false (events w !! ev).

Definition stop (w : Waiter) : Waiter :=
  if negb (subscription_active w) then w
  else mkWaiter ∅
         (map_fold (fun key _ reasons => <[key := SHUTDOWN]> reasons) (wake_reasons w) (pending_unloads w))
         (map_fold (fun _ ev evs => <[ev := true]> evs) (events w) (pending_unloads w))
         false.

Definition on_model_unloaded (gateway_name model_id_str : string) (w : Waiter) : Waiter :=
  if negb (subscription_active w) then w
  else if bool_decide (gateway_name = ""%string) || bool_decide (model_id_str = ""%string) then w
  else match parse model_id_str with
       | Raise _ => w
       | Ok model_id =>
           let key := (gateway_name, normalized model_id) in
           match pending_unloads w !! key with
           | Some ev =>
               set_event ev (mkWaiter (pending_unloads w) (<[key := UNLOADED]> (wake_reasons w))
                               (events w) (subscription_active w))
           | None => w
           end
       end.

Definition register_wait (gateway_name : string) (model_id : ModelId) (w : Waiter) : Waiter :=
  let key := (gateway_name, normalized model_id) in
  match pending_unloads w !! key with
  | Some _ => w
  | None => mkWaiter (<[key := length (events w)]> (pending_unloads w)) (wake_reasons w)
              (events w ++ [false]) (subscription_active w)
  end.

(** [wait_for_registered] up to its wait: the event to wait for, or [None] for
    [FAILED]. *)
Definition wait_start (gateway_name : string) (model_id : ModelId) (w : Waiter) : option nat :=
  pending_unloads w !! (gateway_name, normalized model_id).

(** Its [finally]. *)
Definition forget (gateway_name : string) (model_id : ModelId) (w : Waiter) : Waiter :=
  let key := (gateway_name, normalized model_id) in
  mkWaiter (delete key (pending_unloads w)) (delete key (wake_reasons w)) (events w) (subscription_active w).

(** Its answer after the event was set. *)
Definition wake_result (gateway_name : string) (model_id : ModelId) (w : Waiter) : UnloadResult :=
  match wake_reasons w !! (gateway_name, normalized model_id) with
  | Some SHUTDOWN => SHUTDOWN
  | _ => UNLOADED
  end.

(** ** Tasks: [_evict_single_model] *)

Inductive EvictionStatus : Type :=
  CONFIRMED | UNCONFIRMED_NO_BUS | FAILED_HTTP | FAILED_TIMEOUT | ABORTED_SHUTDOWN.
#[export] Instance EvictionStatus_eq_dec : EqDecision EvictionStatus.
Proof. solve_decision. Defined.

Record EvictionOutcome := mkOutcome {
  out_status : EvictionStatus;
  failed_model_id : option string;
  out_reason : option string
}.

Definition ok (o : EvictionOutcome) : bool := bool_decide (out_status o = CONFIRMED).
Definition confirmed : EvictionOutcome := mkOutcome CONFIRMED None None.

Inductive Phase : Type :=
  | Created                       (* not yet run *)
  | AwaitHttp                     (* the wait is registered, the request is sent *)
  | AwaitEvent (ev : nat)
  | Publishing                    (* unloaded; [WorkerEvicted] is published *)
  | Finished (o : EvictionOutcome)
  | TaskCancelled.

Record Task := mkTask {
  t_gateway : string;
  t_model : ModelId;
  t_phase : Phase;
  t_waiter : option Waiter;       (* absent without an event bus *)
  t_seen : list Key               (* the events delivered to the waiter, as sent *)
}.

Definition t_key (t : Task) : Key := (t_gateway t, routing_key (t_model t)).

Definition done (t : Task) : bool :=
  match t_phase t with Finished _ | TaskCancelled => true | _ => false end.

Definition with_phase (p : Phase) (t : Task) : Task :=
  mkTask (t_gateway t) (t_model t) p (t_waiter t) (t_seen t).
Definition with_waiter (w : option Waiter) (t : Task) : Task :=
  mkTask (t_gateway t) (t_model t) (t_phase t) w (t_seen t).

(** Leaving the task, through its [finally]. *)
Definition leave (p : Phase) (t : Task) : Task := with_phase p (with_waiter (stop <$> t_waiter t) t).

Definition fail_with (s : EvictionStatus) (reason : string) (t : Task) : Task :=
  leave (Finished (mkOutcome s (Some (original (t_model t))) (Some reason))) t.

(** The first stretch of the task; a task cancelled before never runs. *)
Definition start_task (t : Task) : option Task :=
  match t_phase t with
  | Created => Some (with_phase AwaitHttp (with_waiter (register_wait (t_gateway t) (t_model t) <$> t_waiter t) t))
  | _ => None
  end.

(** The answer to the unload request: status [ok], another status with its
    reason, or an exception. *)
Inductive HttpResult : Type := HttpOk | HttpNotOk (reason : string) | HttpError (msg : string).

Definition on_http (r : HttpResult) (t : Task) : option Task :=
  match t_phase t with
  | AwaitHttp =>
      Some (match r with
            | HttpNotOk reason => fail_with FAILED_HTTP reason t
            | HttpError msg => fail_with FAILED_HTTP msg t
            | HttpOk =>
                match t_waiter t with
                | None => fail_with UNCONFIRMED_NO_BUS "no_event_bus_for_confirmation" t
                | Some w => match wait_start (t_gateway t) (t_model t) w with
                            | Some ev => with_phase (AwaitEvent ev) t
                            | None => fail_with FAILED_TIMEOUT "failed" t
                            end
                end
            end)
  | _ => None
  end.

(** The handler is subscribed once the task has started, and for good. *)
Definition on_event (gateway_name model_id_str : string) (t : Task) : option Task :=
  match t_phase t, t_waiter t with
  | Created, _ => None
  | _, Some w => Some (mkTask (t_gateway t) (t_model t) (t_phase t)
                      (Some (on_model_unloaded gateway_name model_id_str w))
                      (t_seen t ++ [(gateway_name, model_id_str)]))
  | _, None => None
  end.

(** The wait is over because its event is set ... *)
Definition on_wake (t : Task) : option Task :=
  match t_phase t, t_waiter t with
  | AwaitEvent ev, Some w =>
      if is_set ev w then
        let t' := with_waiter (Some (forget (t_gateway t) (t_model t) w)) t in
        Some (match wake_result (t_gateway t) (t_model t) w with
              | SHUTDOWN => fail_with ABORTED_SHUTDOWN "waiter_shutdown_before_confirmation" t'
              | _ => with_phase Publishing t'
              end)
      else None
  | _, _ => None
  end.

(** ... or because ten seconds have passed. *)
Definition on_timeout (t : Task) : option Task :=
  match t_phase t, t_waiter t with
  | AwaitEvent _, Some w =>
      Some (fail_with FAILED_TIMEOUT "timeout" (with_waiter (Some (forget (t_gateway t) (t_model t) w)) t))
  | _, _ => None
  end.

(** [publish_nowait] returned or raised. *)
Definition on_published (r : option string) (t : Task) : option Task :=
  match t_phase t with
  | Publishing => Some (match r with
                        | None => leave (Finished confirmed) t
                        | Some msg => fail_with FAILED_HTTP msg t
                        end)
  | _ => None
  end.

(** The task ends at once; in [asyncio] it is not done until it has processed
    the [CancelledError], in a later turn of the loop: a caller that comes
    between would join it and be told of the cancellation. *)
Definition cancel_task (t : Task) : Task :=
  match t_phase t with
  | Finished _ | TaskCancelled => t
  | Created => with_phase TaskCancelled t
  | AwaitEvent _ => leave TaskCancelled (with_waiter (forget (t_gateway t) (t_model t) <$> t_waiter t) t)
  | _ => leave TaskCancelled t
  end.

(** ** Callers: [execute_eviction_plan] *)

Inductive CallerPc : Type :=
  | Running (todo : list ModelId)
  | Awaiting (tid : nat) (own : bool) (m : ModelId) (rest : list ModelId)
  | Returned (o : EvictionOutcome)
  | CallerCancelled.

Record Caller := mkCaller {
  c_gateway : string;
  c_plan : list ModelId;          (* the actionable plan, empty without one *)
  c_bus : bool;
  c_pc : CallerPc
}.

Definition with_pc (pc : CallerPc) (c : Caller) : Caller := mkCaller (c_gateway c) (c_plan c) (c_bus c) pc.

Record System := mkSystem {
  tasks : list Task;
  registry : gmap Key nat;
  callers : list Caller
}.

Definition initial : System := mkSystem [] ∅ [].

Definition models_of (plan : option EvictionPlan) : list ModelId :=
  match plan with Some (PlanSummary p) => models_to_evict p | _ => [] end.

(** The plan to carry out is that of the selected gateway's candidate. *)
Definition get_eviction_plan_for_gateway (t : DecisionTrace) (gateway_name : string) : option EvictionPlanSummary :=
  match List.find (fun c => bool_decide (name (gateway c) = gateway_name)) (candidates t) with
  | Some c => eviction_plan c
  | None => None
  end.

(** The checks before the loop. *)
Definition new_caller (gateway_name : string) (is_cloud : bool) (plan : option EvictionPlan) (bus : bool) : Caller :=
  mkCaller gateway_name (if is_cloud then [] else models_of plan) bus
    (if is_cloud then Returned (mkOutcome FAILED_HTTP None (Some "cloud_gateway_has_no_vram"%string))
     else if negb (is_eviction_plan_actionable plan) then Returned confirmed
     else Running (models_of plan)).

Definition get_inflight (key : Key) (s : System) : option nat :=
  match registry s !! key with
  | Some tid => match tasks s !! tid with Some t => if done t then None else Some tid | None => None end
  | None => None
  end.

Definition release (key : Key) (tid : nat) (r : gmap Key nat) : gmap Key nat :=
  if bool_decide (r !! key = Some tid) then delete key r else r.

(** The next turn of the loop. *)
Definition advance (c : Caller) (s : System) : option (CallerPc * System) :=
  match c_pc c with
  | Running [] => Some (Returned confirmed, s)
  | Running (m :: rest) =>
      let key := (c_gateway c, routing_key m) in
      match get_inflight key s with
      | Some tid => Some (Awaiting tid false m rest, s)
      | None =>
          let tid := length (tasks s) in
          let t := mkTask (c_gateway c) m Created (if c_bus c then Some started_waiter else None) [] in
          Some (Awaiting tid true m rest,
                mkSystem (tasks s ++ [t]) (<[key := tid]> (registry s)) (callers s))
      end
  | _ => None
  end.

(** After the task it awaits has ended. *)
Definition resume (c : Caller) (s : System) : option (CallerPc * System) :=
  match c_pc c with
  | Awaiting tid own m rest =>
      match tasks s !! tid with
      | Some t =>
          let s' := if own then mkSystem (tasks s) (release (c_gateway c, routing_key m) tid (registry s)) (callers s)
                    else s in
          match t_phase t with
          | Finished o => Some (if ok o then Running rest else Returned o, s')
          | TaskCancelled => Some (CallerCancelled, s')
          | _ => None
          end
      | None => None
      end
  | _ => None
  end.

(** Cancelling a caller cancels the task it awaits, its own or not; one that
    awaits nothing ends at once. *)
Definition cancel_caller (c : Caller) (s : System) : option (CallerPc * System) :=
  match c_pc c with
  | Running _ => Some (CallerCancelled, s)
  | Awaiting tid own m rest =>
      match tasks s !! tid with
      | Some t =>
          if done t then
            Some (CallerCancelled,
                  if own then mkSystem (tasks s) (release (c_gateway c, routing_key m) tid (registry s)) (callers s) else s)
          else Some (c_pc c, mkSystem (<[tid := cancel_task t]> (tasks s)) (registry s) (callers s))
      | None => None
      end
  | _ => None
  end.

Inductive Action : Type :=
  | Call (gateway_name : string) (is_cloud : bool) (plan : option EvictionPlan) (bus : bool)
  | Advance (i : nat) | Resume (i : nat) | CancelCaller (i : nat)
  | StartTask (tid : nat) | Http (tid : nat) (r : HttpResult) | Event (tid : nat) (gateway_name model_id_str : string)
  | Wake (tid : nat) | Timeout (tid : nat) | Published (tid : nat) (r : option string).

Definition on_caller (i : nat) (f : Caller -> System -> option (CallerPc * System)) (s : System) : option System :=
  c ← callers s !! i;
  '(pc, s') ← f c s;
  Some (mkSystem (tasks s') (registry s') (<[i := with_pc pc c]> (callers s'))).

Definition on_task (tid : nat) (f : Task -> option Task) (s : System) : option System :=
  t ← tasks s !! tid;
  t' ← f t;
  Some (mkSystem (<[tid := t']> (tasks s)) (registry s) (callers s)).

Definition step (a : Action) (s : System) : option System :=
  match a with
  | Call g cloud plan bus => Some (mkSystem (tasks s) (registry s) (callers s ++ [new_caller g cloud plan bus]))
  | Advance i => on_caller i advance s
  | Resume i => on_caller i resume s
  | CancelCaller i => on_caller i cancel_caller s
  | StartTask tid => on_task tid start_task s
  | Http tid r => on_task tid (on_http r) s
  | Event tid g m => on_task tid (on_event g m) s
  | Wake tid => on_task tid on_wake s
  | Timeout tid => on_task tid on_timeout s
  | Published tid r => on_task tid (on_published r) s
  end.

Definition run (acts : list Action) (s : System) : option System :=
  fold_left (fun s a => s ≫= step a) acts (Some s).

Definition moves (s s' : System) : Prop := exists a, step a s = Some s'.
Definition reachable : System -> Prop := rtc moves initial.

(** ** Tasks *)

(** The gateway reported the unload of the task's model. *)
Definition matches_task (t : Task) (e : Key) : Prop :=
  e.1 = t_gateway t /\ e.1 <> ""%string /\ exists m, parse e.2 = Ok m /\ routing_key m = routing_key (t_model t).
Definition reported (t : Task) : Prop := exists e, e ∈ t_seen t /\ matches_task t e.

(** The waiter of a task that waits: [b] once the event has come. *)
Definition waiting_waiter (key : Key) (b : bool) : Waiter :=
  mkWaiter {[key := 0%nat]} (if b then {[key := UNLOADED]} else ∅) [b] true.

Definition waits (t : Task) : Prop :=
  exists b, t_waiter t = Some (waiting_waiter (t_key t) b) /\ (b = true <-> reported t).

Definition task_ok (t : Task) : Prop :=
  match t_phase t with
  | Created => (t_waiter t = None \/ t_waiter t = Some started_waiter) /\ t_seen t = []
  | AwaitHttp => t_waiter t = None \/ waits t
  | AwaitEvent ev => ev = 0%nat /\ waits t
  | Publishing => reported t /\ t_waiter t <> None
  | Finished o => ok o = true -> reported t /\ t_waiter t <> None
  | TaskCancelled => True
  end.

Definition task_weight (t : Task) : nat :=
  match t_phase t with
  | Created => 4 | AwaitHttp => 3 | AwaitEvent _ => 2 | Publishing => 1 | Finished _ | TaskCancelled => 0
  end.

Lemma done_weight t : done t = true <-> task_weight t = 0%nat.
Proof. unfold done, task_weight. by destruct (t_phase t). Qed.

(** A task stays who it is, and its end is final. *)
Definition same_task (t t' : Task) : Prop :=
  t_gateway t' = t_gateway t /\ t_model t' = t_model t /\ t_seen t `prefix_of` t_seen t' /\
  (t_waiter t = None <-> t_waiter t' = None) /\ (done t = true -> t_phase t' = t_phase t).

Lemma parse_empty m : parse "" <> Ok m.
Proof. done. Qed.

Lemma unloaded_waiter t b gw id :
  exists b', on_model_unloaded gw id (waiting_waiter (t_key t) b) = waiting_waiter (t_key t) b' /\
    (b' = true <-> b = true \/ matches_task t (gw, id)).
Proof.
  unfold on_model_unloaded, matches_task. cbn [subscription_active waiting_waiter negb fst snd].
  destruct (bool_decide (gw = ""%string)) eqn:E1; simpl.
  { apply bool_decide_eq_true in E1. exists b. split; [done|]. naive_solver. }
  destruct (bool_decide (id = ""%string)) eqn:E2; simpl.
  { apply bool_decide_eq_true in E2 as ->. exists b. split; [done|]. split; [by left|].
    intros [?|(_ & _ & m & Hm & _)]; [done | by apply parse_empty in Hm]. }
  apply bool_decide_eq_false in E1, E2. destruct (parse id) as [m|e] eqn:Em.
  2: { exists b. split; [done|]. split; [by left|]. intros [?|(_ & _ & m & Hm & _)]; [done | congruence]. }
  destruct (decide ((gw, normalized m) = t_key t)) as [Hk|Hk].
  - rewrite Hk. unfold waiting_waiter at 1. cbn [pending_unloads]. rewrite lookup_singleton_eq. exists true. split.
    + unfold set_event, waiting_waiter. simpl. f_equal. destruct b; [|done]. apply insert_singleton_eq.
    + split; [|done]. intros _. right. injection Hk as H1 H2. split; [done|]. split; [done|]. by exists m.
  - unfold waiting_waiter at 1. cbn [pending_unloads]. rewrite lookup_singleton_ne by congruence. exists b.
    split; [done|]. split; [by left|]. intros [?|(H1 & _ & m' & H2 & H3)]; [done|]. exfalso. apply Hk.
    unfold t_key. rewrite <- H3. replace m' with m by congruence. by rewrite <- H1.
Qed.

Lemma stop_None (w : option Waiter) : w = None <-> stop <$> w = None.
Proof. by destruct w. Qed.

Ltac same_task := split_and!; simpl; rewrite <- ?stop_None; try done.

Lemma start_task_ok t t' : task_ok t -> start_task t = Some t' ->
  task_ok t' /\ same_task t t' /\ (task_weight t' < task_weight t)%nat.
Proof.
  unfold task_ok, start_task. destruct (t_phase t) eqn:E; try done. intros [Hw Hs] [= <-].
  split; [|split; [|unfold task_weight; rewrite E; simpl; lia]].
  - cbn [with_phase with_waiter t_phase t_waiter]. destruct Hw as [-> | ->]; [by left|]. right. exists false.
    split; [|split; [done|]]; [by unfold register_wait; simpl; rewrite lookup_empty|].
    intros (e & He & _). simpl in He. rewrite Hs in He. by apply elem_of_nil in He.
  - same_task; [by destruct (t_waiter t) | by unfold done; rewrite E].
Qed.

Lemma fail_ok s reason t : s <> CONFIRMED -> task_ok (fail_with s reason t).
Proof. intros Hs. unfold task_ok, fail_with, ok. simpl. by rewrite bool_decide_false. Qed.

Lemma fail_same s reason t : done t = false -> same_task t (fail_with s reason t).
Proof. intros Hd. unfold fail_with, leave. same_task. by rewrite Hd. Qed.

Lemma on_http_ok r t t' : task_ok t -> on_http r t = Some t' ->
  task_ok t' /\ same_task t t' /\ (task_weight t' < task_weight t)%nat.
Proof.
  unfold on_http. destruct (t_phase t) eqn:E; try done. intros Hok [= <-].
  assert (Hd : done t = false) by (unfold done; by rewrite E).
  assert (Hf : forall s reason, s <> CONFIRMED -> task_ok (fail_with s reason t) /\ same_task t (fail_with s reason t) /\
    (task_weight (fail_with s reason t) < task_weight t)%nat).
  { intros s reason Hs. split; [by apply fail_ok|]. split; [by apply fail_same|]. unfold task_weight. rewrite E. simpl. lia. }
  destruct r; try (by apply Hf). unfold task_ok in Hok. rewrite E in Hok. destruct Hok as [Hw|(b & Hw & Hb)]; rewrite Hw.
  - by apply Hf.
  - unfold wait_start. change (t_gateway t, normalized (t_model t)) with (t_key t). cbn [waiting_waiter pending_unloads].
    rewrite lookup_singleton_eq. split; [|split].
    + unfold task_ok. simpl. split; [done|]. by exists b.
    + same_task. by rewrite Hd.
    + unfold task_weight. simpl. rewrite E. lia.
Qed.

Lemma matches_same t t' e : t_gateway t' = t_gateway t -> t_model t' = t_model t -> matches_task t e <-> matches_task t' e.
Proof. intros H1 H2. unfold matches_task. by rewrite H1, H2. Qed.

Lemma on_event_ok gw id t t' : task_ok t -> on_event gw id t = Some t' ->
  task_ok t' /\ same_task t t' /\ task_weight t' = task_weight t.
Proof.
  intros Hok Ht. assert (Hs : same_task t t' /\ task_weight t' = task_weight t /\ t_seen t' = t_seen t ++ [(gw, id)] /\ t_phase t' = t_phase t
    /\ t_phase t <> Created /\ t_waiter t' = on_model_unloaded gw id <$> t_waiter t).
  { unfold on_event in Ht. destruct (t_phase t) eqn:E, (t_waiter t) eqn:Ew; try done; injection Ht as <-;
      (split_and!; simpl; rewrite ?E, ?Ew; try done; [|by unfold task_weight; rewrite E]; same_task;
       [by apply prefix_app_r | by rewrite Ew]). }
  destruct Hs as (Hs & Hw & Hseen & Hp & Hc & Hwt). split; [|done]. destruct Hs as (Hg & Hm & _ & _ & _).
  assert (Hr : reported t -> reported t').
  { intros (e & He & Hme). exists e. split; [rewrite Hseen; apply elem_of_app; by left | by apply (matches_same t t')]. }
  assert (Hwaits : waits t -> waits t').
  { intros (b & Hb & Hrep). destruct (unloaded_waiter t b gw id) as (b' & Hb' & Hiff). exists b'.
    unfold t_key. rewrite Hg, Hm. split; [by rewrite Hwt, Hb; simpl; rewrite Hb'|]. rewrite Hiff, Hrep. split.
    - intros [H|H]; [by apply Hr|]. exists (gw, id). split; [rewrite Hseen; apply elem_of_app; right; by left|].
      by apply (matches_same t t').
    - intros (e & He & Hme). rewrite Hseen in He. apply (matches_same t t') in Hme; [|done..].
      apply elem_of_app in He as [He| ->%list_elem_of_singleton]; [left; by exists e | by right]. }
  assert (Hn : t_waiter t <> None -> t_waiter t' <> None) by (rewrite Hwt; by destruct (t_waiter t)).
  unfold task_ok in *. rewrite Hp. destruct (t_phase t); try done.
  - destruct Hok as [H|H]; [left; by rewrite Hwt, H | right; by apply Hwaits].
  - destruct Hok as [-> H]. split; [done | by apply Hwaits].
  - destruct Hok as [H1 H2]. by auto.
  - intros Ho. destruct (Hok Ho). by auto.
Qed.

Lemma on_wake_ok t t' : task_ok t -> on_wake t = Some t' ->
  task_ok t' /\ same_task t t' /\ (task_weight t' < task_weight t)%nat.
Proof.
  unfold on_wake, task_ok at 1. destruct (t_phase t) eqn:E; try done. intros [-> (b & Hw & Hb)]. rewrite Hw.
  assert (Hd : done t = false) by (unfold done; by rewrite E).
  destruct b; [|done]. cbn [is_set waiting_waiter events]. unfold wake_result.
  change (t_gateway t, normalized (t_model t)) with (t_key t). cbn [wake_reasons waiting_waiter].
  rewrite lookup_singleton_eq. intros [= <-]. split; [|split].
  - unfold task_ok. simpl. split; [|done]. apply Hb. done.
  - same_task; [by rewrite Hw | by rewrite Hd].
  - unfold task_weight. simpl. rewrite E. lia.
Qed.

Lemma on_timeout_ok t t' : task_ok t -> on_timeout t = Some t' ->
  task_ok t' /\ same_task t t' /\ (task_weight t' < task_weight t)%nat.
Proof.
  intros _. unfold on_timeout. destruct (t_phase t) eqn:E; try done. destruct (t_waiter t) as [w|] eqn:Ew; [|done].
  assert (Hd : done t = false) by (unfold done; by rewrite E). intros [= <-]. split; [by apply fail_ok|]. split.
  - same_task; [by rewrite Ew | by rewrite Hd].
  - unfold task_weight. simpl. rewrite E. lia.
Qed.

Lemma on_published_ok r t t' : task_ok t -> on_published r t = Some t' ->
  task_ok t' /\ same_task t t' /\ (task_weight t' < task_weight t)%nat.
Proof.
  unfold on_published. destruct (t_phase t) eqn:E; try done. intros Hok [= <-].
  assert (Hd : done t = false) by (unfold done; by rewrite E). unfold task_ok in Hok. rewrite E in Hok.
  destruct r as [msg|].
  - split; [by apply fail_ok|]. split; [by apply fail_same|]. unfold task_weight. rewrite E. simpl. lia.
  - split; [|split].
    + unfold task_ok. simpl. intros _. destruct Hok as [H1 H2]. split; [exact H1|]. by destruct (t_waiter t).
    + same_task. by rewrite Hd.
    + unfold task_weight. simpl. rewrite E. lia.
Qed.

Lemma cancel_task_ok t : task_ok t ->
  task_ok (cancel_task t) /\ same_task t (cancel_task t) /\ task_weight (cancel_task t) = 0%nat.
Proof.
  intros Hok. unfold cancel_task. destruct (t_phase t) eqn:E;
    (split; [|split; [|unfold task_weight; simpl; by rewrite ?E]]); try done;
    same_task; unfold done; rewrite ?E; try done. by destruct (t_waiter t).
Qed.

(** ** The system *)

(** Some task has confirmed the unload of [m] on [g]. *)
Definition confirmed_on (ts : list Task) (g : string) (m : ModelId) : Prop :=
  exists tid t o, ts !! tid = Some t /\ t_key t = (g, routing_key m) /\ t_phase t = Finished o /\ ok o = true.

Definition caller_ok (ts : list Task) (c : Caller) : Prop :=
  match c_pc c with
  | Running todo => exists pre, c_plan c = pre ++ todo /\ Forall (confirmed_on ts (c_gateway c)) pre
  | Awaiting tid own m rest =>
      exists pre, c_plan c = pre ++ m :: rest /\ Forall (confirmed_on ts (c_gateway c)) pre /\
        exists t, ts !! tid = Some t /\ t_key t = (c_gateway c, routing_key m)
  | Returned o => ok o = true -> Forall (confirmed_on ts (c_gateway c)) (c_plan c)
  | CallerCancelled => True
  end.

(** Every task that has not ended is the one registered for its key, and the
    registry holds tasks under their keys. *)
Definition registered (ts : list Task) (r : gmap Key nat) : Prop :=
  (forall tid t, ts !! tid = Some t -> done t = false -> r !! t_key t = Some tid) /\
  (forall key tid, r !! key = Some tid -> exists t, ts !! tid = Some t /\ t_key t = key).

Record SysInv (s : System) : Prop := {
  s_tasks : forall tid t, tasks s !! tid = Some t -> task_ok t;
  s_registered : registered (tasks s) (registry s);
  s_callers : forall i c, callers s !! i = Some c -> caller_ok (tasks s) c
}.

Definition later (ts ts' : list Task) : Prop :=
  forall tid t, ts !! tid = Some t -> exists t', ts' !! tid = Some t' /\ same_task t t'.

Lemma same_task_refl t : same_task t t.
Proof. by split_and!. Qed.

Lemma same_task_key t t' : same_task t t' -> t_key t' = t_key t.
Proof. intros (H1 & H2 & _). unfold t_key. by rewrite H1, H2. Qed.

Lemma later_refl ts : later ts ts.
Proof. intros tid t Ht. exists t. split; [done | apply same_task_refl]. Qed.

Lemma later_insert ts tid t t' : ts !! tid = Some t -> same_task t t' -> later ts (<[tid := t']> ts).
Proof.
  intros Ht Hs tid' x Hx. destruct (decide (tid' = tid)) as [->|Hne].
  - exists t'. rewrite list_lookup_insert_eq by (by eapply lookup_lt_Some). split; [done|]. congruence.
  - exists x. rewrite list_lookup_insert_ne by done. split; [done | apply same_task_refl].
Qed.

Lemma later_snoc ts t : later ts (ts ++ [t]).
Proof.
  intros tid x Hx. exists x. split; [|apply same_task_refl]. rewrite lookup_app_l; [done | by eapply lookup_lt_Some].
Qed.

Lemma confirmed_later ts ts' g m : later ts ts' -> confirmed_on ts g m -> confirmed_on ts' g m.
Proof.
  intros Hl (tid & t & o & Ht & Hk & Hp & Ho). destruct (Hl tid t Ht) as (t' & Ht' & Hs). exists tid, t', o.
  split; [done|]. split; [by rewrite (same_task_key _ _ Hs)|]. split; [|done].
  destruct Hs as (_ & _ & _ & _ & Hd). rewrite Hd; [done|]. unfold done. by rewrite Hp.
Qed.

Lemma caller_later ts ts' c : later ts ts' -> caller_ok ts c -> caller_ok ts' c.
Proof.
  intros Hl. assert (Hf : forall g l, Forall (confirmed_on ts g) l -> Forall (confirmed_on ts' g) l).
  { intros g l H. eapply Forall_impl; [exact H|]. intros m. by apply confirmed_later. }
  unfold caller_ok. destruct (c_pc c) as [todo|tid own m rest|o|]; [| |by auto|done].
  - intros (pre & H1 & H2). exists pre. by auto.
  - intros (pre & H1 & H2 & t & Ht & Hk). exists pre. split; [done|]. split; [by auto|].
    destruct (Hl tid t Ht) as (t' & Ht' & Hs). exists t'. split; [done|]. by rewrite (same_task_key _ _ Hs).
Qed.

Lemma registered_insert ts r tid t t' : registered ts r -> ts !! tid = Some t -> same_task t t' ->
  registered (<[tid := t']> ts) r.
Proof.
  intros [Hr Hk] Ht Hs. split.
  - intros x tx. destruct (decide (x = tid)) as [->|Hne].
    + rewrite list_lookup_insert_eq by (by eapply lookup_lt_Some). intros [= <-] Hd.
      rewrite (same_task_key _ _ Hs). apply (Hr tid t Ht). destruct (done t) eqn:E; [|done].
      destruct Hs as (_ & _ & _ & _ & Hp). unfold done in Hd. rewrite (Hp E) in Hd. by unfold done in E; rewrite Hd in E.
    + rewrite list_lookup_insert_ne by done. apply Hr.
  - intros key x Hx. destruct (Hk key x Hx) as (tx & Htx & Hkx).
    destruct (later_insert ts tid t t' Ht Hs x tx Htx) as (tx' & Htx' & Hsx). exists tx'.
    split; [done|]. by rewrite (same_task_key _ _ Hsx).
Qed.

Lemma registered_new ts r key t : registered ts r -> t_key t = key ->
  (forall tid t', r !! key = Some tid -> ts !! tid = Some t' -> done t' = true) ->
  registered (ts ++ [t]) (<[key := length ts]> r).
Proof.
  intros [Hr Hkeys] Hk Hfree. split.
  - intros tid t' Ht' Hd. apply lookup_app_Some in Ht' as [Ht'|[Hlen Ht']].
    + assert (t_key t' <> key).
      { intros Heq. pose proof (Hr tid t' Ht' Hd) as Hreg. rewrite Heq in Hreg. rewrite (Hfree tid t' Hreg Ht') in Hd. done. }
      rewrite lookup_insert_ne by done. by apply Hr.
    + apply list_lookup_singleton_Some in Ht' as [Hz <-]. rewrite Hk, lookup_insert_eq. f_equal. lia.
  - intros k x Hx. destruct (decide (k = key)) as [->|Hne].
    + rewrite lookup_insert_eq in Hx. injection Hx as <-. exists t. split; [by rewrite lookup_app_r, Nat.sub_diag | done].
    + rewrite lookup_insert_ne in Hx by done. destruct (Hkeys k x Hx) as (tx & Htx & Hkx). exists tx.
      split; [|done]. rewrite lookup_app_l; [done | by eapply lookup_lt_Some].
Qed.

Lemma registered_release ts r key tid t : registered ts r -> ts !! tid = Some t -> done t = true ->
  registered ts (release key tid r).
Proof.
  intros [Hr Hk] Ht Hd. unfold release. case_bool_decide as Hb; [|done]. split.
  - intros x tx Hx Hdx. rewrite lookup_delete_ne; [by apply Hr|]. intros ->.
    rewrite (Hr x tx Hx Hdx) in Hb. injection Hb as ->. congruence.
  - intros k x Hx. apply lookup_delete_Some in Hx as [_ Hx]. by apply Hk.
Qed.

(** *** What remains to be done *)

Definition caller_weight (c : Caller) : nat :=
  match c_pc c with
  | Running todo => 6 * length todo + 1
  | Awaiting _ _ _ rest => 6 * length rest + 2
  | Returned _ | CallerCancelled => 0
  end.

Definition measure (s : System) : nat :=
  (sum_list_with task_weight (tasks s) + sum_list_with caller_weight (callers s))%nat.

Lemma sum_insert {A} (f : A -> nat) (l : list A) i x y : l !! i = Some x ->
  (sum_list_with f (<[i := y]> l) + f x = sum_list_with f l + f y)%nat.
Proof.
  revert i. induction l as [|a l IH]; intros [|i]; simpl; try done.
  - intros [= ->]. lia.
  - intros H. specialize (IH i H). lia.
Qed.

(** Calls come from outside, and events change nothing but a waiter. *)
Definition external (a : Action) : bool := match a with Call _ _ _ _ | Event _ _ _ => true | _ => false end.

Definition step_effect (a : Action) (s s' : System) : Prop :=
  SysInv s' /\ (if external a then True else (measure s' < measure s)%nat).

Lemma task_step (strict : bool) tid f s s' :
  SysInv s ->
  (forall t t', task_ok t -> f t = Some t' -> task_ok t' /\ same_task t t' /\
     (if strict then (task_weight t' < task_weight t)%nat else True)) ->
  on_task tid f s = Some s' -> SysInv s' /\ (if strict then (measure s' < measure s)%nat else True).
Proof.
  intros [Ht Hr Hc] Hf. unfold on_task. destruct (tasks s !! tid) as [t|] eqn:E; [|done]. simpl.
  destruct (f t) as [t'|] eqn:Ef; [|done]. simpl. intros [= <-].
  destruct (Hf t t' (Ht tid t E) Ef) as (H1 & H2 & H3). split.
  - split; simpl.
    + intros x tx Hx. destruct (decide (x = tid)) as [->|Hne].
      * rewrite list_lookup_insert_eq in Hx by (by eapply lookup_lt_Some). by injection Hx as <-.
      * rewrite list_lookup_insert_ne in Hx by done. by apply (Ht x).
    + by eapply registered_insert.
    + intros i c Hi. eapply caller_later; [by eapply later_insert | by apply (Hc i)].
  - destruct strict; [|done]. unfold measure. simpl. pose proof (sum_insert task_weight (tasks s) tid t t' E). lia.
Qed.

Lemma caller_step i f s s' :
  SysInv s ->
  (forall c pc s1, callers s !! i = Some c -> f c s = Some (pc, s1) ->
     callers s1 = callers s /\ later (tasks s) (tasks s1) /\
     (forall tid t, tasks s1 !! tid = Some t -> task_ok t) /\ registered (tasks s1) (registry s1) /\
     caller_ok (tasks s1) (with_pc pc c) /\
     (sum_list_with task_weight (tasks s1) + caller_weight (with_pc pc c)
      < sum_list_with task_weight (tasks s) + caller_weight c)%nat) ->
  on_caller i f s = Some s' -> SysInv s' /\ (measure s' < measure s)%nat.
Proof.
  intros [Ht Hr Hc] Hf. unfold on_caller. destruct (callers s !! i) as [c|] eqn:E; [|done]. simpl.
  destruct (f c s) as [[pc s1]|] eqn:Ef; [|done]. simpl. intros [= <-].
  destruct (Hf c pc s1 eq_refl Ef) as (H1 & H2 & H3 & H4 & H5 & H6). split.
  - split; simpl; [done..|]. intros j cj Hj. rewrite H1 in Hj. destruct (decide (j = i)) as [->|Hne].
    + rewrite list_lookup_insert_eq in Hj by (by eapply lookup_lt_Some). by injection Hj as <-.
    + rewrite list_lookup_insert_ne in Hj by done. eapply caller_later; [exact H2 | by apply (Hc j)].
  - unfold measure. simpl. rewrite H1. pose proof (sum_insert caller_weight (callers s) i c (with_pc pc c) E). lia.
Qed.

Lemma advance_ok s i c pc s1 : SysInv s -> callers s !! i = Some c -> advance c s = Some (pc, s1) ->
  callers s1 = callers s /\ later (tasks s) (tasks s1) /\
  (forall tid t, tasks s1 !! tid = Some t -> task_ok t) /\ registered (tasks s1) (registry s1) /\
  caller_ok (tasks s1) (with_pc pc c) /\
  (sum_list_with task_weight (tasks s1) + caller_weight (with_pc pc c)
   < sum_list_with task_weight (tasks s) + caller_weight c)%nat.
Proof.
  intros [Ht Hr Hc] Hi. pose proof (Hc i c Hi) as Hok. unfold advance, caller_ok, caller_weight in *.
  destruct (c_pc c) as [[|m rest]|tid own m rest|o|]; try done.
  - intros [= <- <-]. split_and!; try done; [apply later_refl| |simpl; lia]. simpl. intros _.
    destruct Hok as (pre & -> & Hpre). by rewrite app_nil_r.
  - destruct Hok as (pre & Hpre & Hf). unfold get_inflight.
    set (key := (c_gateway c, routing_key m)). set (t0 := mkTask _ _ _ _ _).
    assert (Hnew : (forall tid t', registry s !! key = Some tid -> tasks s !! tid = Some t' -> done t' = true) ->
      callers (mkSystem (tasks s ++ [t0]) (<[key := length (tasks s)]> (registry s)) (callers s)) = callers s /\
      later (tasks s) (tasks s ++ [t0]) /\ (forall tid t, (tasks s ++ [t0]) !! tid = Some t -> task_ok t) /\
      registered (tasks s ++ [t0]) (<[key := length (tasks s)]> (registry s)) /\
      caller_ok (tasks s ++ [t0]) (with_pc (Awaiting (length (tasks s)) true m rest) c) /\
      (sum_list_with task_weight (tasks s ++ [t0]) + caller_weight (with_pc (Awaiting (length (tasks s)) true m rest) c)
       < sum_list_with task_weight (tasks s) + (6 * length (m :: rest) + 1))%nat).
    { intros Hfree. split_and!; [done | apply later_snoc | | by apply registered_new | | ].
      - intros tid t Hx. apply lookup_app_Some in Hx as [Hx|[_ Hx]]; [by apply (Ht tid)|].
        apply list_lookup_singleton_Some in Hx as [_ <-]. split; [|done]. unfold t0. simpl. destruct (c_bus c); auto.
      - exists pre. split; [done|]. split; [|exists t0; split; [by rewrite lookup_app_r, Nat.sub_diag|done]].
        eapply Forall_impl; [exact Hf|]. intros m'. apply confirmed_later, later_snoc.
      - rewrite sum_list_with_app.
        change (caller_weight (with_pc (Awaiting (length (tasks s)) true m rest) c)) with (6 * length rest + 2)%nat.
        change (sum_list_with task_weight [t0]) with 4%nat. cbn [length]. lia. }
    destruct (registry s !! key) as [tid|] eqn:Ereg.
    2: { intros [= <- <-]. apply Hnew. intros; congruence. }
    destruct (proj2 Hr key tid Ereg) as (t & Et & Hkt). rewrite Et.
    destruct (done t) eqn:Ed; intros [= <- <-].
    + apply Hnew. intros tid' t' [= <-]. congruence.
    + split_and!; try done; [apply later_refl| |simpl; lia]. exists pre. split; [done|]. split; [done|]. by exists t.
Qed.

Lemma caller_resume_ok s i c pc s1 : SysInv s -> callers s !! i = Some c -> resume c s = Some (pc, s1) ->
  callers s1 = callers s /\ later (tasks s) (tasks s1) /\
  (forall tid t, tasks s1 !! tid = Some t -> task_ok t) /\ registered (tasks s1) (registry s1) /\
  caller_ok (tasks s1) (with_pc pc c) /\
  (sum_list_with task_weight (tasks s1) + caller_weight (with_pc pc c)
   < sum_list_with task_weight (tasks s) + caller_weight c)%nat.
Proof.
  intros [Ht Hr Hc] Hi. pose proof (Hc i c Hi) as Hok. unfold resume, caller_ok, caller_weight in *.
  destruct (c_pc c) as [|tid own m rest|o|]; try done. destruct Hok as (pre & Hpre & Hf & t & Et & Hk).
  rewrite Et. set (s' := if own then _ else s).
  assert (Hs' : done t = true -> callers s' = callers s /\ tasks s' = tasks s /\ registered (tasks s) (registry s')).
  { intros Hd. unfold s'. destruct own; [|done]. split_and!; try done. by eapply registered_release. }
  unfold done in Hs'. destruct (t_phase t) as [| | | |o|] eqn:E; try done;
    destruct (Hs' eq_refl) as (H1 & H2 & H3); intros [= <- <-]; rewrite H2; split_and!; try done; try apply later_refl.
  - simpl. destruct (ok o) eqn:Eo.
    + exists (pre ++ [m]). split; [by rewrite <- app_assoc|]. apply Forall_app. split; [done|]. apply Forall_singleton.
      by exists tid, t, o.
    + simpl. congruence.
  - simpl. destruct (ok o); simpl; lia.
  - simpl. lia.
Qed.

Lemma cancel_caller_ok s i c pc s1 : SysInv s -> callers s !! i = Some c -> cancel_caller c s = Some (pc, s1) ->
  callers s1 = callers s /\ later (tasks s) (tasks s1) /\
  (forall tid t, tasks s1 !! tid = Some t -> task_ok t) /\ registered (tasks s1) (registry s1) /\
  caller_ok (tasks s1) (with_pc pc c) /\
  (sum_list_with task_weight (tasks s1) + caller_weight (with_pc pc c)
   < sum_list_with task_weight (tasks s) + caller_weight c)%nat.
Proof.
  intros [Ht Hr Hc] Hi. pose proof (Hc i c Hi) as Hok. unfold cancel_caller.
  destruct (c_pc c) as [todo|tid own m rest|o|] eqn:Epc; try done.
  - intros [= <- <-]. split_and!; try done; [apply later_refl|]. unfold caller_weight. rewrite Epc. simpl. lia.
  - unfold caller_ok in Hok. rewrite Epc in Hok. destruct Hok as (pre & Hpre & Hf & t & Et & Hk). rewrite Et.
    destruct (done t) eqn:Ed; intros [= <- <-].
    + set (s' := if own then _ else s).
      assert (Hs' : callers s' = callers s /\ tasks s' = tasks s /\ registered (tasks s) (registry s')).
      { unfold s'. destruct own; [|done]. split_and!; try done. by eapply registered_release. }
      destruct Hs' as (H1 & H2 & H3). rewrite H2. split_and!; try done; [apply later_refl|].
      unfold caller_weight. rewrite Epc. simpl. lia.
    + destruct (cancel_task_ok t (Ht tid t Et)) as (H1 & H2 & H3).
      pose proof (later_insert _ _ _ _ Et H2) as Hl. split_and!; simpl; try done.
      * intros x tx Hx. destruct (decide (x = tid)) as [->|Hne].
        -- rewrite list_lookup_insert_eq in Hx by (by eapply lookup_lt_Some). by injection Hx as <-.
        -- rewrite list_lookup_insert_ne in Hx by done. by apply (Ht x).
      * by eapply registered_insert.
      * eapply caller_later; [exact Hl|]. unfold caller_ok. simpl. by exists pre; split_and!; [..|exists t].
      * pose proof (sum_insert task_weight (tasks s) tid t (cancel_task t) Et) as Hsum. rewrite H3 in Hsum.
        assert (task_weight t <> 0%nat) by (intros Hz; apply done_weight in Hz; congruence).
        change (caller_weight (with_pc (Awaiting tid own m rest) c)) with (6 * length rest + 2)%nat.
        unfold caller_weight at 1. rewrite Epc. lia.
Qed.

Lemma step_ok a s s' : SysInv s -> step a s = Some s' -> step_effect a s s'.
Proof.
  intros H Hs. unfold step_effect. destruct a as [g cloud plan bus|i|i|i|tid|tid r|tid g m|tid|tid|tid r]; simpl in *.
  - injection Hs as <-. destruct H as [Ht Hr Hc]. split; [|done]. split; simpl; try done.
    intros i c Hi. apply lookup_app_Some in Hi as [Hi|[_ Hi]]; [by apply (Hc i)|].
    apply list_lookup_singleton_Some in Hi as [_ <-]. unfold new_caller, caller_ok. simpl.
    destruct cloud; [done|]. destruct (is_eviction_plan_actionable plan) eqn:E; simpl; [by exists []|].
    intros _. destruct plan as [[p|]|]; simpl in *; try done. by destruct (models_to_evict p).
  - eapply caller_step; [done| |exact Hs]. intros c pc s1. by apply advance_ok.
  - eapply caller_step; [done| |exact Hs]. intros c pc s1. by apply caller_resume_ok.
  - eapply caller_step; [done| |exact Hs]. intros c pc s1. by apply cancel_caller_ok.
  - apply (task_step true tid start_task s s' H); [|done]. apply start_task_ok.
  - apply (task_step true tid (on_http r) s s' H); [|done]. apply on_http_ok.
  - apply (task_step false tid (on_event g m) s s' H); [|done]. intros t t' H1 H2.
    destruct (on_event_ok g m t t' H1 H2) as (? & ? & _). done.
  - apply (task_step true tid on_wake s s' H); [|done]. apply on_wake_ok.
  - apply (task_step true tid on_timeout s s' H); [|done]. apply on_timeout_ok.
  - apply (task_step true tid (on_published r) s s' H); [|done]. apply on_published_ok.
Qed.

Lemma initial_ok : SysInv initial.
Proof. split; [done|split; [done|]|done]. intros key tid. simpl. by rewrite lookup_empty. Qed.

Lemma reachable_ok s : reachable s -> SysInv s.
Proof.
  intros H. unfold reachable in H. apply rtc_ind_r with (P := SysInv) in H; [done | apply initial_ok |].
  intros x y _ [a Ha] Hx. by destruct (step_ok a x y Hx Ha).
Qed.

Lemma run_cons a acts s : run (a :: acts) s = step a s ≫= run acts.
Proof.
  unfold run. simpl. destruct (step a s) as [s1|]; [done|]. simpl. induction acts as [|b l IH]; [done|]. exact IH.
Qed.

Lemma run_actions_reachable acts s s' : reachable s -> run acts s = Some s' -> reachable s'.
Proof.
  revert s. induction acts as [|a acts IH]; intros s Hr; [by intros [= <-]|]. rewrite run_cons.
  destruct (step a s) as [s1|] eqn:E; [|done]. simpl. apply IH. eapply rtc_r; [exact Hr|]. by exists a.
Qed.

Lemma event_measure tid g m s s' : SysInv s -> step (Event tid g m) s = Some s' -> measure s' = measure s.
Proof.
  intros H. simpl. unfold on_task. destruct (tasks s !! tid) as [t|] eqn:E; [|done]. simpl.
  destruct (on_event g m t) as [t'|] eqn:Et; [|done]. simpl. intros [= <-].
  destruct (on_event_ok g m t t' (s_tasks s H tid t E) Et) as (_ & _ & Hw). unfold measure. simpl.
  pose proof (sum_insert task_weight (tasks s) tid t t' E). lia.
Qed.

(** What the system does by itself: tasks and callers, as timers, answers and
    the event loop move them. *)
Definition own_action (a : Action) : bool :=
  match a with Call _ _ _ _ | Event _ _ _ | CancelCaller _ => false | _ => true end.

Definition ended (c : Caller) : bool :=
  match c_pc c with Returned _ | CallerCancelled => true | _ => false end.

Lemma task_moves s tid t : SysInv s -> tasks s !! tid = Some t -> done t = false ->
  exists a s', own_action a = true /\ step a s = Some s'.
Proof.
  intros H Ht Hd. pose proof (s_tasks s H tid t Ht) as Hok. unfold done in Hd. unfold task_ok in Hok.
  destruct (t_phase t) as [| |ev| |o|] eqn:E; try done.
  - exists (StartTask tid). eexists. split; [done|]. simpl. unfold on_task. rewrite Ht. simpl. unfold start_task. by rewrite E.
  - exists (Http tid HttpOk). eexists. split; [done|]. simpl. unfold on_task. rewrite Ht. simpl. unfold on_http. by rewrite E.
  - destruct Hok as (_ & b & Hw & _). exists (Timeout tid). eexists. split; [done|]. simpl. unfold on_task. rewrite Ht.
    simpl. unfold on_timeout. by rewrite E, Hw.
  - exists (Published tid None). eexists. split; [done|]. simpl. unfold on_task. rewrite Ht. simpl. unfold on_published. by rewrite E.
Qed.

Lemma caller_moves s i c : SysInv s -> callers s !! i = Some c -> ended c = false ->
  exists a s', own_action a = true /\ step a s = Some s'.
Proof.
  intros H Hi He. pose proof (s_callers s H i c Hi) as Hok. unfold ended in He. unfold caller_ok in Hok.
  destruct (c_pc c) as [[|m rest]|tid own m rest|o|] eqn:E; try done.
  - exists (Advance i). eexists. split; [done|]. simpl. unfold on_caller. rewrite Hi. simpl. unfold advance. by rewrite E.
  - exists (Advance i). simpl. unfold on_caller. rewrite Hi. simpl. unfold advance. rewrite E.
    destruct (get_inflight _ s); by eexists.
  - destruct Hok as (pre & _ & _ & t & Ht & _). destruct (done t) eqn:Ed; [|by eapply task_moves].
    exists (Resume i). simpl. unfold on_caller. rewrite Hi. simpl. unfold resume. rewrite E, Ht.
    unfold done in Ed. destruct (t_phase t); try done; by eexists.
Qed.

(** The wait is over with a confirmation. *)
Definition confirms (t : Task) : Prop := exists t', on_wake t = Some t' /\ t_phase t' = Publishing.

Lemma wake_iff t ev : task_ok t -> t_phase t = AwaitEvent ev -> confirms t <-> reported t.
Proof.
  intros H E. unfold task_ok in H. rewrite E in H. destruct H as (-> & b & Hb & Hrep). unfold confirms, on_wake.
  rewrite E, Hb. rewrite <- Hrep. destruct b; cbn [is_set waiting_waiter events]; [|naive_solver]. split; [done|].
  intros _. unfold wake_result. change (t_gateway t, normalized (t_model t)) with (t_key t).
  cbn [wake_reasons waiting_waiter]. rewrite lookup_singleton_eq. by eexists.
Qed.

(** ** What the module promises *)

(** C26: [execute_eviction_plan] is only [ok] when, for every model of the
    plan, some task on that gateway and routing key listened to the event bus
    and had a [MODEL_UNLOADED] event of the gateway and the model delivered to
    it: without a bus, or on an answer alone, nothing is confirmed. *)
Theorem confirmed_sound s i c o m :
  reachable s -> callers s !! i = Some c -> c_pc c = Returned o -> ok o = true -> m ∈ c_plan c ->
  exists tid t, tasks s !! tid = Some t /\ t_key t = (c_gateway c, routing_key m) /\
    t_waiter t <> None /\ reported t.
Proof.
  intros Hs Hi Hp Ho Hm. pose proof (reachable_ok s Hs) as H. pose proof (s_callers s H i c Hi) as Hc.
  unfold caller_ok in Hc. rewrite Hp in Hc. specialize (Hc Ho). rewrite Forall_forall in Hc.
  destruct (Hc m Hm) as (tid & t & o' & Ht & Hk & Hph & Ho'). exists tid, t. split; [done|]. split; [done|].
  pose proof (s_tasks s H tid t Ht) as Hok. unfold task_ok in Hok. rewrite Hph in Hok. by destruct (Hok Ho').
Qed.

(** C28: at most one unload of a model is in progress on a gateway, however
    many requests want it evicted: two tasks of one gateway and routing key
    that have not ended are the same task. *)
Theorem one_task_per_model s tid1 tid2 t1 t2 :
  reachable s -> tasks s !! tid1 = Some t1 -> tasks s !! tid2 = Some t2 ->
  done t1 = false -> done t2 = false -> t_key t1 = t_key t2 -> tid1 = tid2.
Proof.
  intros Hs H1 H2 Hd1 Hd2 Hk. destruct (s_registered s (reachable_ok s Hs)) as [Hr _].
  pose proof (Hr _ _ H1 Hd1) as E1. pose proof (Hr _ _ H2 Hd2) as E2. rewrite Hk in E1. congruence.
Qed.

(** C31: an unload report is never lost to the race with the HTTP answer.  The
    wait of a task can end in success exactly when the gateway's report of the
    unload has been delivered; a task with a waiter whose request is under way
    goes on to such a wait when the answer is ok, and then a report that came
    before the answer counts. *)
Theorem no_lost_unload s tid t :
  reachable s -> tasks s !! tid = Some t ->
  (t_phase t = AwaitHttp -> t_waiter t <> None ->
     exists t1, on_http HttpOk t = Some t1 /\ (confirms t1 <-> reported t)) /\
  (forall ev, t_phase t = AwaitEvent ev -> confirms t <-> reported t).
Proof.
  intros Hs Ht. pose proof (s_tasks s (reachable_ok s Hs) tid t Ht) as Hok. split; [|intros ev; by apply wake_iff].
  intros Hp Hw. unfold on_http. rewrite Hp. unfold task_ok in Hok. rewrite Hp in Hok.
  destruct Hok as [Hn|(b & Hb & Hrep)]; [done|]. rewrite Hb. unfold wait_start.
  change (t_gateway t, normalized (t_model t)) with (t_key t). cbn [waiting_waiter pending_unloads].
  rewrite lookup_singleton_eq. eexists. split; [done|].
  rewrite (wake_iff (with_phase (AwaitEvent 0) t) 0); [done | split; [done|by exists b] | done].
Qed.

(** C33: evictions end.  From any reachable state, a run without further
    calls has at most [measure] actions besides events, whatever the gateways
    answer and whoever is cancelled, and as long as some caller has not
    returned, a timer, an answer or a turn of the loop can move the system. *)
Theorem eviction_terminates s acts s' :
  reachable s -> Forall (fun a => match a with Call _ _ _ _ => False | _ => True end) acts -> run acts s = Some s' ->
  (length (filter (fun a => external a = false) acts) <= measure s)%nat /\
  (forall i c, callers s' !! i = Some c -> ended c = false -> exists a s'', own_action a = true /\ step a s' = Some s'').
Proof.
  intros Hs Hf Hrun. split.
  - assert (Hinv := reachable_ok s Hs). clear Hs. revert s Hinv Hrun. induction Hf as [|a acts Ha Hf IH]; intros s H.
    + intros _. simpl. lia.
    + rewrite run_cons. destruct (step a s) as [s1|] eqn:E; [|done]. simpl. intros Hrun.
      destruct (step_ok a s s1 H E) as [H1 Hm]. specialize (IH s1 H1 Hrun). rewrite filter_cons.
      destruct (external a) eqn:Ex; simpl.
      * destruct a as [| | | | | |tid g m| | |]; try done. by rewrite <- (event_measure tid g m s s1 H E).
      * lia.
  - intros i c Hi He. eapply caller_moves; [|exact Hi|done]. by eapply reachable_ok, run_actions_reachable.
Qed.

(** ** Instances *)

Definition llama : ModelId := mkModelId "llama" "llama" None false false None None None.

Definition one_model_plan : EvictionPlan :=
  PlanSummary (mkPlan [llama] 8000 0 (QArith_base.Qmake 0 1) 8000 None 0 false 0 None 0 false None 0 0 false None None None false None None).

Definition the_call : Action := Call "g" false (Some one_model_plan) true.

(** Two requests share an unload; its report overtakes the answer. *)
Definition shared_unload : list Action :=
  [the_call; the_call; Advance 0; Advance 1; StartTask 0; Event 0 "g" "llama"; Http 0 HttpOk; Wake 0;
   Published 0 None; Resume 0; Resume 1; Advance 0; Advance 1].

Definition after (n : nat) : System := from_option id initial (run (take n shared_unload) initial).

Lemma after_shared_reachable n : reachable (after n).
Proof.
  unfold after. destruct (run (take n shared_unload) initial) as [s|] eqn:E; simpl; [|apply rtc_refl].
  eapply run_actions_reachable; [apply rtc_refl | exact E].
Qed.

Lemma confirmed_sound_witness :
  callers (after 13) !! 1%nat = Some (mkCaller "g" [llama] true (Returned confirmed)) /\
  exists tid t, tasks (after 13) !! tid = Some t /\ t_key t = ("g"%string, routing_key llama) /\
    t_waiter t <> None /\ reported t.
Proof.
  split; [vm_compute; reflexivity|].
  apply (confirmed_sound (after 13) 1 (mkCaller "g" [llama] true (Returned confirmed)) confirmed llama).
  - apply after_shared_reachable.
  - vm_compute. reflexivity.
  - reflexivity.
  - reflexivity.
  - left.
Defined.

Definition late_task : Task :=
  mkTask "g" llama AwaitHttp (Some (waiting_waiter ("g"%string, routing_key llama) true)) [("g"%string, "llama"%string)].

Lemma one_task_per_model_witness : 0%nat = 0%nat.
Proof.
  apply (one_task_per_model (after 6) 0 0 late_task late_task); [apply after_shared_reachable|..]; vm_compute; reflexivity.
Defined.

Lemma no_lost_unload_witness :
  exists t1, on_http HttpOk late_task = Some t1 /\ (confirms t1 <-> reported late_task).
Proof.
  apply (no_lost_unload (after 6) 0 late_task); [apply after_shared_reachable | vm_compute; reflexivity | reflexivity | discriminate].
Defined.

Lemma eviction_terminates_witness :
  (length (filter (fun a => external a = false) (drop 2 shared_unload)) <= measure (after 2))%nat /\
  (forall i c, callers (after 13) !! i = Some c -> ended c = false ->
     exists a s'', own_action a = true /\ step a (after 13) = Some s'').
Proof.
  apply (eviction_terminates (after 2) (drop 2 shared_unload) (after 13)).
  - apply after_shared_reachable.
  - repeat constructor.
  - vm_compute. reflexivity.
Defined.

(** A caller that joins an unload and is then cancelled cancels the task of the
    caller that started it, which ends cancelled though nobody cancelled it. *)
Example joiner_cancels_owner :
  (callers <$> run [the_call; the_call; Advance 0; Advance 1; StartTask 0; CancelCaller 1; Resume 0] initial) ≫= (fun l => l !! 0%nat)
  = Some (mkCaller "g" [llama] true CallerCancelled).
Proof. vm_compute. reflexivity. Qed.
