(* ===== verification/ValueResolver.v ===== *)
(** * The values that bindings name
    ([pipeline/core/execution/resolver.py], [step_types.py])

    [NamespaceResolver] finds the root object of a binding, [traverse_path]
    walks from it along a path with wildcards and keys that are bindings
    themselves.  What is proved: the value depends on nothing but the steps the
    binding names, so a step whose inputs come from its dependencies gets the
    same inputs however the run was interleaved. *)
From stdpp Require Import base gmap list strings.
From Stdlib Require Import Ascii ZArith QArith Lia.
From S2P Require Import Prelude PyString PipelineStep MapReduce.
Open Scope Z_scope.
#[local] Set Default Proof Using "Type".

(** ** Values

    JSON values, collections of map outputs, and other objects with the
    attributes that are data.  Keys of dicts are strings. *)
Inductive value : Type :=
  | VNone
  | VBool (b : bool)
  | VInt (z : Z)
  | VFloat (q : Q)
  | VStr (s : string)
  | VList (l : list value)
  | VDict (d : list (string * value))
  | VColl (c : @MapOutputCollection value)
  | VObj (attributes : list (string * value)).

Definition opt_str (o : option string) : value := match o with Some s => VStr s | None => VNone end.

(** [SourceInput] and [MapState], with its properties [iteration] and [assigned]. *)
Definition source_input (text : string) (metadata : list (string * value)) (messages : value) : value :=
  VObj [("text", VStr text); ("metadata", VDict metadata); ("messages", messages)]%string.

Definition map_state (index : nat) (value_ : value) (key : option string) (total : nat) (assigned_model : value) : value :=
  VObj [("iteration_index", VInt (Z.of_nat index)); ("iteration_value", value_); ("iteration_key", opt_str key);
        ("iteration_total", VInt (Z.of_nat total)); ("assigned_model", assigned_model);
        ("iteration", VObj [("index", VInt (Z.of_nat index)); ("value", value_); ("key", opt_str key);
                            ("total", VInt (Z.of_nat total))]);
        ("assigned", VDict [("model_ref", assigned_model)])]%string.

(** ** [NamespaceResolver] *)

Record NamespaceResolver := mkResolver {
  handlers : list (string * (string -> exn value));
  step_outputs : list (string * value)
}.

(** [__init__] *)
Definition make_resolver (source : value) (options : list (string * value)) (outputs : list (string * value)) : NamespaceResolver :=
  mkResolver [("sourceNs"%string, fun _ => Ok source); ("optionsNs"%string, fun _ => Ok (VDict options))] outputs.

Definition with_map_context (state : value) (r : NamespaceResolver) : NamespaceResolver :=
  mkResolver (dset "mapNs"%string (fun _ => Ok state) (handlers r)) (step_outputs r).

Definition register_namespace (name : string) (handler : string -> exn value) (r : NamespaceResolver) : exn NamespaceResolver :=
  if bool_decide (name ∈ NAMESPACES) then Raise (ValueError "Cannot override reserved namespace")
  else Ok (mkResolver (dset name handler (handlers r)) (step_outputs r)).

Definition resolve_step (step : string) (r : NamespaceResolver) : exn value :=
  match dget step (step_outputs r) with Some v => Ok v | None => Raise KeyError end.

Definition resolve (r : NamespaceResolver) (b : InputBinding) : exn value :=
  match dget (namespace b) (handlers r) with
  | Some handler => handler (field_path b)
  | None =>
      if bool_decide (namespace b = "step"%string) then
        match step_name b with
        | None => Raise (ValueError "Step namespace requires step_name")
        | Some step => resolve_step step r
        end
      else Raise (InvalidNamespaceError (namespace b))
  end.

(** ** Paths *)

Record PathPart := mkPart { base : string; dynamic_key : option string }.

(** [re.match(r"^([^.\[]*)\[([^\]]+)\]\.?(.*)$", remaining)]; [.] does not
    match a newline, and [$] may stand before a last one. *)
Definition newline : ascii := "010"%char.

Definition match_rest (l : list ascii) : option (list ascii) :=
  match span (fun c => negb (Ascii.eqb c newline)) l with
  | (rest, []) => Some rest
  | (rest, [_]) => Some rest
  | _ => None
  end.

Definition match_dynamic (remaining : list ascii) : option (list ascii * list ascii * list ascii) :=
  match span (fun c => negb (Ascii.eqb c dot || Ascii.eqb c lbracket)) remaining with
  | (base, c :: l) =>
      if Ascii.eqb c lbracket then
        match split1 rbracket l with
        | ((_ :: _) as key, Some rest) =>
            let rest' := match rest with c' :: rest' => if Ascii.eqb c' dot then rest' else rest | [] => rest end in
            match match_rest rest' with Some r => Some (base, key, r) | None => None end
        | _ => None
        end
      else None
  | _ => None
  end.

(** [_parse_path_with_dynamic_keys]; every round shortens [remaining]. *)
Fixpoint parse_loop (fuel : nat) (remaining : list ascii) : list PathPart :=
  match fuel, remaining with
  | O, _ | _, [] => []
  | S fuel', _ =>
      match match_dynamic remaining with
      | Some (base, key, rest) => mkPart (unchars base) (Some (unchars key)) :: parse_loop fuel' rest
      | None =>
          match split1 dot remaining with
          | (part, rest) =>
              (match part with [] => [] | _ => [mkPart (unchars part) None] end) ++ parse_loop fuel' (get_or [] rest)
          end
      end
  end.

Definition parse_path (field_path : string) : list PathPart := parse_loop (String.length field_path) (chars field_path).

(** ** [traverse_path] *)

(** The step, field and binding that an error is reported for. *)
Record Caller := mkCaller { in_step : option string; in_field : option string; in_binding : option string }.
Definition nobody : Caller := mkCaller None None None.

Section Traversal.

(** What [hasattr] and [getattr] find besides data: methods, properties and
    the attributes of built-in types.  [hashable]: values that are no lists
    and no dicts, as keys. *)
Context (methods : value -> string -> option value) (hashable : value -> bool).

Definition get_attr (v : value) (part : string) : option value :=
  match v with
  | VObj attributes => match dget part attributes with Some x => Some x | None => methods v part end
  | _ => methods v part
  end.

Definition navigate_regular (v : value) (part : string) : exn value :=
  match v with
  | VDict d => match dget part d with Some x => Ok x | None => Raise KeyError end
  | _ => match get_attr v part with Some x => Ok x | None => Raise AttributeError end
  end.

(** [part.isdigit() or (part.startswith("-") and part[1:].isdigit())] *)
Definition index_of (part : string) : option Z :=
  match chars part with
  | c :: l => if isdigit (c :: l) then Some (Z.of_N (int_of_digits (c :: l)))
              else if Ascii.eqb c dash && isdigit l then Some (- Z.of_N (int_of_digits l))
              else None
  | [] => None
  end.

(** An index or a key of a collection. *)
Definition navigate_collection (c : @MapOutputCollection value) (part : string) : exn value :=
  match index_of part with
  | Some i => get_output c i
  | None => match get_output_by_key c part with Some VNone | None => Raise KeyError | Some v => Ok v end
  end.

Definition navigate_single_part (v : value) (part : string) : exn value :=
  match v with
  | VColl c => if bool_decide (part = "*"%string) then Ok (VList (c_outputs c)) else navigate_collection c part
  | _ => navigate_regular v part
  end.

Definition truthy_str (o : option string) : bool := match o with Some s => negb (bool_decide (s = ""%string)) | None => false end.

(** [except (KeyError, AttributeError)] *)
Definition report (w : Caller) (path : string) (r : exn value) : exn value :=
  match r with
  | Raise (KeyError | AttributeError) =>
      if truthy_str (in_step w) && truthy_str (in_field w)
      then Raise (BindingResolutionError (get_or ""%string (in_step w)) (get_or ""%string (in_field w))
                    (if truthy_str (in_binding w) then get_or ""%string (in_binding w) else path))
      else r
  | _ => r
  end.

(** The loop over [parts]; after a wildcard the outputs are traversed along
    the remainder. *)
Fixpoint walk (w : Caller) (v : value) (parts : list string) : exn value :=
  match parts with
  | [] => Ok v
  | part :: rest =>
      match v with
      | VColl c =>
          if bool_decide (part = "*"%string) then
            match join dot (map chars rest) with
            | [] => Ok (VList (c_outputs c))
            | remainder =>
                let? l := exn_map (fun output => report w (unchars remainder) (walk w output rest)) (c_outputs c) in
                Ok (VList l)
            end
          else let? v' := navigate_collection c part in walk w v' rest
      | _ => let? v' := navigate_regular v part in walk w v' rest
      end
  end.

Definition lookup_key (key v : value) : exn value :=
  match v with
  | VDict d =>
      match key with
      | VStr k => match dget k d with Some x => Ok x | None => Raise KeyError end
      | VList _ | VDict _ => Raise (TypeError "unhashable type")
      | _ => Raise (if hashable key then KeyError else TypeError "unhashable type")
      end
  | _ => Raise (TypeError "Dynamic key lookup requires dict")
  end.

(** [_traverse_with_dynamic_keys], where [key_value] resolves a key. *)
Fixpoint walk_dynamic (key_value : string -> exn value) (v : value) (parts : list PathPart) : exn value :=
  match parts with
  | [] => Ok v
  | part :: rest =>
      match dynamic_key part with
      | Some k =>
          let? v1 := if bool_decide (base part = ""%string) then Ok v else navigate_single_part v (base part) in
          let? key := key_value k in
          let? v2 := lookup_key key v1 in
          walk_dynamic key_value v2 rest
      | None => let? v' := navigate_single_part v (base part) in walk_dynamic key_value v' rest
      end
  end.

(** A key is a shorter text than the path it stands in. *)
Fixpoint traverse_fuel (fuel : nat) (resolver : option NamespaceResolver) (w : Caller) (root : value) (path : string) : exn value :=
  match fuel with
  | O => Raise RecursionError
  | S fuel' =>
      if bool_decide (path = ""%string) then Ok root
      else if existsb (Ascii.eqb lbracket) (chars path) then
        walk_dynamic (fun k =>
            match resolver with
            | None => Raise (ValueError "Dynamic key lookup requires resolver")
            | Some r =>
                let? key_binding := parse_binding k in
                let? key_root := resolve r key_binding in
                traverse_fuel fuel' resolver nobody key_root (field_path key_binding)
            end) root (parse_path path)
      else report w path (walk w root (map unchars (split_all dot (chars path))))
  end.

Definition traverse_path (resolver : option NamespaceResolver) (w : Caller) (root : value) (path : string) : exn value :=
  traverse_fuel (S (String.length path)) resolver w root path.

(** The value of a binding, as every caller gets it. *)
Definition resolve_value (r : NamespaceResolver) (b : InputBinding) : exn value :=
  let? root := resolve r b in traverse_path (Some r) nobody root (field_path b).

(** [_resolve_inputs_from_bindings] *)
Definition resolve_inputs (r : NamespaceResolver) (bindings : list (string * InputBinding)) : exn (list (string * value)) :=
  exn_map (fun kb => let? v := resolve_value r (snd kb) in Ok (fst kb, v)) bindings.

End Traversal.
(** ** Paths parse as they print *)

Definition print_part (p : PathPart) : list ascii :=
  chars (base p) ++ match dynamic_key p with Some k => lbracket :: chars k ++ [rbracket] | None => [] end.

Definition print_path (parts : list PathPart) : string := unchars (join dot (map print_part parts)).

Definition wf_part (p : PathPart) : Prop :=
  no_char dot (chars (base p)) = true /\ no_char lbracket (chars (base p)) = true /\
  no_char newline (chars (base p)) = true /\
  match dynamic_key p with
  | Some k => k <> ""%string /\ no_char rbracket (chars k) = true /\ no_char newline (chars k) = true
  | None => base p <> ""%string
  end.

Lemma span_rest {p : ascii -> bool} {l a b} : span p l = (a, b) -> l = a ++ b /\ forallb p a = true.
Proof.
  revert a b. induction l as [|c l IH]; simpl; intros a b H; [by injection H as <- <-|].
  destruct (p c) eqn:E; [|by injection H as <- <-]. destruct (span p l) as [a' b']. injection H as <- <-.
  destruct (IH a' b' eq_refl) as [-> Ha]. simpl. by rewrite E.
Qed.

Lemma match_rest_plain l : no_char newline l = true -> match_rest l = Some l.
Proof. intros H. unfold match_rest. by rewrite (span_none _ l H). Qed.

Lemma match_dynamic_static b l : no_char dot b = true -> no_char lbracket b = true ->
  match_dynamic b = None /\ match_dynamic (b ++ dot :: l) = None.
Proof.
  intros Hd Hb. assert (H : forallb (fun c => negb (Ascii.eqb c dot || Ascii.eqb c lbracket)) b = true).
  { apply forallb_forall. intros x Hx. rewrite negb_orb. apply andb_true_iff. unfold no_char in *. rewrite forallb_forall in Hd, Hb. auto. }
  unfold match_dynamic. by rewrite (span_none _ b H), (span_all _ b dot l H eq_refl).
Qed.

Lemma match_dynamic_key b k rest : no_char dot b = true -> no_char lbracket b = true -> k <> [] -> no_char rbracket k = true ->
  match_dynamic (b ++ lbracket :: k ++ rbracket :: rest) =
  match match_rest (match rest with c' :: rest' => if Ascii.eqb c' dot then rest' else rest | [] => rest end) with
  | Some r => Some (b, k, r)
  | None => None
  end.
Proof.
  intros Hd Hb Hk Hr. assert (H : forallb (fun c => negb (Ascii.eqb c dot || Ascii.eqb c lbracket)) b = true).
  { apply forallb_forall. intros x Hx. rewrite negb_orb. apply andb_true_iff. unfold no_char in *. rewrite forallb_forall in Hd, Hb. auto. }
  unfold match_dynamic. rewrite (span_all _ b lbracket _ H eq_refl). rewrite (Ascii.eqb_refl lbracket).
  rewrite split1_app by done. by destruct k.
Qed.

Lemma no_newline_join parts : Forall wf_part parts -> no_char newline (join dot (map print_part parts)) = true.
Proof.
  assert (H1 : forall p, wf_part p -> no_char newline (print_part p) = true).
  { intros p (_ & _ & Hn & Hk). unfold print_part. rewrite no_char_app, Hn. simpl. destruct (dynamic_key p) as [k|]; [|done].
    destruct Hk as (_ & _ & Hkn). simpl. by rewrite no_char_app, Hkn. }
  intros H. induction H as [|p parts Hp H IH]; [done|]. destruct parts as [|q parts]; [by apply H1|].
  change (join dot (map print_part (p :: q :: parts))) with (print_part p ++ dot :: join dot (map print_part (q :: parts))).
  rewrite no_char_app, H1 by done. exact IH.
Qed.

Lemma parse_loop_part n p l : wf_part p -> no_char newline l = true ->
  parse_loop (S n) (print_part p) = [p] /\ parse_loop (S n) (print_part p ++ dot :: l) = p :: parse_loop n l.
Proof.
  intros (Hd & Hb & Hn & Hk) Hl. destruct p as [b dk]. unfold print_part. simpl base in *. simpl dynamic_key in *.
  assert (Hnil : forall n, parse_loop n [] = []) by (intros [|?]; done).
  destruct dk as [k|].
  - destruct Hk as (Hk0 & Hkr & Hkn). assert (Hk0' : chars k <> []) by (intros E; apply Hk0; by apply chars_inj).
    assert (H1 := match_dynamic_key (chars b) (chars k) [] Hd Hb Hk0' Hkr).
    assert (H2 := match_dynamic_key (chars b) (chars k) (dot :: l) Hd Hb Hk0' Hkr). simpl in H1, H2.
    rewrite match_rest_plain in H2 by done.
    assert (Hshape : forall r, exists c r', chars b ++ lbracket :: chars k ++ rbracket :: r = c :: r') by (intros r; destruct (chars b); by eexists _, _).
    split.
    + destruct (Hshape []) as (c & r' & E). rewrite E in *. unfold parse_loop; fold parse_loop. rewrite H1. by rewrite !unchars_chars, Hnil.
    + rewrite <- app_assoc. simpl. rewrite <- app_assoc. simpl. destruct (Hshape (dot :: l)) as (c & r' & E). rewrite E in *.
      unfold parse_loop; fold parse_loop. rewrite H2. by rewrite !unchars_chars.
  - rewrite app_nil_r. destruct (match_dynamic_static (chars b) l Hd Hb) as [H1 H2].
    assert (Hb0 : chars b <> []) by (intros E; apply Hk; by apply chars_inj).
    assert (Hone : match chars b with [] => [] | _ => [mkPart (unchars (chars b)) None] end = [mkPart b None])
      by (rewrite unchars_chars; by destruct (chars b)).
    split.
    + destruct (chars b) as [|c r'] eqn:E; [done|]. unfold parse_loop; fold parse_loop. rewrite H1, split1_none by done. simpl get_or.
      by rewrite Hnil, Hone.
    + destruct (chars b) as [|c r'] eqn:E; [done|]. change ((c :: r') ++ dot :: l) with (c :: (r' ++ dot :: l)) in *.
      unfold parse_loop; fold parse_loop. rewrite H2.
      assert (Hs : split1 dot (c :: r' ++ dot :: l) = (c :: r', Some l)) by (by apply (split1_app dot (c :: r') l)). rewrite Hs.
      simpl get_or. by rewrite Hone.
Qed.

Lemma length_print_part p : wf_part p -> (1 <= length (print_part p))%nat.
Proof.
  intros (_ & _ & _ & Hk). unfold print_part. rewrite length_app. destruct (dynamic_key p) as [k|]; simpl; [lia|].
  destruct (chars (base p)) eqn:E; simpl; [|lia]. exfalso. apply Hk. by apply chars_inj.
Qed.

Lemma parse_print parts : Forall wf_part parts -> forall n, (length (join dot (map print_part parts)) <= n)%nat ->
  parse_loop n (join dot (map print_part parts)) = parts.
Proof.
  intros H. induction H as [|p parts Hp H IH]; intros n Hn; [by destruct n|]. pose proof (length_print_part p Hp) as Hl.
  destruct parts as [|q parts].
  - simpl in *. destruct n as [|n]; [lia|]. by apply (parse_loop_part n p []).
  - change (join dot (map print_part (p :: q :: parts))) with (print_part p ++ dot :: join dot (map print_part (q :: parts))) in *.
    rewrite length_app in Hn. cbn [length] in Hn. destruct n as [|n]; [lia|].
    destruct (parse_loop_part n p (join dot (map print_part (q :: parts))) Hp) as [_ ->]; [by apply no_newline_join|]. f_equal. apply IH. lia.
Qed.

Lemma length_chars s : length (chars s) = String.length s.
Proof. induction s as [|c s IH]; [done|]. exact (f_equal S IH). Qed.

(** Paths with dynamic keys parse as they print: every list of parts
    whose bases have no dot and no opening bracket, whose keys have no closing
    one and are not empty, and which has an empty base only before a key, is
    read back from its text. *)
Theorem path_roundtrip parts : Forall wf_part parts -> parse_path (print_path parts) = parts.
Proof.
  intros H. unfold parse_path, print_path. rewrite chars_unchars. apply parse_print; [done|].
  by rewrite <- length_chars, chars_unchars.
Qed.

Lemma path_roundtrip_witness :
  parse_path "results[mapNs.iteration.key].score" =
    [mkPart "results" (Some "mapNs.iteration.key"%string); mkPart "score" None].
Proof.
  apply (path_roundtrip [mkPart "results" (Some "mapNs.iteration.key"%string); mkPart "score" None]).
  repeat constructor; discriminate.
Defined.

(** ** Keys are shorter than the paths they stand in *)

Lemma span_length {p : ascii -> bool} {l a b} : span p l = (a, b) -> length l = (length a + length b)%nat.
Proof. intros H. apply span_rest in H as [-> _]. apply length_app. Qed.

Lemma split1_length {c l a b} : split1 c l = (a, b) -> (length a <= length l /\ length (get_or [] b) <= length l)%nat.
Proof.
  intros H. pose proof (split1_spec c l) as Hs. rewrite H in Hs. destruct b as [b|]; destruct Hs as [-> _]; simpl; [|lia].
  rewrite length_app. simpl. lia.
Qed.

Lemma match_dynamic_length {l b k r} : match_dynamic l = Some (b, k, r) -> (length k < length l /\ length r < length l)%nat.
Proof.
  unfold match_dynamic. destruct (span _ l) as [b0 [|c l']] eqn:Es; [done|]. apply span_length in Es. simpl in Es.
  destruct (Ascii.eqb c lbracket); [|done]. destruct (split1 rbracket l') as [[|x key] [rest|]] eqn:E1; try done.
  destruct (split1_length E1) as [H1 H2]. simpl get_or in H2. set (rest' := match rest with [] => _ | _ => _ end).
  assert (H3 : (length rest' <= length rest)%nat) by (unfold rest'; destruct rest as [|c' rest]; [done|]; destruct (Ascii.eqb c' dot); simpl; lia).
  destruct (match_rest rest') as [r'|] eqn:Er; [|done]. intros [= <- <- <-].
  assert (H4 : (length r' <= length rest')%nat).
  { unfold match_rest in Er. destruct (span _ rest') as [a [|d [|]]] eqn:E; try done; injection Er as <-;
      apply span_length in E; rewrite E; lia. }
  lia.
Qed.

Lemma parse_loop_keys n : forall l p k, p ∈ parse_loop n l -> dynamic_key p = Some k -> (String.length k < length l)%nat.
Proof.
  induction n as [|n IH]; intros l p k Hp Hk; [by apply elem_of_nil in Hp|].
  destruct l as [|c l]; [by apply elem_of_nil in Hp|]. unfold parse_loop in Hp; fold parse_loop in Hp.
  destruct (match_dynamic (c :: l)) as [[[b key] r]|] eqn:Em.
  - apply match_dynamic_length in Em as [H1 H2]. apply elem_of_cons in Hp as [->|Hp].
    + simpl in Hk. injection Hk as <-. by rewrite <- length_chars, chars_unchars.
    + specialize (IH r p k Hp Hk). lia.
  - destruct (split1 dot (c :: l)) as [a b] eqn:E1. apply split1_length in E1 as [_ H2]. apply elem_of_app in Hp as [Hp|Hp].
    + destruct a; [by apply elem_of_nil in Hp|]. by apply list_elem_of_singleton in Hp as ->.
    + specialize (IH _ p k Hp Hk). lia.
Qed.

Lemma parse_path_keys path p k : p ∈ parse_path path -> dynamic_key p = Some k -> (String.length k < String.length path)%nat.
Proof. intros Hp Hk. rewrite <- (length_chars path). by eapply parse_loop_keys. Qed.

Lemma parse_binding_length text b : parse_binding text = Ok b -> (String.length (field_path b) <= String.length text)%nat.
Proof.
  unfold parse_binding. destruct (negb _); [done|].
  destruct (split1 lbracket (chars text)) as [a o] eqn:E1. apply split1_length in E1 as [H1 _]. simpl fst.
  destruct (split1 dot a) as [prefix [base_path|]] eqn:E2; [|done]. apply split1_length in E2 as [_ H2]. simpl get_or in H2.
  set (full := if (0 <? count_char lbracket (chars text))%nat then _ else _).
  assert (Hf : (length full <= length (chars text))%nat).
  { unfold full. destruct (0 <? count_char lbracket (chars text))%nat; [|lia].
    destruct (split1 dot (chars text)) as [a' b'] eqn:E3. by apply split1_length in E3 as [_ H3]. }
  rewrite length_chars in Hf. intros H.
  assert (Hb : field_path b = unchars full) by (destruct (bool_decide _); by injection H as <-).
  by rewrite Hb, <- length_chars, chars_unchars.
Qed.

Section Laws.
Context (methods : value -> string -> option value) (hashable : value -> bool).
#[local] Notation traverse_path := (traverse_path methods hashable).
#[local] Notation traverse_fuel := (traverse_fuel methods hashable).
#[local] Notation walk := (walk methods).
#[local] Notation walk_dynamic := (walk_dynamic methods hashable).
#[local] Notation resolve_value := (resolve_value methods hashable).
#[local] Notation resolve_inputs := (resolve_inputs methods hashable).

Lemma walk_dynamic_ext f g parts : (forall p k, p ∈ parts -> dynamic_key p = Some k -> f k = g k) ->
  forall v, walk_dynamic f v parts = walk_dynamic g v parts.
Proof.
  induction parts as [|p parts IH]; intros H v; [done|]. simpl.
  assert (IH' : forall v, walk_dynamic f v parts = walk_dynamic g v parts) by (apply IH; intros p' k Hp; apply H; by right).
  destruct (dynamic_key p) as [k|] eqn:Ek.
  - rewrite (H p k) by (by left || done). destruct (if bool_decide _ then _ else _); [|done]. simpl. destruct (g k); [|done]. simpl.
    destruct (lookup_key hashable a0 a); [|done]. simpl. apply IH'.
  - destruct (navigate_single_part methods v (base p)); [|done]. simpl. apply IH'.
Qed.

Lemma traverse_fuel_enough n : forall m r w root path, (String.length path < n)%nat -> (String.length path < m)%nat ->
  traverse_fuel n r w root path = traverse_fuel m r w root path.
Proof.
  induction n as [|n IH]; intros [|m] r w root path Hn Hm; [lia..|]. simpl.
  destruct (bool_decide (path = ""%string)); [done|]. destruct (existsb (Ascii.eqb lbracket) (chars path)); [|done].
  apply walk_dynamic_ext. intros p k Hp Hk. destruct r as [r|]; [|done].
  pose proof (parse_path_keys path p k Hp Hk) as Hlen. destruct (parse_binding k) as [b|] eqn:Eb; [|done]. simpl.
  apply parse_binding_length in Eb. destruct (resolve r b) as [key_root|]; [|done]. simpl. apply IH; lia.
Qed.

(** [traverse_path] ends, and is the function its source defines: its
    calls on the keys inside a path, which are bindings that are resolved and
    traversed in turn, go to shorter and shorter texts. *)
Theorem traverse_path_equation r w root path :
  traverse_path r w root path =
    if bool_decide (path = ""%string) then Ok root
    else if existsb (Ascii.eqb lbracket) (chars path) then
      walk_dynamic (fun k =>
          match r with
          | None => Raise (ValueError "Dynamic key lookup requires resolver")
          | Some r' =>
              let? key_binding := parse_binding k in
              let? key_root := resolve r' key_binding in
              traverse_path r nobody key_root (field_path key_binding)
          end) root (parse_path path)
    else report w path (walk w root (map unchars (split_all dot (chars path)))).
Proof.
  unfold ValueResolver.traverse_path at 1. simpl.
  destruct (bool_decide (path = ""%string)); [done|]. destruct (existsb (Ascii.eqb lbracket) (chars path)); [|done].
  apply walk_dynamic_ext. intros p k Hp Hk. destruct r as [r|]; [|done].
  pose proof (parse_path_keys path p k Hp Hk) as Hlen. destruct (parse_binding k) as [b|] eqn:Eb; [|done]. simpl.
  apply parse_binding_length in Eb. destruct (resolve r b) as [key_root|]; [|done]. simpl. apply traverse_fuel_enough; lia.
Qed.

(** ** Inputs depend on nothing but the steps their bindings name *)

Definition own_step (b : InputBinding) : list string :=
  if bool_decide (namespace b = "step"%string) then list_of_option (step_name b) else [].

(** The steps that the keys in a path name, and the keys in their paths. *)
Fixpoint key_steps (fuel : nat) (path : string) : list string :=
  match fuel with
  | O => []
  | S fuel' =>
      if existsb (Ascii.eqb lbracket) (chars path) then
        List.concat (map (fun p =>
          match dynamic_key p with
          | Some k => match parse_binding k with
                      | Ok b => own_step b ++ key_steps fuel' (field_path b)
                      | Raise _ => []
                      end
          | None => []
          end) (parse_path path))
      else []
  end.

Definition named_steps (b : InputBinding) : list string := own_step b ++ key_steps (S (String.length (field_path b))) (field_path b).

(** The same namespaces, and the same outputs of these steps. *)
Definition agree (steps : list string) (r1 r2 : NamespaceResolver) : Prop :=
  handlers r1 = handlers r2 /\ forall x, x ∈ steps -> dget x (step_outputs r1) = dget x (step_outputs r2).

Lemma agree_weaken steps steps' r1 r2 : agree steps r1 r2 -> (forall x, x ∈ steps' -> x ∈ steps) -> agree steps' r1 r2.
Proof. intros [H1 H2] H. split; [done|]. intros x Hx. by apply H2, H. Qed.

Lemma resolve_agree b r1 r2 : agree (own_step b) r1 r2 -> resolve r1 b = resolve r2 b.
Proof.
  intros [Hh Ho]. unfold resolve. rewrite Hh. destruct (dget (namespace b) (handlers r2)); [done|].
  unfold own_step in Ho. destruct (bool_decide (namespace b = "step"%string)); [|done].
  destruct (step_name b) as [x|]; [|done]. unfold resolve_step. by rewrite Ho by by left.
Qed.

Lemma traverse_agree n : forall w root path r1 r2, agree (key_steps n path) r1 r2 ->
  traverse_fuel n (Some r1) w root path = traverse_fuel n (Some r2) w root path.
Proof.
  induction n as [|n IH]; intros w root path r1 r2 H; [done|]. simpl in *.
  destruct (bool_decide (path = ""%string)); [done|]. destruct (existsb (Ascii.eqb lbracket) (chars path)); [|done].
  apply walk_dynamic_ext. intros p k Hp Hk.
  assert (Hsub : agree (match parse_binding k with Ok b => own_step b ++ key_steps n (field_path b) | Raise _ => [] end) r1 r2).
  { apply (agree_weaken _ _ _ _ H). intros x Hx. apply list_elem_of_In, in_concat. eexists. split; [|by apply list_elem_of_In, Hx].
    apply in_map_iff. exists p. rewrite Hk. split; [done|]. by apply list_elem_of_In. }
  destruct (parse_binding k) as [b|]; [|done]. simpl.
  rewrite (resolve_agree b r1 r2) by (apply (agree_weaken _ _ _ _ Hsub); set_solver).
  destruct (resolve r2 b) as [key_root|]; [|done]. simpl. apply IH. apply (agree_weaken _ _ _ _ Hsub). set_solver.
Qed.

Lemma resolve_value_agree b r1 r2 : agree (named_steps b) r1 r2 -> resolve_value r1 b = resolve_value r2 b.
Proof.
  intros H. unfold ValueResolver.resolve_value. rewrite (resolve_agree b r1 r2) by (apply (agree_weaken _ _ _ _ H); unfold named_steps; set_solver).
  destruct (resolve r2 b) as [root|]; [|done]. simpl. apply traverse_agree. apply (agree_weaken _ _ _ _ H). unfold named_steps. set_solver.
Qed.

Lemma exn_map_ext {A B} (f g : A -> exn B) l : (forall x, x ∈ l -> f x = g x) -> exn_map f l = exn_map g l.
Proof.
  induction l as [|x l IH]; intros H; [done|]. simpl. rewrite (H x) by by left. destruct (g x); [|done]. simpl.
  fold (exn_map f). fold (exn_map g). rewrite IH; [done|]. intros y Hy. apply H. by right.
Qed.

Lemma resolve_inputs_agree steps bs r1 r2 : agree steps r1 r2 ->
  (forall k b, (k, b) ∈ bs -> forall x, x ∈ named_steps b -> x ∈ steps) -> resolve_inputs r1 bs = resolve_inputs r2 bs.
Proof.
  intros H Hsub. apply exn_map_ext. intros [k b] Hin. simpl.
  by rewrite (resolve_value_agree b r1 r2) by (apply (agree_weaken _ _ _ _ H); by eapply Hsub).
Qed.

End Laws.

(** ** The inputs of a step come from its dependencies *)

Section Steps.
Context (cond_names : string -> option (list string)) (dependency_fields : string -> list string).
Context (methods : value -> string -> option value) (hashable : value -> bool).

(** No key in the path, and the name of a step that may exist. *)
Definition plain_binding (b : InputBinding) : Prop :=
  existsb (Ascii.eqb lbracket) (chars (field_path b)) = false /\ step_name b <> Some ""%string.

Lemma plain_named b x : plain_binding b -> x ∈ named_steps b -> binding_step b = Some x.
Proof.
  intros [Hp Hs]. unfold named_steps. simpl. rewrite Hp, app_nil_r. unfold own_step, binding_step.
  destruct (bool_decide (namespace b = "step"%string)); [|by intros ?%elem_of_nil]. destruct (step_name b) as [y|]; [|by intros ?%elem_of_nil].
  simpl. intros ->%list_elem_of_singleton. rewrite bool_decide_false; [done|]. intros ->. done.
Qed.

(** C27: The handler inputs of a step are determined by its dependencies (its map
    inputs are not: [map_inputs_no_dependency]).  If the bindings of
    [handler_inputs] have no dynamic keys, then in any two contexts with the same source, options and map iteration, and the same
    outputs of the steps that [computed_depends_on] lists, they resolve to the
    same inputs or the same error; so what the executor runs concurrently, or
    has not run yet, makes no difference. *)
Theorem inputs_determined s deps r1 r2 :
  computed_depends_on cond_names dependency_fields s = Ok deps ->
  (forall k b, (k, b) ∈ PipelineStep.handler_inputs s -> plain_binding b) ->
  agree deps r1 r2 ->
  resolve_inputs methods hashable r1 (PipelineStep.handler_inputs s) = resolve_inputs methods hashable r2 (PipelineStep.handler_inputs s).
Proof.
  intros Hd Hp Ha. apply (resolve_inputs_agree _ _ deps); [done|]. intros k b Hb x Hx.
  unfold computed_depends_on in Hd. destruct (map_config_deps s) as [mapped|]; [|done]. simpl in Hd. injection Hd as <-.
  apply elem_of_set_add_all. left. apply elem_of_app. left. unfold handler_input_deps. apply list_elem_of_In, in_concat.
  exists [x]. split; [|by left]. apply in_map_iff. exists (k, b). simpl. rewrite (plain_named b x (Hp k b Hb) Hx).
  split; [done|]. by apply list_elem_of_In.
Qed.

End Steps.

(** ** What a path means *)

Section Meaning.
Context (methods : value -> string -> option value) (hashable : value -> bool).
#[local] Notation traverse_path := (traverse_path methods hashable).
#[local] Notation walk := (walk methods).
#[local] Notation walk_dynamic := (walk_dynamic methods hashable).

Definition path_of (parts : list string) : string := unchars (join dot (map chars parts)).

(** A part that is a name: not empty, no wildcard, no syntax in it. *)
Definition plain_part (part : string) : Prop :=
  part <> ""%string /\ part <> "*"%string /\ no_char dot (chars part) = true /\
  no_char lbracket (chars part) = true /\ no_char newline (chars part) = true.

Definition static (part : string) : PathPart := mkPart part None.

Lemma report_nobody path r : report nobody path r = r.
Proof. by destruct r as [|[]]. Qed.

Lemma walk_name v p rest : p <> "*"%string ->
  walk nobody v (p :: rest) = let? v' := navigate_single_part methods v p in walk nobody v' rest.
Proof. intros Hne. destruct v; try done. cbn [ValueResolver.walk navigate_single_part]. by rewrite bool_decide_false. Qed.

Lemma walk_app p : forall v q, "*"%string ∉ p -> walk nobody v (p ++ q) = let? v' := walk nobody v p in walk nobody v' q.
Proof.
  induction p as [|part p IH]; intros v q Hp; [done|]. apply not_elem_of_cons in Hp as [Hne Hp]. cbn [app].
  rewrite !walk_name by (by apply not_eq_sym). destruct (navigate_single_part methods v part); simpl; [by apply IH | done].
Qed.

Lemma no_bracket_join parts : Forall (fun p => no_char lbracket (chars p) = true) parts ->
  existsb (Ascii.eqb lbracket) (join dot (map chars parts)) = false.
Proof.
  assert (Hone : forall l, no_char lbracket l = true -> existsb (Ascii.eqb lbracket) l = false).
  { induction l as [|x l IH]; [done|]. intros [Hx Hl]%andb_true_iff. apply negb_true_iff in Hx.
    cbn [existsb]. rewrite Ascii.eqb_sym, Hx. by apply IH. }
  intros H. induction H as [|p parts Hp H IH]; [done|]. destruct parts as [|q parts]; [by apply Hone|].
  change (join dot (map chars (p :: q :: parts))) with (chars p ++ dot :: join dot (map chars (q :: parts))).
  rewrite existsb_app, (Hone _ Hp). exact IH.
Qed.

Lemma join_nil_iff parts : Forall (fun p => p <> ""%string) parts -> join dot (map chars parts) = [] -> parts = [].
Proof.
  intros H E. destruct H as [|p parts Hp H]; [done|]. exfalso. destruct parts as [|q parts]; simpl in E.
  - apply Hp. by apply chars_inj.
  - by destruct (chars p).
Qed.

(** Without syntax for keys, [traverse_path] is the walk along the parts. *)
Lemma traverse_walk r v parts : parts <> [] ->
  Forall (fun p => no_char dot (chars p) = true /\ no_char lbracket (chars p) = true) parts -> path_of parts <> ""%string ->
  traverse_path r nobody v (path_of parts) = walk nobody v parts.
Proof.
  intros Hne H Hp. rewrite traverse_path_equation, bool_decide_false by done. unfold path_of at 1. rewrite chars_unchars.
  rewrite no_bracket_join by (eapply Forall_impl; [exact H|]; by intros ? []). rewrite report_nobody. unfold path_of. rewrite chars_unchars.
  rewrite split_join; [|by destruct parts|].
  - rewrite map_map. f_equal. rewrite <- (map_id parts) at 2. apply map_ext. intros p. apply unchars_chars.
  - apply List.Forall_map. eapply Forall_impl; [exact H|]. by intros ? [].
Qed.

Lemma plain_syntax parts : Forall plain_part parts ->
  Forall (fun p => no_char dot (chars p) = true /\ no_char lbracket (chars p) = true) parts.
Proof. intros H. eapply Forall_impl; [exact H|]. by intros ? (_ & _ & ? & ? & _). Qed.

Lemma plain_path r v parts : Forall plain_part parts -> traverse_path r nobody v (path_of parts) = walk nobody v parts.
Proof.
  intros H. destruct parts as [|p parts]; [by rewrite traverse_path_equation|]. apply traverse_walk; [done|by apply plain_syntax|].
  intros E. assert (Hn : p :: parts = []); [|done]. apply join_nil_iff.
  - eapply Forall_impl; [exact H|]. by intros ? (? & _).
  - unfold path_of in E. apply (f_equal chars) in E. by rewrite chars_unchars in E.
Qed.

Lemma plain_no_wildcard parts : Forall plain_part parts -> "*"%string ∉ parts.
Proof. intros H Hin. rewrite List.Forall_forall in H. apply list_elem_of_In in Hin. by destruct (H _ Hin) as (_ & ? & _). Qed.

(** Paths compose.  A path of names followed by any path is walked by
    walking the first and then the second from what it found; a wildcard on a
    collection walks the rest from every output, in order, and fails with the
    first that fails. *)
Theorem traverse_compositional r parts q v c :
  Forall plain_part parts -> q <> [] ->
  Forall (fun p => no_char dot (chars p) = true /\ no_char lbracket (chars p) = true) q -> path_of q <> ""%string ->
  traverse_path r nobody v (path_of (parts ++ q)) =
    (let? v' := traverse_path r nobody v (path_of parts) in traverse_path r nobody v' (path_of q)) /\
  traverse_path r nobody (VColl c) (path_of ("*"%string :: q)) =
    (let? l := exn_map (fun output => traverse_path r nobody output (path_of q)) (c_outputs c) in Ok (VList l)).
Proof.
  intros Hp Hq Hs Hne. assert (Hwild : forall p l, l <> [] -> path_of (p :: l) <> ""%string).
  { intros p l Hl E. apply (f_equal chars) in E. unfold path_of in E. rewrite chars_unchars in E. destruct l as [|x l]; [done|].
    simpl in E. by destruct (chars p). }
  split.
  - rewrite (plain_path r v parts) by done. rewrite traverse_walk.
    + rewrite walk_app by (by apply plain_no_wildcard). destruct (walk nobody v parts) as [v'|]; [|done]. simpl. by rewrite traverse_walk.
    + by destruct parts, q.
    + apply List.Forall_app. split; [by apply plain_syntax | done].
    + destruct parts as [|p parts]; [done|]. simpl. apply Hwild. by destruct parts, q.
  - rewrite traverse_walk; [|done|by constructor|by apply Hwild]. cbn [ValueResolver.walk]. rewrite bool_decide_true by done.
    destruct (join dot (map chars q)) as [|a l] eqn:E.
    + exfalso. apply Hne. unfold path_of. by rewrite E.
    + f_equal. apply exn_map_ext. intros o _. by rewrite report_nobody, traverse_walk.
Qed.

Lemma static_wf parts : Forall plain_part parts -> Forall wf_part (map static parts).
Proof. intros H. apply List.Forall_map. eapply Forall_impl; [exact H|]. intros p (? & _ & ? & ? & ?). by split_and!. Qed.

Lemma walk_dynamic_app f p : forall v q, walk_dynamic f v (p ++ q) = let? v' := walk_dynamic f v p in walk_dynamic f v' q.
Proof.
  induction p as [|part p IH]; intros v q; [done|]. simpl. destruct (dynamic_key part) as [k|].
  - destruct (if bool_decide _ then _ else _); [|done]. simpl. destruct (f k); [|done]. simpl. destruct (lookup_key hashable _ _); [|done]. apply IH.
  - destruct (navigate_single_part methods v (base part)); [|done]. apply IH.
Qed.

Lemma walk_static f parts : "*"%string ∉ parts -> forall v, walk_dynamic f v (map static parts) = walk nobody v parts.
Proof.
  induction parts as [|p parts IH]; intros Hp v; [done|]. apply not_elem_of_cons in Hp as [Hne Hp].
  rewrite walk_name by (by apply not_eq_sym). cbn [map ValueResolver.walk_dynamic static dynamic_key base].
  destruct (navigate_single_part methods v p); simpl; [by apply IH | done].
Qed.

(** A key in brackets is a binding of its own.  On a path of names with
    a key at one of them, the traversal for dynamic keys does what
    [traverse_path] does up to that name, looks the value of the key's binding
    up in the dict found there, and goes on from the entry. *)
Theorem dynamic_key_exact r w v before name k after :
  Forall plain_part (before ++ [name]) -> Forall plain_part after ->
  k <> ""%string -> no_char rbracket (chars k) = true -> no_char newline (chars k) = true ->
  traverse_path (Some r) w v (print_path (map static before ++ mkPart name (Some k) :: map static after)) =
    (let? v1 := traverse_path (Some r) nobody v (path_of (before ++ [name])) in
     let? key := (let? b := parse_binding k in resolve_value methods hashable r b) in
     let? v2 := lookup_key hashable key v1 in
     traverse_path (Some r) nobody v2 (path_of after)).
Proof.
  intros Hb Ha Hk Hkr Hkn. set (parts := map static before ++ mkPart name (Some k) :: map static after).
  assert (Hwf : Forall wf_part parts).
  { apply List.Forall_app in Hb as [Hb Hn]. apply List.Forall_app. split; [by apply static_wf|]. constructor; [|by apply static_wf].
    apply Forall_singleton in Hn as (_ & _ & ? & ? & ?). by split_and!. }
  assert (Hbr : existsb (Ascii.eqb lbracket) (chars (print_path parts)) = true).
  { unfold print_path. rewrite chars_unchars. apply existsb_exists. exists lbracket. split; [|by rewrite Ascii.eqb_refl].
    assert (Hin : lbracket ∈ print_part (mkPart name (Some k))) by (unfold print_part; simpl; set_solver).
    assert (Hj : forall l p c, p ∈ l -> c ∈ p -> c ∈ join dot l).
    { induction l as [|x l IH]; intros p c Hp Hc; [by apply elem_of_nil in Hp|]. destruct l as [|y l].
      - by apply list_elem_of_singleton in Hp as ->.
      - change (join dot (x :: y :: l)) with (x ++ dot :: join dot (y :: l)). apply elem_of_app.
        apply elem_of_cons in Hp as [->|Hp]; [by left | right; right; by eapply IH]. }
    apply list_elem_of_In. apply (Hj _ (print_part (mkPart name (Some k)))); [|done]. apply list_elem_of_fmap. eexists. split; [done|].
    unfold parts. set_solver. }
  rewrite traverse_path_equation, Hbr, bool_decide_false by (intros E; by rewrite E in Hbr).
  rewrite (path_roundtrip parts Hwf). unfold parts. rewrite walk_dynamic_app. cbn [ValueResolver.walk_dynamic dynamic_key base].
  rewrite plain_path by done. pose proof (plain_no_wildcard _ Hb) as Hnw. rewrite (walk_app before) by set_solver.
  rewrite walk_static by set_solver. destruct (walk nobody v before) as [v0|]; [|done]. cbn [exn_bind].
  assert (Hname : plain_part name) by (apply List.Forall_app in Hb as [_ Hname]; by inversion Hname).
  rewrite bool_decide_false by (by destruct Hname as (? & _)). rewrite (walk_name v0 name []) by (by destruct Hname as (_ & ? & _)).
  destruct (navigate_single_part methods v0 name) as [v1|]; [|done]. simpl.
  unfold resolve_value. destruct (parse_binding k) as [b|]; [|done]. simpl. destruct (resolve r b) as [key_root|]; [|done]. simpl.
  destruct (ValueResolver.traverse_path methods hashable (Some r) nobody key_root (field_path b)) as [key|]; [|done]. simpl.
  destruct (lookup_key hashable key v1) as [v2|]; [|done]. simpl. rewrite plain_path by done. apply walk_static. by apply plain_no_wildcard.
Qed.

End Meaning.

(** ** Instances *)

Definition no_methods (_ : value) (_ : string) : option value := None.
Definition no_hash (_ : value) : bool := false.
Definition output_of (json : list (string * value)) : value := VObj [("raw", VStr ""); ("json", VDict json)]%string.
Definition answers : @MapOutputCollection value :=
  mkCollection [output_of [("score", VInt 8)]%string; output_of [("score", VInt 9)]%string]
    [Some "qwen"; Some "phi"]%string (Some [0; 1]%nat) (Some 2%nat).
Definition a_resolver : NamespaceResolver :=
  with_map_context (map_state 0 (VStr "qwen") (Some "qwen"%string) 2 VNone)
    (make_resolver (source_input "hello" [] VNone) [("names", VDict [("qwen", VStr "Qwen")])]%string
       [("extract", output_of [("topic", VStr "cats")]); ("answer_all", VColl answers)]%string).
Definition value_of (binding : string) : exn value :=
  let? b := parse_binding binding in resolve_value no_methods no_hash a_resolver b.

Example value_of_step : value_of "extract.json.topic" = Ok (VStr "cats").
Proof. vm_compute. reflexivity. Qed.
Example value_of_wildcard : value_of "answer_all.*.json.score" = Ok (VList [VInt 8; VInt 9]).
Proof. vm_compute. reflexivity. Qed.
Example value_of_key : value_of "optionsNs.names[mapNs.iteration.key]" = Ok (VStr "Qwen").
Proof. vm_compute. reflexivity. Qed.
Example value_of_last : value_of "answer_all.-1.json.score" = Ok (VInt 9).
Proof. vm_compute. reflexivity. Qed.

Lemma plain_part_decided p :
  negb (bool_decide (p = ""%string)) && negb (bool_decide (p = "*"%string)) && no_char dot (chars p) &&
  no_char lbracket (chars p) && no_char newline (chars p) = true -> plain_part p.
Proof. rewrite !andb_true_iff, !negb_true_iff, !bool_decide_eq_false. intros [[[[? ?] ?] ?] ?]. by split_and!. Qed.

Lemma traverse_compositional_witness :
  traverse_path no_methods no_hash None nobody (VColl answers) (path_of ["*"; "json"; "score"]%string) =
    Ok (VList [VInt 8; VInt 9]).
Proof.
  destruct (traverse_compositional no_methods no_hash None ["json"]%string ["json"; "score"]%string VNone answers) as [_ H].
  - constructor; [by apply plain_part_decided | constructor].
  - discriminate.
  - repeat constructor.
  - discriminate.
  - exact (eq_trans H ltac:(vm_compute; reflexivity)).
Defined.

Lemma dynamic_key_exact_witness :
  traverse_path no_methods no_hash (Some a_resolver) nobody (VDict [("names", VDict [("qwen", VStr "Qwen")])]%string)
    "names[mapNs.iteration.key]" = Ok (VStr "Qwen").
Proof.
  pose proof (dynamic_key_exact no_methods no_hash a_resolver nobody (VDict [("names", VDict [("qwen", VStr "Qwen")])]%string)
    [] "names" "mapNs.iteration.key" []) as H.
  refine (eq_trans (H _ _ _ _ _) _); [|constructor|discriminate|reflexivity|reflexivity|vm_compute; reflexivity].
  constructor; [by apply plain_part_decided | constructor].
Defined.

Definition a_step (inputs : list (string * InputBinding)) (map_config : option (list (string * Yaml))) : StepConfig :=
  mkStep "summarize" "generate" inputs [] map_config None None [] None.
Definition topic_binding : InputBinding := mkBinding "step" (Some "extract"%string) "json.topic" None.
Definition no_names (_ : string) : option (list string) := None.
Definition no_fields (_ : string) : list string := [].

(** Whatever else has run. *)
Lemma inputs_determined_witness :
  resolve_inputs no_methods no_hash
    (make_resolver VNone [] [("extract", output_of [("topic", VStr "cats")]); ("other", VNone)]%string) [("topic"%string, topic_binding)]
  = resolve_inputs no_methods no_hash
      (make_resolver VNone [] [("extract", output_of [("topic", VStr "cats")])]%string) [("topic"%string, topic_binding)].
Proof.
  apply (inputs_determined no_names no_fields no_methods no_hash (a_step [("topic"%string, topic_binding)] None) ["extract"%string]).
  - reflexivity.
  - intros k b Hin. apply list_elem_of_singleton in Hin as [= -> ->]. by split.
  - split; [reflexivity|]. intros x Hx. by apply list_elem_of_singleton in Hx as ->.
Defined.

(** *** What modelling showed *)

(** A step that only [map_inputs], [model_pool] or a dynamic key names is no
    dependency: the run may start the step first, and its binding fails. *)
Example map_inputs_no_dependency :
  let s := a_step [] (Some [("map_over", YDict [("item", YStr "optionsNs.items")]);
                            ("map_inputs", YDict [("topic", YStr "extract.json.topic")])])%string in
  computed_depends_on no_names no_fields s = Ok [] /\
  resolve_value no_methods no_hash (make_resolver VNone [] []) topic_binding = Raise KeyError.
Proof. vm_compute. by split. Qed.

Example dynamic_key_no_dependency :
  exists b, parse_binding "optionsNs.names[extract.json.topic]" = Ok b /\
    computed_depends_on no_names no_fields (a_step [("name"%string, b)] None) = Ok [] /\
    resolve_value no_methods no_hash (make_resolver VNone [("names", VDict [])]%string []) b = Raise KeyError /\
    named_steps b = ["extract"%string].
Proof. eexists. split; [vm_compute; reflexivity|]. vm_compute. by split_and!. Qed.

(** A registered namespace cannot be reached from a binding text. *)
Example custom_namespace_unreachable :
  match register_namespace "myNs" (fun _ => Ok (VDict [("flag", VBool true)]%string)) (make_resolver VNone [] []) with
  | Ok r => (let? b := parse_binding "myNs.flag" in resolve_value no_methods no_hash r b) = Raise KeyError
  | Raise _ => False
  end.
Proof. vm_compute. reflexivity. Qed.

(** Balanced brackets do not make a path valid: a key cannot hold a key. *)
Example nested_key_rejected :
  is_ok (parse_binding "optionsNs.names[optionsNs.keys[mapNs.iteration.key]]") = true /\
  value_of "optionsNs.names[optionsNs.keys[mapNs.iteration.key]]" = Raise (ValueError "Unbalanced brackets in binding").
Proof. vm_compute. by split. Qed.

(** A wildcard does not distribute over a path with a key. *)
Example wildcard_lost_with_key :
  traverse_path no_methods no_hash (Some a_resolver) nobody (VColl answers) "*.json" =
    Ok (VList [VDict [("score", VInt 8)]; VDict [("score", VInt 9)]])%string /\
  traverse_path no_methods no_hash (Some a_resolver) nobody (VColl answers) "*.json[mapNs.iteration.key]" = Raise AttributeError.
Proof. vm_compute. by split. Qed.

(** Neither an index out of range nor any failure of a path with a key is
    reported for the step and field given. *)
Example failures_unreported :
  let w := mkCaller (Some "summarize") (Some "topic") (Some "binding")%string in
  traverse_path no_methods no_hash None w (VColl answers) "5.json" = Raise IndexError /\
  traverse_path no_methods no_hash (Some a_resolver) w (VDict [("names", VDict [])]%string) "names[mapNs.iteration.key]" = Raise KeyError /\
  traverse_path no_methods no_hash None w (VDict []) "names" = Raise (BindingResolutionError "summarize" "topic" "binding").
Proof. vm_compute. by split_and!. Qed.
