(* ===== verification/MapIteration.v ===== *)
(** * The iterations of a map step
    ([map_reduce/map_executor/iteration_preparer.py],
    [map_executor/executor/execute_flow.py, iteration_execution.py])

    From [map_over] to the items, from an item to its inputs, its model and its
    step, and around them the run of a map step in the modes of [MapReduce].
    The handler is a function of the step it is given; its typed inputs, the
    events, the clock and the concurrency cap are left out. *)
From stdpp Require Import base gmap list strings.
From Stdlib Require Import ZArith QArith Lia.
From S2P Require Import Prelude PyString PipelineStep MapReduce ValueResolver.
Open Scope Z_scope.
#[local] Set Default Proof Using "Type".

(** [{**d, **e}] *)
Definition merge {V} (d e : list (string * V)) : list (string * V) := fold_left (fun d kv => dset kv.1 kv.2 d) e d.

(** [bool(v)] *)
Definition truthy_value (v : value) : bool :=
  match v with
  | VNone => false
  | VBool b => b
  | VInt z => negb (z =? 0)
  | VFloat q => negb (Qeq_bool q 0)
  | VStr s => negb (bool_decide (s = ""%string))
  | VList l => match l with [] => false | _ => true end
  | VDict d => match d with [] => false | _ => true end
  | VColl c => match c_outputs c with [] => false | _ => true end
  | VObj _ => true
  end.

Record MapConfig := mkMap {
  map_over : list (string * InputBinding);
  map_inputs : list (string * InputBinding);
  timeout_seconds : option Q;
  min_success_threshold : Threshold;
  fail_fast : bool;
  has_inference_timeout : bool;
  model_pool : option InputBinding;
  model_requirements : bool;          (* given and not empty *)
  exclude_self : bool;
  selection : string
}.

(** The attributes of a step configuration that are data, and what a map step
    is made of. *)
Record MapStep := mkMapStep {
  fields : list (string * value);
  map_handler_inputs : list (string * InputBinding);
  step_map : MapConfig
}.

Definition Item : Type := nat * value * option string.
Definition item_index (i : Item) : nat := i.1.1.
Definition item_value (i : Item) : value := i.1.2.
Definition item_key (i : Item) : option string := i.2.

(** [[(i, v, k) for i, (k, v) in enumerate(l)]] *)
Definition enumerate (l : list (option string * value)) : list Item :=
  map (fun ikv => (fst ikv, snd (snd ikv), fst (snd ikv))) (zip (seq 0 (length l)) l).

Record Checkpoint := mkCheckpoint {
  output_raw : string;
  output_json : list (string * value);      (* missing or empty alike *)
  output_meta : list (string * value)
}.

(** How the run of a map step ends. *)
Inductive MapEnd : Type :=
  | MapReturned (c : @MapOutputCollection value) (failed_hints : list (nat * string))
  | MapRaised (e : error)
  | MapPartial (f : PartialFailure)
  | MapWaiting.

Section Iterations.
Context (methods : value -> string -> option value) (hashable : value -> bool).
#[local] Notation traverse_path := (traverse_path methods hashable).
#[local] Notation resolve_inputs := (resolve_inputs methods hashable).

(** ** [resolve_map_over] *)

Definition items_of (v : value) : exn (list Item) :=
  match v with
  | VList l => Ok (enumerate (map (fun v => (None, v)) l))
  | VDict d => Ok (enumerate (map (fun kv => (Some kv.1, kv.2)) d))
  | VColl c =>
      match collection_items c with
      | Ok l => Ok (enumerate (map (fun kv => (Some kv.1, kv.2)) l))
      | Raise (ValueError _) => Ok (enumerate (map (fun v => (None, v)) (c_outputs c)))
      | Raise e => Raise e
      end
  | _ => Raise (TypeError "map_over field must resolve to list, dict, or MapOutputCollection")
  end.

Definition resolve_map_over (r : NamespaceResolver) (bindings : list (string * InputBinding)) : exn (list Item) :=
  match bindings with
  | [(_, binding)] =>
      let? root := resolve r binding in
      let? v :=
        match root with
        | VColl _ => if bool_decide (field_path binding = "*"%string) then Ok root
                     else if bool_decide (field_path binding = ""%string) then Ok root
                     else traverse_path (Some r) nobody root (field_path binding)
        | _ => if bool_decide (field_path binding = ""%string) then Ok root
               else traverse_path (Some r) nobody root (field_path binding)
        end in
      items_of v
  | _ => Raise NotImplementedError
  end.

(** ** [build_pool_assignments] *)

Definition is_name (o : string) (m : value) : bool := match m with VStr s => bool_decide (s = o) | _ => false end.

(** [select_from_pool] on what the pool holds. *)
Definition select_value (pool : list value) (originator : option string) (exclude_self : bool)
    (selection : string) (idx : nat) (random_choice : list value -> value) : exn value :=
  let candidates :=
    match originator with
    | Some o => if exclude_self && negb (bool_decide (o = ""%string)) then
                  match List.filter (fun m => negb (is_name o m)) pool with
                  | [] => [VStr o]
                  | l => l
                  end
                else pool
    | None => pool
    end in
  match candidates with
  | [] => Raise (ValueError "Model candidate pool is empty after filtering.")
  | first :: _ =>
      if bool_decide (selection = "random"%string) then Ok (random_choice candidates)
      else if bool_decide (selection = "rotate"%string)
      then Ok (nth (idx mod length candidates) candidates first)
      else Ok first
  end.

(** [required]: the models [async_resolve_model_requirements] finds. *)
Context (required : exn (list string)) (random_choice : nat -> list value -> value).

Definition assign_all (cfg : MapConfig) (pool : list value) (items : list Item) : exn (list (nat * value)) :=
  exn_map (fun i =>
      let? m := select_value pool (item_key i) (exclude_self cfg) (selection cfg) (item_index i) (random_choice (item_index i)) in
      Ok (item_index i, m)) items.

Definition build_pool_assignments (r : NamespaceResolver) (cfg : MapConfig) (items : list Item) : exn (list (nat * value)) :=
  match model_pool cfg with
  | None =>
      if model_requirements cfg then
        let? resolved_ids := required in
        match resolved_ids with
        | [] => Ok []
        | _ => assign_all cfg (map VStr resolved_ids) items
        end
      else Ok []
  | Some pool_binding =>
      let? pool_root := resolve r pool_binding in
      let? pool := traverse_path (Some r) nobody pool_root (field_path pool_binding) in
      match pool with
      | VList [] => Raise (ValueError "model_pool resolved to empty list")
      | VList l => assign_all cfg l items
      | _ => Raise (TypeError "model_pool must resolve to list")
      end
  end.

(** [pool_assignments.get(idx)] *)
Definition assigned_to (idx : nat) (assignments : list (nat * value)) : value :=
  match List.find (fun im => (fst im =? idx)%nat) assignments with Some (_, m) => m | None => VNone end.

(** ** One iteration *)

Definition prepare_iteration_inputs (r : NamespaceResolver) (s : MapStep) (i : Item) (total : nat) (assigned_model : value)
  : exn (NamespaceResolver * list (string * value) * list (string * value)) :=
  let iter_resolver := with_map_context (map_state (item_index i) (item_value i) (item_key i) total assigned_model) r in
  let? map_input_values := resolve_inputs iter_resolver (map_inputs (step_map s)) in
  let? handler_input_values := resolve_inputs iter_resolver (map_handler_inputs s) in
  Ok (iter_resolver, merge handler_input_values map_input_values, map_input_values).

(** What [hasattr] finds of a step besides data. *)
Context (step_attribute : string -> bool).

Definition has_field (s : MapStep) (field : string) : bool :=
  bool_decide (is_Some (dget field (fields s))) || step_attribute field.

Definition overridden (s : MapStep) (field : string) (v : value) : value :=
  match v with
  | VDict d =>
      if bool_decide (field = "generation_parameters"%string)
      then VDict (merge (match dget field (fields s) with Some (VDict base) => base | _ => [] end) d)
      else v
  | _ => v
  end.

Definition split_inputs (s : MapStep) (map_inputs : list (string * value)) : list (string * value) * list (string * value) :=
  fold_left (fun acc fv =>
      if has_field s fv.1 then (dset fv.1 (overridden s fv.1 fv.2) acc.1, acc.2)
      else (acc.1, dset fv.1 fv.2 acc.2)) map_inputs ([], []).

Definition create_iteration_step (s : MapStep) (map_inputs : list (string * value)) (assigned_model : value)
  : list (string * value) :=
  let (step_overrides, template_inputs) := split_inputs s map_inputs in
  let step_overrides :=
    if truthy_value assigned_model && negb (bool_decide (is_Some (dget "model_ref"%string step_overrides)))
    then dset "model_ref"%string assigned_model step_overrides else step_overrides in
  let step_overrides :=
    match template_inputs with
    | [] => step_overrides
    | _ => dset "resolved_map_inputs"%string (VDict template_inputs) step_overrides
    end in
  merge (fields s) step_overrides.

(** The [StepOutput] of [step_types] that a checkpoint comes back as. *)
Definition cached_output (c : Checkpoint) : value :=
  VObj [("data", VDict (match output_json c with [] => [("raw", VStr (output_raw c))]%string | j => j end));
        ("metadata", VDict (output_meta c))]%string.

(** The checkpoint found for an iteration, and the handler. *)
Context (checkpoint : nat -> option Checkpoint) (execute : list (string * value) -> exn value).

Definition execute_iteration (r : NamespaceResolver) (s : MapStep) (total : nat) (i : Item) (assigned_model : value) : exn value :=
  let? prepared := prepare_iteration_inputs r s i total assigned_model in
  match checkpoint (item_index i) with
  | Some c => Ok (cached_output c)
  | None => execute (create_iteration_step s (snd prepared) assigned_model)
  end.

(** ** [execute_map] *)

(** Iterations the inference-timeout monitor stops, the text of an error, the
    gateways, and when [asyncio.wait] and [gather] see which tasks end. *)
Context (stopped : nat -> bool) (message : error -> string) (gateway : nat -> option string).

Definition task_end (run : Item -> exn value) (items : list Item) (idx : nat) : TaskEnd value :=
  if stopped idx then Stopped
  else match List.find (fun i => (item_index i =? idx)%nat) items with
       | Some i => match run i with Ok v => Succeeds v | Raise e => Fails (message e) end
       | None => Stopped
       end.

Definition of_mode (total : nat) (m : @ModeResult value) : MapEnd :=
  match m with
  | Returned o hints => MapReturned (make_collection o total) hints
  | PartialFailed f => MapPartial f
  | NotFinished => MapWaiting
  end.

(** [gather]: the first error in the order the tasks end, else all outputs. *)
Fixpoint gather (run : Item -> exn value) (items : list Item) (ended : list Item) : exn (list value) :=
  match ended with
  | [] => exn_map run items
  | i :: ended' => match run i with Raise e => Raise e | Ok _ => gather run items ended' end
  end.

Definition execute_map (r : NamespaceResolver) (s : MapStep) (batches : list (Q * list nat)) (ended : list Item) : MapEnd :=
  let cfg := step_map s in
  match resolve_map_over r (map_over cfg) with
  | Raise e => MapRaised e
  | Ok [] => MapReturned (mkCollection [] [] None None) []
  | Ok items =>
      let total := length items in
      match (let? assignments := build_pool_assignments r cfg items in
             (* [_build_iteration_context] *)
             let? _ := exn_map (fun i => prepare_iteration_inputs r s i total (assigned_to (item_index i) assignments)) items in
             Ok assignments) with
      | Raise e => MapRaised e
      | Ok assignments =>
          let run i := execute_iteration r s total i (assigned_to (item_index i) assignments) in
          let metadata := map (fun i => (item_index i, item_key i)) items in
          if fail_fast cfg then
            of_mode total (execute_with_fail_fast (task_end run items) gateway metadata (Z.of_nat total)
                             (min_success_threshold cfg) (map snd batches))
          else if bool_decide (is_Some (timeout_seconds cfg)) || has_inference_timeout cfg then
            of_mode total (execute_with_timeout (task_end run items) gateway metadata (Z.of_nat total)
                             (match timeout_seconds cfg with
                              | Some t => if Qeq_bool t 0 then 3600%Q else t
                              | None => 3600%Q
                              end) (min_success_threshold cfg) batches)
          else match gather run items ended with
               | Raise e => MapRaised e
               | Ok outputs => MapReturned (mkCollection outputs (map item_key items) (Some (seq 0 total)) (Some total)) []
               end
      end
  end.

End Iterations.

(** ** Items *)

Lemma enumerate_lookup l j : enumerate l !! j = (fun kv => (j, snd kv, fst kv)) <$> l !! j.
Proof.
  unfold enumerate. change (map ?f ?x) with (f <$> x). rewrite list_lookup_fmap.
  destruct (l !! j) as [kv|] eqn:E; simpl.
  - assert (Hz : zip (seq 0 (length l)) l !! j = Some (j, kv)).
    { apply lookup_zip_with_Some. exists j, kv. split; [done|]. split; [|done].
      pose proof (lookup_lt_Some _ _ _ E). rewrite lookup_seq_lt by done. done. }
    by rewrite Hz.
  - rewrite lookup_ge_None_2; [done|]. apply lookup_ge_None in E. rewrite length_zip. lia.
Qed.

Lemma enumerate_length l : length (enumerate l) = length l.
Proof. unfold enumerate. rewrite length_map, length_zip, length_seq. lia. Qed.

Lemma enumerate_indices l : map item_index (enumerate l) = seq 0 (length l).
Proof.
  apply list_eq. intros j. change (map item_index) with (fmap (M := list) item_index).
  rewrite list_lookup_fmap, enumerate_lookup. destruct (decide (j < length l)%nat) as [Hj|Hj].
  - rewrite lookup_seq_lt by done. destruct (lookup_lt_is_Some_2 l j Hj) as [kv ->]. done.
  - rewrite (lookup_ge_None_2 l) by lia. rewrite lookup_ge_None_2; [done|]. rewrite length_seq. lia.
Qed.

Lemma items_indices v items : items_of v = Ok items -> map item_index items = seq 0 (length items).
Proof.
  assert (H : forall l, Ok (enumerate l) = Ok items -> map item_index items = seq 0 (length items)).
  { intros l [= <-]. by rewrite enumerate_length, enumerate_indices. }
  destruct v; try done; simpl; try apply H. destruct (collection_items c) as [l|[]]; try done; apply H.
Qed.

Lemma exn_map_lookup {A B} (f : A -> exn B) l l' : exn_map f l = Ok l' ->
  length l' = length l /\ forall j b, l' !! j = Some b -> exists a, l !! j = Some a /\ f a = Ok b.
Proof.
  revert l'. induction l as [|a l IH]; intros l' H; simpl in H.
  - injection H as <-. split; [done|]. intros j b Hj. by rewrite lookup_nil in Hj.
  - destruct (f a) as [b|] eqn:Ef; [|done]. simpl in H. fold (exn_map f) in H. destruct (exn_map f l) as [bs|] eqn:E; [|done].
    injection H as <-. destruct (IH bs eq_refl) as [Hl Hb]. split; [simpl; by f_equal|].
    intros [|j] b' Hj; [injection Hj as <-; by exists a | by apply Hb].
Qed.

Lemma exn_map_dget {A} (f : A -> exn value) (bs : list (string * A)) l k v :
  exn_map (fun kb => let? v := f (snd kb) in Ok (fst kb, v)) bs = Ok l ->
  dget k l = Some v <-> exists b, dget k bs = Some b /\ f b = Ok v.
Proof.
  revert l. induction bs as [|[k' b] bs IH]; intros l H; simpl in H.
  - injection H as <-. simpl. split; [done | by intros (b & ? & _)].
  - destruct (f b) as [v'|] eqn:Ef; [|done]. simpl in H.
    destruct (exn_map _ bs) as [l'|] eqn:E; [|done]. injection H as <-. simpl. destruct (decide (k = k')) as [->|Hne].
    + split; [intros [= <-]; by exists b | intros (b' & [= <-] & Hb); congruence].
    + by apply IH.
Qed.

Lemma exn_map_keys {A} (f : A -> exn value) (bs : list (string * A)) l :
  exn_map (fun kb => let? v := f (snd kb) in Ok (fst kb, v)) bs = Ok l -> dkeys l = dkeys bs.
Proof.
  revert l. induction bs as [|[k' b] bs IH]; intros l H; simpl in H; [by injection H as <-|].
  destruct (f b); [|done]. simpl in H. destruct (exn_map _ bs) as [l'|] eqn:E; [|done]. injection H as <-. simpl. f_equal. by apply IH.
Qed.

Lemma dget_merge {V} (d e : list (string * V)) k : NoDup (dkeys e) ->
  dget k (merge d e) = match dget k e with Some v => Some v | None => dget k d end.
Proof.
  unfold merge. revert d. induction e as [|[k' v] e IH]; intros d Hn; [done|]. apply NoDup_cons in Hn as [Hni Hn]. simpl.
  rewrite IH by done. destruct (decide (k = k')) as [->|Hne].
  - assert (E : dget k' e = None) by (by apply dget_None). by rewrite E, dget_dset_eq.
  - destruct (dget k e); [done|]. by rewrite dget_dset_ne.
Qed.

(** ** An iteration sees itself *)

Section Laws.
Context (methods : value -> string -> option value) (hashable : value -> bool).
#[local] Notation resolve_value := (resolve_value methods hashable).

Definition map_binding (path : string) : InputBinding := mkBinding "mapNs" None path None.

(** The inputs of an iteration are its own.  Its resolver answers
    [mapNs] with the index, value, key and number of this iteration and the
    model assigned to it, whatever iteration the resolver served before, and
    every other namespace as the step's resolver does; an input is what its
    binding in [map_inputs] resolves to there, or else its binding in
    [handler_inputs]. *)
Theorem iteration_inputs_exact r s i total m r' all_inputs map_values :
  NoDup (dkeys (map_inputs (step_map s))) ->
  prepare_iteration_inputs methods hashable r s i total m = Ok (r', all_inputs, map_values) ->
  (resolve_value r' (map_binding "iteration.index") = Ok (VInt (Z.of_nat (item_index i))) /\
   resolve_value r' (map_binding "iteration.value") = Ok (item_value i) /\
   resolve_value r' (map_binding "iteration.key") = Ok (opt_str (item_key i)) /\
   resolve_value r' (map_binding "iteration.total") = Ok (VInt (Z.of_nat total)) /\
   resolve_value r' (map_binding "assigned.model_ref") = Ok m) /\
  (forall b, namespace b <> "mapNs"%string -> resolve r' b = resolve r b) /\
  (forall k v, dget k map_values = Some v <->
     exists b, dget k (map_inputs (step_map s)) = Some b /\ resolve_value r' b = Ok v) /\
  (forall k v, dget k all_inputs = Some v <->
     exists b, match dget k (map_inputs (step_map s)) with
               | Some b0 => b = b0
               | None => dget k (map_handler_inputs s) = Some b
               end /\ resolve_value r' b = Ok v).
Proof.
  intros Hn H. unfold prepare_iteration_inputs, resolve_inputs in H. set (r1 := with_map_context _ r) in H.
  destruct (exn_map _ (map_inputs (step_map s))) as [maps|] eqn:E1; [|done]. simpl in H.
  destruct (exn_map _ (map_handler_inputs s)) as [hs|] eqn:E2; [|done]. simpl in H. injection H as <- <- <-.
  assert (Hmaps : forall k v, dget k maps = Some v <-> exists b, dget k (map_inputs (step_map s)) = Some b /\ resolve_value r1 b = Ok v)
    by (intros k v; by apply exn_map_dget).
  assert (Hroot : resolve r1 (map_binding "iteration.index") = Ok (map_state (item_index i) (item_value i) (item_key i) total m))
    by (unfold resolve, r1; simpl; by rewrite dget_dset_eq).
  split; [|split; [|split; [done|]]].
  - unfold ValueResolver.resolve_value, resolve, r1. simpl. rewrite dget_dset_eq. simpl. split_and!; reflexivity.
  - intros b Hb. unfold resolve, r1. simpl. by rewrite dget_dset_ne.
  - intros k v. rewrite dget_merge by (rewrite (exn_map_keys _ _ _ E1); exact Hn).
    destruct (dget k (map_inputs (step_map s))) as [b|] eqn:Eb.
    + assert (Hk : k ∈ dkeys maps) by (rewrite (exn_map_keys _ _ _ E1); apply list_elem_of_fmap; exists (k, b); split; [done | by apply dget_Some_in]).
      apply dkeys_dget in Hk as [v' Hv']. rewrite Hv'. apply Hmaps in Hv' as (b' & Eb' & Hb').
      rewrite Eb in Eb'. injection Eb' as <-. split; [intros [= <-]; by exists b | intros (b' & -> & Hv); congruence].
    + assert (Hk : dget k maps = None).
      { apply dget_None. rewrite (exn_map_keys _ _ _ E1). by apply dget_None. }
      rewrite Hk. by apply (exn_map_dget (resolve_value r1)).
Qed.

(** ** The step of an iteration *)

Context (step_attribute : string -> bool).
#[local] Notation has_field := (has_field step_attribute).
#[local] Notation split_inputs := (split_inputs step_attribute).

Lemma split_inputs_spec s l : NoDup (dkeys l) -> forall k,
  dget k (fst (split_inputs s l)) = (match dget k l with
                                     | Some v => if has_field s k then Some (overridden s k v) else None
                                     | None => None
                                     end) /\
  dget k (snd (split_inputs s l)) = (if has_field s k then None else dget k l).
Proof.
  intros Hn k. unfold MapIteration.split_inputs.
  assert (H : forall acc,
    (forall v, (k, v) ∈ l -> dget k (fst acc) = None /\ dget k (snd acc) = None) ->
    let res := fold_left (fun acc fv => if has_field s fv.1 then (dset fv.1 (overridden s fv.1 fv.2) acc.1, acc.2)
                                        else (acc.1, dset fv.1 fv.2 acc.2)) l acc in
    dget k (fst res) = (match dget k l with
                        | Some v => if has_field s k then Some (overridden s k v) else None
                        | None => dget k (fst acc) end) /\
    dget k (snd res) = (match dget k l with
                        | Some v => if has_field s k then None else Some v
                        | None => dget k (snd acc) end)).
  { induction l as [|[k' v] l IH]; intros acc Hacc; [done|]. apply NoDup_cons in Hn as [Hni Hn]. simpl.
    destruct (decide (k = k')) as [->|Hne].
    - assert (Ek : dget k' l = None) by (by apply dget_None). destruct (Hacc v ltac:(by left)) as [A1 A2].
      destruct (IH Hn (if has_field s k' then (dset k' (overridden s k' v) acc.1, acc.2) else (acc.1, dset k' v acc.2))) as [I1 I2].
      { intros v' Hin. exfalso. apply Hni, list_elem_of_fmap. by exists (k', v'). }
      rewrite Ek in I1, I2. rewrite I1, I2. destruct (has_field s k'); simpl; by rewrite dget_dset_eq.
    - destruct (IH Hn (if has_field s k' then (dset k' (overridden s k' v) acc.1, acc.2) else (acc.1, dset k' v acc.2))) as [I1 I2].
      { intros v' Hin. destruct (Hacc v' ltac:(by right)) as [A1 A2]. destruct (has_field s k'); simpl; by rewrite dget_dset_ne. }
      rewrite I1, I2. destruct (has_field s k'); simpl; by rewrite dget_dset_ne. }
  destruct (H ([], [])) as [H1 H2]; [done|]. rewrite H1, H2. simpl. destruct (dget k l), (has_field s k); done.
Qed.

Lemma split_inputs_keys s l : NoDup (dkeys l) -> NoDup (dkeys (fst (split_inputs s l))) /\ NoDup (dkeys (snd (split_inputs s l))).
Proof.
  intros _. unfold MapIteration.split_inputs.
  assert (H : forall acc, NoDup (dkeys (fst acc)) -> NoDup (dkeys (snd acc)) ->
    let res := fold_left (fun acc fv => if has_field s fv.1 then (dset fv.1 (overridden s fv.1 fv.2) acc.1, acc.2)
                                        else (acc.1, dset fv.1 fv.2 acc.2)) l acc in
    NoDup (dkeys (fst res)) /\ NoDup (dkeys (snd res))); [|apply H; apply NoDup_nil_2].
  induction l as [|[k' v] l IH]; intros acc H1 H2; [done|]. simpl. apply IH; destruct (has_field s k'); simpl; try done; by apply NoDup_dkeys_dset.
Qed.

(** The step an iteration runs is the map step, changed in what it must
    be and nothing else.  An input named after a field replaces the field,
    generation parameters entry by entry; without such an input the assigned
    model, if any, becomes [model_ref]; all other inputs are collected under
    [resolved_map_inputs]. *)
Theorem iteration_step_exact s map_values m :
  NoDup (dkeys map_values) ->
  let t := create_iteration_step step_attribute s map_values m in
  let templates := snd (split_inputs s map_values) in
  (forall k, dget k templates = if has_field s k then None else dget k map_values) /\
  forall k, dget k t =
    if decide (k = "resolved_map_inputs"%string /\ templates <> []) then Some (VDict templates)
    else match dget k map_values with
         | Some v => if has_field s k then Some (overridden s k v)
                     else if bool_decide (k = "model_ref"%string) && truthy_value m then Some m else dget k (fields s)
         | None => if bool_decide (k = "model_ref"%string) && truthy_value m then Some m else dget k (fields s)
         end.
Proof.
  intros Hn t templates. split; [intros k; by apply split_inputs_spec|]. intros k. subst t. unfold create_iteration_step.
  destruct (split_inputs_keys s map_values Hn) as [K1 _]. destruct (split_inputs_spec s map_values Hn k) as [H1 _].
  destruct (split_inputs_spec s map_values Hn "model_ref"%string) as [Hm _]. fold templates in H1.
  destruct (split_inputs s map_values) as [ov tp] eqn:E. simpl in templates, K1, H1, Hm. subst templates.
  set (ov1 := if _ && _ then _ else ov).
  assert (K2 : NoDup (dkeys ov1)) by (unfold ov1; destruct (_ && _); [by apply NoDup_dkeys_dset | done]).
  assert (H2 : dget k ov1 = match dget k ov with
                            | Some v => Some v
                            | None => if bool_decide (k = "model_ref"%string) && truthy_value m then Some m else None
                            end).
  { unfold ov1. destruct (truthy_value m) eqn:Et; simpl; [|rewrite andb_false_r; by destruct (dget k ov)].
    destruct (dget "model_ref"%string ov) as [v|] eqn:Ev; simpl.
    - case_bool_decide as Ek; [subst k; by rewrite Ev | by destruct (dget k ov)].
    - case_bool_decide as Ek; simpl.
      + subst k. by rewrite Ev, dget_dset_eq.
      + rewrite dget_dset_ne by done. by destruct (dget k ov). }
  assert (Hfin : dget k (merge (fields s) ov1) = match dget k map_values with
         | Some v => if has_field s k then Some (overridden s k v)
                     else if bool_decide (k = "model_ref"%string) && truthy_value m then Some m else dget k (fields s)
         | None => if bool_decide (k = "model_ref"%string) && truthy_value m then Some m else dget k (fields s)
         end).
  { rewrite dget_merge, H2, H1 by done. destruct (dget k map_values) as [v|]; [destruct (has_field s k); [done|]|];
      by destruct (bool_decide _ && _). }
  destruct tp as [|p tp].
  - rewrite decide_False by (by intros []). exact Hfin.
  - rewrite dget_merge by (by apply NoDup_dkeys_dset). destruct (decide (k = "resolved_map_inputs"%string)) as [->|Hne].
    + rewrite dget_dset_eq, decide_True by done. done.
    + rewrite dget_dset_ne by done. rewrite decide_False by (by intros []). rewrite <- Hfin. by rewrite dget_merge.
Qed.

End Laws.

(** ** The run of a map step *)

Section Run.
Context (methods : value -> string -> option value) (hashable : value -> bool) (required : exn (list string))
  (random_choice : nat -> list value -> value) (step_attribute : string -> bool) (checkpoint : nat -> option Checkpoint)
  (execute : list (string * value) -> exn value) (stopped : nat -> bool) (message : error -> string)
  (gateway : nat -> option string).
#[local] Notation execute_map :=
  (execute_map methods hashable required random_choice step_attribute checkpoint execute stopped message gateway).
#[local] Notation run_iteration := (execute_iteration methods hashable step_attribute checkpoint execute).
#[local] Notation resolve_map_over := (resolve_map_over methods hashable).
#[local] Notation build_pool_assignments := (build_pool_assignments methods hashable required random_choice).

Lemma ordered_lookup (metadata : list (nat * option string)) (results : gmap nat value) j out :
  outputs (ordered_successful_outputs metadata results) !! j = Some out ->
  exists p k, output_positions (ordered_successful_outputs metadata results) !! j = Some p /\
    output_keys (ordered_successful_outputs metadata results) !! j = Some k /\ (p, k) ∈ metadata /\ results !! p = Some out.
Proof.
  revert j. induction metadata as [|[p k] md IH]; intros j; simpl; [by rewrite lookup_nil|].
  destruct (results !! p) as [o|] eqn:E; simpl.
  - destruct j as [|j]; [intros [= <-]; exists p, k; split_and!; [done|done|by left|done]|]. simpl. intros Hj.
    destruct (IH j Hj) as (p' & k' & H1 & H2 & H3 & H4). exists p', k'. split_and!; [done|done|by right|done].
  - intros Hj. destruct (IH j Hj) as (p' & k' & H1 & H2 & H3 & H4). exists p', k'. split_and!; [done|done|by right|done].
Qed.

Lemma results_succeeded (te : nat -> TaskEnd value) done p out :
  results_by_index te done !! p = Some out -> te p = Succeeds out.
Proof.
  unfold results_by_index. intros H. apply elem_of_list_to_map_2, list_elem_of_omap in H as (i & _ & H).
  destruct (te i) eqn:E; try done. injection H as <- <-. exact E.
Qed.

Lemma find_item items p i : map item_index items = seq 0 (length items) -> items !! p = Some i ->
  List.find (fun x => (item_index x =? p)%nat) items = Some i /\ item_index i = p.
Proof.
  intros Hs Hi. assert (Hidx : forall q x, items !! q = Some x -> item_index x = q).
  { intros q x Hq. assert (H : (item_index <$> items) !! q = Some (item_index x)) by (by rewrite list_lookup_fmap, Hq).
    change (item_index <$> items) with (map item_index items) in H. rewrite Hs in H. by apply lookup_seq in H as [-> _]. }
  split; [|by apply Hidx]. destruct (List.find _ items) as [x|] eqn:E.
  - apply find_some in E as [Hin Hp]. apply Nat.eqb_eq in Hp. apply list_elem_of_In, list_elem_of_lookup in Hin as [q Hq].
    assert (q = p) by (rewrite <- Hp; symmetry; by apply Hidx). subst q. congruence.
  - pose proof (find_none _ _ E i (proj1 (list_elem_of_In _ _) (list_elem_of_lookup_2 _ _ _ Hi))) as H.
    cbv beta in H. by rewrite (Hidx p i Hi), Nat.eqb_refl in H.
Qed.

(** The output at [j] is that of one iteration, under its position and key. *)
Definition outputs_of (items : list Item) (run : Item -> exn value) (c : @MapOutputCollection value) : Prop :=
  forall j out, c_outputs c !! j = Some out ->
    exists ps p i, c_positions c = Some ps /\ ps !! j = Some p /\ items !! p = Some i /\ item_index i = p /\
      c_keys c !! j = Some (item_key i) /\ run i = Ok out.

Lemma mode_outputs items run done : map item_index items = seq 0 (length items) ->
  outputs_of items run (make_collection
    (ordered_successful_outputs (map (fun i => (item_index i, item_key i)) items) (results_by_index (task_end stopped message run items) done))
    (length items)).
Proof.
  intros Hs j out Hj. simpl in Hj. set (md := map (fun i => (item_index i, item_key i)) items) in *. set (res := results_by_index _ done) in *.
  destruct (ordered_lookup md res j out Hj) as (p & k & H1 & H2 & H3 & H4).
  apply list_elem_of_fmap in H3 as (i & [= -> ->] & Hin). apply list_elem_of_lookup in Hin as [q Hq].
  destruct (find_item items q i Hs Hq) as [Hf Hi]. rewrite Hi in H1, H4.
  exists (output_positions (ordered_successful_outputs md res)), q, i. split_and!; try done.
  - unfold make_collection. simpl. destruct (output_positions _); [by rewrite lookup_nil in H1 | done].
  - apply results_succeeded in H4. unfold task_end in H4. destruct (stopped q); [done|]. rewrite Hf in H4.
    destruct (run i) as [v|]; [|done]. by injection H4 as ->.
Qed.

Lemma gather_ok (run : Item -> exn value) items ended l : gather run items ended = Ok l -> exn_map run items = Ok l.
Proof. induction ended as [|i ended IH]; simpl; [done|]. by destruct (run i). Qed.

(** What a map step returns is what its iterations returned.  Whatever
    the mode, and however the tasks end and are reported, each output of the
    collection is the output of exactly the iteration at its position, run on
    the item and with the model assigned to it, and carries the key of that
    item; the items are those that [map_over] resolves to, and a step without
    items returns an empty collection. *)
Theorem map_outputs_exact r s batches ended c hints :
  execute_map r s batches ended = MapReturned c hints ->
  exists items, resolve_map_over r (map_over (step_map s)) = Ok items /\ map item_index items = seq 0 (length items) /\
    ((items = [] /\ c_outputs c = []) \/
     exists assignments, build_pool_assignments r (step_map s) items = Ok assignments /\
       outputs_of items (fun i => run_iteration r s (length items) i (assigned_to (item_index i) assignments)) c).
Proof.
  unfold MapIteration.execute_map. destruct (resolve_map_over r (map_over (step_map s))) as [items|] eqn:Ei; [|done].
  assert (Hs : map item_index items = seq 0 (length items)).
  { unfold MapIteration.resolve_map_over in Ei. destruct (map_over (step_map s)) as [|[f b] [|]]; try done.
    destruct (resolve r b) as [root|]; [|done]. simpl in Ei. match type of Ei with (let? _ := ?m in _) = _ => destruct m; [|done] end.
    by eapply items_indices. }
  intros H. exists items. split; [done|]. split; [done|].
  destruct items as [|i0 items0]; [left; split; [done|]; by injection H as <- <-|]. right. set (items := i0 :: items0) in *.
  destruct (build_pool_assignments r (step_map s) items) as [assignments|]; [|done]. simpl in H.
  match type of H with match (let? _ := ?m in _) with _ => _ end = _ => destruct m; [|done] end. cbn [exn_bind] in H.
  exists assignments. split; [done|]. set (run := fun i => _) in H |- *. destruct (fail_fast (step_map s)).
  - unfold execute_with_fail_fast in H. destruct (fail_fast_loop _ _ _ _ _) as [done_|d p|]; [|done|done].
    destruct (negb _); [done|]. cbn [of_mode] in H. injection H as <- _. exact (mode_outputs items run _ Hs).
  - destruct (bool_decide _ || _).
    + unfold execute_with_timeout in H. destruct (timeout_loop _ _ _ _) as [done_ pending]. destruct (negb _); [done|].
      cbn [of_mode] in H. injection H as <- _. exact (mode_outputs items run _ Hs).
    + destruct (gather run items ended) as [outs|] eqn:Eg; [|done]. injection H as <- _. apply gather_ok, exn_map_lookup in Eg as [Hl Hr].
      intros j out Hj. simpl in Hj. destruct (Hr j out Hj) as (i & Hi & Hrun). destruct (find_item items j i Hs Hi) as [_ Hidx].
      pose proof (lookup_lt_Some _ _ _ Hi) as Hlt. exists (seq 0 (length items)), j, i. cbn [c_positions c_keys]. split_and!; try done.
      * by rewrite lookup_seq_lt.
      * assert (Hk : (item_key <$> items) !! j = Some (item_key i)) by (by rewrite list_lookup_fmap, Hi). exact Hk.
Qed.

End Run.

(** ** The items of a map step come from its dependencies *)

(** The field and the text of the one binding of [map_over]; what else the
    items depend on is the rest of the context. *)
Theorem map_items_determined cond_names dependency_fields methods hashable s mc field text b deps r1 r2 :
  map_config s = Some mc -> dget "map_over"%string mc = Some (YDict [(field, YStr text)]) -> parse_binding text = Ok b ->
  plain_binding b -> computed_depends_on cond_names dependency_fields s = Ok deps -> agree deps r1 r2 ->
  resolve_map_over methods hashable r1 [(field, b)] = resolve_map_over methods hashable r2 [(field, b)].
Proof.
  intros Hmc Hover Hb Hplain Hd Ha.
  assert (Hdeps : forall x, x ∈ named_steps b -> x ∈ deps).
  { intros x Hx. apply (plain_named b x Hplain) in Hx. unfold computed_depends_on, map_config_deps in Hd. rewrite Hmc in Hd.
    destruct mc as [|kv mc]; [done|]. rewrite Hover in Hd. simpl in Hd. rewrite Hb in Hd. simpl in Hd. injection Hd as <-.
    apply elem_of_set_add_all. left. rewrite !elem_of_app, Hx. simpl. set_solver. }
  assert (Hagree : agree (named_steps b) r1 r2) by (by eapply agree_weaken).
  unfold resolve_map_over. rewrite (resolve_agree b r1 r2) by (eapply agree_weaken; [exact Hagree|unfold named_steps; set_solver]).
  destruct (resolve r2 b) as [root|]; [|done]. simpl.
  assert (Ht : traverse_path methods hashable (Some r1) nobody root (field_path b) =
               traverse_path methods hashable (Some r2) nobody root (field_path b)).
  { apply traverse_agree. eapply agree_weaken; [exact Hagree|unfold named_steps; set_solver]. }
  by destruct root; rewrite Ht.
Qed.

(** ** Instances *)

Definition no_attribute (_ : string) : bool := false.
Definition no_checkpoint (_ : nat) : option Checkpoint := None.
Definition first_choice (_ : nat) (l : list value) : value := get_or VNone (head l).
Definition silent (_ : error) : string := "".

(** Two models answer; the handler returns the step it was given. *)
Definition answer_config : MapConfig :=
  mkMap [("model", mkBinding "optionsNs" None "models" None)]%string
    [("model_ref", map_binding "iteration.key"); ("topic", mkBinding "step" (Some "extract"%string) "json.topic" None)]%string
    (Some 60%Q) NoThreshold false true None false false "rotate".
Definition answer_step : MapStep := mkMapStep [("type", VStr "generate"); ("model_ref", VNone)]%string [] answer_config.
Definition answer_resolver : NamespaceResolver :=
  make_resolver (source_input "hello" [] VNone) [("models", VDict [("qwen", VInt 1); ("phi", VInt 2)])]%string
    [("extract", output_of [("topic", VStr "cats")])]%string.
Definition echo (s : list (string * value)) : exn value := Ok (VDict s).
Definition answer_run (checkpoint : nat -> option Checkpoint) (execute : list (string * value) -> exn value) : MapEnd :=
  execute_map no_methods no_hash (Ok []) first_choice no_attribute checkpoint execute (fun _ => false) silent (fun _ => None)
    answer_resolver answer_step [(0%Q, [1%nat]); (0%Q, [0%nat])] [].

Lemma iteration_inputs_exact_witness :
  exists r' all_inputs map_values,
    prepare_iteration_inputs no_methods no_hash answer_resolver answer_step (1%nat, VInt 2, Some "phi"%string) 2 VNone
      = Ok (r', all_inputs, map_values) /\
    dget "model_ref"%string all_inputs = Some (VStr "phi").
Proof.
  eexists _, _, _. split; [vm_compute; reflexivity|].
  edestruct (iteration_inputs_exact no_methods no_hash answer_resolver answer_step (1%nat, VInt 2, Some "phi"%string) 2 VNone)
    as (_ & _ & _ & H); [|vm_compute; reflexivity|].
  - apply (bool_decide_unpack (NoDup (dkeys (map_inputs answer_config)))). vm_compute. exact I.
  - apply H. eexists. split; [vm_compute; reflexivity|]. vm_compute. reflexivity.
Defined.

Lemma iteration_step_exact_witness :
  dget "model_ref"%string (create_iteration_step no_attribute answer_step [("topic", VStr "cats")]%string (VStr "qwen")) = Some (VStr "qwen").
Proof.
  destruct (iteration_step_exact no_attribute answer_step [("topic", VStr "cats")]%string (VStr "qwen")) as [_ H].
  - apply (bool_decide_unpack (NoDup (dkeys [("topic"%string, VStr "cats")]))). vm_compute. exact I.
  - specialize (H "model_ref"%string). cbv zeta in H. rewrite decide_False in H by (intros [H' _]; discriminate H').
    exact (eq_trans H eq_refl).
Defined.

Lemma map_outputs_exact_witness :
  exists items c hints, answer_run no_checkpoint echo = MapReturned c hints /\
    resolve_map_over no_methods no_hash answer_resolver (map_over answer_config) = Ok items /\ length items = 2%nat /\
    c_keys c = [Some "qwen"; Some "phi"]%string.
Proof.
  destruct (answer_run no_checkpoint echo) as [c hints| | |] eqn:E; try (vm_compute in E; discriminate E).
  destruct (map_outputs_exact no_methods no_hash (Ok []) first_choice no_attribute no_checkpoint echo (fun _ => false) silent
    (fun _ => None) answer_resolver answer_step [(0%Q, [1%nat]); (0%Q, [0%nat])] [] c hints E) as (items & H1 & H2 & _).
  exists items, c, hints. split; [reflexivity|]. split; [exact H1|].
  vm_compute in H1. injection H1 as <-. split; [reflexivity|]. vm_compute in E. injection E as <- _. reflexivity.
Defined.

Lemma map_items_determined_witness :
  resolve_map_over no_methods no_hash
    (make_resolver VNone [] [("extract", output_of [("topic", VList [VInt 1])]); ("other", VNone)]%string) [("t"%string, topic_binding)]
  = resolve_map_over no_methods no_hash
      (make_resolver VNone [] [("extract", output_of [("topic", VList [VInt 1])])]%string) [("t"%string, topic_binding)].
Proof.
  apply (map_items_determined no_names no_fields no_methods no_hash
    (a_step [] (Some [("map_over", YDict [("t", YStr "extract.json.topic")])])%string) _ "t" "extract.json.topic" topic_binding ["extract"%string]
    _ _ eq_refl eq_refl eq_refl); [by split|reflexivity|].
  split; [reflexivity|]. intros x Hx. by apply list_elem_of_singleton in Hx as ->.
Defined.

(** *** What modelling showed *)

(** An iteration resumed from a checkpoint has another shape than one that
    ran: the bindings that read it fail. *)
Example resumed_iteration_unreadable :
  let answered (_ : list (string * value)) := Ok (output_of [("score", VInt 8)]%string) in
  let saved (i : nat) := match i with O => Some (mkCheckpoint "" [("score", VInt 8)]%string []) | _ => None end in
  let scores (e : MapEnd) := match e with
                             | MapReturned c _ => traverse_path no_methods no_hash None nobody (VColl c) "*.json.score"
                             | _ => Raise KeyError
                             end in
  scores (answer_run no_checkpoint answered) = Ok (VList [VInt 8; VInt 8]) /\
  scores (answer_run saved answered) = Raise AttributeError.
Proof. vm_compute. by split. Qed.

(** A template input with the name of a method of the step is lost to it. *)
Example template_input_taken_for_field :
  let t := create_iteration_step (fun f => bool_decide (f = "copy"%string)) answer_step [("copy", VStr "text")]%string VNone in
  dget "resolved_map_inputs"%string t = None /\ dget "copy"%string t = Some (VStr "text").
Proof. vm_compute. by split. Qed.
