(* ===== verification/SequentialExecutor.v ===== *)
(** * The sequential executor
    ([libs/universal_event_bus/actor/sequential.py])

    [SequentialExecutor] runs coroutines one at a time from a queue; the
    managers of gateways and of their configuration route every change of
    their state through one, in place of locks.  A caller waits for the future
    of its coroutine.  The executor is a transition system: callers, the loop
    task (or tasks), and the futures between them. *)
From stdpp Require Import base gmap sets list.
From Stdlib Require Import Lia.
From S2P Require Import Prelude.

Inductive FutureState : Type := Pending | Resulted | Failed | Cancelled.

#[global] Instance FutureState_eq_dec : EqDecision FutureState.
Proof. solve_decision. Defined.

(** A loop task that has not begun, waits for the queue, or runs an item.  A
    task that has ended, in order or not, is no longer in the table. *)
Inductive LoopState : Type := Fresh | Getting | Working (item : nat).

Record SequentialExecutor := mkExec {
  running : bool;
  queue : list nat;
  futures : gmap nat FutureState;
  awaited : gset nat;
  loops : gmap nat LoopState;
  task : option nat
}.

Definition new_executor : SequentialExecutor := mkExec false [] ∅ ∅ ∅ None.

(** How the coroutine of an item ends. *)
Inductive Outcome : Type := Value | RaisesException | RaisesCancelled.

Inductive Output : Type := Began (item : nat) | Finished (item : nat) (o : Outcome).

(** [create_task(self._loop())]; the new task gets a number of its own. *)
Definition start (l : nat) (e : SequentialExecutor) : SequentialExecutor :=
  if running e then e
  else mkExec true (queue e) (futures e) (awaited e) (<[l := Fresh]> (loops e)) (Some l).

Definition put (item : nat) (e : SequentialExecutor) : SequentialExecutor :=
  mkExec (running e) (queue e ++ [item]) (<[item := Pending]> (futures e)) (awaited e) (loops e) (task e).

(** [run] up to [await future]. *)
Definition run (l item : nat) (e : SequentialExecutor) : SequentialExecutor :=
  let e := put item (start l e) in
  mkExec (running e) (queue e) (futures e) ({[item]} ∪ awaited e) (loops e) (task e).

Definition run_nowait (item : nat) (e : SequentialExecutor) : SequentialExecutor :=
  if running e then put item e else e.

(** [stop] up to the wait for the loop. *)
Definition stop (sentinel : nat) (e : SequentialExecutor) : SequentialExecutor :=
  if running e then
    let e := put sentinel e in mkExec false (queue e) (futures e) (awaited e) (loops e) (task e)
  else e.

Definition set_loop (l : nat) (s : option LoopState) (e : SequentialExecutor) : SequentialExecutor :=
  mkExec (running e) (queue e) (futures e) (awaited e)
    (match s with Some s => <[l := s]> (loops e) | None => delete l (loops e) end) (task e).

Definition set_future (item : nat) (s : FutureState) (e : SequentialExecutor) : SequentialExecutor :=
  mkExec (running e) (queue e) (<[item := s]> (futures e)) (awaited e) (loops e) (task e).

(** The head of the [while] loop. *)
Definition loop_again (l : nat) (e : SequentialExecutor) : SequentialExecutor :=
  set_loop l (if running e then Some Getting else None) e.

(** [queue.get()] returns. *)
Definition loop_get (l : nat) (e : SequentialExecutor) : list Output * SequentialExecutor :=
  match queue e with
  | [] => ([], e)
  | item :: rest =>
      ([Began item],
       set_loop l (Some (Working item)) (mkExec (running e) rest (futures e) (awaited e) (loops e) (task e)))
  end.

(** The coroutine of the item is over.  [set_result] and then [set_exception]
    raise [InvalidStateError] on a future that is done, which ends the loop, as
    a [CancelledError] does. *)
Definition loop_finish (l item : nat) (o : Outcome) (e : SequentialExecutor) : SequentialExecutor :=
  match o with
  | RaisesCancelled => set_loop l None e
  | _ =>
      match futures e !! item with
      | Some Pending =>
          loop_again l (set_future item (match o with Value => Resulted | _ => Failed end) e)
      | _ => set_loop l None e
      end
  end.

Inductive Action : Type :=
  | Run (l item : nat)
  | RunNowait (item : nat)
  | Start (l : nat)
  | Stop (sentinel : nat)
  | StopTimesOut
  | Get (l : nat)
  | Ends (l : nat) (o : Outcome)
  | CancelCaller (item : nat).

(** Items and loop tasks are new objects: a used number is refused.  A running
    executor needs no new loop. *)
Definition fresh_item (item : nat) (e : SequentialExecutor) : bool := bool_decide (futures e !! item = None).
Definition fresh_loop (l : nat) (e : SequentialExecutor) : bool := running e || bool_decide (loops e !! l = None).

Definition step (a : Action) (e : SequentialExecutor) : list Output * SequentialExecutor :=
  match a with
  | Run l item => if fresh_item item e && fresh_loop l e then ([], run l item e) else ([], e)
  | RunNowait item => if fresh_item item e then ([], run_nowait item e) else ([], e)
  | Start l => if fresh_loop l e then ([], start l e) else ([], e)
  | Stop sentinel => if fresh_item sentinel e then ([], stop sentinel e) else ([], e)
  | StopTimesOut =>
      match task e with
      | Some l => ([], set_loop l None e)
      | None => ([], e)
      end
  | Get l =>
      match loops e !! l with
      | Some Fresh => if running e then loop_get l (set_loop l (Some Getting) e) else ([], set_loop l None e)
      | Some Getting => loop_get l e
      | _ => ([], e)
      end
  | Ends l o =>
      match loops e !! l with
      | Some (Working item) => ([Finished item o], loop_finish l item o e)
      | _ => ([], e)
      end
  | CancelCaller item =>
      if bool_decide (futures e !! item = Some Pending /\ item ∈ awaited e)
      then ([], set_future item Cancelled e) else ([], e)
  end.

Fixpoint play (acts : list Action) (e : SequentialExecutor) : SequentialExecutor :=
  match acts with [] => e | a :: acts' => play acts' (step a e).2 end.

Fixpoint outputs (acts : list Action) (e : SequentialExecutor) : list Output :=
  match acts with [] => [] | a :: acts' => (step a e).1 ++ outputs acts' (step a e).2 end.

(** The items that were queued, in order, and those that were begun. *)
Definition queued_by (a : Action) (e : SequentialExecutor) : list nat :=
  match a with
  | Run l item => if fresh_item item e && fresh_loop l e then [item] else []
  | RunNowait item => if fresh_item item e && running e then [item] else []
  | _ => []
  end.

Fixpoint submitted (acts : list Action) (e : SequentialExecutor) : list nat :=
  match acts with [] => [] | a :: acts' => queued_by a e ++ submitted acts' (step a e).2 end.

Definition begun (os : list Output) : list nat := omap (fun o => match o with Began i => Some i | _ => None end) os.

(** Nobody stops the executor. *)
Definition unstopped (a : Action) : bool := match a with Stop _ | StopTimesOut => false | _ => true end.

(** Moreover no caller is cancelled and no coroutine raises [CancelledError]. *)
Definition calm (a : Action) : bool :=
  match a with
  | Stop _ | StopTimesOut | CancelCaller _ | Ends _ RaisesCancelled => false
  | _ => true
  end.

(** ** Invariant *)

(** The item the loop is working on. *)
Definition at_work (e : SequentialExecutor) : option nat :=
  match task e with
  | Some l => match loops e !! l with Some (Working i) => Some i | _ => None end
  | None => None
  end.

Record Serial (done : list nat) (e : SequentialExecutor) : Prop := {
  ser_task : forall l s, loops e !! l = Some s -> task e = Some l /\ running e = true;
  ser_off : running e = false -> loops e = ∅ /\ task e = None /\ queue e = [] /\ done = [];
  ser_work : forall i, at_work e = Some i -> exists before, done = before ++ [i];
  ser_known : forall i, i ∈ done ++ queue e <-> is_Some (futures e !! i);
  ser_nodup : NoDup (done ++ queue e)
}.

Lemma at_work_loop e l i : task e = Some l -> loops e !! l = Some (Working i) -> at_work e = Some i.
Proof. unfold at_work. by intros -> ->. Qed.

Lemma Serial_new : Serial [] new_executor.
Proof.
  constructor; unfold at_work, new_executor; simpl.
  - intros l s. by rewrite lookup_empty.
  - done.
  - done.
  - intros i. rewrite lookup_empty. split; [set_solver | intros []; done].
  - constructor.
Qed.

(** Queueing an item, with or without a new loop. *)
Lemma Serial_put done e e' i :
  Serial done e -> futures e !! i = None ->
  running e' = true -> queue e' = queue e ++ [i] -> futures e' = <[i := Pending]> (futures e) ->
  (loops e' = loops e /\ task e' = task e /\ running e = true \/
   exists l, loops e' = {[l := Fresh]} /\ task e' = Some l /\ running e = false) ->
  Serial done e'.
Proof.
  intros Hs Hi Hr Hq Hf Hl.
  assert (Hnew : i ∉ done ++ queue e). { rewrite (ser_known _ _ Hs), Hi. intros []; done. }
  constructor.
  - intros l s. destruct Hl as [(-> & -> & Hr')|(l' & -> & -> & Hr')].
    + intros H%(ser_task _ _ Hs). tauto.
    + intros [<- _]%lookup_singleton_Some. done.
  - congruence.
  - intros j. destruct Hl as [(E1 & E2 & _)|(l' & E1 & E2 & _)]; unfold at_work; rewrite E1, E2.
    + apply (ser_work _ _ Hs).
    + by rewrite lookup_singleton_eq.
  - intros j. rewrite Hq, Hf, app_assoc, elem_of_app, (ser_known _ _ Hs), list_elem_of_singleton.
    destruct (decide (j = i)) as [->|]; [rewrite lookup_insert_eq | rewrite lookup_insert_ne by done]; naive_solver.
  - rewrite Hq, app_assoc. apply NoDup_app. split; [apply (ser_nodup _ _ Hs)|]. split.
    + intros j Hj ->%list_elem_of_singleton. done.
    + repeat constructor. set_solver.
Qed.

(** Steps that leave the queue alone. *)
Lemma Serial_update done e e' :
  Serial done e -> running e' = running e -> queue e' = queue e -> task e' = task e ->
  (forall l s, loops e' !! l = Some s -> is_Some (loops e !! l)) ->
  (forall i, at_work e' = Some i -> at_work e = Some i) ->
  (forall i, is_Some (futures e' !! i) <-> is_Some (futures e !! i)) ->
  Serial done e'.
Proof.
  intros Hs Hr Hq Ht Hl Hw Hf. constructor.
  - intros l s [s' H]%Hl. rewrite Ht, Hr. by eapply ser_task.
  - rewrite Hr, Hq, Ht. intros H. destruct (ser_off _ _ Hs H) as (E & ?). split; [|done].
    apply map_empty. intros l. destruct (loops e' !! l) as [s|] eqn:El; [|done].
    apply Hl in El as [s' El]. by rewrite E, lookup_empty in El.
  - intros i H%Hw. by eapply ser_work.
  - intros i. rewrite Hq, Hf. apply (ser_known _ _ Hs).
  - rewrite Hq. apply (ser_nodup _ _ Hs).
Qed.

Lemma at_work_set l s e :
  (forall i, s <> Some (Working i)) -> forall i, at_work (set_loop l s e) = Some i -> at_work e = Some i.
Proof.
  intros Hn i. unfold at_work, set_loop. simpl. destruct (task e) as [l'|]; [|done].
  destruct (decide (l' = l)) as [->|]; destruct s as [s|];
    rewrite ?lookup_insert_eq, ?lookup_delete_eq, ?lookup_insert_ne, ?lookup_delete_ne by done; try done.
  destruct s; try done. by destruct (Hn item).
Qed.

Lemma loops_set l s s0 e :
  loops e !! l = Some s0 -> forall l' s', loops (set_loop l s e) !! l' = Some s' -> is_Some (loops e !! l').
Proof.
  intros E l' s'. unfold set_loop. simpl. destruct s.
  - intros [[<- _]|[_ ?]]%lookup_insert_Some; eauto.
  - intros [_ ?]%lookup_delete_Some; eauto.
Qed.

Lemma Serial_set_loop done l s s0 e :
  Serial done e -> loops e !! l = Some s0 -> (forall i, s <> Some (Working i)) -> Serial done (set_loop l s e).
Proof.
  intros Hs E Hn. apply (Serial_update done e); try done.
  - by eapply loops_set.
  - by apply at_work_set.
Qed.

Lemma Serial_set_future done i s e : Serial done e -> is_Some (futures e !! i) -> Serial done (set_future i s e).
Proof.
  intros Hs Hi. apply (Serial_update done e); try done.
  intros j. simpl. destruct (decide (j = i)) as [->|]; [|by rewrite lookup_insert_ne].
  rewrite lookup_insert_eq. split; [done | eauto].
Qed.

Lemma Serial_get done l s e :
  Serial done e -> loops e !! l = Some s -> (s = Fresh \/ s = Getting) ->
  Serial (done ++ begun (loop_get l e).1) (loop_get l e).2 /\
  done ++ queue e = (done ++ begun (loop_get l e).1) ++ queue (loop_get l e).2.
Proof.
  intros Hs El Hst. unfold loop_get. destruct (queue e) as [|i rest] eqn:Eq; simpl.
  { change (begun []) with (@nil nat). rewrite !app_nil_r, Eq, app_nil_r. by split. }
  assert (Happ : done ++ i :: rest = (done ++ [i]) ++ rest) by (by rewrite <- app_assoc).
  split; [|done]. destruct (ser_task _ _ Hs l s El) as [Ht Hr]. constructor.
  - intros l' s'. simpl. intros [[<- _]|[_ H]]%lookup_insert_Some; [done|]. by eapply ser_task.
  - simpl. congruence.
  - intros j. unfold at_work. simpl. rewrite Ht, lookup_insert_eq. intros [= ->]. eauto.
  - intros j. simpl. rewrite <- Happ, <- Eq. apply (ser_known _ _ Hs).
  - simpl. rewrite <- Happ, <- Eq. apply (ser_nodup _ _ Hs).
Qed.

Lemma begun_nil : begun [] = [].
Proof. done. Qed.

Ltac tidy := rewrite ?begun_nil, ?app_nil_r.

Lemma Serial_step done a e :
  unstopped a = true -> Serial done e ->
  Serial (done ++ begun (step a e).1) (step a e).2 /\
  (done ++ queue e) ++ queued_by a e = (done ++ begun (step a e).1) ++ queue (step a e).2.
Proof.
  intros Ha Hs. destruct a as [l i|i|l|sn| |l|l o|i]; simpl in *; try done.
  - destruct (fresh_item i e) eqn:Ei; simpl; [|by tidy].
    destruct (fresh_loop l e) eqn:El; simpl; [|by tidy]. unfold fresh_item in *. to_prop.
    unfold run, start. destruct (running e) eqn:Er; simpl; tidy; rewrite <- app_assoc; (split; [|done]).
    + apply (Serial_put done e _ i); auto.
    + apply (Serial_put done e _ i); simpl; auto. right. exists l.
      destruct (ser_off _ _ Hs Er) as (-> & _). by rewrite insert_empty.
  - destruct (fresh_item i e) eqn:Ei; simpl; [|by tidy]. unfold fresh_item in Ei. to_prop.
    unfold run_nowait. destruct (running e) eqn:Er; simpl; tidy; rewrite <- ?app_assoc; [|by tidy].
    split; [|done]. apply (Serial_put done e _ i); auto.
  - destruct (fresh_loop l e) eqn:El; simpl; tidy; [|by split]. unfold start.
    destruct (running e) eqn:Er; simpl; [by split|]. split; [|done].
    destruct (ser_off _ _ Hs Er) as (E1 & E2 & E3 & E4). constructor; simpl.
    + intros l' s. rewrite E1, insert_empty. by intros [<- _]%lookup_singleton_Some.
    + done.
    + intros j. unfold at_work. simpl. by rewrite lookup_insert_eq.
    + apply (ser_known _ _ Hs).
    + apply (ser_nodup _ _ Hs).
  - tidy. destruct (loops e !! l) as [[| |i]|] eqn:El; simpl; tidy; try by split.
    + rewrite (proj2 (ser_task _ _ Hs l _ El)).
      apply (Serial_get done l Getting (set_loop l (Some Getting) e)); [|by simpl; rewrite lookup_insert_eq | auto].
      by eapply Serial_set_loop.
    + by eapply Serial_get; auto.
  - tidy. destruct (loops e !! l) as [[| |i]|] eqn:El; simpl; tidy; try by split.
    assert (Hi : is_Some (futures e !! i)).
    { apply (ser_known _ _ Hs). destruct (ser_work _ _ Hs i) as [before ->]; [|set_solver].
      eapply at_work_loop; [|exact El]. by eapply ser_task. }
    assert (Hnone : Serial done (set_loop l None e)) by (by eapply Serial_set_loop).
    unfold loop_finish, loop_again. destruct o; [| |by split]; destruct (futures e !! i) as [[]|] eqn:Ef; try (by split);
      (split; [|done]); (eapply Serial_set_loop; [apply Serial_set_future; [done | by rewrite Ef] | exact El | intros j; by case_match]).
  - case_bool_decide as Hd; simpl; tidy; [|by split]. split; [|done].
    apply Serial_set_future; [done|]. destruct Hd as [-> _]. eauto.
Qed.

Lemma begun_app os os' : begun (os ++ os') = begun os ++ begun os'.
Proof. apply omap_app. Qed.

Lemma Serial_play acts done e :
  Forall (fun a => unstopped a = true) acts -> Serial done e ->
  Serial (done ++ begun (outputs acts e)) (play acts e) /\
  (done ++ queue e) ++ submitted acts e = (done ++ begun (outputs acts e)) ++ queue (play acts e).
Proof.
  revert done e. induction acts as [|a acts IH]; intros done e Ha Hs; simpl; [by rewrite !app_nil_r|].
  apply Forall_cons in Ha as [Ha1 Ha]. destruct (Serial_step done a e Ha1 Hs) as [Hs1 E1].
  destruct (IH _ _ Ha Hs1) as [Hs2 E2]. rewrite begun_app, (app_assoc done). split; [done|].
  by rewrite app_assoc, E1, E2.
Qed.

(** ** Calm runs *)

Record Alive (os : list Output) (e : SequentialExecutor) : Prop := {
  al_serial : Serial (begun os) e;
  al_loop : running e = true -> exists l s, task e = Some l /\ loops e !! l = Some s;
  al_pending : forall i, futures e !! i = Some Pending <-> i ∈ queue e \/ at_work e = Some i;
  al_result : forall i, futures e !! i = Some Resulted <-> Finished i Value ∈ os;
  al_failed : forall i, futures e !! i = Some Failed <-> Finished i RaisesException ∈ os
}.

Lemma Alive_new : Alive [] new_executor.
Proof.
  constructor; [apply Serial_new | done | | |]; intros i; unfold new_executor, at_work; simpl; rewrite lookup_empty;
    split; try done; set_solver.
Qed.

(** Adding a pending item to the queue. *)
Lemma Alive_put os e e' i :
  Alive os e -> Serial (begun os) e' -> futures e !! i = None ->
  (running e' = true -> exists l s, task e' = Some l /\ loops e' !! l = Some s) ->
  queue e' = queue e ++ [i] -> futures e' = <[i := Pending]> (futures e) -> at_work e' = at_work e ->
  Alive os e'.
Proof.
  intros Ha Hs Hi Hl Hq Hf Hw. constructor; try done; intros j; rewrite Hf.
  - rewrite Hq, Hw, elem_of_app, list_elem_of_singleton. pose proof (al_pending _ _ Ha j).
    destruct (decide (j = i)) as [->|]; [rewrite lookup_insert_eq | rewrite lookup_insert_ne by done]; naive_solver.
  - pose proof (al_result _ _ Ha j). destruct (decide (j = i)) as [->|];
      [rewrite lookup_insert_eq | by rewrite lookup_insert_ne]. rewrite Hi in H. naive_solver.
  - pose proof (al_failed _ _ Ha j). destruct (decide (j = i)) as [->|];
      [rewrite lookup_insert_eq | by rewrite lookup_insert_ne]. rewrite Hi in H. naive_solver.
Qed.

Lemma calm_unstopped a : calm a = true -> unstopped a = true.
Proof. by destruct a as [| | | | | |l []|]. Qed.

Lemma step_serial os a e :
  unstopped a = true -> Serial (begun os) e -> Serial (begun (os ++ (step a e).1)) (step a e).2.
Proof. intros Ha Hs. rewrite begun_app. by apply Serial_step. Qed.

Lemma Alive_get os l s e :
  Alive os e -> loops e !! l = Some s -> (s = Fresh \/ s = Getting) ->
  Serial (begun (os ++ (loop_get l e).1)) (loop_get l e).2 ->
  Alive (os ++ (loop_get l e).1) (loop_get l e).2.
Proof.
  intros Ha El Hst Hs. destruct (ser_task _ _ (al_serial _ _ Ha) l s El) as [Ht Hr].
  assert (Hn : at_work e = None) by (unfold at_work; rewrite Ht, El; by destruct Hst as [->| ->]).
  revert Hs. unfold loop_get. destruct (queue e) as [|i rest] eqn:Eq; simpl; [by rewrite app_nil_r|].
  intros Hs. constructor; [done | | | |].
  - intros _. exists l, (Working i). simpl. by rewrite lookup_insert_eq.
  - intros j. unfold at_work. simpl. rewrite Ht, lookup_insert_eq, (al_pending _ _ Ha), Eq, Hn, elem_of_cons. naive_solver.
  - intros j. simpl. rewrite (al_result _ _ Ha), elem_of_app, list_elem_of_singleton. naive_solver.
  - intros j. simpl. rewrite (al_failed _ _ Ha), elem_of_app, list_elem_of_singleton. naive_solver.
Qed.

Lemma Alive_finish os l i o e (s := match o with Value => Resulted | _ => Failed end) :
  Alive os e -> loops e !! l = Some (Working i) -> o <> RaisesCancelled ->
  Alive (os ++ [Finished i o]) (loop_finish l i o e).
Proof.
  intros Ha El Ho. destruct (ser_task _ _ (al_serial _ _ Ha) l _ El) as [Ht Hr].
  assert (Hw : at_work e = Some i) by (by eapply at_work_loop).
  assert (Hp : futures e !! i = Some Pending) by (apply (al_pending _ _ Ha); auto).
  assert (Hq : i ∉ queue e).
  { pose proof (ser_nodup _ _ (al_serial _ _ Ha)) as Hd. destruct (ser_work _ _ (al_serial _ _ Ha) i Hw) as [bf Eb].
    rewrite Eb in Hd. apply NoDup_app in Hd as (_ & Hd & _). apply Hd. set_solver. }
  assert (E : loop_finish l i o e = set_loop l (Some Getting) (set_future i s e)).
  { unfold loop_finish, loop_again, s. rewrite Hp. simpl. rewrite Hr. by destruct o. }
  assert (Hs : Serial (begun (os ++ [Finished i o])) (loop_finish l i o e)).
  { pose proof (step_serial os (Ends l o) e eq_refl (al_serial _ _ Ha)) as H. simpl in H. by rewrite El in H. }
  rewrite E in *. constructor; [done | | | |].
  - intros _. exists l, Getting. simpl. by rewrite lookup_insert_eq.
  - intros j. unfold at_work. simpl. rewrite Ht, lookup_insert_eq. pose proof (al_pending _ _ Ha j) as Hj. rewrite Hw in Hj.
    destruct (decide (j = i)) as [->|]; [rewrite lookup_insert_eq; unfold s; destruct o; naive_solver|].
    rewrite lookup_insert_ne by done. naive_solver.
  - intros j. simpl. rewrite elem_of_app, list_elem_of_singleton. pose proof (al_result _ _ Ha j) as Hj.
    destruct (decide (j = i)) as [->|]; [|rewrite lookup_insert_ne by done; naive_solver].
    rewrite lookup_insert_eq. rewrite Hp in Hj. unfold s. destruct o; naive_solver.
  - intros j. simpl. rewrite elem_of_app, list_elem_of_singleton. pose proof (al_failed _ _ Ha j) as Hj.
    destruct (decide (j = i)) as [->|]; [|rewrite lookup_insert_ne by done; naive_solver].
    rewrite lookup_insert_eq. rewrite Hp in Hj. unfold s. destruct o; naive_solver.
Qed.

Lemma Alive_step os a e : calm a = true -> Alive os e -> Alive (os ++ (step a e).1) (step a e).2.
Proof.
  intros Hc Ha. pose proof (step_serial os a e (calm_unstopped a Hc) (al_serial _ _ Ha)) as Hs.
  destruct a as [l i|i|l|sn| |l|l o|i]; simpl in *; try done.
  - destruct (fresh_item i e) eqn:Ei; simpl in *; [|by rewrite app_nil_r].
    destruct (fresh_loop l e) eqn:El; simpl in *; [|by rewrite app_nil_r]. unfold fresh_item in *. to_prop.
    rewrite app_nil_r in *. unfold run, start in *. destruct (running e) eqn:Er; simpl in *.
    + apply (Alive_put os e _ i); auto. intros _. by apply (al_loop _ _ Ha).
    + apply (Alive_put os e _ i); simpl; auto.
      * intros _. exists l, Fresh. by rewrite lookup_insert_eq.
      * unfold at_work. simpl. rewrite lookup_insert_eq.
        by destruct (ser_off _ _ (al_serial _ _ Ha) Er) as (_ & -> & _).
  - destruct (fresh_item i e) eqn:Ei; simpl in *; [|by rewrite app_nil_r]. unfold fresh_item in Ei. to_prop.
    rewrite app_nil_r in *. unfold run_nowait in *. destruct (running e) eqn:Er; [|done].
    apply (Alive_put os e _ i); auto. intros _. by apply (al_loop _ _ Ha).
  - destruct (fresh_loop l e) eqn:El; simpl in *; rewrite app_nil_r in *; [|done]. unfold start in *.
    destruct (running e) eqn:Er; [done|].
    destruct (ser_off _ _ (al_serial _ _ Ha) Er) as (E1 & E2 & E3 & E4). constructor; [done | | | apply Ha | apply Ha].
    + intros _. exists l, Fresh. simpl. by rewrite lookup_insert_eq.
    + intros j. rewrite (al_pending _ _ Ha j). unfold at_work. simpl. by rewrite E2, lookup_insert_eq.
  - destruct (loops e !! l) as [[| |i]|] eqn:El; simpl in *; rewrite ?app_nil_r in *; try done.
    + rewrite (proj2 (ser_task _ _ (al_serial _ _ Ha) l _ El)) in *.
      apply (Alive_get os l Getting); [|by simpl; rewrite lookup_insert_eq | auto | done].
      pose proof (ser_task _ _ (al_serial _ _ Ha) l _ El) as [Ht Hr].
      constructor; [by eapply Serial_set_loop; [apply Ha | exact El |] | | | apply Ha | apply Ha].
      * intros _. exists l, Getting. simpl. by rewrite lookup_insert_eq.
      * intros j. rewrite (al_pending _ _ Ha j). unfold at_work. simpl. by rewrite Ht, El, lookup_insert_eq.
    + by eapply Alive_get; auto.
  - destruct (loops e !! l) as [[| |i]|] eqn:El; simpl in *; rewrite ?app_nil_r in *; try done.
    apply Alive_finish; [done..|]. by intros ->.
Qed.

Lemma Alive_play acts os e :
  Forall (fun a => calm a = true) acts -> Alive os e -> Alive (os ++ outputs acts e) (play acts e).
Proof.
  revert os e. induction acts as [|a acts IH]; intros os e Hc Ha; simpl; [by rewrite app_nil_r|].
  apply Forall_cons in Hc as [Hc1 Hc]. rewrite app_assoc. apply IH; [done|]. by apply Alive_step.
Qed.

(** ** Crashed executors *)

(** The loop task is gone, and nobody knows. *)
Definition Crashed (e : SequentialExecutor) : Prop := running e = true /\ loops e = ∅.

Lemma Crashed_step a e :
  unstopped a = true -> Crashed e ->
  Crashed (step a e).2 /\ (step a e).1 = [] /\
  forall i s, futures (step a e).2 !! i = Some s -> s = Resulted \/ s = Failed -> futures e !! i = Some s.
Proof.
  intros Ha [Hr Hl]. destruct a as [l i|i|l|sn| |l|l o|i]; simpl in *; try done.
  - destruct (fresh_item i e && fresh_loop l e); simpl; [|split; [by split | naive_solver]].
    unfold run, start. rewrite Hr. simpl. split; [by split|]. split; [done|].
    intros j s [[_ <-]|[_ ?]]%lookup_insert_Some; naive_solver.
  - destruct (fresh_item i e); simpl; [|split; [by split | naive_solver]].
    unfold run_nowait. rewrite Hr. simpl. split; [by split|]. split; [done|].
    intros j s [[_ <-]|[_ ?]]%lookup_insert_Some; naive_solver.
  - destruct (fresh_loop l e); simpl; (split; [|split; [done|]]); unfold start; rewrite ?Hr; by try split.
  - rewrite Hl, lookup_empty. split; [by split | done].
  - rewrite Hl, lookup_empty. split; [by split | done].
  - case_bool_decide; simpl; (split; [by split|]); (split; [done|]); [|done].
    intros j s [[_ <-]|[_ ?]]%lookup_insert_Some; naive_solver.
Qed.

Lemma Crashed_play acts e :
  Forall (fun a => unstopped a = true) acts -> Crashed e ->
  Crashed (play acts e) /\ outputs acts e = [] /\
  forall i s, futures (play acts e) !! i = Some s -> s = Resulted \/ s = Failed -> futures e !! i = Some s.
Proof.
  revert e. induction acts as [|a acts IH]; intros e Ha Hc; simpl; [by auto|].
  apply Forall_cons in Ha as [Ha1 Ha]. destruct (Crashed_step a e Ha1 Hc) as (Hc1 & E1 & H1).
  destruct (IH _ Ha Hc1) as (Hc2 & E2 & H2). split; [done|]. split; [by rewrite E1, E2|]. eauto.
Qed.

(** ** Theorems *)

Definition reached (acts : list Action) : SequentialExecutor := play acts new_executor.

(** C25: As long as nobody stops the executor, it is sequential: items begin
    in the order in which they were queued, each at most once and none out of
    turn, there is at most one loop task, and the item it works on is the last
    one that began. *)
Theorem executor_sequential (acts : list Action) :
  Forall (fun a => unstopped a = true) acts ->
  let e := reached acts in let bs := begun (outputs acts new_executor) in
  bs ++ queue e = submitted acts new_executor /\ NoDup (bs ++ queue e) /\
  (forall l l' s s', loops e !! l = Some s -> loops e !! l' = Some s' -> l = l') /\
  (forall l i, loops e !! l = Some (Working i) -> exists before, bs = before ++ [i]).
Proof.
  intros Ha e bs. destruct (Serial_play acts [] new_executor Ha Serial_new) as [Hs E]. simpl in Hs, E.
  split; [done|]. split; [apply (ser_nodup _ _ Hs)|]. split.
  - intros l l' s s' H1 H2. apply (ser_task _ _ Hs) in H1 as [E1 _], H2 as [E2 _]. congruence.
  - intros l i H. apply (ser_work _ _ Hs). eapply at_work_loop; [|exact H]. by eapply ser_task.
Qed.

(** If moreover no caller is cancelled and no coroutine raises
    [CancelledError], every caller is served: a caller has the result of its
    coroutine exactly when that has returned, its exception exactly when it has
    raised one, and otherwise its item is queued or at work; and while somebody
    waits, the loop can go on, by finishing its item or by taking the next. *)
Theorem executor_serves (acts : list Action) :
  Forall (fun a => calm a = true) acts ->
  let e := reached acts in let os := outputs acts new_executor in
  (forall i, futures e !! i = Some Resulted <-> Finished i Value ∈ os) /\
  (forall i, futures e !! i = Some Failed <-> Finished i RaisesException ∈ os) /\
  (forall i, futures e !! i = Some Pending <-> i ∈ queue e \/ at_work e = Some i) /\
  ((exists i, futures e !! i = Some Pending) ->
   exists l, (exists i, loops e !! l = Some (Working i)) \/
             (exists i rest, queue e = i :: rest /\ (step (Get l) e).1 = [Began i])).
Proof.
  intros Hc e os. pose proof (Alive_play acts [] new_executor Hc Alive_new) as Ha. simpl in Ha.
  fold (reached acts) in Ha. fold e os in Ha.
  split; [apply (al_result _ _ Ha)|]. split; [apply (al_failed _ _ Ha)|]. split; [apply (al_pending _ _ Ha)|].
  intros [i Hi]. assert (Hr : running e = true).
  { destruct (running e) eqn:Er; [done|]. destruct (ser_off _ _ (al_serial _ _ Ha) Er) as (_ & Ht & Hq & _).
    apply (al_pending _ _ Ha) in Hi as [Hi|Hi]; [by rewrite Hq in Hi; inversion Hi|].
    unfold at_work in Hi. by rewrite Ht in Hi. }
  destruct (al_loop _ _ Ha Hr) as (l & s & Ht & El). exists l. destruct s as [| |j]; [| |eauto].
  all: right; apply (al_pending _ _ Ha) in Hi as [Hi|Hi]; [|unfold at_work in Hi; by rewrite Ht, El in Hi].
  all: destruct (queue e) as [|j rest] eqn:Eq; [inversion Hi|]; exists j, rest; split; [done|]; simpl; rewrite El, ?Hr;
    unfold loop_get; simpl; by rewrite Eq.
Qed.

(** One cancelled caller ends the executor: when the coroutine of a
    caller that was cancelled meanwhile is over, however it ends, the loop task
    dies; until somebody stops the executor no item begins again and no caller,
    present or future, gets a result. *)
Theorem cancelled_caller_kills (acts later : list Action) (l item : nat) (o : Outcome) :
  Forall (fun a => unstopped a = true) acts -> Forall (fun a => unstopped a = true) later ->
  loops (reached acts) !! l = Some (Working item) ->
  futures (reached acts) !! item = Some Pending -> item ∈ awaited (reached acts) ->
  let e := play [CancelCaller item; Ends l o] (reached acts) in
  outputs later e = [] /\ running (play later e) = true /\ loops (play later e) = ∅ /\
  forall i s, futures (play later e) !! i = Some s -> s = Resulted \/ s = Failed ->
    futures (reached acts) !! i = Some s.
Proof.
  intros Ha Hl El Ei Hw e. destruct (Serial_play acts [] new_executor Ha Serial_new) as [Hs _]. simpl in Hs.
  fold (reached acts) in Hs. destruct (ser_task _ _ Hs l _ El) as [Ht Hr].
  assert (Hc : Crashed e /\ futures e = <[item := Cancelled]> (futures (reached acts))).
  { subst e. simpl. rewrite bool_decide_true by done. simpl. rewrite El. simpl. unfold loop_finish. simpl.
    rewrite lookup_insert_eq. destruct o; simpl; (split; [|done]); (split; [done|]); simpl; apply map_empty; intros l'.
    all: destruct (decide (l' = l)) as [->|]; [by rewrite lookup_delete_eq|]; rewrite lookup_delete_ne by done.
    all: destruct (loops (reached acts) !! l') eqn:E; [|done]; apply (ser_task _ _ Hs) in E as [E _]; congruence. }
  destruct Hc as [Hc Hf]. destruct (Crashed_play later e Hl Hc) as ([Hr' Hl'] & Ho & Hfut).
  split; [done|]. split; [done|]. split; [done|]. intros i s Hi Hsr. specialize (Hfut i s Hi Hsr).
  rewrite Hf in Hfut. apply lookup_insert_Some in Hfut as [[_ <-]|[_ ?]]; [by destruct Hsr|done].
Qed.

(** *** Witnesses and examples *)

Lemma executor_sequential_witness :
  begun (outputs [Run 0 10; Run 0 11; RunNowait 12; Get 0; CancelCaller 11; Ends 0 RaisesException; Get 0] new_executor)
  ++ queue (reached [Run 0 10; Run 0 11; RunNowait 12; Get 0; CancelCaller 11; Ends 0 RaisesException; Get 0]) =
  [10; 11; 12].
Proof.
  refine (proj1 (executor_sequential [Run 0 10; Run 0 11; RunNowait 12; Get 0; CancelCaller 11;
    Ends 0 RaisesException; Get 0] _)).
  repeat (constructor; [reflexivity|]). constructor.
Defined.

Lemma executor_serves_witness :
  futures (reached [Run 0 10; Run 0 11; Get 0; Ends 0 Value; Get 0; Ends 0 RaisesException]) !! 10 = Some Resulted.
Proof.
  refine (proj2 (proj1 (executor_serves [Run 0 10; Run 0 11; Get 0; Ends 0 Value; Get 0; Ends 0 RaisesException] _)
                   10) _).
  - repeat (constructor; [reflexivity|]). constructor.
  - vm_compute. set_solver.
Defined.

Lemma cancelled_caller_kills_witness :
  outputs [Run 1 11; RunNowait 12; Get 0; Get 1; Start 2; Get 2]
    (play [CancelCaller 10; Ends 0 Value] (reached [Run 0 10; Get 0])) = [].
Proof.
  refine (proj1 (cancelled_caller_kills [Run 0 10; Get 0] [Run 1 11; RunNowait 12; Get 0; Get 1; Start 2; Get 2]
                   0 10 Value _ _ _ _ _)).
  - repeat (constructor; [reflexivity|]). constructor.
  - repeat (constructor; [reflexivity|]). constructor.
  - vm_compute. reflexivity.
  - vm_compute. reflexivity.
  - vm_compute. reflexivity.
Defined.

(** A coroutine that ends in [CancelledError] ends the loop too, and its own
    caller is never told. *)
Example cancelled_coroutine_kills :
  let e := reached [Run 0 10; Run 0 11; Get 0; Ends 0 RaisesCancelled; Get 0] in
  running e = true /\ loops e = ∅ /\ futures e !! 10 = Some Pending /\ futures e !! 11 = Some Pending.
Proof. vm_compute. repeat split; reflexivity. Qed.

(** A call that arrives while [stop] waits restarts the executor beside the
    old loop: two items are at work at once. *)
Example restart_runs_two :
  let e := reached [Run 0 10; Get 0; Stop 20; Run 1 11; Get 1; Ends 1 Value; Get 1] in
  loops e = {[0 := Working 10; 1 := Working 11]}.
Proof. vm_compute. reflexivity. Qed.

(** What is queued when the executor stops is never run, and its callers wait
    for ever. *)
Example stop_strands_queue :
  let e := reached [Run 0 10; Run 0 11; Get 0; Stop 20; Ends 0 Value; Get 0] in
  loops e = ∅ /\ queue e = [11; 20] /\ futures e !! 11 = Some Pending.
Proof. vm_compute. repeat split; reflexivity. Qed.
