(* ===== verification/EventBus.v ===== *)
(** * The event bus ([libs/universal_event_bus/events/event_bus.py])

    Handlers subscribe to a signal, all events or those whose payload matches;
    publishing an event makes a task for each handler.  The bus, the handles of
    subscriptions, the event objects (shared between the tasks that were given
    them) and the queue of tasks that are ready form a transition system.  Time
    stamps, the debug broadcaster and the UDP bridge are left out. *)
From stdpp Require Import base gmap sets list strings sorting.
From Stdlib Require Import ZArith Lia.
From S2P Require Import Prelude.
Open Scope Z_scope.

Inductive PValue : Type := PNone | PStr (s : string) | PInt (z : Z).

#[global] Instance PValue_eq_dec : EqDecision PValue.
Proof. solve_decision. Defined.

Inductive Payload : Type := Fields (fields : gmap string PValue) | Opaque.

(** [id] is set by the bus. *)
Record Event := mkEvent { signal : string; payload : Payload; id : option Z }.

(** What is registered: the handler itself, or a new closure around it, told
    apart by a number, with the criteria copied. *)
Inductive Handler : Type :=
  | Plain (h : nat)
  | Filtered (closure h : nat) (criteria : gmap string PValue).

#[global] Instance Handler_eq_dec : EqDecision Handler.
Proof. solve_decision. Defined.

Record Subscription := mkSub { s_signal : string; s_handler : Handler; s_active : bool }.

Inductive TaskState : Type := Created | Cancelling | Running | Finished.

#[global] Instance TaskState_eq_dec : EqDecision TaskState.
Proof. solve_decision. Defined.

Record Task := mkTask { t_handler : Handler; t_event : nat; t_state : TaskState }.

(** An entry of the loop's ready queue. *)
Inductive Job : Type := HandlerJob (task : nat) | PublishJob (e : nat).

Record EventBus := mkBus {
  async_subscribers : gmap string (list Handler);
  event_counter : Z;
  subscriptions : gmap nat Subscription;
  events : gmap nat Event;
  tasks : list Task;                       (* by number *)
  ready : list Job;
  publishers : gmap nat (list nat)         (* suspended [publish] calls and their tasks *)
}.

Definition new_bus : EventBus := mkBus ∅ 1 ∅ ∅ [] [] ∅.

Definition subscribers (sig : string) (b : EventBus) : list Handler := get_or [] (async_subscribers b !! sig).

Definition with_subs (subs : gmap string (list Handler)) (handles : gmap nat Subscription) (b : EventBus) : EventBus :=
  mkBus subs (event_counter b) handles (events b) (tasks b) (ready b) (publishers b).
Definition with_tasks (ts : list Task) (jobs : list Job) (b : EventBus) : EventBus :=
  mkBus (async_subscribers b) (event_counter b) (subscriptions b) (events b) ts jobs (publishers b).
Definition with_events (c : Z) (es : gmap nat Event) (b : EventBus) : EventBus :=
  mkBus (async_subscribers b) c (subscriptions b) es (tasks b) (ready b) (publishers b).
Definition with_publishers (ps : gmap nat (list nat)) (b : EventBus) : EventBus :=
  mkBus (async_subscribers b) (event_counter b) (subscriptions b) (events b) (tasks b) (ready b) ps.

(** [n] numbers the handle, and the closure if there is one. *)
Definition subscribe_async (n : nat) (sig : string) (h : nat) (payload_match : option (gmap string PValue)) (b : EventBus)
  : EventBus :=
  let wrapped := match payload_match with Some m => Filtered n h m | None => Plain h end in
  with_subs (<[sig := subscribers sig b ++ [wrapped]]> (async_subscribers b))
    (<[n := mkSub sig wrapped true]> (subscriptions b)) b.

(** [handlers.remove(h)] *)
Fixpoint remove_first (h : Handler) (l : list Handler) : list Handler :=
  match l with
  | [] => []
  | x :: l' => if bool_decide (x = h) then l' else x :: remove_first h l'
  end.

Definition unsubscribe (n : nat) (b : EventBus) : bool * EventBus :=
  match subscriptions b !! n with
  | None => (false, b)
  | Some s =>
      if negb (s_active s) then (false, b)
      else
        let off := <[n := mkSub (s_signal s) (s_handler s) false]> (subscriptions b) in
        if bool_decide (s_handler s ∈ subscribers (s_signal s) b)
        then (true, with_subs (<[s_signal s := remove_first (s_handler s) (subscribers (s_signal s) b)]>
                                 (async_subscribers b)) off b)
        else (false, with_subs (async_subscribers b) off b)
  end.

(** The payload filter of a closure. *)
Definition accepts (h : Handler) (p : Payload) : bool :=
  match h with
  | Plain _ => true
  | Filtered _ _ criteria =>
      match p with
      | Fields f => forallb (fun kv => bool_decide (get_or PNone (f !! kv.1) = kv.2)) (map_to_list criteria)
      | Opaque => false
      end
  end.

Inductive Output : Type :=
  | Scheduled (h : Handler) (e : nat)
  | Called (h : Handler) (e : nat) (id_seen : option Z)
  | Passed (h : Handler) (e : nat)                    (* the filter or a cancellation *)
  | Returned (p : nat).

(** The part [publish] and [publish_nowait] share: the tasks made. *)
Definition dispatch (e : nat) (b : EventBus) : list Output * list nat * EventBus :=
  match events b !! e with
  | None => ([], [], b)
  | Some ev =>
      let b := with_events (event_counter b + 1) (<[e := mkEvent (signal ev) (payload ev) (Some (event_counter b))]> (events b)) b in
      let hs := subscribers (signal ev) b in
      let first := length (tasks b) in
      let numbers := seq first (length hs) in
      (map (fun h => Scheduled h e) hs, numbers,
       with_tasks (tasks b ++ map (fun h => mkTask h e Created) hs) (ready b ++ map HandlerJob numbers) b)
  end.

Definition publish_nowait (e : nat) (b : EventBus) : list Output * EventBus :=
  let '(o, _, b) := dispatch e b in (o, b).

(** [publish] up to [gather]. *)
Definition publish (p e : nat) (b : EventBus) : list Output * EventBus :=
  let '(o, ts, b) := dispatch e b in
  if bool_decide (ts = []) then (o ++ [Returned p], b) else (o, with_publishers (<[p := ts]> (publishers b)) b).

Definition publish_from_sync (e : nat) (b : EventBus) : EventBus := with_tasks (tasks b) (ready b ++ [PublishJob e]) b.

Definition set_task (t : nat) (s : TaskState) (b : EventBus) : EventBus :=
  with_tasks (alter (fun k => mkTask (t_handler k) (t_event k) s) t (tasks b)) (ready b) b.

(** The next ready task runs up to its first suspension. *)
Definition run_ready (b : EventBus) : list Output * EventBus :=
  match ready b with
  | [] => ([], b)
  | PublishJob e :: jobs => publish_nowait e (with_tasks (tasks b) jobs b)
  | HandlerJob t :: jobs =>
      let b := with_tasks (tasks b) jobs b in
      match tasks b !! t with
      | None => ([], b)
      | Some k =>
          match t_state k, events b !! t_event k with
          | Created, Some ev =>
              if accepts (t_handler k) (payload ev)
              then ([Called (t_handler k) (t_event k) (id ev)], set_task t Running b)
              else ([Passed (t_handler k) (t_event k)], set_task t Finished b)
          | _, _ => ([Passed (t_handler k) (t_event k)], set_task t Finished b)
          end
      end
  end.

Definition finished (b : EventBus) (t : nat) : bool :=
  match tasks b !! t with Some k => bool_decide (t_state k = Finished) | None => true end.

Inductive Action : Type :=
  | NewEvent (e : nat) (sig : string) (p : Payload)
  | Subscribe (n : nat) (sig : string) (h : nat) (payload_match : option (gmap string PValue))
  | Unsubscribe (n : nat)
  | Publish (p e : nat)
  | PublishNowait (e : nat)
  | PublishFromSync (e : nat)
  | RunReady
  | HandlerEnds (t : nat)          (* it returns, raises, or is cancelled *)
  | PublishReturns (p : nat)
  | CancelPublisher (p : nat).     (* [gather] cancels its tasks *)

(** A task that has not begun will not call its handler. *)
Definition cancel_created (b : EventBus) (t : nat) : EventBus :=
  match tasks b !! t with
  | Some k => if bool_decide (t_state k = Created) then set_task t Cancelling b else b
  | None => b
  end.

(** Handles, event objects and publishers are new: a used number is refused. *)
Definition step (a : Action) (b : EventBus) : list Output * EventBus :=
  match a with
  | NewEvent e sig p =>
      if bool_decide (events b !! e = None)
      then ([], with_events (event_counter b) (<[e := mkEvent sig p None]> (events b)) b) else ([], b)
  | Subscribe n sig h m =>
      if bool_decide (subscriptions b !! n = None) then ([], subscribe_async n sig h m b) else ([], b)
  | Unsubscribe n => ([], (unsubscribe n b).2)
  | Publish p e => if bool_decide (publishers b !! p = None) then publish p e b else ([], b)
  | PublishNowait e => publish_nowait e b
  | PublishFromSync e => ([], publish_from_sync e b)
  | RunReady => run_ready b
  | HandlerEnds t =>
      match tasks b !! t with
      | Some k => if bool_decide (t_state k = Running) then ([], set_task t Finished b) else ([], b)
      | None => ([], b)
      end
  | PublishReturns p =>
      match publishers b !! p with
      | Some ts => if forallb (finished b) ts then ([Returned p], with_publishers (delete p (publishers b)) b) else ([], b)
      | None => ([], b)
      end
  | CancelPublisher p =>
      match publishers b !! p with
      | Some ts => ([], fold_left cancel_created ts b)
      | None => ([], b)
      end
  end.

Fixpoint play (acts : list Action) (b : EventBus) : EventBus :=
  match acts with [] => b | a :: acts' => play acts' (step a b).2 end.

Fixpoint outputs (acts : list Action) (b : EventBus) : list Output :=
  match acts with [] => [] | a :: acts' => (step a b).1 ++ outputs acts' (step a b).2 end.

(** ** Subscriptions *)

Definition active_on (sig : string) (s : Subscription) : bool := s_active s && bool_decide (s_signal s = sig).

(** The handlers of the handles that are active on a signal. *)
Definition handlers_in (sig : string) (l : list (nat * Subscription)) : list Handler :=
  map (fun ns => s_handler ns.2) (List.filter (fun ns => active_on sig ns.2) l).

Definition active_handlers (sig : string) (b : EventBus) : list Handler := handlers_in sig (map_to_list (subscriptions b)).

Definition SubsOk (b : EventBus) : Prop := forall sig, subscribers sig b ≡ₚ active_handlers sig b.

Lemma handlers_perm sig l l' : l ≡ₚ l' -> handlers_in sig l ≡ₚ handlers_in sig l'.
Proof. intros H. apply Permutation_map. by apply lfilter_perm. Qed.

Lemma handlers_cons sig n s l :
  handlers_in sig ((n, s) :: l) = if active_on sig s then s_handler s :: handlers_in sig l else handlers_in sig l.
Proof. unfold handlers_in. simpl. by destruct (active_on sig s). Qed.

(** A handle that is new or changes. *)
Lemma handlers_insert sig n s (m : gmap nat Subscription) :
  handlers_in sig (map_to_list (<[n := s]> m)) ≡ₚ handlers_in sig ((n, s) :: map_to_list (delete n m)).
Proof.
  apply handlers_perm. rewrite <- insert_delete_eq. apply map_to_list_insert, lookup_delete_eq.
Qed.

Lemma handlers_lookup sig n s (m : gmap nat Subscription) :
  m !! n = Some s -> handlers_in sig (map_to_list m) ≡ₚ handlers_in sig ((n, s) :: map_to_list (delete n m)).
Proof. intros E. rewrite <- handlers_insert. by rewrite insert_id. Qed.

Lemma remove_first_perm h l : h ∈ l -> l ≡ₚ h :: remove_first h l.
Proof.
  induction l as [|x l IH]; intros Hin; [by apply elem_of_nil in Hin|]. simpl. case_bool_decide as E; [by subst|].
  rewrite Permutation_swap. constructor. apply IH. by apply elem_of_cons in Hin as [->|].
Qed.

Lemma subscribers_insert sig sig' l (b : EventBus) handles :
  subscribers sig (with_subs (<[sig' := l]> (async_subscribers b)) handles b) =
  if decide (sig' = sig) then l else subscribers sig b.
Proof.
  unfold subscribers. simpl. destruct (decide (sig' = sig)) as [->|]; [by rewrite lookup_insert_eq | by rewrite lookup_insert_ne].
Qed.

Lemma SubsOk_new : SubsOk new_bus.
Proof. intros sig. unfold active_handlers, subscribers. simpl. rewrite lookup_empty, map_to_list_empty. done. Qed.

Lemma SubsOk_same b b' :
  async_subscribers b' = async_subscribers b -> subscriptions b' = subscriptions b -> SubsOk b -> SubsOk b'.
Proof. intros E1 E2 H sig. unfold subscribers, active_handlers. rewrite E1, E2. apply H. Qed.

Lemma SubsOk_subscribe n sig h m b :
  subscriptions b !! n = None -> SubsOk b -> SubsOk (subscribe_async n sig h m b).
Proof.
  intros En H sig'. unfold subscribe_async. set (w := match m with Some _ => _ | None => _ end).
  rewrite subscribers_insert. unfold active_handlers. simpl. rewrite handlers_insert, handlers_cons, delete_id by done.
  unfold active_on at 1. simpl. destruct (decide (sig = sig')) as [->|Hne].
  - rewrite bool_decide_true by done. rewrite Permutation_app_comm. simpl. constructor. apply H.
  - rewrite bool_decide_false by done. apply H.
Qed.

Lemma SubsOk_unsubscribe n b : SubsOk b -> SubsOk (unsubscribe n b).2.
Proof.
  intros H. unfold unsubscribe. destruct (subscriptions b !! n) as [s|] eqn:En; [|done].
  destruct (s_active s) eqn:Ea; simpl; [|done].
  assert (Hin : s_handler s ∈ subscribers (s_signal s) b).
  { rewrite (H (s_signal s)). unfold active_handlers. rewrite (handlers_lookup _ n s) by done. rewrite handlers_cons.
    unfold active_on. rewrite Ea, bool_decide_true by done. left. }
  rewrite bool_decide_true by done. intros sig. simpl. rewrite subscribers_insert. unfold active_handlers. simpl.
  rewrite handlers_insert, handlers_cons. unfold active_on at 1. simpl. pose proof (H sig) as Hs. unfold active_handlers in Hs.
  rewrite (handlers_lookup sig n s) in Hs by done. rewrite handlers_cons in Hs. unfold active_on at 1 in Hs.
  rewrite Ea in Hs. simpl in Hs. destruct (decide (s_signal s = sig)) as [<-|Hne].
  - rewrite bool_decide_true in Hs by done. rewrite (remove_first_perm _ _ Hin) in Hs. by apply Permutation_cons_inv in Hs.
  - by rewrite bool_decide_false in Hs.
Qed.

Lemma dispatch_subs e b :
  let b' := (dispatch e b).2 in async_subscribers b' = async_subscribers b /\ subscriptions b' = subscriptions b.
Proof. unfold dispatch. by destruct (events b !! e). Qed.

Lemma run_ready_subs b :
  let b' := (run_ready b).2 in async_subscribers b' = async_subscribers b /\ subscriptions b' = subscriptions b.
Proof.
  unfold run_ready. destruct (ready b) as [|[t|e] jobs]; [done| |].
  - cbn [tasks events with_tasks]. destruct (tasks b !! t) as [k|]; [|done].
    destruct (t_state k), (events b !! t_event k) as [ev|]; try done. by destruct (accepts _ _).
  - unfold publish_nowait. pose proof (dispatch_subs e (with_tasks (tasks b) jobs b)) as H.
    by destruct (dispatch e (with_tasks (tasks b) jobs b)) as [[? ?] ?].
Qed.

Lemma cancel_subs ts b :
  let b' := fold_left cancel_created ts b in async_subscribers b' = async_subscribers b /\ subscriptions b' = subscriptions b.
Proof.
  revert b. induction ts as [|t ts IH]; intros b; simpl; [done|]. destruct (IH (cancel_created b t)) as [-> ->].
  unfold cancel_created. destruct (tasks b !! t) as [k|]; [|done]. by case_bool_decide.
Qed.

Lemma SubsOk_step a b : SubsOk b -> SubsOk (step a b).2.
Proof.
  intros H. destruct a as [e sig p|n sig h m|n|p e|e|e| |t|p|p]; cbn [step].
  - case_bool_decide; [by apply (SubsOk_same b) | done].
  - case_bool_decide; [by apply SubsOk_subscribe | done].
  - by apply SubsOk_unsubscribe.
  - case_bool_decide; [|done]. unfold publish. destruct (dispatch_subs e b) as [E1 E2].
    destruct (dispatch e b) as [[o ts] b']. case_bool_decide; by apply (SubsOk_same b).
  - unfold publish_nowait. destruct (dispatch_subs e b) as [E1 E2].
    destruct (dispatch e b) as [[o ts] b']. by apply (SubsOk_same b).
  - by apply (SubsOk_same b).
  - destruct (run_ready_subs b). by apply (SubsOk_same b).
  - destruct (tasks b !! t) as [k|]; [|done]. case_bool_decide; [by apply (SubsOk_same b) | done].
  - destruct (publishers b !! p) as [ts|]; [|done]. destruct (forallb _ ts); [by apply (SubsOk_same b) | done].
  - destruct (publishers b !! p) as [ts|]; [|done]. destruct (cancel_subs ts b). by apply (SubsOk_same b).
Qed.

Lemma SubsOk_play acts b : SubsOk b -> SubsOk (play acts b).
Proof. revert b. induction acts as [|a acts IH]; intros b H; [done|]. by apply IH, SubsOk_step. Qed.

(** Whatever was subscribed and unsubscribed before, an event published with an
    object is given to each subscription that is active on its signal, once, and
    to nothing else. *)
Theorem publish_reaches_subscribers acts e ev :
  let b := play acts new_bus in
  events b !! e = Some ev ->
  (publish_nowait e b).1 = map (fun h => Scheduled h e) (subscribers (signal ev) b) /\
  subscribers (signal ev) b ≡ₚ active_handlers (signal ev) b.
Proof.
  intros b E. split; [|apply (SubsOk_play acts new_bus SubsOk_new)]. unfold publish_nowait, dispatch. by rewrite E.
Qed.

(** ** Deliveries *)

Definition scheduled (os : list Output) : list (Handler * nat) :=
  omap (fun o => match o with Scheduled h e => Some (h, e) | _ => None end) os.
Definition processed (os : list Output) : list (Handler * nat) :=
  omap (fun o => match o with Called h e _ | Passed h e => Some (h, e) | _ => None end) os.

(** The deliveries that are ready to run. *)
Definition delivery_of (ts : list Task) (j : Job) : option (Handler * nat) :=
  match j with HandlerJob t => (fun k => (t_handler k, t_event k)) <$> ts !! t | PublishJob _ => None end.
Definition pending (b : EventBus) : list (Handler * nat) := omap (delivery_of (tasks b)) (ready b).

Definition handler_jobs (js : list Job) : list nat := omap (fun j => match j with HandlerJob t => Some t | _ => None end) js.

(** The tasks that are ready exist, each is ready once, and none has begun; its
    event exists. *)
Definition task_ok (b : EventBus) (t : nat) : Prop :=
  exists k, tasks b !! t = Some k /\ (t_state k = Created \/ t_state k = Cancelling) /\ is_Some (events b !! t_event k).

Definition JobsOk (b : EventBus) : Prop := NoDup (handler_jobs (ready b)) /\ forall t, t ∈ handler_jobs (ready b) -> task_ok b t.

Lemma pending_same ts ts' js :
  (forall t, t ∈ handler_jobs js -> delivery_of ts (HandlerJob t) = delivery_of ts' (HandlerJob t)) ->
  omap (delivery_of ts) js = omap (delivery_of ts') js.
Proof.
  induction js as [|[t|e] js IH]; intros H; [done| |].
  - cbn [omap list_omap]. rewrite (H t) by left. destruct (delivery_of ts' (HandlerJob t)); [f_equal|]; apply IH; intros t' Ht; apply H;
      by right.
  - apply IH. exact H.
Qed.

Lemma pending_new ts hs e :
  omap (delivery_of (ts ++ map (fun h => mkTask h e Created) hs)) (map HandlerJob (seq (length ts) (length hs))) =
  map (fun h => (h, e)) hs.
Proof.
  revert ts. induction hs as [|h hs IH]; intros ts; [done|]. cbn [map length seq omap list_omap delivery_of].
  rewrite list_lookup_middle by done. simpl. f_equal. specialize (IH (ts ++ [mkTask h e Created])).
  rewrite length_app in IH. simpl in IH. rewrite Nat.add_1_r, <- app_assoc in IH. exact IH.
Qed.

Lemma handler_jobs_app a c : handler_jobs (a ++ c) = handler_jobs a ++ handler_jobs c.
Proof. apply omap_app. Qed.

Lemma handler_jobs_map ts : handler_jobs (map HandlerJob ts) = ts.
Proof. induction ts as [|t ts IH]; [done|]. change (t :: handler_jobs (map HandlerJob ts) = t :: ts). by rewrite IH. Qed.

Lemma scheduled_map hs e : scheduled (map (fun h => Scheduled h e) hs) = map (fun h => (h, e)) hs.
Proof.
  induction hs as [|h hs IH]; [done|]. cbn [map]. change ((h, e) :: scheduled (map (fun h => Scheduled h e) hs) = (h, e) :: map (fun h => (h, e)) hs).
  by rewrite IH.
Qed.

Lemma task_ok_lt b t : task_ok b t -> (t < length (tasks b))%nat.
Proof. intros (k & E & _). by apply lookup_lt_Some in E. Qed.

Lemma dispatch_pending e b :
  JobsOk b -> let '(o, _, b') := dispatch e b in pending b ++ scheduled o = pending b' /\ processed o = [] /\ JobsOk b'.
Proof.
  intros [Hn Hj]. unfold dispatch. destruct (events b !! e) as [ev|] eqn:E; [|simpl; by rewrite app_nil_r].
  set (hs := subscribers (signal ev) _). unfold pending. cbn [tasks ready events with_tasks with_events].
  split; [|split; [|split]].
  - rewrite omap_app, pending_new. f_equal.
    + apply pending_same. intros t Ht. simpl. rewrite lookup_app_l; [done|]. by apply task_ok_lt, Hj.
    + apply scheduled_map.
  - induction hs as [|h hs IH]; [done|]. exact IH.
  - cbn [ready with_tasks]. rewrite handler_jobs_app, handler_jobs_map. apply NoDup_app. split; [done|]. split; [|apply NoDup_seq].
    intros t Ht Hin%elem_of_seq. apply Hj, task_ok_lt in Ht. lia.
  - cbn [ready with_tasks]. intros t. rewrite handler_jobs_app, handler_jobs_map, elem_of_app. intros [Ht|Ht%elem_of_seq].
    + destruct (Hj t Ht) as (k & Ek & Hs & He). exists k. cbn [tasks events with_tasks with_events].
      rewrite lookup_app_l by (by apply task_ok_lt, Hj). split; [done|]. split; [done|].
      destruct (decide (e = t_event k)) as [<-|]; [rewrite lookup_insert_eq; eauto | by rewrite lookup_insert_ne].
    + destruct (lookup_lt_is_Some_2 hs (t - length (tasks b))%nat) as [h Eh]; [lia|].
      exists (mkTask h e Created). cbn [tasks events with_tasks with_events].
      rewrite lookup_app_r, list_lookup_fmap, Eh by lia. split; [done|]. split; [by left|]. rewrite lookup_insert_eq. eauto.
Qed.

Lemma set_task_lookup t s b t' :
  tasks (set_task t s b) !! t' =
  if decide (t = t') then (fun k => mkTask (t_handler k) (t_event k) s) <$> tasks b !! t' else tasks b !! t'.
Proof.
  unfold set_task. simpl. destruct (decide (t = t')) as [->|]; [by rewrite list_lookup_alter_eq | by rewrite list_lookup_alter_ne].
Qed.

Lemma delivery_set t s b j : delivery_of (tasks (set_task t s b)) j = delivery_of (tasks b) j.
Proof.
  destruct j as [t'|e]; [|done]. cbn [delivery_of]. rewrite set_task_lookup. destruct (decide (t = t')) as [->|]; [|done].
  by destruct (tasks b !! t').
Qed.

Lemma pending_set t s b : pending (set_task t s b) = pending b.
Proof. unfold pending. apply pending_same. intros t' _. apply delivery_set. Qed.

(** A task that is not ready changes, or one that is ready is cancelled. *)
Lemma JobsOk_set t s b :
  (t ∉ handler_jobs (ready b) \/ s = Cancelling) -> JobsOk b -> JobsOk (set_task t s b).
Proof.
  intros Ht [Hn Hj]. split; [done|]. intros t' Hin. destruct (Hj t' Hin) as (k & Ek & Hs & He).
  unfold task_ok. rewrite set_task_lookup, Ek. destruct (decide (t = t')) as [->|]; [|by exists k].
  destruct Ht as [Ht| ->]; [by destruct Ht|]. simpl. eexists. split; [done|]. split; [by right | done].
Qed.

Lemma JobsOk_frame b b' :
  tasks b' = tasks b -> handler_jobs (ready b') = handler_jobs (ready b) -> (forall e, is_Some (events b !! e) -> is_Some (events b' !! e)) ->
  JobsOk b -> JobsOk b'.
Proof.
  intros Et Er Ee [Hn Hj]. unfold JobsOk, task_ok. rewrite Er, Et. split; [done|]. intros t Hin.
  destruct (Hj t Hin) as (k & ? & ? & ?). exists k. eauto.
Qed.

(** The filter of a handler and the payload of an event object. *)
Definition matches (b : EventBus) (h : Handler) (e : nat) : option bool := (fun ev => accepts h (payload ev)) <$> events b !! e.

Definition uncancelled (b : EventBus) : Prop := Forall (fun k => t_state k <> Cancelling) (tasks b).

(** A begun delivery either calls its handler, when the filter accepts, or
    passes, when it does not or the task was cancelled. *)
Definition decided (b : EventBus) (o : Output) : Prop :=
  match o with
  | Called h e _ => matches b h e = Some true
  | Passed h e => uncancelled b -> matches b h e = Some false
  | _ => True
  end.

Lemma dispatch_decided e b b' : Forall (decided b') (dispatch e b).1.1.
Proof. unfold dispatch. destruct (events b !! e); [|constructor]. simpl. apply Forall_forall. intros o (h & -> & _)%list_elem_of_fmap. done. Qed.

Lemma run_ready_pending b :
  JobsOk b -> let '(o, b') := run_ready b in
  pending b ++ scheduled o = processed o ++ pending b' /\ JobsOk b' /\ Forall (decided b) o.
Proof.
  intros [Hn Hj]. unfold run_ready. destruct (ready b) as [|[t|e] jobs] eqn:Er.
  - unfold pending. rewrite Er. split; [done|]. split; [split; rewrite Er; done | constructor].
  - change (handler_jobs (HandlerJob t :: jobs)) with (t :: handler_jobs jobs) in *.
    apply NoDup_cons in Hn as [Ht Hn]. destruct (Hj t) as (k & Ek & Hs & [ev Eev]); [by left|].
    set (b1 := with_tasks (tasks b) jobs b).
    assert (H1 : JobsOk b1) by (split; [exact Hn|]; intros t' Hin; apply Hj; by right).
    assert (Hp : pending b = (t_handler k, t_event k) :: pending b1).
    { unfold pending. rewrite Er. cbn [omap list_omap delivery_of]. by rewrite Ek. }
    assert (Hset : forall s, pending (set_task t s b1) = pending b1 /\ JobsOk (set_task t s b1)).
    { intros s. split; [apply pending_set | apply JobsOk_set; [by left | done]]. }
    cbn [tasks events b1 with_tasks]. rewrite Ek, Eev, Hp. fold b1.
    assert (Hm : matches b (t_handler k) (t_event k) = Some (accepts (t_handler k) (payload ev))) by (unfold matches; by rewrite Eev).
    destruct Hs as [-> |E].
    + destruct (accepts (t_handler k) (payload ev)) eqn:Ea.
      * destruct (Hset Running) as [-> ?]. simpl. rewrite app_nil_r. split; [done|]. split; [done|]. by repeat constructor.
      * destruct (Hset Finished) as [-> ?]. simpl. rewrite app_nil_r. split; [done|]. split; [done|]. constructor; [by intros _ | constructor].
    + rewrite E. destruct (Hset Finished) as [-> ?]. simpl. rewrite app_nil_r. split; [done|]. split; [done|].
      constructor; [|constructor]. intros Hu. unfold uncancelled in Hu. rewrite Forall_forall in Hu.
      by destruct (Hu k (list_elem_of_lookup_2 _ _ _ Ek)).
  - set (b1 := with_tasks (tasks b) jobs b). assert (H1 : JobsOk b1) by (by split).
    assert (Hp : pending b = pending b1) by (unfold pending; by rewrite Er).
    pose proof (dispatch_pending e b1 H1) as Hd. pose proof (dispatch_decided e b1 b) as Hdec. unfold publish_nowait.
    destruct (dispatch e b1) as [[o ts] b']. destruct Hd as (E & -> & Hok). rewrite Hp, E. done.
Qed.

Lemma cancel_pending ts b : JobsOk b -> pending (fold_left cancel_created ts b) = pending b /\ JobsOk (fold_left cancel_created ts b).
Proof.
  revert b. induction ts as [|t ts IH]; intros b H; [done|]. simpl.
  assert (Hc : pending (cancel_created b t) = pending b /\ JobsOk (cancel_created b t)).
  { unfold cancel_created. destruct (tasks b !! t) as [k|]; [|done]. case_bool_decide; [|done].
    split; [apply pending_set | apply JobsOk_set; [by right | done]]. }
  destruct Hc as [E Hok]. destruct (IH _ Hok) as [E' ?]. by rewrite E', E.
Qed.

Lemma step_pending a b :
  JobsOk b -> let '(o, b') := step a b in
  pending b ++ scheduled o = processed o ++ pending b' /\ JobsOk b' /\ Forall (decided b) o.
Proof.
  intros H. assert (Hid : pending b ++ scheduled [] = processed [] ++ pending b /\ JobsOk b /\ Forall (decided b) []).
  { split; [by rewrite app_nil_r|]. split; [done | constructor]. }
  assert (Hp : forall b', tasks b' = tasks b -> ready b' = ready b -> pending b' = pending b) by (intros b' E1 E2; unfold pending; by rewrite E1, E2).
  destruct a as [e sig p|n sig h m|n|p e|e|e| |t|p|p]; cbn [step].
  - case_bool_decide; [|exact Hid]. split; [rewrite app_nil_r; symmetry; by apply Hp|]. split; [|constructor].
    apply (JobsOk_frame b); try done. intros e' [ev E]. simpl.
    destruct (decide (e = e')) as [->|]; [rewrite lookup_insert_eq; eauto | rewrite lookup_insert_ne by done; eauto].
  - case_bool_decide; exact Hid.
  - assert (Hu : tasks (unsubscribe n b).2 = tasks b /\ ready (unsubscribe n b).2 = ready b /\ events (unsubscribe n b).2 = events b).
    { unfold unsubscribe. destruct (subscriptions b !! n) as [s|]; [|done]. destruct (negb _); [done|]. by case_bool_decide. }
    destruct Hu as (E1 & E2 & E3). rewrite (Hp (unsubscribe n b).2) by done. split; [by rewrite app_nil_r|]. split; [|constructor].
    apply (JobsOk_frame b); try done; [by rewrite E2 | by rewrite E3].
  - case_bool_decide; [|exact Hid]. pose proof (dispatch_pending e b H) as Hd. pose proof (dispatch_decided e b b) as Hdec.
    unfold publish. destruct (dispatch e b) as [[o ts] b']. destruct Hd as (E & Eo & Hok). case_bool_decide.
    + unfold scheduled, processed in *. rewrite !omap_app, Eo. simpl. rewrite app_nil_r. split; [done|]. split; [done|].
      apply Forall_app. split; [done|]. by repeat constructor.
    + rewrite Eo. split; [done|]. split; [|done]. by apply (JobsOk_frame b').
  - pose proof (dispatch_pending e b H) as Hd. pose proof (dispatch_decided e b b) as Hdec.
    unfold publish_nowait. destruct (dispatch e b) as [[o ts] b']. destruct Hd as (E & -> & Hok). done.
  - split; [|split; [|constructor]].
    + unfold pending. simpl. rewrite omap_app. simpl. done.
    + apply (JobsOk_frame b); try done. cbn [ready publish_from_sync with_tasks]. rewrite handler_jobs_app. apply app_nil_r.
  - by apply run_ready_pending.
  - destruct (tasks b !! t) as [k|] eqn:Ek; [|exact Hid]. case_bool_decide as Hr; [|exact Hid]. rewrite pending_set.
    split; [by rewrite app_nil_r|]. split; [|constructor]. apply JobsOk_set; [|done]. left. intros Hin.
    destruct H as [_ Hj]. destruct (Hj t Hin) as (k' & Ek' & [Hs|Hs] & _); simplify_eq; congruence.
  - destruct (publishers b !! p) as [ts|]; [|exact Hid]. destruct (forallb _ ts); [|exact Hid].
    split; [by rewrite app_nil_r|]. split; [done | by repeat constructor].
  - destruct (publishers b !! p) as [ts|]; [|exact Hid]. destruct (cancel_pending ts b H) as [E Hok]. rewrite E.
    split; [by rewrite app_nil_r|]. split; [done | constructor].
Qed.

(** Payloads never change. *)
Lemma dispatch_events e b e' ev :
  events b !! e' = Some ev -> exists ev', events (dispatch e b).2 !! e' = Some ev' /\ payload ev' = payload ev.
Proof.
  intros E. unfold dispatch. destruct (events b !! e) as [ev0|] eqn:E0; [|eauto]. simpl.
  destruct (decide (e = e')) as [->|]; [rewrite lookup_insert_eq; simplify_eq; eauto | rewrite lookup_insert_ne by done; eauto].
Qed.

Lemma cancel_events ts b : events (fold_left cancel_created ts b) = events b.
Proof.
  revert b. induction ts as [|t ts IH]; intros b; [done|]. simpl. rewrite IH. unfold cancel_created.
  destruct (tasks b !! t); [by case_bool_decide | done].
Qed.

Lemma step_events a b e ev :
  events b !! e = Some ev -> exists ev', events (step a b).2 !! e = Some ev' /\ payload ev' = payload ev.
Proof.
  intros E. destruct a as [e' sig p|n sig h m|n|p e'|e'|e'| |t|p|p]; cbn [step]; eauto.
  - case_bool_decide; [|eauto]. simpl. rewrite lookup_insert_ne by congruence. eauto.
  - case_bool_decide; eauto.
  - unfold unsubscribe. destruct (subscriptions b !! n) as [s|]; [|eauto]. destruct (negb _); [eauto|]. case_bool_decide; eauto.
  - case_bool_decide; [|eauto]. destruct (dispatch_events e' b e ev E) as (ev' & E' & ?). unfold publish.
    destruct (dispatch e' b) as [[o ts] b']. case_bool_decide; eauto.
  - destruct (dispatch_events e' b e ev E) as (ev' & E' & ?). unfold publish_nowait. destruct (dispatch e' b) as [[o ts] b']. eauto.
  - unfold run_ready. destruct (ready b) as [|[t|e'] jobs]; [eauto| |].
    + cbn [tasks events with_tasks]. destruct (tasks b !! t) as [k|]; [|eauto].
      destruct (t_state k), (events b !! t_event k) as [ev0|]; eauto. destruct (accepts _ _); eauto.
    + destruct (dispatch_events e' (with_tasks (tasks b) jobs b) e ev E) as (ev' & E' & ?). unfold publish_nowait.
      destruct (dispatch e' (with_tasks (tasks b) jobs b)) as [[o ts] b']. eauto.
  - destruct (tasks b !! t); [|eauto]. case_bool_decide; eauto.
  - destruct (publishers b !! p) as [ts|]; [|eauto]. destruct (forallb _ ts); eauto.
  - destruct (publishers b !! p) as [ts|]; [|eauto]. simpl. rewrite cancel_events. eauto.
Qed.

Lemma matches_play acts b h e v : matches b h e = Some v -> matches (play acts b) h e = Some v.
Proof.
  revert b. induction acts as [|a acts IH]; intros b H; [done|]. simpl. apply IH. unfold matches in *.
  destruct (events b !! e) as [ev|] eqn:E; [|done]. destruct (step_events a b e ev E) as (ev' & -> & Hp). simpl in *. by rewrite Hp.
Qed.

Lemma JobsOk_new : JobsOk new_bus.
Proof. split; [constructor|]. intros t Ht. by apply elem_of_nil in Ht. Qed.

Lemma play_pending acts b :
  JobsOk b -> pending b ++ scheduled (outputs acts b) = processed (outputs acts b) ++ pending (play acts b) /\
  forall h e i, Called h e i ∈ outputs acts b -> matches (play acts b) h e = Some true.
Proof.
  revert b. induction acts as [|a acts IH]; intros b H; simpl.
  - split; [by rewrite app_nil_r|]. intros h e i Hin. by apply elem_of_nil in Hin.
  - pose proof (step_pending a b H) as Hs. destruct (step a b) as [o b'] eqn:Ea. destruct Hs as (E & Hok & Hd).
    destruct (IH b' Hok) as [E' Hc]. simpl. split.
    + unfold scheduled, processed in *. rewrite !omap_app, app_assoc, E, <- app_assoc, E'. by rewrite app_assoc.
    + intros h e i [Hin|Hin]%elem_of_app; [|by eapply Hc]. rewrite Forall_forall in Hd. apply Hd in Hin. simpl in Hin.
      pose proof (matches_play (a :: acts) b h e true Hin) as Hm. cbn [play] in Hm. by rewrite Ea in Hm.
Qed.

(** Deliveries happen in order and once: in every history the deliveries that
    publishing made are, in this order (publish by publish, and in the order of
    subscription within one), those that have begun followed by those that are
    still ready; and a handler is only called with an event its filter accepts. *)
Theorem delivery_in_order acts :
  scheduled (outputs acts new_bus) = processed (outputs acts new_bus) ++ pending (play acts new_bus) /\
  forall h e i, Called h e i ∈ outputs acts new_bus -> matches (play acts new_bus) h e = Some true.
Proof. apply (play_pending acts new_bus JobsOk_new). Qed.

(** ** What the code does *)

(** Events are called immutable, but an event that is published again gets a
    new id, also for the handlers that have not read the first one. *)
Example republished_id_seen_twice :
  outputs [NewEvent 0 "s" Opaque; Subscribe 0 "s" 7 None; PublishNowait 0; PublishNowait 0; RunReady; RunReady] new_bus =
  [Scheduled (Plain 7) 0; Scheduled (Plain 7) 0; Called (Plain 7) 0 (Some 2); Called (Plain 7) 0 (Some 2)].
Proof. vm_compute. reflexivity. Qed.

(** A handler may be called after its subscription has been removed. *)
Example called_after_unsubscribe :
  outputs [NewEvent 0 "s" Opaque; Subscribe 0 "s" 7 None; PublishNowait 0; Unsubscribe 0; RunReady] new_bus =
  [Scheduled (Plain 7) 0; Called (Plain 7) 0 (Some 1)].
Proof. vm_compute. reflexivity. Qed.

(** A handler that subscribed twice: the handle that is removed is not the
    place that is given up. *)
Example first_place_removed :
  subscribers "s" (play [Subscribe 0 "s" 7 None; Subscribe 1 "s" 8 None; Subscribe 2 "s" 7 None; Unsubscribe 2] new_bus) =
  [Plain 8; Plain 7].
Proof. vm_compute. reflexivity. Qed.

(** A filter that asks for [None] is passed by events without the field. *)
Example missing_matches_none :
  accepts (Filtered 0 7 {["error"%string := PNone]}) (Fields ∅) = true.
Proof. vm_compute. reflexivity. Qed.

(** ** Witnesses *)

Lemma publish_reaches_subscribers_witness :
  (publish_nowait 0 (play [NewEvent 0 "s" Opaque; Subscribe 0 "s" 7 None; Subscribe 1 "s" 8 None; Unsubscribe 0] new_bus)).1 =
  [Scheduled (Plain 8) 0].
Proof.
  destruct (publish_reaches_subscribers [NewEvent 0 "s" Opaque; Subscribe 0 "s" 7 None; Subscribe 1 "s" 8 None; Unsubscribe 0]
    0 (mkEvent "s" Opaque None) eq_refl) as [E _].
  rewrite E. vm_compute. reflexivity.
Defined.
