(* ===== verification/ErrorCodes.v ===== *)
(** * Error codes ([libs/universal_protocol/error_codes.py]) *)
From stdpp Require Import base sets list strings.
From Stdlib Require Import ZArith Lia.
From S2P Require Import Prelude.
Open Scope Z_scope.

Inductive ErrorCode : Type :=
  | STICKY_CAPACITY | STREAM_LIMIT_EXCEEDED | GATEWAY_AT_CAPACITY | EVICTION_FAILED | RESOURCE_UNAVAILABLE
  | INSUFFICIENT_VRAM | NO_FEASIBLE_GATEWAY
  | GATEWAY_DISCONNECTED | EDGE_UNREACHABLE
  | CAPACITY_TIMEOUT | INFERENCE_TIMEOUT | LOAD_TIMEOUT | REQUEST_TIMEOUT
  | MODEL_NOT_FOUND | INVALID_REQUEST
  | OOM | CUDA_ERROR
  | UNEXPECTED_ERROR | CONFIGURATION_ERROR.

#[global] Instance ErrorCode_eq_dec : EqDecision ErrorCode.
Proof. solve_decision. Defined.

Definition all_codes : list ErrorCode :=
  [STICKY_CAPACITY; STREAM_LIMIT_EXCEEDED; GATEWAY_AT_CAPACITY; EVICTION_FAILED; RESOURCE_UNAVAILABLE;
   INSUFFICIENT_VRAM; NO_FEASIBLE_GATEWAY; GATEWAY_DISCONNECTED; EDGE_UNREACHABLE; CAPACITY_TIMEOUT;
   INFERENCE_TIMEOUT; LOAD_TIMEOUT; REQUEST_TIMEOUT; MODEL_NOT_FOUND; INVALID_REQUEST; OOM; CUDA_ERROR;
   UNEXPECTED_ERROR; CONFIGURATION_ERROR].

(** The value of a member is its name. *)
Definition code_value (c : ErrorCode) : string :=
  match c with
  | STICKY_CAPACITY => "STICKY_CAPACITY" | STREAM_LIMIT_EXCEEDED => "STREAM_LIMIT_EXCEEDED"
  | GATEWAY_AT_CAPACITY => "GATEWAY_AT_CAPACITY" | EVICTION_FAILED => "EVICTION_FAILED"
  | RESOURCE_UNAVAILABLE => "RESOURCE_UNAVAILABLE" | INSUFFICIENT_VRAM => "INSUFFICIENT_VRAM"
  | NO_FEASIBLE_GATEWAY => "NO_FEASIBLE_GATEWAY" | GATEWAY_DISCONNECTED => "GATEWAY_DISCONNECTED"
  | EDGE_UNREACHABLE => "EDGE_UNREACHABLE" | CAPACITY_TIMEOUT => "CAPACITY_TIMEOUT"
  | INFERENCE_TIMEOUT => "INFERENCE_TIMEOUT" | LOAD_TIMEOUT => "LOAD_TIMEOUT"
  | REQUEST_TIMEOUT => "REQUEST_TIMEOUT" | MODEL_NOT_FOUND => "MODEL_NOT_FOUND"
  | INVALID_REQUEST => "INVALID_REQUEST" | OOM => "OOM" | CUDA_ERROR => "CUDA_ERROR"
  | UNEXPECTED_ERROR => "UNEXPECTED_ERROR" | CONFIGURATION_ERROR => "CONFIGURATION_ERROR"
  end.

(** [ErrorCode(code)]; [None] for a [ValueError]. *)
Definition code_of (code : string) : option ErrorCode :=
  find (fun c => bool_decide (code_value c = code)) all_codes.

Definition ERROR_METADATA (c : ErrorCode) : bool * Z :=
  match c with
  | STICKY_CAPACITY | STREAM_LIMIT_EXCEEDED | GATEWAY_AT_CAPACITY | EVICTION_FAILED | RESOURCE_UNAVAILABLE => (true, 503)
  | INSUFFICIENT_VRAM => (false, 503)
  | NO_FEASIBLE_GATEWAY | GATEWAY_DISCONNECTED | EDGE_UNREACHABLE | CAPACITY_TIMEOUT => (true, 503)
  | INFERENCE_TIMEOUT | LOAD_TIMEOUT | REQUEST_TIMEOUT => (true, 504)
  | MODEL_NOT_FOUND => (false, 404)
  | INVALID_REQUEST => (false, 400)
  | OOM | CUDA_ERROR => (false, 503)
  | UNEXPECTED_ERROR | CONFIGURATION_ERROR => (false, 500)
  end.

Definition is_retryable (code : string) : bool :=
  match code_of code with Some c => (ERROR_METADATA c).1 | None => false end.

Definition get_http_status (code : string) : Z :=
  match code_of code with Some c => (ERROR_METADATA c).2 | None => 500 end.

Lemma code_of_value c : code_of (code_value c) = Some c.
Proof. by destruct c. Qed.

Lemma value_of_code s c : code_of s = Some c -> s = code_value c.
Proof. intros H. apply find_some in H as [_ H]. by apply bool_decide_eq_true in H. Qed.

(** Any string has a status, and one that invites a retry says that the service
    is unavailable or late, never that the request is at fault or the server
    broken. *)
Theorem retryable_status (code : string) :
  get_http_status code ∈ [400; 404; 500; 503; 504] /\
  (is_retryable code = true -> get_http_status code = 503 \/ get_http_status code = 504).
Proof.
  unfold get_http_status, is_retryable. destruct (code_of code) as [c|]; [|split; [set_solver | done]].
  split; [destruct c; simpl; set_solver | destruct c; simpl; auto; done].
Qed.
