(* ===== verification/RateLimitedSource.v ===== *)
(** * The rate-limited event source
    ([libs/universal_event_bus/backpressure/rate_limited_source.py])

    A remote sends its telemetry through a bounded queue with an overflow policy
    and a consumer that spaces the events.  The source is a transition system:
    calls of [enqueue], [start], [stop] and [clear_queue], cut at their
    suspensions, and the consumer tasks.  One clock stands for the wall clock
    and the loop's; it counts ticks. *)
From stdpp Require Import base gmap sets list.
From Stdlib Require Import ZArith Lia.
From S2P Require Import Prelude.
Open Scope Z_scope.

Inductive OverflowPolicy : Type := DROP_OLDEST | DROP_NEWEST | BACKPRESSURE.

(** [has_on_drop]: a callback for drops is given.  [min_interval] is
    [1.0 / max_events_per_second]. *)
Record RateLimitConfig := mkConfig {
  max_queue_size : Z;
  min_interval : Z;
  overflow_policy : OverflowPolicy;
  has_on_drop : bool
}.

(** A consumer at the head of its loop, in [queue.get], asleep with an event,
    in [on_event], or cancelled and not yet unwound; events are numbers. *)
Inductive Consumer : Type :=
  | Fresh | Getting | Sleeping (e : nat) (until : Z) | Handling (e : nat) | Dying.

Record RateLimitedEventSource := mkSource {
  clock : Z;
  running : bool;
  queue : list nat;
  last_consume_time : Z;
  consumers : gmap nat Consumer;
  consumer_task : option nat;
  in_on_drop : list nat;       (* enqueue calls that wait for [on_drop] *)
  putters : list nat;          (* and those that wait in [queue.put] *)
  woken : list nat;
  stopping : list nat          (* stop calls, by the consumer they wait for *)
}.

Definition new_source (now : Z) : RateLimitedEventSource := mkSource now false [] now ∅ None [] [] [] [].

Inductive Output : Type :=
  | Accepted (e : nat)             (* put into the queue *)
  | Refused (e : nat)              (* [enqueue] returns [False] *)
  | ReportedDrop
  | DroppedOldest (e : nat)
  | Took (e : nat)
  | Delivered (e : nat) (at_ : Z)  (* [on_event] is called *)
  | Cleared (es : list nat).

Section Source.
Context (cfg : RateLimitConfig).

(** [asyncio.Queue.full] *)
Definition full (s : RateLimitedEventSource) : bool :=
  (0 <? max_queue_size cfg) && (max_queue_size cfg <=? Z.of_nat (length (queue s))).

Definition with_queue (q : list nat) (s : RateLimitedEventSource) : RateLimitedEventSource :=
  mkSource (clock s) (running s) q (last_consume_time s) (consumers s) (consumer_task s) (in_on_drop s) (putters s)
    (woken s) (stopping s).
Definition with_calls (drops puts wakes : list nat) (s : RateLimitedEventSource) : RateLimitedEventSource :=
  mkSource (clock s) (running s) (queue s) (last_consume_time s) (consumers s) (consumer_task s) drops puts wakes (stopping s).
Definition set_consumer (l : nat) (c : option Consumer) (s : RateLimitedEventSource) : RateLimitedEventSource :=
  mkSource (clock s) (running s) (queue s) (last_consume_time s)
    (match c with Some c => <[l := c]> (consumers s) | None => delete l (consumers s) end) (consumer_task s)
    (in_on_drop s) (putters s) (woken s) (stopping s).
Definition with_last (t : Z) (s : RateLimitedEventSource) : RateLimitedEventSource :=
  mkSource (clock s) (running s) (queue s) t (consumers s) (consumer_task s) (in_on_drop s) (putters s) (woken s) (stopping s).
Definition with_life (run : bool) (task : option nat) (stops : list nat) (s : RateLimitedEventSource) : RateLimitedEventSource :=
  mkSource (clock s) run (queue s) (last_consume_time s) (consumers s) task (in_on_drop s) (putters s) (woken s) stops.

(** [get_nowait] of [n] events, each waking the first putter. *)
Definition get_nowait (n : nat) (s : RateLimitedEventSource) : RateLimitedEventSource :=
  with_calls (in_on_drop s) (drop n (putters s)) (woken s ++ take n (putters s)) (with_queue (drop n (queue s)) s).

Definition put_nowait (e : nat) (s : RateLimitedEventSource) : list Output * RateLimitedEventSource :=
  ([Accepted e], with_queue (queue s ++ [e]) s).

(** The second attempt of [DROP_OLDEST]. *)
Definition try_again (e : nat) (s : RateLimitedEventSource) : list Output * RateLimitedEventSource :=
  if full s then ([Refused e], s) else put_nowait e s.

(** [enqueue] up to its first suspension. *)
Definition enqueue (e : nat) (s : RateLimitedEventSource) : list Output * RateLimitedEventSource :=
  if negb (running s) then ([Refused e], s)
  else if negb (full s) then put_nowait e s
  else match overflow_policy cfg with
  | DROP_NEWEST => ((if has_on_drop cfg then [ReportedDrop] else []) ++ [Refused e], s)
  | DROP_OLDEST =>
      let dropped := map DroppedOldest (take 1 (queue s)) in
      let s := get_nowait 1 s in
      if has_on_drop cfg
      then (dropped ++ [ReportedDrop], with_calls (in_on_drop s ++ [e]) (putters s) (woken s) s)
      else let '(o, s) := try_again e s in (dropped ++ o, s)
  | BACKPRESSURE => ([], with_calls (in_on_drop s) (putters s ++ [e]) (woken s) s)
  end.

Definition remove_one (e : nat) (l : list nat) : list nat :=
  match list_find (eq e) l with Some (i, _) => delete i l | None => l end.

(** A suspended [enqueue] goes on: [on_drop] has returned, or the putter was
    woken and looks again whether the queue is full. *)
Definition resume_drop (e : nat) (s : RateLimitedEventSource) : list Output * RateLimitedEventSource :=
  try_again e (with_calls (remove_one e (in_on_drop s)) (putters s) (woken s) s).

Definition resume_put (e : nat) (s : RateLimitedEventSource) : list Output * RateLimitedEventSource :=
  let s := with_calls (in_on_drop s) (putters s) (remove_one e (woken s)) s in
  if full s then ([], with_calls (in_on_drop s) (putters s ++ [e]) (woken s) s) else put_nowait e s.

Definition clear_queue (s : RateLimitedEventSource) : list Output * RateLimitedEventSource :=
  ([Cleared (queue s)], get_nowait (length (queue s)) s).

Definition start (l : nat) (s : RateLimitedEventSource) : RateLimitedEventSource :=
  if running s then s else set_consumer l (Some Fresh) (with_life true (Some l) (stopping s) s).

(** [stop] up to the wait for the consumer; a consumer that has ended is not
    waited for long. *)
Definition stop (s : RateLimitedEventSource) : RateLimitedEventSource :=
  match consumer_task s with
  | None => with_life false None (stopping s) s
  | Some l =>
      let s := with_life false (Some l) (stopping s ++ [l]) s in
      match consumers s !! l with Some _ => set_consumer l (Some Dying) s | None => s end
  end.

Definition stop_returns (l : nat) (s : RateLimitedEventSource) : RateLimitedEventSource :=
  with_life (running s) None (remove_one l (stopping s)) s.

(** The head of the loop. *)
Definition loop_again (l : nat) (s : RateLimitedEventSource) : RateLimitedEventSource :=
  set_consumer l (if running s then Some Getting else None) s.

(** [on_event] is called. *)
Definition deliver (l e : nat) (s : RateLimitedEventSource) : list Output * RateLimitedEventSource :=
  ([Delivered e (clock s)], set_consumer l (Some (Handling e)) (with_last (clock s) s)).

(** [queue.get] returns an event. *)
Definition take_event (l : nat) (s : RateLimitedEventSource) : list Output * RateLimitedEventSource :=
  match queue s with
  | [] => ([], s)
  | e :: _ =>
      let s := get_nowait 1 s in
      let elapsed := clock s - last_consume_time s in
      if elapsed <? min_interval cfg
      then ([Took e], set_consumer l (Some (Sleeping e (clock s + (min_interval cfg - elapsed)))) s)
      else let '(o, s) := deliver l e s in (Took e :: o, s)
  end.

Inductive Action : Type :=
  | Tick (d : Z)
  | Start (l : nat) | Stop | StopReturns (l : nat) | Unwind (l : nat)
  | Enqueue (e : nat) | ResumeDrop (e : nat) | ResumePut (e : nat) | Clear
  | Begin (l : nat) | Take (l : nat) | TimesOut (l : nat) | Wake (l : nat) | Handled (l : nat).

Definition step (a : Action) (s : RateLimitedEventSource) : list Output * RateLimitedEventSource :=
  match a with
  | Tick d =>
      ([], mkSource (clock s + Z.max 0 d) (running s) (queue s) (last_consume_time s) (consumers s) (consumer_task s)
             (in_on_drop s) (putters s) (woken s) (stopping s))
  | Start l => if bool_decide (consumers s !! l = None) then ([], start l s) else ([], s)
  | Stop => ([], stop s)
  | StopReturns l =>
      if bool_decide (l ∈ stopping s) && bool_decide (consumers s !! l = None) then ([], stop_returns l s) else ([], s)
  | Unwind l => match consumers s !! l with Some Dying => ([], set_consumer l None s) | _ => ([], s) end
  | Enqueue e => enqueue e s
  | ResumeDrop e => if bool_decide (e ∈ in_on_drop s) then resume_drop e s else ([], s)
  | ResumePut e => if bool_decide (e ∈ woken s) then resume_put e s else ([], s)
  | Clear => clear_queue s
  | Begin l => match consumers s !! l with Some Fresh => ([], loop_again l s) | _ => ([], s) end
  | Take l => match consumers s !! l with Some Getting => take_event l s | _ => ([], s) end
  | TimesOut l => match consumers s !! l with Some Getting => ([], loop_again l s) | _ => ([], s) end
  | Wake l =>
      match consumers s !! l with
      | Some (Sleeping e until) => if until <=? clock s then deliver l e s else ([], s)
      | _ => ([], s)
      end
  | Handled l => match consumers s !! l with Some (Handling _) => ([], loop_again l s) | _ => ([], s) end
  end.

Fixpoint play (acts : list Action) (s : RateLimitedEventSource) : RateLimitedEventSource :=
  match acts with [] => s | a :: acts' => play acts' (step a s).2 end.

Fixpoint outputs (acts : list Action) (s : RateLimitedEventSource) : list Output :=
  match acts with [] => [] | a :: acts' => (step a s).1 ++ outputs acts' (step a s).2 end.

(** ** The queue *)

Definition accepted (os : list Output) : list nat := omap (fun o => match o with Accepted e => Some e | _ => None end) os.
Definition took (os : list Output) : list nat := omap (fun o => match o with Took e => Some e | _ => None end) os.
Definition delivered (os : list Output) : list nat := omap (fun o => match o with Delivered e _ => Some e | _ => None end) os.
Definition times (os : list Output) : list Z := omap (fun o => match o with Delivered _ t => Some t | _ => None end) os.

(** What left the queue at its front. *)
Definition left_front (os : list Output) : list nat :=
  concat (map (fun o => match o with Took e | DroppedOldest e => [e] | Cleared es => es | _ => [] end) os).

Lemma try_again_queue e s :
  queue s ++ accepted (try_again e s).1 = left_front (try_again e s).1 ++ queue (try_again e s).2.
Proof. unfold try_again. destruct (full s); simpl; [by rewrite app_nil_r | done]. Qed.

(** Every step moves events through the queue in order. *)
Lemma step_queue a s :
  queue s ++ accepted (step a s).1 = left_front (step a s).1 ++ queue (step a s).2.
Proof.
  assert (Hid : queue s ++ [] = queue s) by apply app_nil_r.
  assert (Hag : forall l, queue (loop_again l s) = queue s) by done.
  destruct a as [d|l| |l|l|e|e|e| |l|l|l|l|l]; cbn [step]; try exact Hid.
  - case_bool_decide; [|exact Hid]. unfold start. destruct (running s); exact Hid.
  - unfold stop. destruct (consumer_task s) as [l|]; [|exact Hid]. simpl. destruct (consumers s !! l); exact Hid.
  - destruct (_ && _); exact Hid.
  - destruct (consumers s !! l) as [[]|]; exact Hid.
  - unfold enqueue. destruct (negb (running s)); [exact Hid|]. destruct (negb (full s)); [done|].
    destruct (overflow_policy cfg); [|destruct (has_on_drop cfg); exact Hid|exact Hid].
    destruct (has_on_drop cfg).
    + simpl. destruct (queue s); done.
    + pose proof (try_again_queue e (get_nowait 1 s)) as H. destruct (try_again e (get_nowait 1 s)) as [o s'].
      simpl in *. destruct (queue s) as [|e0 r]; [done|]. simpl in *. unfold accepted, left_front in *. simpl in *. rewrite drop_0 in H. by rewrite H.
  - case_bool_decide; [|exact Hid]. exact (try_again_queue e (with_calls (remove_one e (in_on_drop s)) (putters s) (woken s) s)).
  - case_bool_decide; [|exact Hid]. unfold resume_put. destruct (full _); [exact Hid | done].
  - unfold clear_queue. simpl. rewrite drop_all, !app_nil_r. done.
  - destruct (consumers s !! l) as [[]|]; exact Hid.
  - destruct (consumers s !! l) as [[]|]; try exact Hid. unfold take_event. destruct (queue s) as [|e r] eqn:E; [by simpl; rewrite E|].
    destruct (_ <? _); simpl; rewrite E; simpl; by rewrite ?app_nil_r, ?drop_0.
  - destruct (consumers s !! l) as [[]|]; exact Hid.
  - destruct (consumers s !! l) as [[]|]; try exact Hid. destruct (_ <=? _); exact Hid.
  - destruct (consumers s !! l) as [[]|]; exact Hid.
Qed.

Lemma accepted_app o1 o2 : accepted (o1 ++ o2) = accepted o1 ++ accepted o2.
Proof. apply omap_app. Qed.

Lemma left_front_app o1 o2 : left_front (o1 ++ o2) = left_front o1 ++ left_front o2.
Proof. unfold left_front. by rewrite map_app, concat_app. Qed.

Lemma play_queue acts s :
  queue s ++ accepted (outputs acts s) = left_front (outputs acts s) ++ queue (play acts s).
Proof.
  revert s. induction acts as [|a acts IH]; intros s; simpl; [by rewrite app_nil_r|].
  rewrite accepted_app, left_front_app, app_assoc, step_queue, <- !app_assoc. f_equal. apply IH.
Qed.

Lemma full_false s : full s = false -> 0 < max_queue_size cfg -> Z.of_nat (length (queue s)) < max_queue_size cfg.
Proof. unfold full. intros H Hm. rewrite (proj2 (Z.ltb_lt _ _) Hm) in H. simpl in H. to_prop. lia. Qed.

Definition bounded (s : RateLimitedEventSource) : Prop := Z.of_nat (length (queue s)) <= max_queue_size cfg.

Lemma bounded_put e s : 0 < max_queue_size cfg -> full s = false -> bounded (put_nowait e s).2.
Proof. intros Hm H%full_false; [|done]. unfold bounded. simpl. rewrite length_app. simpl. lia. Qed.

Lemma bounded_try e s : 0 < max_queue_size cfg -> bounded s -> bounded (try_again e s).2.
Proof. intros Hm H. unfold try_again. destruct (full s) eqn:E; [done | by apply bounded_put]. Qed.

Lemma bounded_get n s : bounded s -> bounded (get_nowait n s).
Proof. unfold bounded. simpl. rewrite length_drop. lia. Qed.

Lemma bounded_step a s : 0 < max_queue_size cfg -> bounded s -> bounded (step a s).2.
Proof.
  intros Hm H. destruct a as [d|l| |l|l|e|e|e| |l|l|l|l|l]; cbn [step]; try exact H.
  - case_bool_decide; [|exact H]. unfold start. destruct (running s); exact H.
  - unfold stop. destruct (consumer_task s) as [l|]; [|exact H]. simpl. destruct (consumers s !! l); exact H.
  - destruct (_ && _); exact H.
  - destruct (consumers s !! l) as [[]|]; exact H.
  - unfold enqueue. destruct (negb (running s)); [exact H|]. destruct (full s) eqn:Ef; simpl; [|by apply bounded_put].
    destruct (overflow_policy cfg); [|destruct (has_on_drop cfg); exact H|exact H].
    destruct (has_on_drop cfg); [by apply (bounded_get 1)|].
    pose proof (bounded_try e _ Hm (bounded_get 1 s H)) as Hb. by destruct (try_again e (get_nowait 1 s)).
  - case_bool_decide; [|exact H]. by apply bounded_try.
  - case_bool_decide; [|exact H]. unfold resume_put. destruct (full _) eqn:Ef; [exact H | by apply bounded_put].
  - by apply (bounded_get (length (queue s))).
  - destruct (consumers s !! l) as [[]|]; exact H.
  - destruct (consumers s !! l) as [[]|]; try exact H. unfold take_event. destruct (queue s) as [|e r]; [exact H|].
    pose proof (bounded_get 1 s H). by destruct (_ <? _).
  - destruct (consumers s !! l) as [[]|]; exact H.
  - destruct (consumers s !! l) as [[]|]; try exact H. destruct (_ <=? _); exact H.
  - destruct (consumers s !! l) as [[]|]; exact H.
Qed.

(** Whatever is called and however it interleaves, the queue is never longer
    than configured, and it is first in, first out: what was put in is what has
    left at the front (taken, dropped as the oldest, cleared) followed by what is
    still there. *)
Theorem queue_fifo_bounded now acts :
  0 < max_queue_size cfg ->
  Z.of_nat (length (queue (play acts (new_source now)))) <= max_queue_size cfg /\
  accepted (outputs acts (new_source now)) = left_front (outputs acts (new_source now)) ++ queue (play acts (new_source now)).
Proof.
  intros Hm. split; [|apply (play_queue acts (new_source now))].
  assert (H : forall acts s, bounded s -> bounded (play acts s)).
  { induction acts0 as [|a acts0 IH]; intros s Hs; [done|]. by apply IH, bounded_step. }
  apply H. unfold bounded. simpl. lia.
Qed.

(** ** Consumers *)

(** The source is not started while a [stop] is under way. *)
Definition permitted (a : Action) (s : RateLimitedEventSource) : Prop :=
  match a with Start _ => stopping s = [] | _ => True end.

Fixpoint orderly (acts : list Action) (s : RateLimitedEventSource) : Prop :=
  match acts with [] => True | a :: acts' => permitted a s /\ orderly acts' (step a s).2 end.

(** There is at most one consumer, it is the one a stop would cancel, and it
    sleeps until the interval has passed. *)
Record Ok (s : RateLimitedEventSource) : Prop := {
  ok_task : forall l c, consumers s !! l = Some c -> consumer_task s = Some l;
  ok_on : running s = true -> stopping s = [];
  ok_dying : running s = false -> forall l c, consumers s !! l = Some c -> c = Dying;
  ok_off : running s = false -> stopping s = [] -> consumers s = ∅;
  ok_stop : forall l, l ∈ stopping s -> consumer_task s = Some l \/ consumers s = ∅;
  ok_last : last_consume_time s <= clock s;
  ok_sleep : forall l e u, consumers s !! l = Some (Sleeping e u) -> u = last_consume_time s + min_interval cfg
}.

Lemma Ok_new now : Ok (new_source now).
Proof.
  constructor; simpl; [| done | | done | by right | lia |].
  - intros l c E. by rewrite lookup_empty in E.
  - intros _ l c E. by rewrite lookup_empty in E.
  - intros l e u E. by rewrite lookup_empty in E.
Qed.

Lemma Ok_frame s s' :
  Ok s -> clock s <= clock s' -> running s' = running s -> last_consume_time s' = last_consume_time s ->
  consumers s' = consumers s -> consumer_task s' = consumer_task s -> stopping s' = stopping s -> Ok s'.
Proof.
  intros [] Hc Er El Ec Et Es. constructor; rewrite ?Er, ?El, ?Ec, ?Et, ?Es; try done. lia.
Qed.

(** A consumer moves on, or ends. *)
Lemma Ok_consumer s l c c' :
  Ok s -> consumers s !! l = Some c -> c <> Dying ->
  (forall e u, c' = Some (Sleeping e u) -> u = last_consume_time s + min_interval cfg) -> Ok (set_consumer l c' s).
Proof.
  intros H E Hc Hs. pose proof (ok_task s H l c E) as Et.
  assert (Hr : running s = true).
  { destruct (running s) eqn:Er; [done|]. by destruct Hc; apply (ok_dying s H Er l). }
  assert (Hkey : forall l' c0, consumers (set_consumer l c' s) !! l' = Some c0 ->
    l' = l /\ c' = Some c0 \/ consumers s !! l' = Some c0).
  { intros l' c0. simpl. destruct c' as [c'|]; [rewrite lookup_insert_Some | rewrite lookup_delete_Some]; naive_solver. }
  constructor; simpl.
  - intros l' c0 [[-> _]|E']%Hkey; [done | by eapply ok_task].
  - apply (ok_on s H).
  - congruence.
  - congruence.
  - intros l' Hin. rewrite (ok_on s H Hr) in Hin. by apply elem_of_nil in Hin.
  - apply (ok_last s H).
  - intros l' e u [[_ E']|E']%Hkey; [by eapply Hs | by eapply ok_sleep].
Qed.

Lemma Ok_loop s l c : Ok s -> consumers s !! l = Some c -> c <> Dying -> Ok (loop_again l s).
Proof. intros H E Hc. apply (Ok_consumer s l c); [done..|]. intros e u. by destruct (running s). Qed.

Lemma Ok_deliver s l e c :
  Ok s -> consumers s !! l = Some c -> c <> Dying -> Ok (deliver l e s).2.
Proof.
  intros H E Hc. unfold deliver. simpl.
  assert (H' : Ok (set_consumer l (Some (Handling e)) s)) by (apply (Ok_consumer s l c); [done..|]; by intros).
  destruct H' as [H1 H2 H3 H4 H5 H6 H7]. constructor; simpl; try done.
  intros l' e' u E'. pose proof (ok_task s H l c E) as Et. assert (Et' : consumer_task s = Some l') by (by apply (H1 l' (Sleeping e' u))).
  assert (l' = l) as -> by congruence. by rewrite lookup_insert_eq in E'.
Qed.

Lemma Ok_start s l : Ok s -> stopping s = [] -> Ok (start l s).
Proof.
  intros H Hs. unfold start. destruct (running s) eqn:Er; [done|]. pose proof (ok_off s H Er Hs) as He.
  constructor; simpl; rewrite ?He, ?Hs; try done.
  - intros l' c [[<- _]|[_ E]]%lookup_insert_Some; [done | by rewrite lookup_empty in E].
  - intros l' Hin. by apply elem_of_nil in Hin.
  - apply (ok_last s H).
  - intros l' e u [[_ E]|[_ E]]%lookup_insert_Some; [done | by rewrite lookup_empty in E].
Qed.

Lemma Ok_stop_call s : Ok s -> Ok (stop s).
Proof.
  intros H. unfold stop. destruct (consumer_task s) as [l|] eqn:Et.
  - cbn [consumers with_life]. destruct (consumers s !! l) as [c|] eqn:Ec.
    + constructor; simpl; try done.
      * intros l' c' [[<- _]|[_ E]]%lookup_insert_Some; [done|]. rewrite <- Et. by apply (ok_task s H l' c').
      * intros _ l' c' [[_ <-]|[Hne E]]%lookup_insert_Some; [done|].
        apply (ok_task s H) in E. congruence.
      * intros _ E. by apply app_eq_nil in E as [_ ?].
      * intros l' [Hin| ->%list_elem_of_singleton]%elem_of_app; [|by left].
        destruct (ok_stop s H l' Hin) as [E|E]; [left; congruence | by rewrite E, lookup_empty in Ec].
      * apply (ok_last s H).
      * intros l' e u [[_ E]|[_ E]]%lookup_insert_Some; [done | by apply (ok_sleep s H l' e)].
    + assert (He : consumers s = ∅).
      { apply map_empty. intros l'. destruct (consumers s !! l') as [c'|] eqn:E; [|done].
        pose proof (ok_task s H l' c' E). congruence. }
      constructor; simpl; rewrite ?He; try done; try (intros; by rewrite lookup_empty in *).
      * intros; by right.
      * apply (ok_last s H).
  - assert (He : consumers s = ∅).
    { apply map_empty. intros l'. destruct (consumers s !! l') as [c'|] eqn:E; [|done].
      pose proof (ok_task s H l' c' E). congruence. }
    constructor; simpl; rewrite ?He; try done; try (intros; by rewrite lookup_empty in *).
    * intros; by right.
    * apply (ok_last s H).
Qed.

Lemma Ok_delete s l : Ok s -> Ok (set_consumer l None s).
Proof.
  intros H. constructor; simpl.
  - intros l' c [_ E]%lookup_delete_Some. by eapply ok_task.
  - apply (ok_on s H).
  - intros Hr l' c [_ E]%lookup_delete_Some. by eapply ok_dying.
  - intros Hr Hs. by rewrite (ok_off s H Hr Hs), delete_empty.
  - intros l' Hin. destruct (ok_stop s H l' Hin) as [E|E]; [by left | right; by rewrite E, delete_empty].
  - apply (ok_last s H).
  - intros l' e u [_ E]%lookup_delete_Some. by eapply ok_sleep.
Qed.

Lemma no_consumer s l : Ok s -> l ∈ stopping s -> consumers s !! l = None -> consumers s = ∅.
Proof.
  intros H Hin E. destruct (ok_stop s H l Hin) as [Et|]; [|done]. apply map_empty. intros l'.
  destruct (consumers s !! l') as [c|] eqn:E'; [|done]. pose proof (ok_task s H l' c E'). congruence.
Qed.

Lemma Ok_returns s l : Ok s -> l ∈ stopping s -> consumers s !! l = None -> Ok (stop_returns l s).
Proof.
  intros H Hin E. pose proof (no_consumer s l H Hin E) as He.
  assert (Hr : running s = false).
  { destruct (running s) eqn:Er; [|done]. rewrite (ok_on s H Er) in Hin. by apply elem_of_nil in Hin. }
  unfold stop_returns. constructor; simpl; rewrite ?He; try done; try (intros; by rewrite lookup_empty in *); try congruence.
  - intros; by right.
  - apply (ok_last s H).
Qed.

Lemma Ok_try e s : Ok s -> Ok (try_again e s).2.
Proof. intros H. unfold try_again. destruct (full s); [done|]. by apply (Ok_frame s). Qed.

Lemma Ok_step a s : permitted a s -> Ok s -> Ok (step a s).2.
Proof.
  intros Hp H. destruct a as [d|l| |l|l|e|e|e| |l|l|l|l|l]; cbn [step].
  - apply (Ok_frame s); try done. simpl. lia.
  - case_bool_decide; [by apply Ok_start | done].
  - by apply Ok_stop_call.
  - case_bool_decide as H1; [|done]. case_bool_decide as H2; [|done]. by apply Ok_returns.
  - destruct (consumers s !! l) as [[]|]; try done. by apply Ok_delete.
  - unfold enqueue. destruct (negb (running s)); [done|]. destruct (negb (full s)); [by apply (Ok_frame s)|].
    destruct (overflow_policy cfg); [|done|by apply (Ok_frame s)].
    destruct (has_on_drop cfg); [by apply (Ok_frame s)|].
    assert (Hg : Ok (get_nowait 1 s)) by (by apply (Ok_frame s)). apply (Ok_try e) in Hg.
    by destruct (try_again e (get_nowait 1 s)).
  - case_bool_decide; [|done]. apply Ok_try. by apply (Ok_frame s).
  - case_bool_decide; [|done]. unfold resume_put. destruct (full _); by apply (Ok_frame s).
  - by apply (Ok_frame s).
  - destruct (consumers s !! l) as [[]|] eqn:E; try done. by eapply Ok_loop.
  - destruct (consumers s !! l) as [[]|] eqn:E; try done. unfold take_event. destruct (queue s) as [|e r]; [done|].
    assert (Hg : Ok (get_nowait 1 s)) by (by apply (Ok_frame s)).
    destruct (_ <? _).
    + apply (Ok_consumer _ l Getting); try done. intros e' u [= _ <-]. simpl. lia.
    + apply (Ok_deliver _ l e Getting); done.
  - destruct (consumers s !! l) as [[]|] eqn:E; try done. by eapply Ok_loop.
  - destruct (consumers s !! l) as [[]|] eqn:E; try done. destruct (_ <=? _); [|done]. by eapply Ok_deliver.
  - destruct (consumers s !! l) as [[]|] eqn:E; try done. by eapply Ok_loop.
Qed.

(** ** The rate *)

(** Each time is an interval after the one before, the first after [t]. *)
Fixpoint spaced (t : Z) (ts : list Z) : Prop :=
  match ts with [] => True | t' :: ts' => t + min_interval cfg <= t' /\ spaced t' ts' end.

Lemma spaced_app t a b : spaced t (a ++ b) <-> spaced t a /\ spaced (default t (last a)) b.
Proof.
  revert t. induction a as [|x a IH]; intros t; simpl; [tauto|]. rewrite IH.
  assert (E : default t (last (x :: a)) = default x (last a)) by (rewrite last_cons; by destruct (last a)).
  rewrite E. tauto.
Qed.

Lemma spaced_lookup t ts i j ti tj :
  spaced t ts -> ts !! i = Some ti -> ts !! j = Some tj -> (i <= j)%nat -> ti + Z.of_nat (j - i) * min_interval cfg <= tj.
Proof.
  revert t i j ti. induction ts as [|x ts IH]; intros t i j ti Hs Hi Hj Hij; [done|]. destruct Hs as [_ Hs].
  destruct i as [|i], j as [|j]; cbn [lookup list_lookup] in Hi, Hj.
  - injection Hi as <-. injection Hj as <-. rewrite Nat.sub_diag. lia.
  - injection Hi as <-. destruct ts as [|y ts]; [done|]. destruct Hs as [Hy Hs].
    assert (E : y + Z.of_nat (j - 0) * min_interval cfg <= tj) by (apply (IH x 0%nat j y); simpl; auto; lia).
    assert (Ej : Z.of_nat (S j - 0) = Z.of_nat (j - 0) + 1) by lia. rewrite Ej, Z.mul_add_distr_r. lia.
  - lia.
  - apply (IH x i j ti); auto; lia.
Qed.

Lemma times_app o1 o2 : times (o1 ++ o2) = times o1 ++ times o2.
Proof. apply omap_app. Qed.

Lemma step_times a s :
  Ok s -> spaced (last_consume_time s) (times (step a s).1) /\
  last_consume_time (step a s).2 = default (last_consume_time s) (last (times (step a s).1)).
Proof.
  intros H. destruct a as [d|l| |l|l|e|e|e| |l|l|l|l|l]; cbn [step]; try done.
  - case_bool_decide; [|done]. unfold start. by destruct (running s).
  - unfold stop. destruct (consumer_task s) as [l|]; [|done]. simpl. by destruct (consumers s !! l).
  - by destruct (_ && _).
  - by destruct (consumers s !! l) as [[]|].
  - unfold enqueue, try_again. destruct (negb (running s)); [done|]. destruct (negb (full s)); [done|].
    destruct (overflow_policy cfg), (has_on_drop cfg); try done; [by destruct (queue s)|].
    by destruct (full (get_nowait 1 s)), (queue s).
  - case_bool_decide; [|done]. unfold resume_drop, try_again. by destruct (full _).
  - case_bool_decide; [|done]. unfold resume_put. by destruct (full _).
  - by destruct (consumers s !! l) as [[]|].
  - destruct (consumers s !! l) as [[]|]; try done. unfold take_event. destruct (queue s) as [|e r]; [done|].
    destruct (_ <? _) eqn:E; [done|]. simpl in *. to_prop. split; [split; [lia|done]|done].
  - by destruct (consumers s !! l) as [[]|].
  - destruct (consumers s !! l) as [[]|] eqn:E; try done. destruct (_ <=? _) eqn:Eu; [|done].
    apply (ok_sleep s H) in E. simpl. to_prop. split; [split; [lia|done]|done].
  - by destruct (consumers s !! l) as [[]|].
Qed.

Lemma play_spaced acts s : Ok s -> orderly acts s -> spaced (last_consume_time s) (times (outputs acts s)).
Proof.
  revert s. induction acts as [|a acts IH]; intros s H Ho; simpl; [done|]. destruct Ho as [Hp Ho]. rewrite times_app, spaced_app.
  destruct (step_times a s H) as [H1 H2]. split; [done|]. rewrite <- H2. apply IH; [by apply Ok_step | done].
Qed.

(** The rate is kept: as long as the source is not started while it is being
    stopped, any two deliveries with [n] others begun between them are more than
    [n] intervals apart, whatever is enqueued, dropped, cleared, stopped and
    started again, and the first is an interval after the source was made. *)
Theorem rate_limited now acts i j ti tj :
  orderly acts (new_source now) ->
  times (outputs acts (new_source now)) !! i = Some ti -> times (outputs acts (new_source now)) !! j = Some tj ->
  (i <= j)%nat ->
  ti + Z.of_nat (j - i) * min_interval cfg <= tj /\ now + min_interval cfg <= default tj (head (times (outputs acts (new_source now)))).
Proof.
  intros Ho Hi Hj Hij. pose proof (play_spaced acts (new_source now) (Ok_new now) Ho) as H. split.
  - by eapply spaced_lookup.
  - destruct (times (outputs acts (new_source now))) as [|t ts]; [done|]. simpl in *. tauto.
Qed.

(** ** Order *)

(** The event in the hands of the sleeping consumer. *)
Definition held (s : RateLimitedEventSource) : list nat :=
  match consumer_task s with
  | Some l => match consumers s !! l with Some (Sleeping e _) => [e] | _ => [] end
  | None => []
  end.

Lemma held_consumer s l c : Ok s -> consumers s !! l = Some c -> held s = match c with Sleeping e _ => [e] | _ => [] end.
Proof. intros H E. unfold held. by rewrite (ok_task s H l c E), E. Qed.

Lemma held_set s l c c' :
  Ok s -> consumers s !! l = Some c -> held (set_consumer l c' s) = match c' with Some (Sleeping e _) => [e] | _ => [] end.
Proof.
  intros H E. unfold held. simpl. rewrite (ok_task s H l c E).
  destruct c' as [c'|]; [by rewrite lookup_insert_eq | by rewrite lookup_delete_eq].
Qed.

Lemma held_frame s s' : consumers s' = consumers s -> consumer_task s' = consumer_task s -> held s' = held s.
Proof. intros E1 E2. unfold held. by rewrite E1, E2. Qed.

Lemma held_dying s : held (stop s) = [].
Proof.
  unfold stop, held. destruct (consumer_task s) as [l|]; [|done]. cbn [consumers with_life].
  destruct (consumers s !! l) as [c|] eqn:E; simpl; [by rewrite lookup_insert_eq | by rewrite E].
Qed.

(** What is delivered was taken, in this order. *)
Lemma step_held a s :
  permitted a s -> Ok s -> (delivered (step a s).1 ++ held (step a s).2) `sublist_of` (held s ++ took (step a s).1).
Proof.
  intros Hp H. assert (Hid : held s `sublist_of` (held s ++ [])) by (by rewrite app_nil_r).
  assert (Hl : forall l c, consumers s !! l = Some c -> c <> Dying -> held (loop_again l s) = []).
  { intros l c E _. unfold loop_again. rewrite (held_set s l c) by done. by destruct (running s). }
  destruct a as [d|l| |l|l|e|e|e| |l|l|l|l|l]; cbn [step]; try exact Hid.
  - case_bool_decide; [|exact Hid]. unfold start. destruct (running s) eqn:Er; [exact Hid|].
    unfold held at 1. simpl. rewrite lookup_insert_eq. apply sublist_nil_l.
  - simpl. rewrite held_dying. apply sublist_nil_l.
  - destruct (_ && _); [|exact Hid]. apply sublist_nil_l.
  - destruct (consumers s !! l) as [[]|] eqn:E; try exact Hid. cbn [fst snd delivered]. simpl. rewrite (held_set s l Dying) by done.
    apply sublist_nil_l.
  - unfold enqueue, try_again. destruct (negb (running s)); [exact Hid|]. destruct (negb (full s)); [exact Hid|].
    destruct (overflow_policy cfg), (has_on_drop cfg); try exact Hid; [by destruct (queue s)|].
    by destruct (full (get_nowait 1 s)), (queue s).
  - case_bool_decide; [|exact Hid]. unfold resume_drop, try_again. by destruct (full _).
  - case_bool_decide; [|exact Hid]. unfold resume_put. by destruct (full _).
  - destruct (consumers s !! l) as [[]|] eqn:E; try exact Hid. simpl. rewrite (Hl l Fresh) by done. apply sublist_nil_l.
  - destruct (consumers s !! l) as [[]|] eqn:E; try exact Hid. unfold take_event. destruct (queue s) as [|e r]; [exact Hid|].
    assert (Hg : Ok (get_nowait 1 s)) by (by apply (Ok_frame s)).
    rewrite (held_consumer s l Getting) by done. destruct (_ <? _); cbn [fst snd deliver].
    + rewrite (held_set (get_nowait 1 s) l Getting) by done. done.
    + unfold held. simpl. rewrite (ok_task s H l Getting E), lookup_insert_eq. done.
  - destruct (consumers s !! l) as [[]|] eqn:E; try exact Hid. simpl. rewrite (Hl l Getting) by done. apply sublist_nil_l.
  - destruct (consumers s !! l) as [[]|] eqn:E; try exact Hid. destruct (_ <=? _); [|exact Hid].
    rewrite (held_consumer s l _ H E). unfold held. simpl. rewrite (ok_task s H l _ E), lookup_insert_eq. done.
  - destruct (consumers s !! l) as [[]|] eqn:E; try exact Hid. simpl. rewrite (Hl l (Handling e)) by done. apply sublist_nil_l.
Qed.

Lemma play_held acts s :
  Ok s -> orderly acts s ->
  (delivered (outputs acts s) ++ held (play acts s)) `sublist_of` (held s ++ took (outputs acts s)).
Proof.
  revert s. induction acts as [|a acts IH]; intros s H Ho; simpl; [by rewrite app_nil_r|]. destruct Ho as [Hp Ho].
  unfold delivered, took in *. rewrite !omap_app, <- app_assoc, (app_assoc (held s)).
  transitivity (delivered (step a s).1 ++ held (step a s).2 ++ took (outputs acts (step a s).2)).
  - apply sublist_app; [done|]. apply IH; [by apply Ok_step | done].
  - rewrite app_assoc. apply sublist_app; [by apply step_held | done].
Qed.

Lemma took_left os : took os `sublist_of` left_front os.
Proof.
  induction os as [|o os IH]; [done|]. unfold took, left_front in *. destruct o; simpl; try exact IH;
    try (by apply sublist_skip); by try apply sublist_cons, IH; try apply sublist_inserts_l, IH.
Qed.

(** Events are delivered in the order in which they were put into the queue,
    each at most as often as it was put there. *)
Theorem delivered_in_order now acts :
  orderly acts (new_source now) ->
  delivered (outputs acts (new_source now)) `sublist_of` accepted (outputs acts (new_source now)).
Proof.
  intros Ho. pose proof (play_held acts (new_source now) (Ok_new now) Ho) as H.
  pose proof (play_queue acts (new_source now)) as Hq. simpl in Hq. rewrite Hq.
  transitivity (took (outputs acts (new_source now))).
  - etransitivity; [|exact H]. apply sublist_inserts_r. done.
  - etransitivity; [apply took_left | apply sublist_inserts_r; done].
Qed.
End Source.

(** ** What the code does *)

Definition sender (policy : OverflowPolicy) (cb : bool) : RateLimitConfig := mkConfig 2 20 policy cb.

(** Two calls find the queue full.  The first drops the oldest event and waits
    for the callback; the second takes the room; the first finds the queue full
    again: one drop is reported and two events are gone. *)
Example concurrent_drop_loses_both :
  let acts := [Start 0%nat; Enqueue 1%nat; Enqueue 2%nat; Enqueue 3%nat; Enqueue 4%nat; ResumeDrop 3%nat] in
  let os := outputs (sender DROP_OLDEST true) acts (new_source 0) in
  queue (play (sender DROP_OLDEST true) acts (new_source 0)) = [2; 4]%nat /\
  length (List.filter (fun o => match o with ReportedDrop => true | _ => false end) os) = 1%nat /\
  last os = Some (Refused 3).
Proof. vm_compute. repeat split; reflexivity. Qed.

(** Without the callback the newest events stay. *)
Example drop_oldest_keeps_newest :
  queue (play (sender DROP_OLDEST false) [Start 0%nat; Enqueue 1%nat; Enqueue 2%nat; Enqueue 3%nat; Enqueue 4%nat] (new_source 0))
    = [3; 4]%nat.
Proof. vm_compute. reflexivity. Qed.

(** An event that the consumer has taken and not yet delivered is lost by a
    stop, while those behind it wait for the next start. *)
Example stop_loses_taken_event :
  let acts := [Start 0%nat; Begin 0%nat; Enqueue 1%nat; Enqueue 2%nat; Take 0%nat; Stop; Unwind 0%nat; StopReturns 0%nat;
               Start 1%nat; Begin 1%nat; Tick 50; Take 1%nat] in
  delivered (outputs (sender DROP_NEWEST false) acts (new_source 0)) = [2]%nat /\
  queue (play (sender DROP_NEWEST false) acts (new_source 0)) = [].
Proof. vm_compute. split; reflexivity. Qed.

(** A producer that waits for room waits for good when the source is stopped. *)
Example stop_strands_producer :
  let s := play (sender BACKPRESSURE false)
    [Start 0%nat; Begin 0%nat; Enqueue 1%nat; Enqueue 2%nat; Enqueue 3%nat; Stop; Unwind 0%nat; StopReturns 0%nat] (new_source 0) in
  putters s = [3]%nat /\ running s = false /\ consumers s = ∅.
Proof. vm_compute. repeat split; reflexivity. Qed.

(** A start while a stop waits for the consumer: the stop forgets the new
    consumer, the next start adds another, and together they deliver twice at
    once. *)
Definition restarted : list Action :=
  [Start 0%nat; Begin 0%nat; Stop; Start 1%nat; Unwind 0%nat; StopReturns 0%nat; Begin 1%nat;
   Stop; Start 2%nat; Begin 2%nat; Enqueue 1%nat; Enqueue 2%nat; Take 1%nat; Take 2%nat; Tick 20; Wake 1%nat; Wake 2%nat].

Example restart_breaks_rate :
  times (outputs (sender DROP_NEWEST false) restarted (new_source 0)) = [20; 20].
Proof. vm_compute. reflexivity. Qed.

(** ** Witnesses *)

Definition busy : list Action :=
  [Start 0%nat; Begin 0%nat; Enqueue 1%nat; Enqueue 2%nat; Take 0%nat; Enqueue 3%nat; Tick 20; Wake 0%nat; Handled 0%nat;
   Take 0%nat; Tick 25; Wake 0%nat].

Lemma busy_orderly : orderly (sender DROP_OLDEST false) busy (new_source 0).
Proof. repeat split. Qed.

Lemma queue_fifo_bounded_witness :
  Z.of_nat (length (queue (play (sender DROP_OLDEST false) busy (new_source 0)))) <= 2.
Proof. apply (queue_fifo_bounded (sender DROP_OLDEST false) 0 busy). reflexivity. Defined.

Lemma rate_limited_witness : 20 + Z.of_nat 1 * 20 <= 45.
Proof.
  apply (rate_limited (sender DROP_OLDEST false) 0 busy 0%nat 1%nat 20 45 busy_orderly); [vm_compute; reflexivity.. | lia].
Defined.

Lemma delivered_in_order_witness : [1; 2]%nat `sublist_of` [1; 2; 3]%nat.
Proof. exact (delivered_in_order (sender DROP_OLDEST false) 0 busy busy_orderly). Defined.
