(* ===== verification/CircuitBreaker.v ===== *)
(** * The circuit breaker of federated gateways
    ([systems/federation/master/circuit_breaker.py]) and its client
    ([execute_federated_request] of
    [systems/proxy/core/nonstreaming/executor/federated_execution.py])

    Two guards stand between a request and a gateway: a circuit for each pair
    of gateway and model, and a gate for the gateway as a whole.  Every method
    runs between two suspensions, so it is one function of the state and of
    the clock, in ticks, which it reads as one instant.  What it publishes on
    the event bus is returned as a list.

    [Circuit] is the textbook automaton of one circuit; [breaker_refines]
    states that the tables of the breaker are such automata, one per pair,
    behind the gates.  [World] puts the breaker under the requests that ask
    it for admission and report their ends. *)
From stdpp Require Import base gmap sets list strings sorting.
From Stdlib Require Import ZArith Lia.
From S2P Require Import Prelude.
Open Scope Z_scope.

(** [(gateway_id, model_id)] *)
Notation PairKey := (string * string)%type.

Inductive CircuitState : Type := CLOSED | OPEN | HALF_OPEN.

#[global] Instance CircuitState_eq_dec : EqDecision CircuitState.
Proof. solve_decision. Defined.

Record CircuitStats := mkStats {
  failure_count : Z;
  success_count : Z;
  last_failure_time : Z;
  last_success_time : Z;
  state : CircuitState;
  state_changed_at : Z;
  last_failure_status : option Z
}.

Definition new_stats (now : Z) : CircuitStats := mkStats 0 0 0 0 CLOSED now None.

Record GatewayHealthStats := mkHealth {
  consecutive_timeouts : Z;
  consecutive_disconnects : Z;
  health_failure_time : Z;
  health_success_time : Z;
  degraded_since : option Z;
  unhealthy_since : option Z;
  first_timeout_code : option string;
  first_disconnect_code : option string
}.

Definition new_health : GatewayHealthStats := mkHealth 0 0 0 0 None None None None.

Record Config := mkConfig {
  failure_threshold : Z;
  recovery_timeout : Z;
  half_open_max : Z;
  gateway_failure_model_threshold : Z;
  gateway_timeout_threshold : Z;
  gateway_disconnect_threshold : Z;
  has_event_bus : bool
}.

Record FederationCircuitBreaker := mkBreaker {
  circuits : gmap PairKey CircuitStats;
  half_open_requests : gmap PairKey Z;
  gateway_wide_open : gmap string Z;
  gateway_health : gmap string GatewayHealthStats
}.

Definition new_breaker : FederationCircuitBreaker := mkBreaker ∅ ∅ ∅ ∅.

Inductive Event : Type :=
  | RequestRejected (gateway_id model_id reason : string)
  | GatewayDegraded (gateway_id : string) (consecutive_timeouts : Z) (first_error_code : string)
  | GatewayUnhealthy (gateway_id : string) (consecutive_disconnects : Z) (first_error_code : string) (cooldown : Z)
  | GatewayRecovered (gateway_id kind reason : string).

Section Breaker.
Context (cfg : Config).

Definition emit (e : Event) : list Event := if has_event_bus cfg then [e] else [].

(** ** The state of a circuit and of a gate *)

Definition evaluate_state (now : Z) (stats : CircuitStats) : CircuitState :=
  match state stats with
  | OPEN => if recovery_timeout cfg <=? now - state_changed_at stats then HALF_OPEN else OPEN
  | s => s
  end.

Definition get_state (gateway_id model_id : string) (now : Z) (b : FederationCircuitBreaker) : CircuitState :=
  match circuits b !! (gateway_id, model_id) with
  | None => CLOSED
  | Some stats => evaluate_state now stats
  end.

Definition is_gateway_wide_open (gateway_id : string) (now : Z) (b : FederationCircuitBreaker) : bool :=
  match gateway_wide_open b !! gateway_id with
  | None => false
  | Some opened_at => now - opened_at <? recovery_timeout cfg
  end.

Definition is_gateway_degraded (gateway_id : string) (b : FederationCircuitBreaker) : bool :=
  match gateway_health b !! gateway_id with
  | Some health => bool_decide (is_Some (degraded_since health))
  | None => false
  end.

Definition count_open_models (gateway_id : string) (now : Z) (b : FederationCircuitBreaker) : Z :=
  Z.of_nat (size (filter (fun kv : PairKey * CircuitStats =>
    kv.1.1 = gateway_id /\ evaluate_state now kv.2 = OPEN) (circuits b))).

Definition with_gates (f : gmap string Z -> gmap string Z) (b : FederationCircuitBreaker) : FederationCircuitBreaker :=
  mkBreaker (circuits b) (half_open_requests b) (f (gateway_wide_open b)) (gateway_health b).

Definition update_gateway_wide_state (gateway_id : string) (now : Z) (b : FederationCircuitBreaker)
  : FederationCircuitBreaker :=
  if gateway_failure_model_threshold cfg <=? count_open_models gateway_id now b then
    if is_gateway_wide_open gateway_id now b then b else with_gates <[gateway_id := now]> b
  else match gateway_wide_open b !! gateway_id with
  | None => b
  | Some _ =>
      match gateway_health b !! gateway_id with
      | Some (mkHealth _ _ _ _ _ (Some _) _ _) => b
      | _ => with_gates (delete gateway_id) b
      end
  end.

(** ** Admission *)

Definition should_allow_request (gateway_id model_id : string) (now : Z) (b : FederationCircuitBreaker)
  : bool * list Event * FederationCircuitBreaker :=
  let reject reason := (false, emit (RequestRejected gateway_id model_id reason), b) in
  if is_gateway_wide_open gateway_id now b then reject "gateway_wide_open"%string
  else match circuits b !! (gateway_id, model_id) with
  | None => (true, [], b)
  | Some stats =>
      match evaluate_state now stats with
      | CLOSED => (true, [], b)
      | OPEN => reject "model_circuit_open"%string
      | HALF_OPEN =>
          let half_open_count := get_or 0 (half_open_requests b !! (gateway_id, model_id)) in
          if half_open_max cfg <=? half_open_count then reject "half_open_limit_reached"%string
          else (true, [],
                mkBreaker (circuits b)
                  (<[(gateway_id, model_id) := half_open_count + 1]> (half_open_requests b))
                  (gateway_wide_open b) (gateway_health b))
      end
  end.

(** The router's read-only variant. *)
Definition is_request_allowed_sync (gateway_id model_id : string) (now : Z) (b : FederationCircuitBreaker) : bool :=
  if is_gateway_wide_open gateway_id now b then false
  else match circuits b !! (gateway_id, model_id) with
  | None => true
  | Some stats =>
      match evaluate_state now stats with
      | OPEN => false
      | HALF_OPEN =>
          negb (half_open_max cfg <=? get_or 0 (half_open_requests b !! (gateway_id, model_id)))
      | CLOSED => true
      end
  end.

(** ** Outcomes of one pair *)

Definition record_success (gateway_id model_id : string) (now : Z) (b : FederationCircuitBreaker)
  : FederationCircuitBreaker :=
  let pair_key := (gateway_id, model_id) in
  let s := get_or (new_stats now) (circuits b !! pair_key) in
  let b' :=
    match evaluate_state now s with
    | HALF_OPEN =>
        mkBreaker
          (<[pair_key := mkStats 0 (success_count s + 1) (last_failure_time s) now CLOSED now
                           (last_failure_status s)]> (circuits b))
          (delete pair_key (half_open_requests b)) (gateway_wide_open b) (gateway_health b)
    | _ =>
        mkBreaker
          (<[pair_key := mkStats (failure_count s) (success_count s + 1) (last_failure_time s) now
                           (state s) (state_changed_at s) (last_failure_status s)]> (circuits b))
          (half_open_requests b) (gateway_wide_open b) (gateway_health b)
    end in
  update_gateway_wide_state gateway_id now b'.

Definition record_failure (gateway_id model_id : string) (status_code : option Z) (now : Z)
    (b : FederationCircuitBreaker) : FederationCircuitBreaker :=
  let pair_key := (gateway_id, model_id) in
  let s := get_or (new_stats now) (circuits b !! pair_key) in
  let failures := failure_count s + 1 in
  let moved st at_ := <[pair_key := mkStats failures (success_count s) now (last_success_time s) st at_
                                      status_code]> (circuits b) in
  let b' :=
    match evaluate_state now s with
    | HALF_OPEN =>
        mkBreaker (moved OPEN now) (delete pair_key (half_open_requests b)) (gateway_wide_open b) (gateway_health b)
    | CLOSED =>
        mkBreaker
          (if failure_threshold cfg <=? failures then moved OPEN now else moved (state s) (state_changed_at s))
          (half_open_requests b) (gateway_wide_open b) (gateway_health b)
    | OPEN =>
        mkBreaker (moved (state s) (state_changed_at s)) (half_open_requests b) (gateway_wide_open b)
          (gateway_health b)
    end in
  update_gateway_wide_state gateway_id now b'.

(** ** Streaks of a gateway *)

Definition with_health (gateway_id : string) (h : GatewayHealthStats) (b : FederationCircuitBreaker)
  : FederationCircuitBreaker :=
  mkBreaker (circuits b) (half_open_requests b) (gateway_wide_open b) (<[gateway_id := h]> (gateway_health b)).

Definition record_gateway_timeout (gateway_id error_code : string) (now : Z) (b : FederationCircuitBreaker)
  : list Event * FederationCircuitBreaker :=
  let h := get_or new_health (gateway_health b !! gateway_id) in
  let timeouts := consecutive_timeouts h + 1 in
  let first := get_or error_code (first_timeout_code h) in
  let crossed := (gateway_timeout_threshold cfg <=? timeouts) && bool_decide (degraded_since h = None) in
  (if crossed then emit (GatewayDegraded gateway_id timeouts (or_else (Some first) error_code)) else [],
   with_health gateway_id
     (mkHealth timeouts (consecutive_disconnects h) now (health_success_time h)
        (if crossed then Some now else degraded_since h) (unhealthy_since h)
        (Some first) (first_disconnect_code h)) b).

Definition record_gateway_disconnect (gateway_id error_code : string) (now : Z) (b : FederationCircuitBreaker)
  : list Event * FederationCircuitBreaker :=
  let h := get_or new_health (gateway_health b !! gateway_id) in
  let disconnects := consecutive_disconnects h + 1 in
  let first := get_or error_code (first_disconnect_code h) in
  let reached := gateway_disconnect_threshold cfg <=? disconnects in
  let crossed := reached && bool_decide (unhealthy_since h = None) in
  (if crossed
   then emit (GatewayUnhealthy gateway_id disconnects (or_else (Some first) error_code) (recovery_timeout cfg))
   else [],
   with_health gateway_id
     (mkHealth (consecutive_timeouts h) disconnects now (health_success_time h)
        (degraded_since h) (if crossed then Some now else unhealthy_since h)
        (first_timeout_code h) (Some first))
     (if reached then with_gates <[gateway_id := now]> b else b)).

Definition record_gateway_success (gateway_id : string) (now : Z) (b : FederationCircuitBreaker)
  : list Event * FederationCircuitBreaker :=
  match gateway_health b !! gateway_id with
  | None => ([], b)
  | Some h =>
      let was_degraded := bool_decide (is_Some (degraded_since h)) in
      let was_unhealthy := bool_decide (is_Some (unhealthy_since h)) in
      ((if was_unhealthy then emit (GatewayRecovered gateway_id "reachability" "probe_succeeded") else []) ++
       (if was_degraded then emit (GatewayRecovered gateway_id "degradation" "first_success") else []),
       with_health gateway_id (mkHealth 0 0 (health_failure_time h) now None None None None)
         (if was_unhealthy then with_gates (delete gateway_id) b else b))
  end.

(** ** Reset *)

Definition reset (gateway_id : string) (model_id : option string) (now : Z) (b : FederationCircuitBreaker)
  : FederationCircuitBreaker :=
  match model_id with
  | None =>
      mkBreaker
        (map_imap (fun (k : PairKey) stats =>
           Some (if bool_decide (k.1 = gateway_id) then new_stats now else stats)) (circuits b))
        (filter (fun kv : PairKey * Z => ~ (kv.1.1 = gateway_id /\ is_Some (circuits b !! kv.1)))
           (half_open_requests b))
        (delete gateway_id (gateway_wide_open b)) (gateway_health b)
  | Some m =>
      let pair_key := (gateway_id, m) in
      match circuits b !! pair_key with
      | None => b
      | Some _ =>
          update_gateway_wide_state gateway_id now
            (mkBreaker (<[pair_key := new_stats now]> (circuits b)) (delete pair_key (half_open_requests b))
               (gateway_wide_open b) (gateway_health b))
      end
  end.

(** ** What a request makes the breaker record

    How a request admitted by [execute_federated_request] ends.  The body of a
    streamed response is sent after the function has returned, and a
    cancellation is no [Exception]: neither is recorded. *)
Inductive Outcome : Type :=
  | Completed
  | HttpError (status_code : Z) (error_code : option string) (request_deadline : bool)
  | OtherError
  | Unrecorded.

Definition timeout_codes : list string := ["REQUEST_TIMEOUT"; "INFERENCE_TIMEOUT"; "LOAD_TIMEOUT"]%string.
Definition disconnect_codes : list string := ["GATEWAY_DISCONNECTED"; "EDGE_UNREACHABLE"]%string.

Definition is_request_deadline_timeout (error_code : string) (request_deadline : bool) : bool :=
  bool_decide (error_code = "REQUEST_TIMEOUT"%string) && request_deadline.

Definition record_outcome (gateway_id model_id : string) (o : Outcome) (now : Z) (b : FederationCircuitBreaker)
  : list Event * FederationCircuitBreaker :=
  let other status_code :=
    if (500 <=? status_code) && negb (status_code =? 503)
    then ([], record_failure gateway_id model_id (Some status_code) now b)
    else ([], b) in
  match o with
  | Completed => record_gateway_success gateway_id now (record_success gateway_id model_id now b)
  | HttpError status_code None _ => other status_code
  | HttpError status_code (Some code) deadline =>
      if bool_decide (code ∈ timeout_codes) && negb (is_request_deadline_timeout code deadline)
      then record_gateway_timeout gateway_id code now b
      else if bool_decide (code ∈ disconnect_codes)
      then record_gateway_disconnect gateway_id code now b
      else other status_code
  | OtherError => ([], record_failure gateway_id model_id None now b)
  | Unrecorded => ([], b)
  end.

(** ** Runs of the breaker *)

Inductive Op : Type :=
  | Admit (gateway_id model_id : string)
  | Success (gateway_id model_id : string)
  | Failure (gateway_id model_id : string) (status_code : option Z)
  | TimedOut (gateway_id error_code : string)
  | Disconnected (gateway_id error_code : string)
  | GatewayOk (gateway_id : string)
  | Reset (gateway_id : string) (model_id : option string).

Definition run_op (now : Z) (op : Op) (b : FederationCircuitBreaker)
  : option bool * list Event * FederationCircuitBreaker :=
  match op with
  | Admit g m => let '(a, ev, b') := should_allow_request g m now b in (Some a, ev, b')
  | Success g m => (None, [], record_success g m now b)
  | Failure g m status => (None, [], record_failure g m status now b)
  | TimedOut g code => let '(ev, b') := record_gateway_timeout g code now b in (None, ev, b')
  | Disconnected g code => let '(ev, b') := record_gateway_disconnect g code now b in (None, ev, b')
  | GatewayOk g => let '(ev, b') := record_gateway_success g now b in (None, ev, b')
  | Reset g m => (None, [], reset g m now b)
  end.

Definition after (now : Z) (op : Op) (b : FederationCircuitBreaker) : FederationCircuitBreaker := (run_op now op b).2.

Fixpoint run (tr : list (Z * Op)) (b : FederationCircuitBreaker) : FederationCircuitBreaker :=
  match tr with
  | [] => b
  | (t, op) :: tr' => run tr' (after t op b)
  end.

(** The clock does not run backwards. *)
Fixpoint ordered (t0 : Z) (tr : list (Z * Op)) : Prop :=
  match tr with
  | [] => True
  | (t, _) :: tr' => t0 <= t /\ ordered t tr'
  end.

Fixpoint end_time (t0 : Z) (tr : list (Z * Op)) : Z :=
  match tr with [] => t0 | (t, _) :: tr' => end_time t tr' end.

(** What an operation looks like from outside: its time, whether the gate it
    meets is shut, and the answer to an admission. *)
Definition gate_of (op : Op) (now : Z) (b : FederationCircuitBreaker) : bool :=
  match op with Admit g _ => is_gateway_wide_open g now b | _ => false end.

Record Seen := mkSeen { at_time : Z; shut : bool; what : Op; answer : option bool }.

Fixpoint observe (tr : list (Z * Op)) (b : FederationCircuitBreaker) : list Seen :=
  match tr with
  | [] => []
  | (t, op) :: tr' => mkSeen t (gate_of op t b) op (run_op t op b).1.1 :: observe tr' (after t op b)
  end.

(** ** The automaton of one circuit *)

Inductive Circuit : Type :=
  | Closed (failures : Z)
  | Opened (since : Z)
  | HalfOpen (probes : Z).

Definition c_elapse (now : Z) (c : Circuit) : Circuit :=
  match c with
  | Opened since => if recovery_timeout cfg <=? now - since then HalfOpen 0 else c
  | _ => c
  end.

Definition c_admit (c : Circuit) : bool * Circuit :=
  match c with
  | Closed _ => (true, c)
  | Opened _ => (false, c)
  | HalfOpen n => if half_open_max cfg <=? n then (false, c) else (true, HalfOpen (n + 1))
  end.

Definition c_success (c : Circuit) : Circuit := match c with HalfOpen _ => Closed 0 | _ => c end.

Definition c_failure (now : Z) (c : Circuit) : Circuit :=
  match c with
  | Closed n => if failure_threshold cfg <=? n + 1 then Opened now else Closed (n + 1)
  | Opened since => Opened since
  | HalfOpen _ => Opened now
  end.

(** The operations that are addressed to the pair [k]. *)
Definition resets (k : PairKey) (op : Op) : bool :=
  match op with
  | Reset g None => bool_decide (k.1 = g)
  | Reset g (Some m) => bool_decide (k = (g, m))
  | _ => false
  end.

Definition ends (k : PairKey) (op : Op) : bool :=
  match op with
  | Success g m | Failure g m _ => bool_decide (k = (g, m))
  | _ => false
  end.

(** [None] when the answer seen is not the one the automaton gives. *)
Definition c_step (k : PairKey) (s : Seen) (c : Circuit) : option Circuit :=
  let c := c_elapse (at_time s) c in
  option_map (c_elapse (at_time s))
    match what s with
    | Admit g m =>
        if bool_decide (k = (g, m)) then
          let '(a, c') := if shut s then (false, c) else c_admit c in
          if bool_decide (answer s = Some a) then Some c' else None
        else Some c
    | Success g m => Some (if bool_decide (k = (g, m)) then c_success c else c)
    | Failure g m _ => Some (if bool_decide (k = (g, m)) then c_failure (at_time s) c else c)
    | TimedOut _ _ | Disconnected _ _ | GatewayOk _ => Some c
    | Reset _ _ => Some (if resets k (what s) then Closed 0 else c)
    end.

Fixpoint c_steps (k : PairKey) (l : list Seen) (c : Circuit) : option Circuit :=
  match l with
  | [] => Some c
  | s :: l' => match c_step k s c with Some c' => c_steps k l' c' | None => None end
  end.

(** The circuit of a pair as the tables of the breaker show it. *)
Definition view (now : Z) (b : FederationCircuitBreaker) (k : PairKey) : Circuit :=
  match circuits b !! k with
  | None => Closed 0
  | Some stats =>
      match evaluate_state now stats with
      | CLOSED => Closed (failure_count stats)
      | OPEN => Opened (state_changed_at stats)
      | HALF_OPEN => HalfOpen (get_or 0 (half_open_requests b !! k))
      end
  end.

End Breaker.

(** ** Refinement *)
Section Facts.
Context (cfg : Config).
Implicit Types (b : FederationCircuitBreaker) (k : PairKey) (t : Z).

(** Probes are counted only on a half-open circuit. *)
Definition Counted (t : Z) (b : FederationCircuitBreaker) : Prop :=
  forall k n, half_open_requests b !! k = Some n ->
    exists s, circuits b !! k = Some s /\ evaluate_state cfg t s = HALF_OPEN.

Lemma evaluate_mono t t' s :
  t <= t' -> evaluate_state cfg t s = HALF_OPEN -> evaluate_state cfg t' s = HALF_OPEN.
Proof.
  unfold evaluate_state. intros Ht. destruct (state s); try done.
  repeat case_goal; to_prop; try done; lia.
Qed.

Lemma Counted_mono t t' b : t <= t' -> Counted t b -> Counted t' b.
Proof. intros Ht H k n (s & Hs & E)%H. eauto using evaluate_mono. Qed.

Lemma update_circuits g t b : circuits (update_gateway_wide_state cfg g t b) = circuits b.
Proof. unfold update_gateway_wide_state. by repeat case_match. Qed.

Lemma update_half_open g t b : half_open_requests (update_gateway_wide_state cfg g t b) = half_open_requests b.
Proof. unfold update_gateway_wide_state. by repeat case_match. Qed.

Lemma update_health g t b : gateway_health (update_gateway_wide_state cfg g t b) = gateway_health b.
Proof. unfold update_gateway_wide_state. by repeat case_match. Qed.

Hint Rewrite update_circuits update_half_open update_health : breaker.

Lemma view_same t b b' k :
  circuits b' = circuits b -> half_open_requests b' = half_open_requests b -> view cfg t b' k = view cfg t b k.
Proof. intros E1 E2. unfold view. by rewrite E1, E2. Qed.

Lemma Counted_same t b b' :
  circuits b' = circuits b -> half_open_requests b' = half_open_requests b -> Counted t b -> Counted t b'.
Proof. intros E1 E2. unfold Counted. by rewrite E1, E2. Qed.

(** The clock moves the circuits as it moves the automata. *)
Lemma view_elapse t t' b k :
  t <= t' -> Counted t b -> view cfg t' b k = c_elapse cfg t' (view cfg t b k).
Proof.
  intros Ht Hc. unfold view. destruct (circuits b !! k) as [s|] eqn:Es; [|done].
  unfold evaluate_state. destruct (state s) eqn:E; try done.
  destruct (recovery_timeout cfg <=? t - state_changed_at s) eqn:E1; to_prop.
  { case_goal; to_prop; [done|lia]. }
  simpl. case_goal; [|done].
  destruct (half_open_requests b !! k) as [n|] eqn:Eh; [|done].
  apply Hc in Eh as (s' & Hs' & Ev). simplify_eq. unfold evaluate_state in Ev. rewrite E in Ev.
  case_hyp Ev; to_prop; [lia|done].
Qed.

(** Changing the tables at one pair changes the view of no other. *)
Lemma view_other t b b' k :
  circuits b' !! k = circuits b !! k -> half_open_requests b' !! k = half_open_requests b !! k ->
  view cfg t b' k = view cfg t b k.
Proof. intros E1 E2. unfold view. by rewrite E1, E2. Qed.

Lemma filter_keep (k : PairKey) (m : gmap PairKey Z) (P : PairKey * Z -> Prop) `{!forall x, Decision (P x)} :
  filter P m !! k = match m !! k with Some n => if decide (P (k, n)) then Some n else None | None => None end.
Proof.
  destruct (m !! k) as [n|] eqn:E.
  - case_decide; [by apply map_lookup_filter_Some | apply map_lookup_filter_None; right; naive_solver].
  - apply map_lookup_filter_None. by left.
Qed.

(** What a reset leaves of a circuit. *)
Lemma reset_circuits g m t b k :
  circuits (reset cfg g m t b) !! k =
  (if resets k (Reset g m) then (fun _ => new_stats t) <$> circuits b !! k else circuits b !! k).
Proof.
  unfold reset, resets. destruct m as [m|].
  - case_bool_decide; subst.
    + destruct (circuits b !! (g, m)) eqn:E; rewrite ?update_circuits; simpl; [by rewrite lookup_insert_eq | by rewrite E].
    + destruct (circuits b !! (g, m)); [|done]. rewrite update_circuits. simpl. by rewrite lookup_insert_ne.
  - simpl. rewrite map_lookup_imap. by destruct (circuits b !! k); simpl; case_bool_decide.
Qed.

Lemma reset_half_open g m t b k :
  half_open_requests (reset cfg g m t b) !! k =
  (if resets k (Reset g m) && bool_decide (is_Some (circuits b !! k)) then None else half_open_requests b !! k).
Proof.
  unfold reset, resets. destruct m as [m|].
  - case_bool_decide; subst; simpl.
    + destruct (circuits b !! (g, m)) eqn:E; rewrite ?update_half_open; simpl; [by rewrite lookup_delete_eq | done].
    + destruct (circuits b !! (g, m)); [|done]. rewrite update_half_open. simpl. by rewrite lookup_delete_ne.
  - simpl. rewrite filter_keep. destruct (half_open_requests b !! k); [|by case_match].
    repeat case_bool_decide; case_decide; simpl in *; naive_solver.
Qed.

Lemma view_fixed t b k : Counted t b -> c_elapse cfg t (view cfg t b k) = view cfg t b k.
Proof. intros H. symmetry. by apply view_elapse. Qed.

Lemma evaluate_new t t' : evaluate_state cfg t (new_stats t') = CLOSED.
Proof. done. Qed.

(** The circuit of [k] before an outcome, with the entry [setdefault] adds. *)
Lemma view_default t b k :
  view cfg t b k =
  match evaluate_state cfg t (get_or (new_stats t) (circuits b !! k)) with
  | CLOSED => Closed (failure_count (get_or (new_stats t) (circuits b !! k)))
  | OPEN => Opened (state_changed_at (get_or (new_stats t) (circuits b !! k)))
  | HALF_OPEN => HalfOpen (get_or 0 (half_open_requests b !! k))
  end.
Proof. unfold view. by destruct (circuits b !! k). Qed.

(** Unless it is half open, no probe is counted on it. *)
Lemma not_counted t b k :
  Counted t b -> evaluate_state cfg t (get_or (new_stats t) (circuits b !! k)) <> HALF_OPEN ->
  half_open_requests b !! k = None.
Proof.
  intros Hc Hn. destruct (half_open_requests b !! k) eqn:E; [|done].
  apply Hc in E as (s & Hs & E). rewrite Hs in Hn. done.
Qed.

Ltac pair_cases k g m :=
  case_bool_decide; subst;
  [| rewrite ?lookup_insert_ne, ?lookup_delete_ne by done].

Lemma success_sim g m t b k :
  Counted t b ->
  view cfg t (record_success cfg g m t b) k =
    (if bool_decide (k = (g, m)) then c_elapse cfg t (c_success (view cfg t b k)) else view cfg t b k).
Proof.
  intros Hc. unfold record_success. set (s := get_or _ _).
  rewrite (view_same _ _ _ k (update_circuits g t _) (update_half_open g t _)).
  case_bool_decide; subst.
  - rewrite (view_default t b). fold s. destruct (evaluate_state cfg t s) eqn:E; unfold view; simpl;
      rewrite ?lookup_insert_eq, ?lookup_delete_eq; unfold evaluate_state in *; simpl;
      destruct (state s) eqn:Es; try done; repeat case_hyp E; simplify_eq; try done.
  - destruct (evaluate_state cfg t s); apply view_other; simpl; by rewrite ?lookup_insert_ne, ?lookup_delete_ne.
Qed.

Lemma failure_sim g m status t b k :
  Counted t b ->
  view cfg t (record_failure cfg g m status t b) k =
    (if bool_decide (k = (g, m)) then c_elapse cfg t (c_failure cfg t (view cfg t b k)) else view cfg t b k).
Proof.
  intros Hc. unfold record_failure. set (s := get_or _ _).
  rewrite (view_same _ _ _ k (update_circuits g t _) (update_half_open g t _)).
  case_bool_decide; subst.
  - rewrite (view_default t b). pose proof (not_counted t b (g, m) Hc) as Hn. fold s in Hn |- *.
    destruct (evaluate_state cfg t s) eqn:E; unfold view; simpl.
    + specialize (Hn ltac:(done)). destruct (failure_threshold cfg <=? failure_count s + 1);
        rewrite lookup_insert_eq; unfold evaluate_state in *; simpl.
      * rewrite Hn. repeat case_goal; done.
      * destruct (state s) eqn:Es; try done. by case_hyp E.
    + rewrite lookup_insert_eq. unfold evaluate_state in *. simpl. destruct (state s); try done. by case_hyp E.
    + rewrite lookup_insert_eq, lookup_delete_eq. unfold evaluate_state. simpl. repeat case_goal; done.
  - destruct (evaluate_state cfg t s), (failure_threshold cfg <=? failure_count s + 1);
      apply view_other; simpl; by rewrite ?lookup_insert_ne, ?lookup_delete_ne.
Qed.

Lemma reset_sim g m t b k :
  Counted t b ->
  view cfg t (reset cfg g m t b) k = (if resets k (Reset g m) then Closed 0 else view cfg t b k).
Proof.
  intros Hc. unfold view. rewrite reset_circuits, reset_half_open.
  destruct (resets k (Reset g m)); simpl; [|done]. by destruct (circuits b !! k).
Qed.

Lemma admit_sim g m t b k :
  view cfg t (should_allow_request cfg g m t b).2 k =
    (if bool_decide (k = (g, m))
     then (if is_gateway_wide_open cfg g t b then view cfg t b k else (c_admit cfg (view cfg t b k)).2)
     else view cfg t b k) /\
  (should_allow_request cfg g m t b).1.1 =
    (if is_gateway_wide_open cfg g t b then false else (c_admit cfg (view cfg t b (g, m))).1).
Proof.
  unfold should_allow_request, c_admit.
  destruct (is_gateway_wide_open cfg g t b); [by case_bool_decide|].
  destruct (circuits b !! (g, m)) as [s|] eqn:Es;
    [|split; [case_bool_decide; subst|]; unfold view; simpl; by rewrite ?Es].
  destruct (evaluate_state cfg t s) eqn:E; [..|destruct (half_open_max cfg <=? _) eqn:El];
    (split; [case_bool_decide; subst|]); unfold view; simpl; rewrite ?Es, ?E, ?El; simpl;
    rewrite ?lookup_insert_eq; try done.
  by rewrite lookup_insert_ne.
Qed.

(** The streaks of a gateway are kept apart from the circuits. *)
Definition is_streak (op : Op) : bool :=
  match op with TimedOut _ _ | Disconnected _ _ | GatewayOk _ => true | _ => false end.

Lemma streak_frame op t b :
  is_streak op = true ->
  circuits (after cfg t op b) = circuits b /\ half_open_requests (after cfg t op b) = half_open_requests b.
Proof.
  destruct op; try done; intros _; unfold after, run_op, record_gateway_timeout, record_gateway_disconnect,
    record_gateway_success; simpl; repeat case_goal; simplify_eq/=; done.
Qed.

Lemma streak_circuits op t b : is_streak op = true -> circuits (after cfg t op b) = circuits b.
Proof. intros H. by apply streak_frame. Qed.

Lemma streak_half_open op t b :
  is_streak op = true -> half_open_requests (after cfg t op b) = half_open_requests b.
Proof. intros H. by apply streak_frame. Qed.

Lemma Counted_after t op b : Counted t b -> Counted t (after cfg t op b).
Proof.
  intros Hc. destruct op as [g m|g m|g m status|g code|g code|g|g m];
    try (eapply Counted_same; [by apply streak_circuits | by apply streak_half_open | done]).
  - unfold after. simpl. unfold should_allow_request.
    repeat case_goal; simplify_eq/=; try done.
    intros k n Hk. simpl in *. apply lookup_insert_Some in Hk as [[<- _]|[_ Hk]]; eauto.
  - unfold after. simpl. unfold record_success. eapply Counted_same; [apply update_circuits | apply update_half_open |].
    intros k n Hk. case_goal; simpl in *;
      (destruct (decide (k = (g, m))) as [->|];
       [|rewrite ?lookup_delete_ne in Hk by done; rewrite lookup_insert_ne by done; by eapply Hc]).
    all: first [rewrite lookup_delete_eq in Hk | rewrite (not_counted t b (g, m) Hc) in Hk by congruence]; done.
  - unfold after. simpl. unfold record_failure. eapply Counted_same; [apply update_circuits | apply update_half_open |].
    intros k n Hk. case_goal; simpl in *;
      (destruct (decide (k = (g, m))) as [->|];
       [|rewrite ?lookup_delete_ne in Hk by done;
         repeat case_goal; rewrite ?lookup_insert_ne by done; by eapply Hc]).
    all: first [rewrite lookup_delete_eq in Hk | rewrite (not_counted t b (g, m) Hc) in Hk by congruence]; done.
  - intros k n. unfold after. simpl. rewrite reset_circuits, reset_half_open.
    destruct (resets k (Reset g m)); simpl; [|apply Hc].
    case_bool_decide as Hs; [done|]. intros (s & Hs' & _)%Hc. destruct Hs. eauto.
Qed.

Lemma elapse_idem t (c : Circuit) : c_elapse cfg t (c_elapse cfg t c) = c_elapse cfg t c.
Proof. destruct c as [|since|]; simpl; [done| |done]. case_goal; simpl; [done|]. by rewrite Heqb. Qed.

(** One operation of the breaker is one step of every automaton. *)
Lemma step_sim t op b k :
  Counted t b ->
  c_step cfg k (mkSeen t (gate_of cfg op t b) op (run_op cfg t op b).1.1) (view cfg t b k) =
    Some (view cfg t (after cfg t op b) k).
Proof.
  intros Hc. pose proof (Counted_after t op b Hc) as Hc'. rewrite <- (view_fixed t (after cfg t op b) k Hc').
  unfold c_step. simpl at_time. rewrite (view_fixed t b k Hc). simpl.
  destruct op as [g m|g m|g m status|g code|g code|g|g m];
    try (rewrite (view_same t b (after cfg t _ b) k); [done | by apply streak_circuits | by apply streak_half_open]).
  - unfold after. simpl. pose proof (admit_sim g m t b k) as [Hv Ha].
    destruct (should_allow_request cfg g m t b) as [[a ev] b'] eqn:E. simpl in *. rewrite Hv.
    case_bool_decide; subst; [|done]. destruct (is_gateway_wide_open cfg g t b); simpl; [done|].
    destruct (c_admit cfg (view cfg t b (g, m))) as [a' c']. simpl in *. by rewrite bool_decide_true.
  - unfold after. simpl. rewrite (success_sim g m t b k Hc). case_bool_decide; simpl; by rewrite ?elapse_idem.
  - unfold after. simpl. rewrite (failure_sim g m status t b k Hc). case_bool_decide; simpl; by rewrite ?elapse_idem.
  - unfold after. simpl. rewrite (reset_sim g m t b k Hc). done.
Qed.

Lemma Counted_new t : Counted t new_breaker.
Proof. intros k n H. unfold new_breaker in H. simpl in H. by rewrite lookup_empty in H. Qed.

Lemma run_sim tr t0 b k :
  Counted t0 b -> ordered t0 tr ->
  exists c, c_steps cfg k (observe cfg tr b) (view cfg t0 b k) = Some c /\
    view cfg (end_time t0 tr) (run cfg tr b) k = c.
Proof.
  revert t0 b. induction tr as [|[t op] tr IH]; intros t0 b Hc Ho; simpl.
  { eauto. }
  destruct Ho as [Ht Ho]. assert (Hc1 : Counted t b) by eauto using Counted_mono.
  pose proof (step_sim t op b k Hc1) as Hs.
  assert (Hs0 : c_step cfg k (mkSeen t (gate_of cfg op t b) op (run_op cfg t op b).1.1) (view cfg t0 b k) =
                Some (view cfg t (after cfg t op b) k)).
  { rewrite <- Hs. rewrite (view_elapse t0 t b k Ht Hc). unfold c_step. simpl at_time. by rewrite elapse_idem. }
  rewrite Hs0. destruct (IH t (after cfg t op b) (Counted_after t op b Hc1) Ho) as (c & Hc' & Hv).
  exists c. done.
Qed.

(** *** Facts of the automaton *)

Definition admits (k : PairKey) (s : Seen) : bool :=
  match what s with Admit g m => bool_decide (k = (g, m)) && bool_decide (answer s = Some true) | _ => false end.

Definition admitted (k : PairKey) (l : list Seen) : Z := Z.of_nat (length (List.filter (admits k) l)).

(** How many more requests a circuit that is not closed lets through before an
    outcome is recorded. *)
Definition room (c : Circuit) : Z :=
  match c with
  | Closed _ => 0
  | Opened _ => Z.max 0 (half_open_max cfg)
  | HalfOpen n => Z.max 0 (half_open_max cfg - n)
  end.

Definition is_closed (c : Circuit) : bool := match c with Closed _ => true | _ => false end.

Definition Quiet (k : PairKey) (op : Op) : Prop := ends k op = false /\ resets k op = false.

Lemma c_elapse_room t (c : Circuit) :
  is_closed c = false -> is_closed (c_elapse cfg t c) = false /\ room (c_elapse cfg t c) <= room c.
Proof. destruct c; simpl; try done. intros _. case_goal; simpl; split; try done; lia. Qed.

Lemma c_step_room k s c c' :
  c_step cfg k s c = Some c' -> Quiet k (what s) -> is_closed c = false ->
  is_closed c' = false /\ (if admits k s then 1 else 0) + room c' <= room c.
Proof.
  unfold c_step, Quiet, admits. intros Hs [He Hr] Hc.
  destruct (c_elapse_room (at_time s) c Hc) as [Hc1 Hm]. revert Hs Hc1 Hm.
  generalize (c_elapse cfg (at_time s) c) as d. intros d Hs Hd Hm.
  assert (Hskip : option_map (c_elapse cfg (at_time s)) (Some d) = Some c' -> is_closed c' = false /\ room c' <= room c).
  { intros [= <-]. destruct (c_elapse_room (at_time s) d Hd). split; [done|lia]. }
  destruct (what s) as [g m|g m|g m st| | | |g m]; simpl in He;
    try (rewrite ?He, ?Hr in Hs; destruct (Hskip Hs); split; [done|lia]).
  case_bool_decide; simpl; [|destruct (Hskip Hs); split; [done|lia]]. destruct (shut s); simpl in Hs.
  - case_bool_decide as Ha; [|done]. destruct (Hskip Hs). rewrite Ha, bool_decide_false by done. split; [done|lia].
  - destruct d as [|since|n]; simpl in Hs; [done|..]; repeat case_hyp Hs; simpl in Hs; try discriminate;
      to_prop; injection Hs as <-; rewrite ?Heqb0, ?Heqb;
      repeat (rewrite bool_decide_false by congruence); repeat (rewrite bool_decide_true by done);
      simpl in *; repeat case_goal; simpl; split; try done; lia.
Qed.

Lemma c_steps_room k l c c' :
  c_steps cfg k l c = Some c' -> Forall (fun s => Quiet k (what s)) l -> is_closed c = false ->
  admitted k l <= room c.
Proof.
  revert c. induction l as [|s l IH]; intros c Hs Hq Hc; simpl in Hs.
  { unfold admitted, room. destruct c; simpl; lia. }
  apply Forall_cons in Hq as [Hq1 Hq]. destruct (c_step cfg k s c) as [d|] eqn:E; [|done].
  destruct (c_step_room k s c d E Hq1 Hc) as [Hd Hr]. specialize (IH d Hs Hq Hd).
  unfold admitted in *. simpl. destruct (admits k s); simpl length; lia.
Qed.

Lemma observe_what tr b (P : Op -> Prop) :
  Forall (fun e => P e.2) tr -> Forall (fun s => P (what s)) (observe cfg tr b).
Proof.
  revert b. induction tr as [|[t op] tr IH]; intros b H; simpl; [done|].
  apply Forall_cons in H as [H1 H2]. constructor; [done|auto].
Qed.

(** An open circuit refuses until its time is over, whatever is reported of it
    meanwhile. *)
Definition refuses (k : PairKey) (s : Seen) : Prop :=
  match what s with Admit g m => k = (g, m) -> answer s = Some false | _ => True end.

Lemma c_step_open k s since c' :
  c_step cfg k s (Opened since) = Some c' -> resets k (what s) = false ->
  at_time s < since + recovery_timeout cfg -> c' = Opened since /\ refuses k s.
Proof.
  intros Hs Hr Ht. assert (E : c_elapse cfg (at_time s) (Opened since) = Opened since).
  { simpl. case_goal; [to_prop; lia|done]. }
  unfold c_step, refuses in *. cbv zeta in Hs. rewrite E in Hs.
  destruct (what s) as [g m|g m|g m st| | | |g m]; cbn [option_map] in Hs;
    try (try case_bool_decide; cbn [option_map c_success c_failure] in Hs; rewrite E in Hs; by simplify_eq).
  - case_bool_decide as Hk; [|cbn [option_map] in Hs; rewrite E in Hs; by simplify_eq].
    destruct (shut s); cbn [c_admit] in Hs; case_bool_decide; try done; cbn [option_map] in Hs; rewrite E in Hs; by simplify_eq.
  - rewrite Hr in Hs. cbn [option_map] in Hs. rewrite E in Hs. by simplify_eq.
Qed.

Lemma c_steps_open k l since c' :
  c_steps cfg k l (Opened since) = Some c' -> Forall (fun s => resets k (what s) = false) l ->
  Forall (fun s => at_time s < since + recovery_timeout cfg) l -> Forall (refuses k) l.
Proof.
  induction l as [|s l IH]; intros Hs Hr Ht; simpl in Hs; [done|].
  apply Forall_cons in Hr as [Hr1 Hr]. apply Forall_cons in Ht as [Ht1 Ht].
  destruct (c_step cfg k s (Opened since)) as [d|] eqn:E; [|done].
  destruct (c_step_open k s since d E Hr1 Ht1) as [-> ?]. constructor; auto.
Qed.

Lemma ordered_before t0 tr bound b :
  ordered t0 tr -> end_time t0 tr < bound -> Forall (fun s => at_time s < bound) (observe cfg tr b).
Proof.
  assert (Hle : forall tr t, ordered t tr -> t <= end_time t tr).
  { clear. induction tr as [|[t1 op] tr IH]; intros t; simpl; [lia|]. intros [? Ho]. specialize (IH t1 Ho). lia. }
  revert t0 b. induction tr as [|[t op] tr IH]; intros t0 b Ho He; simpl; [done|].
  destruct Ho as [Ht Ho]. constructor; [|by eapply IH]. simpl in *. specialize (Hle tr t Ho). lia.
Qed.

(** ** Invariant *)

Definition StatsOk (t : Z) (s : CircuitStats) : Prop :=
  state s <> HALF_OPEN /\ (state s = OPEN <-> failure_threshold cfg <= failure_count s) /\
  0 <= failure_count s /\ 0 <= success_count s /\ state_changed_at s <= t.

Definition SinceOk (t threshold count : Z) (since : option Z) (first : option string) : Prop :=
  (is_Some since <-> threshold <= count) /\ (forall t', since = Some t' -> t' <= t) /\
  0 <= count /\ (first = None <-> count = 0).

Definition HealthOk (t : Z) (h : GatewayHealthStats) : Prop :=
  SinceOk t (gateway_timeout_threshold cfg) (consecutive_timeouts h) (degraded_since h) (first_timeout_code h) /\
  SinceOk t (gateway_disconnect_threshold cfg) (consecutive_disconnects h) (unhealthy_since h)
    (first_disconnect_code h).

Record BreakerOk (t : Z) (b : FederationCircuitBreaker) : Prop := {
  ok_stats : forall k s, circuits b !! k = Some s -> StatsOk t s;
  ok_counted : Counted t b;
  ok_probes : forall k n, half_open_requests b !! k = Some n -> 1 <= n <= half_open_max cfg;
  ok_gates : forall g t', gateway_wide_open b !! g = Some t' -> t' <= t;
  ok_health : forall g h, gateway_health b !! g = Some h -> HealthOk t h
}.

Definition PositiveThresholds : Prop :=
  1 <= failure_threshold cfg /\ 1 <= gateway_timeout_threshold cfg /\ 1 <= gateway_disconnect_threshold cfg.

Lemma SinceOk_mono t t' threshold count since first :
  t <= t' -> SinceOk t threshold count since first -> SinceOk t' threshold count since first.
Proof. intros Ht (H1 & H2 & H3). split; [done|]. split; [|done]. intros t1 E. specialize (H2 t1 E). lia. Qed.

Lemma BreakerOk_mono t t' b : t <= t' -> BreakerOk t b -> BreakerOk t' b.
Proof.
  intros Ht [Hs Hc Hp Hg Hh]. constructor.
  - intros k s Hk. destruct (Hs k s Hk) as (?&?&?&?&?). repeat split; try done; try lia; tauto.
  - eauto using Counted_mono.
  - done.
  - intros g t1 E. specialize (Hg g t1 E). lia.
  - intros g h E. destruct (Hh g h E). split; eauto using SinceOk_mono.
Qed.

Lemma StatsOk_new t : PositiveThresholds -> StatsOk t (new_stats t).
Proof. intros (H & _). repeat split; simpl; try done; try lia. Qed.

Lemma StatsOk_default t b k :
  PositiveThresholds -> BreakerOk t b -> StatsOk t (get_or (new_stats t) (circuits b !! k)).
Proof. intros Hp Hb. destruct (circuits b !! k) eqn:E; simpl; [by eapply ok_stats | by apply StatsOk_new]. Qed.

Lemma HealthOk_default t b g :
  PositiveThresholds -> BreakerOk t b -> HealthOk t (get_or new_health (gateway_health b !! g)).
Proof.
  intros (_ & H1 & H2) Hb. destruct (gateway_health b !! g) eqn:E; simpl; [by eapply ok_health|].
  split; repeat split; simpl; try done; try lia; intros []; done.
Qed.

Lemma update_gates g t b g' t' :
  gateway_wide_open (update_gateway_wide_state cfg g t b) !! g' = Some t' ->
  t' = t \/ gateway_wide_open b !! g' = Some t'.
Proof.
  unfold update_gateway_wide_state. repeat case_match; simpl; auto.
  all: try (intros [[_ <-]|[_ ?]]%lookup_insert_Some; auto).
  all: intros [_ ?]%lookup_delete_Some; auto.
Qed.

(** A success and a failure keep an entry in order. *)
Lemma evaluate_open t s :
  StatsOk t s -> evaluate_state cfg t s <> CLOSED -> failure_threshold cfg <= failure_count s.
Proof.
  intros (Hn & Ho & _) E. apply Ho. unfold evaluate_state in E. by destruct (state s).
Qed.

Lemma evaluate_closed t s :
  StatsOk t s -> evaluate_state cfg t s = CLOSED -> failure_count s < failure_threshold cfg /\ state s = CLOSED.
Proof.
  intros (Hn & Ho & _) E. unfold evaluate_state in E. destruct (state s) eqn:Es; [|by case_hyp E|done].
  split; [|done]. destruct (decide (failure_threshold cfg <= failure_count s)) as [H|]; [|lia]. by apply Ho in H.
Qed.

Lemma success_stats t g m b k s :
  PositiveThresholds -> BreakerOk t b -> circuits (record_success cfg g m t b) !! k = Some s -> StatsOk t s.
Proof.
  intros Hp Hb. unfold record_success. rewrite update_circuits. pose proof (StatsOk_default t b (g, m) Hp Hb) as Hs.
  set (s0 := get_or _ _) in *. destruct Hp as (Hp & _).
  destruct (evaluate_state cfg t s0) eqn:E; simpl; intros [[_ <-]|[_ ?]]%lookup_insert_Some;
    try (by eapply ok_stats); destruct Hs as (H1 & H2 & H3 & H4 & H5); split; simpl; repeat split; try done; try lia; tauto.
Qed.

Lemma failure_stats t g m status b k s :
  PositiveThresholds -> BreakerOk t b -> circuits (record_failure cfg g m status t b) !! k = Some s -> StatsOk t s.
Proof.
  intros Hp Hb. unfold record_failure. rewrite update_circuits. pose proof (StatsOk_default t b (g, m) Hp Hb) as Hs.
  set (s0 := get_or _ _) in *.
  destruct (evaluate_state cfg t s0) eqn:E; simpl.
  - apply evaluate_closed in E as [El Es]; [|done].
    destruct Hs as (H1 & H2 & H3 & H4 & H5). case_goal; to_prop; simpl;
      intros [[_ <-]|[_ ?]]%lookup_insert_Some; try (by eapply ok_stats);
      split; simpl; repeat split; try done; try lia; rewrite Es; try done; lia.
  - assert (failure_threshold cfg <= failure_count s0) by (eapply evaluate_open; [done|congruence]).
    destruct Hs as (H1 & H2 & H3 & H4 & H5).
    intros [[_ <-]|[_ ?]]%lookup_insert_Some; try (by eapply ok_stats).
    split; simpl; repeat split; try done; try lia; intros _; apply H2; lia.
  - assert (failure_threshold cfg <= failure_count s0) by (eapply evaluate_open; [done|congruence]).
    destruct Hs as (H1 & H2 & H3 & H4 & H5).
    intros [[_ <-]|[_ ?]]%lookup_insert_Some; try (by eapply ok_stats).
    split; simpl; repeat split; try done; lia.
Qed.

(** [SinceOk] after one more failure, and after a success. *)
Lemma SinceOk_more t threshold count since first code :
  SinceOk t threshold count since first ->
  SinceOk t threshold (count + 1)
    (if (threshold <=? count + 1) && bool_decide (since = None) then Some t else since)
    (Some (get_or code first)).
Proof.
  intros (H1 & H2 & H3 & H4). destruct (threshold <=? count + 1) eqn:E; to_prop; simpl.
  - destruct since as [t1|]; simpl; (split; [split; [intros _; lia | eauto] | split; [|split; [lia | split; [done|lia]]]]).
    + done.
    + intros t' [= <-]. lia.
  - split; [|split; [done|split; [lia | split; [done|lia]]]]. rewrite H1. lia.
Qed.

Lemma SinceOk_none t threshold : 1 <= threshold -> SinceOk t threshold 0 None None.
Proof. intros H. repeat split; try done; try lia; intros []; done. Qed.

Lemma admit_frame g m t b (b' := (should_allow_request cfg g m t b).2) :
  circuits b' = circuits b /\ gateway_wide_open b' = gateway_wide_open b /\ gateway_health b' = gateway_health b.
Proof. subst b'. unfold should_allow_request. repeat case_goal; simplify_eq/=; done. Qed.

Lemma after_admit g m t b : after cfg t (Admit g m) b = (should_allow_request cfg g m t b).2.
Proof. unfold after. simpl. by destruct (should_allow_request cfg g m t b) as [[a ev] b']. Qed.

Lemma stats_after t op b k s :
  PositiveThresholds -> BreakerOk t b -> circuits (after cfg t op b) !! k = Some s -> StatsOk t s.
Proof.
  intros Hp Hb Hk. destruct op as [g m|g m|g m status|g code|g code|g|g m];
    try (rewrite streak_circuits in Hk by done; by eapply ok_stats).
  - rewrite after_admit, (proj1 (admit_frame g m t b)) in Hk. by eapply ok_stats.
  - exact (success_stats t g m b k s Hp Hb Hk).
  - exact (failure_stats t g m status b k s Hp Hb Hk).
  - unfold after in Hk. simpl in Hk. rewrite reset_circuits in Hk. case_hyp Hk; [|by eapply ok_stats].
    destruct (circuits b !! k); simplify_eq/=. by apply StatsOk_new.
Qed.

Lemma probes_after t op b k n :
  BreakerOk t b -> half_open_requests (after cfg t op b) !! k = Some n -> 1 <= n <= half_open_max cfg.
Proof.
  intros Hb Hk. destruct op as [g m|g m|g m status|g code|g code|g|g m];
    try (rewrite streak_half_open in Hk by done; by eapply ok_probes).
  - rewrite after_admit in Hk. unfold should_allow_request in Hk.
    repeat case_hyp Hk; simpl in Hk; try (by eapply ok_probes).
    apply lookup_insert_Some in Hk as [[_ <-]|[_ Hk]]; [|by eapply ok_probes]. to_prop.
    destruct (half_open_requests b !! (g, m)) eqn:E; simpl in *; [apply (ok_probes t b Hb) in E|]; lia.
  - unfold after in Hk. simpl in Hk. unfold record_success in Hk. rewrite update_half_open in Hk.
    repeat case_hyp Hk; simpl in Hk; try (apply lookup_delete_Some in Hk as [_ Hk]); by eapply ok_probes.
  - unfold after in Hk. simpl in Hk. unfold record_failure in Hk. rewrite update_half_open in Hk.
    repeat case_hyp Hk; simpl in Hk; try (apply lookup_delete_Some in Hk as [_ Hk]); by eapply ok_probes.
  - unfold after in Hk. simpl in Hk. rewrite reset_half_open in Hk. case_hyp Hk; [done|by eapply ok_probes].
Qed.

Lemma gates_after t op b g0 t' :
  gateway_wide_open (after cfg t op b) !! g0 = Some t' -> t' = t \/ gateway_wide_open b !! g0 = Some t'.
Proof.
  intros Hk. destruct op as [g m|g m|g m status|g code|g code|g|g m].
  - rewrite after_admit in Hk. destruct (admit_frame g m t b) as (_ & E & _). rewrite E in Hk. auto.
  - unfold after in Hk. simpl in Hk. apply update_gates in Hk as [?|Hk]; [auto|]. case_hyp Hk; auto.
  - unfold after in Hk. simpl in Hk. apply update_gates in Hk as [?|Hk]; [auto|]. case_hyp Hk; auto.
  - auto.
  - unfold after in Hk. simpl in Hk. case_hyp Hk; simpl in Hk; [|auto].
    apply lookup_insert_Some in Hk as [[_ <-]|[_ ?]]; auto.
  - unfold after in Hk. simpl in Hk. unfold record_gateway_success in Hk. repeat case_hyp Hk; simpl in Hk;
      try (apply lookup_delete_Some in Hk as [_ Hk]); auto.
  - unfold after in Hk. simpl in Hk. unfold reset in Hk. repeat case_hyp Hk; simpl in Hk; auto.
    + apply update_gates in Hk as [?|Hk]; auto.
    + apply lookup_delete_Some in Hk as [_ ?]; auto.
Qed.

Lemma health_after t op b g0 h :
  PositiveThresholds -> BreakerOk t b -> gateway_health (after cfg t op b) !! g0 = Some h -> HealthOk t h.
Proof.
  intros Hp Hb Hk. pose proof (fun g => HealthOk_default t b g Hp Hb) as Hd. destruct Hp as (_ & Hp1 & Hp2).
  assert (Hold : gateway_health b !! g0 = Some h -> HealthOk t h) by (by apply (ok_health t b Hb)).
  destruct op as [g m|g m|g m status|g code|g code|g|g m].
  - rewrite after_admit in Hk. destruct (admit_frame g m t b) as (_ & _ & E). rewrite E in Hk. auto.
  - unfold after in Hk. simpl in Hk. unfold record_success in Hk. rewrite update_health in Hk. case_hyp Hk; auto.
  - unfold after in Hk. simpl in Hk. unfold record_failure in Hk. rewrite update_health in Hk. case_hyp Hk; auto.
  - unfold after in Hk. simpl in Hk. apply lookup_insert_Some in Hk as [[_ <-]|[_ Hk]]; [|auto].
    destruct (Hd g) as [H1 H2]. split; simpl; [by apply SinceOk_more | done].
  - unfold after in Hk. simpl in Hk. apply lookup_insert_Some in Hk as [[_ <-]|[_ Hk]]; [|case_hyp Hk; auto].
    destruct (Hd g) as [H1 H2]. split; simpl; [done | by apply SinceOk_more].
  - unfold after in Hk. simpl in Hk. unfold record_gateway_success in Hk.
    destruct (gateway_health b !! g) eqn:E; [|auto]. simpl in Hk.
    apply lookup_insert_Some in Hk as [[_ <-]|[_ Hk]]; [|case_hyp Hk; auto].
    split; by apply SinceOk_none.
  - unfold after in Hk. simpl in Hk. unfold reset in Hk. repeat case_hyp Hk; rewrite ?update_health in Hk; auto.
Qed.

Lemma BreakerOk_after t op b : PositiveThresholds -> BreakerOk t b -> BreakerOk t (after cfg t op b).
Proof.
  intros Hp Hb. constructor.
  - eauto using stats_after.
  - apply Counted_after, Hb.
  - eauto using probes_after.
  - intros g t' [->|Hg]%gates_after; [lia | by eapply ok_gates].
  - eauto using health_after.
Qed.

Lemma BreakerOk_new t : BreakerOk t new_breaker.
Proof.
  constructor; unfold new_breaker; simpl; try (intros ? ? H; by rewrite lookup_empty in H). apply Counted_new.
Qed.

Lemma BreakerOk_run tr t b :
  PositiveThresholds -> BreakerOk t b -> ordered t tr -> BreakerOk (end_time t tr) (run cfg tr b).
Proof.
  intros Hp. revert t b. induction tr as [|[t1 op] tr IH]; intros t b Hb; simpl; [done|].
  intros [Ht Ho]. apply IH; [|done]. apply BreakerOk_after; [done|]. by eapply BreakerOk_mono.
Qed.

(** The breaker after some history that ended at [t]. *)
Definition Reached (t : Z) (b : FederationCircuitBreaker) : Prop :=
  exists t0 tr, ordered t0 tr /\ end_time t0 tr = t /\ run cfg tr new_breaker = b.

Lemma Counted_run tr t b : Counted t b -> ordered t tr -> Counted (end_time t tr) (run cfg tr b).
Proof.
  revert t b. induction tr as [|[t1 op] tr IH]; intros t b Hb; simpl; [done|].
  intros [Ht Ho]. apply IH; [|done]. apply Counted_after. by eapply Counted_mono.
Qed.

Lemma Reached_counted t b : Reached t b -> Counted t b.
Proof. intros (t0 & tr & Ho & <- & <-). apply Counted_run; [apply Counted_new | done]. Qed.

(** Probe counts are never negative, whatever the thresholds. *)
Lemma probes_nonneg tr k : 0 <= get_or 0 (half_open_requests (run cfg tr new_breaker) !! k).
Proof.
  assert (H : forall b, (forall n, half_open_requests b !! k = Some n -> 0 <= n) ->
            forall n, half_open_requests (run cfg tr b) !! k = Some n -> 0 <= n).
  { induction tr as [|[t op] tr' IH]; intros b Hb; simpl; [done|]. apply IH. intros n Hn.
    destruct op as [g m|g m|g m status|g code|g code|g|g m];
      try (rewrite streak_half_open in Hn by done; auto).
    - rewrite after_admit in Hn. unfold should_allow_request in Hn. repeat case_hyp Hn; simpl in Hn; auto.
      apply lookup_insert_Some in Hn as [[<- <-]|[_ Hn]]; [|auto].
      destruct (half_open_requests b !! (g, m)) eqn:E; simpl; [specialize (Hb _ eq_refl)|]; lia.
    - unfold after in Hn. simpl in Hn. unfold record_success in Hn. rewrite update_half_open in Hn.
      repeat case_hyp Hn; simpl in Hn; try (apply lookup_delete_Some in Hn as [_ Hn]); auto.
    - unfold after in Hn. simpl in Hn. unfold record_failure in Hn. rewrite update_half_open in Hn.
      repeat case_hyp Hn; simpl in Hn; try (apply lookup_delete_Some in Hn as [_ Hn]); auto.
    - unfold after in Hn. simpl in Hn. rewrite reset_half_open in Hn. case_hyp Hn; [done|auto]. }
  destruct (half_open_requests (run cfg tr new_breaker) !! k) eqn:E; simpl; [|done].
  eapply H; [|exact E]. unfold new_breaker. simpl. intros n. by rewrite lookup_empty.
Qed.

End Facts.

(** ** Requests in progress *)

Section World.
Context (cfg : Config).

Record World := mkWorld {
  clock : Z;
  breaker : FederationCircuitBreaker;
  in_progress : gmap string (PairKey * bool)
}.

Inductive Action : Type :=
  | Tick (ticks : Z)
  | Start (request_id gateway_id model_id : string) (streaming : bool)
  | Finish (request_id : string) (o : Outcome).

(** A request asks for admission, runs, and reports its end; a streamed one
    reports nothing.  The answer of an admission is returned. *)
Definition act (a : Action) (w : World) : option bool * World :=
  match a with
  | Tick d => (None, mkWorld (clock w + Z.max 0 d) (breaker w) (in_progress w))
  | Start id g m streaming =>
      match in_progress w !! id with
      | Some _ => (None, w)
      | None =>
          let '(allowed, _, b) := should_allow_request cfg g m (clock w) (breaker w) in
          (Some allowed,
           mkWorld (clock w) b (if allowed then <[id := ((g, m), streaming)]> (in_progress w) else in_progress w))
      end
  | Finish id o =>
      match (in_progress w !! id : option (PairKey * bool)) with
      | None => (None, w)
      | Some ((g, m), streaming) =>
          let o := if streaming then Unrecorded else o in
          (None, mkWorld (clock w) (record_outcome cfg g m o (clock w) (breaker w)).2
                   (delete id (in_progress w)))
      end
  end.

Fixpoint play (acts : list Action) (w : World) : World :=
  match acts with [] => w | a :: acts' => play acts' (act a w).2 end.

Definition new_world : World := mkWorld 0 new_breaker ∅.

(** The answers to the requests for the pair [k]. *)
Fixpoint answers_for (k : PairKey) (acts : list Action) (w : World) : list bool :=
  match acts with
  | [] => []
  | a :: acts' =>
      match a, (act a w).1 with
      | Start _ g m _, Some allowed => if bool_decide (k = (g, m)) then [allowed] else []
      | _, _ => []
      end ++ answers_for k acts' (act a w).2
  end.

(** The operations by which an outcome is recorded. *)
Definition outcome_ops (g m : string) (o : Outcome) : list Op :=
  let other status_code :=
    if (500 <=? status_code) && negb (status_code =? 503) then [Failure g m (Some status_code)] else [] in
  match o with
  | Completed => [Success g m; GatewayOk g]
  | HttpError status_code None _ => other status_code
  | HttpError status_code (Some code) deadline =>
      if bool_decide (code ∈ timeout_codes) && negb (is_request_deadline_timeout code deadline)
      then [TimedOut g code]
      else if bool_decide (code ∈ disconnect_codes) then [Disconnected g code]
      else other status_code
  | OtherError => [Failure g m None]
  | Unrecorded => []
  end.

Lemma record_outcome_run g m o t b :
  (record_outcome cfg g m o t b).2 = run cfg (map (pair t) (outcome_ops g m o)) b.
Proof.
  unfold record_outcome, outcome_ops. destruct o as [|status [code|] deadline| |]; simpl; try done;
    repeat case_match; simpl; unfold after; simpl; repeat case_match; simplify_eq/=; done.
Qed.

Lemma ordered_same t (ops : list Op) : ordered t (map (pair t) ops).
Proof. induction ops; simpl; [done|]. split; [lia|done]. Qed.

Lemma end_same t (ops : list Op) : end_time t (map (pair t) ops) = t.
Proof. induction ops; simpl; done. Qed.

Lemma outcome_quiet k g m o : k <> (g, m) -> Forall (Quiet k) (outcome_ops g m o).
Proof.
  intros Hk. unfold outcome_ops, Quiet. destruct o as [|status [code|] deadline| |]; simpl;
    repeat case_match; repeat constructor; simpl; rewrite ?bool_decide_false by done; done.
Qed.

Lemma Counted_act a w : Counted cfg (clock w) (breaker w) -> Counted cfg (clock (act a w).2) (breaker (act a w).2).
Proof.
  intros Hc. destruct a as [d|id g m st|id o]; simpl.
  - eapply (Counted_mono cfg (clock w)); [lia|done].
  - destruct (in_progress w !! id); [done|].
    pose proof (Counted_after cfg (clock w) (Admit g m) _ Hc) as H. rewrite after_admit in H.
    by destruct (should_allow_request _ _ _ _ _) as [[a ev] b].
  - destruct (in_progress w !! id) as [[[g m] st]|]; [|done]. simpl. rewrite record_outcome_run.
    pose proof (Counted_run cfg _ _ _ Hc (ordered_same (clock w) (outcome_ops g m (if st then Unrecorded else o)))) as H.
    by rewrite end_same in H.
Qed.

Lemma Counted_play acts w :
  Counted cfg (clock w) (breaker w) -> Counted cfg (clock (play acts w)) (breaker (play acts w)).
Proof. revert w. induction acts as [|a acts IH]; intros w H; simpl; [done|]. apply IH. by apply Counted_act. Qed.

(** *** Lockout *)

(** All probes of the pair are taken, and none of them will report. *)
Definition LockedOut (k : PairKey) (n : Z) (w : World) : Prop :=
  view cfg (clock w) (breaker w) k = HalfOpen n /\ half_open_max cfg <= n /\
  (forall id, in_progress w !! id <> Some (k, false)).

Lemma c_step_full k s n c' :
  c_step cfg k s (HalfOpen n) = Some c' -> Quiet k (what s) -> half_open_max cfg <= n ->
  c' = HalfOpen n /\ admits k s = false.
Proof.
  unfold c_step, Quiet, admits. intros Hs [He Hr] Hn. simpl in Hs.
  assert (E : (half_open_max cfg <=? n) = true) by (by apply Z.leb_le). rewrite E in Hs.
  destruct (what s) as [g m|g m|g m st| | | |g m]; simpl in He; rewrite ?He, ?Hr in Hs; simpl in Hs;
    try by simplify_eq.
  case_bool_decide; simpl in *; [|by simplify_eq].
  destruct (shut s); case_hyp Hs; try done; to_prop; simplify_eq/=; split; try done;
    by rewrite bool_decide_false by congruence.
Qed.

Lemma c_steps_full k l n c' :
  c_steps cfg k l (HalfOpen n) = Some c' -> Forall (fun s => Quiet k (what s)) l -> half_open_max cfg <= n ->
  c' = HalfOpen n.
Proof.
  revert c'. induction l as [|s l IH]; intros c' Hs Hq Hn; simpl in Hs; [by simplify_eq|].
  apply Forall_cons in Hq as [Hq1 Hq]. destruct (c_step cfg k s (HalfOpen n)) as [d|] eqn:E; [|done].
  destruct (c_step_full k s n d E Hq1 Hn) as [-> _]. auto.
Qed.

Lemma LockedOut_act k n a w :
  Counted cfg (clock w) (breaker w) -> LockedOut k n w ->
  LockedOut k n (act a w).2 /\ answers_for k [a] w ⊆ [false].
Proof.
  intros Hc (Hv & Hn & Hp). destruct a as [d|id g m st|id o]; simpl; rewrite ?app_nil_r.
  - split; [|set_solver]. split; [|done]. simpl. rewrite (view_elapse cfg (clock w)), Hv by (done || lia). done.
  - destruct (in_progress w !! id) eqn:Ei; [split; [done|set_solver]|].
    destruct (admit_sim cfg g m (clock w) (breaker w) k) as [Hs Ha].
    destruct (should_allow_request _ _ _ _ _) as [[a ev] b]. simpl in *.
    assert (Hfull : c_admit cfg (HalfOpen n) = (false, HalfOpen n)).
    { simpl. by rewrite (proj2 (Z.leb_le _ _) Hn). }
    case_bool_decide as Hk; [subst k|].
    + rewrite Hv, Hfull in Ha, Hs. simpl in Ha, Hs.
      assert (Hf : forall x : bool, (if x then false else false) = false) by (by intros []).
      rewrite Hf in Ha. subst a.
      split; [|set_solver]. split; [|done]. simpl. rewrite Hs. by destruct (is_gateway_wide_open _ _ _ _).
    + split; [|set_solver]. split; [simpl; congruence|]. split; [done|]. simpl. intros id'.
      destruct a; [|apply Hp]. intros [[_ ?]|[_ ?]]%lookup_insert_Some; [congruence | by eapply Hp].
  - destruct (in_progress w !! id) as [[[g m] st]|] eqn:Ei; [|split; [done|set_solver]].
    split; [|set_solver]. simpl. split; [|split; [done|]].
    + simpl. rewrite record_outcome_run. set (ops := outcome_ops _ _ _).
      destruct (run_sim cfg (map (pair (clock w)) ops) (clock w) (breaker w) k Hc (ordered_same _ _)) as (c & Hs & Hc').
      rewrite end_same in Hc'. rewrite Hc'. rewrite Hv in Hs. eapply c_steps_full; [exact Hs| |done].
      apply (observe_what cfg _ _ (Quiet k)). apply Forall_map. simpl. subst ops. destruct st; [done|].
      apply outcome_quiet. intros ->. by apply (Hp id).
    + simpl. intros id' [_ ?]%lookup_delete_Some. by eapply Hp.
Qed.

Lemma LockedOut_play k n acts w :
  Counted cfg (clock w) (breaker w) -> LockedOut k n w ->
  LockedOut k n (play acts w) /\ Forall (eq false) (answers_for k acts w).
Proof.
  revert w. induction acts as [|a acts IH]; intros w Hc Hl; simpl; [by split|].
  destruct (LockedOut_act k n a w Hc Hl) as [Hl1 Ha]. destruct (IH _ (Counted_act a w Hc) Hl1) as [Hl2 Hf].
  split; [done|]. apply Forall_app. split; [|done].
  simpl in Ha. rewrite app_nil_r in Ha. apply Forall_forall. intros x Hx. specialize (Ha x Hx). set_solver.
Qed.

End World.

(** *** The gate of a gateway *)

Section Gates.
Context (cfg : Config).

(** A gate shut by disconnects, at [t] or later. *)
Definition ShutSince (g : string) (t : Z) (b : FederationCircuitBreaker) : Prop :=
  (exists t', gateway_wide_open b !! g = Some t' /\ t <= t') /\
  (exists h, gateway_health b !! g = Some h /\ is_Some (unhealthy_since h)).

Definition reopens (g : string) (op : Op) : bool :=
  match op with
  | GatewayOk g' | Reset g' None => bool_decide (g = g')
  | _ => false
  end.

Lemma update_shut g g' t now b :
  t <= now -> ShutSince g t b -> ShutSince g t (update_gateway_wide_state cfg g' now b).
Proof.
  intros Ht [(t' & Hg & Hle) (h & Hh & Hu)]. unfold ShutSince. rewrite update_health.
  split; [|eauto]. unfold update_gateway_wide_state. destruct (decide (g' = g)) as [->|].
  - destruct h as [? ? ? ? ? u ? ?]. destruct Hu as [z Hz]. simpl in Hz. subst u. rewrite Hh, Hg.
    repeat case_goal; simpl; rewrite ?lookup_insert_eq; eauto.
  - repeat case_goal; simpl; rewrite ?lookup_insert_ne, ?lookup_delete_ne by done; eauto.
Qed.

Lemma with_health_shut g t g' h b :
  ShutSince g t b -> (g = g' -> is_Some (unhealthy_since h)) -> ShutSince g t (with_health g' h b).
Proof.
  intros [Hg (h0 & Hh & Hu)] Hn. split; [done|]. simpl. destruct (decide (g' = g)) as [->|].
  - exists h. rewrite lookup_insert_eq. auto.
  - exists h0. by rewrite lookup_insert_ne.
Qed.

Lemma after_shut g t now op b :
  t <= now -> reopens g op = false -> ShutSince g t b -> ShutSince g t (after cfg now op b).
Proof.
  intros Ht Hr Hs. pose proof Hs as [Hg (h & Hh & Hu)].
  destruct op as [g' m|g' m|g' m status|g' code|g' code|g'|g' [m|]]; simpl in Hr; to_prop.
  - rewrite after_admit. destruct (admit_frame cfg g' m now b) as (_ & E1 & E2). unfold ShutSince. by rewrite E1, E2.
  - apply update_shut; [done|]. case_goal; done.
  - apply update_shut; [done|]. case_goal; done.
  - apply with_health_shut; [done|]. intros ->. by rewrite Hh.
  - apply with_health_shut.
    + case_goal; [|done]. split; [|eauto]. simpl. destruct (decide (g' = g)) as [->|].
      * rewrite lookup_insert_eq. eauto.
      * by rewrite lookup_insert_ne.
    + intros ->. rewrite Hh. simpl. case_goal; [done|done].
  - unfold after. simpl. unfold record_gateway_success. destruct (gateway_health b !! g') eqn:E; [|done]. simpl.
    apply with_health_shut; [|done]. case_goal; [|done]. split; [|eauto]. simpl. by rewrite lookup_delete_ne.
  - unfold after. simpl. case_goal; [|done]. apply update_shut; done.
  - split; [|eauto]. simpl. by rewrite lookup_delete_ne.
Qed.

Lemma run_shut g t t1 tr b :
  t <= t1 -> ordered t1 tr -> Forall (fun e => reopens g e.2 = false) tr -> ShutSince g t b ->
  end_time t1 tr < t + recovery_timeout cfg ->
  Forall (fun s => forall m, what s = Admit g m -> answer s = Some false) (observe cfg tr b).
Proof.
  revert t1 b. induction tr as [|[t2 op] tr IH]; intros t1 b Ht Ho Hr Hs He; simpl; [done|].
  destruct Ho as [Ht2 Ho]. apply Forall_cons in Hr as [Hr1 Hr].
  pose proof (ordered_before cfg t1 ((t2, op) :: tr) _ b (conj Ht2 Ho) He) as Hb. simpl in Hb.
  apply Forall_cons in Hb as [Hb _]. simpl in Hb.
  constructor; [|eapply IH; [|exact Ho|done|apply after_shut; [|done|done]|done]; lia].
  intros m [= ->]. simpl. destruct Hs as [(t' & Hg & Hle) _].
  unfold should_allow_request, is_gateway_wide_open. rewrite Hg.
  assert (E : (t2 - t' <? recovery_timeout cfg) = true) by (apply Z.ltb_lt; lia). by rewrite E.
Qed.

(** *** Streaks *)

(** The failures since the last success, in a history. *)
Fixpoint streak (hit clear : Op -> bool) (tr : list (Z * Op)) (n : Z) : Z :=
  match tr with
  | [] => n
  | (_, op) :: tr' => streak hit clear tr' (if clear op then 0 else if hit op then n + 1 else n)
  end.

Definition timeout_of (g : string) (op : Op) : bool :=
  match op with TimedOut g' _ => bool_decide (g = g') | _ => false end.
Definition disconnect_of (g : string) (op : Op) : bool :=
  match op with Disconnected g' _ => bool_decide (g = g') | _ => false end.
Definition success_of (g : string) (op : Op) : bool :=
  match op with GatewayOk g' => bool_decide (g = g') | _ => false end.

Definition health_of (g : string) (b : FederationCircuitBreaker) : GatewayHealthStats :=
  get_or new_health (gateway_health b !! g).

Lemma health_same t op b g :
  is_streak op = false -> health_of g (after cfg t op b) = health_of g b.
Proof.
  unfold health_of. intros Hs. destruct op as [g' m|g' m|g' m status| | | |g' [m|]]; try done.
  - rewrite after_admit. destruct (admit_frame cfg g' m t b) as (_ & _ & E). by rewrite E.
  - unfold after. simpl. unfold record_success. rewrite update_health. by case_goal.
  - unfold after. simpl. unfold record_failure. rewrite update_health. by case_goal.
  - unfold after. simpl. case_goal; rewrite ?update_health; done.
Qed.

Lemma health_step t op b g :
  consecutive_timeouts (health_of g (after cfg t op b)) =
    (if success_of g op then 0 else if timeout_of g op then consecutive_timeouts (health_of g b) + 1
     else consecutive_timeouts (health_of g b)) /\
  consecutive_disconnects (health_of g (after cfg t op b)) =
    (if success_of g op then 0 else if disconnect_of g op then consecutive_disconnects (health_of g b) + 1
     else consecutive_disconnects (health_of g b)).
Proof.
  destruct (is_streak op) eqn:Es; [|rewrite health_same by done; by destruct op].
  destruct op as [| | |g' code|g' code|g'|]; try done; simpl; unfold health_of, after; simpl.
  - destruct (decide (g = g')) as [->|Hg]; [rewrite lookup_insert_eq, (bool_decide_true (g' = g')) by done |
      rewrite lookup_insert_ne, (bool_decide_false (g = g')) by done]; done.
  - destruct (decide (g = g')) as [->|Hg]; [rewrite lookup_insert_eq, (bool_decide_true (g' = g')) by done |
      rewrite lookup_insert_ne, (bool_decide_false (g = g')) by done; case_goal]; done.
  - unfold record_gateway_success. destruct (decide (g = g')) as [->|Hg];
      [rewrite (bool_decide_true (g' = g')) by done | rewrite (bool_decide_false (g = g')) by done];
      destruct (gateway_health b !! g') eqn:E; simpl; rewrite ?lookup_insert_eq, ?E; try done.
    rewrite lookup_insert_ne by done. by case_goal.
Qed.

Lemma streaks_run tr b g :
  consecutive_timeouts (health_of g (run cfg tr b)) =
    streak (timeout_of g) (success_of g) tr (consecutive_timeouts (health_of g b)) /\
  consecutive_disconnects (health_of g (run cfg tr b)) =
    streak (disconnect_of g) (success_of g) tr (consecutive_disconnects (health_of g b)).
Proof.
  revert b. induction tr as [|[t op] tr IH]; intros b; simpl; [done|].
  destruct (health_step t op b g) as [<- <-]. apply IH.
Qed.

End Gates.

(** ** Theorems *)

(** C6: Seen from outside, the breaker is one textbook circuit breaker per
    pair of gateway and model behind the gates: for every history and every
    pair, the automaton [Circuit] (closed, counting failures; open; half open,
    counting probes) accepts what was done and answered, and ends in the state
    the tables show. *)
Theorem breaker_refines (cfg : Config) (t0 : Z) (tr : list (Z * Op)) (k : PairKey) :
  ordered t0 tr ->
  c_steps cfg k (observe cfg tr new_breaker) (Closed 0) =
    Some (view cfg (end_time t0 tr) (run cfg tr new_breaker) k).
Proof.
  intros Ho. destruct (run_sim cfg tr t0 new_breaker k (Counted_new cfg t0) Ho) as (c & Hs & <-). exact Hs.
Qed.

(** The tables are well formed after every history: a circuit is stored
    open exactly when its failures have reached the threshold and never stored
    half open, only half-open circuits count probes, never more than the limit,
    and a gateway is marked degraded (unhealthy) exactly when its streak of
    timeouts (disconnects) has reached the threshold; no time lies in the
    future. *)
Theorem breaker_invariant (cfg : Config) (t0 : Z) (tr : list (Z * Op)) :
  PositiveThresholds cfg -> ordered t0 tr ->
  BreakerOk cfg (end_time t0 tr) (run cfg tr new_breaker).
Proof. intros Hp Ho. apply BreakerOk_run; [done | apply BreakerOk_new | done]. Qed.

(** An open circuit protects its gateway: from the moment it is open,
    every request for the pair is refused until the recovery timeout has
    passed, whatever is reported of the pair or of others meanwhile, unless an
    operator resets it. *)
Theorem open_circuit_refuses (cfg : Config) (t : Z) (b : FederationCircuitBreaker) (k : PairKey) (since : Z)
    (tr : list (Z * Op)) :
  Reached cfg t b -> view cfg t b k = Opened since -> ordered t tr ->
  Forall (fun e => resets k e.2 = false) tr -> end_time t tr < since + recovery_timeout cfg ->
  Forall (refuses k) (observe cfg tr b).
Proof.
  intros Hb Hv Ho Hr He. destruct (run_sim cfg tr t b k (Reached_counted cfg t b Hb) Ho) as (c & Hs & _).
  rewrite Hv in Hs. eapply c_steps_open; [exact Hs | | by eapply ordered_before].
  by apply (observe_what cfg tr b (fun op => resets k op = false)).
Qed.

(** An unhealthy model is never stormed: from any moment at which the
    circuit of a pair is open or half open until an outcome of the pair is
    recorded (or it is reset), at most [half_open_max] requests for it are
    admitted, however long that takes. *)
Theorem probes_bounded (cfg : Config) (t : Z) (b : FederationCircuitBreaker) (k : PairKey) (tr : list (Z * Op)) :
  Reached cfg t b -> get_state cfg k.1 k.2 t b <> CLOSED -> ordered t tr ->
  Forall (fun e => Quiet k e.2) tr ->
  admitted k (observe cfg tr b) <= Z.max 0 (half_open_max cfg).
Proof.
  intros Hb Hv Ho Hq. pose proof (Reached_counted cfg t b Hb) as Hc.
  destruct (run_sim cfg tr t b k Hc Ho) as (c & Hs & _).
  assert (Hcl : is_closed (view cfg t b k) = false /\ room cfg (view cfg t b k) <= Z.max 0 (half_open_max cfg)).
  { unfold get_state, view in *. destruct k as [g m]. simpl in *. destruct (circuits b !! (g, m)) eqn:E; [|done].
    destruct (evaluate_state cfg t c0); try done. simpl. split; [done|].
    assert (0 <= get_or 0 (half_open_requests b !! (g, m))); [|lia].
    destruct Hb as (t0 & tr0 & Ho0 & <- & <-). clear -Ho0. apply probes_nonneg. }
  destruct Hcl as [H1 H2]. etrans; [|exact H2]. eapply c_steps_room; [exact Hs| |done].
  by apply (observe_what cfg tr b (Quiet k)).
Qed.

(** The health of a gateway is its streak: whatever happened between, it
    is degraded exactly when at least [gateway_timeout_threshold] timeouts were
    reported since its last success, and marked unhealthy exactly when at least
    [gateway_disconnect_threshold] disconnects were. *)
Theorem health_exact (cfg : Config) (t0 : Z) (tr : list (Z * Op)) (g : string) :
  PositiveThresholds cfg -> ordered t0 tr ->
  (is_gateway_degraded g (run cfg tr new_breaker) = true <->
     gateway_timeout_threshold cfg <= streak (timeout_of g) (success_of g) tr 0) /\
  (is_Some (unhealthy_since (health_of g (run cfg tr new_breaker))) <->
     gateway_disconnect_threshold cfg <= streak (disconnect_of g) (success_of g) tr 0).
Proof.
  intros Hp Ho. pose proof (BreakerOk_run cfg tr t0 new_breaker Hp (BreakerOk_new cfg t0) Ho) as Hb.
  destruct (HealthOk_default cfg _ _ g Hp Hb) as [(H1 & _) (H2 & _)].
  destruct (streaks_run cfg tr new_breaker g) as [E1 E2].
  assert (E0 : health_of g new_breaker = new_health) by (unfold health_of, new_breaker; simpl; by rewrite lookup_empty).
  rewrite E0 in E1, E2. simpl in E1, E2. rewrite <- E1, <- E2. fold (health_of g (run cfg tr new_breaker)) in *.
  split; [|done]. rewrite <- H1. unfold is_gateway_degraded, health_of.
  destruct (gateway_health (run cfg tr new_breaker) !! g); simpl; [apply bool_decide_eq_true|].
  split; [done | intros []; done].
Qed.

(** A gateway that keeps disconnecting is left alone: once a disconnect
    completes the streak, every request for any of its models is refused until
    the recovery timeout has passed since the last disconnect, unless the
    gateway answers a request or an operator resets it. *)
Theorem disconnects_exclude (cfg : Config) (t : Z) (b : FederationCircuitBreaker) (g code : string)
    (tr : list (Z * Op)) :
  gateway_disconnect_threshold cfg <= consecutive_disconnects (health_of g b) + 1 ->
  ordered t tr -> Forall (fun e => reopens g e.2 = false) tr -> end_time t tr < t + recovery_timeout cfg ->
  Forall (fun s => forall m, what s = Admit g m -> answer s = Some false)
    (observe cfg tr (after cfg t (Disconnected g code) b)).
Proof.
  intros Hn Ho Hr He. eapply (run_shut cfg g t t); [done | exact Ho | exact Hr | | exact He].
  unfold after, ShutSince. simpl. unfold health_of in Hn. apply Z.leb_le in Hn. rewrite Hn. simpl.
  rewrite !lookup_insert_eq. split; [by exists t|].
  eexists. split; [done|]. simpl. case_bool_decide as Hu; [done|].
  destruct (unhealthy_since _); [done|done].
Qed.

(** The router's read-only check and the admission agree, an admission
    changes nothing but the probe count of a half-open circuit, and an event
    is published exactly for a refusal. *)
Theorem admission_agrees (cfg : Config) (g m : string) (t : Z) (b : FederationCircuitBreaker) :
  let '(allowed, events, b') := should_allow_request cfg g m t b in
  allowed = is_request_allowed_sync cfg g m t b /\
  length events = (if has_event_bus cfg && negb allowed then 1%nat else 0%nat) /\
  b' = (if allowed && bool_decide (get_state cfg g m t b = HALF_OPEN)
        then mkBreaker (circuits b)
               (<[(g, m) := get_or 0 (half_open_requests b !! (g, m)) + 1]> (half_open_requests b))
               (gateway_wide_open b) (gateway_health b)
        else b).
Proof.
  unfold should_allow_request, is_request_allowed_sync, get_state, emit.
  destruct (is_gateway_wide_open cfg g t b); [by destruct (has_event_bus cfg)|].
  destruct (circuits b !! (g, m)) as [s|]; [|by destruct (has_event_bus cfg)].
  destruct (evaluate_state cfg t s); [by destruct (has_event_bus cfg) .. |].
  destruct (half_open_max cfg <=? _); by destruct (has_event_bus cfg).
Qed.

(** C21: A half-open circuit whose probes have all been admitted, while no
    request for the pair that is not streamed is in progress (only these report
    how they ended), is shut for good: in every continuation, whatever requests
    for other pairs do and however much time passes, no request for the pair is
    admitted again. *)
Theorem lockout_permanent (cfg : Config) (k : PairKey) (n : Z) (past future : list Action) :
  let w := play cfg past new_world in
  view cfg (clock w) (breaker w) k = HalfOpen n -> half_open_max cfg <= n ->
  (forall id, in_progress w !! id <> Some (k, false)) ->
  Forall (eq false) (answers_for cfg k future w).
Proof.
  intros w Hv Hn Hp. apply (LockedOut_play cfg k n future w); [|done].
  apply Counted_play. apply Counted_new.
Qed.

(** *** Witnesses and examples *)

Definition default_config : Config := mkConfig 5 30 3 3 3 3 true.

Definition fail (t : Z) : Z * Op := (t, Failure "gw" "m" (Some 500)).
Definition ask (t : Z) : Z * Op := (t, Admit "gw" "m").
Definition five_failures : list (Z * Op) := [fail 1; fail 2; fail 3; fail 4; fail 5].

Lemma breaker_refines_witness :
  c_steps default_config ("gw", "m")%string
    (observe default_config (five_failures ++ [ask 6; ask 40; (41, Success "gw" "m")]) new_breaker) (Closed 0) =
  Some (Closed 0).
Proof.
  assert (H : ordered 0 (five_failures ++ [ask 6; ask 40; (41, Success "gw" "m")])) by (simpl; lia).
  etrans; [exact (breaker_refines default_config 0 _ ("gw", "m")%string H) | vm_compute; reflexivity].
Defined.

Lemma breaker_invariant_witness : exists s,
  circuits (run default_config five_failures new_breaker) !! ("gw", "m")%string = Some s /\ state s = OPEN.
Proof.
  assert (Hp : PositiveThresholds default_config) by (repeat split; simpl; lia).
  assert (Ho : ordered 0 five_failures) by (simpl; lia).
  destruct (circuits (run default_config five_failures new_breaker) !! ("gw", "m")%string) as [s|] eqn:E;
    [|vm_compute in E; discriminate].
  exists s. split; [reflexivity|].
  destruct (ok_stats _ _ _ (breaker_invariant default_config 0 five_failures Hp Ho) _ _ E) as (_ & H & _).
  apply H. vm_compute in E. injection E as <-. simpl. lia.
Defined.

Lemma five_failures_reached :
  Reached default_config 5 (run default_config five_failures new_breaker).
Proof. exists 0, five_failures. repeat split; simpl; lia. Qed.

Lemma open_circuit_refuses_witness :
  Forall (refuses ("gw", "m")%string)
    (observe default_config [ask 6; (7, Success "gw" "m"); ask 34]
       (run default_config five_failures new_breaker)).
Proof.
  apply (open_circuit_refuses default_config 5 _ _ 5);
    [apply five_failures_reached | vm_compute; reflexivity | simpl; lia | repeat constructor | simpl; lia].
Defined.

Lemma probes_bounded_witness :
  admitted ("gw", "m")%string
    (observe default_config [ask 6; ask 40; ask 41; ask 42; ask 43; ask 90]
       (run default_config five_failures new_breaker)) <= 3.
Proof.
  apply (probes_bounded default_config 5);
    [apply five_failures_reached | vm_compute; discriminate | simpl; lia | repeat constructor].
Defined.

Lemma health_exact_witness :
  is_gateway_degraded "gw"
    (run default_config [(1, TimedOut "gw" "LOAD_TIMEOUT"); (2, TimedOut "gw" "LOAD_TIMEOUT");
                         (3, Reset "gw" None); (4, TimedOut "gw" "REQUEST_TIMEOUT")] new_breaker) = true.
Proof.
  apply (health_exact default_config 0); [repeat split; simpl; lia | simpl; lia | vm_compute; discriminate].
Defined.

Lemma disconnects_exclude_witness :
  Forall (fun s => forall m, what s = Admit "gw"%string m -> answer s = Some false)
    (observe default_config [(4, Admit "gw" "other"); (20, Success "gw" "m"); (32, Admit "gw" "m")]
       (after default_config 3 (Disconnected "gw" "EDGE_UNREACHABLE")
          (run default_config [(1, Disconnected "gw" "EDGE_UNREACHABLE"); (2, Disconnected "gw" "EDGE_UNREACHABLE")]
             new_breaker))).
Proof.
  apply disconnects_exclude; [vm_compute; discriminate | simpl; lia | repeat constructor | simpl; lia].
Defined.

(** Five failed requests, the recovery timeout, then three streamed probes:
    they succeed, but nobody says so. *)
Definition streamed_probes : list Action :=
  List.concat (map (fun id => [Start id "gw" "m" false; Finish id OtherError]) ["a"; "b"; "c"; "d"; "e"]%string)
  ++ [Tick 30]
  ++ List.concat (map (fun id => [Start id "gw" "m" true; Finish id Completed]) ["f"; "g"; "h"]%string).

Lemma lockout_permanent_witness :
  Forall (eq false)
    (answers_for default_config ("gw", "m")%string
       [Tick 1000000; Start "i" "gw" "m" false; Start "j" "gw" "other" false; Finish "j" Completed;
        Start "k" "gw" "m" true]
       (play default_config streamed_probes new_world)).
Proof.
  apply (lockout_permanent default_config ("gw", "m")%string 3 streamed_probes);
    [vm_compute; reflexivity | simpl; lia |].
  intros id. assert (E : in_progress (play default_config streamed_probes new_world) = ∅) by (vm_compute; reflexivity).
  rewrite E. rewrite lookup_empty. discriminate.
Defined.

(** A deadline the caller set counts against the gateway's circuit: five
    impatient callers exclude a model for everybody, though a timeout is meant
    not to exclude anything. *)
Example deadline_timeouts_open_circuit :
  let deadline := HttpError 504 (Some "REQUEST_TIMEOUT"%string) true in
  let w := play default_config
    (List.concat (map (fun id => [Start id "gw" "m" false; Finish id deadline]) ["a"; "b"; "c"; "d"; "e"]%string))
    new_world in
  get_state default_config "gw" "m" (clock w) (breaker w) = OPEN /\
  is_gateway_degraded "gw" (breaker w) = false.
Proof. vm_compute. split; reflexivity. Qed.

(** After the cooldown an unhealthy gateway is open to everybody at once, not
    to the probes of a half-open circuit. *)
Example cooldown_admits_all :
  let unreachable := HttpError 503 (Some "EDGE_UNREACHABLE"%string) false in
  let w := play default_config
    (List.concat (map (fun id => [Start id "gw" "m" false; Finish id unreachable]) ["a"; "b"; "c"]%string)
     ++ [Tick 30]) new_world in
  answers_for default_config ("gw", "m")%string
    (map (fun id => Start id "gw" "m" false) ["1"; "2"; "3"; "4"; "5"; "6"]%string) w =
  [true; true; true; true; true; true] /\
  is_Some (unhealthy_since (health_of "gw" (breaker w))).
Proof. vm_compute. split; [reflexivity | by eexists]. Qed.
