(* ===== verification/RequestTracker.v ===== *)
(** * Requests forwarded by the master
    ([systems/federation/master/routing/orchestrator.py])

    [MasterRequestTracker] forwards requests to other Stargates and can cancel
    them, alone or by group; it also keeps the models that requests need from
    being evicted between their load and their end.

    A forward registers a [TrackedRequest], an object it shares with the
    table of active requests and with whoever cancels it; objects live in a
    heap.  Coroutines are cut at their suspensions: [step] is what happens when
    a chunk or a response arrives, a message has been sent, or a cancellation
    strikes, and the tasks in between are entries of a table. *)
From stdpp Require Import base gmap sets list strings sorting.
From Stdlib Require Import ZArith Lia.
From S2P Require Import Prelude.

Inductive RequestState : Type := ACTIVE | CANCELLED | COMPLETED | EXPIRED.

#[global] Instance RequestState_eq_dec : EqDecision RequestState.
Proof. solve_decision. Defined.

(** The request's remote id, category and start time are data for others. *)
Record TrackedRequest := mkTracked {
  tr_request_id : string;
  tr_remote_id : string;
  tr_state : RequestState
}.

Record MasterRequestTracker := mkMaster {
  objects : list TrackedRequest;
  active : gmap string nat;
  pending_cancels : gmap string (list string);
  routing_key_by_request : gmap string (string * string);
  routing_keys_by_gateway : gmap string (gset string);
  cancel_groups : gmap string (gset string)
}.

Definition new_master : MasterRequestTracker := mkMaster [] ∅ ∅ ∅ ∅ ∅.

(** ** Routing keys *)

Definition keys_of (gateway_id : string) (t : MasterRequestTracker) : gset string :=
  get_or ∅ (routing_keys_by_gateway t !! gateway_id).

Definition track_routing_key (gateway_id request_id routing_key : string) (t : MasterRequestTracker)
  : MasterRequestTracker :=
  mkMaster (objects t) (active t) (pending_cancels t)
    (<[request_id := (gateway_id, routing_key)]> (routing_key_by_request t))
    (<[gateway_id := {[routing_key]} ∪ keys_of gateway_id t]> (routing_keys_by_gateway t))
    (cancel_groups t).

Definition still_in_use (entry : string * string) (m : gmap string (string * string)) : bool :=
  existsb (fun kv => bool_decide (kv.2 = entry)) (map_to_list m).

Definition release_routing_key (request_id : string) (t : MasterRequestTracker) : bool * MasterRequestTracker :=
  match routing_key_by_request t !! request_id with
  | None => (false, t)
  | Some (gateway_id, routing_key) =>
      let by_request := delete request_id (routing_key_by_request t) in
      let by_gateway :=
        if still_in_use (gateway_id, routing_key) by_request then routing_keys_by_gateway t
        else match routing_keys_by_gateway t !! gateway_id with
        | None => routing_keys_by_gateway t
        | Some keys =>
            if bool_decide (keys = ∅) then routing_keys_by_gateway t
            else
              let keys' := keys ∖ {[routing_key]} in
              if bool_decide (keys' = ∅) then delete gateway_id (routing_keys_by_gateway t)
              else <[gateway_id := keys']> (routing_keys_by_gateway t)
        end in
      (true, mkMaster (objects t) (active t) (pending_cancels t) by_request by_gateway (cancel_groups t))
  end.

Definition get_routing_keys_in_flight (gateway_id : string) (t : MasterRequestTracker) : gset string :=
  keys_of gateway_id t.

Definition get_routing_keys_in_flight_globally (t : MasterRequestTracker) : gset string :=
  ⋃ map snd (map_to_list (routing_keys_by_gateway t)).

(** ** Cancel groups *)

Definition with_groups (f : gmap string (gset string) -> gmap string (gset string)) (t : MasterRequestTracker)
  : MasterRequestTracker :=
  mkMaster (objects t) (active t) (pending_cancels t) (routing_key_by_request t) (routing_keys_by_gateway t)
    (f (cancel_groups t)).

Definition register_cancel_group (group_id request_id : string) : MasterRequestTracker -> MasterRequestTracker :=
  with_groups (fun m => <[group_id := {[request_id]} ∪ get_or ∅ (m !! group_id)]> m).

Definition remove_from_cancel_groups (request_id : string) : MasterRequestTracker -> MasterRequestTracker :=
  with_groups (omap (fun members : gset string =>
    let members' := members ∖ {[request_id]} in if bool_decide (members' = ∅) then None else Some members')).

(** ** Tracked requests *)

Definition state_of (oid : nat) (t : MasterRequestTracker) : option RequestState := tr_state <$> objects t !! oid.

Definition set_state (oid : nat) (s : RequestState) (t : MasterRequestTracker) : MasterRequestTracker :=
  mkMaster (alter (fun o => mkTracked (tr_request_id o) (tr_remote_id o) s) oid (objects t)) (active t)
    (pending_cancels t) (routing_key_by_request t) (routing_keys_by_gateway t) (cancel_groups t).

(** What a forward does before its first [await]. *)
Definition register_forward (request_id remote_id : string) (cancel_group : option string)
    (t : MasterRequestTracker) : nat * MasterRequestTracker :=
  let oid := length (objects t) in
  let t := mkMaster (objects t ++ [mkTracked request_id remote_id ACTIVE]) (<[request_id := oid]> (active t))
             (pending_cancels t) (routing_key_by_request t) (routing_keys_by_gateway t) (cancel_groups t) in
  (oid,
   match cancel_group with
   | Some g => if bool_decide (g = ""%string) then t else register_cancel_group g request_id t
   | None => t
   end).

(** Its [finally] clause. *)
Definition end_forward (request_id : string) (t : MasterRequestTracker) : MasterRequestTracker :=
  let t := mkMaster (objects t) (delete request_id (active t)) (pending_cancels t) (routing_key_by_request t)
             (routing_keys_by_gateway t) (cancel_groups t) in
  remove_from_cancel_groups request_id (release_routing_key request_id t).2.

(** ** Cancellation *)

Definition remote_of (oid : nat) (t : MasterRequestTracker) : string := get_or ""%string (tr_remote_id <$> objects t !! oid).
Definition request_of (oid : nat) (t : MasterRequestTracker) : string := get_or ""%string (tr_request_id <$> objects t !! oid).

(** [_try_cancel] up to the sending of the message: [None] when it has to be
    sent, the result when not. *)
Definition try_cancel (oid : nat) (t : MasterRequestTracker) : option bool * MasterRequestTracker :=
  (if String.prefix "cloud-" (remote_of oid t) then Some true else None, set_state oid CANCELLED t).

Inductive SendResult : Type := Sent (success : bool) | SendFailed.

Definition queue_cancel (remote_id request_id : string) (t : MasterRequestTracker) : MasterRequestTracker :=
  mkMaster (objects t) (active t)
    (<[remote_id := get_or [] (pending_cancels t !! remote_id) ++ [request_id]]> (pending_cancels t))
    (routing_key_by_request t) (routing_keys_by_gateway t) (cancel_groups t).

(** The rest of [_try_cancel]. *)
Definition cancel_sent (oid : nat) (r : SendResult) (t : MasterRequestTracker) : bool * MasterRequestTracker :=
  match r with
  | Sent success => (success, t)
  | SendFailed => (false, queue_cancel (remote_of oid t) (request_of oid t) t)
  end.

(** [cancel], up to the sending: the result, or the object to be told of. *)
Definition cancel (request_id : string) (t : MasterRequestTracker) : (bool + nat) * MasterRequestTracker :=
  match active t !! request_id with
  | None => (inl true, t)
  | Some oid =>
      if bool_decide (state_of oid t = Some ACTIVE) then
        let '(r, t') := try_cancel oid t in
        (match r with Some b => inl b | None => inr oid end, t')
      else (inl true, t)
  end.

(** The loop of [cancel_group]: the final count, or the object whose message is
    being sent, the members after it and the count so far. *)
Fixpoint cancel_members (request_ids : list string) (cancelled : nat) (t : MasterRequestTracker)
  : (nat + nat * list string * nat) * MasterRequestTracker :=
  match request_ids with
  | [] => (inl cancelled, t)
  | rid :: rest =>
      match cancel rid t with
      | (inl b, t') => cancel_members rest (if b then S cancelled else cancelled) t'
      | (inr oid, t') => (inr (oid, rest, cancelled), t')
      end
  end.

(** ** Tasks *)

Inductive Task : Type :=
  | Forwarding (streaming : bool) (oid : nat) (request_id : string)
  | Abandoning (oid : nat) (request_id : string)
  | Cancelling (oid : nat)
  | GroupCancelling (oid : nat) (rest : list string) (cancelled : nat)
  | Replaying (remote_id : string) (rest : list string).

Inductive Ending : Type := Return | RaiseException | GeneratorExit.

Inductive Action : Type :=
  | Forward (tid : nat) (streaming : bool) (request_id remote_id : string) (cancel_group : option string)
  | ChunkArrives (tid : nat)
  | ForwardEnds (tid : nat) (e : Ending)
  | Interrupt (tid : nat)
  | Cancel (tid : nat) (request_id : string)
  | CancelGroup (tid : nat) (group_id : string) (order : list string)
  | Reconnect (tid : nat) (remote_id : string)
  | SendDone (tid : nat) (r : SendResult)
  | TrackKey (gateway_id request_id routing_key : string)
  | ReleaseKey (request_id : string).

Inductive Output : Type :=
  | Chunk (oid : nat)
  | Response (oid : nat)
  | CancelMessage (remote_id request_id : string)
  | CancelResult (tid : nat) (success : bool)
  | GroupResult (tid : nat) (cancelled : nat).

Record World := mkWorld { tracker : MasterRequestTracker; tasks : gmap nat Task }.

Definition new_world : World := mkWorld new_master ∅.

Definition message (oid : nat) (t : MasterRequestTracker) : Output := CancelMessage (remote_of oid t) (request_of oid t).

(** Store what is left of the task [tid]. *)
Definition suspend (tid : nat) (task : option Task) (t : MasterRequestTracker) (w : World) : World :=
  mkWorld t (match task with Some k => <[tid := k]> (tasks w) | None => delete tid (tasks w) end).

Definition run_group (tid : nat) (request_ids : list string) (cancelled : nat) (t : MasterRequestTracker)
    (w : World) : list Output * World :=
  match cancel_members request_ids cancelled t with
  | (inl n, t') => ([GroupResult tid n], suspend tid None t' w)
  | (inr (oid, rest, n), t') => ([message oid t'], suspend tid (Some (GroupCancelling oid rest n)) t' w)
  end.

Definition run_replay (tid : nat) (remote_id : string) (request_ids : list string) (w : World) : list Output * World :=
  match request_ids with
  | [] => ([], suspend tid None (tracker w) w)
  | rid :: rest =>
      ([CancelMessage remote_id rid], suspend tid (Some (Replaying remote_id rest)) (tracker w) w)
  end.

(** A task strikes a suspension that does not exist, an id is taken: nothing
    happens. *)
Definition step (a : Action) (w : World) : list Output * World :=
  let t := tracker w in
  match a with
  | Forward tid streaming rid remote group =>
      match tasks w !! tid, active t !! rid with
      | None, None =>
          let '(oid, t') := register_forward rid remote group t in
          ([], suspend tid (Some (Forwarding streaming oid rid)) t' w)
      | _, _ => ([], w)
      end
  | ChunkArrives tid =>
      match tasks w !! tid with
      | Some (Forwarding true oid rid) =>
          if bool_decide (state_of oid t = Some CANCELLED)
          then ([], suspend tid None (end_forward rid (set_state oid COMPLETED t)) w)
          else ([Chunk oid], w)
      | _ => ([], w)
      end
  | ForwardEnds tid e =>
      match tasks w !! tid with
      | Some (Forwarding streaming oid rid) =>
          (match e with Return => if streaming then [] else [Response oid] | _ => [] end,
           suspend tid None
             (end_forward rid (match e with GeneratorExit => t | _ => set_state oid COMPLETED t end)) w)
      | _ => ([], w)
      end
  | Interrupt tid =>
      match tasks w !! tid with
      | Some (Forwarding _ oid rid) =>
          match try_cancel oid t with
          | (Some _, t') => ([], suspend tid None (end_forward rid t') w)
          | (None, t') => ([message oid t'], suspend tid (Some (Abandoning oid rid)) t' w)
          end
      | Some (Abandoning _ rid) => ([], suspend tid None (end_forward rid t) w)
      | Some _ => ([], suspend tid None t w)
      | None => ([], w)
      end
  | Cancel tid rid =>
      match tasks w !! tid with
      | Some _ => ([], w)
      | None =>
          match cancel rid t with
          | (inl b, t') => ([CancelResult tid b], suspend tid None t' w)
          | (inr oid, t') => ([message oid t'], suspend tid (Some (Cancelling oid)) t' w)
          end
      end
  | CancelGroup tid gid order =>
      match tasks w !! tid with
      | Some _ => ([], w)
      | None =>
          let members := get_or ∅ (cancel_groups t !! gid) in
          if bool_decide (NoDup order /\ (list_to_set order : gset string) = members)
          then run_group tid order 0 (with_groups (delete gid) t) w
          else ([], w)
      end
  | Reconnect tid remote =>
      match tasks w !! tid with
      | Some _ => ([], w)
      | None =>
          let pending := get_or [] (pending_cancels t !! remote) in
          run_replay tid remote pending
            (mkWorld (mkMaster (objects t) (active t) (delete remote (pending_cancels t)) (routing_key_by_request t)
                        (routing_keys_by_gateway t) (cancel_groups t)) (tasks w))
      end
  | SendDone tid r =>
      match tasks w !! tid with
      | Some (Abandoning oid rid) => ([], suspend tid None (end_forward rid (cancel_sent oid r t).2) w)
      | Some (Cancelling oid) =>
          let '(b, t') := cancel_sent oid r t in ([CancelResult tid b], suspend tid None t' w)
      | Some (GroupCancelling oid rest n) =>
          let '(b, t') := cancel_sent oid r t in run_group tid rest (if b then S n else n) t' w
      | Some (Replaying remote rest) => run_replay tid remote rest w
      | _ => ([], w)
      end
  | TrackKey g rid rk => ([], mkWorld (track_routing_key g rid rk t) (tasks w))
  | ReleaseKey rid => ([], mkWorld (release_routing_key rid t).2 (tasks w))
  end.

Fixpoint play (acts : list Action) (w : World) : World :=
  match acts with [] => w | a :: acts' => play acts' (step a w).2 end.

Fixpoint outputs (acts : list Action) (w : World) : list Output :=
  match acts with [] => [] | a :: acts' => (step a w).1 ++ outputs acts' (step a w).2 end.

#[local] Arguments end_forward : simpl never.
#[local] Arguments set_state : simpl never.

(** ** Routing keys: facts *)

(** The index by gateway covers the requests; exactly, when it has no key more. *)
Definition Covers (t : MasterRequestTracker) : Prop :=
  forall rid g rk, routing_key_by_request t !! rid = Some (g, rk) -> rk ∈ keys_of g t.

Definition Exact (t : MasterRequestTracker) : Prop :=
  forall g rk, rk ∈ keys_of g t -> exists rid, routing_key_by_request t !! rid = Some (g, rk).

Lemma keys_of_track g rid rk t g' :
  keys_of g' (track_routing_key g rid rk t) = if decide (g' = g) then {[rk]} ∪ keys_of g t else keys_of g' t.
Proof.
  unfold keys_of at 1. simpl. case_decide; subst; [by rewrite lookup_insert_eq | by rewrite lookup_insert_ne].
Qed.

Lemma still_in_use_true entry m :
  still_in_use entry m = true <-> exists rid, m !! rid = Some entry.
Proof.
  unfold still_in_use. rewrite existsb_exists. split.
  - intros ([rid e] & Hin & He). to_prop. simpl in He. subst. exists rid.
    apply list_elem_of_In in Hin. by apply elem_of_map_to_list in Hin.
  - intros [rid H]. exists (rid, entry). split; [|by apply bool_decide_eq_true].
    apply list_elem_of_In. by apply elem_of_map_to_list.
Qed.

Lemma keys_of_release rid t g :
  keys_of g (release_routing_key rid t).2 =
  match routing_key_by_request t !! rid with
  | Some (g', rk) =>
      if bool_decide (g = g') && negb (still_in_use (g', rk) (delete rid (routing_key_by_request t)))
      then keys_of g t ∖ {[rk]} else keys_of g t
  | None => keys_of g t
  end.
Proof.
  unfold release_routing_key. destruct (routing_key_by_request t !! rid) as [[g' rk]|]; [|done].
  unfold keys_of. simpl. destruct (still_in_use _ _); simpl; [by rewrite andb_false_r|]. rewrite andb_true_r.
  destruct (decide (g = g')) as [->|Hg]; [rewrite (bool_decide_true (g' = g')) by done |
    rewrite (bool_decide_false (g = g')) by done].
  - destruct (routing_keys_by_gateway t !! g') as [keys|] eqn:E; simpl; [|rewrite E; simpl; set_solver].
    case_bool_decide as H1; [rewrite E; simpl; set_solver|].
    case_bool_decide as H2; [rewrite lookup_delete_eq; simpl; set_solver | by rewrite lookup_insert_eq].
  - destruct (routing_keys_by_gateway t !! g') as [keys|] eqn:E; [|done]. repeat case_bool_decide; try done.
    + by rewrite lookup_delete_ne.
    + by rewrite lookup_insert_ne.
Qed.

Lemma by_request_release rid t :
  routing_key_by_request (release_routing_key rid t).2 = delete rid (routing_key_by_request t).
Proof.
  unfold release_routing_key. destruct (routing_key_by_request t !! rid) as [[g rk]|] eqn:E; simpl; [done|].
  by rewrite delete_id.
Qed.

Lemma Covers_track g rid rk t : Covers t -> Covers (track_routing_key g rid rk t).
Proof.
  intros H rid' g' rk'. rewrite keys_of_track. simpl. intros [[_ [= <- <-]]|[_ E]]%lookup_insert_Some.
  - rewrite decide_True by done. set_solver.
  - apply H in E. case_decide; subst; set_solver.
Qed.

Lemma Covers_release rid t : Covers t -> Covers (release_routing_key rid t).2.
Proof.
  intros H rid' g rk. rewrite by_request_release, keys_of_release. intros Hd.
  pose proof Hd as [Hne Hl]%lookup_delete_Some. apply H in Hl as Hin.
  destruct (routing_key_by_request t !! rid) as [[g' rk']|] eqn:E; [|done].
  destruct (bool_decide (g = g')) eqn:Eg; simpl; [|done]. to_prop. subst g'.
  destruct (still_in_use (g, rk') (delete rid (routing_key_by_request t))) eqn:Es; simpl; [done|].
  apply not_true_iff_false in Es. rewrite still_in_use_true in Es.
  apply elem_of_difference. split; [done|]. intros ->%elem_of_singleton. destruct Es. eauto.
Qed.

Lemma Exact_track g rid rk t :
  routing_key_by_request t !! rid = None \/ routing_key_by_request t !! rid = Some (g, rk) ->
  Exact t -> Exact (track_routing_key g rid rk t).
Proof.
  intros Hd H g' rk'. rewrite keys_of_track. simpl. intros Hin.
  assert (Hc : (g' = g /\ rk' = rk) \/ rk' ∈ keys_of g' t) by (case_decide; set_solver).
  destruct Hc as [[-> ->]|[rid' Hr]%H]; [exists rid; by rewrite lookup_insert_eq|].
  destruct (decide (rid' = rid)) as [->|]; [|exists rid'; by rewrite lookup_insert_ne].
  exists rid. rewrite lookup_insert_eq. destruct Hd; simplify_eq; congruence.
Qed.

Lemma Exact_release rid t : Exact t -> Exact (release_routing_key rid t).2.
Proof.
  intros H g rk. rewrite keys_of_release, by_request_release. intros Hin.
  assert (Hin' : rk ∈ keys_of g t) by (repeat case_match; set_solver).
  destruct (H g rk Hin') as [rid' Hr]. destruct (decide (rid' = rid)) as [->|];
    [|exists rid'; by rewrite lookup_delete_ne].
  rewrite Hr, bool_decide_true in Hin by done. simpl in Hin.
  destruct (still_in_use (g, rk) _) eqn:Es; simpl in Hin; [by apply still_in_use_true in Es | set_solver].
Qed.

Definition keymaps (t : MasterRequestTracker) := (routing_key_by_request t, routing_keys_by_gateway t).

Lemma Covers_keymaps t t' : keymaps t' = keymaps t -> Covers t -> Covers t'.
Proof. intros [= E1 E2]. unfold Covers, keys_of. by rewrite E1, E2. Qed.

Lemma Exact_keymaps t t' : keymaps t' = keymaps t -> Exact t -> Exact t'.
Proof. intros [= E1 E2]. unfold Exact, keys_of. by rewrite E1, E2. Qed.

Lemma keymaps_release rid t t' :
  keymaps t' = keymaps t -> keymaps (release_routing_key rid t').2 = keymaps (release_routing_key rid t).2.
Proof.
  intros [= E1 E2]. unfold release_routing_key. rewrite E1. destruct (routing_key_by_request t !! rid) as [[g rk]|];
    unfold keymaps; simpl; by rewrite ?E1, ?E2.
Qed.

Lemma keymaps_end rid t : keymaps (end_forward rid t) = keymaps (release_routing_key rid t).2.
Proof.
  exact (keymaps_release rid t (mkMaster (objects t) (delete rid (active t)) (pending_cancels t)
    (routing_key_by_request t) (routing_keys_by_gateway t) (cancel_groups t)) eq_refl).
Qed.

Lemma try_cancel_tracker oid t : (try_cancel oid t).2 = set_state oid CANCELLED t.
Proof. done. Qed.

(** [cancel] marks at most one object. *)
Lemma cancel_tracker rid t :
  (cancel rid t).2 = t \/ exists oid, active t !! rid = Some oid /\ (cancel rid t).2 = set_state oid CANCELLED t.
Proof. unfold cancel. destruct (active t !! rid) as [oid|]; [|auto]. case_bool_decide; simpl; eauto. Qed.

(** A property that marking an object as cancelled keeps, cancellations keep. *)
Lemma cancel_members_ind (P : MasterRequestTracker -> Prop) rids n t :
  (forall oid t, P t -> P (set_state oid CANCELLED t)) -> P t -> P (cancel_members rids n t).2.
Proof.
  intros HP. revert n t. induction rids as [|rid rids IH]; intros n t Ht; simpl; [done|].
  assert (Hc : P (cancel rid t).2) by (destruct (cancel_tracker rid t) as [->|(oid & _ & ->)]; auto).
  destruct (cancel rid t) as [[b|oid] t']; simpl in *; auto.
Qed.

Lemma run_group_tracker (P : MasterRequestTracker -> Prop) tid rids n t w :
  (forall oid t, P t -> P (set_state oid CANCELLED t)) -> P t -> P (tracker (run_group tid rids n t w).2).
Proof.
  intros HP Ht. pose proof (cancel_members_ind P rids n t HP Ht) as H. unfold run_group.
  by destruct (cancel_members rids n t) as [[m|[[oid rest] m]] t'].
Qed.

Lemma run_replay_tracker tid remote rids w : tracker (run_replay tid remote rids w).2 = tracker w.
Proof. by destruct rids. Qed.

Lemma cancel_sent_keymaps oid r t : keymaps (cancel_sent oid r t).2 = keymaps t.
Proof. by destruct r. Qed.

Lemma register_keymaps rid remote g t : keymaps (register_forward rid remote g t).2 = keymaps t.
Proof. unfold register_forward. destruct g as [g|]; simpl; [by case_bool_decide | done]. Qed.

(** Routing keys change only by being tracked and released. *)
Lemma step_keymaps a w :
  let t := tracker w in let t' := tracker (step a w).2 in
  keymaps t' = keymaps t \/ (exists rid, keymaps t' = keymaps (release_routing_key rid t).2) \/
  (exists g rid rk, a = TrackKey g rid rk /\ keymaps t' = keymaps (track_routing_key g rid rk t)).
Proof.
  destruct a as [tid streaming rid remote g|tid|tid e|tid|tid rid|tid gid order|tid remote|tid r|g rid rk|rid];
    simpl; try (right; right; by eauto 10); try (right; left; by eauto).
  - pose proof (register_keymaps rid remote g (tracker w)) as H.
    destruct (register_forward rid remote g (tracker w)). repeat case_goal; auto.
  - repeat case_goal; auto. right. left. exists request_id. simpl. rewrite keymaps_end. by apply keymaps_release.
  - repeat case_goal; auto; right; left; exists request_id; simpl; rewrite keymaps_end; by apply keymaps_release.
  - repeat case_goal; simpl; auto; right; left; exists request_id; rewrite keymaps_end; by apply keymaps_release.
  - destruct (tasks w !! tid); [auto|]. left. destruct (cancel_tracker rid (tracker w)) as [E|(oid & _ & E)];
      destruct (cancel rid (tracker w)) as [[b|oid'] t']; simpl in *; by subst.
  - destruct (tasks w !! tid); [auto|]. case_goal; [|auto]. left. apply run_group_tracker; done.
  - destruct (tasks w !! tid); [auto|]. left. by rewrite run_replay_tracker.
  - destruct (tasks w !! tid) as [[| oid rid|oid|oid rest n|remote rest]|]; auto.
    + right. left. exists rid. simpl. rewrite keymaps_end. apply keymaps_release, cancel_sent_keymaps.
    + left. pose proof (cancel_sent_keymaps oid r (tracker w)). by destruct (cancel_sent oid r (tracker w)).
    + left. pose proof (cancel_sent_keymaps oid r (tracker w)) as H. destruct (cancel_sent oid r (tracker w)) as [b t'].
      apply run_group_tracker; [|done]. intros o t Ht. exact Ht.
    + left. by rewrite run_replay_tracker.
Qed.

(** ** Invariant *)

(** The request a task is forwarding, if any. *)
Definition owns (k : Task) : option (nat * string) :=
  match k with Forwarding _ oid rid | Abandoning oid rid => Some (oid, rid) | _ => None end.

Definition owner (w : World) (tid : nat) : option (nat * string) := tasks w !! tid ≫= owns.

Record Inv (w : World) : Prop := {
  inv_active : forall rid oid, active (tracker w) !! rid = Some oid <-> exists tid, owner w tid = Some (oid, rid);
  inv_oid : forall tid1 tid2 oid r1 r2,
    owner w tid1 = Some (oid, r1) -> owner w tid2 = Some (oid, r2) -> tid1 = tid2;
  inv_object : forall tid oid rid, owner w tid = Some (oid, rid) ->
    exists o, objects (tracker w) !! oid = Some o /\ tr_request_id o = rid;
  inv_state : forall tid s oid rid, tasks w !! tid = Some (Forwarding s oid rid) ->
    state_of oid (tracker w) = Some ACTIVE \/ state_of oid (tracker w) = Some CANCELLED;
  inv_groups : forall gid ms, cancel_groups (tracker w) !! gid = Some ms ->
    ms <> ∅ /\ forall rid, rid ∈ ms -> is_Some (active (tracker w) !! rid)
}.

(** The objects of [t'] are those of [t], some of them marked as cancelled. *)
Definition Marked (t t' : MasterRequestTracker) : Prop :=
  length (objects t') = length (objects t) /\
  forall oid o, objects t !! oid = Some o ->
    exists o', objects t' !! oid = Some o' /\ tr_request_id o' = tr_request_id o /\
               (tr_state o' = tr_state o \/ tr_state o' = CANCELLED).

Lemma Marked_objects t t' : objects t' = objects t -> Marked t t'.
Proof. intros E. unfold Marked. rewrite E. split; eauto. Qed.

Lemma Marked_refl t : Marked t t.
Proof. by apply Marked_objects. Qed.

Lemma Marked_trans t1 t2 t3 : Marked t1 t2 -> Marked t2 t3 -> Marked t1 t3.
Proof.
  intros [L1 H1] [L2 H2]. split; [congruence|]. intros oid o (o' & E1 & R1 & S1)%H1.
  destruct (H2 _ _ E1) as (o'' & E2 & R2 & S2). exists o''. split; [done|]. split; [congruence|].
  destruct S2 as [->| ->]; auto.
Qed.

Lemma Marked_set oid t : Marked t (set_state oid CANCELLED t).
Proof.
  split; [apply length_alter|]. intros oid' o E. unfold set_state. simpl. destruct (decide (oid' = oid)) as [->|].
  - rewrite list_lookup_alter_eq, E. simpl. eauto.
  - rewrite list_lookup_alter_ne by done. eauto.
Qed.

Lemma state_marked t t' oid :
  Marked t t' -> oid < length (objects t) ->
  state_of oid t' = state_of oid t \/ state_of oid t' = Some CANCELLED.
Proof.
  intros [_ H] Hl. apply lookup_lt_is_Some in Hl as [o E]. destruct (H oid o E) as (o' & E' & _ & [Hs|Hs]);
    unfold state_of; rewrite E', E; simpl; rewrite Hs; auto.
Qed.

Lemma owner_lt w tid oid rid : Inv w -> owner w tid = Some (oid, rid) -> oid < length (objects (tracker w)).
Proof. intros Hi (o & E & _)%(inv_object w Hi). apply lookup_lt_is_Some. eauto. Qed.

Lemma owner_forwarding w tid s oid rid : tasks w !! tid = Some (Forwarding s oid rid) -> owner w tid = Some (oid, rid).
Proof. unfold owner. by intros ->. Qed.

(** Steps that neither begin nor end a forward. *)
Lemma Inv_marked w w' :
  Inv w -> Marked (tracker w) (tracker w') -> active (tracker w') = active (tracker w) ->
  (forall gid ms, cancel_groups (tracker w') !! gid = Some ms -> cancel_groups (tracker w) !! gid = Some ms) ->
  (forall tid, owner w' tid = owner w tid) ->
  (forall tid s oid rid, tasks w' !! tid = Some (Forwarding s oid rid) -> tasks w !! tid = Some (Forwarding s oid rid)) ->
  Inv w'.
Proof.
  intros Hi Hm Ha Hg Ho Hf. constructor.
  - intros rid oid. rewrite Ha, (inv_active w Hi). by setoid_rewrite Ho.
  - intros tid1 tid2 oid r1 r2. rewrite !Ho. apply (inv_oid w Hi).
  - intros tid oid rid. rewrite Ho. intros (o & E & Hr)%(inv_object w Hi).
    destruct (proj2 Hm oid o E) as (o' & E' & Hr' & _). exists o'. split; [done|congruence].
  - intros tid s oid rid E%Hf. pose proof (owner_lt w tid oid rid Hi (owner_forwarding w tid s oid rid E)) as Hl.
    destruct (state_marked _ _ oid Hm Hl) as [->| ->]; [by eapply inv_state | auto].
  - intros gid ms E%Hg. rewrite Ha. by eapply inv_groups.
Qed.

Lemma owner_suspend tid task t w tid' :
  owner (suspend tid task t w) tid' = if decide (tid' = tid) then task ≫= owns else owner w tid'.
Proof.
  unfold owner, suspend. simpl. destruct task as [k|]; case_decide; subst; simpl;
    by rewrite ?lookup_insert_eq, ?lookup_insert_ne, ?lookup_delete_eq, ?lookup_delete_ne.
Qed.

Lemma forwarding_suspend tid task t w tid' s oid rid :
  tasks (suspend tid task t w) !! tid' = Some (Forwarding s oid rid) ->
  (tid' = tid /\ task = Some (Forwarding s oid rid)) \/
  (tid' <> tid /\ tasks w !! tid' = Some (Forwarding s oid rid)).
Proof.
  unfold suspend. simpl. destruct task; simpl.
  - intros [[-> ->]|[? ?]]%lookup_insert_Some; auto.
  - intros [? ?]%lookup_delete_Some; auto.
Qed.

(** The same for the tasks that are not forwards. *)
Lemma Inv_suspend w tid task t :
  Inv w -> Marked (tracker w) t -> active t = active (tracker w) ->
  (forall gid ms, cancel_groups t !! gid = Some ms -> cancel_groups (tracker w) !! gid = Some ms) ->
  owner w tid = task ≫= owns ->
  (forall s oid rid, task <> Some (Forwarding s oid rid)) ->
  Inv (suspend tid task t w).
Proof.
  intros Hi Hm Ha Hg Ho Hn. apply (Inv_marked w); try done.
  - intros tid'. rewrite owner_suspend. case_decide; subst; congruence.
  - intros tid' s oid rid [[-> ?]|[_ ?]]%forwarding_suspend; [by destruct (Hn s oid rid) | done].
Qed.

Lemma Inv_begin w tid s rid remote group t oid :
  Inv w -> tasks w !! tid = None -> active (tracker w) !! rid = None ->
  register_forward rid remote group (tracker w) = (oid, t) ->
  Inv (suspend tid (Some (Forwarding s oid rid)) t w).
Proof.
  intros Hi Ht Hr Hb.
  assert (H : oid = length (objects (tracker w)) /\ objects t = objects (tracker w) ++ [mkTracked rid remote ACTIVE] /\
    active t = <[rid := oid]> (active (tracker w)) /\
    forall gid ms, cancel_groups t !! gid = Some ms ->
      ms <> ∅ /\ forall r, r ∈ ms -> r = rid \/ exists ms', cancel_groups (tracker w) !! gid = Some ms' /\ r ∈ ms').
  { unfold register_forward in Hb. injection Hb as <- <-.
    assert (Hold : forall gid ms, cancel_groups (tracker w) !! gid = Some ms ->
      ms <> ∅ /\ forall r, r ∈ ms -> r = rid \/ exists ms', cancel_groups (tracker w) !! gid = Some ms' /\ r ∈ ms').
    { intros gid ms E. split; [by eapply (inv_groups w Hi) | eauto]. }
    destruct group as [g|]; [case_bool_decide|]; (split; [done|split; [done|split; [done|]]]); try exact Hold.
    simpl. intros gid ms [[<- <-]|[_ E]]%lookup_insert_Some; [|by apply Hold]. split; [set_solver|].
    intros r [->%elem_of_singleton|Hin]%elem_of_union; [auto|].
    destruct (cancel_groups (tracker w) !! g) as [ms'|] eqn:Eg; simpl in Hin; [eauto | set_solver]. }
  destruct H as (Hoid & Hobj & Ha & Hg).
  assert (Hfresh : forall tid' r, owner w tid' = Some (oid, r) -> False)
    by (intros tid' r E; apply (owner_lt w tid' _ _ Hi) in E; lia).
  assert (How : owner w tid = None) by (unfold owner; by rewrite Ht).
  constructor.
  - intros r o. simpl. rewrite Ha. destruct (decide (r = rid)) as [->|Hne].
    + rewrite lookup_insert_eq. split.
      * intros [= <-]. exists tid. rewrite owner_suspend, decide_True by done. done.
      * intros [tid' E]. rewrite owner_suspend in E. case_decide; [by simplify_eq/=|].
        assert (active (tracker w) !! rid = Some o) by (apply (inv_active w Hi); eauto). congruence.
    + rewrite lookup_insert_ne by done. rewrite (inv_active w Hi). split; intros [tid' E]; exists tid'.
      * rewrite owner_suspend. case_decide; subst; congruence.
      * rewrite owner_suspend in E. case_decide; simplify_eq/=; done.
  - intros tid1 tid2 o r1 r2. rewrite !owner_suspend. repeat case_decide; subst; simpl; try done.
    + intros [= <- <-] E. by apply Hfresh in E.
    + intros E [= <- <-]. by apply Hfresh in E.
    + apply (inv_oid w Hi).
  - intros tid' o r. rewrite owner_suspend. simpl. rewrite Hobj. case_decide; simpl.
    + intros [= <- <-]. eexists. split; [by apply list_lookup_middle | done].
    + intros (ob & E & Hreq)%(inv_object w Hi). exists ob. split; [by apply lookup_app_l_Some | done].
  - intros tid' s' o r [[-> [= -> -> ->]]|[_ E]]%forwarding_suspend; unfold state_of; simpl; rewrite Hobj.
    + left. by rewrite list_lookup_middle.
    + destruct (inv_object w Hi tid' o r (owner_forwarding _ _ _ _ _ E)) as (ob & Eo & _).
      pose proof (inv_state w Hi tid' s' o r E) as Hs. unfold state_of in Hs. rewrite Eo in Hs.
      by rewrite (lookup_app_l_Some _ _ _ _ Eo).
  - intros gid ms [Hne Hin]%Hg. split; [done|]. simpl. rewrite Ha. intros r [->|(ms' & E & Hr')]%Hin.
    + rewrite lookup_insert_eq. eauto.
    + destruct (decide (r = rid)) as [->|]; [rewrite lookup_insert_eq; eauto|]. rewrite lookup_insert_ne by done.
      by eapply (inv_groups w Hi).
Qed.

(** The objects of [t'] are those of [t], but for the state of [oid]. *)
Definition Same_but (oid : nat) (t t' : MasterRequestTracker) : Prop :=
  active t' = active t /\ cancel_groups t' = cancel_groups t /\
  (forall o, o <> oid -> objects t' !! o = objects t !! o) /\
  (forall o, objects t !! oid = Some o -> exists o', objects t' !! oid = Some o' /\ tr_request_id o' = tr_request_id o).

Lemma Same_but_set oid s t : Same_but oid t (set_state oid s t).
Proof.
  split; [done|]. split; [done|]. unfold set_state. split; simpl.
  - intros o Hne. by rewrite list_lookup_alter_ne.
  - intros o E. rewrite list_lookup_alter_eq, E. simpl. eauto.
Qed.

Lemma Same_but_sent oid r t : Same_but oid t (cancel_sent oid r t).2.
Proof. destruct r; simpl; repeat split; eauto. Qed.

Lemma Same_but_refl oid t : Same_but oid t t.
Proof. repeat split; eauto. Qed.

Lemma groups_end rid t gid ms :
  cancel_groups (end_forward rid t) !! gid = Some ms ->
  ms <> ∅ /\ exists ms0, cancel_groups t !! gid = Some ms0 /\ ms = ms0 ∖ {[rid]}.
Proof.
  assert (E : cancel_groups (end_forward rid t) = omap (fun members : gset string =>
    let members' := members ∖ {[rid]} in if bool_decide (members' = ∅) then None else Some members') (cancel_groups t)).
  { unfold end_forward, release_routing_key. simpl. by destruct (routing_key_by_request t !! rid) as [[g rk]|]. }
  rewrite E, lookup_omap. destruct (cancel_groups t !! gid) as [ms0|]; simpl; [|done].
  case_bool_decide; [done|]. intros [= <-]. eauto.
Qed.

Lemma active_end rid t : active (end_forward rid t) = delete rid (active t).
Proof. unfold end_forward, release_routing_key. simpl. by destruct (routing_key_by_request t !! rid) as [[g rk]|]. Qed.

Lemma objects_end rid t : objects (end_forward rid t) = objects t.
Proof. unfold end_forward, release_routing_key. simpl. by destruct (routing_key_by_request t !! rid) as [[g rk]|]. Qed.

Lemma Inv_end w tid oid rid t :
  Inv w -> owner w tid = Some (oid, rid) -> Same_but oid (tracker w) t ->
  Inv (suspend tid None (end_forward rid t) w).
Proof.
  intros Hi Ho (Ha & Hg & Hobj & Hoid).
  assert (Hother : forall tid' o r, tid' <> tid -> owner w tid' = Some (o, r) -> o <> oid).
  { intros tid' o r Hne E ->. apply Hne. by eapply (inv_oid w Hi). }
  constructor.
  - intros r o. cbn [suspend tracker]. rewrite active_end, Ha, lookup_delete_Some, (inv_active w Hi). split.
    + intros [Hne [tid' E]]. exists tid'. rewrite owner_suspend. case_decide; [subst; congruence | done].
    + intros [tid' E]. rewrite owner_suspend in E. case_decide as Hd; [done|]. split; [|eauto].
      intros <-. apply (Hother tid' o rid Hd E).
      assert (E1 : active (tracker w) !! rid = Some o) by (apply (inv_active w Hi); eauto).
      assert (E2 : active (tracker w) !! rid = Some oid) by (apply (inv_active w Hi); eauto). congruence.
  - intros tid1 tid2 o r1 r2. rewrite !owner_suspend. repeat case_decide; try done. apply (inv_oid w Hi).
  - intros tid' o r. rewrite owner_suspend. case_decide as Hd; [done|]. intros E. cbn [suspend tracker]. rewrite objects_end.
    rewrite Hobj by (by eapply Hother). by eapply (inv_object w Hi).
  - intros tid' s o r [[_ ?]|[Hd E]]%forwarding_suspend; [done|]. unfold state_of. cbn [suspend tracker]. rewrite objects_end.
    rewrite Hobj by (eapply Hother; [done | by eapply owner_forwarding]). by eapply (inv_state w Hi).
  - intros gid ms. cbn [suspend tracker]. intros (Hne & ms0 & E & ->)%groups_end. split; [done|]. rewrite active_end, Ha.
    intros r [Hr Hn]%elem_of_difference. rewrite Hg in E. destruct (inv_groups w Hi gid ms0 E) as [_ Hin].
    destruct (Hin r Hr) as [o Er]. exists o. apply lookup_delete_Some. split; [set_solver | done].
Qed.

Lemma Inv_new : Inv new_world.
Proof.
  constructor; unfold owner; simpl.
  - intros rid oid. rewrite lookup_empty. split; [done|]. intros [tid E]. by rewrite lookup_empty in E.
  - intros ? ? ? ? ? E. by rewrite lookup_empty in E.
  - intros ? ? ? E. by rewrite lookup_empty in E.
  - intros ? ? ? ? E. by rewrite lookup_empty in E.
  - intros ? ? E. by rewrite lookup_empty in E.
Qed.

(** A property of the tracker that only marks objects. *)
Definition Marks (t t' : MasterRequestTracker) : Prop :=
  Marked t t' /\ active t' = active t /\ cancel_groups t' = cancel_groups t.

Lemma Marks_set oid t t' : Marks t t' -> Marks t (set_state oid CANCELLED t').
Proof. intros (Hm & Ha & Hg). split; [|done]. eapply Marked_trans; [exact Hm | apply Marked_set]. Qed.

Lemma Marks_refl t : Marks t t.
Proof. split; [apply Marked_refl | done]. Qed.

Lemma Marks_sent oid r t : Marks t (cancel_sent oid r t).2.
Proof. destruct r; simpl; [apply Marks_refl|]. split; [split; simpl; eauto | done]. Qed.

Lemma Inv_group w tid rids n t :
  Inv w -> owner w tid = None -> Marked (tracker w) t -> active t = active (tracker w) ->
  (forall gid ms, cancel_groups t !! gid = Some ms -> cancel_groups (tracker w) !! gid = Some ms) ->
  Inv (run_group tid rids n t w).2.
Proof.
  intros Hi Ho Hm Ha Hg. pose proof (cancel_members_ind (Marks t) rids n t (fun oid => Marks_set oid t) (Marks_refl t)) as H.
  unfold run_group. destruct (cancel_members rids n t) as [[m|[[oid rest] m]] t']; simpl in *;
    destruct H as (Hm' & Ha' & Hg').
  all: apply Inv_suspend; try done; [by eapply Marked_trans | congruence | intros gid ms; rewrite Hg'; apply Hg].
Qed.

Lemma Inv_step a w : Inv w -> Inv (step a w).2.
Proof.
  intros Hi. assert (Hsame : forall t, Marks (tracker w) t -> Inv (mkWorld t (tasks w))).
  { intros t (Hm & Ha & Hg). apply (Inv_marked w); try done. simpl. by rewrite Hg. }
  assert (Hnone : forall tid, tasks w !! tid = None -> owner w tid = None) by (intros tid E; unfold owner; by rewrite E).
  assert (Hown : forall tid k, tasks w !! tid = Some k -> owner w tid = owns k) by (intros tid k E; unfold owner; by rewrite E).
  destruct a as [tid s rid remote g|tid|tid e|tid|tid rid|tid gid order|tid remote|tid r|g rid rk|rid]; simpl.
  - destruct (tasks w !! tid) eqn:Et; [done|]. destruct (active (tracker w) !! rid) eqn:Ea; [done|].
    destruct (register_forward rid remote g (tracker w)) as [oid t] eqn:Eb. by eapply Inv_begin.
  - destruct (tasks w !! tid) as [[[] oid rid| | | |]|] eqn:Et; try done. apply Hown in Et.
    case_bool_decide; [|done]. by eapply Inv_end, Same_but_set.
  - destruct (tasks w !! tid) as [[s oid rid| | | |]|] eqn:Et; try done. apply Hown in Et.
    eapply Inv_end; [done..|]. destruct e; apply Same_but_set || apply Same_but_refl.
  - destruct (tasks w !! tid) as [[s oid rid|oid rid|oid|oid rest n|remote rest]|] eqn:Et; try done; apply Hown in Et.
    + destruct (try_cancel oid (tracker w)) as [[b|] t] eqn:Ec; unfold try_cancel in Ec; case_hyp Ec; simplify_eq.
      * by eapply Inv_end, Same_but_set.
      * by apply Inv_suspend; [|apply Marked_set|..].
    + by eapply Inv_end, Same_but_refl.
    + by apply Inv_suspend; [|by apply Marked_objects|..].
    + by apply Inv_suspend; [|by apply Marked_objects|..].
    + by apply Inv_suspend; [|by apply Marked_objects|..].
  - destruct (tasks w !! tid) eqn:Et; [done|]. apply Hnone in Et.
    assert (Hm : Marks (tracker w) (cancel rid (tracker w)).2).
    { destruct (cancel_tracker rid (tracker w)) as [->|(oid & _ & ->)]; [|apply Marks_set]; apply Marks_refl. }
    destruct (cancel rid (tracker w)) as [[b|oid] t]; destruct Hm as (Hm & Ha & Hg);
      apply Inv_suspend; try done; simpl in *; by rewrite Hg.
  - destruct (tasks w !! tid) eqn:Et; [done|]. apply Hnone in Et. case_bool_decide; [|done].
    apply Inv_group; try done; [by apply Marked_objects|]. simpl. by intros gid' ms [_ ?]%lookup_delete_Some.
  - destruct (tasks w !! tid) eqn:Et; [done|]. apply Hnone in Et.
    set (w1 := mkWorld _ _). assert (Hi1 : Inv w1) by (apply Hsame; split; [by apply Marked_objects | done]).
    unfold run_replay. destruct (get_or [] _); apply Inv_suspend; try done; by apply Marked_objects.
  - destruct (tasks w !! tid) as [[s oid rid|oid rid|oid|oid rest n|remote rest]|] eqn:Et; try done; apply Hown in Et.
    + by eapply Inv_end, Same_but_sent.
    + destruct (Marks_sent oid r (tracker w)) as (Hm & Ha & Hg). destruct (cancel_sent oid r (tracker w)) as [b t].
      apply Inv_suspend; try done. simpl in *. by rewrite Hg.
    + destruct (Marks_sent oid r (tracker w)) as (Hm & Ha & Hg). destruct (cancel_sent oid r (tracker w)) as [b t].
      apply Inv_group; try done. simpl in *. by rewrite Hg.
    + destruct rest; apply Inv_suspend; try done; by apply Marked_objects.
  - apply Hsame. split; [by apply Marked_objects | done].
  - apply Hsame. unfold release_routing_key. destruct (routing_key_by_request (tracker w) !! rid) as [[g rk]|];
      (split; [by apply Marked_objects | done]).
Qed.

Lemma Inv_play acts w : Inv w -> Inv (play acts w).
Proof. revert w. induction acts as [|a acts IH]; intros w H; simpl; [done|]. apply IH. by apply Inv_step. Qed.

(** ** Requests that yield no more *)

(** No object goes back to [ACTIVE]. *)
Definition Later (t t' : MasterRequestTracker) : Prop :=
  forall oid, oid < length (objects t) ->
    oid < length (objects t') /\
    (state_of oid t' = state_of oid t \/ state_of oid t' = Some CANCELLED \/ state_of oid t' = Some COMPLETED).

Lemma Later_marked t t' : Marked t t' -> Later t t'.
Proof.
  intros H oid Hl. pose proof (proj1 H) as E. rewrite E. split; [done|].
  destruct (state_marked t t' oid H Hl); auto.
Qed.

Lemma Later_objects t t' t'' : objects t'' = objects t' -> Later t t' -> Later t t''.
Proof. intros E H oid Hl. unfold state_of. rewrite E. by apply H. Qed.

Lemma Later_completed oid t : Later t (set_state oid COMPLETED t).
Proof.
  intros oid' Hl. split; [by unfold set_state; simpl; rewrite length_alter|]. unfold state_of, set_state. simpl.
  destruct (decide (oid' = oid)) as [->|]; [|rewrite list_lookup_alter_ne by done; auto].
  rewrite list_lookup_alter_eq. apply lookup_lt_is_Some in Hl as [o ->]. simpl. auto.
Qed.

Lemma Later_end oid rid (s : RequestState) t :
  s = CANCELLED \/ s = COMPLETED -> Later t (end_forward rid (set_state oid s t)).
Proof.
  intros [->| ->]; (eapply Later_objects; [apply objects_end|]); [apply Later_marked, Marked_set | apply Later_completed].
Qed.

Lemma run_group_marked tid rids n t w : Marked t (tracker (run_group tid rids n t w).2).
Proof.
  apply (run_group_tracker (Marked t)); [|apply Marked_refl].
  intros oid t' H. eapply Marked_trans; [exact H | apply Marked_set].
Qed.

Lemma objects_sent oid r t : objects (cancel_sent oid r t).2 = objects t.
Proof. by destruct r. Qed.

Lemma step_later a w : Later (tracker w) (tracker (step a w).2).
Proof.
  assert (Hrefl : forall t, objects t = objects (tracker w) -> Later (tracker w) t).
  { intros t E. by apply Later_marked, Marked_objects. }
  destruct a as [tid s rid remote g|tid|tid e|tid|tid rid|tid gid order|tid remote|tid r|g rid rk|rid]; simpl.
  - destruct (tasks w !! tid); [by apply Hrefl|]. destruct (active (tracker w) !! rid); [by apply Hrefl|].
    unfold register_forward. simpl. intros oid Hl.
    assert (E : forall t', objects t' = objects (tracker w) ++ [mkTracked rid remote ACTIVE] ->
      oid < length (objects t') /\ state_of oid t' = state_of oid (tracker w)).
    { intros t' E. unfold state_of. rewrite E, length_app. simpl. split; [lia|].
      by rewrite lookup_app_l. }
    match goal with |- context [length (objects ?t)] => destruct (E t) as [H1 H2]; [|by auto] end.
    destruct g as [g|]; [case_bool_decide|]; done.
  - destruct (tasks w !! tid) as [[[] oid rid| | | |]|]; try by apply Hrefl.
    case_bool_decide; [|by apply Hrefl]. simpl. apply Later_end. auto.
  - destruct (tasks w !! tid) as [[s oid rid| | | |]|]; try by apply Hrefl. simpl.
    destruct e; [apply Later_end; auto .. | apply Hrefl, objects_end].
  - destruct (tasks w !! tid) as [[s oid rid|oid rid|oid|oid rest n|remote rest]|]; try by apply Hrefl.
    + unfold try_cancel. destruct (String.prefix _ _); simpl; [apply Later_end; auto | apply Later_marked, Marked_set].
    + apply Hrefl, objects_end.
  - destruct (tasks w !! tid); [by apply Hrefl|].
    assert (Hm : Marked (tracker w) (cancel rid (tracker w)).2).
    { destruct (cancel_tracker rid (tracker w)) as [->|(oid & _ & ->)]; [apply Marked_refl | apply Marked_set]. }
    destruct (cancel rid (tracker w)) as [[b|oid] t]; by apply Later_marked.
  - destruct (tasks w !! tid); [by apply Hrefl|]. case_bool_decide; [|by apply Hrefl].
    apply Later_marked. exact (run_group_marked tid order 0 (with_groups (delete gid) (tracker w)) w).
  - destruct (tasks w !! tid); [by apply Hrefl|]. rewrite run_replay_tracker. by apply Hrefl.
  - destruct (tasks w !! tid) as [[s oid rid|oid rid|oid|oid rest n|remote rest]|]; try by apply Hrefl.
    + apply Hrefl. etrans; [apply objects_end | apply objects_sent].
    + pose proof (objects_sent oid r (tracker w)). destruct (cancel_sent oid r (tracker w)). by apply Hrefl.
    + pose proof (objects_sent oid r (tracker w)) as E. destruct (cancel_sent oid r (tracker w)) as [b t]. simpl in E.
      apply Later_marked. eapply Marked_trans; [by apply Marked_objects | apply run_group_marked].
    + rewrite run_replay_tracker. by apply Hrefl.
  - by apply Hrefl.
  - apply Hrefl. unfold release_routing_key. by destruct (routing_key_by_request (tracker w) !! rid) as [[g rk]|].
Qed.

Lemma run_group_forwarding tid rids n t w tid' s oid rid :
  tasks (run_group tid rids n t w).2 !! tid' = Some (Forwarding s oid rid) ->
  tasks w !! tid' = Some (Forwarding s oid rid).
Proof.
  unfold run_group. destruct (cancel_members rids n t) as [[m|[[o rest] m]] t'];
    intros [[_ ?]|[_ ?]]%forwarding_suspend; done.
Qed.

(** A new forward has a new object. *)
Lemma step_forwarding a w tid s oid rid :
  tasks (step a w).2 !! tid = Some (Forwarding s oid rid) ->
  tasks w !! tid = Some (Forwarding s oid rid) \/ oid = length (objects (tracker w)).
Proof.
  destruct a as [tid' s' rid' remote g|tid'|tid' e|tid'|tid' rid'|tid' gid order|tid' remote|tid' r|g rid' rk|rid'];
    simpl; auto.
  - destruct (tasks w !! tid'); [auto|]. destruct (active (tracker w) !! rid'); [auto|].
    intros [[_ [= _ <- _]]|[_ ?]]%forwarding_suspend; auto.
  - repeat case_goal; auto; intros [[_ ?]|[_ ?]]%forwarding_suspend; auto; done.
  - repeat case_goal; auto; intros [[_ ?]|[_ ?]]%forwarding_suspend; auto; done.
  - repeat case_goal; auto; intros [[_ ?]|[_ ?]]%forwarding_suspend; auto; done.
  - destruct (tasks w !! tid'); [auto|]. destruct (cancel rid' (tracker w)) as [[b|o] t];
      intros [[_ ?]|[_ ?]]%forwarding_suspend; auto; done.
  - destruct (tasks w !! tid'); [auto|]. case_goal; [|auto]. intros H%run_group_forwarding. auto.
  - destruct (tasks w !! tid'); [auto|]. unfold run_replay. case_goal; intros [[_ ?]|[_ ?]]%forwarding_suspend; auto; done.
  - destruct (tasks w !! tid') as [[s' o rid'|o rid'|o|o rest n|remote rest]|]; auto.
    + intros [[_ ?]|[_ ?]]%forwarding_suspend; auto; done.
    + destruct (cancel_sent o r (tracker w)). intros [[_ ?]|[_ ?]]%forwarding_suspend; auto; done.
    + destruct (cancel_sent o r (tracker w)). intros H%run_group_forwarding. auto.
    + unfold run_replay. case_goal; intros [[_ ?]|[_ ?]]%forwarding_suspend; auto; done.
Qed.

Definition Silent (oid : nat) (w : World) : Prop :=
  oid < length (objects (tracker w)) /\
  forall tid s rid, tasks w !! tid = Some (Forwarding s oid rid) -> state_of oid (tracker w) <> Some ACTIVE.

Lemma Silent_inactive oid w :
  oid < length (objects (tracker w)) -> state_of oid (tracker w) <> Some ACTIVE -> Silent oid w.
Proof. split; eauto. Qed.

Lemma group_output tid rids n t w oid : Chunk oid ∉ (run_group tid rids n t w).1.
Proof. unfold run_group. destruct (cancel_members rids n t) as [[m|[[o rest] m]] t']; simpl; unfold message; set_solver. Qed.

Lemma step_chunk a w oid :
  Chunk oid ∈ (step a w).1 ->
  exists tid rid, a = ChunkArrives tid /\ tasks w !! tid = Some (Forwarding true oid rid) /\
    state_of oid (tracker w) <> Some CANCELLED.
Proof.
  destruct a as [tid' s' rid' remote g|tid'|tid' e|tid'|tid' rid'|tid' gid order|tid' remote|tid' r|g rid' rk|rid']; simpl.
  2: { repeat case_goal; simpl; try set_solver. intros [= <-]%list_elem_of_singleton. to_prop. eauto 10. }
  all: repeat case_goal; simpl; unfold message; try set_solver; intros H;
    try (by apply group_output in H); unfold run_replay in H; case_hyp H; set_solver.
Qed.

Lemma Silent_step oid a w :
  Inv w -> Silent oid w -> Silent oid (step a w).2 /\ Chunk oid ∉ (step a w).1.
Proof.
  intros Hi [Hl Hs]. destruct (step_later a w oid Hl) as [Hl' Hst]. split.
  - split; [done|]. intros tid s rid [E|E]%step_forwarding; [|lia].
    destruct Hst as [->|[->| ->]]; [eauto | done..].
  - intros (tid & rid & -> & E & Hn)%step_chunk. specialize (Hs tid true rid E).
    destruct (inv_state w Hi tid true oid rid E); done.
Qed.

Lemma Silent_play oid acts w : Inv w -> Silent oid w -> Chunk oid ∉ outputs acts w.
Proof.
  revert w. induction acts as [|a acts IH]; intros w Hi Hs; simpl; [set_solver|].
  destruct (Silent_step oid a w Hi Hs) as [Hs' Hn]. rewrite elem_of_app. intros [?|?]; [done|].
  eapply IH; [by apply Inv_step | done | done].
Qed.

(** ** Cancelling a group *)

Definition tid_of (a : Action) : option nat :=
  match a with
  | Forward tid _ _ _ _ | ChunkArrives tid | ForwardEnds tid _ | Interrupt tid | Cancel tid _
  | CancelGroup tid _ _ | Reconnect tid _ | SendDone tid _ => Some tid
  | TrackKey _ _ _ | ReleaseKey _ => None
  end.

Lemma tasks_suspend tid task t w tid' : tid' <> tid -> tasks (suspend tid task t w) !! tid' = tasks w !! tid'.
Proof. intros H. unfold suspend. simpl. destruct task; by rewrite ?lookup_insert_ne, ?lookup_delete_ne. Qed.

Lemma tasks_group tid rids n t w tid' : tid' <> tid -> tasks (run_group tid rids n t w).2 !! tid' = tasks w !! tid'.
Proof.
  intros H. unfold run_group. by destruct (cancel_members rids n t) as [[m|[[o rest] m]] t']; apply tasks_suspend.
Qed.

Lemma tasks_replay tid remote rids w tid' : tid' <> tid -> tasks (run_replay tid remote rids w).2 !! tid' = tasks w !! tid'.
Proof. intros H. destruct rids; by apply tasks_suspend. Qed.

(** A step touches no task but its own. *)
Lemma step_local a w tid : tid_of a <> Some tid -> tasks (step a w).2 !! tid = tasks w !! tid.
Proof.
  destruct a as [tid' s' rid' remote g|tid'|tid' e|tid'|tid' rid'|tid' gid order|tid' remote|tid' r|g rid' rk|rid'];
    simpl; intros H; try done; assert (Hne : tid <> tid') by congruence;
    repeat case_goal; rewrite ?tasks_group, ?tasks_replay by done; simpl;
    rewrite ?lookup_insert_ne, ?lookup_delete_ne by done; done.
Qed.

Lemma state_set oid o s t :
  state_of oid (set_state o s t) = if decide (oid = o) then (fun _ => s) <$> objects t !! oid else state_of oid t.
Proof.
  unfold state_of, set_state. simpl. case_decide; subst; [|by rewrite list_lookup_alter_ne].
  rewrite list_lookup_alter_eq. by destruct (objects t !! o).
Qed.

Lemma set_inactive oid o t :
  state_of oid t <> Some ACTIVE -> state_of oid (set_state o CANCELLED t) <> Some ACTIVE.
Proof. intros H. rewrite state_set. case_decide; [|done]. by destruct (objects t !! oid). Qed.

Lemma cancel_inactive rid oid t : active t !! rid = Some oid -> state_of oid (cancel rid t).2 <> Some ACTIVE.
Proof.
  intros Ha. unfold cancel. rewrite Ha. case_bool_decide; [|done]. simpl. rewrite state_set, decide_True by done.
  by destruct (objects t !! oid).
Qed.

Lemma cancel_active rid t : active (cancel rid t).2 = active t.
Proof. by destruct (cancel_tracker rid t) as [->|(oid & _ & ->)]. Qed.

Lemma cancel_members_spec rids n t rid oid :
  active t !! rid = Some oid -> rid ∈ rids ->
  match cancel_members rids n t with
  | (inl _, t') => state_of oid t' <> Some ACTIVE
  | (inr (_, rest, _), t') => state_of oid t' <> Some ACTIVE \/ rid ∈ rest
  end.
Proof.
  revert n t. induction rids as [|r rids IH]; intros n t Ha Hin; [set_solver|]. simpl.
  pose proof (cancel_active r t) as Hact. pose proof (cancel_inactive r oid t) as Hc.
  destruct (cancel r t) as [[b|o] t']; simpl in *.
  - apply elem_of_cons in Hin as [<-|Hin]; [|apply IH; [congruence | done]].
    pose proof (cancel_members_ind (fun t => state_of oid t <> Some ACTIVE) rids (if b then S n else n) t'
                  (fun o t => set_inactive oid o t) (Hc Ha)) as H.
    destruct (cancel_members rids _ t') as [[m|[[o rest] m]] t'']; auto.
  - apply elem_of_cons in Hin as [<-|Hin]; auto.
Qed.

(** [tid] is cancelling a group: each of the requests [M] is silent, or still
    among the members to come. *)
Definition Pending (M : list (string * nat)) (tid : nat) (w : World) : Prop :=
  (forall rid oid, (rid, oid) ∈ M -> oid < length (objects (tracker w))) /\
  forall rid oid, (rid, oid) ∈ M ->
    Silent oid w \/
    (active (tracker w) !! rid = Some oid /\
     exists o rest n, tasks w !! tid = Some (GroupCancelling o rest n) /\ rid ∈ rest).

(** A request that leaves the table of active requests is silent. *)
Lemma Silent_left a w rid oid :
  Inv w -> active (tracker w) !! rid = Some oid -> active (tracker (step a w).2) !! rid <> Some oid ->
  Silent oid (step a w).2.
Proof.
  intros Hi Ha Hn. pose proof (Inv_step a w Hi) as Hi'.
  apply (inv_active w Hi) in Ha as [tid Ho]. pose proof (owner_lt w tid oid rid Hi Ho) as Hl.
  destruct (step_later a w oid Hl) as [Hl' _]. split; [done|]. intros tid' s r Hf. exfalso. apply Hn.
  pose proof (step_forwarding a w tid' s oid r Hf) as [E|E]; [|lia].
  assert (tid' = tid) as -> by (eapply (inv_oid w Hi); [by eapply owner_forwarding | exact Ho]).
  assert (r = rid) as -> by (pose proof (owner_forwarding _ _ _ _ _ E); congruence).
  apply (inv_active _ Hi'). exists tid. by eapply owner_forwarding.
Qed.

Lemma group_pending M tid rids n t w :
  (forall rid oid, (rid, oid) ∈ M -> oid < length (objects t)) ->
  (forall rid oid, (rid, oid) ∈ M ->
     (forall tid' s r, tasks w !! tid' = Some (Forwarding s oid r) -> state_of oid t <> Some ACTIVE) \/
     (active t !! rid = Some oid /\ rid ∈ rids)) ->
  Pending M tid (run_group tid rids n t w).2.
Proof.
  intros Hl H. pose proof (run_group_marked tid rids n t w) as Hm.
  assert (Hl' : forall rid oid, (rid, oid) ∈ M -> oid < length (objects (tracker (run_group tid rids n t w).2))).
  { intros rid oid Hin. rewrite (proj1 Hm). eauto. }
  split; [done|]. intros rid oid Hin. specialize (Hl' rid oid Hin).
  destruct (H rid oid Hin) as [Hs|[Ha Hr]].
  - left. split; [done|]. intros tid' s r Hf%run_group_forwarding.
    destruct (state_marked _ _ oid Hm (Hl rid oid Hin)) as [->| ->]; eauto.
  - pose proof (cancel_members_spec rids n t rid oid Ha Hr) as Hc.
    assert (Hact : active (cancel_members rids n t).2 = active t) by (by apply cancel_members_ind).
    unfold run_group in *. destruct (cancel_members rids n t) as [[m|[[o rest] m]] t']; simpl in *.
    + left. by apply Silent_inactive.
    + destruct Hc as [Hc|Hc]; [left; by apply Silent_inactive|]. right. split; [congruence|].
      exists o, rest, m. by rewrite lookup_insert_eq.
Qed.

Lemma Pending_step M tid a w :
  Inv w -> Pending M tid w -> (tid_of a = Some tid -> exists r, a = SendDone tid r) ->
  Pending M tid (step a w).2.
Proof.
  intros Hi Hpw Ha. pose proof Hpw as [Hl Hp]. destruct (decide (tid_of a = Some tid)) as [E|E].
  - destruct (Ha E) as [r ->]. clear Ha E. destruct (tasks w !! tid) as [k|] eqn:Et.
    2: { simpl. rewrite Et. exact Hpw. }
    destruct k as [s o rid'|o rid'|o|o rest n|remote rest];
      try (split; [intros rid oid Hin; destruct (step_later (SendDone tid r) w oid (Hl _ _ Hin)); done|];
           intros rid oid Hin; left; destruct (Hp rid oid Hin) as [Hs|(_ & ? & ? & ? & ? & _)]; [|congruence];
           by apply Silent_step).
    simpl. rewrite Et. pose proof (Marks_sent o r (tracker w)) as (Hm & Hact & _).
    destruct (cancel_sent o r (tracker w)) as [b t]. simpl in *.
    apply group_pending.
    + intros rid oid Hin. rewrite (proj1 Hm). eauto.
    + intros rid oid Hin. destruct (Hp rid oid Hin) as [[Hs1 Hs2]|(Hr & o' & rest' & n' & Et' & Hin')].
      * left. intros tid' s rr Hf. destruct (state_marked _ _ oid Hm Hs1) as [->| ->]; eauto.
      * right. simplify_eq. rewrite Hact. done.
  - split; [intros rid oid Hin; by destruct (step_later a w oid (Hl _ _ Hin))|].
    intros rid oid Hin. destruct (Hp rid oid Hin) as [Hs|(Hr & o & rest & n & Et & Hin')].
    + left. by apply Silent_step.
    + destruct (decide (active (tracker (step a w).2) !! rid = Some oid)) as [Hr'|Hr'].
      * right. split; [done|]. exists o, rest, n. by rewrite step_local.
      * left. by eapply Silent_left.
Qed.

Lemma Pending_play M tid acts w :
  Inv w -> Pending M tid w ->
  Forall (fun a => tid_of a = Some tid -> exists r, a = SendDone tid r) acts -> Pending M tid (play acts w).
Proof.
  revert w. induction acts as [|a acts IH]; intros w Hi Hp Hf; simpl; [done|].
  apply Forall_cons in Hf as [Ha Hf]. apply IH; [by apply Inv_step | by apply Pending_step | done].
Qed.

(** ** Theorems *)

Definition reached (acts : list Action) : World := play acts new_world.

Lemma elem_of_globally rk t :
  rk ∈ get_routing_keys_in_flight_globally t <-> exists g, rk ∈ get_routing_keys_in_flight g t.
Proof.
  unfold get_routing_keys_in_flight_globally, get_routing_keys_in_flight, keys_of. rewrite elem_of_union_list. split.
  - intros (ks & Hin & Hrk). apply list_elem_of_fmap in Hin as ([g ks'] & -> & Hg%elem_of_map_to_list).
    exists g. rewrite Hg. done.
  - intros [g Hg]. destruct (routing_keys_by_gateway t !! g) as [ks|] eqn:E; simpl in Hg; [|set_solver].
    exists ks. split; [|done]. apply list_elem_of_fmap. exists (g, ks). split; [done|]. by apply elem_of_map_to_list.
Qed.

(** A request is tracked again only for what it is tracked for. *)
Fixpoint Disciplined (acts : list Action) (w : World) : Prop :=
  match acts with
  | [] => True
  | a :: acts' =>
      match a with
      | TrackKey g rid rk =>
          routing_key_by_request (tracker w) !! rid = None \/
          routing_key_by_request (tracker w) !! rid = Some (g, rk)
      | _ => True
      end /\ Disciplined acts' (step a w).2
  end.

Lemma Covers_step a w : Covers (tracker w) -> Covers (tracker (step a w).2).
Proof.
  intros H. destruct (step_keymaps a w) as [E|[[rid E]|(g & rid & rk & -> & E)]]; (eapply Covers_keymaps; [exact E|]);
    [done | by apply Covers_release | by apply Covers_track].
Qed.

Lemma Covers_play acts w : Covers (tracker w) -> Covers (tracker (play acts w)).
Proof. revert w. induction acts; intros w H; simpl; auto using Covers_step. Qed.

Lemma Exact_play acts w : Exact (tracker w) -> Disciplined acts w -> Exact (tracker (play acts w)).
Proof.
  revert w. induction acts as [|a acts IH]; intros w H Hd; simpl; [done|]. destruct Hd as [Ha Hd]. apply IH; [|done].
  destruct (step_keymaps a w) as [E|[[rid E]|(g & rid & rk & -> & E)]]; (eapply Exact_keymaps; [exact E|]);
    [done | by apply Exact_release | by apply Exact_track].
Qed.

Lemma Covers_new : Covers new_master.
Proof. intros rid g rk E. unfold new_master in E. simpl in E. by rewrite lookup_empty in E. Qed.

Lemma Exact_new : Exact new_master.
Proof. intros g rk. unfold keys_of, new_master. simpl. rewrite lookup_empty. simpl. set_solver. Qed.

(** C23: A model is protected from eviction exactly while a request needs it:
    whatever forwards, cancellations and reconnects happen, the keys in flight
    on a gateway contain the key of every tracked request there; and if no
    request is tracked anew for another key, or for the same key on another
    gateway, before it is released, they contain no other key, on that gateway
    and globally. *)
Theorem protection_exact (acts : list Action) :
  let t := tracker (reached acts) in
  (forall rid g rk, routing_key_by_request t !! rid = Some (g, rk) ->
     rk ∈ get_routing_keys_in_flight g t /\ rk ∈ get_routing_keys_in_flight_globally t) /\
  (Disciplined acts new_world ->
     forall rk,
       (forall g, rk ∈ get_routing_keys_in_flight g t <-> exists rid, routing_key_by_request t !! rid = Some (g, rk)) /\
       (rk ∈ get_routing_keys_in_flight_globally t <->
          exists g rid, routing_key_by_request t !! rid = Some (g, rk))).
Proof.
  intros t. assert (Hc : Covers t) by apply Covers_play, Covers_new. split.
  - intros rid g rk E%Hc. split; [done|]. apply elem_of_globally. eauto.
  - intros Hd rk. pose proof (Exact_play acts new_world Exact_new Hd) as He.
    assert (H : forall g, rk ∈ get_routing_keys_in_flight g t <-> exists rid, routing_key_by_request t !! rid = Some (g, rk)).
    { intros g. split; [apply He | intros [rid E]; by eapply Hc]. }
    split; [done|]. rewrite elem_of_globally. by setoid_rewrite H.
Qed.

(** Nothing leaks: in every reachable state the table of active requests
    holds exactly the requests that a running forward carries, each with its
    own object, and every member of a cancel group is active; so when no
    forward runs, no request and no group is left. *)
Theorem tracking_exact (acts : list Action) :
  let w := reached acts in
  (forall rid oid, active (tracker w) !! rid = Some oid <->
     exists tid k, tasks w !! tid = Some k /\ owns k = Some (oid, rid)) /\
  (forall gid ms rid, cancel_groups (tracker w) !! gid = Some ms -> rid ∈ ms ->
     is_Some (active (tracker w) !! rid)) /\
  ((forall tid k, tasks w !! tid = Some k -> owns k = None) ->
     active (tracker w) = ∅ /\ cancel_groups (tracker w) = ∅).
Proof.
  intros w. assert (Hi : Inv w) by apply Inv_play, Inv_new.
  assert (Ha : forall rid oid, active (tracker w) !! rid = Some oid <->
     exists tid k, tasks w !! tid = Some k /\ owns k = Some (oid, rid)).
  { intros rid oid. rewrite (inv_active w Hi). unfold owner. split.
    - intros [tid E]. destruct (tasks w !! tid) eqn:Et; simpl in E; [eauto | done].
    - intros (tid & k & Et & E). exists tid. by rewrite Et. }
  split; [done|]. split.
  { intros gid ms rid E Hin. by apply (inv_groups w Hi gid ms E). }
  intros Hn. assert (He : active (tracker w) = ∅).
  { apply map_empty. intros rid. destruct (active (tracker w) !! rid) as [oid|] eqn:E; [|done].
    apply Ha in E as (tid & k & Et & Ek). specialize (Hn tid k Et). congruence. }
  split; [done|]. apply map_empty. intros gid. destruct (cancel_groups (tracker w) !! gid) as [ms|] eqn:E; [|done].
  destruct (inv_groups w Hi gid ms E) as [Hne Hin]. exfalso. apply Hne, set_eq. intros rid.
  split; [|set_solver]. intros Hr. destruct (Hin rid Hr) as [oid Eo]. by rewrite He, lookup_empty in Eo.
Qed.

(** Once a request has been cancelled (or has ended), no chunk of it is
    passed on, whatever still arrives from the remote. *)
Theorem no_chunk_after_cancel (acts acts' : list Action) (oid : nat) (s : RequestState) :
  state_of oid (tracker (reached acts)) = Some s -> s <> ACTIVE ->
  Chunk oid ∉ outputs acts' (reached acts).
Proof.
  intros E Hs. apply Silent_play; [apply Inv_play, Inv_new|]. apply Silent_inactive.
  - unfold state_of in E. apply lookup_lt_is_Some. destruct (_ !! oid); [eauto | done].
  - congruence.
Qed.

(** Cancelling a group reaches all of it: when the call has finished,
    in whatever order it took the members and whatever happened between its
    messages (requests ending, others beginning, remotes failing), no stream
    that was in the group passes on another chunk. *)
Theorem group_cancel_silences (acts acts' acts'' : list Action) (tid : nat) (gid : string) (order : list string)
    (ms : gset string) (rid : string) (oid : nat) :
  let w := reached acts in
  let w' := play acts' (step (CancelGroup tid gid order) w).2 in
  tasks w !! tid = None -> NoDup order -> list_to_set order = ms ->
  cancel_groups (tracker w) !! gid = Some ms -> rid ∈ ms -> active (tracker w) !! rid = Some oid ->
  Forall (fun a => tid_of a = Some tid -> exists r, a = SendDone tid r) acts' -> tasks w' !! tid = None ->
  Chunk oid ∉ outputs acts'' w'.
Proof.
  intros w w' Ht Hnd Ho Hg Hr Ha Hf Hend. assert (Hi : Inv w) by apply Inv_play, Inv_new.
  assert (Hp : Pending [(rid, oid)] tid (step (CancelGroup tid gid order) w).2).
  { simpl. rewrite Ht, Hg. simpl. rewrite bool_decide_true by done. apply group_pending.
    - intros r o [= -> ->]%list_elem_of_singleton. simpl. apply (inv_active w Hi) in Ha as [tid' E]. by eapply owner_lt.
    - intros r o [= -> ->]%list_elem_of_singleton. right. split; [done|]. set_solver. }
  apply Pending_play with (acts := acts') in Hp as [_ Hp]; [|by apply Inv_step|done].
  destruct (Hp rid oid ltac:(set_solver)) as [Hs|(_ & o & rest & n & E & _)]; [|fold w' in E; congruence].
  apply Silent_play; [|exact Hs]. by apply Inv_play, Inv_step.
Qed.

(** *** Witnesses and examples *)

Definition two_streams : list Action :=
  [Forward 1 true "a" "edge-1" (Some "g"); Forward 2 true "b" "edge-2" (Some "g"); ChunkArrives 1]%string.

Lemma protection_exact_witness :
  get_routing_keys_in_flight_globally
    (tracker (reached [TrackKey "gw" "a" "m"; TrackKey "gw" "b" "m"; Forward 1 true "a" "edge" None;
                       ForwardEnds 1 Return]%string)) = {["m"%string]}.
Proof.
  set (acts := [TrackKey "gw" "a" "m"; TrackKey "gw" "b" "m"; Forward 1 true "a" "edge" None;
                ForwardEnds 1 Return]%string).
  assert (Hd : Disciplined acts new_world) by (vm_compute; tauto).
  apply set_eq. intros rk. rewrite (proj2 (proj2 (protection_exact acts) Hd rk)).
  assert (E : routing_key_by_request (tracker (reached acts)) = {["b"%string := ("gw", "m")%string]})
    by (vm_compute; reflexivity).
  rewrite E. split.
  - intros (g & rid & [<- [= <- <-]]%lookup_singleton_Some). set_solver.
  - intros ->%elem_of_singleton. exists "gw"%string, "b"%string. apply lookup_singleton_Some. tauto.
Defined.

Lemma tracking_exact_witness :
  active (tracker (reached (two_streams ++ [Interrupt 1; SendDone 1 SendFailed; ForwardEnds 2 RaiseException]))) = ∅.
Proof.
  apply (tracking_exact (two_streams ++ [Interrupt 1; SendDone 1 SendFailed; ForwardEnds 2 RaiseException])).
  intros tid k E. assert (Ht : tasks (reached (two_streams ++ [Interrupt 1; SendDone 1 SendFailed;
    ForwardEnds 2 RaiseException])) = ∅) by (vm_compute; reflexivity).
  rewrite Ht, lookup_empty in E. discriminate.
Defined.

Lemma no_chunk_after_cancel_witness :
  Chunk 0 ∉ outputs [ChunkArrives 1; ChunkArrives 1; SendDone 3 (Sent true)]
    (reached (two_streams ++ [Cancel 3 "a"%string])).
Proof. apply (no_chunk_after_cancel _ _ 0 CANCELLED); [vm_compute; reflexivity | discriminate]. Defined.

Lemma group_cancel_silences_witness :
  let w' := play [SendDone 3 SendFailed; ChunkArrives 1; SendDone 3 (Sent true)]
              (step (CancelGroup 3 "g" ["b"; "a"]) (reached two_streams)).2 in
  Chunk 0 ∉ outputs [ChunkArrives 2; ChunkArrives 1] w'.
Proof.
  apply (group_cancel_silences two_streams [SendDone 3 SendFailed; ChunkArrives 1; SendDone 3 (Sent true)]
           [ChunkArrives 2; ChunkArrives 1] 3 "g"%string ["b"; "a"]%string {["a"; "b"]}%string "a"%string 0);
    try (vm_compute; reflexivity).
  - repeat constructor; set_solver.
  - repeat constructor; simpl; intros [=]; eauto.
Defined.

(** A request tracked again for another gateway leaves its old key behind,
    which nothing removes. *)
Example retrack_leaks_key :
  let t := tracker (reached [TrackKey "gw1" "a" "m"; TrackKey "gw2" "a" "m"; ReleaseKey "a"]%string) in
  routing_key_by_request t = ∅ /\ get_routing_keys_in_flight "gw1" t = {["m"%string]}.
Proof. vm_compute. split; reflexivity. Qed.

(** A cancelled request that is not streamed still returns its response. *)
Example cancelled_response_returned :
  outputs [Forward 1 false "a" "edge" None; Cancel 2 "a"; SendDone 2 (Sent true); ForwardEnds 1 Return]%string
    new_world = [CancelMessage "edge" "a"; CancelResult 2 true; Response 0]%string.
Proof. vm_compute. reflexivity. Qed.

(** A message that the sender reports as undelivered is not kept for the
    reconnect, and the request cannot be cancelled again. *)
Example undelivered_cancel_forgotten :
  let acts := [Forward 1 true "a" "edge" None; Cancel 2 "a"; SendDone 2 (Sent false); Cancel 2 "a"]%string in
  pending_cancels (tracker (reached acts)) = ∅ /\
  outputs acts new_world = [CancelMessage "edge" "a"; CancelResult 2 false; CancelResult 2 true]%string.
Proof. vm_compute. split; reflexivity. Qed.

(** A replay that fails loses the message it should have kept. *)
Example replay_failure_loses_cancel :
  let w := reached [Forward 1 true "a" "edge" None; Cancel 2 "a"; SendDone 2 SendFailed; Reconnect 3 "edge";
                    SendDone 3 SendFailed]%string in
  pending_cancels (tracker w) = ∅ /\ is_Some (active (tracker w) !! "a"%string) /\ tasks w !! 3 = None.
Proof. vm_compute. repeat split; by eexists. Qed.

(** A stream that its consumer closes tells the remote nothing. *)
Example closed_stream_not_cancelled :
  outputs [Forward 1 true "a" "edge" None; ChunkArrives 1; ForwardEnds 1 GeneratorExit]%string new_world = [Chunk 0].
Proof. vm_compute. reflexivity. Qed.
