(* ===== verification/FederatedLoad.v ===== *)
(** * Loading models on other Stargates
    ([systems/federation/master/orchestration/load_orchestrator.py] and
    [load_terminal_wait.py])

    Before a request is forwarded its model is loaded on the remote: one load
    at a time per gateway and model, shared by concurrent callers; each attempt
    races the remote's answer against lifecycle events, and failed attempts are
    retried by rule.

    [attempt] is one race, [call_remote_load] the retry loop over the results
    of its attempts; [step] is the orchestrator with its callers, the futures
    they share and the tracker of [RequestTracker] that protects the model. *)
From stdpp Require Import base gmap sets list strings sorting.
From Stdlib Require Import ZArith Lia.
From S2P Require Import Prelude ErrorCodes RequestTracker.
Open Scope Z_scope.

(** ** Which events concern a load *)

(** The payload of a lifecycle event, as far as it is read. *)
Record LoadEvent := mkEvent {
  ev_model_id : option string;
  ev_gateway_name : option string;
  ev_url : option string;
  ev_error : option string;
  ev_phase : option string;
  ev_pct : option Z
}.

Definition truthy (s : option string) : bool :=
  match s with Some s => negb (bool_decide (s = ""%string)) | None => false end.

(** [sub in s] *)
Definition contains (sub s : string) : bool :=
  match String.index 0 sub s with Some _ => true | None => false end.

Definition model_matches (payload : LoadEvent) (routing_key : string) : bool :=
  match ev_model_id payload with
  | None => false
  | Some model_text =>
      negb (bool_decide (model_text = ""%string)) &&
      ((bool_decide (model_text = routing_key) || String.prefix (routing_key ++ "-") model_text) ||
       (bool_decide (routing_key = model_text) || String.prefix (model_text ++ "-") routing_key))
  end.

Definition gateway_matches (payload : LoadEvent) (gateway_id remote_id : string) : bool :=
  (truthy (ev_gateway_name payload) &&
   (bool_decide (ev_gateway_name payload = Some gateway_id) || bool_decide (ev_gateway_name payload = Some remote_id))) ||
  (truthy (ev_url payload) &&
   (contains gateway_id (get_or ""%string (ev_url payload)) || contains remote_id (get_or ""%string (ev_url payload)))) ||
  (bool_decide (ev_gateway_name payload = None) && bool_decide (ev_url payload = None)).

Definition concerns (routing_key gateway_id remote_id : string) (payload : LoadEvent) : bool :=
  model_matches payload routing_key && gateway_matches payload gateway_id remote_id.

(** [on_progress]: what counts as a sign of life. *)
Definition is_progress (routing_key gateway_id remote_id : string) (payload : LoadEvent) : bool :=
  concerns routing_key gateway_id remote_id payload && truthy (ev_phase payload) &&
  bool_decide (is_Some (ev_pct payload)).

Inductive TerminalLoadOutcome : Type := LOADED | FAILED | STUCK.

#[global] Instance TerminalLoadOutcome_eq_dec : EqDecision TerminalLoadOutcome.
Proof. solve_decision. Defined.

Record TerminalLoadResolution := mkResolution { outcome : TerminalLoadOutcome; res_error : option string }.

(** The first event that resolves the wait. *)
Fixpoint first_terminal (routing_key gateway_id remote_id : string)
    (events : list (TerminalLoadOutcome * LoadEvent)) : option TerminalLoadResolution :=
  match events with
  | [] => None
  | (o, payload) :: events' =>
      if concerns routing_key gateway_id remote_id payload then Some (mkResolution o (ev_error payload))
      else first_terminal routing_key gateway_id remote_id events'
  end.

(** ** Silence *)

(** When [_wait_for_idle_timeout] fires: [last] is the time of the latest
    progress, [progress] the times of what follows. *)
Fixpoint idle_expiry (idle_budget last : Z) (progress : list Z) : Z :=
  match progress with
  | [] => last + idle_budget
  | p :: progress' =>
      if p <? last + idle_budget then idle_expiry idle_budget p progress' else last + idle_budget
  end.

Definition wait_for_idle_timeout (idle_budget : Z) (progress : list Z) : option Z :=
  match progress with [] => None | p :: progress' => Some (idle_expiry idle_budget p progress') end.

(** ** One attempt *)

(** The forwarder's answer. *)
Record Response := mkResponse { status : string; status_code : option Z; message : option string }.

Record LoadError := mkLoadError { code : ErrorCode; retryable : bool }.

(** What an attempt can raise. *)
Inductive LoadException : Type :=
  | WallClockLoadTimeout
  | IdleLoadTimeout
  | InnerTimeout
  | HttpTimeout
  | RequestError
  | ProgrammingError
  | HTTPError (e : LoadError)
  | OtherException
  | CancelledErr.

Inductive RemoteEnd : Type := Answered (r : Response) | Raised (e : LoadException).

Definition ok_response : Response := mkResponse "ok" None None.

(** [_resolve_after_terminal_loaded] *)
Definition resolve_after_terminal_loaded (remote_call : option RemoteEnd) : Response :=
  match remote_call with Some (Answered r) => r | _ => ok_response end.

(** [race_remote_load_with_terminal_events], after [asyncio.wait] has returned:
    which of its tasks are done, and how. *)
Definition race (idle_done : bool) (terminal_waiter : option (option TerminalLoadResolution))
    (remote_call : option RemoteEnd) : LoadException + option Response * option TerminalLoadResolution :=
  let http :=
    match remote_call with
    | Some (Raised e) => inl e
    | Some (Answered r) => inr (Some r, None)
    | None => inr (None, None)
    end in
  if idle_done then inl IdleLoadTimeout
  else match terminal_waiter with
  | Some (Some terminal) =>
      if bool_decide (outcome terminal = LOADED)
      then inr (Some (resolve_after_terminal_loaded remote_call), Some terminal)
      else inr (None, Some terminal)
  | _ => http
  end.

(** [await_remote_load_with_wall_clock]; without an event bus the call alone is
    awaited, [None] meaning that the budget ran out. *)
Definition await_remote_load (event_bus idle_done : bool) (terminal_waiter : option (option TerminalLoadResolution))
    (remote_call : option RemoteEnd) : LoadException + option Response * option TerminalLoadResolution :=
  if event_bus then
    match race idle_done terminal_waiter remote_call with
    | inr (None, None) => inl WallClockLoadTimeout
    | r => r
    end
  else match remote_call with
  | Some (Answered r) => inr (Some r, None)
  | Some (Raised e) => inl e
  | None => inl WallClockLoadTimeout
  end.

Definition terminal_load_error (terminal : TerminalLoadResolution) : LoadError :=
  let code := if bool_decide (outcome terminal = STUCK) then LOAD_TIMEOUT else INSUFFICIENT_VRAM in
  mkLoadError code (negb (bool_decide (code = LOAD_TIMEOUT))).

(** [_await_remote_load_attempt] *)
Definition attempt (event_bus idle_done : bool) (terminal_waiter : option (option TerminalLoadResolution))
    (remote_call : option RemoteEnd) : RemoteEnd :=
  match await_remote_load event_bus idle_done terminal_waiter remote_call with
  | inl e => Raised e
  | inr (result, terminal) =>
      match terminal with
      | Some t =>
          if bool_decide (outcome t = LOADED)
          then match result with Some r => Answered r | None => Raised WallClockLoadTimeout end
          else Raised (HTTPError (terminal_load_error t))
      | None => match result with Some r => Answered r | None => Raised WallClockLoadTimeout end
      end
  end.

(** ** The retry loop *)

Inductive LoadResult : Type :=
  | Loaded (r : Response)
  | LoadFailed (e : LoadError)
  | Propagated (e : LoadException).

Definition load_error (c : ErrorCode) : LoadError := mkLoadError c true.

(** What one attempt means: the end of the loop, or an error to keep while the
    next attempt is made. *)
Definition classify (r : RemoteEnd) : LoadResult + LoadError :=
  match r with
  | Answered r =>
      if bool_decide (status r = "failed"%string) then
        if get_or 503 (status_code r) <? 500 then inl (LoadFailed (mkLoadError INVALID_REQUEST false))
        else inr (load_error RESOURCE_UNAVAILABLE)
      else inl (Loaded r)
  | Raised CancelledErr => inl (Propagated CancelledErr)
  | Raised (HTTPError e) => inl (LoadFailed e)
  | Raised WallClockLoadTimeout => inl (LoadFailed (load_error LOAD_TIMEOUT))
  | Raised IdleLoadTimeout => inl (LoadFailed (load_error LOAD_TIMEOUT))
  | Raised InnerTimeout => inl (LoadFailed (load_error REQUEST_TIMEOUT))
  | Raised HttpTimeout => inr (load_error LOAD_TIMEOUT)
  | Raised RequestError => inr (load_error GATEWAY_DISCONNECTED)
  | Raised ProgrammingError => inl (Propagated ProgrammingError)
  | Raised OtherException => inl (LoadFailed (mkLoadError UNEXPECTED_ERROR false))
  end.

(** The loop from attempt [attempt_index] on, with the attempts that are left;
    also the number of attempts made. *)
Fixpoint load_loop (attempts : nat -> RemoteEnd) (left attempt_index : nat) (last_error : LoadError)
  : LoadResult * nat :=
  match left with
  | O => (LoadFailed last_error, O)
  | S left' =>
      match classify (attempts attempt_index) with
      | inl result => (result, 1%nat)
      | inr e =>
          match left' with
          | O => (LoadFailed e, 1%nat)
          | S _ => let '(result, n) := load_loop attempts left' (S attempt_index) e in (result, S n)
          end
      end
  end.

Definition call_remote_load (load_retry_count : nat) (attempts : nat -> RemoteEnd) : LoadResult * nat :=
  load_loop attempts (S load_retry_count) 1 (load_error RESOURCE_UNAVAILABLE).

(** ** The orchestrator *)

(** [(gateway_id, routing_key)] *)
Notation LoadKey := (string * string)%type.

(** The exception of a future: an [HTTPException] or another one. *)
Inductive Failure : Type := Http (e : LoadError) | Other.

Inductive Future : Type := Unresolved | Resolved | FailedWith (f : Failure).

(** How a caller leaves [ensure_model_loaded_on_remote] by an exception. *)
Inductive Exit : Type := Raises (f : Failure) | IsCancelled.

Inductive Caller : Type :=
  | Primary (key : LoadKey) (request_id : string) (future : nat)
  | Clearing (key : LoadKey) (request_id : string) (future : nat) (exit : Exit)
  | Follower (key : LoadKey) (request_id : string) (future : nat) (deadline : Z).

Record World := mkWorld {
  tracker : MasterRequestTracker;
  pending_loads : gmap LoadKey nat;
  futures : list Future;
  callers : gmap nat Caller;
  remote_calls : gmap nat LoadKey;
  timers : list (Z * LoadKey * nat);
  clock : Z
}.

Definition new_world : World := mkWorld new_master ∅ [] ∅ ∅ [] 0.

Section Orchestrator.
Context (event_bus : bool) (coalesce_wait_timeout : Z).

(** Seconds for which a completed future stays cached. *)
Definition ttl : Z := 10.

Inductive Output : Type :=
  | Returns (caller : nat)
  | Fails (caller : nat) (exit : Exit).

Definition with_tracker (f : MasterRequestTracker -> MasterRequestTracker) (w : World) : World :=
  mkWorld (f (tracker w)) (pending_loads w) (futures w) (callers w) (remote_calls w) (timers w) (clock w).
Definition with_callers (f : gmap nat Caller -> gmap nat Caller) (w : World) : World :=
  mkWorld (tracker w) (pending_loads w) (futures w) (f (callers w)) (remote_calls w) (timers w) (clock w).
Definition with_calls (f : gmap nat LoadKey -> gmap nat LoadKey) (w : World) : World :=
  mkWorld (tracker w) (pending_loads w) (futures w) (callers w) (f (remote_calls w)) (timers w) (clock w).
Definition set_future (i : nat) (s : Future) (w : World) : World :=
  mkWorld (tracker w) (pending_loads w) (<[i := s]> (futures w)) (callers w) (remote_calls w) (timers w) (clock w).

(** The [call_later] of the [finally] clause. *)
Definition schedule_eviction (key : LoadKey) (i : nat) (w : World) : World :=
  if bool_decide (pending_loads w !! key = Some i)
  then mkWorld (tracker w) (pending_loads w) (futures w) (callers w) (remote_calls w)
         (timers w ++ [(clock w + ttl, key, i)]) (clock w)
  else w.

(** A caller leaves by an exception: its model is no longer protected. *)
Definition leave (caller : nat) (request_id : string) (exit : Exit) (w : World) : list Output * World :=
  ([Fails caller exit],
   with_tracker (fun t => (release_routing_key request_id t).2) (with_callers (delete caller) w)).

(** [_await_coalesced_load] with a resolved future. *)
Definition coalesced (caller : nat) (request_id : string) (f : Future) (w : World) : list Output * World :=
  match f with
  | Resolved => ([Returns caller], with_callers (delete caller) w)
  | FailedWith (Http e) => leave caller request_id (Raises (Http e)) w
  | FailedWith Other => leave caller request_id (Raises (Http (load_error RESOURCE_UNAVAILABLE))) w
  | Unresolved => ([], w)
  end.

(** [ensure_model_loaded_on_remote] up to its first suspension. *)
Definition ensure_model_loaded (caller : nat) (request_id : string) (key : LoadKey) (is_cloud believed_loaded : bool)
    (w : World) : list Output * World :=
  if is_cloud then ([Returns caller], w)
  else
    let w := with_tracker (track_routing_key key.1 request_id key.2) w in
    if believed_loaded then ([Returns caller], w)
    else match pending_loads w !! key with
    | Some i =>
        let f := get_or Unresolved (futures w !! i) in
        match f with
        | Unresolved =>
            ([], with_callers <[caller := Follower key request_id i (clock w + coalesce_wait_timeout)]> w)
        | _ => coalesced caller request_id f w
        end
    | None =>
        let i := length (futures w) in
        ([], mkWorld (tracker w) (<[key := i]> (pending_loads w)) (futures w ++ [Unresolved])
               (<[caller := Primary key request_id i]> (callers w)) (<[caller := key]> (remote_calls w))
               (timers w) (clock w))
    end.

(** The end of [_call_remote_load] in the primary caller. *)
Definition load_ends (caller : nat) (key : LoadKey) (request_id : string) (i : nat) (r : LoadResult) (w : World)
  : list Output * World :=
  let w := with_calls (delete caller) w in
  let failed f :=
    ([], with_callers <[caller := Clearing key request_id i (Raises f)]> (set_future i (FailedWith f) w)) in
  match r with
  | Loaded _ =>
      ([Returns caller], with_callers (delete caller) (schedule_eviction key i (set_future i Resolved w)))
  | LoadFailed e => failed (Http e)
  | Propagated CancelledErr => ([], with_callers <[caller := Clearing key request_id i IsCancelled]> w)
  | Propagated _ => failed Other
  end.

(** [clear_model_loading] has returned in the [finally] clause. *)
Definition cleared (caller : nat) (key : LoadKey) (request_id : string) (i : nat) (exit : Exit) (w : World)
  : list Output * World :=
  let w := schedule_eviction key i w in
  let w := match futures w !! i with
           | Some Unresolved => set_future i (FailedWith (Http (load_error RESOURCE_UNAVAILABLE))) w
           | _ => w
           end in
  leave caller request_id exit w.

Inductive Action : Type :=
  | Ensure (caller : nat) (request_id : string) (key : LoadKey) (is_cloud believed_loaded : bool)
  | LoadEnds (caller : nat) (r : LoadResult)
  | ClearDone (caller : nat)
  | Interrupt (caller : nat) (in_call : bool)
  | Wake (caller : nat)
  | WaitTimesOut (caller : nat)
  | TimerFires (n : nat)
  | CallEnds (call : nat)
  | RequestEnds (request_id : string)
  | Tick (d : Z).

Definition request_of (c : Caller) : string :=
  match c with Primary _ rid _ | Clearing _ rid _ _ | Follower _ rid _ _ => rid end.
Definition key_of (c : Caller) : LoadKey :=
  match c with Primary k _ _ | Clearing k _ _ _ | Follower k _ _ _ => k end.

(** No caller at work has this request. *)
Definition idle_request (request_id : string) (w : World) : bool :=
  forallb (fun kc => negb (bool_decide (request_of kc.2 = request_id))) (map_to_list (callers w)).

(** Callers and requests have ids of their own; a cancellation that strikes the
    primary while an attempt is in the race leaves the HTTP call running when
    there is an event bus. *)
Definition step (a : Action) (w : World) : list Output * World :=
  match a with
  | Ensure c rid key is_cloud believed =>
      if bool_decide (callers w !! c = None /\ remote_calls w !! c = None) && idle_request rid w
      then ensure_model_loaded c rid key is_cloud believed w else ([], w)
  | LoadEnds c r =>
      match callers w !! c with
      | Some (Primary key rid i) => load_ends c key rid i r w
      | _ => ([], w)
      end
  | ClearDone c =>
      match callers w !! c with
      | Some (Clearing key rid i exit) => cleared c key rid i exit w
      | _ => ([], w)
      end
  | Interrupt c in_call =>
      match callers w !! c with
      | Some (Primary key rid i) =>
          ([], with_callers <[c := Clearing key rid i IsCancelled]>
                 (if event_bus && in_call then w else with_calls (delete c) w))
      | Some (Clearing key rid i _) | Some (Follower key rid i _) => leave c rid IsCancelled w
      | None => ([], w)
      end
  | Wake c =>
      match callers w !! c with
      | Some (Follower key rid i _) => coalesced c rid (get_or Unresolved (futures w !! i)) w
      | _ => ([], w)
      end
  | WaitTimesOut c =>
      match callers w !! c with
      | Some (Follower key rid i deadline) =>
          if deadline <=? clock w then leave c rid (Raises (Http (load_error LOAD_TIMEOUT))) w else ([], w)
      | _ => ([], w)
      end
  | TimerFires n =>
      match timers w !! n with
      | Some (at_, key, i) =>
          if at_ <=? clock w then
            ([], mkWorld (tracker w)
                   (if bool_decide (pending_loads w !! key = Some i) then delete key (pending_loads w)
                    else pending_loads w)
                   (futures w) (callers w) (remote_calls w) (delete n (timers w)) (clock w))
          else ([], w)
      | None => ([], w)
      end
  | CallEnds c =>
      match callers w !! c with
      | Some (Primary _ _ _) => ([], w)
      | _ => ([], with_calls (delete c) w)
      end
  | RequestEnds rid =>
      if idle_request rid w then ([], with_tracker (fun t => (release_routing_key rid t).2) w) else ([], w)
  | Tick d =>
      ([], mkWorld (tracker w) (pending_loads w) (futures w) (callers w) (remote_calls w) (timers w)
             (clock w + Z.max 0 d))
  end.

Fixpoint play (acts : list Action) (w : World) : World :=
  match acts with [] => w | a :: acts' => play acts' (step a w).2 end.

Fixpoint outputs (acts : list Action) (w : World) : list Output :=
  match acts with [] => [] | a :: acts' => (step a w).1 ++ outputs acts' (step a w).2 end.

End Orchestrator.

(** ** Attempts and retries: facts *)

(** The idle timer fires exactly when silence has lasted for the budget. *)
Lemma idle_expiry_spec budget last ps e :
  0 < budget -> StronglySorted Z.le (last :: ps) -> idle_expiry budget last ps = e ->
  e - budget ∈ last :: ps /\
  (forall p, p ∈ last :: ps -> ~ (e - budget < p < e)) /\
  (forall t, last <= t < e -> exists p, p ∈ last :: ps /\ p <= t < p + budget).
Proof.
  revert last. induction ps as [|p ps IH]; intros last Hb Hs He; simpl in He.
  - subst e. split; [replace (last + budget - budget) with last by lia; set_solver|]. split.
    + intros p ->%list_elem_of_singleton. lia.
    + intros t Ht. exists last. split; [set_solver | lia].
  - apply StronglySorted_inv in Hs as [Hs Hf]. pose proof (Forall_inv Hf) as Hlp. destruct (p <? last + budget) eqn:E; to_prop.
    + destruct (IH p Hb Hs He) as (H1 & H2 & H3).
      assert (Hpe : p <= e - budget).
      { apply StronglySorted_inv in Hs as [_ Hf']. apply elem_of_cons in H1 as [->|H1]; [lia|].
        rewrite Forall_forall in Hf'. by apply Hf'. }
      split; [set_solver|]. split.
      * intros q [->|Hq]%elem_of_cons; [lia | by apply H2].
      * intros t Ht. destruct (decide (p <= t)) as [Hpt|Hpt].
        -- destruct (H3 t ltac:(lia)) as (q & Hq & ?). exists q. split; [set_solver | done].
        -- exists last. split; [set_solver | lia].
    + subst e. split; [replace (last + budget - budget) with last by lia; set_solver|]. split.
      * intros q [->|Hq]%elem_of_cons; [lia|]. apply elem_of_cons in Hq as [->|Hq]; [lia|].
        apply StronglySorted_inv in Hs as [_ Hf']. rewrite Forall_forall in Hf'. specialize (Hf' q Hq). lia.
      * intros t Ht. exists last. split; [set_solver | lia].
Qed.

Lemma load_loop_spec attempts left i last :
  let '(result, n) := load_loop attempts (S left) i last in
  (1 <= n <= S left)%nat /\
  (forall j, (j < n - 1)%nat -> exists e, classify (attempts (i + j)%nat) = inr e) /\
  match classify (attempts (i + n - 1)%nat) with
  | inl r => result = r
  | inr e => n = S left /\ result = LoadFailed e
  end.
Proof.
  revert i last. induction left as [|left IH]; intros i last.
  - cbn [load_loop]. destruct (classify (attempts i)) eqn:E; (split; [lia|]); (split; [intros j Hj; lia|]);
      replace (i + 1 - 1)%nat with i by lia; by rewrite E.
  - cbn [load_loop]. destruct (classify (attempts i)) eqn:E.
    + split; [lia|]. split; [intros j Hj; lia|]. replace (i + 1 - 1)%nat with i by lia. by rewrite E.
    + specialize (IH (S i) l). cbn [load_loop] in IH. destruct (match classify (attempts (S i)) with inl _ => _ | inr _ => _ end) as [result n].
      destruct IH as (H1 & H2 & H3). split; [lia|]. split.
      * intros [|j] Hj; [rewrite Nat.add_0_r; eauto|]. destruct (H2 j ltac:(lia)) as [e He]. exists e.
        by replace (i + S j)%nat with (S i + j)%nat by lia.
      * replace (i + S n - 1)%nat with (S i + n - 1)%nat by lia. destruct (classify _); [done|].
        destruct H3 as [-> ->]. done.
Qed.

(** ** Invariant of the orchestrator *)

(** What a caller in charge of a load holds: its key, its future and the state
    of that. *)
Definition owns (c : Caller) : option (LoadKey * nat * Future) :=
  match c with
  | Primary k _ i => Some (k, i, Unresolved)
  | Clearing k _ i (Raises f) => Some (k, i, FailedWith f)
  | Clearing k _ i IsCancelled => Some (k, i, Unresolved)
  | Follower _ _ _ _ => None
  end.

Definition timer_of (i : nat) (w : World) : Prop := exists at_ key, (at_, key, i) ∈ timers w.

Record Inv (w : World) : Prop := {
  v_owns : forall c x k i f, callers w !! c = Some x -> owns x = Some (k, i, f) ->
    pending_loads w !! k = Some i /\ futures w !! i = Some f /\ ~ timer_of i w;
  v_uniq : forall c c' x x' k k' i f f', callers w !! c = Some x -> callers w !! c' = Some x' ->
    owns x = Some (k, i, f) -> owns x' = Some (k', i, f') -> c = c';
  v_pending : forall k i, pending_loads w !! k = Some i -> (i < length (futures w))%nat;
  v_timers : forall i, timer_of i w -> (i < length (futures w))%nat /\ futures w !! i <> Some Unresolved;
  v_followers : forall c k r i d, callers w !! c = Some (Follower k r i d) -> (i < length (futures w))%nat;
  v_keys : forall c x, callers w !! c = Some x ->
    routing_key_by_request (tracker w) !! request_of x = Some (key_of x);
  v_requests : forall c c' x x', callers w !! c = Some x -> callers w !! c' = Some x' ->
    request_of x = request_of x' -> c = c';
  v_calls : forall c k r i, callers w !! c = Some (Primary k r i) -> remote_calls w !! c = Some k
}.

Lemma Inv_empty_world : Inv new_world.
Proof.
  constructor; unfold new_world; simpl.
  - intros c x k i f E. by rewrite lookup_empty in E.
  - intros c c' x x' k k' i f f' E. by rewrite lookup_empty in E.
  - intros k i E. by rewrite lookup_empty in E.
  - intros i (at_ & key & E). inversion E.
  - intros c k r i d E. by rewrite lookup_empty in E.
  - intros c x E. by rewrite lookup_empty in E.
  - intros c c' x x' E. by rewrite lookup_empty in E.
  - intros c k r i E. by rewrite lookup_empty in E.
Qed.

(** The protection of the callers other than [c], in a changed tracker. *)
Definition Keeps (c : nat) (w : World) (t : MasterRequestTracker) : Prop :=
  forall c' x, c' <> c -> callers w !! c' = Some x -> routing_key_by_request t !! request_of x = Some (key_of x).

Lemma Keeps_same c w : Inv w -> Keeps c w (tracker w).
Proof. intros Hi c' x _ E. by eapply v_keys. Qed.

Lemma Keeps_release c x w :
  Inv w -> callers w !! c = Some x -> Keeps c w (release_routing_key (request_of x) (tracker w)).2.
Proof.
  intros Hi E c' x' Hne E'. rewrite by_request_release, lookup_delete_ne; [by eapply v_keys|].
  intros Hr. apply Hne. symmetry. by eapply (v_requests w Hi).
Qed.

Lemma idle_request_spec rid w c x : idle_request rid w = true -> callers w !! c = Some x -> request_of x <> rid.
Proof.
  unfold idle_request. intros H E Hr. rewrite forallb_forall in H.
  assert (Hin : (c, x) ∈ map_to_list (callers w)) by (by apply elem_of_map_to_list).
  apply list_elem_of_In, H in Hin. simpl in Hin. to_prop. done.
Qed.

(** A caller that holds no load, or gives up what it holds, goes. *)
Lemma Inv_remove c t w :
  Inv w -> Keeps c w t ->
  Inv (mkWorld t (pending_loads w) (futures w) (delete c (callers w)) (remote_calls w) (timers w) (clock w)).
Proof.
  intros Hi Hk. constructor; simpl.
  - intros c' x k i f [_ E]%lookup_delete_Some. by eapply (v_owns w Hi).
  - intros c1 c2 x x' k k' i f f' [_ E1]%lookup_delete_Some [_ E2]%lookup_delete_Some. by eapply (v_uniq w Hi).
  - apply (v_pending w Hi).
  - apply (v_timers w Hi).
  - intros c' k r i d [_ E]%lookup_delete_Some. by eapply (v_followers w Hi).
  - intros c' x [Hne E]%lookup_delete_Some. by eapply Hk.
  - intros c1 c2 x x' [_ E1]%lookup_delete_Some [_ E2]%lookup_delete_Some. by eapply (v_requests w Hi).
  - intros c' k r i [_ E]%lookup_delete_Some. by eapply (v_calls w Hi).
Qed.

(** The caller in charge resolves its future, schedules its eviction and goes. *)
Lemma Inv_finish c x k i f g t w :
  Inv w -> callers w !! c = Some x -> owns x = Some (k, i, f) -> g <> Unresolved -> Keeps c w t ->
  Inv (mkWorld t (pending_loads w) (<[i := g]> (futures w)) (delete c (callers w)) (remote_calls w)
         (timers w ++ [(clock w + ttl, k, i)]) (clock w)).
Proof.
  intros Hi Ec Ho Hg Hk. destruct (v_owns w Hi c x k i f Ec Ho) as (Hp & Hf & Hn).
  assert (Ht : forall j, timer_of j (mkWorld t (pending_loads w) (<[i := g]> (futures w)) (delete c (callers w))
    (remote_calls w) (timers w ++ [(clock w + ttl, k, i)]) (clock w)) -> j = i \/ timer_of j w).
  { intros j (at_ & key & [Hin|Hin]%elem_of_app); [right; by exists at_, key|].
    apply list_elem_of_singleton in Hin. left. congruence. }
  assert (Hother : forall c' x' k' i' f', c' <> c -> callers w !! c' = Some x' -> owns x' = Some (k', i', f') -> i' <> i).
  { intros c' x' k' i' f' Hne E' Ho' ->. apply Hne. by eapply (v_uniq w Hi). }
  constructor; simpl.
  - intros c' x' k' i' f' [Hne E]%lookup_delete_Some Ho'. destruct (v_owns w Hi c' x' k' i' f' E Ho') as (? & ? & ?).
    assert (i' <> i) by (eapply Hother; [by apply not_eq_sym | done..]).
    split; [done|]. split; [by rewrite list_lookup_insert_ne|]. intros [?|?]%Ht; done.
  - intros c1 c2 x1 x2 k1 k2 j f1 f2 [_ E1]%lookup_delete_Some [_ E2]%lookup_delete_Some. by eapply (v_uniq w Hi).
  - intros k' j E. rewrite length_insert. by eapply v_pending.
  - intros j [->|Hj]%Ht; rewrite length_insert.
    + split; [by apply lookup_lt_Some in Hf|]. rewrite list_lookup_insert_eq by (by apply lookup_lt_Some in Hf). congruence.
    + destruct (v_timers w Hi j Hj) as [Hl Hu]. split; [done|]. rewrite list_lookup_insert_ne; [done|].
      intros <-. done.
  - intros c' k' r j d [_ E]%lookup_delete_Some. rewrite length_insert. by eapply (v_followers w Hi).
  - intros c' x' [Hne E]%lookup_delete_Some. by eapply Hk; [apply not_eq_sym|].
  - intros c1 c2 x1 x2 [_ E1]%lookup_delete_Some [_ E2]%lookup_delete_Some. by eapply (v_requests w Hi).
  - intros c' k' r j [_ E]%lookup_delete_Some. by eapply (v_calls w Hi).
Qed.

(** The caller in charge goes on to its [finally] clause. *)
Lemma Inv_switch c x x' k i f f' calls w :
  Inv w -> callers w !! c = Some x -> owns x = Some (k, i, f) -> owns x' = Some (k, i, f') ->
  request_of x' = request_of x -> key_of x' = key_of x -> (forall r j, x' <> Primary k r j) ->
  (forall c', c' <> c -> calls !! c' = remote_calls w !! c') ->
  Inv (mkWorld (tracker w) (pending_loads w) (<[i := f']> (futures w)) (<[c := x']> (callers w)) calls (timers w) (clock w)).
Proof.
  intros Hi Ec Ho Ho' Hr Hkey Hnp Hcalls. destruct (v_owns w Hi c x k i f Ec Ho) as (Hp & Hf & Hn).
  pose proof (lookup_lt_Some _ _ _ Hf) as Hlt.
  assert (Hother : forall c' y k' i' g, c' <> c -> callers w !! c' = Some y -> owns y = Some (k', i', g) -> i' <> i).
  { intros c' y k' i' g Hne E' Hy ->. apply Hne. by eapply (v_uniq w Hi). }
  constructor; simpl.
  - intros c' y k' i' g [[<- <-]|[Hne E]]%lookup_insert_Some Hy.
    + rewrite Ho' in Hy. simplify_eq. split; [done|]. split; [by rewrite list_lookup_insert_eq | done].
    + destruct (v_owns w Hi c' y k' i' g E Hy) as (? & ? & ?).
      assert (i' <> i) by (eapply Hother; [by apply not_eq_sym | done..]).
      split; [done|]. split; [by rewrite list_lookup_insert_ne | done].
  - intros c1 c2 y1 y2 k1 k2 j g1 g2 [[<- <-]|[Hne1 E1]]%lookup_insert_Some [[<- <-]|[Hne2 E2]]%lookup_insert_Some;
      intros H1 H2; try done.
    + rewrite Ho' in H1. simplify_eq. by eapply (v_uniq w Hi).
    + rewrite Ho' in H2. simplify_eq. by eapply (v_uniq w Hi).
    + by eapply (v_uniq w Hi).
  - intros k' j E. rewrite length_insert. by eapply v_pending.
  - intros j Hj. rewrite length_insert. destruct (v_timers w Hi j Hj) as [Hl Hu]. split; [done|].
    rewrite list_lookup_insert_ne; [done|]. intros <-. by apply Hn.
  - intros c' k' r j d [[_ Ey]|[_ E]]%lookup_insert_Some; rewrite length_insert; [subst x'; done | by eapply (v_followers w Hi)].
  - intros c' y [[<- <-]|[_ E]]%lookup_insert_Some; [rewrite Hr, Hkey|]; by eapply v_keys.
  - intros c1 c2 y1 y2 [[<- <-]|[Hne1 E1]]%lookup_insert_Some [[<- <-]|[Hne2 E2]]%lookup_insert_Some; rewrite ?Hr; try done;
      by eapply (v_requests w Hi).
  - intros c' k' r j [[<- Ey]|[Hne E]]%lookup_insert_Some.
    + subst x'. simpl in Ho'. simplify_eq. by destruct (Hnp r i).
    + rewrite Hcalls by (by apply not_eq_sym). by eapply v_calls.
Qed.

(** A new caller, with the request it tracks. *)
Lemma Keeps_track c rid key w :
  Inv w -> idle_request rid w = true -> Keeps c w (track_routing_key key.1 rid key.2 (tracker w)).
Proof.
  intros Hi Hidle c' x _ E. simpl. rewrite lookup_insert_ne; [by eapply v_keys|].
  by apply not_eq_sym, (idle_request_spec rid w c').
Qed.

Lemma Inv_follow c rid key i d t w :
  Inv w -> callers w !! c = None -> idle_request rid w = true -> Keeps c w t ->
  routing_key_by_request t !! rid = Some key -> (i < length (futures w))%nat ->
  Inv (mkWorld t (pending_loads w) (futures w) (<[c := Follower key rid i d]> (callers w)) (remote_calls w) (timers w) (clock w)).
Proof.
  intros Hi Ec Hidle Hk Ht Hl. constructor; simpl.
  - intros c' x k j f [[_ <-]|[_ E]]%lookup_insert_Some; [done|]. by eapply (v_owns w Hi).
  - intros c1 c2 x1 x2 k1 k2 j f1 f2 [[_ <-]|[_ E1]]%lookup_insert_Some [[_ <-]|[_ E2]]%lookup_insert_Some; try done.
    by eapply (v_uniq w Hi).
  - apply (v_pending w Hi).
  - apply (v_timers w Hi).
  - intros c' k r j d' [[_ [= _ _ <- _]]|[_ E]]%lookup_insert_Some; [done|]. by eapply (v_followers w Hi).
  - intros c' x [[_ <-]|[Hne E]]%lookup_insert_Some; [done|]. by eapply Hk; [apply not_eq_sym|].
  - intros c1 c2 x1 x2 [[<- <-]|[_ E1]]%lookup_insert_Some [[<- <-]|[_ E2]]%lookup_insert_Some; simpl; try done.
    + intros Hr. by destruct (idle_request_spec rid w c2 x2 Hidle E2).
    + intros Hr. by destruct (idle_request_spec rid w c1 x1 Hidle E1).
    + by eapply (v_requests w Hi).
  - intros c' k r j [[_ ?]|[_ E]]%lookup_insert_Some; [done|]. by eapply (v_calls w Hi).
Qed.

Lemma Inv_lead c rid key t w :
  Inv w -> callers w !! c = None -> idle_request rid w = true -> Keeps c w t ->
  routing_key_by_request t !! rid = Some key -> pending_loads w !! key = None ->
  Inv (mkWorld t (<[key := length (futures w)]> (pending_loads w)) (futures w ++ [Unresolved])
         (<[c := Primary key rid (length (futures w))]> (callers w)) (<[c := key]> (remote_calls w)) (timers w) (clock w)).
Proof.
  intros Hi Ec Hidle Hk Ht Hp.
  assert (Hold : forall c' x k i f, callers w !! c' = Some x -> owns x = Some (k, i, f) ->
            (i < length (futures w))%nat /\ k <> key).
  { intros c' x k i f E Ho. destruct (v_owns w Hi c' x k i f E Ho) as (Hpk & Hf & _).
    split; [by apply lookup_lt_Some in Hf | congruence]. }
  constructor; simpl.
  - intros c' x k i f [[_ <-]|[_ E]]%lookup_insert_Some; simpl.
    + intros [= <- <- <-]. rewrite lookup_insert_eq, list_lookup_middle by done. split; [done|]. split; [done|].
      intros (at_ & key' & Hin). destruct (v_timers w Hi (length (futures w))) as [? _]; [by exists at_, key' | lia].
    + intros Ho. destruct (Hold c' x k i f E Ho) as [Hl Hne]. destruct (v_owns w Hi c' x k i f E Ho) as (Hpk & Hf & Hn).
      rewrite lookup_insert_ne by done. split; [done|]. split; [by apply lookup_app_l_Some | done].
  - intros c1 c2 x1 x2 k1 k2 j f1 f2 [[<- <-]|[_ E1]]%lookup_insert_Some [[<- <-]|[_ E2]]%lookup_insert_Some; simpl;
      intros H1 H2; try done.
    + simplify_eq. destruct (Hold c2 x2 _ _ _ E2 H2). lia.
    + simplify_eq. destruct (Hold c1 x1 _ _ _ E1 H1). lia.
    + by eapply (v_uniq w Hi).
  - intros k j. rewrite length_app. simpl. intros [[_ <-]|[_ E]]%lookup_insert_Some; [lia|].
    apply (v_pending w Hi) in E. lia.
  - intros j Hj. destruct (v_timers w Hi j Hj) as [Hl Hu]. rewrite length_app, lookup_app_l by done. split; [lia | done].
  - intros c' k r j d [[_ ?]|[_ E]]%lookup_insert_Some; [done|]. rewrite length_app. apply (v_followers w Hi) in E. lia.
  - intros c' x [[_ <-]|[Hne E]]%lookup_insert_Some; [done|]. by eapply Hk; [apply not_eq_sym|].
  - intros c1 c2 x1 x2 [[<- <-]|[_ E1]]%lookup_insert_Some [[<- <-]|[_ E2]]%lookup_insert_Some; simpl; try done.
    + intros Hr. by destruct (idle_request_spec rid w c2 x2 Hidle E2).
    + intros Hr. by destruct (idle_request_spec rid w c1 x1 Hidle E1).
    + by eapply (v_requests w Hi).
  - intros c' k r j [[<- [= <- _ _]]|[Hne E]]%lookup_insert_Some; [by rewrite lookup_insert_eq|].
    rewrite lookup_insert_ne by done. by eapply (v_calls w Hi).
Qed.

Lemma Inv_tracker t w :
  Inv w -> (forall c x, callers w !! c = Some x -> routing_key_by_request t !! request_of x = Some (key_of x)) ->
  Inv (mkWorld t (pending_loads w) (futures w) (callers w) (remote_calls w) (timers w) (clock w)).
Proof. intros [] Hk. constructor; simpl; done. Qed.

Lemma Inv_calls calls w :
  Inv w -> (forall c k r i, callers w !! c = Some (Primary k r i) -> calls !! c = remote_calls w !! c) ->
  Inv (mkWorld (tracker w) (pending_loads w) (futures w) (callers w) calls (timers w) (clock w)).
Proof.
  intros Hi Hc. pose proof Hi as []. constructor; simpl; try done.
  intros c k r i E. rewrite (Hc _ _ _ _ E). eauto.
Qed.

(** A timer has fired, or time has passed. *)
Lemma Inv_timers pending ts now w :
  Inv w -> (forall e, e ∈ ts -> e ∈ timers w) ->
  (forall k i, pending !! k = Some i -> pending_loads w !! k = Some i) ->
  (forall k i, pending_loads w !! k = Some i -> pending !! k = Some i \/ timer_of i w) ->
  Inv (mkWorld (tracker w) pending (futures w) (callers w) (remote_calls w) ts now).
Proof.
  intros Hi Hts Hsub Hsup.
  assert (Ht : forall i, timer_of i (mkWorld (tracker w) pending (futures w) (callers w) (remote_calls w) ts now) ->
            timer_of i w) by (intros i (at_ & k & Hin); exists at_, k; by apply Hts).
  constructor; simpl; try (by destruct Hi).
  - intros c x k i f E Ho. destruct (v_owns w Hi c x k i f E Ho) as (Hp & Hf & Hn).
    split; [by destruct (Hsup k i Hp)|]. split; [done|]. intros H%Ht. done.
  - intros k i E. by eapply (v_pending w Hi), Hsub.
  - intros i H%Ht. by apply (v_timers w Hi).
Qed.

Lemma Inv_leave c x exit w :
  Inv w -> callers w !! c = Some x -> Inv (leave c (request_of x) exit w).2.
Proof. intros Hi E. by apply (Inv_remove c (release_routing_key (request_of x) (tracker w)).2 w), (Keeps_release c x). Qed.

Lemma Keeps_retrack c rid key w :
  Inv w -> idle_request rid w = true ->
  Keeps c w (release_routing_key rid (track_routing_key key.1 rid key.2 (tracker w))).2.
Proof.
  intros Hi Hidle c' x Hne E. rewrite by_request_release, lookup_delete_ne; [by apply (Keeps_track c rid key w Hi Hidle c' x)|].
  by apply not_eq_sym, (idle_request_spec rid w c').
Qed.

Lemma Inv_ensure wt c rid key cloud believed w :
  Inv w -> callers w !! c = None -> idle_request rid w = true ->
  Inv (ensure_model_loaded wt c rid key cloud believed w).2.
Proof.
  intros Hi Ec Hidle. pose proof (Keeps_track c rid key w Hi Hidle) as Hk.
  unfold ensure_model_loaded. destruct cloud; [done|]. simpl. destruct believed.
  - apply Inv_tracker; [done|]. intros c' x E. apply (Hk c' x); [congruence | done].
  - destruct (pending_loads w !! key) as [i|] eqn:Ep; simpl.
    + destruct (get_or Unresolved (futures w !! i)) as [| |[e|]]; simpl.
      * apply (Inv_follow c rid key i (clock w + wt) _ w Hi Ec Hidle Hk); [|by eapply v_pending].
        simpl. rewrite lookup_insert_eq. by destruct key.
      * by apply (Inv_remove c _ w).
      * by apply (Inv_remove c _ w Hi), Keeps_retrack.
      * by apply (Inv_remove c _ w Hi), Keeps_retrack.
    + apply (Inv_lead c rid key _ w Hi Ec Hidle Hk); [|done]. simpl. rewrite lookup_insert_eq. by destruct key.
Qed.

Lemma schedule_eviction_true k i w :
  pending_loads w !! k = Some i ->
  schedule_eviction k i w = mkWorld (tracker w) (pending_loads w) (futures w) (callers w) (remote_calls w)
    (timers w ++ [(clock w + ttl, k, i)]) (clock w).
Proof. intros E. unfold schedule_eviction. by rewrite bool_decide_true. Qed.

Lemma Inv_load_ends c k rid i r w :
  Inv w -> callers w !! c = Some (Primary k rid i) -> Inv (load_ends c k rid i r w).2.
Proof.
  intros Hi E. destruct (v_owns w Hi c _ k i Unresolved E eq_refl) as (Hp & Hf & Hn).
  assert (Hother : forall c', c' <> c -> delete c (remote_calls w) !! c' = remote_calls w !! c')
    by (intros c' Hne; by rewrite lookup_delete_ne by done).
  assert (Hfail : forall f, Inv (with_callers <[c := Clearing k rid i (Raises f)]>
                            (set_future i (FailedWith f) (with_calls (delete c) w)))).
  { intros f. by apply (Inv_switch c (Primary k rid i) (Clearing k rid i (Raises f)) k i Unresolved (FailedWith f)
      (delete c (remote_calls w)) w). }
  assert (Hcancel : Inv (with_callers <[c := Clearing k rid i IsCancelled]> (with_calls (delete c) w))).
  { pose proof (Inv_switch c (Primary k rid i) (Clearing k rid i IsCancelled) k i Unresolved Unresolved
      (delete c (remote_calls w)) w Hi E) as H. rewrite list_insert_id in H by done. by apply H. }
  destruct r as [r|e|[]]; simpl; try apply Hfail; [|done].
  rewrite schedule_eviction_true by done. unfold with_callers, set_future, with_calls. simpl.
  pose proof (Inv_calls (delete c (remote_calls w)) (mkWorld (tracker w) (pending_loads w) (<[i := Resolved]> (futures w))
    (delete c (callers w)) (remote_calls w) (timers w ++ [(clock w + ttl, k, i)]) (clock w))) as H.
  simpl in H. apply H.
  - eapply Inv_finish; [done..|]. by apply Keeps_same.
  - intros c' k' r' i' [Hne _]%lookup_delete_Some. by apply Hother, not_eq_sym.
Qed.

Lemma Inv_cleared c k rid i exit w :
  Inv w -> callers w !! c = Some (Clearing k rid i exit) -> Inv (cleared c k rid i exit w).2.
Proof.
  intros Hi E. unfold cleared.
  assert (Ho : exists f, owns (Clearing k rid i exit) = Some (k, i, f)) by (destruct exit; simpl; eauto).
  destruct Ho as [f Ho]. destruct (v_owns w Hi c _ k i f E Ho) as (Hp & Hf & Hn).
  rewrite schedule_eviction_true by done. simpl. rewrite Hf.
  pose proof (fun g Hg => Inv_finish c _ k i f g _ w Hi E Ho Hg (Keeps_release c _ w Hi E)) as H. simpl in H.
  destruct f as [| |f].
  - by apply (H (FailedWith (Http (load_error RESOURCE_UNAVAILABLE)))).
  - by destruct exit.
  - specialize (H (FailedWith f)). rewrite list_insert_id in H by done. by apply H.
Qed.

Lemma Inv_action bus wt a w : Inv w -> Inv (step bus wt a w).2.
Proof.
  intros Hi. destruct a as [c rid key cloud believed|c r|c|c in_call|c|c|n|c|rid|d]; simpl.
  - destruct (bool_decide _ && _) eqn:G; [|done]. apply andb_true_iff in G as [[Ec _]%bool_decide_eq_true Hidle].
    by apply Inv_ensure.
  - destruct (callers w !! c) as [[k rid i| |]|] eqn:E; try done. by apply Inv_load_ends.
  - destruct (callers w !! c) as [[|k rid i exit|]|] eqn:E; try done. by apply Inv_cleared.
  - destruct (callers w !! c) as [[k rid i|k rid i exit|k rid i dl]|] eqn:E; try done.
    + pose proof (Inv_switch c (Primary k rid i) (Clearing k rid i IsCancelled) k i Unresolved Unresolved) as H.
      destruct (v_owns w Hi c _ k i Unresolved E eq_refl) as (_ & Hf & _).
      destruct (bus && in_call).
      * specialize (H (remote_calls w) w Hi E). rewrite list_insert_id in H by done. by apply H.
      * specialize (H (delete c (remote_calls w)) w Hi E). rewrite list_insert_id in H by done. apply H; try done.
        intros c' Hne. by rewrite lookup_delete_ne by done.
    + by apply (Inv_leave c (Clearing k rid i exit)).
    + by apply (Inv_leave c (Follower k rid i dl)).
  - destruct (callers w !! c) as [[| |k rid i dl]|] eqn:E; try done.
    destruct (get_or Unresolved (futures w !! i)) as [| |[e|]]; simpl; [done| | |].
    + apply (Inv_remove c (tracker w) w Hi). by apply Keeps_same.
    + by apply (Inv_leave c (Follower k rid i dl) (Raises (Http e)) w).
    + by apply (Inv_leave c (Follower k rid i dl) (Raises Other) w).
  - destruct (callers w !! c) as [[| |k rid i dl]|] eqn:E; try done. destruct (dl <=? clock w); [|done].
    by apply (Inv_leave c (Follower k rid i dl) (Raises Other) w).
  - destruct (timers w !! n) as [[[at_ k] i]|] eqn:E; [|done]. destruct (at_ <=? clock w); [|done].
    apply list_elem_of_lookup_2 in E. apply Inv_timers; [done|..].
    + intros e He. by apply list_elem_of_delete_inv in He.
    + intros k' i' H. case_match; [by apply lookup_delete_Some in H as [_ ?] | done].
    + intros k' i' H. destruct (decide (k' = k)) as [->|Hne].
      * destruct (decide (i' = i)) as [->|Hi']; [right; by exists at_, k|]. left.
        rewrite bool_decide_false by congruence. done.
      * left. case_match; [by rewrite lookup_delete_ne|done].
  - destruct (callers w !! c) as [[k rid i| |]|] eqn:E; try done;
      apply (Inv_calls (delete c (remote_calls w)) w Hi); intros c' k' r' i' E'; rewrite lookup_delete_ne; congruence.
  - destruct (idle_request rid w) eqn:Hidle; [|done]. apply (Inv_tracker _ w Hi). intros c x E.
    rewrite by_request_release, lookup_delete_ne; [by apply (v_keys w Hi c)|].
    by apply not_eq_sym, (idle_request_spec rid w c).
  - apply (Inv_timers (pending_loads w) (timers w) _ w Hi); [done..|]. by left.
Qed.

Lemma Inv_runs bus wt acts w : Inv w -> Inv (play bus wt acts w).
Proof. revert w. induction acts as [|a acts IH]; intros w Hi; simpl; [done|]. by apply IH, Inv_action. Qed.

(** ** One remote call per model *)

Definition reached (bus : bool) (wt : Z) (acts : list Action) : World := play bus wt acts new_world.

Lemma Inv_reached bus wt acts : Inv (reached bus wt acts).
Proof. apply Inv_runs, Inv_empty_world. Qed.

(** No cancellation strikes a primary caller between the start of its HTTP call
    and the end of the race. *)
Definition careful (bus : bool) (a : Action) : bool :=
  match a with Interrupt _ in_call => negb (bus && in_call) | _ => true end.

(** Every remote call has its caller waiting for it. *)
Definition Calls (w : World) : Prop :=
  forall c k, remote_calls w !! c = Some k -> exists rid i, callers w !! c = Some (Primary k rid i).

Lemma Calls_remove c w w' :
  Calls w -> callers w' = delete c (callers w) ->
  (remote_calls w' = delete c (remote_calls w) \/ remote_calls w' = remote_calls w /\
     forall k rid i, callers w !! c <> Some (Primary k rid i)) ->
  Calls w'.
Proof.
  intros H Ec Hr c' k. rewrite Ec. intros E. destruct (decide (c' = c)) as [->|Hne].
  - destruct Hr as [Hr|[Hr Hn]]; rewrite Hr in E; [by rewrite lookup_delete_eq in E|].
    destruct (H c k E) as (rid & i & Ei). by destruct (Hn k rid i).
  - rewrite lookup_delete_ne by done. apply H.
    destruct Hr as [Hr|[Hr _]]; rewrite Hr in E; by rewrite ?lookup_delete_ne in E by done.
Qed.

Lemma Calls_insert c x w w' :
  Calls w -> callers w' = <[c := x]> (callers w) ->
  (forall k, remote_calls w' !! c = Some k -> exists rid i, x = Primary k rid i) ->
  (forall c', c' <> c -> remote_calls w' !! c' = remote_calls w !! c') ->
  Calls w'.
Proof.
  intros H Ec Hx Hr c' k. rewrite Ec. intros E. destruct (decide (c' = c)) as [->|Hne].
  - rewrite lookup_insert_eq. destruct (Hx k E) as (rid & i & ->). eauto.
  - rewrite lookup_insert_ne by done. apply H. by rewrite <- Hr.
Qed.

Lemma remote_calls_delete c c' w : c' <> c -> delete c (remote_calls w) !! c' = remote_calls w !! c'.
Proof. intros H. by rewrite lookup_delete_ne. Qed.

Lemma Calls_drop c k (P : Prop) w : delete c (remote_calls w) !! c = Some k -> P.
Proof. by rewrite lookup_delete_eq. Qed.

Lemma Calls_ensure wt c rid key cloud believed w :
  Calls w -> callers w !! c = None -> remote_calls w !! c = None ->
  Calls (ensure_model_loaded wt c rid key cloud believed w).2.
Proof.
  intros H Ec Er. unfold ensure_model_loaded. destruct cloud; [done|]. destruct believed; [done|]. simpl.
  destruct (pending_loads w !! key) as [i|]; simpl.
  - destruct (get_or Unresolved (futures w !! i)) as [| |[e|]]; simpl.
    + eapply Calls_insert; [done..| |done]. simpl. congruence.
    + eapply Calls_remove; [done..|]. right. split; [done|]. simpl. congruence.
    + eapply Calls_remove; [done..|]. right. split; [done|]. simpl. congruence.
    + eapply Calls_remove; [done..|]. right. split; [done|]. simpl. congruence.
  - eapply Calls_insert; [done..| |]; simpl; [|intros c' Hne; by rewrite lookup_insert_ne by done].
    rewrite lookup_insert_eq. intros k [= <-]. eauto.
Qed.

Lemma Calls_load_ends c k rid i r w : Calls w -> Calls (load_ends c k rid i r w).2.
Proof.
  intros H.
  assert (Hc : forall x fs, Calls (mkWorld (tracker w) (pending_loads w) fs (<[c := x]> (callers w))
            (delete c (remote_calls w)) (timers w) (clock w))).
  { intros x fs. eapply Calls_insert; [done..| |]; simpl; [intros k'; apply Calls_drop | intros c' Hne; by apply remote_calls_delete]. }
  destruct r as [r|e|[]]; simpl; try apply Hc.
  unfold schedule_eviction. case_match; (eapply Calls_remove; [done..|]); by left.
Qed.

Lemma Calls_step bus wt a w : Calls w -> careful bus a = true -> Calls (step bus wt a w).2.
Proof.
  intros H Hcare. destruct a as [c rid key cloud believed|c r|c|c in_call|c|c|n|c|rid|d]; simpl.
  - destruct (bool_decide _ && _) eqn:G; [|done]. apply andb_true_iff in G as [[Ec Er]%bool_decide_eq_true _].
    by apply Calls_ensure.
  - destruct (callers w !! c) as [[k rid i| |]|] eqn:E; try done. by apply Calls_load_ends.
  - destruct (callers w !! c) as [[|k rid i exit|]|] eqn:E; try done. unfold cleared, schedule_eviction.
    repeat case_match; simpl; (eapply Calls_remove; [done..|]); right; (split; [done|]); congruence.
  - simpl in Hcare. destruct (callers w !! c) as [[k rid i|k rid i exit|k rid i dl]|] eqn:E; try done.
    + destruct (bus && in_call); [done|].
      eapply Calls_insert; [done..| |]; simpl; [intros k'; apply Calls_drop | intros c' Hne; by apply remote_calls_delete].
    + eapply Calls_remove; [done..|]. right. split; [done|]. congruence.
    + eapply Calls_remove; [done..|]. right. split; [done|]. congruence.
  - destruct (callers w !! c) as [[| |k rid i dl]|] eqn:E; try done.
    destruct (get_or Unresolved (futures w !! i)) as [| |[e|]]; simpl; [done|..];
      (eapply Calls_remove; [done..|]); right; (split; [done|]); congruence.
  - destruct (callers w !! c) as [[| |k rid i dl]|] eqn:E; try done. destruct (dl <=? clock w); [|done].
    eapply Calls_remove; [done..|]. right. split; [done|]. congruence.
  - destruct (timers w !! n) as [[[at_ k] i]|]; [|done]. by destruct (at_ <=? clock w).
  - destruct (callers w !! c) as [[k rid i| |]|] eqn:E; try done;
      intros c' k'; simpl; intros [Hne Ek]%lookup_delete_Some; by apply H.
  - by destruct (idle_request rid w).
  - done.
Qed.

Lemma Calls_play bus wt acts w :
  Calls w -> forallb (careful bus) acts = true -> Calls (play bus wt acts w).
Proof.
  revert w. induction acts as [|a acts IH]; intros w H; simpl; [done|]. intros [Ha Hacts]%andb_true_iff.
  apply IH; [|done]. by apply Calls_step.
Qed.

(** C8: Without such cancellations there is at most one load of a model on a
    gateway in flight. *)
Theorem single_flight bus wt acts c1 c2 key :
  forallb (careful bus) acts = true ->
  remote_calls (reached bus wt acts) !! c1 = Some key -> remote_calls (reached bus wt acts) !! c2 = Some key ->
  c1 = c2.
Proof.
  intros Hcare E1 E2. pose proof (Inv_reached bus wt acts) as Hi.
  assert (Hc : Calls (reached bus wt acts)).
  { apply Calls_play; [|done]. intros c k E. simpl in E. by rewrite lookup_empty in E. }
  destruct (Hc c1 key E1) as (r1 & i1 & H1), (Hc c2 key E2) as (r2 & i2 & H2).
  destruct (v_owns _ Hi c1 _ key i1 Unresolved H1 eq_refl) as (Hp1 & _).
  destruct (v_owns _ Hi c2 _ key i2 Unresolved H2 eq_refl) as (Hp2 & _).
  simplify_eq. by eapply (v_uniq _ Hi c1 c2).
Qed.

(** ** Followers are answered *)

(** No cancellation strikes a caller that clears the loading state. *)
Definition calm_step (a : Action) (w : World) : bool :=
  match a with
  | Interrupt c _ => match callers w !! c with Some (Clearing _ _ _ _) => false | _ => true end
  | _ => true
  end.

Fixpoint calm (bus : bool) (wt : Z) (acts : list Action) (w : World) : bool :=
  match acts with [] => true | a :: acts' => calm_step a w && calm bus wt acts' (step bus wt a w).2 end.

Definition owned (w : World) (k : LoadKey) (i : nat) (f : Future) : Prop :=
  exists c x, callers w !! c = Some x /\ owns x = Some (k, i, f).

(** An open future has a caller at work on it, and a pending load has one or
    will soon be forgotten. *)
Record Alive (w : World) : Prop := {
  l_future : forall i, futures w !! i = Some Unresolved -> exists k, owned w k i Unresolved;
  l_pending : forall k i, pending_loads w !! k = Some i ->
    (exists f, owned w k i f) \/ exists at_, (at_, k, i) ∈ timers w /\ at_ <= clock w + ttl
}.

Lemma Alive_keep w w' :
  Alive w -> futures w' = futures w -> pending_loads w' = pending_loads w -> timers w' = timers w ->
  clock w <= clock w' ->
  (forall c x o, callers w !! c = Some x -> owns x = Some o -> exists x', callers w' !! c = Some x' /\ owns x' = Some o) ->
  Alive w'.
Proof.
  intros [Hf Hp] Ef Ep Et Ec Hk. constructor; rewrite ?Ef, ?Ep, ?Et.
  - intros i E. destruct (Hf i E) as (k & c & x & Ex & Eo). destruct (Hk c x _ Ex Eo) as (x' & ? & ?).
    by exists k, c, x'.
  - intros k i E. destruct (Hp k i E) as [(f & c & x & Ex & Eo)|(at_ & Hin & Hle)].
    + destruct (Hk c x _ Ex Eo) as (x' & ? & ?). left. by exists f, c, x'.
    + right. exists at_. split; [done | lia].
Qed.

(** A caller that holds nothing comes, goes or changes. *)
Lemma owns_insert c y (m : gmap nat Caller) :
  (forall x, m !! c = Some x -> owns x = owns y \/ owns x = None) ->
  forall c' x o, m !! c' = Some x -> owns x = Some o -> exists x', <[c := y]> m !! c' = Some x' /\ owns x' = Some o.
Proof.
  intros H c' x o E Ho. destruct (decide (c' = c)) as [->|Hne].
  - exists y. rewrite lookup_insert_eq. split; [done|]. destruct (H x E); congruence.
  - exists x. by rewrite lookup_insert_ne by done.
Qed.

Lemma owns_delete c (m : gmap nat Caller) :
  (forall x, m !! c = Some x -> owns x = None) ->
  forall c' x o, m !! c' = Some x -> owns x = Some o -> exists x', delete c m !! c' = Some x' /\ owns x' = Some o.
Proof.
  intros H c' x o E Ho. exists x. split; [|done]. apply lookup_delete_Some. split; [|done].
  intros ->. rewrite (H x E) in Ho. done.
Qed.

(** A caller resolves the future it holds. *)
Lemma Alive_resolve c x k i f g w w' :
  Inv w -> Alive w -> callers w !! c = Some x -> owns x = Some (k, i, f) -> g <> Unresolved ->
  futures w' = <[i := g]> (futures w) -> pending_loads w' = pending_loads w -> clock w' = clock w ->
  (forall c', c' <> c -> callers w' !! c' = callers w !! c') -> (forall e, e ∈ timers w -> e ∈ timers w') ->
  ((exists x' f', callers w' !! c = Some x' /\ owns x' = Some (k, i, f')) \/ (clock w + ttl, k, i) ∈ timers w') ->
  Alive w'.
Proof.
  intros Hi [Hf Hp] Ex Eo Hg Ef Ep Ec Hcs Ht Hlast. destruct (v_owns w Hi c x k i f Ex Eo) as (Hpk & Hfi & _).
  constructor.
  - intros j. rewrite Ef. intros [(<- & H & _)|[Hne E]]%list_lookup_insert_Some; [done|].
    destruct (Hf j E) as (k' & c' & x' & Ex' & Eo'). exists k', c', x'. rewrite Hcs; [done|].
    intros ->. rewrite Ex in Ex'. by simplify_eq.
  - intros k' j. rewrite Ep. intros E. destruct (decide (k' = k)) as [->|Hne].
    + assert (j = i) as -> by congruence. destruct Hlast as [(x' & f' & ? & ?)|?].
      * left. by exists f', c, x'.
      * right. exists (clock w + ttl). rewrite Ec. done.
    + destruct (Hp k' j E) as [(f' & c' & x' & Ex' & Eo')|(at_ & Hin & Hle)].
      * left. exists f', c', x'. rewrite Hcs; [done|]. intros ->. rewrite Ex in Ex'. by simplify_eq.
      * right. exists at_. rewrite Ec. auto.
Qed.

Lemma Alive_lead c rid key t calls w :
  Alive w -> callers w !! c = None ->
  Alive (mkWorld t (<[key := length (futures w)]> (pending_loads w)) (futures w ++ [Unresolved])
           (<[c := Primary key rid (length (futures w))]> (callers w)) calls (timers w) (clock w)).
Proof.
  intros [Hf Hp] Ec.
  assert (Hk : forall k i f, owned w k i f -> owned (mkWorld t (<[key := length (futures w)]> (pending_loads w))
    (futures w ++ [Unresolved]) (<[c := Primary key rid (length (futures w))]> (callers w)) calls (timers w) (clock w)) k i f).
  { intros k i f (c' & x & Ex & Eo). exists c', x. simpl. by rewrite lookup_insert_ne by congruence. }
  assert (Hnew : owned (mkWorld t (<[key := length (futures w)]> (pending_loads w))
    (futures w ++ [Unresolved]) (<[c := Primary key rid (length (futures w))]> (callers w)) calls (timers w) (clock w))
    key (length (futures w)) Unresolved).
  { exists c. eexists. simpl. by rewrite lookup_insert_eq. }
  constructor; simpl.
  - intros i [E|[Hl E]]%lookup_app_Some; [destruct (Hf i E) as [k ?]; eauto|].
    apply list_lookup_singleton_Some in E as [E _]. assert (i = length (futures w)) as -> by lia. eauto.
  - intros k i [[<- <-]|[Hne E]]%lookup_insert_Some; [eauto|].
    destruct (Hp k i E) as [[f Ho]|?]; eauto.
Qed.

Lemma Alive_ensure wt c rid key cloud believed w :
  Alive w -> callers w !! c = None -> Alive (ensure_model_loaded wt c rid key cloud believed w).2.
Proof.
  intros H Ec. unfold ensure_model_loaded. destruct cloud; [done|]. simpl.
  destruct believed; [by apply (Alive_keep w); simpl; eauto|]. destruct (pending_loads w !! key) as [i|]; simpl.
  - destruct (get_or Unresolved (futures w !! i)) as [| |[e|]]; simpl; eapply Alive_keep; simpl; try done.
    + apply owns_insert. congruence.
    + apply owns_delete. congruence.
    + apply owns_delete. congruence.
    + apply owns_delete. congruence.
  - by apply Alive_lead.
Qed.

Lemma Alive_load_ends c k rid i r w :
  Inv w -> Alive w -> callers w !! c = Some (Primary k rid i) -> Alive (load_ends c k rid i r w).2.
Proof.
  intros Hi H E. destruct (v_owns w Hi c _ k i Unresolved E eq_refl) as (Hp & Hf & Hn).
  assert (Hc : forall f, Alive (with_callers <[c := Clearing k rid i (Raises f)]> (set_future i (FailedWith f)
            (with_calls (delete c) w)))).
  { intros f. eapply (Alive_resolve c _ k i Unresolved (FailedWith f) w); simpl; try done.
    - intros c' Hne. by rewrite lookup_insert_ne.
    - left. eexists _, _. by rewrite lookup_insert_eq. }
  destruct r as [r|e|[]]; simpl; try apply Hc.
  - rewrite schedule_eviction_true by done. eapply (Alive_resolve c _ k i Unresolved Resolved w); simpl; try done.
    + intros c' Hne. by rewrite lookup_delete_ne.
    + set_solver.
    + right. set_solver.
  - eapply Alive_keep; simpl; try done. apply owns_insert. rewrite E. intros x [= <-]. by left.
Qed.

Lemma Alive_cleared c k rid i exit w :
  Inv w -> Alive w -> callers w !! c = Some (Clearing k rid i exit) -> Alive (cleared c k rid i exit w).2.
Proof.
  intros Hi H E. assert (Ho : exists f, owns (Clearing k rid i exit) = Some (k, i, f)) by (destruct exit; simpl; eauto).
  destruct Ho as [f Ho]. destruct (v_owns w Hi c _ k i f E Ho) as (Hp & Hf & Hn).
  unfold cleared. rewrite schedule_eviction_true by done. simpl. rewrite Hf.
  destruct f as [| |f]; [|by destruct exit|]; simpl.
  - eapply (Alive_resolve c _ k i Unresolved (FailedWith (Http (load_error RESOURCE_UNAVAILABLE))) w);
      simpl; try done; [by intros c' Hne; rewrite lookup_delete_ne | set_solver | right; set_solver].
  - eapply (Alive_resolve c _ k i (FailedWith f) (FailedWith f) w); simpl; try done;
      [by rewrite list_insert_id | by intros c' Hne; rewrite lookup_delete_ne | set_solver | right; set_solver].
Qed.

Lemma Alive_timer at_ k i n w :
  Inv w -> Alive w -> timers w !! n = Some (at_, k, i) ->
  Alive (mkWorld (tracker w)
           (if bool_decide (pending_loads w !! k = Some i) then delete k (pending_loads w) else pending_loads w)
           (futures w) (callers w) (remote_calls w) (delete n (timers w)) (clock w)).
Proof.
  intros Hi [Hf Hp] E. constructor; simpl; [done|]. intros k' j Hj.
  assert (Hjk : pending_loads w !! k' = Some j /\ (k', j) <> (k, i)).
  { case_bool_decide.
    - apply lookup_delete_Some in Hj as [Hne Hj]. split; [done | congruence].
    - split; [done|]. intros [= -> ->]. done. }
  destruct Hjk as [Hj' Hne]. destruct (Hp k' j Hj') as [Ho|(at' & Hin & Hle)]; [by left|]. right.
  exists at'. split; [|done]. apply list_elem_of_lookup in Hin as [m Hm].
  destruct (decide (m = n)) as [->|Hmn]; [rewrite E in Hm; by simplify_eq|].
  rewrite delete_take_drop. apply elem_of_app. destruct (decide (m < n)%nat) as [Hl|Hl].
  - left. apply list_elem_of_lookup. exists m. by rewrite lookup_take_lt.
  - right. apply list_elem_of_lookup. exists (m - S n)%nat. rewrite lookup_drop. by replace (S n + (m - S n))%nat with m by lia.
Qed.

Lemma Alive_action bus wt a w : Inv w -> Alive w -> calm_step a w = true -> Alive (step bus wt a w).2.
Proof.
  intros Hi H Hcalm.
  assert (Hleave : forall c k rid i dl exit, callers w !! c = Some (Follower k rid i dl) -> Alive (leave c rid exit w).2).
  { intros c k rid i dl exit E. eapply Alive_keep; simpl; try done. apply owns_delete. rewrite E. by intros x [= <-]. }
  destruct a as [c rid key cloud believed|c r|c|c in_call|c|c|n|c|rid|d]; simpl.
  - destruct (bool_decide _ && _) eqn:G; [|done]. apply andb_true_iff in G as [[Ec Er]%bool_decide_eq_true _].
    by apply Alive_ensure.
  - destruct (callers w !! c) as [[k rid i| |]|] eqn:E; try done. by apply Alive_load_ends.
  - destruct (callers w !! c) as [[|k rid i exit|]|] eqn:E; try done. by apply Alive_cleared.
  - simpl in Hcalm. destruct (callers w !! c) as [[k rid i|k rid i exit|k rid i dl]|] eqn:E; try done; [|by eapply (Hleave c _ _ _ _ IsCancelled)].
    eapply (Alive_keep w); [done|..]; try (by destruct (bus && in_call)).
    simpl. destruct (bus && in_call); apply owns_insert; simpl; rewrite E; intros x [= <-]; by left.
  - destruct (callers w !! c) as [[| |k rid i dl]|] eqn:E; try done.
    destruct (get_or Unresolved (futures w !! i)) as [| |[e|]]; simpl; [done| |by eapply (Hleave c _ _ _ _ IsCancelled)..].
    eapply Alive_keep; simpl; try done. apply owns_delete. rewrite E. by intros x [= <-].
  - destruct (callers w !! c) as [[| |k rid i dl]|] eqn:E; try done. destruct (dl <=? clock w); [by eapply (Hleave c _ _ _ _ IsCancelled) | done].
  - destruct (timers w !! n) as [[[at_ k] i]|] eqn:E; [|done]. destruct (at_ <=? clock w); [|done]. by apply (Alive_timer at_).
  - destruct (callers w !! c) as [[k rid i| |]|] eqn:E; try done; by apply (Alive_keep w); simpl; eauto.
  - destruct (idle_request rid w); [by apply (Alive_keep w); simpl; eauto | done].
  - apply (Alive_keep w); simpl; eauto. lia.
Qed.

Lemma Alive_runs bus wt acts w : Inv w -> Alive w -> calm bus wt acts w = true -> Alive (play bus wt acts w).
Proof.
  revert w. induction acts as [|a acts IH]; intros w Hi H; simpl; [done|]. intros [Ha Hacts]%andb_true_iff.
  apply IH; [by apply Inv_action | by apply Alive_action | done].
Qed.

(** C32: A follower's future is resolved, so that its wait can end, or a caller is
    at work on it; and a cached result is forgotten within ten seconds. *)
Theorem followers_not_abandoned bus wt acts :
  calm bus wt acts new_world = true ->
  let w := reached bus wt acts in
  (forall c key rid i deadline, callers w !! c = Some (Follower key rid i deadline) ->
     exists f, futures w !! i = Some f /\ (f <> Unresolved \/ exists k, owned w k i Unresolved)) /\
  (forall key i, pending_loads w !! key = Some i ->
     (exists f, owned w key i f) \/ exists at_, (at_, key, i) ∈ timers w /\ at_ <= clock w + ttl).
Proof.
  intros Hc w. assert (Hi : Inv w) by apply Inv_reached.
  assert (Ha : Alive w).
  { apply Alive_runs; [apply Inv_empty_world| |done]. constructor; simpl; [intros i E | intros k i E];
      [by rewrite lookup_nil in E | by rewrite lookup_empty in E]. }
  split; [|apply (l_pending w Ha)]. intros c key rid i dl E. apply (v_followers w Hi) in E.
  apply lookup_lt_is_Some in E as [f Ef]. exists f. split; [done|].
  destruct f; [right; by apply (l_future w Ha) | by left..].
Qed.

(** ** A failure that stays *)

Record Stuck (key : LoadKey) (i : nat) (f : Failure) (w : World) : Prop := {
  s_pending : pending_loads w !! key = Some i;
  s_future : futures w !! i = Some (FailedWith f);
  s_timer : ~ timer_of i w;
  s_owner : forall k g, ~ owned w k i g
}.

Lemma Stuck_keep key i f w w' :
  Stuck key i f w -> pending_loads w' !! key = pending_loads w !! key -> futures w' !! i = futures w !! i ->
  (timer_of i w' -> timer_of i w) ->
  (forall c x k g, callers w' !! c = Some x -> owns x = Some (k, i, g) -> exists k g, owned w k i g) ->
  Stuck key i f w'.
Proof.
  intros [Hp Hf Ht Ho] Ep Ef Et Eo. constructor; [by rewrite Ep | by rewrite Ef | tauto|].
  intros k g (c & x & Ex & Hx). destruct (Eo c x k g Ex Hx) as (k' & g' & H). by eapply Ho.
Qed.

Lemma Stuck_ensure key i f wt c rid key' cloud believed w :
  Stuck key i f w -> callers w !! c = None -> Stuck key i f (ensure_model_loaded wt c rid key' cloud believed w).2.
Proof.
  intros H Ec. pose proof H as [Hp Hf Ht Ho]. unfold ensure_model_loaded. destruct cloud; [done|]. simpl.
  destruct believed; [by apply (Stuck_keep key i f w); simpl; try done; intros c' x k g E Eo; exists k, g, c', x|].
  destruct (pending_loads w !! key') as [j|] eqn:Ep; simpl.
  - destruct (get_or Unresolved (futures w !! j)) as [| |[e|]]; simpl; apply (Stuck_keep key i f w); simpl; try done;
      intros c' x k g E Eo; try (apply lookup_delete_Some in E as [_ E]; by exists k, g, c', x).
    apply lookup_insert_Some in E as [[_ <-]|[_ E]]; [done | by exists k, g, c', x].
  - pose proof (lookup_lt_Some _ _ _ Hf). apply (Stuck_keep key i f w); simpl; try done.
    + rewrite lookup_insert_ne; [done | congruence].
    + by rewrite lookup_app_l.
    + intros c' x k g [[_ <-]|[_ E]]%lookup_insert_Some Eo; [|by exists k, g, c', x].
      simpl in Eo. simplify_eq. lia.
Qed.

Lemma Stuck_load_ends key i f c k rid j r w :
  Inv w -> Stuck key i f w -> callers w !! c = Some (Primary k rid j) -> Stuck key i f (load_ends c k rid j r w).2.
Proof.
  intros Hi H E. pose proof H as [Hp Hf Ht Ho].
  assert (Hne : j <> i) by (intros ->; eapply Ho; by exists c, (Primary k rid i)).
  destruct (v_owns w Hi c _ k j Unresolved E eq_refl) as (Hpk & _).
  assert (Hins : forall exit fs calls, fs !! i = futures w !! i ->
    Stuck key i f (mkWorld (tracker w) (pending_loads w) fs (<[c := Clearing k rid j exit]> (callers w)) calls (timers w) (clock w))).
  { intros exit fs calls Efs. apply (Stuck_keep key i f w); simpl; try done.
    intros c' x k' g [[_ <-]|[_ E']]%lookup_insert_Some Eo; [|by exists k', g, c', x].
    destruct exit; simpl in Eo; by simplify_eq. }
  assert (Hfail : forall f', Stuck key i f (with_callers <[c := Clearing k rid j (Raises f')]>
            (set_future j (FailedWith f') (with_calls (delete c) w)))).
  { intros f'. apply (Hins (Raises f') (<[j := FailedWith f']> (futures w)) (delete c (remote_calls w))).
    by rewrite list_lookup_insert_ne. }
  destruct r as [r|e|[]]; simpl; try apply Hfail; [|by apply (Hins IsCancelled (futures w) (delete c (remote_calls w)))].
  rewrite schedule_eviction_true by done. apply (Stuck_keep key i f w); simpl; try done.
  - by rewrite list_lookup_insert_ne.
  - intros (at_ & k' & [Hin|Hin]%elem_of_app); [by exists at_, k'|]. apply list_elem_of_singleton in Hin. by simplify_eq.
  - intros c' x k' g [_ E']%lookup_delete_Some Eo. by exists k', g, c', x.
Qed.

Lemma Stuck_cleared key i f c k rid j exit w :
  Inv w -> Stuck key i f w -> callers w !! c = Some (Clearing k rid j exit) -> Stuck key i f (cleared c k rid j exit w).2.
Proof.
  intros Hi H E. pose proof H as [Hp Hf Ht Ho].
  assert (Howns : exists g, owns (Clearing k rid j exit) = Some (k, j, g)) by (destruct exit; simpl; eauto).
  destruct Howns as [g Hg]. assert (Hne : j <> i) by (intros ->; eapply Ho; by eexists _, _).
  destruct (v_owns w Hi c _ k j g E Hg) as (Hpk & Hfj & _).
  unfold cleared. rewrite schedule_eviction_true by done. simpl. rewrite Hfj.
  destruct g; apply (Stuck_keep key i f w); simpl; try done; rewrite ?list_lookup_insert_ne by done; try done;
    first [ intros (at_ & k' & [Hin|Hin]%elem_of_app);
              [by exists at_, k' | apply list_elem_of_singleton in Hin; by simplify_eq]
          | intros c' x k' g' [_ E']%lookup_delete_Some Eo; by exists k', g', c', x ].
Qed.

Lemma Stuck_step key i f bus wt a w : Inv w -> Stuck key i f w -> Stuck key i f (step bus wt a w).2.
Proof.
  intros Hi H.
  assert (Hdel : forall c t, Stuck key i f (mkWorld t (pending_loads w) (futures w) (delete c (callers w)) (remote_calls w)
    (timers w) (clock w))).
  { intros c t. apply (Stuck_keep key i f w); simpl; try done.
    intros c' x k g [_ E]%lookup_delete_Some Eo. by exists k, g, c', x. }
  assert (Hsame : forall t calls now, Stuck key i f (mkWorld t (pending_loads w) (futures w) (callers w) calls
    (timers w) now)).
  { intros t calls now. apply (Stuck_keep key i f w); simpl; try done. intros c' x k g E Eo. by exists k, g, c', x. }
  destruct a as [c rid key' cloud believed|c r|c|c in_call|c|c|n|c|rid|d]; simpl.
  - destruct (bool_decide _ && _) eqn:G; [|done]. apply andb_true_iff in G as [[Ec Er]%bool_decide_eq_true _].
    by apply Stuck_ensure.
  - destruct (callers w !! c) as [[k rid j| |]|] eqn:E; try done. by apply Stuck_load_ends.
  - destruct (callers w !! c) as [[|k rid j exit|]|] eqn:E; try done. by apply Stuck_cleared.
  - destruct (callers w !! c) as [[k rid j|k rid j exit|k rid j dl]|] eqn:E; try done; try apply Hdel.
    destruct (bus && in_call); (apply (Stuck_keep key i f w); simpl; try done);
      intros c' x k' g [[_ <-]|[_ E']]%lookup_insert_Some Eo; try (by exists k', g, c', x);
      simpl in Eo; simplify_eq; eexists _, _, c, _; (split; [exact E | done]).
  - destruct (callers w !! c) as [[| |k rid j dl]|] eqn:E; try done.
    destruct (get_or Unresolved (futures w !! j)) as [| |[e|]]; simpl; [done | apply Hdel..].
  - destruct (callers w !! c) as [[| |k rid j dl]|] eqn:E; try done. destruct (dl <=? clock w); [apply Hdel | done].
  - destruct (timers w !! n) as [[[at_ k] j]|] eqn:E; [|done]. destruct (at_ <=? clock w); [|done].
    apply list_elem_of_lookup_2 in E. pose proof H as [Hp Hf Ht Ho]. apply (Stuck_keep key i f w); simpl; try done.
    + case_bool_decide as Hk; [|done]. rewrite lookup_delete_ne; [done|]. intros ->.
      rewrite Hp in Hk. simplify_eq. destruct Ht. by exists at_, key.
    + intros (at' & k' & Hin%list_elem_of_delete_inv). by exists at', k'.
    + intros c' x k' g E' Eo. by exists k', g, c', x.
  - destruct (callers w !! c) as [[k rid j| |]|] eqn:E; try done; apply Hsame.
  - destruct (idle_request rid w); [apply Hsame | done].
  - apply Hsame.
Qed.

Lemma Stuck_play key i f bus wt acts w : Inv w -> Stuck key i f w -> Stuck key i f (play bus wt acts w).
Proof.
  revert w. induction acts as [|a acts IH]; intros w Hi H; simpl; [done|].
  apply IH; [by apply Inv_action | by apply Stuck_step].
Qed.

Lemma play_app bus wt acts acts' w : play bus wt (acts ++ acts') w = play bus wt acts' (play bus wt acts w).
Proof. revert w. induction acts as [|a acts IH]; intros w; simpl; [done|]. apply IH. Qed.

(** What a caller is told when the future it joins has failed. *)
Definition told (f : Failure) : Failure :=
  match f with Http e => Http e | Other => Http (load_error RESOURCE_UNAVAILABLE) end.

(** C22: A cancellation that strikes the clean-up after a failed load leaves the
    failure in place for good: whatever happens, every later caller for that
    model and gateway is told of it at once and tries no load, if the model is
    not a cloud model, telemetry does not report it as loaded (such callers
    succeed), and the caller's request is not at another call. *)
Theorem stale_failure_permanent bus wt acts c key rid i f b acts' c' rid' :
  callers (reached bus wt acts) !! c = Some (Clearing key rid i (Raises f)) ->
  let w := reached bus wt (acts ++ Interrupt c b :: acts') in
  callers w !! c' = None -> remote_calls w !! c' = None -> idle_request rid' w = true ->
  (step bus wt (Ensure c' rid' key false false) w).1 = [Fails c' (Raises (told f))] /\
  remote_calls (step bus wt (Ensure c' rid' key false false) w).2 = remote_calls w.
Proof.
  intros Ec w Hc' Hr' Hid. set (w0 := reached bus wt acts) in *. assert (Hi0 : Inv w0) by apply Inv_reached.
  destruct (v_owns w0 Hi0 c _ key i (FailedWith f) Ec eq_refl) as (Hp & Hf & Ht).
  assert (H0 : Stuck key i f (step bus wt (Interrupt c b) w0).2).
  { simpl. rewrite Ec. constructor; simpl; [done..|].
    intros k g (c2 & x & E & Eo). simpl in E. apply lookup_delete_Some in E as [Hne E]. apply Hne. by eapply (v_uniq w0 Hi0). }
  assert (Hw : w = play bus wt acts' (step bus wt (Interrupt c b) w0).2).
  { unfold w, reached. rewrite play_app. done. }
  assert (H : Stuck key i f w) by (rewrite Hw; by apply Stuck_play; [apply Inv_action|]).
  pose proof H as [Hp' Hf' _ _]. cbn [step]. rewrite bool_decide_true by done. rewrite Hid. simpl.
  rewrite Hp'. simpl. rewrite Hf'. by destruct f.
Qed.

(** ** Attempts, retries and protection *)

(** The idle timeout fires exactly when silence has lasted for its budget: the
    last sign of life is that old, none came since, and at every earlier time
    there was a fresher one. It never fires before the first sign of life. *)
Theorem idle_timeout_exact budget ps :
  0 < budget -> StronglySorted Z.le ps ->
  match wait_for_idle_timeout budget ps with
  | None => ps = []
  | Some e =>
      e - budget ∈ ps /\ (forall p, p ∈ ps -> ~ (e - budget < p < e)) /\
      (forall t p0, p0 ∈ ps -> p0 <= t < e -> exists p, p ∈ ps /\ p <= t < p + budget)
  end.
Proof.
  intros Hb Hs. destruct ps as [|p ps]; [done|]. simpl.
  destruct (idle_expiry_spec budget p ps _ Hb Hs eq_refl) as (H1 & H2 & H3). split; [done|]. split; [done|].
  intros t p0 Hin Ht. apply H3. split; [|lia]. apply StronglySorted_inv in Hs as [_ Hf].
  rewrite Forall_forall in Hf. apply elem_of_cons in Hin as [->|Hin]; [lia|]. specialize (Hf p0 Hin). lia.
Qed.

(** A load makes at least one attempt and at most one more than the configured
    retries; every attempt but the last failed in a way that is retried, and the
    last one decides the result. *)
Theorem load_exact load_retry_count attempts :
  let '(result, n) := call_remote_load load_retry_count attempts in
  (1 <= n <= S load_retry_count)%nat /\
  (forall j, (1 <= j < n)%nat -> exists e, classify (attempts j) = inr e) /\
  match classify (attempts n) with
  | inl r => result = r
  | inr e => n = S load_retry_count /\ result = LoadFailed e
  end.
Proof.
  pose proof (load_loop_spec attempts load_retry_count 1 (load_error RESOURCE_UNAVAILABLE)) as H.
  unfold call_remote_load. destruct (load_loop _ _ _ _) as [result n]. destruct H as (H1 & H2 & H3).
  split; [done|]. split; [|by replace (1 + n - 1)%nat with n in H3 by lia].
  intros j Hj. destruct (H2 (j - 1)%nat ltac:(lia)) as [e He]. exists e. by replace (1 + (j - 1))%nat with j in He by lia.
Qed.

Lemma Covered_step bus wt a w : Covers (tracker w) -> Covers (tracker (step bus wt a w).2).
Proof.
  intros H. destruct a as [c rid key cloud believed|c r|c|c in_call|c|c|n|c|rid|d]; simpl;
    try unfold ensure_model_loaded; try unfold load_ends; try unfold cleared, schedule_eviction; unfold coalesced;
    repeat case_match; simplify_eq; simpl; eauto using Covers_track, Covers_release.
Qed.

Lemma Covered_play bus wt acts w : Covers (tracker w) -> Covers (tracker (play bus wt acts w)).
Proof. revert w. induction acts as [|a acts IH]; intros w H; simpl; [done|]. by apply IH, Covered_step. Qed.

(** The request that a caller at work, or one that enters, makes. *)
Definition request_for (a : Action) (c : nat) (w : World) : option string :=
  match a with Ensure _ rid _ _ _ => Some rid | _ => request_of <$> callers w !! c end.

(** While a caller waits for a load, its model is among the keys in flight on
    the gateway, and so protected from eviction; a caller that fails gives its
    protection up. *)
Theorem load_protected bus wt acts :
  let w := reached bus wt acts in
  (forall c x, callers w !! c = Some x -> (key_of x).2 ∈ get_routing_keys_in_flight (key_of x).1 (tracker w)) /\
  (forall a c exit, Fails c exit ∈ (step bus wt a w).1 ->
     exists rid, request_for a c w = Some rid /\ routing_key_by_request (tracker (step bus wt a w).2) !! rid = None).
Proof.
  intros w. assert (Hi : Inv w) by apply Inv_reached. split.
  - intros c x E. assert (Hc : Covers (tracker w)) by apply Covered_play, Covers_new.
    apply (v_keys w Hi) in E. destruct (key_of x) as [g rk]. by apply (Hc (request_of x)).
  - intros a c exit. destruct a as [c' rid key cloud believed|c' r|c'|c' in_call|c'|c'|n|c'|rid|d]; simpl;
      try unfold ensure_model_loaded; try unfold load_ends; try unfold cleared; unfold coalesced;
      repeat case_match; simplify_eq; simpl; intros Hin; try (by apply elem_of_nil in Hin);
      apply list_elem_of_singleton in Hin; simplify_eq; simpl; eexists; (split; [done || (by simplify_option_eq)|]);
      rewrite by_request_release; by rewrite lookup_delete_eq.
Qed.

(** ** What the code does *)

Definition gk : LoadKey := ("edge-1", "llama")%string.
Definition vram : LoadError := mkLoadError INSUFFICIENT_VRAM true.

(** Two callers share one load, which fails. *)
Definition shared_failure : list Action :=
  [Ensure 1 "r1" gk false false; Ensure 2 "r2" gk false false; LoadEnds 1 (LoadFailed vram)].

(** A cancellation while the loading state is cleared: a million seconds later
    the old failure is still the answer. *)
Example cancelled_failure_sticks :
  outputs true 200 (shared_failure ++ [Interrupt 1 false; Tick 1000000; Ensure 3 "r3" gk false false]) new_world =
    [Fails 1 IsCancelled; Fails 3 (Raises (Http vram))].
Proof. vm_compute. reflexivity. Qed.

(** A cancelled primary leaves its HTTP call running; once its future is
    forgotten, the same model is loaded twice at the same time. *)
Example orphaned_load_breaks_single_flight :
  let w := reached true 200 [Ensure 1 "r1" gk false false; Interrupt 1 true; ClearDone 1; Tick 10; TimerFires 0;
                             Ensure 2 "r2" gk false false] in
  remote_calls w !! 1%nat = Some gk /\ remote_calls w !! 2%nat = Some gk.
Proof. vm_compute. split; reflexivity. Qed.

(** For ten seconds after a load, a caller is told of success although the
    model is no longer believed to be loaded. *)
Example cached_result_after_unload :
  outputs true 200 [Ensure 1 "r1" gk false false; LoadEnds 1 (Loaded ok_response); Tick 9;
                    Ensure 2 "r2" gk false false] new_world = [Returns 1; Returns 2].
Proof. vm_compute. reflexivity. Qed.

(** A failure event beats the remote's own answer. *)
Example event_beats_http :
  attempt true false (Some (Some (mkResolution FAILED (Some "evicted"%string)))) (Some (Answered ok_response)) =
    Raised (HTTPError vram).
Proof. reflexivity. Qed.

(** An event about another model with a common prefix resolves the wait. *)
Example prefix_model_confused :
  first_terminal "llama-70b" "edge-1" "remote-1"
    [(LOADED, mkEvent (Some "llama") (Some "edge-1") None None None None)]%string = Some (mkResolution LOADED None).
Proof. reflexivity. Qed.

(** The URL of the tenth gateway contains the id of the first. *)
Example url_of_another_gateway :
  gateway_matches (mkEvent (Some "llama") None (Some "http://edge-10:8000") None None None)%string "edge-1" "remote-1" = true.
Proof. reflexivity. Qed.

(** ** Witnesses *)

Definition racing : list Action :=
  [Ensure 1 "r1" gk false false; Ensure 2 "r2" gk false false; Interrupt 1 false; ClearDone 1; Tick 10; TimerFires 0;
   Ensure 3 "r3" gk false false].

(** The third caller's load is the only one in flight. *)
Lemma single_flight_witness :
  remote_calls (reached true 200 racing) !! 3%nat = Some gk /\ remote_calls (reached true 200 racing) !! 1%nat <> Some gk.
Proof.
  assert (H3 : remote_calls (reached true 200 racing) !! 3%nat = Some gk) by (vm_compute; reflexivity).
  split; [exact H3|]. intros H1.
  assert (Hc : forallb (careful true) racing = true) by (vm_compute; reflexivity).
  pose proof (single_flight true 200 racing 1 3 gk Hc H1 H3) as E. discriminate E.
Defined.

Lemma followers_not_abandoned_witness :
  exists f, futures (reached true 200 shared_failure) !! 0%nat = Some f /\
    (f <> Unresolved \/ exists k, owned (reached true 200 shared_failure) k 0 Unresolved).
Proof.
  assert (Hc : calm true 200 shared_failure new_world = true) by (vm_compute; reflexivity).
  destruct (followers_not_abandoned true 200 shared_failure Hc) as [H _].
  apply (H 2%nat gk "r2"%string 0%nat 200). vm_compute. reflexivity.
Defined.

Lemma stale_failure_permanent_witness :
  let w := reached true 200 (shared_failure ++ Interrupt 1 false :: [Wake 2; Tick 3600]) in
  (step true 200 (Ensure 3 "r3" gk false false) w).1 = [Fails 3 (Raises (Http vram))].
Proof.
  intros w.
  destruct (stale_failure_permanent true 200 shared_failure 1 gk "r1" 0 (Http vram) false [Wake 2; Tick 3600] 3 "r3")
    as [H _]; [vm_compute; reflexivity.. | exact H].
Defined.

Lemma idle_timeout_exact_witness :
  wait_for_idle_timeout 30 [0; 20; 45; 90] = Some 75 /\ 75 - 30 ∈ [0; 20; 45; 90].
Proof.
  split; [reflexivity|].
  assert (Hs : StronglySorted Z.le [0; 20; 45; 90]) by (repeat constructor; lia).
  pose proof (idle_timeout_exact 30 [0; 20; 45; 90] ltac:(lia) Hs) as H. apply H.
Defined.
