(* ===== verification/TelemetryTracker.v ===== *)
(** * Telemetry of a polled remote
    ([systems/federation/remote/telemetry/state_tracker.py] and
    [systems/federation/remote/api/telemetry.py])

    A remote without a WebSocket is polled.  It keeps its current state and the
    state of the last reported change, and answers a poll with the difference,
    which it repeats until it believes it delivered.

    Model lists are Python lists, shared between the states that hold them: a
    [State] holds references into a [heap], and appending to a list changes it
    for every state. *)
From stdpp Require Import base gmap sets list strings.
From Stdlib Require Import ZArith Lia.
From S2P Require Import Prelude.
Open Scope Z_scope.

(** ** Fields *)

(** [TRACKED_FIELDS], those that are lists and the others. *)
Inductive ListField : Type := loaded_models | busy_models | available_models.
Inductive IntField : Type := active_requests | vram_free_mb | ram_free_mb.

#[global] Instance ListField_eq_dec : EqDecision ListField.
Proof. solve_decision. Defined.
#[global] Instance IntField_eq_dec : EqDecision IntField.
Proof. solve_decision. Defined.

#[global] Instance ListField_countable : Countable ListField.
Proof.
  refine (inj_countable'
    (fun f => match f with loaded_models => 0%nat | busy_models => 1%nat | available_models => 2%nat end)
    (fun n => match n with O => loaded_models | 1%nat => busy_models | _ => available_models end) _).
  by intros [].
Defined.
#[global] Instance IntField_countable : Countable IntField.
Proof.
  refine (inj_countable'
    (fun f => match f with active_requests => 0%nat | vram_free_mb => 1%nat | ram_free_mb => 2%nat end)
    (fun n => match n with O => active_requests | 1%nat => vram_free_mb | _ => ram_free_mb end) _).
  by intros [].
Defined.

Definition LIST_FIELDS : list ListField := [loaded_models; busy_models; available_models].
Definition INT_FIELDS : list IntField := [active_requests; vram_free_mb; ram_free_mb].

(** A state dict. *)
Record State := mkState { lists : gmap ListField nat; ints : gmap IntField Z }.

#[global] Instance State_eq_dec : EqDecision State.
Proof. solve_decision. Defined.

Definition empty_state : State := mkState ∅ ∅.

Notation Heap := (list (list string)).

Definition deref (h : Heap) (r : nat) : list string := get_or [] (h !! r).

(** [state.get(key) or []] *)
Definition list_of (h : Heap) (s : State) (f : ListField) : list string :=
  match lists s !! f with Some r => deref h r | None => [] end.

(** ** Deltas *)

(** A JSON delta of a list: added and removed, or the whole list. *)
Inductive ListDelta : Type :=
  | Diff (added removed : list string)
  | Full (l : list string).

Record Changes := mkChanges { list_changes : gmap ListField ListDelta; int_changes : gmap IntField (option Z) }.

Definition no_changes : Changes := mkChanges ∅ ∅.

Definition sorted_set (s : gset string) : list string := sort_by String.ltb (elements s).

Definition compute_list_delta (prev_list curr_list : list string) : ListDelta :=
  let prev_set := list_to_set prev_list : gset string in
  let curr_set := list_to_set curr_list : gset string in
  let added := sorted_set (curr_set ∖ prev_set) in
  let removed := sorted_set (prev_set ∖ curr_set) in
  let delta_size := Z.of_nat (length added + length removed) in
  let full_size := Z.of_nat (length curr_list) in
  if (0 <? delta_size) && ((full_size =? 0) || (2 * delta_size <? full_size))
  then Diff added removed else Full curr_list.

(** [prev_value != curr_value] *)
Definition list_differs (h : Heap) (prev curr : State) (f : ListField) : bool :=
  negb (bool_decide ((deref h <$> lists prev !! f) = (deref h <$> lists curr !! f))).
Definition int_differs (prev curr : State) (f : IntField) : bool :=
  negb (bool_decide (ints prev !! f = ints curr !! f)).

Definition compute_delta (h : Heap) (prev curr : State) : Changes :=
  mkChanges
    (list_to_map (omap (fun f =>
       if list_differs h prev curr f then Some (f, compute_list_delta (list_of h prev f) (list_of h curr f)) else None)
       LIST_FIELDS))
    (list_to_map (omap (fun f => if int_differs prev curr f then Some (f, ints curr !! f) else None) INT_FIELDS)).

Definition is_empty (c : Changes) : bool :=
  bool_decide (list_changes c = ∅) && bool_decide (int_changes c = ∅).

(** [accumulated.update(c)] *)
Definition update_changes (acc c : Changes) : Changes :=
  mkChanges (list_changes c ∪ list_changes acc) (int_changes c ∪ int_changes acc).

(** ** The tracker *)

Record CriticalEvent := mkCritical { event : string; model_id : string }.

#[global] Instance CriticalEvent_eq_dec : EqDecision CriticalEvent.
Proof. solve_decision. Defined.

Record TelemetryStateTracker := mkTracker {
  previous_state : State;
  current_state : State;
  sequence_number : Z;
  critical_events : list CriticalEvent;
  accumulated_delta : Changes;
  accumulated_seq : Z;
  last_poll_seq : Z
}.

Definition new_tracker : TelemetryStateTracker := mkTracker empty_state empty_state 0 [] no_changes 0 0.

Definition update (state : State) (t : TelemetryStateTracker) : TelemetryStateTracker :=
  mkTracker (previous_state t) state (sequence_number t) (critical_events t) (accumulated_delta t)
    (accumulated_seq t) (last_poll_seq t).

Definition add_critical_event (e : CriticalEvent) (t : TelemetryStateTracker) : TelemetryStateTracker :=
  mkTracker (previous_state t) (current_state t) (sequence_number t) (critical_events t ++ [e]) (accumulated_delta t)
    (accumulated_seq t) (last_poll_seq t).

(** What [get_delta] returns; a delta without changes and events has only its
    sequence number. *)
Record TelemetryDelta := mkDelta { changes : Changes; delta_seq : Z; delta_events : list CriticalEvent }.

Definition get_delta (h : Heap) (t : TelemetryStateTracker) : TelemetryDelta * TelemetryStateTracker :=
  let acc := if (last_poll_seq t =? sequence_number t) && negb (is_empty (accumulated_delta t)) then no_changes
             else accumulated_delta t in
  let poll_seq := sequence_number t in
  let current_delta := compute_delta h (previous_state t) (current_state t) in
  let '(prev, seq, acc, acc_seq) :=
    if is_empty current_delta then (previous_state t, sequence_number t, acc, accumulated_seq t)
    else (current_state t, sequence_number t + 1, update_changes acc current_delta, sequence_number t + 1) in
  (mkDelta acc seq (critical_events t),
   mkTracker prev (current_state t) seq [] acc acc_seq poll_seq).

(** A state with its lists, as it goes over the wire. *)
Record Snapshot := mkSnapshot { snap_lists : gmap ListField (list string); snap_ints : gmap IntField Z; snap_seq : Z }.

Definition get_full_snapshot (h : Heap) (t : TelemetryStateTracker) : Snapshot :=
  mkSnapshot (deref h <$> (lists (current_state t) ∪ lists (previous_state t)))
    (ints (current_state t) ∪ ints (previous_state t)) (sequence_number t).

(** ** The endpoint *)

(** A relay also keeps what its edge has told it. *)
Record Remote := mkRemote { heap : Heap; edge_state : State; tracker : TelemetryStateTracker }.

Definition new_remote : Remote := mkRemote [] empty_state new_tracker.

(** A new list object. *)
Definition alloc (l : list string) (h : Heap) : nat * Heap := (length h, h ++ [l]).

Definition set_list (f : ListField) (l : list string) (hs : Heap * State) : Heap * State :=
  let '(r, h) := alloc l hs.1 in (h, mkState (<[f := r]> (lists hs.2)) (ints hs.2)).

(** [l.append(x)] on the list of a field. *)
Definition append_list (f : ListField) (x : string) (hs : Heap * State) : Heap * State :=
  match lists hs.2 !! f with
  | Some r => (<[r := deref hs.1 r ++ [x]]> hs.1, hs.2)
  | None => hs
  end.

Inductive EdgeMessage : Type :=
  | model_loaded | model_unloaded | model_busy | model_idle | loading_failed | other_message.

(** The payload of a message of the edge: the fields present and not [None]. *)
Record EdgeData := mkEdgeData {
  data_lists : list (ListField * list string);
  data_vram : option Z;
  data_ram : option Z;
  data_model_id : option string
}.

Definition set_default_list (hs : Heap * State) (f : ListField) : Heap * State :=
  match lists hs.2 !! f with Some _ => hs | None => set_list f [] hs end.

Definition set_int (f : IntField) (v : option Z) (s : State) : State :=
  match v with Some z => mkState (lists s) (<[f := z]> (ints s)) | None => s end.

Definition set_default_int (s : State) (f : IntField) : State :=
  match ints s !! f with Some _ => s | None => set_int f (Some 0) s end.

(** The cached state with the fields of the message, completed. *)
Definition edge_fields (d : EdgeData) (hs : Heap * State) : Heap * State :=
  let '(h, s) := fold_left (fun hs fl => set_list fl.1 fl.2 hs) (data_lists d) hs in
  let s := set_int ram_free_mb (data_ram d) (set_int vram_free_mb (data_vram d) s) in
  fold_left set_default_list LIST_FIELDS (h, fold_left set_default_int INT_FIELDS s).

Definition without (m : string) (l : list string) : list string := List.filter (fun x => negb (bool_decide (x = m))) l.

Definition append_new (f : ListField) (m : string) (hs : Heap * State) : Heap * State :=
  if bool_decide (m ∈ list_of hs.1 hs.2 f) then hs else append_list f m hs.

Definition drop_from (f : ListField) (m : string) (hs : Heap * State) : Heap * State :=
  set_list f (without m (list_of hs.1 hs.2 f)) hs.

(** The branch of the message type: the event and the changed state. *)
Definition lifecycle (msg_type : EdgeMessage) (m : string) (hs : Heap * State)
  : option CriticalEvent * (Heap * State) :=
  match msg_type with
  | model_loaded => (Some (mkCritical "MODEL_LOADED" m), append_new loaded_models m hs)
  | model_unloaded => (Some (mkCritical "MODEL_UNLOADED" m), drop_from busy_models m (drop_from loaded_models m hs))
  | model_busy => (Some (mkCritical "MODEL_BUSY" m), append_new busy_models m hs)
  | model_idle => (Some (mkCritical "MODEL_IDLE" m), drop_from busy_models m hs)
  | loading_failed => (Some (mkCritical "MODEL_LOAD_FAILED" m), hs)
  | other_message => (None, hs)
  end.

Definition ingest_edge_telemetry (msg_type : EdgeMessage) (d : EdgeData) (r : Remote) : Remote :=
  let hs := edge_fields d (heap r, edge_state r) in
  let '(e, (h, s)) :=
    match data_model_id d with Some m => lifecycle msg_type m hs | None => (None, hs) end in
  let t := match e with Some e => add_critical_event e (tracker r) | None => tracker r end in
  mkRemote h s (update s t).

(** The models that were loaded, and the cleared state. *)
Definition handle_edge_disconnected (r : Remote) : list string * Remote :=
  let l f := list_of (heap r) (edge_state r) f in
  if bool_decide (l loaded_models = []) && bool_decide (l busy_models = []) && bool_decide (l available_models = [])
  then ([], r)
  else
    let '(h, s) := fold_left (fun hs f => set_list f [] hs) LIST_FIELDS (heap r, edge_state r) in
    (l loaded_models, mkRemote h s (update s (tracker r))).

(** The state of a local gateway, read for each poll: new lists. *)
Record GatewayState := mkGatewayState { g_lists : list (ListField * list string); g_vram : Z; g_ram : Z }.

Definition read_gateway (g : GatewayState) (h : Heap) : Heap * State :=
  fold_left (fun hs fl => set_list fl.1 fl.2 hs) (g_lists g)
    (h, mkState ∅ (<[active_requests := 0]> (<[vram_free_mb := g_vram g]> {[ram_free_mb := g_ram g]}))).

Inductive PollResponse : Type :=
  | SnapshotResponse (s : Snapshot)
  | DeltaResponse (d : TelemetryDelta)
  | NoContent
  | ServiceUnavailable.

(** [get_telemetry]; [gateway] is the local gateway's state, [None] for a
    relay. *)
Definition get_telemetry (gateway : option GatewayState) (full : bool) (r : Remote) : PollResponse * Remote :=
  match gateway, bool_decide (edge_state r = empty_state) with
  | None, true => (ServiceUnavailable, r)
  | _, _ =>
      let r :=
        match gateway with
        | Some g => let '(h, s) := read_gateway g (heap r) in mkRemote h (edge_state r) (update s (tracker r))
        | None => r
        end in
      if full then (SnapshotResponse (get_full_snapshot (heap r) (tracker r)), r)
      else
        let '(d, t) := get_delta (heap r) (tracker r) in
        (if is_empty (changes d) && bool_decide (delta_events d = []) then NoContent else DeltaResponse d,
         mkRemote (heap r) (edge_state r) t)
  end.

(** ** Deltas: facts *)

Lemma elem_of_sorted_set x s : x ∈ sorted_set s <-> x ∈ s.
Proof. unfold sorted_set. by rewrite elem_of_sort_by, elem_of_elements. Qed.

(** The lists of a state. *)
Definition contents (h : Heap) (s : State) : gmap ListField (list string) := deref h <$> lists s.

Lemma list_of_contents h s f : list_of h s f = get_or [] (contents h s !! f).
Proof. unfold list_of, contents. rewrite lookup_fmap. by destruct (lists s !! f). Qed.

Lemma list_differs_spec h p c f : list_differs h p c f = false <-> contents h p !! f = contents h c !! f.
Proof. unfold list_differs, contents. rewrite !lookup_fmap, negb_false_iff. apply bool_decide_eq_true. Qed.

Lemma int_differs_spec p c f : int_differs p c f = false <-> ints p !! f = ints c !! f.
Proof. unfold int_differs. rewrite negb_false_iff. apply bool_decide_eq_true. Qed.

Lemma compute_delta_lists h p c f :
  list_changes (compute_delta h p c) !! f =
  if list_differs h p c f then Some (compute_list_delta (list_of h p f) (list_of h c f)) else None.
Proof.
  unfold compute_delta. simpl.
  destruct (list_differs h p c loaded_models) eqn:E1, (list_differs h p c busy_models) eqn:E2,
    (list_differs h p c available_models) eqn:E3; destruct f; simpl; rewrite ?E1, ?E2, ?E3; simplify_map_eq; done.
Qed.

Lemma compute_delta_ints h p c f :
  int_changes (compute_delta h p c) !! f = if int_differs p c f then Some (ints c !! f) else None.
Proof.
  unfold compute_delta. simpl.
  destruct (int_differs p c active_requests) eqn:E1, (int_differs p c vram_free_mb) eqn:E2,
    (int_differs p c ram_free_mb) eqn:E3; destruct f; simpl; rewrite ?E1, ?E2, ?E3; simplify_map_eq; done.
Qed.

Lemma is_empty_spec c : is_empty c = true <-> list_changes c = ∅ /\ int_changes c = ∅.
Proof. unfold is_empty. by rewrite andb_true_iff, !bool_decide_eq_true. Qed.

(** No delta: nothing differs. *)
Lemma compute_delta_empty h p c :
  is_empty (compute_delta h p c) = true ->
  (forall f, contents h p !! f = contents h c !! f) /\ (forall f, ints p !! f = ints c !! f).
Proof.
  intros [H1 H2]%is_empty_spec. split; intros f.
  - apply list_differs_spec. pose proof (compute_delta_lists h p c f) as E. rewrite H1, lookup_empty in E.
    by destruct (list_differs h p c f).
  - apply int_differs_spec. pose proof (compute_delta_ints h p c f) as E. rewrite H2, lookup_empty in E.
    by destruct (int_differs p c f).
Qed.

(** ** States on the heap *)

(** All references of a state exist. *)
Definition valid (h : Heap) (s : State) : Prop := forall f r, lists s !! f = Some r -> (r < length h)%nat.

Lemma contents_app h h' s : valid h s -> contents (h ++ h') s = contents h s.
Proof.
  intros H. unfold contents. apply map_eq. intros f. rewrite !lookup_fmap.
  destruct (lists s !! f) as [r|] eqn:E; simpl; [|done]. f_equal. unfold deref. by rewrite lookup_app_l by (by eapply H).
Qed.

Lemma set_list_spec f l h s :
  valid h s ->
  let '(h', s') := set_list f l (h, s) in
  h' = h ++ [l] /\ valid h' s' /\ contents h' s' = <[f := l]> (contents h s) /\ ints s' = ints s.
Proof.
  intros H. simpl. split; [done|]. split; [|split; [|done]].
  - intros f' r E. simpl in E. rewrite length_app. simpl.
    apply lookup_insert_Some in E as [[<- <-]|[_ E]]; [lia|]. apply H in E. lia.
  - unfold contents. simpl. rewrite fmap_insert. unfold deref at 1. rewrite list_lookup_middle by done. simpl.
    f_equal. by apply (contents_app h [l] s).
Qed.

(** The three lists of a local gateway, each without repetitions. *)
Definition complete (g : GatewayState) (l : ListField -> list string) : Prop :=
  g_lists g = map (fun f => (f, l f)) LIST_FIELDS /\ forall f, NoDup (l f).

Definition gateway_ints (g : GatewayState) (f : IntField) : Z :=
  match f with active_requests => 0 | vram_free_mb => g_vram g | ram_free_mb => g_ram g end.

Lemma read_gateway_spec g l h :
  complete g l ->
  let '(h', s) := read_gateway g h in
  (exists hs, h' = h ++ hs) /\ valid h' s /\ (forall f, contents h' s !! f = Some (l f)) /\
  (forall f, ints s !! f = Some (gateway_ints g f)).
Proof.
  intros [Hl _]. unfold read_gateway. rewrite Hl.
  set (s0 := mkState ∅ _). assert (H0 : valid h s0) by (intros f r E; simpl in E; by rewrite lookup_empty in E).
  cbn [map LIST_FIELDS fold_left fst snd].
  pose proof (set_list_spec loaded_models (l loaded_models) h s0 H0) as E1.
  destruct (set_list loaded_models _ _) as [h1 s1]. destruct E1 as (-> & V1 & C1 & I1).
  pose proof (set_list_spec busy_models (l busy_models) _ s1 V1) as E2.
  destruct (set_list busy_models _ _) as [h2 s2]. destruct E2 as (-> & V2 & C2 & I2).
  pose proof (set_list_spec available_models (l available_models) _ s2 V2) as E3.
  destruct (set_list available_models _ _) as [h3 s3]. destruct E3 as (-> & V3 & C3 & I3).
  split; [eexists; by rewrite <- !app_assoc|]. split; [done|]. split.
  - intros f. rewrite C3, C2, C1. destruct f; by simplify_map_eq.
  - intros f. rewrite I3, I2, I1. unfold s0. simpl. destruct f; by simplify_map_eq.
Qed.

(** The first delta of a list without repetitions is the whole list. *)
Lemma first_delta l : NoDup l -> compute_list_delta [] l = Full l.
Proof.
  intros Hn. unfold compute_list_delta.
  assert (E1 : (list_to_set l : gset string) ∖ list_to_set [] = list_to_set l) by set_solver.
  assert (E2 : (list_to_set [] : gset string) ∖ list_to_set l = ∅) by set_solver.
  assert (E3 : length (elements (list_to_set l : gset string)) = length l)
    by (by apply (size_list_to_set (C := gset string))).
  rewrite E1, E2. unfold sorted_set. rewrite !length_sort_by, elements_empty, E3. simpl.
  destruct (_ && _) eqn:E; [|done].
  apply andb_true_iff in E as [E [E'|E']%orb_true_iff]; to_prop; lia.
Qed.

(** ** Shared lists *)

(** A relay that appends to a list the tracker has reported already changes the
    report too: as long as the list object of a field is the same in the last
    reported and in the current state, no delta mentions the field, whatever is
    appended. *)
Lemma shared_list_unreported h t f :
  lists (previous_state t) !! f = lists (current_state t) !! f ->
  list_changes (compute_delta h (previous_state t) (current_state t)) !! f = None.
Proof.
  intros E. rewrite compute_delta_lists. rewrite (proj2 (list_differs_spec h _ _ f)); [done|].
  unfold contents. by rewrite !lookup_fmap, E.
Qed.
