(* ===== verification/FederatedGateways.v ===== *)
(** * Gateways of other Stargates
    ([systems/federation/master/manager/federated_gateway_manager.py] and
    [systems/federation/common/types.py])

    The manager keeps what the master knows of every federated gateway: its
    catalog, its models and resources, and when it was last heard of.  It learns
    from messages over a WebSocket ([update_from_event]), from polls
    ([apply_delta], [apply_snapshot]) and from the router, which marks a model as
    loading before it asks for it.  It writes the capacities of loaded models
    into the pool of [CapacityPool].

    The clock counts milliseconds.  A frozenset of model ids is the set of their
    keys.  What is published on the event bus is the list of [Effect]s, in
    order; events for debugging are left out. *)
From stdpp Require Import base gmap sets list strings.
From Stdlib Require Import Ascii ZArith QArith Lia.
From S2P Require Import Prelude PyString ModelId CapacityPool TelemetryTracker.
Open Scope Z_scope.

(** ** Data *)

(** The key of a [ModelId] in a set or dict; its first part is the routing key. *)
Notation MKey := (string * option string)%type.

(** A value of [max_concurrent_requests] as it came in: an [int], a [str], or
    anything [int] refuses (a JSON float does not occur in catalogs). *)
Inductive MaxConcurrent : Type := MInt (z : Z) | MText (s : string) | MOther.

Record ModelResource := mkResource {
  vram_usage : option Z;
  max_concurrent_requests : option MaxConcurrent
}.

Notation Contexts := (gmap string (gmap string (list Z))).

Record FederatedGateway := mkGateway {
  gw_id : string;
  gw_remote : string;
  gw_url : string;
  gw_node : string;
  gw_cloud : bool;
  gw_polled : bool;
  ram_free : option Z;
  vram_free : option Z;
  ram_total : Z;
  vram_total : Z;
  gw_loaded : gset MKey;
  gw_busy : gset MKey;
  gw_loading : gset MKey;
  gw_available : gset MKey;
  gw_activated : option (gset MKey);
  gw_resources : gmap MKey ModelResource;
  gw_measured : gmap MKey Z;
  gw_contexts : Contexts;
  gw_requests : option Z;
  telemetry_timestamp : Z;
  last_heartbeat : Z;
  gw_loaded_at : gmap MKey Z;
  last_sequence_number : Z
}.

(** [replace], field by field. *)
Definition with_node (n : string) (g : FederatedGateway) : FederatedGateway :=
  mkGateway (gw_id g) (gw_remote g) (gw_url g) n (gw_cloud g) (gw_polled g) (ram_free g) (vram_free g) (ram_total g)
    (vram_total g) (gw_loaded g) (gw_busy g) (gw_loading g) (gw_available g) (gw_activated g) (gw_resources g)
    (gw_measured g) (gw_contexts g) (gw_requests g) (telemetry_timestamp g) (last_heartbeat g) (gw_loaded_at g)
    (last_sequence_number g).
Definition with_times (telemetry heartbeat : Z) (g : FederatedGateway) : FederatedGateway :=
  mkGateway (gw_id g) (gw_remote g) (gw_url g) (gw_node g) (gw_cloud g) (gw_polled g) (ram_free g) (vram_free g)
    (ram_total g) (vram_total g) (gw_loaded g) (gw_busy g) (gw_loading g) (gw_available g) (gw_activated g)
    (gw_resources g) (gw_measured g) (gw_contexts g) (gw_requests g) telemetry heartbeat (gw_loaded_at g)
    (last_sequence_number g).
Definition with_sequence (n : Z) (g : FederatedGateway) : FederatedGateway :=
  mkGateway (gw_id g) (gw_remote g) (gw_url g) (gw_node g) (gw_cloud g) (gw_polled g) (ram_free g) (vram_free g)
    (ram_total g) (vram_total g) (gw_loaded g) (gw_busy g) (gw_loading g) (gw_available g) (gw_activated g)
    (gw_resources g) (gw_measured g) (gw_contexts g) (gw_requests g) (telemetry_timestamp g) (last_heartbeat g)
    (gw_loaded_at g) n.
Definition with_lifecycle (loaded busy loading : gset MKey) (loaded_at : gmap MKey Z) (g : FederatedGateway)
  : FederatedGateway :=
  mkGateway (gw_id g) (gw_remote g) (gw_url g) (gw_node g) (gw_cloud g) (gw_polled g) (ram_free g) (vram_free g)
    (ram_total g) (vram_total g) loaded busy loading (gw_available g) (gw_activated g) (gw_resources g) (gw_measured g)
    (gw_contexts g) (gw_requests g) (telemetry_timestamp g) (last_heartbeat g) loaded_at (last_sequence_number g).
Definition with_metrics (ram vram : option Z) (ram_t vram_t : Z) (requests : option Z) (g : FederatedGateway)
  : FederatedGateway :=
  mkGateway (gw_id g) (gw_remote g) (gw_url g) (gw_node g) (gw_cloud g) (gw_polled g) ram vram ram_t vram_t
    (gw_loaded g) (gw_busy g) (gw_loading g) (gw_available g) (gw_activated g) (gw_resources g) (gw_measured g)
    (gw_contexts g) requests (telemetry_timestamp g) (last_heartbeat g) (gw_loaded_at g) (last_sequence_number g).
Definition with_catalog (available : gset MKey) (activated : option (gset MKey)) (resources : gmap MKey ModelResource)
    (contexts : Contexts) (g : FederatedGateway) : FederatedGateway :=
  mkGateway (gw_id g) (gw_remote g) (gw_url g) (gw_node g) (gw_cloud g) (gw_polled g) (ram_free g) (vram_free g)
    (ram_total g) (vram_total g) (gw_loaded g) (gw_busy g) (gw_loading g) available activated resources (gw_measured g)
    contexts (gw_requests g) (telemetry_timestamp g) (last_heartbeat g) (gw_loaded_at g) (last_sequence_number g).
Definition with_measured (resources : gmap MKey ModelResource) (measured : gmap MKey Z) (g : FederatedGateway)
  : FederatedGateway :=
  mkGateway (gw_id g) (gw_remote g) (gw_url g) (gw_node g) (gw_cloud g) (gw_polled g) (ram_free g) (vram_free g)
    (ram_total g) (vram_total g) (gw_loaded g) (gw_busy g) (gw_loading g) (gw_available g) (gw_activated g) resources
    measured (gw_contexts g) (gw_requests g) (telemetry_timestamp g) (last_heartbeat g) (gw_loaded_at g)
    (last_sequence_number g).
Definition with_loading (loading : gset MKey) (g : FederatedGateway) : FederatedGateway :=
  with_lifecycle (gw_loaded g) (gw_busy g) loading (gw_loaded_at g) g.

Definition heartbeat_age_ms (now : Z) (g : FederatedGateway) : Z := if gw_cloud g then 0 else now - last_heartbeat g.
Definition is_unreachable (now : Z) (g : FederatedGateway) : bool :=
  negb (gw_cloud g) && (60000 <? heartbeat_age_ms now g).

(** The catalog kept while a gateway is away. *)
Record CatalogCacheEntry := mkEntry {
  c_available : gset MKey;
  c_resources : gmap MKey ModelResource;
  c_activated : option (gset MKey);
  c_contexts : Contexts
}.

Inductive MessageType : Type :=
  | GATEWAY_SNAPSHOT | RESOURCE_UPDATE | MODEL_LOADING_STARTED | MODEL_LOADING_PROGRESS | MODEL_LOADED
  | MODEL_LOAD_FAILED | MODEL_UNLOADED | MODEL_BUSY | MODEL_IDLE | TELEMETRY_HEARTBEAT | OTHER_MESSAGE.

#[global] Instance MessageType_eq_dec : EqDecision MessageType.
Proof. solve_decision. Defined.

Inductive Effect : Type :=
  | GatewayRemoved (gateway_id remote_id : string)
  | CatalogChanged (gateway_id : string) (old_count new_count : nat)
  | ReachabilityRestored (gateway_id : string) (offline_ms : Z) (model_count : nat)
  | TelemetryReceived (remote_id : string) (msg_type : MessageType) (model_count : nat)
  | ResourceUpdated (gateway_id : string) (vram ram : option Z)
  | LifecycleEvent (gateway_id : string) (msg_type : MessageType) (model : MKey)
  | GatewayResourceUpdate (url : string) (loaded busy : gset MKey)
  | ActivationFilteredEmpty (gateway_id : string) (available : nat)
  | ModelLoadingStarted (url : string) (model : MKey)
  | ModelLoadingProgress (url : string) (model : MKey) (phase : string) (pct : Z) (gateway_id : string)
  | ModelLoaded (url : string) (model : MKey) (gateway_id : string)
  | ModelUnloaded (url : string) (model : MKey) (gateway_id : string)
  | ModelLoadingFailed (url : string) (model : MKey) (gateway_id : string)
  | CapacityFallback (gateway_id routing_key : string)
  | ReconcileTask (gateway_id : string) (idle : gset string)
  | LivenessStale (gateway_id : string) (age_ms : Z)
  | LivenessRecovered (gateway_id : string) (downtime_ms : Z)
  | TelemetryMarkedStale (remote_id : string) (age_ms : Z).

Record FederatedGatewayManager := mkManager {
  pool : option CapacityPool;
  gateways : gmap string FederatedGateway;
  catalog_cache : gmap string CatalogCacheEntry;
  remote_urls : gmap string string;
  http_polling_remotes : gset string;
  inference_banned : gmap string (gset string);
  cold_absent_snapshot_streak : gmap (string * string) nat;
  state_generation : Z;
  liveness_alerted_at : gmap string Z
}.

Definition new_manager : FederatedGatewayManager := mkManager None ∅ ∅ ∅ ∅ ∅ ∅ 0 ∅.

Definition with_pool (p : option CapacityPool) (m : FederatedGatewayManager) : FederatedGatewayManager :=
  mkManager p (gateways m) (catalog_cache m) (remote_urls m) (http_polling_remotes m) (inference_banned m)
    (cold_absent_snapshot_streak m) (state_generation m) (liveness_alerted_at m).
Definition with_gateways (g : gmap string FederatedGateway) (m : FederatedGatewayManager) : FederatedGatewayManager :=
  mkManager (pool m) g (catalog_cache m) (remote_urls m) (http_polling_remotes m) (inference_banned m)
    (cold_absent_snapshot_streak m) (state_generation m) (liveness_alerted_at m).
Definition with_cache (c : gmap string CatalogCacheEntry) (m : FederatedGatewayManager) : FederatedGatewayManager :=
  mkManager (pool m) (gateways m) c (remote_urls m) (http_polling_remotes m) (inference_banned m)
    (cold_absent_snapshot_streak m) (state_generation m) (liveness_alerted_at m).
Definition with_bans (b : gmap string (gset string)) (m : FederatedGatewayManager) : FederatedGatewayManager :=
  mkManager (pool m) (gateways m) (catalog_cache m) (remote_urls m) (http_polling_remotes m) b
    (cold_absent_snapshot_streak m) (state_generation m) (liveness_alerted_at m).
Definition with_streaks (s : gmap (string * string) nat) (m : FederatedGatewayManager) : FederatedGatewayManager :=
  mkManager (pool m) (gateways m) (catalog_cache m) (remote_urls m) (http_polling_remotes m) (inference_banned m)
    s (state_generation m) (liveness_alerted_at m).
Definition with_alerts (a : gmap string Z) (m : FederatedGatewayManager) : FederatedGatewayManager :=
  mkManager (pool m) (gateways m) (catalog_cache m) (remote_urls m) (http_polling_remotes m) (inference_banned m)
    (cold_absent_snapshot_streak m) (state_generation m) a.

(** [_replace_gateway] *)
Definition put_gateway (g : FederatedGateway) (m : FederatedGatewayManager) : FederatedGatewayManager :=
  with_gateways (<[gw_id g := g]> (gateways m)) m.

(** [notify_state_change] and [close] *)
Definition notify_state_change (m : FederatedGatewayManager) : FederatedGatewayManager :=
  mkManager (pool m) (gateways m) (catalog_cache m) (remote_urls m) (http_polling_remotes m) (inference_banned m)
    (cold_absent_snapshot_streak m) (state_generation m + 1) (liveness_alerted_at m).

(** ** Capacities *)

(** The digits of an [int] literal, where single underscores may stand between
    digits. *)
Fixpoint underscored (after_digit : bool) (l : list ascii) : option (list ascii) :=
  match l with
  | [] => if after_digit then Some [] else None
  | c :: l' =>
      if is_digit c then cons c <$> underscored true l'
      else if Ascii.eqb c "_"%char && after_digit then underscored false l' else None
  end.

Fixpoint drop_spaces (l : list ascii) : list ascii :=
  match l with c :: l' => if is_space c then drop_spaces l' else l | [] => [] end.

(** [int(s)] of a string; [None] for a [ValueError]. *)
Definition int_of_text (s : string) : option Z :=
  let l := reverse (drop_spaces (reverse (drop_spaces (chars s)))) in
  let num l := (fun ds => Z.of_N (int_of_digits ds)) <$> underscored false l in
  match l with
  | "-"%char :: l' => Z.opp <$> num l'
  | "+"%char :: l' => num l'
  | _ => num l
  end.

(** [int(raw)]; [None] for a [ValueError] or [TypeError]. *)
Definition int_of (raw : MaxConcurrent) : option Z :=
  match raw with MInt z => Some z | MText s => int_of_text s | MOther => None end.

Definition raw_concurrent (r : ModelResource) : MaxConcurrent := get_or (MInt 1) (max_concurrent_requests r).

Definition parse_max_concurrent (raw : MaxConcurrent) : Z := get_or 1 (int_of raw).

Definition restore_model_capacity (g : FederatedGateway) (model : MKey) (m : FederatedGatewayManager)
  : bool * list Effect * FederatedGatewayManager :=
  match pool m with
  | None => (false, [], m)
  | Some p =>
      match gw_resources g !! model with
      | None =>
          (true, [CapacityFallback (gw_id g) model.1], with_pool (Some (set_capacity (gw_id g, model.1) 1 p)) m)
      | Some r =>
          (true, [], with_pool (Some (set_capacity (gw_id g, model.1) (parse_max_concurrent (raw_concurrent r)) p)) m)
      end
  end.

(** [restore_model_capacity] for each model, with what it publishes. *)
Definition restore_all (g : FederatedGateway) (models : list MKey) (m : FederatedGatewayManager)
  : list Effect * FederatedGatewayManager :=
  fold_left (fun em k => let '(_, e, m') := restore_model_capacity g k em.2 in (em.1 ++ e, m')) models ([], m).

Definition seed_capacity_pool_for_gateway (loaded_only : bool) (g : FederatedGateway) (m : FederatedGatewayManager)
  : list Effect * FederatedGatewayManager :=
  restore_all g (List.filter (fun k => negb loaded_only || bool_decide (k ∈ gw_loaded g))
                   (map fst (map_to_list (gw_resources g)))) m.

Definition set_capacity_pool (p : CapacityPool) (m : FederatedGatewayManager) : list Effect * FederatedGatewayManager :=
  fold_left (fun em g => let '(e, m') := seed_capacity_pool_for_gateway false g em.2 in (em.1 ++ e, m'))
    (map snd (map_to_list (gateways m))) ([], with_pool (Some p) m).

Definition seconds (now : Z) : Q := now # 1000.

(** One model of [_maybe_reset_cold_slots]; [None] when [int] raises. *)
Definition reset_cold_slot_of (now : Z) (g : FederatedGateway) (kr : MKey * ModelResource) (p : CapacityPool)
    (streaks : gmap (string * string) nat) : option (CapacityPool * gmap (string * string) nat) :=
  let '(k, r) := kr in
  let s := (gw_id g, k.1) in
  if bool_decide (k ∈ gw_loaded g) || bool_decide (k ∈ gw_loading g) then Some (p, delete s streaks)
  else
    let streak := S (get_or O (streaks !! s)) in
    let streaks := <[s := streak]> streaks in
    if (streak <? 2)%nat then Some (p, streaks)
    else if (get_slot_info s p).1.2 <=? 0 then Some (p, streaks)
    else if negb (slot_quiet_elapsed (seconds now) s None p) then Some (p, streaks)
    else match int_of (raw_concurrent r) with
    | None => None
    | Some catalog => Some (reset_cold_slot (seconds now) s (Z.min catalog 1) p, delete s streaks)
    end.

(** The loop; an exception leaves what was done before it. *)
Fixpoint reset_cold_slots (now : Z) (g : FederatedGateway) (resources : list (MKey * ModelResource))
    (p : CapacityPool) (streaks : gmap (string * string) nat) : bool * CapacityPool * gmap (string * string) nat :=
  match resources with
  | [] => (true, p, streaks)
  | kr :: rest =>
      match reset_cold_slot_of now g kr p streaks with
      | Some (p', streaks') => reset_cold_slots now g rest p' streaks'
      | None => (false, p, <[(gw_id g, kr.1.1) := S (get_or O (streaks !! (gw_id g, kr.1.1)))]> streaks)
      end
  end.

Definition maybe_reset_cold_slots (now : Z) (g : FederatedGateway) (m : FederatedGatewayManager)
  : bool * FederatedGatewayManager :=
  match pool m with
  | None => (true, m)
  | Some p =>
      let '(ok, p', streaks) := reset_cold_slots now g (map_to_list (gw_resources g)) p (cold_absent_snapshot_streak m) in
      (ok, with_streaks streaks (with_pool (Some p') m))
  end.

(** ** Gateways that come and go *)

Definition clear_inference_bans (gateway_id : string) (m : FederatedGatewayManager) : FederatedGatewayManager :=
  with_bans (delete gateway_id (inference_banned m)) m.

Definition mark_inference_banned (gateway_id : string) (model : MKey) (m : FederatedGatewayManager)
  : FederatedGatewayManager :=
  with_bans (<[gateway_id := {[model.1]} ∪ get_or ∅ (inference_banned m !! gateway_id)]> (inference_banned m)) m.

Definition is_inference_banned (gateway_id : string) (model : MKey) (m : FederatedGatewayManager) : bool :=
  bool_decide (model.1 ∈ (get_or ∅ (inference_banned m !! gateway_id) : gset string)).

Definition cache_catalog_for_gateway (gateway_id : string) (g : FederatedGateway) (m : FederatedGatewayManager)
  : FederatedGatewayManager :=
  if bool_decide (gw_available g = ∅) then m
  else with_cache (<[gateway_id := mkEntry (gw_available g) (gw_resources g) (gw_activated g) (gw_contexts g)]>
                     (catalog_cache m)) m.

Definition remove_gateway_entry (cache_catalog : bool) (gateway_id : string) (g : FederatedGateway)
    (m : FederatedGatewayManager) : list Effect * FederatedGatewayManager :=
  let m := if cache_catalog then cache_catalog_for_gateway gateway_id g m else m in
  let m := with_pool (remove_gateway gateway_id <$> pool m) m in
  let m := clear_inference_bans gateway_id m in
  (GatewayRemoved gateway_id (gw_remote g) ::
     (if bool_decide (gw_available g = ∅) then [] else [CatalogChanged gateway_id (size (gw_available g)) 0]),
   with_gateways (delete gateway_id (gateways m)) m).

(** The loop of [remove_gateways]. *)
Fixpoint remove_each (cache_catalog : bool) (ids : list string) (m : FederatedGatewayManager)
  : list string * list Effect * FederatedGatewayManager :=
  match ids with
  | [] => ([], [], m)
  | i :: ids' =>
      match gateways m !! i with
      | None => remove_each cache_catalog ids' m
      | Some g =>
          let '(e, m1) := remove_gateway_entry cache_catalog i g m in
          let '(removed, e', m2) := remove_each cache_catalog ids' m1 in
          (i :: removed, e ++ e', m2)
      end
  end.

Definition remove_gateways (gateway_ids : list string) (cache_catalog : bool) (m : FederatedGatewayManager)
  : list string * list Effect * FederatedGatewayManager :=
  let '(removed, e, m') := remove_each cache_catalog gateway_ids m in
  (removed, e, if bool_decide (removed = []) then m' else notify_state_change m').

Definition remove_remote_gateways (remote_id : string) (m : FederatedGatewayManager)
  : list string * list Effect * FederatedGatewayManager :=
  remove_gateways (map fst (List.filter (fun ig => bool_decide (gw_remote ig.2 = remote_id)) (map_to_list (gateways m))))
    true m.

Definition catalog_changed (gateway_id : string) (old new : gset MKey) : list Effect :=
  if bool_decide (old = new) then [] else [CatalogChanged gateway_id (size old) (size new)].

Definition catalog_of (gateway_id : string) (m : FederatedGatewayManager) : gset MKey :=
  match gateways m !! gateway_id with Some g => gw_available g | None => ∅ end.

Definition register_cloud_gateway (g : FederatedGateway) (m : FederatedGatewayManager)
  : list Effect * FederatedGatewayManager :=
  let old := catalog_of (gw_id g) m in
  let '(e, m) := seed_capacity_pool_for_gateway false g (put_gateway g m) in
  (e ++ catalog_changed (gw_id g) old (gw_available g), notify_state_change m).

Definition register_cursor_gateway (g : FederatedGateway) (m : FederatedGatewayManager)
  : list Effect * FederatedGatewayManager :=
  let old := catalog_of (gw_id g) m in
  (catalog_changed (gw_id g) old (gw_available g), notify_state_change (put_gateway g m)).

Definition register_remote (remote_id url : string) (is_http_polling : bool) (m : FederatedGatewayManager)
  : FederatedGatewayManager :=
  mkManager (pool m) (gateways m) (catalog_cache m) (<[remote_id := url]> (remote_urls m))
    (if is_http_polling then {[remote_id]} ∪ http_polling_remotes m else http_polling_remotes m)
    (inference_banned m) (cold_absent_snapshot_streak m) (state_generation m) (liveness_alerted_at m).

(** A [FederatedGateway] with its defaults. *)
Definition fresh_gateway (gateway_id remote_id url node_id : string) (polled : bool) (now : Z) : FederatedGateway :=
  mkGateway gateway_id remote_id url node_id false polled (Some 0) (Some 0) 0 0 ∅ ∅ ∅ ∅ None ∅ ∅ ∅ (Some 0) now now ∅ 0.

Definition ensure_gateway (now : Z) (gateway_id remote_id node_id : string) (m : FederatedGatewayManager)
  : FederatedGateway * FederatedGatewayManager :=
  match gateways m !! gateway_id with
  | Some g =>
      if negb (bool_decide (node_id = ""%string)) && bool_decide (gw_node g = ""%string)
      then (with_node node_id g, put_gateway (with_node node_id g) m) else (g, m)
  | None =>
      let g := fresh_gateway gateway_id remote_id (get_or ""%string (remote_urls m !! remote_id)) node_id
                 (bool_decide (remote_id ∈ http_polling_remotes m)) now in
      let g := match catalog_cache m !! gateway_id with
               | Some c => with_catalog (c_available c) (c_activated c) (c_resources c) (c_contexts c) g
               | None => g
               end in
      (g, put_gateway g (with_cache (delete gateway_id (catalog_cache m)) m))
  end.

(** ** Signs of life *)

Definition restored (was_unreachable : bool) (now old_heartbeat : Z) (g : FederatedGateway) : list Effect :=
  if was_unreachable then [ReachabilityRestored (gw_id g) (now - old_heartbeat) (size (gw_available g))] else [].

Definition update_telemetry_timestamps (now : Z) (g : FederatedGateway) (m : FederatedGatewayManager)
  : FederatedGateway * list Effect * FederatedGatewayManager :=
  let g' := with_times now now g in
  (g', restored (is_unreachable now g) now (last_heartbeat g) g', put_gateway g' m).

Definition update_heartbeat_timestamp (now : Z) (g : FederatedGateway) (m : FederatedGatewayManager)
  : FederatedGateway * list Effect * FederatedGatewayManager :=
  let g' := with_times (telemetry_timestamp g) now g in
  (g', restored (is_unreachable now g) now (last_heartbeat g) g', put_gateway g' m).

Definition get_healthy_gateways (now : Z) (m : FederatedGatewayManager) : list FederatedGateway :=
  List.filter (fun g => negb (is_unreachable now g)) (map snd (map_to_list (gateways m))).

Definition is_model_believed_loaded (gateway_id : string) (model : MKey) (m : FederatedGatewayManager) : bool :=
  match gateways m !! gateway_id with Some g => bool_decide (model ∈ gw_loaded g) | None => false end.

Definition is_telemetry_fresh (now : Z) (gateway_id : string) (threshold_ms : Z) (m : FederatedGatewayManager)
  : bool * list Effect :=
  match gateways m !! gateway_id with
  | None => (false, [])
  | Some g =>
      let age := now - telemetry_timestamp g in
      if age <=? threshold_ms then (true, []) else (false, [TelemetryMarkedStale (gw_remote g) age])
  end.

(** One gateway of [_sweep_liveness]. *)
Definition sweep_gateway (threshold_ms now : Z) (i : string) (g : FederatedGateway) (alerts : gmap string Z)
  : list Effect * gmap string Z :=
  if gw_cloud g then ([], alerts)
  else match alerts !! i with
  | None =>
      if threshold_ms <? heartbeat_age_ms now g
      then ([LivenessStale i (heartbeat_age_ms now g)], <[i := now]> alerts) else ([], alerts)
  | Some alerted_at =>
      if is_unreachable now g then ([], alerts) else ([LivenessRecovered i (now - alerted_at)], delete i alerts)
  end.

Definition sweep_liveness (threshold_ms now : Z) (m : FederatedGatewayManager) : list Effect * FederatedGatewayManager :=
  let '(e, alerts) :=
    fold_left (fun ea ig => let '(e, alerts) := sweep_gateway threshold_ms now ig.1 ig.2 ea.2 in (ea.1 ++ e, alerts))
      (map_to_list (gateways m)) ([], liveness_alerted_at m) in
  (e, with_alerts alerts m).

(** ** The router's marks *)

Definition mark_loading_optimistic (gateway_id : string) (model : MKey) (m : FederatedGatewayManager)
  : bool * FederatedGatewayManager :=
  match gateways m !! gateway_id with
  | None => (false, m)
  | Some g =>
      if bool_decide (model ∈ gw_loaded g) then (false, m)
      else (true, put_gateway (with_loading (gw_loading g ∪ {[model]}) g) m)
  end.

(** [clear_model_loading] and [clear_model_loading_optimistic] *)
Definition clear_model_loading (gateway_id : string) (model : MKey) (m : FederatedGatewayManager)
  : FederatedGatewayManager :=
  match gateways m !! gateway_id with
  | None => m
  | Some g =>
      if bool_decide (model ∈ gw_loading g) then put_gateway (with_loading (gw_loading g ∖ {[model]}) g) m else m
  end.

Definition mark_model_loading (gateway_id : string) (model : MKey) (m : FederatedGatewayManager)
  : FederatedGatewayManager :=
  match gateways m !! gateway_id with
  | None => m
  | Some g => put_gateway (with_loading (gw_loading g ∪ {[model]}) g) m
  end.

(** ** Messages *)

Record TelemetrySource := mkSource { stargate_id : string; gateway_id : string; node_id : string }.

(** A payload as [parse_telemetry_payload] gets it: a field is [None] when it is
    missing, [p_source] also when it is not valid. *)
Record RawPayload := mkRaw {
  p_source : option TelemetrySource;
  p_model : option ModelId;
  p_loaded : option (list string);
  p_busy : option (list string);
  p_available : option (list string);
  p_activated : option (list string);
  p_resources : list (string * ModelResource);
  p_model_vram : list (string * Z);
  p_contexts : Contexts;
  p_ram_free : option Z;
  p_vram_free : option Z;
  p_ram_total : option Z;
  p_vram_total : option Z;
  p_requests : option Z;
  p_phase : option string;
  p_pct : option Z
}.

Definition model_key (s : string) : option MKey := match parse s with Ok i => Some (mkey i) | Raise _ => None end.

(** The ids of a list that parse. *)
Definition parse_list (l : list string) : gset MKey := list_to_set (omap model_key l).

(** A dict whose keys all parse; otherwise it is taken for empty. *)
Definition parse_dict {V : Type} (d : list (string * V)) : gmap MKey V :=
  match mapM (fun kv => (fun k => (k, kv.2)) <$> model_key kv.1) d with
  | Some kvs => list_to_map (rev kvs)
  | None => ∅
  end.

(** [parse_telemetry_payload] and [extract_resource_state]. *)
Record Payload := mkPayload {
  model_of : option MKey;
  loaded_of : gset MKey;
  busy_of : gset MKey;
  available_of : gset MKey;
  activated_of : option (gset MKey);
  resources_of : gmap MKey ModelResource;
  model_vram_of : gmap MKey Z;
  payload : RawPayload
}.

Definition parse_telemetry_payload (p : RawPayload) : Payload :=
  mkPayload (mkey <$> p_model p) (parse_list (get_or [] (p_loaded p))) (parse_list (get_or [] (p_busy p)))
    (parse_list (get_or [] (p_available p))) (parse_list <$> p_activated p) (parse_dict (p_resources p))
    (parse_dict (p_model_vram p)) p.

(** Load times: kept while a model stays loaded. *)
Definition reconcile_loaded_at (now : Z) (old new : gset MKey) (at_ : gmap MKey Z) : gmap MKey Z :=
  let at_ := set_fold (fun k a => match a !! k with Some _ => a | None => <[k := now]> a end) at_ (new ∖ old) in
  set_fold (fun k a => delete k a) at_ (old ∖ new).

Definition apply_gateway_snapshot (now : Z) (g : FederatedGateway) (p : Payload) (m : FederatedGatewayManager)
  : bool * FederatedGateway * list Effect * FederatedGatewayManager :=
  let old_catalog := gw_available g in
  let prev_loaded := gw_loaded g in
  let snapshot_loaded := loaded_of p in
  let snapshot_busy := busy_of p in
  let raw := payload p in
  let g := with_lifecycle snapshot_loaded snapshot_busy (gw_loading g ∖ snapshot_loaded)
             (reconcile_loaded_at now prev_loaded snapshot_loaded (gw_loaded_at g))
             (with_catalog (available_of p) (activated_of p) (resources_of p) (p_contexts raw)
               (with_metrics (Some (get_or 0 (p_ram_free raw))) (Some (get_or 0 (p_vram_free raw)))
                  (get_or 0 (p_ram_total raw)) (get_or 0 (p_vram_total raw)) (Some (get_or 0 (p_requests raw))) g)) in
  let m := put_gateway g m in
  let '(e1, m) := restore_all g (elements (snapshot_loaded ∖ prev_loaded)) m in
  let '(e2, m) := seed_capacity_pool_for_gateway true g m in
  let '(ok, m) := maybe_reset_cold_slots now g m in
  if ok then
    let e3 := if bool_decide (is_Some (pool m)) && negb (bool_decide (snapshot_loaded = ∅))
              then [ReconcileTask (gw_id g) (set_map fst (snapshot_loaded ∖ snapshot_busy))] else [] in
    let e4 := if bool_decide (activated_of p = Some ∅) && negb (bool_decide (available_of p = ∅))
              then [ActivationFilteredEmpty (gw_id g) (size (available_of p))] else [] in
    (true, g, e1 ++ e2 ++ e3 ++ e4 ++ catalog_changed (gw_id g) old_catalog (available_of p), m)
  else (false, g, e1 ++ e2, m).

(** [RESOURCE_UPDATE]: metrics, and the measured VRAM over the catalog's. *)
Definition overlay (vram : gmap MKey Z) (resources : gmap MKey ModelResource) : gmap MKey ModelResource :=
  map_imap (fun k r => Some (match vram !! k with
                             | Some v => mkResource (Some v) (max_concurrent_requests r)
                             | None => r
                             end)) resources.

Definition apply_resource_update (g : FederatedGateway) (p : Payload) : FederatedGateway :=
  let raw := payload p in
  with_measured (overlay (model_vram_of p) (gw_resources g)) (model_vram_of p ∪ gw_measured g)
    (with_metrics (Some (get_or 0 (p_ram_free raw))) (Some (get_or 0 (p_vram_free raw)))
       (get_or 0 (p_ram_total raw)) (get_or 0 (p_vram_total raw)) (Some (get_or 0 (p_requests raw))) g).

Definition apply_model_loading_started (g : FederatedGateway) (k : MKey) : FederatedGateway * list Effect :=
  if bool_decide (k ∈ gw_loaded g) then (g, [])
  else (with_loading (gw_loading g ∪ {[k]}) g, [ModelLoadingStarted (gw_url g) k]).

Definition apply_model_loading_progress (g : FederatedGateway) (k : MKey) (raw : RawPayload) : list Effect :=
  match p_phase raw with
  | Some phase =>
      if bool_decide (phase = ""%string) then []
      else [ModelLoadingProgress (gw_url g) k phase (get_or 0 (p_pct raw)) (gw_id g)]
  | None => []
  end.

Definition apply_model_loaded (now : Z) (g : FederatedGateway) (k : MKey) : FederatedGateway :=
  with_lifecycle (gw_loaded g ∪ {[k]}) (gw_busy g) (gw_loading g ∖ {[k]})
    (match gw_loaded_at g !! k with Some _ => gw_loaded_at g | None => <[k := now]> (gw_loaded_at g) end) g.

Definition apply_model_unloaded (g : FederatedGateway) (k : MKey) : FederatedGateway :=
  with_lifecycle (gw_loaded g ∖ {[k]}) (gw_busy g ∖ {[k]}) (gw_loading g ∖ {[k]}) (delete k (gw_loaded_at g)) g.

Definition apply_model_load_failed (g : FederatedGateway) (k : MKey) : FederatedGateway :=
  with_loading (gw_loading g ∖ {[k]}) g.

Definition apply_model_busy (g : FederatedGateway) (k : MKey) : FederatedGateway :=
  with_lifecycle (gw_loaded g) (gw_busy g ∪ {[k]}) (gw_loading g) (gw_loaded_at g) g.

Definition apply_model_idle (g : FederatedGateway) (k : MKey) : FederatedGateway :=
  with_lifecycle (gw_loaded g) (gw_busy g ∖ {[k]}) (gw_loading g) (gw_loaded_at g) g.

(** The branch of the message type; [false] when it raises. *)
Definition apply_message (now : Z) (msg_type : MessageType) (g : FederatedGateway) (p : Payload)
    (m : FederatedGatewayManager) : bool * FederatedGateway * list Effect * FederatedGatewayManager :=
  match msg_type, model_of p with
  | GATEWAY_SNAPSHOT, _ => apply_gateway_snapshot now g p m
  | RESOURCE_UPDATE, _ => let g := apply_resource_update g p in (true, g, [], put_gateway g m)
  | MODEL_LOADING_STARTED, Some k =>
      let '(g, e) := apply_model_loading_started g k in (true, g, e, put_gateway g m)
  | MODEL_LOADING_PROGRESS, Some k => (true, g, apply_model_loading_progress g k (payload p), m)
  | MODEL_LOADED, Some k =>
      let g := apply_model_loaded now g k in
      let '(_, e, m) := restore_model_capacity g k (put_gateway g m) in
      (true, g, e ++ [ModelLoaded (gw_url g) k (gw_id g)], m)
  | MODEL_LOAD_FAILED, Some k =>
      let g := apply_model_load_failed g k in (true, g, [ModelLoadingFailed (gw_url g) k (gw_id g)], put_gateway g m)
  | MODEL_UNLOADED, Some k =>
      let g := apply_model_unloaded g k in
      let m := put_gateway g m in
      (true, g, [ModelUnloaded (gw_url g) k (gw_id g)], with_pool (remove_model (gw_id g, k.1) <$> pool m) m)
  | MODEL_BUSY, Some k => let g := apply_model_busy g k in (true, g, [], put_gateway g m)
  | MODEL_IDLE, Some k => let g := apply_model_idle g k in (true, g, [], put_gateway g m)
  | _, _ => (true, g, [], m)
  end.

Definition is_lifecycle (msg_type : MessageType) : bool :=
  match msg_type with
  | MODEL_LOADING_STARTED | MODEL_LOADED | MODEL_LOAD_FAILED | MODEL_UNLOADED | MODEL_BUSY | MODEL_IDLE => true
  | _ => false
  end.

Definition publish_telemetry_received (g : FederatedGateway) (msg_type : MessageType) : Effect :=
  TelemetryReceived (gw_remote g) msg_type
    (match msg_type with
     | GATEWAY_SNAPSHOT => size (gw_available g)
     | RESOURCE_UPDATE => size (gw_loaded g)
     | _ => 0%nat
     end).

(** [update_from_event]; [false] when it raises. *)
Definition update_from_event (now : Z) (remote_id : string) (msg_type : MessageType) (data : RawPayload)
    (m : FederatedGatewayManager) : bool * list Effect * FederatedGatewayManager :=
  match p_source data with
  | None => (true, [], m)
  | Some source =>
      if negb (bool_decide (stargate_id source = remote_id)) then (true, [], m)
      else
        let '(g, m) := ensure_gateway now (gateway_id source) (stargate_id source) (node_id source) m in
        let p := parse_telemetry_payload data in
        if bool_decide (msg_type = TELEMETRY_HEARTBEAT) then
          let '(_, e, m) := update_heartbeat_timestamp now g m in (true, e, m)
        else
          let '(ok, g, e1, m) := apply_message now msg_type g p m in
          if ok then
            let '(g, e2, m) := update_telemetry_timestamps now g m in
            let e3 := match gateways m !! gateway_id source with
                      | Some c => [publish_telemetry_received c msg_type] | None => [] end in
            let e4 := if bool_decide (msg_type = RESOURCE_UPDATE)
                      then [ResourceUpdated (gateway_id source) (vram_free g) (ram_free g)] else [] in
            let e5 := match model_of p with
                      | Some k => if is_lifecycle msg_type then [LifecycleEvent (gateway_id source) msg_type k] else []
                      | None => [] end in
            (true, e1 ++ e2 ++ e3 ++ e4 ++ e5 ++ [GatewayResourceUpdate (gw_url g) (gw_loaded g) (gw_busy g)],
             notify_state_change m)
          else (false, e1, m)
  end.

(** ** Polls *)

Definition parse_model_ids (values : list string) : exn (gset MKey) :=
  let? ids := exn_map parse values in Ok (list_to_set (map mkey ids)).

Definition apply_model_list_delta (current : gset MKey) (value : ListDelta) : exn (gset MKey) :=
  match value with
  | Diff added removed =>
      let? a := parse_model_ids added in
      let? r := parse_model_ids removed in
      Ok ((current ∪ a) ∖ r)
  | Full l => parse_model_ids l
  end.

(** The update of a list field, or its present value. *)
Definition list_update (f : ListField) (current : gset MKey) (delta : gmap ListField ListDelta) : exn (gset MKey) :=
  match delta !! f with Some d => apply_model_list_delta current d | None => Ok current end.

Definition field_update {V} (f : IntField) (current : V) (delta : gmap IntField V) : V := get_or current (delta !! f).

(** [_compute_delta_updates], [_compute_snapshot_updates] and the new gateway
    of [_commit_gateway_update]. *)
Definition updated_gateway (now : Z) (g : FederatedGateway) (delta : Changes) (seq : Z) : exn FederatedGateway :=
  let? loaded := list_update loaded_models (gw_loaded g) (list_changes delta) in
  let? busy := list_update busy_models (gw_busy g) (list_changes delta) in
  let? available := list_update available_models (gw_available g) (list_changes delta) in
  let g' := with_lifecycle loaded busy (gw_loading g ∖ loaded)
              (reconcile_loaded_at now (gw_loaded g) loaded (gw_loaded_at g))
              (with_metrics (field_update ram_free_mb (ram_free g) (int_changes delta))
                 (field_update vram_free_mb (vram_free g) (int_changes delta)) (ram_total g) (vram_total g)
                 (field_update active_requests (gw_requests g) (int_changes delta))
                 (with_catalog available (gw_activated g) (gw_resources g) (gw_contexts g) g)) in
  Ok (with_sequence seq g').

Definition commit_gateway_update (now : Z) (g : FederatedGateway) (delta : Changes) (seq : Z)
    (m : FederatedGatewayManager) : exn (list Effect * FederatedGatewayManager) :=
  if is_empty delta then Ok ([], put_gateway (with_sequence seq g) m)
  else
    let? g' := updated_gateway now g delta seq in
    Ok (catalog_changed (gw_id g) (gw_available g) (gw_available g'), put_gateway g' m).

Definition is_out_of_order (g : FederatedGateway) (seq : Z) : bool :=
  if seq =? -1 then false else seq <=? last_sequence_number g.

Definition apply_delta (now : Z) (i : string) (delta : Changes) (seq : Z) (remote_id : string)
    (m : FederatedGatewayManager) : bool * list Effect * FederatedGatewayManager :=
  let '(g, m) := ensure_gateway now i remote_id "" m in
  let '(g, e, m) := update_heartbeat_timestamp now g m in
  if is_out_of_order g seq then (true, e, m)
  else if is_empty delta then (true, e, put_gateway (with_sequence seq g) m)
  else
    let '(g, e', m) := update_telemetry_timestamps now g m in
    match commit_gateway_update now g delta seq m with
    | Raise _ => (false, e ++ e', m)
    | Ok (e'', m) =>
        (true, e ++ e' ++ e'' ++
           (if seq =? -1 then [] else
              match gateways m !! i with Some c => [publish_telemetry_received c RESOURCE_UPDATE] | None => [] end), m)
    end.

(** The fields of a snapshot, as a delta. *)
Definition snapshot_changes (s : Snapshot) : Changes := mkChanges (Full <$> snap_lists s) (Some <$> snap_ints s).

Definition apply_snapshot (now : Z) (i : string) (s : Snapshot) (remote_id : string) (m : FederatedGatewayManager)
  : bool * list Effect * FederatedGatewayManager :=
  let '(g, m) := ensure_gateway now i remote_id "" m in
  let '(g, e, m) := update_telemetry_timestamps now g m in
  match commit_gateway_update now g (snapshot_changes s) (snap_seq s) m with
  | Raise _ => (false, e, m)
  | Ok (e', m) =>
      (true, e ++ e' ++
         match gateways m !! i with Some c => [publish_telemetry_received c GATEWAY_SNAPSHOT] | None => [] end, m)
  end.

(** ** Histories *)

Inductive Op : Type :=
  | SetCapacityPool (p : CapacityPool)
  | RegisterRemote (remote_id url : string) (is_http_polling : bool)
  | RegisterCloudGateway (g : FederatedGateway)
  | RegisterCursorGateway (g : FederatedGateway)
  | RemoveGateways (gateway_ids : list string) (cache_catalog : bool)
  | RemoveRemoteGateways (remote_id : string)
  | UpdateFromEvent (remote_id : string) (msg_type : MessageType) (data : RawPayload)
  | ApplyDelta (gateway_id : string) (delta : Changes) (seq : Z) (remote_id : string)
  | ApplySnapshot (gateway_id : string) (s : Snapshot) (remote_id : string)
  | MarkLoadingOptimistic (gateway_id : string) (model : MKey)
  | MarkModelLoading (gateway_id : string) (model : MKey)
  | ClearModelLoading (gateway_id : string) (model : MKey)
  | MarkInferenceBanned (gateway_id : string) (model : MKey)
  | SweepLiveness (threshold_ms : Z)
  | Close.

Definition step (now : Z) (op : Op) (m : FederatedGatewayManager) : list Effect * FederatedGatewayManager :=
  match op with
  | SetCapacityPool p => set_capacity_pool p m
  | RegisterRemote r url polled => ([], register_remote r url polled m)
  | RegisterCloudGateway g => register_cloud_gateway g m
  | RegisterCursorGateway g => register_cursor_gateway g m
  | RemoveGateways ids cache => let '(_, e, m) := remove_gateways ids cache m in (e, m)
  | RemoveRemoteGateways r => let '(_, e, m) := remove_remote_gateways r m in (e, m)
  | UpdateFromEvent r t d => let '(_, e, m) := update_from_event now r t d m in (e, m)
  | ApplyDelta i d s r => let '(_, e, m) := apply_delta now i d s r m in (e, m)
  | ApplySnapshot i s r => let '(_, e, m) := apply_snapshot now i s r m in (e, m)
  | MarkLoadingOptimistic i k => ([], (mark_loading_optimistic i k m).2)
  | MarkModelLoading i k => ([], mark_model_loading i k m)
  | ClearModelLoading i k => ([], clear_model_loading i k m)
  | MarkInferenceBanned i k => ([], mark_inference_banned i k m)
  | SweepLiveness t => sweep_liveness t now m
  | Close => ([], notify_state_change m)
  end.

(** A history: operations with the times at which they run. *)
Fixpoint run (h : list (Z * Op)) (m : FederatedGatewayManager) : FederatedGatewayManager :=
  match h with [] => m | (now, op) :: h' => run h' (step now op m).2 end.

Fixpoint effects (h : list (Z * Op)) (m : FederatedGatewayManager) : list Effect :=
  match h with [] => [] | (now, op) :: h' => (step now op m).1 ++ effects h' (step now op m).2 end.

(** ** Load times *)

Lemma add_times_lookup (now : Z) (X : gset MKey) (a : gmap MKey Z) k v :
  set_fold (fun (k : MKey) (a : gmap MKey Z) => match a !! k with Some _ => a | None => <[k := now]> a end) a X !! k =
    Some v <-> a !! k = Some v \/ a !! k = None /\ k ∈ X /\ v = now.
Proof.
  revert k v. apply (set_fold_ind_L (fun (r : gmap MKey Z) (Y : gset MKey) => forall k v, r !! k = Some v <->
    a !! k = Some v \/ a !! k = None /\ k ∈ Y /\ v = now)).
  - set_solver.
  - intros x Y r Hx IH k v. destruct (r !! x) as [t|] eqn:Er.
    + rewrite IH. apply IH in Er. destruct (decide (k = x)) as [->|Hne]; [|set_solver].
      destruct Er as [Er|(Er & Hin & _)]; [|done]. rewrite Er. naive_solver.
    + assert (Hax : a !! x = None).
      { destruct (a !! x) as [t|] eqn:Ea; [|done]. rewrite (proj2 (IH x t)) in Er; [done | by left]. }
      destruct (decide (k = x)) as [->|Hne].
      * rewrite lookup_insert_eq, Hax. set_solver.
      * rewrite lookup_insert_ne by done. rewrite IH. set_solver.
Qed.

Lemma delete_all_lookup (X : gset MKey) (a : gmap MKey Z) k v :
  set_fold (fun (k : MKey) (a : gmap MKey Z) => delete k a) a X !! k = Some v <-> k ∉ X /\ a !! k = Some v.
Proof.
  revert k v. apply (set_fold_ind_L (fun (r : gmap MKey Z) (Y : gset MKey) => forall k v, r !! k = Some v <->
    k ∉ Y /\ a !! k = Some v)).
  - set_solver.
  - intros x Y r Hx IH k v. rewrite lookup_delete_Some, IH. set_solver.
Qed.

(** The load times afterwards: a model that stays loaded keeps its own. *)
Lemma reconcile_loaded_at_lookup now old new at_ k v :
  reconcile_loaded_at now old new at_ !! k = Some v <->
  k ∉ old ∖ new /\ (at_ !! k = Some v \/ at_ !! k = None /\ k ∈ new ∖ old /\ v = now).
Proof. unfold reconcile_loaded_at. by rewrite delete_all_lookup, add_times_lookup. Qed.

Lemma reconcile_loaded_at_dom now old new at_ : dom at_ = old -> dom (reconcile_loaded_at now old new at_) = new.
Proof.
  intros Hd. apply set_eq. intros k. rewrite elem_of_dom.
  assert (Hk : forall t, at_ !! k = Some t -> k ∈ old) by (intros t E; rewrite <- Hd; apply elem_of_dom; eauto).
  split.
  - intros [t [Hn [E|(E & Hin & _)]]%reconcile_loaded_at_lookup]; [apply Hk in E; set_solver | set_solver].
  - intros Hn. destruct (at_ !! k) as [t|] eqn:E.
    + exists t. apply reconcile_loaded_at_lookup. split; [set_solver | by left].
    + exists now. apply reconcile_loaded_at_lookup. split; [set_solver|]. right. split; [done|]. split; [|done].
      apply elem_of_difference. split; [done|]. rewrite <- Hd, elem_of_dom, E. by intros [? ?].
Qed.

(** ** The invariant *)

Record GwOk (g : FederatedGateway) : Prop := {
  o_disjoint : gw_loaded g ## gw_loading g;
  o_times : dom (gw_loaded_at g) = gw_loaded g
}.

Definition MOk (m : FederatedGatewayManager) : Prop :=
  forall i g, gateways m !! i = Some g -> gw_id g = i /\ GwOk g.

Lemma MOk_new : MOk new_manager.
Proof. intros i g E. simpl in E. by rewrite lookup_empty in E. Qed.

Lemma MOk_same m m' : gateways m' = gateways m -> MOk m -> MOk m'.
Proof. intros E H i g. rewrite E. apply H. Qed.

Lemma MOk_put g m : GwOk g -> MOk m -> MOk (put_gateway g m).
Proof. intros Hg H i g' E. simpl in E. apply lookup_insert_Some in E as [[<- <-]|[_ E]]; [done | by apply H]. Qed.

Lemma MOk_delete i m : MOk m -> MOk (with_gateways (delete i (gateways m)) m).
Proof. intros H j g E. simpl in E. apply lookup_delete_Some in E as [_ E]. by apply H. Qed.

Lemma restore_gateways g k m : gateways (restore_model_capacity g k m).2 = gateways m.
Proof. unfold restore_model_capacity. by repeat case_match. Qed.

Lemma fold_gateways {A} (f : list Effect * FederatedGatewayManager -> A -> list Effect * FederatedGatewayManager)
    l em :
  (forall em x, gateways (f em x).2 = gateways em.2) -> gateways (fold_left f l em).2 = gateways em.2.
Proof. intros Hf. revert em. induction l as [|x l IH]; intros em; simpl; [done|]. by rewrite IH, Hf. Qed.

Lemma restore_all_gateways g ks m : gateways (restore_all g ks m).2 = gateways m.
Proof.
  unfold restore_all. rewrite fold_gateways; [done|]. intros em k.
  pose proof (restore_gateways g k em.2) as H. by destruct (restore_model_capacity g k em.2) as [[? ?] ?].
Qed.

Lemma seed_gateways b g m : gateways (seed_capacity_pool_for_gateway b g m).2 = gateways m.
Proof. apply restore_all_gateways. Qed.

Lemma set_pool_gateways p m : gateways (set_capacity_pool p m).2 = gateways m.
Proof.
  unfold set_capacity_pool. rewrite fold_gateways; [done|]. intros em g.
  pose proof (seed_gateways false g em.2) as H. by destruct (seed_capacity_pool_for_gateway false g em.2).
Qed.

Lemma cold_slots_gateways now g m : gateways (maybe_reset_cold_slots now g m).2 = gateways m.
Proof. unfold maybe_reset_cold_slots. destruct (pool m); [|done]. by destruct (reset_cold_slots _ _ _ _ _) as [[? ?] ?]. Qed.

Lemma remove_entry_gateways c i g m :
  gateways (remove_gateway_entry c i g m).2 = delete i (gateways m).
Proof. unfold remove_gateway_entry, cache_catalog_for_gateway. simpl. by destruct c; [case_bool_decide|]. Qed.

Lemma MOk_remove_each c ids m : MOk m -> MOk (remove_each c ids m).2.
Proof.
  revert m. induction ids as [|i ids IH]; intros m H; cbn [remove_each]; [done|].
  destruct (gateways m !! i) as [g|]; [|by apply IH].
  assert (H1 : MOk (remove_gateway_entry c i g m).2).
  { intros j g' E. rewrite remove_entry_gateways in E. apply lookup_delete_Some in E as [_ E]. by apply H. }
  destruct (remove_gateway_entry c i g m) as [e m1]. specialize (IH m1 H1).
  destruct (remove_each c ids m1) as [[? ?] ?]. exact IH.
Qed.

Lemma MOk_remove ids c m : MOk m -> MOk (remove_gateways ids c m).2.
Proof.
  intros H. apply (MOk_remove_each c ids) in H. unfold remove_gateways.
  destruct (remove_each c ids m) as [[r e] m']. simpl in *. by case_bool_decide.
Qed.

Lemma GwOk_same g g' :
  gw_loaded g' = gw_loaded g -> gw_loading g' = gw_loading g -> gw_loaded_at g' = gw_loaded_at g -> GwOk g -> GwOk g'.
Proof. intros E1 E2 E3 [Hd Ht]. constructor; by rewrite ?E1, ?E2, ?E3. Qed.

Lemma ensure_ok now i r n m :
  MOk m -> let '(g, m') := ensure_gateway now i r n m in
  MOk m' /\ GwOk g /\ gw_id g = i /\ gateways m' !! i = Some g.
Proof.
  intros H. unfold ensure_gateway. destruct (gateways m !! i) as [g|] eqn:E.
  - destruct (H i g E) as [Hi Hg]. destruct (_ && _); [|done].
    assert (Hg' : GwOk (with_node n g)) by (by apply (GwOk_same g)).
    split; [by apply MOk_put|]. split; [done|]. split; [done|]. simpl. by rewrite Hi, lookup_insert_eq.
  - match goal with |- MOk (put_gateway ?x _) /\ _ => set (g := x) end.
    assert (Hg : GwOk g /\ gw_id g = i).
    { unfold g. by destruct (catalog_cache m !! i). }
    destruct Hg as [Hg Hid]. split; [by apply MOk_put|]. split; [done|]. split; [done|].
    simpl. by rewrite Hid, lookup_insert_eq.
Qed.

Lemma ensure_spec now i r n m :
  MOk m -> exists g m', ensure_gateway now i r n m = (g, m') /\ MOk m' /\ GwOk g /\ gw_id g = i /\
  gateways m' !! i = Some g.
Proof. intros H. apply (ensure_ok now i r n) in H. destruct (ensure_gateway now i r n m) as [g m']. eauto. Qed.

Lemma GwOk_snapshot now g p :
  GwOk g -> forall g', GwOk (with_lifecycle (loaded_of p) (busy_of p) (gw_loading g ∖ loaded_of p)
                              (reconcile_loaded_at now (gw_loaded g) (loaded_of p) (gw_loaded_at g)) g').
Proof. intros [_ Ht] g'. constructor; simpl; [set_solver | by apply reconcile_loaded_at_dom]. Qed.

Lemma GwOk_loaded now g k : GwOk g -> GwOk (apply_model_loaded now g k).
Proof.
  intros [Hd Ht]. constructor; simpl; [set_solver|].
  destruct (gw_loaded_at g !! k) as [t|] eqn:E; [|rewrite dom_insert_L; set_solver].
  assert (k ∈ gw_loaded g) by (rewrite <- Ht; apply elem_of_dom; eauto). set_solver.
Qed.

Lemma GwOk_unloaded g k : GwOk g -> GwOk (apply_model_unloaded g k).
Proof. intros [Hd Ht]. constructor; simpl; [set_solver | by rewrite dom_delete_L, Ht]. Qed.

Lemma GwOk_loading X g : GwOk g -> gw_loaded g ## X -> GwOk (with_loading X g).
Proof. intros [Hd Ht] HX. by constructor. Qed.

Lemma snapshot_ok now g p m :
  MOk m -> GwOk g -> let '(_, g', _, m') := apply_gateway_snapshot now g p m in MOk m' /\ GwOk g' /\ gw_id g' = gw_id g.
Proof.
  intros H Hg. unfold apply_gateway_snapshot.
  match goal with |- context [put_gateway ?x m] => set (g' := x) end.
  assert (Hg' : GwOk g') by (by apply GwOk_snapshot).
  assert (H' : MOk (put_gateway g' m)) by (by apply MOk_put).
  pose proof (restore_all_gateways g' (elements (loaded_of p ∖ gw_loaded g)) (put_gateway g' m)) as E1.
  destruct (restore_all g' _ _) as [e1 m1]. simpl in E1.
  pose proof (seed_gateways true g' m1) as E2. destruct (seed_capacity_pool_for_gateway true g' m1) as [e2 m2]. simpl in E2.
  pose proof (cold_slots_gateways now g' m2) as E3. destruct (maybe_reset_cold_slots now g' m2) as [ok m3]. simpl in E3.
  assert (MOk m3) by (eapply MOk_same; [|exact H']; by rewrite E3, E2, E1).
  by destruct ok.
Qed.

Lemma message_ok now t g p m :
  MOk m -> GwOk g -> let '(_, g', _, m') := apply_message now t g p m in MOk m' /\ GwOk g' /\ gw_id g' = gw_id g.
Proof.
  intros H Hg. pose proof (snapshot_ok now g p m H Hg) as Hs. pose proof Hg as [Hd Ht].
  destruct t, (model_of p) as [k|] eqn:Ek; cbn [apply_message]; rewrite ?Ek; try exact Hs; try done.
  - assert (Hl : GwOk (apply_resource_update g p)) by (by apply (GwOk_same g)). split; [by apply MOk_put | done].
  - assert (Hl : GwOk (apply_resource_update g p)) by (by apply (GwOk_same g)). split; [by apply MOk_put | done].
  - unfold apply_model_loading_started. case_bool_decide as Hk; [by split; [apply MOk_put|]|].
    assert (Hl : GwOk (with_loading (gw_loading g ∪ {[k]}) g)) by (apply GwOk_loading; [done | set_solver]).
    split; [by apply MOk_put | done].
  - assert (Hl : GwOk (apply_model_loaded now g k)) by (by apply GwOk_loaded).
    pose proof (restore_gateways (apply_model_loaded now g k) k (put_gateway (apply_model_loaded now g k) m)) as E.
    destruct (restore_model_capacity _ _ _) as [[? ?] m']. split; [|done].
    eapply MOk_same; [exact E|]. by apply MOk_put.
  - assert (Hl : GwOk (apply_model_load_failed g k)) by (apply GwOk_loading; [done | set_solver]).
    split; [by apply MOk_put | done].
  - assert (Hl : GwOk (apply_model_unloaded g k)) by (by apply GwOk_unloaded).
    split; [|done]. eapply MOk_same; [|by apply (MOk_put (apply_model_unloaded g k) m)]. done.
  - assert (Hl : GwOk (apply_model_busy g k)) by (by apply (GwOk_same g)). split; [by apply MOk_put | done].
  - assert (Hl : GwOk (apply_model_idle g k)) by (by apply (GwOk_same g)). split; [by apply MOk_put | done].
Qed.

Lemma MOk_update_from_event now r t d m : MOk m -> MOk (update_from_event now r t d m).2.
Proof.
  intros H. unfold update_from_event. destruct (p_source d) as [s|]; [|done].
  destruct (negb _); [done|].
  destruct (ensure_spec now (gateway_id s) (stargate_id s) (node_id s) m H) as (g & m1 & -> & H1 & Hg & Hid & _).
  case_bool_decide; [by apply MOk_put; [apply (GwOk_same g)|]|].
  pose proof (message_ok now t g (parse_telemetry_payload d) m1 H1 Hg) as Hm.
  destruct (apply_message now t g _ m1) as [[[ok g'] e] m']. destruct Hm as (Hm' & Hg' & _).
  destruct ok; [|done]. apply (MOk_same (put_gateway (with_times now now g') m')); [done|].
  apply MOk_put; [by apply (GwOk_same g') | done].
Qed.

Lemma updated_ok now g delta seq g' :
  GwOk g -> updated_gateway now g delta seq = Ok g' -> GwOk g' /\ gw_id g' = gw_id g.
Proof.
  intros [Hd Ht] H. unfold updated_gateway in H.
  destruct (list_update loaded_models _ _) as [loaded|]; [simpl in H | done].
  destruct (list_update busy_models _ _) as [busy|]; [simpl in H | done].
  destruct (list_update available_models _ _) as [available|]; [simpl in H | done].
  injection H as <-. split; [|done]. constructor; simpl; [set_solver | by apply reconcile_loaded_at_dom].
Qed.

Lemma commit_ok now g delta seq m e m' :
  MOk m -> GwOk g -> commit_gateway_update now g delta seq m = Ok (e, m') -> MOk m'.
Proof.
  intros H Hg. unfold commit_gateway_update. destruct (is_empty delta).
  - intros [= <- <-]. apply MOk_put; [by apply (GwOk_same g) | done].
  - destruct (updated_gateway now g delta seq) as [g'|] eqn:E; [|done]. intros [= <- <-].
    apply updated_ok in E as [? _]; [|done]. by apply MOk_put.
Qed.

Lemma MOk_apply_delta now i delta seq r m : MOk m -> MOk (apply_delta now i delta seq r m).2.
Proof.
  intros H. unfold apply_delta. destruct (ensure_spec now i r "" m H) as (g & m1 & -> & H1 & Hg & _ & _).
  unfold update_heartbeat_timestamp. set (g1 := with_times (telemetry_timestamp g) now g).
  assert (Hg1 : GwOk g1) by (by apply (GwOk_same g)).
  assert (H2 : MOk (put_gateway g1 m1)) by (by apply MOk_put).
  destruct (is_out_of_order _ _); [done|].
  destruct (is_empty delta); [by apply MOk_put; [apply (GwOk_same g1)|]|].
  unfold update_telemetry_timestamps.
  assert (H3 : MOk (put_gateway (with_times now now g1) (put_gateway g1 m1))) by (by apply MOk_put; [apply (GwOk_same g1)|]).
  destruct (commit_gateway_update _ _ _ _ _) as [[e m']|] eqn:E; [|done].
  eapply commit_ok; [| |exact E]; [done | by apply (GwOk_same g1)].
Qed.

Lemma MOk_apply_snapshot now i s r m : MOk m -> MOk (apply_snapshot now i s r m).2.
Proof.
  intros H. unfold apply_snapshot. destruct (ensure_spec now i r "" m H) as (g & m1 & -> & H1 & Hg & _ & _).
  unfold update_telemetry_timestamps.
  assert (Hg1 : GwOk (with_times now now g)) by (by apply (GwOk_same g)).
  assert (H3 : MOk (put_gateway (with_times now now g) m1)) by (by apply MOk_put).
  destruct (commit_gateway_update _ _ _ _ _) as [[e m']|] eqn:E; [|done]. by eapply commit_ok.
Qed.

(** What a registered virtual gateway must be, and no mark without a check. *)
Definition op_ok (op : Op) : Prop :=
  match op with
  | RegisterCloudGateway g | RegisterCursorGateway g => GwOk g
  | MarkModelLoading _ _ => False
  | _ => True
  end.

Lemma MOk_step now op m : op_ok op -> MOk m -> MOk (step now op m).2.
Proof.
  intros Hop H. destruct op as [p|r url polled|g|g|ids c|r|r t d|i d s r|i s r|i k|i k|i k|i k|th|]; cbn [step].
  - by apply (MOk_same m); [apply set_pool_gateways|].
  - done.
  - unfold register_cloud_gateway. pose proof (seed_gateways false g (put_gateway g m)) as E.
    destruct (seed_capacity_pool_for_gateway false g (put_gateway g m)) as [e m'].
    eapply MOk_same; [exact E|]. by apply MOk_put.
  - apply (MOk_same (put_gateway g m)); [done|]. by apply MOk_put.
  - pose proof (MOk_remove ids c m H) as Hr. by destruct (remove_gateways ids c m) as [[? ?] ?].
  - pose proof (MOk_remove (map fst (List.filter (fun ig => bool_decide (gw_remote ig.2 = r)) (map_to_list (gateways m))))
      true m H) as Hr. unfold remove_remote_gateways. by destruct (remove_gateways _ _ _) as [[? ?] ?].
  - pose proof (MOk_update_from_event now r t d m H) as Hr. by destruct (update_from_event now r t d m) as [[? ?] ?].
  - pose proof (MOk_apply_delta now i d s r m H) as Hr. by destruct (apply_delta now i d s r m) as [[? ?] ?].
  - pose proof (MOk_apply_snapshot now i s r m H) as Hr. by destruct (apply_snapshot now i s r m) as [[? ?] ?].
  - unfold mark_loading_optimistic. destruct (gateways m !! i) as [g|] eqn:E; [|done]. destruct (H i g E) as [_ Hg].
    case_bool_decide; [done|]. apply MOk_put; [|done]. destruct Hg. apply GwOk_loading; [done | set_solver].
  - done.
  - unfold clear_model_loading. destruct (gateways m !! i) as [g|] eqn:E; [|done]. destruct (H i g E) as [_ Hg].
    case_bool_decide; [|done]. apply MOk_put; [|done]. destruct Hg. apply GwOk_loading; [done | set_solver].
  - done.
  - unfold sweep_liveness. destruct (fold_left _ _ _) as [e alerts]. by apply (MOk_same m).
  - by apply (MOk_same m).
Qed.

Lemma MOk_run h m : Forall (fun e => op_ok e.2) h -> MOk m -> MOk (run h m).
Proof.
  revert m. induction h as [|[now op] h IH]; intros m Hf H; simpl; [done|].
  inversion Hf; subst. apply IH; [done | by apply MOk_step].
Qed.

(** C15: In every state the manager reaches, as long as nobody calls
    [mark_model_loading], each gateway is stored under its own id, no model is
    both loaded and loading (which would keep it from ever being evicted), and
    load times are kept for exactly the loaded models. *)
Theorem gateways_consistent h i g :
  Forall (fun e => op_ok e.2) h -> gateways (run h new_manager) !! i = Some g ->
  gw_id g = i /\ gw_loaded g ## gw_loading g /\ dom (gw_loaded_at g) = gw_loaded g.
Proof. intros Hf E. destruct (MOk_run h _ Hf MOk_new i g E) as [? []]. done. Qed.

(** ** What is believed to be loaded *)

Lemma lookup_put i g m :
  gateways (put_gateway g m) !! i = if bool_decide (gw_id g = i) then Some g else gateways m !! i.
Proof.
  simpl. case_bool_decide as E; [rewrite E; by rewrite lookup_insert_eq | by rewrite lookup_insert_ne].
Qed.

Lemma snapshot_gateways now g p m :
  let '(_, g', _, m') := apply_gateway_snapshot now g p m in
  gateways m' = <[gw_id g := g']> (gateways m) /\ gw_id g' = gw_id g.
Proof.
  unfold apply_gateway_snapshot. match goal with |- context [put_gateway ?x m] => set (g' := x) end.
  pose proof (restore_all_gateways g' (elements (loaded_of p ∖ gw_loaded g)) (put_gateway g' m)) as E1.
  destruct (restore_all g' _ _) as [e1 m1]. simpl in E1.
  pose proof (seed_gateways true g' m1) as E2. destruct (seed_capacity_pool_for_gateway true g' m1) as [e2 m2]. simpl in E2.
  pose proof (cold_slots_gateways now g' m2) as E3. destruct (maybe_reset_cold_slots now g' m2) as [ok m3]. simpl in E3.
  destruct ok; (split; [by rewrite E3, E2, E1 | done]).
Qed.

Lemma snapshot_loaded now g p m : let '(_, g', _, _) := apply_gateway_snapshot now g p m in gw_loaded g' = loaded_of p.
Proof.
  unfold apply_gateway_snapshot. destruct (restore_all _ _ _) as [? m1].
  destruct (seed_capacity_pool_for_gateway true _ m1) as [? m2].
  destruct (maybe_reset_cold_slots now _ m2) as [ok ?]. by destruct ok.
Qed.

Lemma message_gateways now t g p m :
  gateways m !! gw_id g = Some g ->
  let '(_, g', _, m') := apply_message now t g p m in gateways m' = <[gw_id g := g']> (gateways m) /\ gw_id g' = gw_id g.
Proof.
  intros E. destruct t, (model_of p) as [k|] eqn:Ek; cbn [apply_message]; rewrite ?Ek;
    try (split; [simpl; by rewrite ?insert_id by done | done]).
  - apply snapshot_gateways.
  - apply snapshot_gateways.
  - unfold apply_model_loading_started. case_bool_decide; (split; [|done]); simpl; done.
  - pose proof (restore_gateways (apply_model_loaded now g k) k (put_gateway (apply_model_loaded now g k) m)) as E'.
    destruct (restore_model_capacity _ _ _) as [[? ?] m']. simpl in E'. split; [by rewrite E' | done].
Qed.

(** What a message says about a model. *)
Definition says (t : MessageType) (p : Payload) (k : MKey) : option bool :=
  match t with
  | GATEWAY_SNAPSHOT => Some (bool_decide (k ∈ loaded_of p))
  | MODEL_LOADED => if bool_decide (model_of p = Some k) then Some true else None
  | MODEL_UNLOADED => if bool_decide (model_of p = Some k) then Some false else None
  | _ => None
  end.

Lemma message_loaded now t g p (m : FederatedGatewayManager) k :
  let '(_, g', _, _) := apply_message now t g p m in
  bool_decide (k ∈ gw_loaded g') = get_or (bool_decide (k ∈ gw_loaded g)) (says t p k).
Proof.
  pose proof (snapshot_loaded now g p m) as Hs.
  destruct t, (model_of p) as [k'|] eqn:Ek; cbn [apply_message says]; rewrite ?Ek; try done.
  - destruct (apply_gateway_snapshot now g p m) as [[[? ?] ?] ?]. by rewrite Hs.
  - destruct (apply_gateway_snapshot now g p m) as [[[? ?] ?] ?]. by rewrite Hs.
  - unfold apply_model_loading_started. by case_bool_decide.
  - destruct (restore_model_capacity _ _ _) as [[? ?] ?]. simpl. destruct (decide (k' = k)) as [->|Hne].
    + rewrite (bool_decide_true (Some k = Some k)) by done. simpl. by rewrite bool_decide_true by set_solver.
    + rewrite (bool_decide_false (Some k' = Some k)) by congruence. simpl. apply bool_decide_ext. set_solver.
  - simpl. destruct (decide (k' = k)) as [->|Hne].
    + rewrite (bool_decide_true (Some k = Some k)) by done. simpl. by rewrite bool_decide_false by set_solver.
    + rewrite (bool_decide_false (Some k' = Some k)) by congruence. simpl. apply bool_decide_ext. set_solver.
Qed.

(** What an operation says about a model of a gateway. *)
Definition word (op : Op) (m : FederatedGatewayManager) (i : string) (k : MKey) : option bool :=
  match op with
  | UpdateFromEvent r t d =>
      match p_source d with
      | Some s =>
          if bool_decide (stargate_id s = r) && bool_decide (gateway_id s = i)
          then says t (parse_telemetry_payload d) k else None
      | None => None
      end
  | RemoveGateways ids _ => if bool_decide (i ∈ ids) then Some false else None
  | RemoveRemoteGateways r =>
      match gateways m !! i with
      | Some g => if bool_decide (gw_remote g = r) then Some false else None
      | None => None
      end
  | _ => None
  end.

(** The gateways are fed over sockets, not by polls or catalogs. *)
Definition socket_op (op : Op) : Prop :=
  match op with
  | RegisterCloudGateway _ | RegisterCursorGateway _ | ApplyDelta _ _ _ _ | ApplySnapshot _ _ _ => False
  | _ => op_ok op
  end.

Fixpoint last_word (h : list (Z * Op)) (m : FederatedGatewayManager) (i : string) (k : MKey) (b : bool) : bool :=
  match h with
  | [] => b
  | (now, op) :: h' => last_word h' (step now op m).2 i k (get_or b (word op m i k))
  end.

Definition believed (i : string) (k : MKey) (m : FederatedGatewayManager) : bool := is_model_believed_loaded i k m.

Lemma believed_same i k m m' : gateways m' !! i = gateways m !! i -> believed i k m' = believed i k m.
Proof. intros E. unfold believed, is_model_believed_loaded. by rewrite E. Qed.

Lemma believed_some i k g m : gateways m !! i = Some g -> believed i k m = bool_decide (k ∈ gw_loaded g).
Proof. intros E. unfold believed, is_model_believed_loaded. by rewrite E. Qed.

Lemma believed_put i k g m :
  (gw_id g = i -> bool_decide (k ∈ gw_loaded g) = believed i k m) -> believed i k (put_gateway g m) = believed i k m.
Proof.
  intros H. destruct (decide (gw_id g = i)) as [Hi|Hne].
  - rewrite <- (H Hi). apply believed_some. by rewrite lookup_put, bool_decide_true.
  - apply believed_same. by rewrite lookup_put, bool_decide_false.
Qed.

Lemma remove_each_lookup c ids m i :
  gateways (remove_each c ids m).2 !! i = if bool_decide (i ∈ ids) then None else gateways m !! i.
Proof.
  revert m. induction ids as [|j ids IH]; intros m; cbn [remove_each]; [by rewrite bool_decide_false by set_solver|].
  destruct (gateways m !! j) as [g|] eqn:Ej.
  - pose proof (remove_entry_gateways c j g m) as E. destruct (remove_gateway_entry c j g m) as [e m1]. simpl in E.
    specialize (IH m1). destruct (remove_each c ids m1) as [[r e'] m2]. simpl in *. rewrite IH, E.
    destruct (decide (i ∈ ids)) as [Hi|Hi]; [rewrite !bool_decide_true by set_solver; done|].
    rewrite (bool_decide_false (i ∈ ids)) by done. destruct (decide (i = j)) as [->|Hne].
    + rewrite lookup_delete_eq. by rewrite bool_decide_true by set_solver.
    + rewrite lookup_delete_ne by done. by rewrite bool_decide_false by set_solver.
  - rewrite IH. destruct (decide (i ∈ ids)) as [Hi|Hi]; [rewrite !bool_decide_true by set_solver; done|].
    rewrite (bool_decide_false (i ∈ ids)) by done. destruct (decide (i = j)) as [->|Hne].
    + rewrite Ej. by rewrite bool_decide_true by set_solver.
    + by rewrite bool_decide_false by set_solver.
Qed.

Lemma remove_gateways_lookup c ids m i :
  gateways (remove_gateways ids c m).2 !! i = if bool_decide (i ∈ ids) then None else gateways m !! i.
Proof.
  pose proof (remove_each_lookup c ids m i) as E. unfold remove_gateways.
  destruct (remove_each c ids m) as [[r e] m']. simpl in *. by destruct (bool_decide (r = [])).
Qed.

Lemma believed_removed c ids m i k :
  believed i k (remove_gateways ids c m).2 = get_or (believed i k m) (if bool_decide (i ∈ ids) then Some false else None).
Proof.
  pose proof (remove_gateways_lookup c ids m i) as E. case_bool_decide; [|by apply believed_same].
  unfold believed, is_model_believed_loaded. by rewrite E.
Qed.

Lemma remote_ids_spec r m i :
  i ∈ map fst (List.filter (fun ig => bool_decide (gw_remote ig.2 = r)) (map_to_list (gateways m))) <->
  exists g, gateways m !! i = Some g /\ gw_remote g = r.
Proof.
  rewrite list_elem_of_fmap. split.
  - intros ([j g] & -> & [Hin Hr%bool_decide_eq_true]%elem_of_lfilter). exists g. split; [|done].
    by apply elem_of_map_to_list in Hin.
  - intros (g & E & Hr). exists (i, g). split; [done|]. apply elem_of_lfilter.
    split; [by apply elem_of_map_to_list | by apply bool_decide_eq_true].
Qed.

Lemma ensure_believed now i r n m j k : MOk m -> believed j k (ensure_gateway now i r n m).2 = believed j k m.
Proof.
  intros H. unfold ensure_gateway. destruct (gateways m !! i) as [g|] eqn:E.
  - destruct (_ && _); [|done]. apply believed_put. simpl. destruct (H i g E) as [Hi _]. rewrite Hi. intros <-.
    symmetry. by apply believed_some.
  - simpl. match goal with |- believed _ _ (put_gateway ?x ?y) = _ => set (g := x); set (m1 := y) end.
    assert (Hg : gw_loaded g = ∅ /\ gw_id g = i) by (unfold g; by destruct (catalog_cache m !! i)).
    destruct Hg as [Hl Hid]. rewrite (believed_put j k g m1); [by apply believed_same|].
    rewrite Hid, Hl. intros <-. unfold believed, is_model_believed_loaded. simpl. rewrite E. by rewrite bool_decide_false by set_solver.
Qed.

Lemma event_believed now r t d m j k :
  MOk m -> believed j k (update_from_event now r t d m).2 = get_or (believed j k m) (word (UpdateFromEvent r t d) m j k).
Proof.
  intros H. unfold update_from_event. cbn [word]. destruct (p_source d) as [s|]; [|done].
  destruct (bool_decide (stargate_id s = r)); simpl; [|done].
  pose proof (ensure_believed now (gateway_id s) (stargate_id s) (node_id s) m j k H) as Eb.
  destruct (ensure_spec now (gateway_id s) (stargate_id s) (node_id s) m H) as (g & m1 & E & H1 & Hg & Hid & Eg).
  rewrite E in *. simpl in Eb. rewrite <- Eb. set (p := parse_telemetry_payload d).
  assert (Hbg : gw_id g = j -> believed j k m1 = bool_decide (k ∈ gw_loaded g)).
  { intros <-. rewrite Hid. by apply believed_some. }
  destruct (bool_decide (t = TELEMETRY_HEARTBEAT)) eqn:Et.
  { apply bool_decide_eq_true in Et as ->. simpl. rewrite believed_put by (intros ?; by rewrite Hbg).
    by destruct (bool_decide (gateway_id s = j)). }
  assert (Eg' : gateways m1 !! gw_id g = Some g) by (by rewrite Hid).
  pose proof (message_gateways now t g p m1 Eg') as Hm. pose proof (message_loaded now t g p m1 k) as Hl.
  destruct (apply_message now t g p m1) as [[[ok g'] e] m']. destruct Hm as [Hm Hid'].
  assert (Hj : believed j k m' = get_or (believed j k m1) (if bool_decide (gateway_id s = j) then says t p k else None)).
  { rewrite <- Hid. destruct (decide (gw_id g = j)) as [Hij|Hij].
    - rewrite (bool_decide_true _ Hij), (Hbg Hij), <- Hl. apply believed_some. rewrite Hm, <- Hij. by rewrite lookup_insert_eq.
    - rewrite (bool_decide_false _ Hij). apply believed_same. by rewrite Hm, lookup_insert_ne. }
  destruct ok; [|exact Hj]. simpl. rewrite (believed_same j k (put_gateway (with_times now now g') m')) by done.
  rewrite believed_put; [exact Hj|]. simpl. rewrite Hid'. intros <-. symmetry. apply believed_some. by rewrite Hm, lookup_insert_eq.
Qed.

Lemma step_believed now op m i k :
  socket_op op -> MOk m -> believed i k (step now op m).2 = get_or (believed i k m) (word op m i k).
Proof.
  intros Hop H. destruct op as [p|r url polled|g|g|ids c|r|r t d|j d s r|j s r|j x|j x|j x|j x|th|]; cbn [step word]; try done.
  - apply believed_same. by rewrite set_pool_gateways.
  - pose proof (believed_removed c ids m i k) as E. by destruct (remove_gateways ids c m) as [[? ?] ?].
  - unfold remove_remote_gateways.
    pose proof (believed_removed true (map fst (List.filter (fun ig => bool_decide (gw_remote ig.2 = r))
      (map_to_list (gateways m)))) m i k) as E.
    destruct (remove_gateways _ _ _) as [[? ?] m']. simpl in *. rewrite E. f_equal.
    destruct (gateways m !! i) as [g|] eqn:Eg.
    + destruct (decide (gw_remote g = r)) as [Hr|Hr].
      * rewrite !bool_decide_true; [done..|]. apply remote_ids_spec. eauto.
      * rewrite !bool_decide_false; [done..|]. intros (g' & Eg' & ?)%remote_ids_spec. by simplify_eq.
    + rewrite bool_decide_false; [done|]. intros (g' & Eg' & _)%remote_ids_spec. congruence.
  - pose proof (event_believed now r t d m i k H) as E. by destruct (update_from_event now r t d m) as [[? ?] ?].
  - unfold mark_loading_optimistic. destruct (gateways m !! j) as [g|] eqn:E; [|done]. destruct (H j g E) as [Hid _].
    case_bool_decide; [done|]. apply believed_put. simpl. rewrite Hid. intros <-. symmetry. by apply believed_some.
  - unfold clear_model_loading. destruct (gateways m !! j) as [g|] eqn:E; [|done]. destruct (H j g E) as [Hid _].
    case_bool_decide; [|done]. apply believed_put. simpl. rewrite Hid. intros <-. symmetry. by apply believed_some.
  - unfold sweep_liveness. destruct (fold_left _ _ _) as [e alerts]. by apply believed_same.
Qed.

Lemma run_believed h m i k :
  Forall (fun e => socket_op e.2) h -> MOk m -> believed i k (run h m) = last_word h m i k (believed i k m).
Proof.
  revert m. induction h as [|[now op] h IH]; intros m Hf H; simpl; [done|]. inversion Hf as [|? ? Hop Hh]; subst.
  rewrite IH; [|done|by apply MOk_step; [destruct op|]]. by rewrite step_believed.
Qed.

(** C24: What the load orchestrator reads as a hint is what it was told last: in
    every history without polls, a model is believed to be loaded on a gateway
    exactly when the last word about it there (a load, an unload, a snapshot, the
    removal of the gateway) says so; resource updates, heartbeats and the marks
    of the router never change it. *)
Theorem believed_exact h i k :
  Forall (fun e => socket_op e.2) h ->
  is_model_believed_loaded i k (run h new_manager) = last_word h new_manager i k false.
Proof.
  intros Hf. assert (E : believed i k new_manager = false) by (unfold believed, is_model_believed_loaded; simpl; by rewrite lookup_empty).
  rewrite <- E. apply run_believed; [done | apply MOk_new].
Qed.

(** ** Gateways that come back *)

(** A gateway that is dropped with its remote and registers again has the
    catalog it had before, no loaded or loading models, and none of its bans; the
    cached catalog is used up. *)
Theorem catalog_survives_reconnect now i r n g m :
  gateways m !! i = Some g -> gw_available g <> ∅ ->
  let m' := (remove_gateways [i] true m).2 in
  let '(g', m'') := ensure_gateway now i r n m' in
  gw_available g' = gw_available g /\ gw_resources g' = gw_resources g /\ gw_activated g' = gw_activated g /\
  gw_contexts g' = gw_contexts g /\ gw_loaded g' = ∅ /\ gw_loading g' = ∅ /\
  (forall k, is_inference_banned i k m'' = false) /\ catalog_cache m'' !! i = None.
Proof.
  intros E Hne m'. assert (Em : gateways m' !! i = None) by (unfold m'; rewrite remove_gateways_lookup; by rewrite bool_decide_true by set_solver).
  assert (Hm' : catalog_cache m' !! i = Some (mkEntry (gw_available g) (gw_resources g) (gw_activated g) (gw_contexts g)) /\
                inference_banned m' !! i = None).
  { unfold m', remove_gateways. cbn [remove_each]. rewrite E. unfold remove_gateway_entry, cache_catalog_for_gateway. simpl.
    rewrite (bool_decide_false (gw_available g = ∅)) by done. simpl. by rewrite lookup_insert_eq, lookup_delete_eq. }
  destruct Hm' as [Hc Hb]. clearbody m'. unfold ensure_gateway. rewrite Em, Hc. simpl. repeat (split; [done|]).
  split; [|by rewrite lookup_delete_eq]. intros k. unfold is_inference_banned. simpl. rewrite Hb. simpl.
  by rewrite bool_decide_false by set_solver.
Qed.

(** ** What the code does *)

Definition source (remote gateway : string) : TelemetrySource := mkSource remote gateway "node".

Definition message_about (remote gateway : string) (k : string) : RawPayload :=
  mkRaw (Some (source remote gateway)) (match parse k with Ok i => Some i | Raise _ => None end)
    None None None None [] [] ∅ None None None None None None None.

Definition loaded_state (remote gateway : string) (l : list string) (resources : list (string * ModelResource)) : RawPayload :=
  mkRaw (Some (source remote gateway)) None (Some l) None (Some l) None resources [] ∅ None None None None None None None.

Definition llama : MKey := ("llama"%string, None).

(** The variant of the mark that nobody calls does not look whether the model is
    loaded already. *)
Example blind_mark_conflicts :
  let m := run [(0, UpdateFromEvent "r" MODEL_LOADED (message_about "r" "g" "llama")); (1, MarkModelLoading "g" llama)]%string
             new_manager in
  match gateways m !! "g"%string with Some g => bool_decide (llama ∈ gw_loaded g ∩ gw_loading g) | None => false end = true.
Proof. vm_compute. reflexivity. Qed.

(** A message is checked against the Stargate it claims to come from, not
    against the one its gateway belongs to. *)
Example foreign_gateway_updated :
  let m := run [(0, UpdateFromEvent "a" MODEL_LOADED (message_about "a" "g" "llama"));
                (1, UpdateFromEvent "b" MODEL_UNLOADED (message_about "b" "g" "llama"))]%string new_manager in
  is_model_believed_loaded "g" llama m = false /\
  (gw_remote <$> gateways m !! "g"%string) = Some "a"%string.
Proof. vm_compute. split; reflexivity. Qed.

(** Polls change the state without advancing its generation, so that requests
    that wait for a change are not woken. *)
Example polls_wake_nobody :
  let m := run [(0, ApplySnapshot "g" (mkSnapshot {[loaded_models := ["llama"]]} ∅ 3) "r")]%string new_manager in
  is_model_believed_loaded "g" llama m = true /\ state_generation m = 0.
Proof. vm_compute. split; reflexivity. Qed.

(** The sentinel of a heartbeat becomes the last sequence number, so that an
    old delta is applied again. *)
Example heartbeat_forgets_sequence :
  let old := mkChanges {[loaded_models := Diff ["llama"] []]} ∅ in
  let m := run [(0, ApplyDelta "g" old 4 "r"); (1, ApplyDelta "g" (mkChanges {[loaded_models := Full []]} ∅) 5 "r")]%string
             new_manager in
  is_model_believed_loaded "g" llama (run [(2, ApplyDelta "g" old 4 "r")]%string m) = false /\
  is_model_believed_loaded "g" llama (run [(2, ApplyDelta "g" no_changes (-1) "r"); (3, ApplyDelta "g" old 4 "r")]%string m)
    = true.
Proof. vm_compute. split; reflexivity. Qed.

(** The heartbeat of a poll can register a gateway of a Stargate that does not
    exist. *)
Example heartbeat_registers_gateway :
  let m := run [(0, ApplyDelta "g" no_changes (-1) "http_poller_heartbeat")]%string new_manager in
  (gw_remote <$> gateways m !! "g"%string) = Some "http_poller_heartbeat"%string.
Proof. vm_compute. reflexivity. Qed.

(** A capacity that is no number counts as one when a model is loaded, but
    aborts a snapshot when a leaked slot is to be reset: [4096] is the time in
    milliseconds of the third snapshot. *)
Definition leaky_pool : CapacityPool :=
  with_last_change {[("g", "qwen")%string := 0%Q]} (with_in_flight {[("g", "qwen")%string := 1]} (new_pool false 10)).

Definition unparsable : list (string * ModelResource) :=
  [("qwen"%string, mkResource None (Some (MText "four")))].

Example unparsable_capacity_aborts :
  let snap := loaded_state "r" "g" ["llama"]%string unparsable in
  let m := run [(0, SetCapacityPool leaky_pool); (1, UpdateFromEvent "r" GATEWAY_SNAPSHOT snap)]%string new_manager in
  parse_max_concurrent (MText "four") = 1 /\ state_generation m = 1 /\
  (update_from_event 4000000 "r" GATEWAY_SNAPSHOT snap m).1.1 = false.
Proof. vm_compute. repeat split; reflexivity. Qed.

(** ** Witnesses *)

Definition session : list (Z * Op) :=
  [(0, UpdateFromEvent "r" GATEWAY_SNAPSHOT (loaded_state "r" "g" ["qwen"] []));
   (5, MarkLoadingOptimistic "g" llama);
   (9, UpdateFromEvent "r" MODEL_LOADED (message_about "r" "g" "llama"));
   (12, UpdateFromEvent "r" RESOURCE_UPDATE (loaded_state "r" "g" ["qwen"] []));
   (20, UpdateFromEvent "r" MODEL_UNLOADED (message_about "r" "g" "qwen"))]%string.

Lemma believed_exact_witness :
  is_model_believed_loaded "g" llama (run session new_manager) = true /\
  is_model_believed_loaded "g" ("qwen"%string, None) (run session new_manager) = false.
Proof.
  assert (Hs : Forall (fun e => socket_op e.2) session) by (repeat constructor).
  split; rewrite (believed_exact session "g" _ Hs); vm_compute; reflexivity.
Defined.

Lemma gateways_consistent_witness : match gateways (run session new_manager) !! "g"%string with
  | Some g => gw_loaded g ## gw_loading g | None => False end.
Proof.
  assert (Hs : Forall (fun e => op_ok e.2) session) by (repeat constructor).
  destruct (gateways (run session new_manager) !! "g"%string) as [g|] eqn:E.
  - apply (gateways_consistent session "g" g Hs E).
  - vm_compute in E. discriminate E.
Defined.

Lemma catalog_survives_reconnect_witness :
  let m := run session new_manager in
  gw_available (ensure_gateway 100 "g" "r" "" (remove_gateways ["g"%string] true m).2).1 = {[("qwen"%string, None)]}.
Proof.
  intros m.
  assert (Hm : exists g, gateways m !! "g"%string = Some g /\ gw_available g = {[("qwen"%string, None)]})
    by (eexists; split; vm_compute; reflexivity).
  clearbody m. destruct Hm as (g & E & Ha). assert (Hne : gw_available g <> ∅) by (rewrite Ha; discriminate).
  pose proof (catalog_survives_reconnect 100 "g" "r" "" g m E Hne) as H. cbv zeta in H.
  destruct (ensure_gateway _ _ _ _ _) as [g' m'']. destruct H as [H _]. simpl. rewrite H. exact Ha.
Defined.
