(* ===== verification/HttpPolling.v ===== *)
(** * Polling a remote
    ([systems/federation/link/http_polling/master])

    The master polls each remote that has no WebSocket: a fetcher that asks for
    a full snapshot first and after every failure, an applicator that hands the
    answer to the manager of [FederatedGateways], and a strategy that chooses
    the next interval.  [poll] is one turn of the loop, with the remote of
    [TelemetryTracker] at the other end of a network that can lose the request
    or the answer. *)
From stdpp Require Import base gmap sets list strings.
From Stdlib Require Import ZArith Lia.
From S2P Require Import Prelude PyString ModelId CapacityPool TelemetryTracker FederatedGateways.
Open Scope Z_scope.

(** ** The fetcher and the strategy *)

Record TelemetryFetcher := mkFetcher {
  failure_count : Z;
  needs_full_sync : bool;
  last_gateway_id : option string
}.

Definition new_fetcher : TelemetryFetcher := mkFetcher 0 true None.

(** The part of the configuration that is read, in milliseconds. *)
Record PollConfig := mkConfig {
  remote_stargate_id : string;
  telemetry_poll_interval_ms : Z;
  fast_poll_interval_ms : Z;
  fast_poll_cooldown_ms : Z
}.

Definition max_backoff_multiplier : Z := 8.

Definition reset_backoff (f : TelemetryFetcher) : TelemetryFetcher :=
  mkFetcher 0 (needs_full_sync f) (last_gateway_id f).

Definition request_full_sync (f : TelemetryFetcher) : TelemetryFetcher :=
  mkFetcher (failure_count f) true (last_gateway_id f).

Definition get_backoff_interval (cfg : PollConfig) (f : TelemetryFetcher) : Z * TelemetryFetcher :=
  let failures := failure_count f + 1 in
  let multiplier := Z.min (2 ^ (failures - 1)) max_backoff_multiplier in
  (Z.min (telemetry_poll_interval_ms cfg * multiplier) 30000,
   mkFetcher failures (needs_full_sync f) (last_gateway_id f)).

(** [_parse_response], when the answer names its gateway. *)
Definition parsed (gateway_id : string) (f : TelemetryFetcher) : TelemetryFetcher :=
  mkFetcher (failure_count f) false (Some gateway_id).

Inductive PollState : Type := IDLE | BUSY | COOLDOWN.

Record AdaptivePollingStrategy := mkStrategy { last_active_time : Z; s_gateway_id : option string }.

Definition new_strategy : AdaptivePollingStrategy := mkStrategy 0 None.

Definition is_active (g : FederatedGateway) : bool :=
  (0 <? get_or 0 (gw_requests g)) || negb (bool_decide (gw_busy g = ∅)).

Definition get_state (cfg : PollConfig) (now : Z) (gateway_id : string) (m : FederatedGatewayManager)
    (s : AdaptivePollingStrategy) : PollState * AdaptivePollingStrategy :=
  let active := match gateways m !! gateway_id with Some g => is_active g | None => false end in
  if active then (BUSY, mkStrategy now (s_gateway_id s))
  else if now - last_active_time s <? fast_poll_cooldown_ms cfg then (COOLDOWN, s) else (IDLE, s).

Definition get_poll_interval (cfg : PollConfig) (now : Z) (m : FederatedGatewayManager) (s : AdaptivePollingStrategy)
  : Z * AdaptivePollingStrategy :=
  match s_gateway_id s with
  | None => (telemetry_poll_interval_ms cfg, s)
  | Some i =>
      let '(st, s) := get_state cfg now i m s in
      (match st with IDLE => telemetry_poll_interval_ms cfg | _ => fast_poll_interval_ms cfg end, s)
  end.

(** ** The applicator *)

(** Published besides the effects of the manager. *)
Inductive PollEvent : Type :=
  | ManagerEffect (e : Effect)
  | ResourceUpdateSignal (gateway_id : string)
  | FederationModelLoaded (gateway_id : string) (model : MKey)
  | FederationModelUnloaded (gateway_id : string) (model : MKey).

(** [_handle_critical_event]; [None] when the id does not parse. *)
Definition handle_critical_event (gateway_id : string) (e : CriticalEvent) : option (list PollEvent) :=
  if bool_decide (TelemetryTracker.model_id e = ""%string) then Some []
  else if bool_decide (event e = "MODEL_LOADED"%string) then
    (fun k => [FederationModelLoaded gateway_id k]) <$> model_key (TelemetryTracker.model_id e)
  else if bool_decide (event e = "MODEL_UNLOADED"%string) then
    (fun k => [FederationModelUnloaded gateway_id k]) <$> model_key (TelemetryTracker.model_id e)
  else Some [].

Fixpoint publish_critical_events (gateway_id : string) (es : list CriticalEvent) : bool * list PollEvent :=
  match es with
  | [] => (true, [])
  | e :: es' =>
      match handle_critical_event gateway_id e with
      | Some out => let '(ok, outs) := publish_critical_events gateway_id es' in (ok, out ++ outs)
      | None => (false, [])
      end
  end.

(** [apply]: whether it raises, what is published and the manager after it. *)
Definition apply_response (now : Z) (i remote_id : string) (r : Snapshot + TelemetryDelta) (m : FederatedGatewayManager)
  : bool * list PollEvent * FederatedGatewayManager :=
  match r with
  | inl s =>
      let '(ok, e, m) := apply_snapshot now i s remote_id m in
      (ok, map ManagerEffect e ++ (if ok then [ResourceUpdateSignal i] else []), m)
  | inr d =>
      let '(ok, e, m) := apply_delta now i (changes d) (delta_seq d) remote_id m in
      if ok then
        let '(ok', e') := publish_critical_events i (delta_events d) in
        (ok', map ManagerEffect e ++ e' ++ (if ok' then [ResourceUpdateSignal i] else []), m)
      else (false, map ManagerEffect e, m)
  end.

Definition send_heartbeat (now : Z) (i : option string) (m : FederatedGatewayManager)
  : list PollEvent * FederatedGatewayManager :=
  match i with
  | None => ([], m)
  | Some i =>
      if bool_decide (i = ""%string) then ([], m)
      else let '(_, e, m) := apply_delta now i no_changes (-1) "http_poller_heartbeat" m in
           (map ManagerEffect e ++ [ResourceUpdateSignal i], m)
  end.

(** ** The loop *)

Record World := mkWorld {
  remote : Remote;
  manager : FederatedGatewayManager;
  fetcher : TelemetryFetcher;
  strategy : AdaptivePollingStrategy
}.

Definition new_world (m : FederatedGatewayManager) : World := mkWorld new_remote m new_fetcher new_strategy.

Inductive Network : Type := Delivered | RequestLost | ResponseLost.

Section Poller.
Context (cfg : PollConfig) (edge_id : string).

(** The [except] branch. *)
Definition poll_failed (r : Remote) (m : FederatedGatewayManager) (f : TelemetryFetcher) (s : AdaptivePollingStrategy)
  : Z * World :=
  let '(interval, f) := get_backoff_interval cfg f in (interval, mkWorld r m (request_full_sync f) s).

Definition poll_succeeded (now : Z) (r : Remote) (m : FederatedGatewayManager) (f : TelemetryFetcher)
    (s : AdaptivePollingStrategy) : Z * World :=
  let '(interval, s) := get_poll_interval cfg now m s in (interval, mkWorld r m (reset_backoff f) s).

(** An answer that names its gateway has arrived. *)
Definition poll_answered (now : Z) (r : Remote) (answer : Snapshot + TelemetryDelta) (w : World)
  : list PollEvent * (Z * World) :=
  let f := parsed edge_id (fetcher w) in
  let '(ok, e, m) := apply_response now edge_id (remote_stargate_id cfg) answer (manager w) in
  if ok then (e, poll_succeeded now r m f (mkStrategy (last_active_time (strategy w)) (Some edge_id)))
  else (e, poll_failed r m f (strategy w)).

(** One turn of [_poll_loop]: what is published, the time to the next turn and
    the world after it. *)
Definition poll (now : Z) (gateway : option GatewayState) (net : Network) (w : World) : list PollEvent * (Z * World) :=
  let '(answer, r) := get_telemetry gateway (needs_full_sync (fetcher w)) (remote w) in
  match net with
  | RequestLost => ([], poll_failed (remote w) (manager w) (fetcher w) (strategy w))
  | ResponseLost => ([], poll_failed r (manager w) (fetcher w) (strategy w))
  | Delivered =>
      match answer with
      | SnapshotResponse s => poll_answered now r (inl s) w
      | DeltaResponse d => poll_answered now r (inr d) w
      | NoContent =>
          let '(e, m) := send_heartbeat now (last_gateway_id (fetcher w)) (manager w) in
          (e, poll_succeeded now r m (reset_backoff (fetcher w)) (strategy w))
      | ServiceUnavailable => ([], poll_failed r (manager w) (fetcher w) (strategy w))
      end
  end.

(** What happens to the remote and the loop. *)
Inductive Action : Type :=
  | Poll (now : Z) (gateway : option GatewayState) (net : Network)
  | EdgeTelemetry (msg_type : EdgeMessage) (d : EdgeData)
  | EdgeDisconnects
  | RemoteRestarts.

Definition act (a : Action) (w : World) : World :=
  match a with
  | Poll now g net => (poll now g net w).2.2
  | EdgeTelemetry t d => mkWorld (ingest_edge_telemetry t d (remote w)) (manager w) (fetcher w) (strategy w)
  | EdgeDisconnects => mkWorld (handle_edge_disconnected (remote w)).2 (manager w) (fetcher w) (strategy w)
  | RemoteRestarts => mkWorld new_remote (manager w) (fetcher w) (strategy w)
  end.

Definition play (acts : list Action) (w : World) : World := fold_left (fun w a => act a w) acts w.

End Poller.

(** ** Deltas of lists arrive *)

Definition gw_list (f : ListField) (g : FederatedGateway) : gset MKey :=
  match f with loaded_models => gw_loaded g | busy_models => gw_busy g | available_models => gw_available g end.

Definition gw_int (f : IntField) (g : FederatedGateway) : option Z :=
  match f with active_requests => gw_requests g | vram_free_mb => vram_free g | ram_free_mb => ram_free g end.

(** All ids parse, and no two of them name the same model. *)
Definition well_named (ids : list string) : Prop :=
  Forall (fun s => is_Some (model_key s)) ids /\
  forall s t, s ∈ ids -> t ∈ ids -> model_key s = model_key t -> s = t.

Lemma elem_of_parse_list k l : k ∈ parse_list l <-> exists s, s ∈ l /\ model_key s = Some k.
Proof. unfold parse_list. rewrite elem_of_list_to_set, list_elem_of_omap. done. Qed.

Lemma parse_model_ids_ok l : Forall (fun s => is_Some (model_key s)) l -> parse_model_ids l = Ok (parse_list l).
Proof.
  unfold parse_model_ids, parse_list. induction 1 as [|s l [k Hk] _ IH]; [done|]. cbn [exn_map].
  cbn [omap list_omap]. rewrite Hk. unfold model_key in Hk. destruct (parse s) as [i|]; [simplify_eq|done]. simpl.
  destruct (exn_map parse l) as [ids|]; [simplify_eq/=|done]. simpl in *. congruence.
Qed.

(** A delta between two lists, on a set between them. *)
Lemma apply_compute_delta ids base prev curr :
  well_named ids -> base ⊆ ids -> prev ⊆ ids -> curr ⊆ ids ->
  (forall s, s ∈ base -> s ∈ curr \/ s ∈ prev) -> (forall s, s ∈ curr -> s ∈ base \/ s ∉ prev) ->
  apply_model_list_delta (parse_list base) (compute_list_delta prev curr) = Ok (parse_list curr).
Proof.
  intros [Hp Hinj] Hb Hs Hc H1 H2. rewrite Forall_forall in Hp.
  assert (Hok : forall l, l ⊆ ids -> parse_model_ids l = Ok (parse_list l)).
  { intros l Hl. apply parse_model_ids_ok, Forall_forall. intros s Hin. by apply Hp, Hl. }
  unfold compute_list_delta. destruct (_ && _); simpl; [|by apply Hok].
  rewrite (Hok (sorted_set _)); [simpl|by intros s [?%elem_of_list_to_set _]%elem_of_sorted_set%elem_of_difference; apply Hc].
  rewrite (Hok (sorted_set _)); [simpl|by intros s [?%elem_of_list_to_set _]%elem_of_sorted_set%elem_of_difference; apply Hs].
  f_equal. apply set_eq. intros k. rewrite elem_of_difference, elem_of_union, !elem_of_parse_list.
  setoid_rewrite elem_of_sorted_set. setoid_rewrite elem_of_difference. setoid_rewrite elem_of_list_to_set. split.
  - intros [[(s & Hin & E)|(s & [Hin _] & E)] Hn]; [|by exists s].
    destruct (decide (s ∈ curr)) as [|Hs']; [by exists s|]. destruct Hn. exists s. naive_solver.
  - intros (s & Hin & E). split.
    + destruct (H2 s Hin) as [|]; [left | right]; by exists s.
    + intros (t & [Ht Hn] & E'). apply Hn. rewrite (Hinj t s); [done | by apply Hs | by apply Hc | congruence].
Qed.

Lemma delta_from ids base prev curr :
  well_named ids -> prev ⊆ ids -> curr ⊆ ids -> base = prev \/ base = curr ->
  apply_model_list_delta (parse_list base) (compute_list_delta prev curr) = Ok (parse_list curr).
Proof.
  intros Hw Hp Hc [-> | ->]; apply (apply_compute_delta ids); try done; intros s Hin; auto.
  destruct (decide (s ∈ prev)); auto.
Qed.

(** What the remote computes between two lists turns, on the master, the one
    into the other; and it may arrive twice. *)
Theorem list_delta_roundtrip ids prev curr :
  well_named ids -> prev ⊆ ids -> curr ⊆ ids ->
  apply_model_list_delta (parse_list prev) (compute_list_delta prev curr) = Ok (parse_list curr) /\
  apply_model_list_delta (parse_list curr) (compute_list_delta prev curr) = Ok (parse_list curr).
Proof. intros Hw Hp Hc. split; apply (delta_from ids); auto. Qed.

(** ** The master and the remote *)

(** A state on the heap with the given fields. *)
Definition holds (h : Heap) (s : State) (l : ListField -> list string) (z : IntField -> Z) : Prop :=
  valid h s /\ (forall f, contents h s !! f = Some (l f)) /\ forall f, ints s !! f = Some (z f).

(** The gateway as the master knows it, with the given fields. *)
Definition synced (g : FederatedGateway) (l : ListField -> list string) (z : IntField -> Z) : Prop :=
  (forall f, gw_list f g = parse_list (l f)) /\ forall f, gw_int f g = Some (z f).

(** Changes that give the gateway these fields. *)
Definition steers (c : Changes) (g : FederatedGateway) (l : ListField -> list string) (z : IntField -> Z) : Prop :=
  (forall f, list_update f (gw_list f g) (list_changes c) = Ok (parse_list (l f))) /\
  forall f, field_update f (gw_int f g) (int_changes c) = Some (z f).

(** Changes that leave such a gateway as it is. *)
Definition stable (c : Changes) (l : ListField -> list string) (z : IntField -> Z) : Prop :=
  forall g, synced g l z -> steers c g l z.

Lemma stable_none l z : stable no_changes l z.
Proof. intros g [Hl Hz]. split; intros f; unfold list_update, field_update; simpl; by rewrite lookup_empty, ?Hl, ?Hz. Qed.

Lemma holds_app h h' s l z : holds h s l z -> holds (h ++ h') s l z.
Proof.
  intros (Hv & Hl & Hz). split; [|split; [|done]].
  - intros f r E. rewrite length_app. apply Hv in E. lia.
  - intros f. by rewrite contents_app.
Qed.

Lemma read_gateway_holds g l h : complete g l ->
  exists hs s, read_gateway g h = (h ++ hs, s) /\ holds (h ++ hs) s l (gateway_ints g).
Proof.
  intros H. apply (read_gateway_spec g l h) in H. destruct (read_gateway g h) as [h' s].
  destruct H as ((hs & ->) & Hv & Hl & Hz). exists hs, s. done.
Qed.

(** What the tracker still keeps of the past, given what the master knows. *)
Definition tracked (h : Heap) (p : State) (acc : Changes) (l : ListField -> list string) (z : IntField -> Z) : Prop :=
  p = empty_state /\ acc = no_changes \/ holds h p l z /\ stable acc l z.

Lemma tracked_none h p acc l z : tracked h p acc l z -> tracked h p no_changes l z.
Proof. intros [[-> _]|[H _]]; [by left | right; split; [done | apply stable_none]]. Qed.

Lemma tracked_app h h' p acc l z : tracked h p acc l z -> tracked (h ++ h') p acc l z.
Proof. intros [[-> ->]|[H ?]]; [by left | right; split; [by apply holds_app | done]]. Qed.

Lemma ext_synced g l z l' z' : (forall f, l f = l' f) -> (forall f, z f = z' f) -> synced g l z -> synced g l' z'.
Proof. intros El Ez [Hl Hz]. split; intros f; by rewrite <- ?El, <- ?Ez. Qed.

Lemma ext_steers c g l z l' z' : (forall f, l f = l' f) -> (forall f, z f = z' f) -> steers c g l z -> steers c g l' z'.
Proof. intros El Ez [Hl Hz]. split; intros f; by rewrite <- ?El, <- ?Ez. Qed.

Lemma synced_exists l z : exists g, synced g l z.
Proof.
  exists (with_lifecycle (parse_list (l loaded_models)) (parse_list (l busy_models)) ∅ ∅
            (with_metrics (Some (z ram_free_mb)) (Some (z vram_free_mb)) 0 0 (Some (z active_requests))
              (with_catalog (parse_list (l available_models)) None ∅ ∅ (fresh_gateway "" "" "" "" false 0)))).
  split; by intros [].
Qed.

(** No delta: the remote is where the master believes it to be. *)
Lemma quiet_tracked h p c acc l z l' z' :
  tracked h p acc l z -> holds h c l' z' -> is_empty (compute_delta h p c) = true ->
  tracked h p acc l' z' /\ (forall f, l f = l' f) /\ forall f, z f = z' f.
Proof.
  intros Ht (_ & Hl' & Hz') [El Ez]%compute_delta_empty. destruct Ht as [[-> ->]|[(Hv & Hl & Hz) Hs]].
  - specialize (Ez active_requests). by rewrite Hz' in Ez.
  - assert (Hll : forall f, l f = l' f) by (intros f; specialize (El f); rewrite Hl, Hl' in El; congruence).
    assert (Hzz : forall f, z f = z' f) by (intros f; specialize (Ez f); rewrite Hz, Hz' in Ez; congruence).
    split; [|done]. right. split.
    + split; [done|]. split; intros f; by rewrite <- ?Hll, <- ?Hzz.
    + intros g Hg. apply (ext_steers acc g l z); [done..|]. apply Hs. by apply (ext_synced g l' z').
Qed.

(** The field of a delta laid over changes that are stable. *)
Lemma delta_list_field ids h p c acc l z l' z' f base :
  well_named ids -> (forall f, l f ⊆ ids) -> (forall f, l' f ⊆ ids) -> (forall f, NoDup (l' f)) ->
  tracked h p acc l z -> holds h c l' z' -> base = l f \/ base = l' f ->
  list_update f (parse_list base) (list_changes (update_changes acc (compute_delta h p c))) = Ok (parse_list (l' f)).
Proof.
  intros Hw Hi Hi' Hn Ht (_ & Hl' & _) Hb. unfold list_update, update_changes. simpl.
  pose proof (compute_delta_lists h p c f) as Hd. pose proof (list_of_contents h c f) as Hc. rewrite Hl' in Hc. simpl in Hc.
  destruct (list_differs h p c f) eqn:E.
  - erewrite lookup_union_Some_l by exact Hd. rewrite Hc. destruct Ht as [[-> _]|[(_ & Hl & _) _]].
    + change (list_of h empty_state f) with (@nil string). rewrite first_delta by done. simpl.
      apply parse_model_ids_ok, Forall_forall. intros s Hin. destruct Hw as [Hw _]. rewrite Forall_forall in Hw. by apply Hw, (Hi' f).
    + pose proof (list_of_contents h p f) as Hp. rewrite Hl in Hp. simpl in Hp. rewrite Hp.
      by apply (delta_from ids).
  - rewrite lookup_union_r by exact Hd. apply list_differs_spec in E. rewrite Hl' in E.
    destruct Ht as [[-> _]|[(_ & Hl & _) Hs]]; [done|]. rewrite Hl in E. injection E as E.
    assert (Hbase : base = l f) by (destruct Hb as [-> | ->]; congruence). subst base. rewrite <- E.
    destruct (synced_exists l z) as [g Hg].
    pose proof (proj1 (Hs g Hg) f) as H. unfold list_update in H. by rewrite (proj1 Hg f) in H.
Qed.

Lemma delta_int_field h p c acc l z l' z' f v :
  tracked h p acc l z -> holds h c l' z' -> v = z f \/ v = z' f ->
  field_update f (Some v) (int_changes (update_changes acc (compute_delta h p c))) = Some (z' f).
Proof.
  intros Ht (_ & _ & Hz') Hv. unfold field_update, update_changes. simpl.
  pose proof (compute_delta_ints h p c f) as Hd. destruct (int_differs p c f) eqn:E.
  - erewrite lookup_union_Some_l by exact Hd. simpl. apply Hz'.
  - rewrite lookup_union_r by exact Hd. apply int_differs_spec in E. rewrite Hz' in E.
    destruct Ht as [[-> _]|[(_ & _ & Hz) Hs]]; [done|]. rewrite Hz in E. injection E as E.
    assert (Hbase : v = z f) by (destruct Hv as [-> | ->]; congruence). subst v. rewrite <- E.
    destruct (synced_exists l z) as [g Hg].
    pose proof (proj2 (Hs g Hg) f) as H. unfold field_update in H. by rewrite (proj2 Hg f) in H.
Qed.

(** The accumulated changes bring the master from the last reported state to the
    present one, and change nothing when they arrive again. *)
Lemma delta_steers ids h p c acc l z l' z' :
  well_named ids -> (forall f, l f ⊆ ids) -> (forall f, l' f ⊆ ids) -> (forall f, NoDup (l' f)) ->
  tracked h p acc l z -> holds h c l' z' ->
  let d := update_changes acc (compute_delta h p c) in
  stable d l' z' /\ forall g, synced g l z -> steers d g l' z'.
Proof.
  intros Hw Hi Hi' Hn Ht Hc d. split; intros g [Hl Hz]; (split; intros f; [rewrite Hl | rewrite Hz]).
  - apply (delta_list_field ids h p c acc l z l' z'); auto.
  - apply (delta_int_field h p c acc l z l' z'); auto.
  - apply (delta_list_field ids h p c acc l z l' z'); auto.
  - apply (delta_int_field h p c acc l z l' z'); auto.
Qed.

Lemma update_nonempty acc c : is_empty c = false -> is_empty (update_changes acc c) = false.
Proof.
  intros H. destruct (is_empty (update_changes acc c)) eqn:E; [|done]. apply is_empty_spec in E as [E1 E2].
  rewrite <- H. symmetry. apply is_empty_spec. simpl in *. split; apply map_eq; intros f.
  - assert (E : (list_changes c ∪ list_changes acc) !! f = None) by (by rewrite E1). by apply lookup_union_None in E as [-> _].
  - assert (E : (int_changes c ∪ int_changes acc) !! f = None) by (by rewrite E2). by apply lookup_union_None in E as [-> _].
Qed.

(** ** Changes on the master *)

Lemma updated_steers now g c seq l z :
  steers c g l z -> exists g', updated_gateway now g c seq = Ok g' /\ synced g' l z /\ gw_id g' = gw_id g /\
  last_sequence_number g' = seq.
Proof.
  intros [Hl Hz]. unfold updated_gateway. pose proof (Hl loaded_models) as E1. pose proof (Hl busy_models) as E2.
  pose proof (Hl available_models) as E3. cbn [gw_list] in E1, E2, E3. rewrite E1, E2, E3. simpl. eexists.
  split; [done|]. split; [split; intros []|split]; try done; simpl.
  - exact (Hz active_requests).
  - exact (Hz vram_free_mb).
  - exact (Hz ram_free_mb).
Qed.

Lemma ensure_known now i r m g : gateways m !! i = Some g -> ensure_gateway now i r "" m = (g, m).
Proof. intros E. unfold ensure_gateway. by rewrite E. Qed.

(** The master's picture of a polled gateway. *)
Definition pictured (m : FederatedGatewayManager) (i : string) (l : ListField -> list string) (z : IntField -> Z) (seq : Z)
  : Prop :=
  exists g, gateways m !! i = Some g /\ gw_id g = i /\ synced g l z /\ last_sequence_number g <= seq.

Lemma lookup_put_self i g m : gw_id g = i -> gateways (put_gateway g m) !! i = Some g.
Proof. intros E. by rewrite lookup_put, bool_decide_true. Qed.

(** A heartbeat, or a delta without changes or out of order, leaves it. *)
Lemma quiet_pictured now i c seq r m l z n :
  pictured m i l z n -> seq <= n -> is_empty c = true \/ seq <> -1 /\ (forall g, gateways m !! i = Some g -> seq <= last_sequence_number g) ->
  exists e m', apply_delta now i c seq r m = (true, e, m') /\ pictured m' i l z n.
Proof.
  intros (g & E & Hid & Hs & Hn) Hseq Hc. unfold apply_delta. rewrite (ensure_known now i r m g E).
  unfold update_heartbeat_timestamp. set (g1 := with_times (telemetry_timestamp g) now g).
  destruct (is_out_of_order g1 seq) eqn:Eo.
  - eexists _, _. split; [done|]. exists g1. split; [by apply lookup_put_self|]. done.
  - destruct Hc as [Hc|[Hne Hlast]].
    + rewrite Hc. eexists _, _. split; [done|]. exists (with_sequence seq g1).
      split; [by apply lookup_put_self|]. done.
    + unfold is_out_of_order in Eo. rewrite (proj2 (Z.eqb_neq seq (-1)) Hne) in Eo. to_prop.
      specialize (Hlast g E). simpl in Eo. lia.
Qed.

(** A delta in order takes the master to the new fields. *)
Lemma delta_pictured now i c seq r m g l z :
  gateways m !! i = Some g -> gw_id g = i -> last_sequence_number g < seq -> 0 <= seq -> is_empty c = false ->
  steers c g l z ->
  exists e m', apply_delta now i c seq r m = (true, e, m') /\ pictured m' i l z seq.
Proof.
  intros E Hid Hlast H0 Hc Hs. unfold apply_delta. rewrite (ensure_known now i r m g E).
  unfold update_heartbeat_timestamp, is_out_of_order. cbn [last_sequence_number with_times].
  rewrite (proj2 (Z.eqb_neq seq (-1))) by lia. rewrite (proj2 (Z.leb_gt _ _) Hlast). rewrite Hc.
  unfold update_telemetry_timestamps, commit_gateway_update. rewrite Hc. set (g1 := with_times now now _).
  assert (Hs1 : steers c g1 l z) by exact Hs.
  destruct (updated_steers now g1 c seq l z Hs1) as (g' & -> & Hg' & Hid' & Hseq). simpl.
  eexists _, _. split; [done|]. exists g'. split; [|split; [|split; [done|lia]]].
  - apply lookup_put_self. by rewrite Hid'.
  - by rewrite Hid'.
Qed.

(** A snapshot of a complete state takes the master there from anywhere. *)
Lemma snapshot_pictured ids now i r m h t l z :
  well_named ids -> (forall f, l f ⊆ ids) -> MOk m -> holds h (current_state t) l z ->
  exists e m', apply_snapshot now i (get_full_snapshot h t) r m = (true, e, m') /\ pictured m' i l z (sequence_number t).
Proof.
  intros [Hw _] Hi H (Hv & Hl & Hz). unfold apply_snapshot. destruct (ensure_spec now i r "" m H) as (g & m1 & -> & _ & _ & Hid & _).
  unfold update_telemetry_timestamps, commit_gateway_update. set (g1 := with_times now now g).
  set (c := snapshot_changes (get_full_snapshot h t)).
  assert (Hcl : forall f, list_changes c !! f = Some (Full (l f))).
  { intros f. unfold c, snapshot_changes, get_full_snapshot. simpl. specialize (Hl f). unfold contents in Hl.
    rewrite lookup_fmap in Hl. destruct (lists (current_state t) !! f) as [n|] eqn:E; [|done]. simpl in Hl.
    rewrite !lookup_fmap. erewrite lookup_union_Some_l by exact E. simpl. congruence. }
  assert (Hci : forall f, int_changes c !! f = Some (Some (z f))).
  { intros f. unfold c, snapshot_changes, get_full_snapshot. simpl.
    rewrite lookup_fmap. by erewrite lookup_union_Some_l by apply Hz. }
  assert (Hs : steers c g1 l z).
  { split; intros f; unfold list_update, field_update; rewrite ?Hcl, ?Hci; [|done].
    apply parse_model_ids_ok, Forall_forall. rewrite Forall_forall in Hw. intros s Hin. by apply Hw, (Hi f). }
  assert (Hc : is_empty c = false).
  { destruct (is_empty c) eqn:E; [|done]. apply is_empty_spec in E as [_ E]. specialize (Hci active_requests).
    by rewrite E, lookup_empty in Hci. }
  rewrite Hc. destruct (updated_steers now g1 c (sequence_number t) l z Hs) as (g' & E & Hg' & Hid' & Hseq).
  cbn [snap_seq get_full_snapshot] in *. rewrite E. simpl. eexists _, _. split; [done|]. exists g'.
  assert (Hi' : gw_id g' = i) by (by rewrite Hid'). split; [by apply lookup_put_self|]. split; [done|]. split; [done | lia].
Qed.

(** What the tracker answers. *)
Lemma get_delta_spec ids h t l z l' z' :
  well_named ids -> (forall f, l f ⊆ ids) -> (forall f, l' f ⊆ ids) -> (forall f, NoDup (l' f)) ->
  tracked h (previous_state t) (accumulated_delta t) l z -> holds h (current_state t) l' z' ->
  let '(d, t') := get_delta h t in
  tracked h (previous_state t') (accumulated_delta t') l' z' /\ critical_events t' = [] /\
  delta_seq d = sequence_number t' /\ delta_events d = critical_events t /\
  ((forall f, l f = l' f) /\ (forall f, z f = z' f) /\ sequence_number t' = sequence_number t /\ stable (changes d) l' z' \/
   sequence_number t' = sequence_number t + 1 /\ is_empty (changes d) = false /\
   forall g, synced g l z -> steers (changes d) g l' z').
Proof.
  intros Hw Hi Hi' Hn Ht Hc. unfold get_delta.
  set (acc := if _ && _ then no_changes else accumulated_delta t).
  assert (Ha : tracked h (previous_state t) acc l z).
  { unfold acc. destruct (_ && _); [by eapply tracked_none | done]. }
  clearbody acc. destruct (is_empty (compute_delta h (previous_state t) (current_state t))) eqn:E; simpl.
  - destruct (quiet_tracked h _ _ acc l z l' z' Ha Hc E) as (Ht' & El & Ez). split; [done|].
    repeat (split; [done|]). left. repeat (split; [done|]). destruct Ht' as [[_ ->]|[_ ?]]; [apply stable_none | done].
  - destruct (delta_steers ids h _ _ acc l z l' z' Hw Hi Hi' Hn Ha Hc) as [Hs Hg]. split; [by right|].
    repeat (split; [done|]). right. split; [done|]. split; [by apply update_nonempty | done].
Qed.

Section InSync.
Context (cfg : PollConfig) (edge_id : string) (Hedge : edge_id <> ""%string) (ids : list string) (Hids : well_named ids).

(** Remote and master agree on the fields, and the loop expects deltas. *)
Record linked (w : World) (l : ListField -> list string) (z : IntField -> Z) : Prop := {
  k_picture : pictured (manager w) edge_id l z (sequence_number (tracker (remote w)));
  k_seq : 0 <= sequence_number (tracker (remote w));
  k_events : critical_events (tracker (remote w)) = [];
  k_tracked : tracked (heap (remote w)) (previous_state (tracker (remote w))) (accumulated_delta (tracker (remote w))) l z;
  k_sync : needs_full_sync (fetcher w) = false;
  k_gateway : last_gateway_id (fetcher w) = Some edge_id
}.

(** The gateway can be read, with these lists. *)
Definition reads (g : GatewayState) (l : ListField -> list string) : Prop := complete g l /\ forall f, l f ⊆ ids.

Lemma poll_succeeded_fields now r m f s :
  let w := (poll_succeeded cfg now r m f s).2 in
  remote w = r /\ manager w = m /\ fetcher w = reset_backoff f.
Proof. unfold poll_succeeded. by destruct (get_poll_interval cfg now m s). Qed.

(** A poll that asks for a snapshot of a remote that has reported nothing. *)
Lemma first_poll now g l w :
  reads g l -> MOk (manager w) -> needs_full_sync (fetcher w) = true ->
  pictured (manager (poll cfg edge_id now (Some g) Delivered w).2.2) edge_id l (gateway_ints g)
    (sequence_number (tracker (remote w))) /\
  (tracker (remote w) = new_tracker -> linked (poll cfg edge_id now (Some g) Delivered w).2.2 l (gateway_ints g)).
Proof.
  intros [Hg Hl] H Hfull. unfold poll, get_telemetry. rewrite Hfull.
  destruct (read_gateway_holds g l (heap (remote w)) Hg) as (hs & s & Er & Hh). rewrite Er.
  cbv beta iota zeta. unfold poll_answered, apply_response. cbn [heap tracker].
  destruct (snapshot_pictured ids now edge_id (remote_stargate_id cfg) (manager w) _ (update s (tracker (remote w))) l
    (gateway_ints g) Hids Hl H Hh) as (e & m' & E & Hp). rewrite E.
  pose proof (poll_succeeded_fields now (mkRemote (heap (remote w) ++ hs) (edge_state (remote w)) (update s (tracker (remote w))))
    m' (parsed edge_id (fetcher w)) (mkStrategy (last_active_time (strategy w)) (Some edge_id))) as (E1 & E2 & E3).
  cbn [snd]. split; [by rewrite E2|]. intros Hnew. rewrite Hnew in *. constructor; rewrite ?E1, ?E2, ?E3; try done. by left.
Qed.

(** A poll of a linked world. *)
Lemma next_poll now g l z l' w :
  reads g l' -> (forall f, l f ⊆ ids) -> linked w l z ->
  linked (poll cfg edge_id now (Some g) Delivered w).2.2 l' (gateway_ints g).
Proof.
  intros [Hg Hl'] Hl [Hp Hseq Hev Ht Hfull Hgw]. unfold poll, get_telemetry. rewrite Hfull.
  destruct (read_gateway_holds g l' (heap (remote w)) Hg) as (hs & s & Er & Hh). rewrite Er.
  cbv beta iota zeta. cbn [heap tracker edge_state].
  pose proof (get_delta_spec ids _ (update s (tracker (remote w))) l z l' (gateway_ints g) Hids Hl Hl' (proj2 Hg)
    (tracked_app _ hs _ _ _ _ Ht) Hh) as Hd.
  destruct (get_delta _ _) as [d t']. destruct Hd as (Ht' & Hev' & Hds & Hde & Hcase). cbn [critical_events update] in Hde.
  rewrite Hev in Hde. rewrite Hde, andb_comm. rewrite bool_decide_true by done. cbn [andb].
  set (r := mkRemote _ _ t').
  assert (Hpic : pictured (manager w) edge_id l z (sequence_number t')).
  { destruct Hp as (fg & ? & ? & ? & ?). exists fg. repeat (split; [done|]).
    destruct Hcase as [(_ & _ & -> & _)|(-> & _)]; simpl; lia. }
  assert (Hseq' : 0 <= sequence_number t') by (destruct Hcase as [(_ & _ & -> & _)|(-> & _)]; simpl; lia).
  destruct (is_empty (changes d)) eqn:Ec.
  - destruct Hcase as [(El & Ez & _)|(_ & Hne & _)]; [|by rewrite Hne in Ec].
    unfold send_heartbeat. rewrite Hgw, bool_decide_false by done.
    destruct (quiet_pictured now edge_id no_changes (-1) "http_poller_heartbeat" (manager w) l z _ Hpic) as (e & m' & E & Hp');
      [lia | by left|]. rewrite E.
    pose proof (poll_succeeded_fields now r m' (reset_backoff (fetcher w)) (strategy w)) as (E1 & E2 & E3).
    cbn [snd]. constructor; rewrite ?E1, ?E2, ?E3; try done.
    destruct Hp' as (fg & ? & ? & ? & ?). exists fg. repeat (split; [done|]). split; [by apply (ext_synced fg l z) | done].
  - unfold poll_answered, apply_response. rewrite Hds, Hde. cbn [publish_critical_events].
    assert (Ha : exists e m', apply_delta now edge_id (changes d) (sequence_number t') (remote_stargate_id cfg) (manager w)
                   = (true, e, m') /\ pictured m' edge_id l' (gateway_ints g) (sequence_number t')).
    { destruct Hp as (fg & Efg & Hid & Hs & Hlast).
      destruct Hcase as [(El & Ez & Hsame & Hst)|(Hnext & _ & Hst)].
      - assert (Hs' : synced fg l' (gateway_ints g)) by (by apply (ext_synced fg l z)).
        destruct (decide (sequence_number t' <= last_sequence_number fg)) as [Hle|Hgt].
        + destruct (quiet_pictured now edge_id (changes d) (sequence_number t') (remote_stargate_id cfg) (manager w) l'
            (gateway_ints g) (sequence_number t')) as (e & m' & E & Hp'); [|lia| |eauto].
          * exists fg. repeat (split; [done|]). simpl in *. lia.
          * right. split; [lia|]. intros fg' Efg'. by simplify_eq.
        + apply (delta_pictured now edge_id _ _ _ _ fg); auto; lia.
      - apply (delta_pictured now edge_id _ _ _ _ fg); auto. simpl in *. lia. }
    destruct Ha as (e & m' & -> & Hp'). cbn [negb].
    pose proof (poll_succeeded_fields now r m' (parsed edge_id (fetcher w))
      (mkStrategy (last_active_time (strategy w)) (Some edge_id))) as (E1 & E2 & E3).
    cbn [snd]. constructor; rewrite ?E1, ?E2, ?E3; done.
Qed.

Lemma play_linked polls l z w :
  (forall f, l f ⊆ ids) -> linked w l z -> Forall (fun p => exists l, reads p.2 l) polls ->
  exists l' z', (forall f, l' f ⊆ ids) /\
  linked (play cfg edge_id (map (fun p => Poll p.1 (Some p.2) Delivered) polls) w) l' z'.
Proof.
  revert l z w. induction polls as [|[now g] polls IH]; intros l z w Hl Hk Hr; [by exists l, z|].
  inversion Hr as [|? ? [l' Hg] Hr']; subst. cbn [map play fold_left act].
  apply (IH l' (gateway_ints g)); [apply Hg | by apply (next_poll now g l z) | done].
Qed.

(** C7: From a remote that has just started, as long as it is not restarted and
    every poll is answered and delivered, and model ids parse and name
    different models ([well_named]), the master knows after every poll
    exactly what the remote's gateway was when the poll read it: the models
    that are loaded, busy and available, the free memory and the active
    requests; whatever the master had from before, however often the gateway
    changed, and although the remote reports changes, repeats them until it
    believes they arrived, and is silent when there are none. *)
Theorem polling_in_sync polls now g l m :
  MOk m -> Forall (fun p => exists l, reads p.2 l) polls -> reads g l ->
  let w := play cfg edge_id (map (fun p => Poll p.1 (Some p.2) Delivered) (polls ++ [(now, g)])) (new_world m) in
  exists fg, gateways (manager w) !! edge_id = Some fg /\
    (forall f, gw_list f fg = parse_list (l f)) /\ forall f, gw_int f fg = Some (gateway_ints g f).
Proof.
  intros H Hr Hg w. enough (Hk : linked w l (gateway_ints g)) by (destruct (k_picture _ _ _ Hk) as (fg & ? & _ & [? ?] & _); eauto).
  unfold w. clear w. destruct polls as [|[t0 g0] polls].
  - by apply (first_poll now g l (new_world m)).
  - inversion Hr as [|? ? [l0 Hg0] Hr']; subst. cbn [app map]. unfold play. cbn [fold_left act]. rewrite map_app, fold_left_app.
    assert (H0 : linked (poll cfg edge_id t0 (Some g0) Delivered (new_world m)).2.2 l0 (gateway_ints g0))
      by (by apply (first_poll t0 g0 l0 (new_world m))).
    destruct (play_linked polls l0 _ _ (proj2 Hg0) H0 Hr') as (l1 & z1 & Hl1 & Hk).
    cbn [map fold_left act]. by apply (next_poll now g l1 z1).
Qed.

(** A poll that asks for a full snapshot and is answered brings the master back
    to the remote's state, whatever was lost before and whatever either side
    believes. *)
Theorem snapshot_resyncs now g l w :
  MOk (manager w) -> needs_full_sync (fetcher w) = true -> reads g l ->
  exists fg, gateways (manager (poll cfg edge_id now (Some g) Delivered w).2.2) !! edge_id = Some fg /\
    (forall f, gw_list f fg = parse_list (l f)) /\ forall f, gw_int f fg = Some (gateway_ints g f).
Proof.
  intros H Hf Hg. destruct (first_poll now g l w Hg H Hf) as [(fg & ? & _ & [? ?] & _) _]. eauto.
Qed.

End InSync.

(** ** Failures *)

Definition lose (times : list Z) : list Action := map (fun now => Poll now None RequestLost) times.

Lemma poll_lost cfg edge_id now w :
  poll cfg edge_id now None RequestLost w = ([], poll_failed cfg (remote w) (manager w) (fetcher w) (strategy w)).
Proof. unfold poll. by destruct (get_telemetry _ _ _). Qed.

Lemma play_lost cfg edge_id times w :
  let w' := play cfg edge_id (lose times) w in
  remote w' = remote w /\ manager w' = manager w /\
  failure_count (fetcher w') = failure_count (fetcher w) + Z.of_nat (length times).
Proof.
  revert w. induction times as [|now times IH]; intros w; [simpl; split; [done|]; split; [done|lia]|].
  unfold lose, play. cbn [map fold_left act]. rewrite poll_lost. cbn [snd].
  destruct (IH (poll_failed cfg (remote w) (manager w) (fetcher w) (strategy w)).2) as (E1 & E2 & E3).
  split; [exact E1|]. split; [exact E2|]. unfold lose, play in E3. rewrite E3. simpl. lia.
Qed.

(** While requests are lost the loop asks less and less often: after [n] lost
    requests the next one that is lost doubles the interval, up to eight times
    the configured one and never more than thirty seconds, and a full snapshot is
    due; the master's picture is left alone. *)
Theorem lost_polls_back_off cfg edge_id times now w :
  failure_count (fetcher w) = 0 ->
  let w' := play cfg edge_id (lose times) w in
  let '(e, (interval, w'')) := poll cfg edge_id now None RequestLost w' in
  interval = Z.min (telemetry_poll_interval_ms cfg * Z.min (2 ^ Z.of_nat (length times)) 8) 30000 /\
  needs_full_sync (fetcher w'') = true /\ manager w'' = manager w /\ e = [].
Proof.
  intros H w'. destruct (play_lost cfg edge_id times w) as (_ & E2 & E3). rewrite poll_lost. unfold poll_failed, get_backoff_interval.
  rewrite H in E3. fold w' in E2, E3. rewrite E3. split; [|done].
  unfold max_backoff_multiplier. by replace (0 + Z.of_nat (length times) + 1 - 1) with (Z.of_nat (length times)) by lia.
Qed.

(** ** What the code does *)

Definition config : PollConfig := mkConfig "r" 2000 500 5000.

(** A local gateway with these loaded models; all are available. *)
Definition gateway (loaded : list string) : GatewayState :=
  mkGatewayState [(loaded_models, loaded); (busy_models, []); (available_models, ["llama"; "qwen"])]%string 1000 2000.

Definition believes (k : string) (w : World) : bool := is_model_believed_loaded "g" (k, None) (manager w).

Definition observe (acts : list Action) : World := play config "g" acts (new_world new_manager).

(** After a lost poll a snapshot tells the master of a load that the remote
    still counts as unreported; when the model is unloaded again, nothing has
    changed for the remote and the master keeps a model that is not there. *)
Example phantom_after_lost_poll :
  let w := observe [Poll 0 (Some (gateway ["qwen"])) Delivered; Poll 1 (Some (gateway ["qwen"])) Delivered;
                    Poll 2 (Some (gateway ["qwen"])) RequestLost;
                    Poll 3 (Some (gateway ["qwen"; "llama"])) Delivered;
                    Poll 4 (Some (gateway ["qwen"])) Delivered; Poll 5 (Some (gateway ["qwen"])) Delivered;
                    Poll 6 (Some (gateway ["qwen"])) Delivered]%string in
  believes "llama" w = true /\ failure_count (fetcher w) = 0 /\ needs_full_sync (fetcher w) = false.
Proof. vm_compute. repeat split; reflexivity. Qed.

(** An edge behind a relay, and a load that its relay appends to the list the
    tracker holds: the event goes out, the list never does. *)
Definition edge_snapshot (loaded : list string) : EdgeData :=
  mkEdgeData [(loaded_models, loaded); (available_models, ["llama"; "qwen"])]%string (Some 1000) (Some 2000) None.

Definition about (k : string) : EdgeData := mkEdgeData [] None None (Some k).

Example relay_load_unreported :
  let w := observe [EdgeTelemetry other_message (edge_snapshot ["qwen"]); Poll 0 None Delivered; Poll 1 None Delivered;
                    EdgeTelemetry model_loaded (about "llama"); Poll 2 None Delivered; Poll 3 None Delivered]%string in
  list_of (heap (remote w)) (edge_state (remote w)) loaded_models = ["qwen"; "llama"]%string /\
  believes "qwen" w = true /\ believes "llama" w = false.
Proof. vm_compute. repeat split; reflexivity. Qed.

(** A remote that restarts counts from one again; what it reports is out of
    order for the master, which does not notice the restart. *)
Example restart_unnoticed :
  let w := observe [Poll 0 (Some (gateway ["qwen"])) Delivered; Poll 1 (Some (gateway ["qwen"])) Delivered;
                    Poll 2 (Some (gateway ["qwen"; "llama"])) Delivered; RemoteRestarts;
                    Poll 3 (Some (gateway [])) Delivered; Poll 4 (Some (gateway [])) Delivered]%string in
  believes "llama" w = true /\ believes "qwen" w = true /\ failure_count (fetcher w) = 0.
Proof. vm_compute. repeat split; reflexivity. Qed.

(** ** Witnesses *)

Definition names : list string := ["llama"; "qwen"]%string.

Lemma names_well : well_named names.
Proof.
  split; [repeat constructor; vm_compute; eauto|].
  assert (Hl : model_key "llama" <> model_key "qwen") by (vm_compute; discriminate).
  intros s t [-> |[-> |[]%elem_of_nil]%elem_of_cons]%elem_of_cons [-> |[-> |[]%elem_of_nil]%elem_of_cons]%elem_of_cons E;
    first [done | by destruct Hl].
Qed.

Definition fields (loaded : list string) (f : ListField) : list string :=
  match f with loaded_models => loaded | busy_models => [] | available_models => names end.

Lemma gateway_reads loaded : NoDup loaded -> loaded ⊆ names -> reads names (gateway loaded) (fields loaded).
Proof.
  intros Hn Hl. split; [split; [done|]|]; intros f; destruct f; cbn [fields].
  - exact Hn.
  - constructor.
  - apply (bool_decide_unpack _). vm_compute. exact I.
  - exact Hl.
  - apply list_subseteq_nil.
  - done.
Qed.

Lemma reads_one k : k ∈ names -> reads names (gateway [k]) (fields [k]).
Proof. intros Hk. apply gateway_reads; [apply NoDup_singleton | by intros s ->%list_elem_of_singleton]. Qed.

Lemma reads_none : reads names (gateway []) (fields []).
Proof. apply gateway_reads; [constructor | apply list_subseteq_nil]. Qed.

Lemma llama_named : "llama"%string ∈ names.
Proof. left. Qed.

Lemma qwen_named : "qwen"%string ∈ names.
Proof. right. left. Qed.

Lemma list_delta_roundtrip_witness :
  apply_model_list_delta (parse_list ["llama"]) (compute_list_delta ["llama"] ["qwen"]) = Ok {[("qwen", None)]}%string.
Proof.
  destruct (list_delta_roundtrip names ["llama"]%string ["qwen"]%string names_well) as [H _];
    [by intros s ->%list_elem_of_singleton; apply llama_named | by intros s ->%list_elem_of_singleton; apply qwen_named |].
  rewrite H. vm_compute. reflexivity.
Defined.

Lemma polling_in_sync_witness :
  exists fg, gateways (manager (play config "g" (map (fun p => Poll p.1 (Some p.2) Delivered)
    ([(0, gateway ["qwen"]); (1, gateway [])] ++ [(2, gateway ["llama"])])) (new_world new_manager))) !! "g" = Some fg /\
    gw_list loaded_models fg = {[("llama", None)]}%string /\ gw_int vram_free_mb fg = Some 1000.
Proof.
  assert (Hr : Forall (fun p => exists l, reads names p.2 l) [(0, gateway ["qwen"%string]); (1, gateway [])]).
  { constructor; [|constructor; [|constructor]]; eexists; [apply (reads_one _ qwen_named) | apply reads_none]. }
  pose proof (reads_one _ llama_named) as Hg.
  destruct (polling_in_sync config "g" ltac:(discriminate) names names_well _ 2 _ _ new_manager MOk_new Hr Hg) as (fg & E & Hl & Hz).
  exists fg. split; [exact E|]. split; [rewrite Hl; vm_compute; reflexivity | apply Hz].
Defined.

Lemma snapshot_resyncs_witness :
  let w := mkWorld (mkRemote [["qwen"]%string] (mkState {[loaded_models := 0%nat]} ∅) new_tracker)
             (run session new_manager) new_fetcher new_strategy in
  exists fg, gateways (manager (poll config "g" 30 (Some (gateway ["llama"%string])) Delivered w).2.2) !! "g"%string = Some fg /\
    gw_list loaded_models fg = {[("llama"%string, None)]}.
Proof.
  intros w. pose proof (reads_one _ llama_named) as Hg.
  assert (Hm : MOk (manager w)) by (apply MOk_run; [repeat constructor | apply MOk_new]).
  destruct (snapshot_resyncs config "g" names names_well 30 _ _ w Hm eq_refl Hg) as (fg & E & Hl & _).
  exists fg. split; [exact E|]. rewrite Hl. vm_compute. reflexivity.
Defined.

Lemma lost_polls_back_off_witness :
  (poll config "g" 9 None RequestLost (play config "g" (lose [1; 2; 3; 4; 5]) (new_world new_manager))).2.1 = 16000.
Proof.
  pose proof (lost_polls_back_off config "g" [1; 2; 3; 4; 5] 9 (new_world new_manager) eq_refl) as H. cbv zeta in H.
  destruct (poll _ _ _ _ _ _) as [e [interval w]]. destruct H as [-> _]. vm_compute. reflexivity.
Defined.
