(* ===== verification/RoutingCollectors.v ===== *)
(** * What the router sees of the gateways
    ([systems/routing/selection/stargate_collector.py], [collector.py],
    [catalog.py] and [systems/routing/aggregate_model_availability.py])

    The collectors turn the federated gateways of the manager into the
    snapshots the decision engine works on; the catalog functions answer which
    models exist anywhere, with which context; the emitter reports when a
    watched model becomes available or unavailable.

    A frozenset of [ModelId]s is the list of its elements; a dict keyed by
    [ModelId]s is the list of its items.  The integers of a resource entry are
    integers; only [max_concurrent_requests] may be anything, as in
    [FederatedGateways.v]. *)
From stdpp Require Import base gmap sets list strings.
From Stdlib Require Import Ascii ZArith QArith Lia.
From S2P Require Import Prelude PyFloat PyString PyJson ModelId WireModel FederatedGateways RoutingTypes Activation.
Local Open Scope Z_scope.

(** ** Federated gateways, as read here *)

Record ModelResources := mkResources {
  r_vram_usage : option Z;
  r_ram_usage : option Z;
  r_max_concurrent_requests : option MaxConcurrent;
  r_context_length : option Z;
  r_effective_context_per_slot : option Z
}.

Record FederatedGateway := mkFederated {
  f_gateway_id : string;
  f_remote_stargate_id : string;
  f_node_id : string;
  f_is_cloud : bool;
  f_dispatchable : bool;
  f_ram_free_mb : Z;
  f_vram_free_mb : Z;
  f_ram_total_mb : Z;
  f_vram_total_mb : Z;
  f_loaded_models : list ModelId;
  f_busy_models : list ModelId;
  f_loading_models : list ModelId;
  f_available_models : list ModelId;
  f_activated_models : option (list ModelId);
  f_model_resources : list (ModelId * ModelResources);
  f_model_measured_vram : gmap mkey_t Z;
  f_model_loaded_at : gmap mkey_t Q;
  f_active_requests : Z;
  f_telemetry_timestamp : Q;
  f_last_heartbeat : Q
}.

Definition heartbeat_age_ms (now : Q) (fg : FederatedGateway) : Z :=
  if f_is_cloud fg then 0 else py_int (fmul (fsub now (f_last_heartbeat fg)) (of_int 1000)).

Definition is_unreachable (now : Q) (fg : FederatedGateway) : bool :=
  if f_is_cloud fg then false else 60000 <? heartbeat_age_ms now fg.

(** [FederatedGatewayManager.get_healthy_gateways] *)
Definition get_healthy_gateways (now : Q) (gateways : list FederatedGateway) : list FederatedGateway :=
  List.filter (fun fg => negb (is_unreachable now fg)) gateways.

(** [model_id in model_resources], and the lookup. *)
Definition resources_of (m : ModelId) (fg : FederatedGateway) : option ModelResources :=
  snd <$> List.find (fun kr => mid_eqb m kr.1) (f_model_resources fg).

(** ** Snapshots *)

Definition is_gateway_dispatchable (fg : FederatedGateway) : bool := f_dispatchable fg.

Definition details_of (r : ModelResources) : exn ModelDetails :=
  match int_of (get_or (MInt 1) (r_max_concurrent_requests r)) with
  | Some n => Ok (mkDetails None (Some (get_or 0 (r_vram_usage r))) (Some (get_or 0 (r_ram_usage r))) None (Some n))
  | None => Raise (ValueError "max_concurrent_requests")
  end.

Fixpoint map_model_resources_to_details (model_resources : list (ModelId * ModelResources))
  : exn (gmap mkey_t ModelDetails) :=
  match model_resources with
  | [] => Ok ∅
  | (m, r) :: rest =>
      let? d := details_of r in
      let? ds := map_model_resources_to_details rest in
      Ok (<[mkey m := d]> ds)
  end.

Definition snapshot_of (fg : FederatedGateway) (ds : gmap mkey_t ModelDetails) : Gateway := {|
  name := f_gateway_id fg;
  ram_free_mb := f_ram_free_mb fg; vram_free_mb := f_vram_free_mb fg;
  ram_total_mb := f_ram_total_mb fg; vram_total_mb := f_vram_total_mb fg;
  loaded_models := f_loaded_models fg; busy_models := f_busy_models fg;
  loading_models := f_loading_models fg; available_models := f_available_models fg;
  remote_stargate_id := Some (f_remote_stargate_id fg); node_id := f_node_id fg;
  model_details := ds; model_measured_vram := f_model_measured_vram fg;
  model_loaded_at := f_model_loaded_at fg;
  health_score := 1; avg_latency_ms := 0; active_requests := f_active_requests fg;
  telemetry_timestamp := f_telemetry_timestamp fg; last_heartbeat := f_last_heartbeat fg;
  gateway_is_cloud := f_is_cloud fg |}.

Fixpoint federated_gateways_to_routing_candidates (federated_gateways : list FederatedGateway) : exn (list Gateway) :=
  match federated_gateways with
  | [] => Ok []
  | fg :: rest =>
      if negb (is_gateway_dispatchable fg) then federated_gateways_to_routing_candidates rest
      else
        let? model_details := map_model_resources_to_details (f_model_resources fg) in
        let? gateways := federated_gateways_to_routing_candidates rest in
        Ok (snapshot_of fg model_details :: gateways)
  end.

(** *** The older path, over [Stargate]s *)

Record Stargate := mkStargate {
  stargate_id : string;
  sg_ref : FederatedGateway;
  sg_ram_free_mb : Z; sg_vram_free_mb : Z; sg_ram_total_mb : Z; sg_vram_total_mb : Z;
  sg_loaded_models : list ModelId; sg_busy_models : list ModelId;
  sg_loading_models : list ModelId; sg_available_models : list ModelId;
  sg_active_requests : Z;
  sg_telemetry_timestamp : Q; sg_last_heartbeat : Q;
  sg_model_details : gmap mkey_t ModelDetails;
  sg_model_measured_vram : gmap mkey_t Z
}.

(** A [FederatedGateway] has no [last_update_time], so the heartbeat of every
    [Stargate] is zero. *)
Definition collect_federated_stargate (snapshot_time : Q) (fed_gw : FederatedGateway) : exn Stargate :=
  let? ds := map_model_resources_to_details (f_model_resources fed_gw) in
  Ok {| stargate_id := f_remote_stargate_id fed_gw; sg_ref := fed_gw;
        sg_ram_free_mb := f_ram_free_mb fed_gw; sg_vram_free_mb := f_vram_free_mb fed_gw;
        sg_ram_total_mb := f_ram_total_mb fed_gw; sg_vram_total_mb := f_vram_total_mb fed_gw;
        sg_loaded_models := f_loaded_models fed_gw; sg_busy_models := f_busy_models fed_gw;
        sg_loading_models := f_loading_models fed_gw; sg_available_models := f_available_models fed_gw;
        sg_active_requests := f_active_requests fed_gw;
        sg_telemetry_timestamp := if feq (f_telemetry_timestamp fed_gw) 0 then snapshot_time
                                  else f_telemetry_timestamp fed_gw;
        sg_last_heartbeat := 0; sg_model_details := ds;
        sg_model_measured_vram := f_model_measured_vram fed_gw |}.

(** [StargateCollisionError] is a [RuntimeError] here. *)
Definition validate_stargate_pool (stargates : list Stargate) : exn unit :=
  if bool_decide (NoDup (map stargate_id stargates)) then Ok () else Raise RuntimeError.

Definition collect_stargates (now : Q) (federated_manager : option (list FederatedGateway)) : exn (list Stargate) :=
  match federated_manager with
  | None => Ok []
  | Some gateways =>
      let? stargates := exn_map (collect_federated_stargate now) (get_healthy_gateways now gateways) in
      let? _ := validate_stargate_pool stargates in
      Ok stargates
  end.

Definition stargate_to_gateway (sg : Stargate) : Gateway := {|
  name := f_gateway_id (sg_ref sg);
  ram_free_mb := sg_ram_free_mb sg; vram_free_mb := sg_vram_free_mb sg;
  ram_total_mb := sg_ram_total_mb sg; vram_total_mb := sg_vram_total_mb sg;
  loaded_models := sg_loaded_models sg; busy_models := sg_busy_models sg;
  loading_models := sg_loading_models sg; available_models := sg_available_models sg;
  remote_stargate_id := Some (f_remote_stargate_id (sg_ref sg)); node_id := f_node_id (sg_ref sg);
  model_details := sg_model_details sg; model_measured_vram := sg_model_measured_vram sg;
  model_loaded_at := ∅;
  health_score := 1; avg_latency_ms := 0; active_requests := sg_active_requests sg;
  telemetry_timestamp := sg_telemetry_timestamp sg; last_heartbeat := sg_last_heartbeat sg;
  gateway_is_cloud := f_is_cloud (sg_ref sg) |}.

(** ** [build_placement] *)

(** What the local gateway, asked for the configuration of a model, answers. *)
Record ModelMetadata := mkMetadata {
  md_vram_usage : option Z; md_ram_usage : option Z; md_context_length : option Z
}.

Definition placement_of (m : ModelId) (ram vram : Z) (ctx : option Z) (orig : option string) (category : string) : Placement := {|
  RoutingTypes.model_id := m; ram_mb := ram; vram_mb := vram; is_gpu := 0 <? vram; original_model_id := orig;
  placement_context_length := ctx; endpoint_category := category |}.

Definition first_with_resources (m : ModelId) (gateways : list FederatedGateway) : option (Z * Z * option Z) :=
  head (omap (fun fg => match resources_of m fg with
                        | Some r => match r_vram_usage r, r_ram_usage r with
                                    | Some v, Some rm => Some (v, rm, r_context_length r)
                                    | _, _ => None
                                    end
                        | None => None
                        end) gateways).

(** [local] is the answer of the local gateway, an exception or perhaps no
    configuration; any exception becomes [None]. *)
Definition build_placement (m : ModelId) (local : exn (option ModelMetadata)) (now : Q)
    (federated_manager : option (list FederatedGateway)) (orig : option string) (category : string) : option Placement :=
  match local with
  | Raise _ => None
  | Ok None =>
      match federated_manager with
      | None => None
      | Some gateways =>
          (fun '(v, r, ctx) => placement_of m r v ctx orig category)
            <$> first_with_resources m (get_healthy_gateways now gateways)
      end
  | Ok (Some c) =>
      match md_ram_usage c, md_vram_usage c with
      | Some r, Some v => Some (placement_of m r v (md_context_length c) orig category)
      | _, _ => None
      end
  end.

(** ** The catalog *)

(** The local gateway, through its client and WebSocket cache. *)
Record LocalGateway := mkLocal {
  is_connected : bool;
  lg_name : string;
  lg_models : list string;
  ws_model_resources : list (string * ModelResources);
  ws_activated_contexts : list (string * ActivationInfo);
  ws_totals : GatewayTotals;
  lg_loaded_models : list string;
  lg_busy_models : list string;
  lg_loading_models : list string
}.

Section Catalog.
Context (now : Q) (gateway_manager : option LocalGateway) (federated_manager : option (list FederatedGateway)).

(** [gateway_manager.get_gateway()] is the gateway when it is connected. *)
Definition local_gateway : option LocalGateway :=
  match gateway_manager with Some g => if is_connected g then Some g else None | None => None end.

Definition healthy : list FederatedGateway :=
  match federated_manager with Some gateways => get_healthy_gateways now gateways | None => [] end.

Definition get_local_model_ids : list string :=
  match local_gateway with Some g => lg_models g | None => [] end.

Definition local_gateway_catalog_id_strings (g : LocalGateway) : list string :=
  lg_models g ++ map fst (ws_model_resources g).

Definition federated_gateway_catalog_model_ids (fg : FederatedGateway) : list ModelId :=
  f_available_models fg ++ map fst (f_model_resources fg).

Definition is_model_in_any_catalog (model_id_str : string) : bool :=
  match parse model_id_str with
  | Raise _ => false
  | Ok parsed =>
      match local_gateway with
      | Some g => existsb (fun s => match parse s with Ok m => mid_eqb m parsed | Raise _ => false end)
                    (local_gateway_catalog_id_strings g)
      | None => false
      end || existsb (fun fg => existsb (fun m => mid_eqb m parsed) (federated_gateway_catalog_model_ids fg)) healthy
  end.

Definition strs (ms : list ModelId) : gset string := list_to_set (map original ms).

Definition collect_stargate_model_sets : list (gset string) :=
  match get_local_model_ids with [] => [] | local_models => [list_to_set local_models] end
    ++ map (fun fg => strs (f_available_models fg)) healthy.

Definition get_all_available_models : gset string := ⋃ collect_stargate_model_sets.

Definition get_local_activated_models : option (gset string) :=
  match local_gateway with
  | None => None
  | Some g =>
      match ws_activated_contexts g with
      | [] => Some (list_to_set (lg_models g))
      | contexts => Some (filter_by_activation (list_to_map contexts) ∅ [(lg_name g, ws_totals g)] (lg_models g))
      end
  end.

Definition get_federated_activated_models : list (gset string) :=
  map (fun fg => strs (get_or (f_available_models fg) (f_activated_models fg))) healthy.

Definition get_activated_models_for_display : gset string :=
  ⋃ (match get_local_activated_models with Some s => [s] | None => [] end ++ get_federated_activated_models).

(** *** Context metadata *)

Record ContextEntry := mkEntry { context_length : Z; effective_context_per_slot : option Z }.

Definition truthy_int (o : option Z) : option Z :=
  match o with Some z => if z =? 0 then None else Some z | None => None end.

Definition entry_of (r : ModelResources) : option ContextEntry :=
  (fun c => mkEntry c (truthy_int (r_effective_context_per_slot r))) <$> truthy_int (r_context_length r).

Definition eff (e : ContextEntry) : Z := get_or 0 (effective_context_per_slot e).

Definition merge_entry (md : gmap string ContextEntry) (se : string * ContextEntry) : exn (gmap string ContextEntry) :=
  let (mid_str, entry) := se in
  match md !! mid_str with
  | None => Ok (<[mid_str := entry]> md)
  | Some existing =>
      if context_length existing <? context_length entry then Ok (<[mid_str := entry]> md)
      else if (context_length entry =? context_length existing) && (eff existing <? eff entry)
      then match effective_context_per_slot entry with
           | Some e => Ok (<[mid_str := mkEntry (context_length existing) (Some e)]> md)
           | None => Raise KeyError
           end
      else Ok md
  end.

Definition setdefault (md : gmap string ContextEntry) (se : string * ContextEntry) : gmap string ContextEntry :=
  match md !! se.1 with Some _ => md | None => <[se.1 := se.2]> md end.

Definition entries_of {K : Type} (str : K -> string) (l : list (K * ModelResources)) : list (string * ContextEntry) :=
  omap (fun kr => pair (str kr.1) <$> entry_of kr.2) l.

Definition local_entries : list (string * ContextEntry) :=
  match local_gateway with Some g => entries_of id (ws_model_resources g) | None => [] end.
Definition federated_entries : list (string * ContextEntry) :=
  concat (map (fun fg => entries_of original (f_model_resources fg)) healthy).

Fixpoint merge_all (md : gmap string ContextEntry) (l : list (string * ContextEntry)) : exn (gmap string ContextEntry) :=
  match l with [] => Ok md | se :: l' => let? md' := merge_entry md se in merge_all md' l' end.

Definition get_model_context_metadata : exn (gmap string ContextEntry) :=
  merge_all (fold_left setdefault local_entries ∅) federated_entries.

(** *** Where a model is *)

Definition get_model_source_map (local_stargate_id : string) : gmap string (list string) :=
  let add (m : gmap string (list string)) (kv : string * string) := <[kv.1 := get_or [] (m !! kv.1) ++ [kv.2]]> m in
  fold_left add
    (map (fun s => (s, local_stargate_id)) get_local_model_ids
       ++ concat (map (fun fg => map (fun m => (original m, f_remote_stargate_id fg)) (f_available_models fg)) healthy))
    ∅.

Record ModelStatus := mkStatus { loaded_on : list string; busy_on : list string; loading_on : list string }.
Inductive StatusKind := KLoaded | KBusy | KLoading.

Definition add_status (st : gmap string ModelStatus) (x : string * StatusKind * string) : gmap string ModelStatus :=
  let '(mid, k, node) := x in
  let s := get_or (mkStatus [] [] []) (st !! mid) in
  <[mid := match k with
           | KLoaded => mkStatus (loaded_on s ++ [node]) (busy_on s) (loading_on s)
           | KBusy => mkStatus (loaded_on s) (busy_on s ++ [node]) (loading_on s)
           | KLoading => mkStatus (loaded_on s) (busy_on s) (loading_on s ++ [node])
           end]> st.

Definition status_facts (node : string) (loaded busy loading : list string) : list (string * StatusKind * string) :=
  map (fun m => (m, KLoaded, node)) loaded ++ map (fun m => (m, KBusy, node)) busy
    ++ map (fun m => (m, KLoading, node)) loading.

Definition all_status_facts (local_stargate_id : string) : list (string * StatusKind * string) :=
  match local_gateway with
  | Some g => status_facts local_stargate_id (lg_loaded_models g) (lg_busy_models g) (lg_loading_models g)
  | None => []
  end ++ concat (map (fun fg => status_facts (f_remote_stargate_id fg) (map original (f_loaded_models fg))
                                  (map original (f_busy_models fg)) (map original (f_loading_models fg))) healthy).

Definition get_model_status_map (local_stargate_id : string) : gmap string ModelStatus :=
  fold_left add_status (all_status_facts local_stargate_id) ∅.

End Catalog.

(** ** [AggregateModelAvailabilityEmitter] *)

Record Emitter := mkEmitter { has_event_bus : bool; watched : gset string; last_union : gset string }.

(** [ModelAvailable(mid)] and [ModelUnavailable(mid)] *)
Record AvailabilityEvent := mkAvailability { av_model : string; av_available : bool }.

Definition new_emitter (event_bus : bool) : Emitter := mkEmitter event_bus ∅ ∅.

Definition snapshot (model_ids : list string) (e : Emitter) : list (string * bool) :=
  map (fun m => (m, bool_decide (m ∈ last_union e))) model_ids.

Definition register_watch (model_ids : list string) (e : Emitter) : list (string * bool) * Emitter :=
  let e' := mkEmitter (has_event_bus e)
              (watched e ∪ list_to_set (List.filter (fun s => negb (bool_decide (s = ""%string))) model_ids))
              (last_union e) in
  (snapshot (sort_by String.ltb (elements (watched e'))) e', e').

(** [reconcile]: [order] is the order in which the set of watched ids is read,
    [fails] says which events the bus refuses. *)
Definition reconcile (order : gset string -> list string) (fails : AvailabilityEvent -> bool) (new_union : gset string)
    (e : Emitter) : list AvailabilityEvent * Emitter :=
  if negb (has_event_bus e) then ([], e)
  else
    (List.filter (fun ev => negb (fails ev))
       (omap (fun mid => let was := bool_decide (mid ∈ last_union e) in
                         let is_now := bool_decide (mid ∈ new_union) in
                         if Bool.eqb was is_now then None else Some (mkAvailability mid is_now))
          (order (watched e))),
     mkEmitter (has_event_bus e) (watched e) new_union).

(** ** The snapshots are faithful *)

Definition is_snapshot (fg : FederatedGateway) (g : Gateway) : Prop :=
  exists ds, map_model_resources_to_details (f_model_resources fg) = Ok ds /\ g = snapshot_of fg ds.

Lemma candidates_snapshots fgs gs : federated_gateways_to_routing_candidates fgs = Ok gs ->
  Forall2 is_snapshot (List.filter is_gateway_dispatchable fgs) gs.
Proof.
  revert gs. induction fgs as [|fg fgs IH]; intros gs; simpl; [by intros [= <-]|].
  destruct (is_gateway_dispatchable fg); simpl; [|apply IH].
  destruct (map_model_resources_to_details _) as [ds|] eqn:Ed; [|done]. simpl.
  destruct (federated_gateways_to_routing_candidates fgs) as [gs'|]; [|done]. simpl. intros [= <-].
  constructor; [by exists ds | by apply IH].
Qed.

(** The names of the candidates are the ids of the dispatchable gateways, in
    order. *)
Lemma candidate_names fgs gs : federated_gateways_to_routing_candidates fgs = Ok gs ->
  map name gs = map f_gateway_id (List.filter is_gateway_dispatchable fgs).
Proof.
  intros H%candidates_snapshots. induction H as [|fg g l k (ds & _ & ->)]; simpl; [done|]. by f_equal.
Qed.

(** What the older path loses of a snapshot. *)
Definition forget_times (g : Gateway) : Gateway := {|
  name := name g; ram_free_mb := ram_free_mb g; vram_free_mb := vram_free_mb g;
  ram_total_mb := ram_total_mb g; vram_total_mb := vram_total_mb g;
  loaded_models := loaded_models g; busy_models := busy_models g;
  loading_models := loading_models g; available_models := available_models g;
  remote_stargate_id := remote_stargate_id g; node_id := node_id g;
  model_details := model_details g; model_measured_vram := model_measured_vram g;
  model_loaded_at := ∅; health_score := health_score g; avg_latency_ms := avg_latency_ms g;
  active_requests := active_requests g; telemetry_timestamp := telemetry_timestamp g;
  last_heartbeat := 0; gateway_is_cloud := gateway_is_cloud g |}.

(** Gateways are found by name. *)
Lemma find_unique (gs : list Gateway) g n : NoDup (map name gs) -> g ∈ gs -> name g = n ->
  List.find (fun g => bool_decide (name g = n)) gs = Some g.
Proof.
  intros Hu Hin Hn. destruct (List.find _ gs) as [g'|] eqn:E.
  - apply find_some in E as [Hin' E]. apply bool_decide_eq_true in E. f_equal.
    apply (NoDup_map_inj name gs g' g); [done | by apply list_elem_of_In | done | congruence].
  - exfalso. apply list_elem_of_In in Hin. pose proof (find_none _ _ E g Hin) as H. simpl in H.
    by rewrite bool_decide_eq_true_2 in H.
Qed.

(** The two ways to the candidates agree, up to the times at which models were
    loaded and the gateway was last heard of, when every healthy gateway is
    dispatchable and has its own remote. *)
Theorem older_path_agrees now fgs gs :
  let live := get_healthy_gateways now fgs in
  federated_gateways_to_routing_candidates live = Ok gs ->
  Forall (fun fg => is_gateway_dispatchable fg = true /\ feq (f_telemetry_timestamp fg) 0 = false) live ->
  NoDup (map f_remote_stargate_id live) ->
  (let? stargates := collect_stargates now (Some fgs) in Ok (map stargate_to_gateway stargates)) = Ok (map forget_times gs).
Proof.
  intros live Hgs Hall Hnd. unfold collect_stargates. fold live. clearbody live.
  assert (H : exists sgs, exn_map (collect_federated_stargate now) live = Ok sgs /\
            map stargate_id sgs = map f_remote_stargate_id live /\ map stargate_to_gateway sgs = map forget_times gs).
  { clear Hnd. revert gs Hgs. induction Hall as [|fg live [Hd Ht] _ IH]; intros gs; simpl.
    - intros [= <-]. by exists [].
    - rewrite Hd. simpl. unfold collect_federated_stargate at 1.
      destruct (map_model_resources_to_details _) as [ds|]; [|done]. simpl.
      destruct (federated_gateways_to_routing_candidates live) as [gs'|]; [|done]. simpl. intros [= <-].
      destruct (IH _ eq_refl) as (sgs & E1 & E2 & E3). rewrite Ht.
      rewrite E1. simpl. eexists. split; [done|]. simpl. by rewrite E2, E3. }
  destruct H as (sgs & -> & E2 & E3). simpl. unfold validate_stargate_pool. rewrite E2.
  rewrite bool_decide_eq_true_2 by done. simpl. by rewrite E3.
Qed.

(** *** Examples *)

Definition sample_fed (id_ remote : string) (loaded available : list ModelId) (rs : list (ModelId * ModelResources))
  : FederatedGateway := {|
  f_gateway_id := id_; f_remote_stargate_id := remote; f_node_id := id_; f_is_cloud := false; f_dispatchable := true;
  f_ram_free_mb := 64000; f_vram_free_mb := 24000; f_ram_total_mb := 64000; f_vram_total_mb := 24000;
  f_loaded_models := loaded; f_busy_models := []; f_loading_models := []; f_available_models := available;
  f_activated_models := None; f_model_resources := rs; f_model_measured_vram := ∅;
  f_model_loaded_at := list_to_map (map (fun m => (mkey m, 900%Q)) loaded); f_active_requests := 0;
  f_telemetry_timestamp := 1000; f_last_heartbeat := 1000 |}.

Definition sample_res (v r : Z) : ModelResources := mkResources (Some v) (Some r) None None None.

Definition two_edges : list FederatedGateway :=
  [sample_fed "edge-1" "remote-1" [sample_id "m"] [sample_id "m"] [(sample_id "m", sample_res 8000 2000)];
   sample_fed "edge-2" "remote-2" [] [sample_id "m"] [(sample_id "m", sample_res 8000 2000)]].

Lemma older_path_agrees_witness :
  exists gs, federated_gateways_to_routing_candidates two_edges = Ok gs /\ length gs = 2%nat /\
  (let? stargates := collect_stargates 1001 (Some two_edges) in Ok (map stargate_to_gateway stargates))
    = Ok (map forget_times gs).
Proof.
  destruct (federated_gateways_to_routing_candidates two_edges) as [gs|e] eqn:E; [|vm_compute in E; discriminate].
  exists gs. split; [reflexivity|]. split.
  - assert (length gs = length (map name gs)) as -> by (symmetry; apply length_map).
    rewrite (candidate_names _ _ E). reflexivity.
  - assert (Hh : get_healthy_gateways 1001 two_edges = two_edges) by (vm_compute; reflexivity).
    apply (older_path_agrees 1001 two_edges gs); cbv zeta; rewrite Hh.
    + exact E.
    + repeat constructor.
    + apply (bool_decide_unpack _). vm_compute. exact I.
Defined.

(** Two gateways behind one remote are candidates for the router, but the older
    path refuses to collect them. *)
Example shared_remote_collides :
  let fgs := map (fun i => sample_fed i "remote-1" [] [] []) ["edge-1"; "edge-2"]%string in
  is_ok (federated_gateways_to_routing_candidates fgs) = true /\ collect_stargates 1001 (Some fgs) = Raise RuntimeError.
Proof. split; vm_compute; reflexivity. Qed.

(** ** Where the catalog looks *)

Lemma existsb_elem {A : Type} (p : A -> bool) (l : list A) : existsb p l = true <-> exists x, x ∈ l /\ p x = true.
Proof. rewrite existsb_exists. setoid_rewrite list_elem_of_In. done. Qed.

Lemma or_iff_compat (A B C D : Prop) : (A <-> B) -> (C <-> D) -> (A \/ C <-> B \/ D).
Proof. tauto. Qed.

(** A model is in some catalog exactly when its id can be parsed and a
    connected local gateway or a healthy federated one lists an equal id, as a
    model or among the resources. *)
Theorem catalog_exact now gm fm s :
  is_model_in_any_catalog now gm fm s = true <->
  exists m, parse s = Ok m /\
    ((exists g t m', local_gateway gm = Some g /\ t ∈ lg_models g ++ map fst (ws_model_resources g) /\
        parse t = Ok m' /\ mkey m' = mkey m) \/
     (exists fgs fg m', fm = Some fgs /\ fg ∈ fgs /\ is_unreachable now fg = false /\
        m' ∈ f_available_models fg ++ map fst (f_model_resources fg) /\ mkey m' = mkey m)).
Proof.
  unfold is_model_in_any_catalog. destruct (parse s) as [m|e]; [|by split; [|intros (? & ? & _)]].
  rewrite orb_true_iff, existsb_elem.
  transitivity ((exists g t m', local_gateway gm = Some g /\ t ∈ lg_models g ++ map fst (ws_model_resources g) /\
        parse t = Ok m' /\ mkey m' = mkey m) \/
     (exists fgs fg m', fm = Some fgs /\ fg ∈ fgs /\ is_unreachable now fg = false /\
        m' ∈ f_available_models fg ++ map fst (f_model_resources fg) /\ mkey m' = mkey m));
    [|split; [intros H; by exists m | by intros (m' & [= <-] & H)]].
  apply or_iff_compat.
  - destruct (local_gateway gm) as [g|]; [|naive_solver]. rewrite existsb_elem. split.
    + intros (t & Ht & Hp). destruct (parse t) as [m'|] eqn:Ep; [|done]. apply mid_eqb_spec in Hp.
      exists g, t, m'. done.
    + intros (g' & t & m' & [= <-] & Ht & Hp & E). exists t. split; [done|]. rewrite Hp. by apply mid_eqb_spec.
  - unfold healthy. destruct fm as [fgs|]; [|set_solver]. unfold get_healthy_gateways.
    setoid_rewrite elem_of_lfilter. setoid_rewrite existsb_elem. setoid_rewrite mid_eqb_spec.
    setoid_rewrite negb_true_iff. unfold federated_gateway_catalog_model_ids. split.
    + intros (fg & [? ?] & m' & ? & ?). exists fgs, fg, m'. done.
    + intros (? & fg & m' & [= <-] & ? & ? & ? & ?). exists fg. split; [done|]. by exists m'.
Qed.

(** *** Context metadata *)

(** The entries in the order "longer context, then more context per slot". *)
Definition better (a b : ContextEntry) : Prop :=
  context_length a < context_length b \/ (context_length a = context_length b /\ eff a <= eff b).

Lemma better_refl a : better a a.
Proof. right. lia. Qed.

Lemma better_trans a b c : better a b -> better b c -> better a c.
Proof. unfold better. lia. Qed.

(** [md] holds for each id the best entry of [l]. *)
Definition holds_best (l : list (string * ContextEntry)) (md : gmap string ContextEntry) : Prop :=
  forall s, match md !! s with
            | Some e => (s, e) ∈ l /\ forall e', (s, e') ∈ l -> better e' e
            | None => forall e', (s, e') ∉ l
            end.

Definition eff_ok (e : ContextEntry) : Prop := forall z, effective_context_per_slot e = Some z -> 0 <= z.

Lemma merge_entry_best l md s e : holds_best l md -> (forall x, x ∈ l -> eff_ok x.2) -> eff_ok e ->
  exists md', merge_entry md (s, e) = Ok md' /\ holds_best (l ++ [(s, e)]) md'.
Proof.
  intros H Hpos He. unfold merge_entry. pose proof (H s) as Hs.
  assert (Hother : forall s' (md' : gmap string ContextEntry), s' <> s -> md' !! s' = md !! s' ->
            match md' !! s' with
            | Some e' => (s', e') ∈ l ++ [(s, e)] /\ forall e'', (s', e'') ∈ l ++ [(s, e)] -> better e'' e'
            | None => forall e'', (s', e'') ∉ l ++ [(s, e)]
            end).
  { intros s' md' Hne ->. specialize (H s'). destruct (md !! s'); set_solver. }
  destruct (md !! s) as [x|] eqn:Ex.
  - destruct Hs as [Hin Hmax]. pose proof (Hpos _ Hin) as Hx. simpl in Hx.
    destruct (Z.ltb_spec (context_length x) (context_length e)) as [Hlt|Hge].
    + eexists. split; [done|]. intros s'. destruct (decide (s' = s)) as [->|Hne]; [|apply Hother; [done | by rewrite lookup_insert_ne]].
      rewrite lookup_insert_eq. split; [set_solver|]. intros e'. rewrite elem_of_app, list_elem_of_singleton.
      intros [Hl|[= ->]]; [|apply better_refl]. specialize (Hmax _ Hl). unfold better in *. lia.
    + destruct (Z.eqb_spec (context_length e) (context_length x)) as [Heq|Hne']; simpl;
        [destruct (Z.ltb_spec (eff x) (eff e)) as [Hl2|Hg2]|].
      * destruct (effective_context_per_slot e) as [z|] eqn:Ez.
        -- eexists. split; [done|]. intros s'. destruct (decide (s' = s)) as [->|Hne]; [|apply Hother; [done | by rewrite lookup_insert_ne]].
           rewrite lookup_insert_eq. replace (mkEntry (context_length x) (Some z)) with e by (destruct e; simpl in *; congruence).
           split; [set_solver|]. intros e'. rewrite elem_of_app, list_elem_of_singleton.
           intros [Hl|[= ->]]; [|apply better_refl]. specialize (Hmax _ Hl). unfold better in *. lia.
        -- exfalso. unfold eff in Hl2. rewrite Ez in Hl2. simpl in Hl2. unfold eff_ok in Hx.
           destruct (effective_context_per_slot x) as [z|]; simpl in *; [specialize (Hx z eq_refl)|]; lia.
      * eexists. split; [done|]. intros s'. destruct (decide (s' = s)) as [->|Hne]; [|by apply Hother].
        rewrite Ex. split; [set_solver|]. intros e'. rewrite elem_of_app, list_elem_of_singleton.
        intros [Hl|[= ->]]; [by apply Hmax|]. unfold better. lia.
      * eexists. split; [done|]. intros s'. destruct (decide (s' = s)) as [->|Hne]; [|by apply Hother].
        rewrite Ex. split; [set_solver|]. intros e'. rewrite elem_of_app, list_elem_of_singleton.
        intros [Hl|[= ->]]; [by apply Hmax|]. unfold better. lia.
  - eexists. split; [done|]. intros s'. destruct (decide (s' = s)) as [->|Hne]; [|apply Hother; [done | by rewrite lookup_insert_ne]].
    rewrite lookup_insert_eq. split; [set_solver|]. intros e'. rewrite elem_of_app, list_elem_of_singleton.
    intros [Hl|[= ->]]; [by destruct (Hs e') | apply better_refl].
Qed.

Lemma merge_all_best k : forall l md, holds_best l md -> (forall x, x ∈ l ++ k -> eff_ok x.2) ->
  exists md', merge_all md k = Ok md' /\ holds_best (l ++ k) md'.
Proof.
  induction k as [|[s e] k IH]; intros l md H Hpos; cbn [merge_all]; [exists md; by rewrite app_nil_r|].
  destruct (merge_entry_best l md s e H) as (md' & E & H'); [set_solver | apply (Hpos (s, e)); set_solver |].
  rewrite E. cbn [exn_bind]. destruct (IH _ _ H') as (md'' & E' & H''); [by rewrite <- app_assoc|].
  exists md''. by rewrite <- app_assoc in H''.
Qed.

Lemma setdefaults_best l : NoDup (map fst l) -> holds_best l (fold_left setdefault l ∅).
Proof.
  enough (H : forall l k md, holds_best k md -> NoDup (map fst (k ++ l)) -> holds_best (k ++ l) (fold_left setdefault l md)).
  { intros Hnd. apply (H l [] ∅); [|done]. intros s. rewrite lookup_empty. set_solver. }
  clear l. induction l as [|[s e] l IH]; intros k md H Hnd; simpl; [by rewrite app_nil_r|].
  rewrite (cons_middle (s, e) k l), app_assoc in *. apply IH; [|done].
  assert (Hs : md !! s = None).
  { specialize (H s). destruct (md !! s) as [x|]; [|done]. destruct H as [Hin _].
    rewrite !map_app, NoDup_app, NoDup_app in Hnd. destruct Hnd as ((_ & Hd & _) & _). exfalso.
    apply (Hd s); [apply list_elem_of_fmap; by exists (s, x) | set_solver]. }
  unfold setdefault. simpl. rewrite Hs. intros s'. destruct (decide (s' = s)) as [->|Hne].
  - rewrite lookup_insert_eq. specialize (H s). rewrite Hs in H. split; [set_solver|].
    intros e'. rewrite elem_of_app, list_elem_of_singleton. intros [Hl|[= ->]]; [by destruct (H e') | apply better_refl].
  - rewrite lookup_insert_ne by done. specialize (H s'). destruct (md !! s'); set_solver.
Qed.

(** Unless a context per slot is negative, the context metadata of a model is
    the best entry any gateway reports for it, the longest context first and
    then the most context per slot, whatever the order of the gateways. *)
Theorem context_metadata_best now gm fm :
  NoDup (map fst (local_entries gm)) ->
  (forall x, x ∈ local_entries gm ++ federated_entries now fm -> eff_ok x.2) ->
  exists md, get_model_context_metadata now gm fm = Ok md /\
    holds_best (local_entries gm ++ federated_entries now fm) md.
Proof. intros Hnd Hpos. unfold get_model_context_metadata. apply merge_all_best; [by apply setdefaults_best | done]. Qed.

Definition sample_entries : list FederatedGateway :=
  [sample_fed "edge-1" "r1" [] [] [(sample_id "m", mkResources None None None (Some 8192) (Some 4096))];
   sample_fed "edge-2" "r2" [] [] [(sample_id "m", mkResources None None None (Some 8192) (Some 8192))];
   sample_fed "edge-3" "r3" [] [] [(sample_id "m", mkResources None None None (Some 4096) None)]].

Lemma context_metadata_best_witness :
  exists md, get_model_context_metadata 1001 None (Some sample_entries) = Ok md /\
    holds_best (local_entries None ++ federated_entries 1001 (Some sample_entries)) md /\
    md !! "m"%string = Some (mkEntry 8192 (Some 8192)).
Proof.
  destruct (context_metadata_best 1001 None (Some sample_entries)) as (md & E & H).
  - constructor.
  - assert (federated_entries 1001 (Some sample_entries) =
      [("m"%string, mkEntry 8192 (Some 4096)); ("m"%string, mkEntry 8192 (Some 8192)); ("m"%string, mkEntry 4096 None)])
      as -> by (vm_compute; reflexivity).
    intros x Hx z Hz. repeat (apply elem_of_cons in Hx as [->|Hx]; [simpl in Hz; injection Hz as <- || discriminate Hz; lia|]).
    by apply not_elem_of_nil in Hx.
  - exists md. split; [exact E|]. split; [exact H|].
    assert (E' : get_model_context_metadata 1001 None (Some sample_entries) = Ok {["m"%string := mkEntry 8192 (Some 8192)]})
      by (vm_compute; reflexivity).
    rewrite E' in E. injection E as <-. apply lookup_insert_eq.
Defined.

(** ** Availability events *)

Inductive AvOp :=
  | Watch (model_ids : list string)
  | Reconcile (order : gset string -> list string) (fails : AvailabilityEvent -> bool) (new_union : gset string).

Definition av_step (op : AvOp) (e : Emitter) : list AvailabilityEvent * Emitter :=
  match op with
  | Watch ids => ([], (register_watch ids e).2)
  | Reconcile order fails u => reconcile order fails u e
  end.

Fixpoint av_run (ops : list AvOp) (e : Emitter) : list AvailabilityEvent * Emitter :=
  match ops with
  | [] => ([], e)
  | op :: ops' => let (evs, e1) := av_step op e in let (evs', e2) := av_run ops' e1 in (evs ++ evs', e2)
  end.

(** Sets are read without repetition, and every event is published. *)
Definition av_ok (op : AvOp) : Prop :=
  match op with
  | Watch _ => True
  | Reconcile order fails _ => (forall s, NoDup (order s) /\ forall x, x ∈ order s <-> x ∈ s) /\ forall ev, fails ev = false
  end.

(** What a listener who was told [b] believes of a model, event by event. *)
Definition hear (mid : string) (b : bool) (ev : AvailabilityEvent) : bool :=
  if bool_decide (av_model ev = mid) then av_available ev else b.

(** No event about the model says what was known. *)
Fixpoint news (mid : string) (b : bool) (evs : list AvailabilityEvent) : Prop :=
  match evs with
  | [] => True
  | ev :: evs' => (av_model ev = mid -> av_available ev <> b) /\ news mid (hear mid b ev) evs'
  end.

Lemma news_app mid b evs evs' :
  news mid b (evs ++ evs') <-> news mid b evs /\ news mid (fold_left (hear mid) evs b) evs'.
Proof. revert b. induction evs as [|ev evs IH]; intros b; simpl; [tauto|]. rewrite IH. tauto. Qed.

Lemma hear_others mid b evs : (forall ev, ev ∈ evs -> av_model ev <> mid) ->
  fold_left (hear mid) evs b = b /\ news mid b evs.
Proof.
  revert b. induction evs as [|ev evs IH]; intros b H; simpl; [done|].
  assert (hear mid b ev = b) as -> by (unfold hear; rewrite bool_decide_eq_false_2; [done | apply H; set_solver]).
  destruct (IH b) as [E N]; [set_solver|]. split; [done|]. split; [|done]. intros E'. exfalso. apply (H ev); [set_solver | done].
Qed.

Definition flip_of (old new : gset string) (mid : string) : option AvailabilityEvent :=
  if Bool.eqb (bool_decide (mid ∈ old)) (bool_decide (mid ∈ new)) then None
  else Some (mkAvailability mid (bool_decide (mid ∈ new))).

Lemma flips_heard old new mid l : NoDup l -> mid ∈ l ->
  let b := bool_decide (mid ∈ old) in
  fold_left (hear mid) (omap (flip_of old new) l) b = bool_decide (mid ∈ new) /\ news mid b (omap (flip_of old new) l).
Proof.
  cbv zeta. intros Hnd (l1 & l2 & ->)%list_elem_of_split. rewrite omap_app.
  assert (Hoth : forall l' : list string, mid ∉ l' -> forall ev, ev ∈ omap (M := list) (flip_of old new) l' -> av_model ev <> mid).
  { intros l' Hn ev (x & Hx & Hf)%list_elem_of_omap <-. unfold flip_of in Hf. case_match; [done|]. by simplify_eq/=. }
  apply NoDup_app in Hnd as (_ & H1 & H2). apply NoDup_cons in H2 as [H2 _].
  assert (H1' : mid ∉ l1) by (intros Hin; apply (H1 _ Hin); set_solver).
  destruct (hear_others mid (bool_decide (mid ∈ old)) _ (Hoth _ H1')) as [E1 N1].
  rewrite fold_left_app, news_app, E1.
  change (omap (flip_of old new) (mid :: l2))
    with (match flip_of old new mid with Some y => y :: omap (flip_of old new) l2 | None => omap (flip_of old new) l2 end).
  destruct (flip_of old new mid) as [ev|] eqn:Ef; unfold flip_of in Ef;
    destruct (Bool.eqb (bool_decide (mid ∈ old)) (bool_decide (mid ∈ new))) eqn:Eb; try done.
  - injection Ef as <-. apply Bool.eqb_false_iff in Eb. cbn [fold_left news].
    assert (hear mid (bool_decide (mid ∈ old)) (mkAvailability mid (bool_decide (mid ∈ new))) = bool_decide (mid ∈ new)) as ->
      by (unfold hear; cbn [av_model]; by rewrite (bool_decide_eq_true_2 (mid = mid) eq_refl)).
    destruct (hear_others mid (bool_decide (mid ∈ new)) _ (Hoth _ H2)) as [-> N2]. split; [done|].
    split; [done|]. split; [|done]. intros _ E. simpl in E. by rewrite E in Eb.
  - apply Bool.eqb_prop in Eb. rewrite <- Eb.
    by destruct (hear_others mid (bool_decide (mid ∈ old)) _ (Hoth _ H2)) as [-> N2].
Qed.

Lemma reconcile_heard order fails u e mid : av_ok (Reconcile order fails u) -> mid ∈ watched e ->
  let (evs, e') := reconcile order fails u e in
  watched e' = watched e /\ fold_left (hear mid) evs (bool_decide (mid ∈ last_union e)) = bool_decide (mid ∈ last_union e') /\
  news mid (bool_decide (mid ∈ last_union e)) evs.
Proof.
  intros [Hord Hf] Hin. unfold reconcile. destruct (has_event_bus e); simpl; [|done]. split; [done|].
  rewrite (lfilter_ext_in _ (fun _ => true)) by (intros; by rewrite Hf). rewrite lfilter_true.
  destruct (Hord (watched e)) as [Hnd Hiff]. apply (flips_heard (last_union e) u mid (order (watched e)) Hnd). by apply Hiff.
Qed.

(** A listener who registered a model, was told whether it is available, and
    then heard every event knows at any time whether the model is in the last
    union; no event repeats what was known. *)
Theorem availability_tracked ops e mid : Forall av_ok ops -> mid ∈ watched e ->
  let (evs, e') := av_run ops e in
  fold_left (hear mid) evs (bool_decide (mid ∈ last_union e)) = bool_decide (mid ∈ last_union e') /\
  news mid (bool_decide (mid ∈ last_union e)) evs.
Proof.
  revert e. induction ops as [|op ops IH]; intros e Hok Hin; [done|]. simpl.
  inversion Hok as [|? ? Ho Hos]; subst. clear Hok. destruct op as [ids|order fails u].
  - unfold av_step. cbn [fst snd register_watch]. specialize (IH (register_watch ids e).2 Hos).
    simpl in IH. destruct (av_run ops _) as [evs e']. simpl. apply IH. set_solver.
  - unfold av_step. pose proof (reconcile_heard order fails u e mid Ho Hin) as H.
    destruct (reconcile order fails u e) as [evs e1]. destruct H as (Hw & E & N).
    specialize (IH e1 Hos). destruct (av_run ops e1) as [evs' e2]. rewrite fold_left_app, news_app, E.
    destruct IH as [-> N']; [by rewrite Hw|]. done.
Qed.

(** *** Examples *)

Definition reading : gset string -> list string := elements.
Definition all_published : AvailabilityEvent -> bool := fun _ => false.

Lemma reading_ok u : av_ok (Reconcile reading all_published u).
Proof. split; [|done]. intros s. split; [apply NoDup_elements | intros x; apply elem_of_elements]. Qed.

Definition watch_session : list AvOp :=
  [Reconcile reading all_published {["m-4096"]}; Reconcile reading all_published ∅;
   Watch ["n-2048"]; Reconcile reading all_published {["m-4096"; "n-2048"]}]%string.

Definition watching : Emitter := (register_watch ["m-4096"]%string (new_emitter true)).2.

Lemma availability_tracked_witness :
  Forall av_ok watch_session /\ length (av_run watch_session watching).1 = 4%nat /\
  fold_left (hear "m-4096") (av_run watch_session watching).1 false
    = bool_decide ("m-4096"%string ∈ last_union (av_run watch_session watching).2).
Proof.
  assert (Hok : Forall av_ok watch_session).
  { constructor; [apply reading_ok|]. constructor; [apply reading_ok|]. constructor; [done|].
    constructor; [apply reading_ok | constructor]. }
  assert (Hin : "m-4096"%string ∈ watched watching) by (vm_compute; done).
  split; [exact Hok|]. split; [vm_compute; reflexivity|].
  pose proof (availability_tracked watch_session watching "m-4096" Hok Hin) as H.
  destruct (av_run watch_session watching) as [evs e']. exact (proj1 H).
Defined.

(** An event the bus refuses is not sent again: the listener stays wrong. *)
Example refused_event_lost :
  let e := (register_watch ["m"]%string (new_emitter true)).2 in
  let (evs, e') := av_run [Reconcile reading (fun _ => true) {["m"%string]}; Reconcile reading all_published {["m"%string]}] e in
  evs = [] /\ "m"%string ∈ last_union e'.
Proof. vm_compute. split; [reflexivity | done]. Qed.
