(* ===== verification/RouteOrchestrator.v ===== *)
(** * Routing of one request to a federated gateway
    ([systems/proxy/core/nonstreaming/federated_routing/handler/orchestrator/],
    [wait_logic.py], [wait_continuation.py], [constraint_retryable.py],
    [routing_wait.py])

    [_route_to_federated_gateway] puts the parts of the routing subsystem
    together: snapshots of the gateways, the decision engine, the overflow to a
    second gateway, the waits for capacity, the admission by the capacity pool,
    the eviction of other models, the load of the model, and the retries after
    a failed eviction or load.

    The coroutine is cut at its suspensions: a [Phase] holds the locals that
    are alive at one, [resume] is the stretch from there to the next one.
    Everything shared with other requests is the [World]; between two stretches
    it may change in any way.  What the request asks of others is the list of
    its [Effect]s; how the pool, the eviction and the load answer is the
    subject of [CapacityPool.v], [EvictionExecution.v] and [FederatedLoad.v].
    Publishing on the event bus does not suspend; events, logs and the data of
    error messages are left out.  A list of federated gateways kept across a
    wait is a snapshot: the manager replaces a gateway, it does not change it. *)
From stdpp Require Import base gmap sets list strings.
From Stdlib Require Import Ascii ZArith QArith Lia.
From S2P Require Import Prelude PyFloat PyString ModelId FederatedGateways RoutingTypes Eviction Scoring Engine CapacityPool EvictionExecution RoutingCollectors.
Local Open Scope Z_scope.

(** ** Data *)

(** What is fixed for a request: the routing part of its context. *)
Record Request := mkRequest {
  rid : string;
  selected_model : ModelId;
  model_sticky : bool;
  excluded_gateway_ids : list string;
  routing_endpoint_category : string;
  queue_wait_timeout_s : option Q;
  capacity_deadline_mono : option Q
}.

(** The configuration and the optional collaborators. *)
Record Config := mkConfig {
  cfg_policy : RoutingPolicy;
  cfg_event_bus : bool;
  cfg_forwarder : bool;
  cfg_load_orchestrator : bool;
  startup_queue_timeout_s : Q;
  model_gateway_grace_timeout_s : Q;
  loading_phase_cap : Z;
  eviction_wait_timeout_s : Q;
  eviction_requeue_max_depth : Z;
  eviction_victim_pause_s : Q;
  starvation_drain_threshold_s : Q;
  drain_duration_s : Q
}.

Definition default_config (policy : RoutingPolicy) : Config :=
  mkConfig policy true true true 180 90 1 300 3 30 15 30.

(** What a stretch finds, and may change: the clocks, the gateways, the bans of
    the requested model, the pool, the sticky bindings, the engine with what it
    reads, the cooldown overrides and the routing keys in flight. *)
Record World := mkWorld {
  w_now : Q;
  w_wall : Q;
  w_uptime_s : Q;
  w_gateways : list FederatedGateway;
  w_banned : string -> bool;
  w_pool : option CapacityPool;
  w_tracker : bindings_t;
  w_engine : DecisionEngine;
  w_env : Env;
  w_overrides : overrides_t;
  w_in_flight : string -> list string
}.

Inductive RouteError :=
  | NoGateways
  | ModelUnavailable
  | AllGatewaysExcluded
  | InferenceBanned (gateways : list string)
  | GatewayCapacity (gateway : string)
  | CapacityError (reason : string)
  | InsufficientResources
  | NoFeasibleGateway (retryable : bool)
  | EvictionBlocked (reason : string)
  | LoadRefused
  | Cancelled
  | Raised (e : error).

Inductive Effect :=
  | Demand (waiting : bool)
  | Paused (routing_key reason : string)
  | MarkedLoading (own : bool) (gateway : string) (m : ModelId)      (* for the request, or a victim *)
  | ClearedLoading (own : bool) (gateway : string) (m : ModelId)
  | GotToken (t : CapacityToken)
  | ReleasedToken (t : CapacityToken)
  | AskedEviction (gateway : string) (models : list ModelId)
  | AskedLoad (gateway : string)
  | RequestRouted (gateway : string).

(** *** Locals at the suspensions *)

(** The locals of the entry point after [run_initial_selection]. *)
Record Selection := mkSelection {
  s_gateway : option Gateway;
  s_trace : DecisionTrace;
  s_gateways_for_routing : list Gateway;
  s_federated_gateways : list FederatedGateway;
  s_placement : Placement;
  s_override : option (list string)
}.

(** The locals of [acquire_admission_token]; [a_placement] is needed by what
    follows. *)
Record Admission := mkAdmission {
  a_gateway : Gateway;
  a_trace : DecisionTrace;
  a_gateways_for_routing : list Gateway;
  a_allowed : list string;
  a_timeout_s : option Q;
  a_placement : Placement
}.

(** The locals of [finalize_selection_and_load]. *)
Record Finalizing := mkFinalizing {
  f_gateway : Gateway;
  f_trace : DecisionTrace;
  f_placement : Placement
}.

Inductive ContinuationMode := busy_block | execution_failure | transient_capacity | cooldown_blocked.

(** Who called [_wait_and_retry_selection]: the rejection of a selection, or
    the requeue after a transient failure. *)
Inductive WaitCaller :=
  | FromRejection (sel : Selection)
  | FromRequeue (timeout_reason : string).

Record RetryWaiting := mkRetry {
  rw_caller : WaitCaller;
  rw_placement : Placement;
  rw_start : Q;
  rw_timeout_s : Q;
  rw_mode : ContinuationMode;
  rw_hold_key : option (string * string);
  rw_per_wake_cap_s : option Q;
  rw_defer : bool;            (* [defer_first_select], still to be honoured *)
  rw_last_drain : option Q;
  rw_trace : option DecisionTrace
}.

Inductive Phase :=
  | WaitStartup (all_gateways : list FederatedGateway) (start timeout_s : Q)
  | WaitGrace (all_gateways healthy_gateways : list FederatedGateway) (start timeout_s : Q)
  | WaitCatalog (all_gateways healthy_gateways : list FederatedGateway) (start timeout_s : Q)
  | OverflowLoad (sel : Selection) (overflow : Gateway) (overflow_trace : DecisionTrace)
  | PreRoute (sel : Selection) (start timeout_s : Q)
  | Acquiring (a : Admission) (entry : bool)     (* of the entry point, or of a requeue *)
  | RetryWait (r : RetryWaiting)
  | Evicting (f : Finalizing) (marked : list ModelId)
  | Loading (f : Finalizing)
  | Returned (gateway : string)
  | Failed (e : RouteError).

(** *** State and exceptions of a stretch *)

(** [own_mark] is the optimistic mark of the [finalize_selection_and_load] that
    runs (of nested ones the inner: the outer one has dropped its own). *)
Record St := mkSt {
  world : World;
  token : option CapacityToken;
  own_mark : option (string * ModelId);
  requeue_depth : Z;
  effects : list Effect
}.

Definition M (A : Type) : Type := St -> (A + RouteError) * St.

Definition ret {A : Type} (a : A) : M A := fun s => (inl a, s).
Definition raise {A : Type} (e : RouteError) : M A := fun s => (inr e, s).
Definition bind {A B : Type} (m : M A) (k : A -> M B) : M B :=
  fun s => match m s with (inl a, s') => k a s' | (inr e, s') => (inr e, s') end.
Notation "'let!' x := m 'in' k" := (bind m (fun x => k)) (at level 10, x pattern, m at level 100, k at level 200).

Definition lift {A : Type} (x : exn A) : M A := match x with Ok a => ret a | Raise e => raise (Raised e) end.
Definition reads {A : Type} (f : St -> A) : M A := fun s => (inl (f s), s).
Definition writes (f : St -> St) : M unit := fun s => (inl (), f s).

Definition get : M World := reads world.
Definition tell (e : Effect) : M unit :=
  writes (fun s => mkSt (world s) (token s) (own_mark s) (requeue_depth s) (effects s ++ [e])).
Definition set_world (f : World -> World) : M unit :=
  writes (fun s => mkSt (f (world s)) (token s) (own_mark s) (requeue_depth s) (effects s)).
Definition set_token (t : option CapacityToken) : M unit :=
  writes (fun s => mkSt (world s) t (own_mark s) (requeue_depth s) (effects s)).
Definition set_mark (k : option (string * ModelId)) : M unit :=
  writes (fun s => mkSt (world s) (token s) k (requeue_depth s) (effects s)).
Definition set_depth (d : Z) : M unit :=
  writes (fun s => mkSt (world s) (token s) (own_mark s) d (effects s)).

Definition with_gateways (f : list FederatedGateway -> list FederatedGateway) (w : World) : World :=
  mkWorld (w_now w) (w_wall w) (w_uptime_s w) (f (w_gateways w)) (w_banned w) (w_pool w) (w_tracker w) (w_engine w) (w_env w)
    (w_overrides w) (w_in_flight w).
Definition with_pool (f : CapacityPool -> CapacityPool) (w : World) : World :=
  mkWorld (w_now w) (w_wall w) (w_uptime_s w) (w_gateways w) (w_banned w) (f <$> w_pool w) (w_tracker w) (w_engine w) (w_env w)
    (w_overrides w) (w_in_flight w).
Definition with_tracker (t : bindings_t) (w : World) : World :=
  mkWorld (w_now w) (w_wall w) (w_uptime_s w) (w_gateways w) (w_banned w) (w_pool w) t (w_engine w) (w_env w)
    (w_overrides w) (w_in_flight w).
Definition with_overrides (o : overrides_t) (w : World) : World :=
  mkWorld (w_now w) (w_wall w) (w_uptime_s w) (w_gateways w) (w_banned w) (w_pool w) (w_tracker w) (w_engine w) (w_env w)
    o (w_in_flight w).

(** ** The manager and the pool, as used here *)

Definition healthy_of (w : World) : list FederatedGateway := get_healthy_gateways (w_wall w) (w_gateways w).

Definition has_model (m : ModelId) (l : list FederatedGateway) : bool :=
  existsb (fun fg => mmem m (f_available_models fg)) l.

Definition set_loading (f : list ModelId -> list ModelId) (fg : FederatedGateway) : FederatedGateway :=
  mkFederated (f_gateway_id fg) (f_remote_stargate_id fg) (f_node_id fg) (f_is_cloud fg) (f_dispatchable fg)
    (f_ram_free_mb fg) (f_vram_free_mb fg) (f_ram_total_mb fg) (f_vram_total_mb fg) (f_loaded_models fg) (f_busy_models fg)
    (f (f_loading_models fg)) (f_available_models fg) (f_activated_models fg) (f_model_resources fg)
    (f_model_measured_vram fg) (f_model_loaded_at fg) (f_active_requests fg) (f_telemetry_timestamp fg) (f_last_heartbeat fg).

Definition on_gateway (i : string) (f : FederatedGateway -> FederatedGateway) : list FederatedGateway -> list FederatedGateway :=
  map (fun fg => if bool_decide (f_gateway_id fg = i) then f fg else fg).

(** [mark_loading_optimistic] *)
Definition mark_loading (own : bool) (i : string) (m : ModelId) : M bool :=
  let! w := get in
  match List.find (fun fg => bool_decide (f_gateway_id fg = i)) (w_gateways w) with
  | None => ret false
  | Some fg =>
      if mmem m (f_loaded_models fg) then ret false
      else
        let! _ := set_world (with_gateways (on_gateway i (set_loading (fun l => if mmem m l then l else l ++ [m])))) in
        let! _ := tell (MarkedLoading own i m) in ret true
  end.

(** [clear_model_loading_optimistic] and [clear_model_loading] *)
Definition clear_loading (own : bool) (i : string) (m : ModelId) : M unit :=
  let! _ := set_world (with_gateways (on_gateway i (set_loading (List.filter (fun x => negb (mid_eqb x m)))))) in
  tell (ClearedLoading own i m).

Definition pause (key : string) (duration_s : Q) (reason : string) : M unit :=
  let! w := get in
  let! _ := set_world (with_pool (fun p => snd (CapacityPool.pause_admission (w_now w) key duration_s reason p))) in
  tell (Paused key reason).

(** [await context.capacity_token.release(); context.capacity_token = None];
    the pool is told by the effect. *)
Definition release_token : M unit :=
  let! t := reads token in
  match t with
  | None => ret ()
  | Some t => let! _ := set_token None in tell (ReleasedToken t)
  end.

(** ** Classification of failures *)

Definition bool_of (d : dval) : bool :=
  match d with
  | DInt z => negb (z =? 0) | DStr s => negb (bool_decide (s = ""%string)) | DBool b => b
  | DFloat q => negb (feq q 0) | DStrs l => match l with [] => false | _ => true end
  end.

Definition detail_is (f : ConstraintFailure) (k v : string) : bool :=
  match details f !! k with Some (DStr s) => bool_decide (s = v) | _ => false end.

Definition constraint_failure_is_retryable (f : ConstraintFailure) : bool :=
  match details f !! "retryable"%string with
  | Some d => bool_of d
  | None =>
      if detail_is f "verdict_class" "insufficient_structural" then false
      else if detail_is f "verdict_class" "insufficient_transient" || detail_is f "verdict_class" "insufficient_margin" then true
      else bool_decide (constraint f = "eviction_blocked_by_busy_models"%string)
  end.

Definition extract_retryable_constraint (t : DecisionTrace) : option string :=
  constraint <$> List.find constraint_failure_is_retryable (concat (map constraints_failed (candidates t))).

Definition TRANSIENT_CAPACITY_CONSTRAINTS : list string :=
  ["compute_type_capacity"; "circuit_breaker"; "eviction_blocked_by_busy_models"]%string.
Definition RESOURCE_CONSTRAINTS : list string := ["has_enough_vram"; "has_enough_ram"]%string.

Definition failed_any (names : list string) (c : GatewayCandidate) : bool :=
  existsb (fun f => bool_decide (constraint f ∈ names)) (constraints_failed c).

Definition is_permanent_resource_or_structural (c : GatewayCandidate) : bool :=
  existsb (fun f => detail_is f "verdict_class" "insufficient_structural"
                    || (bool_decide (constraint f = "can_fit_with_eviction"%string)
                        && negb (constraint_failure_is_retryable f))) (constraints_failed c)
  || (failed_any RESOURCE_CONSTRAINTS c && failed_any ["can_fit_with_eviction"%string] c).

Definition candidate_has_transient_continuation_signal (c : GatewayCandidate) : bool :=
  existsb (fun f => bool_decide (constraint f ∈ TRANSIENT_CAPACITY_CONSTRAINTS) || constraint_failure_is_retryable f)
    (constraints_failed c).

Definition any_transient (t : DecisionTrace) : bool :=
  existsb (fun c => candidate_has_transient_continuation_signal c && negb (is_permanent_resource_or_structural c)) (candidates t).

(** [continuation_still_transient]; [hold] is what is left of the hold. *)
Definition continuation_still_transient (t : DecisionTrace) (mode : ContinuationMode) (hold : Q) : bool :=
  match mode with
  | cooldown_blocked => flt 0 hold || any_transient t
  | busy_block => existsb (failed_any ["eviction_blocked_by_busy_models"%string]) (candidates t)
  | execution_failure | transient_capacity => any_transient t
  end.

(** ** The stretches *)

Section Run.
Context (cfg : Config) (req : Request).

#[local] Abbreviation model := (selected_model req).
#[local] Abbreviation key := (routing_key (selected_model req)).

(** [engine.select], with the bindings it updates. *)
Definition select_among (gs : list Gateway) (p : Placement) : M (option Gateway * DecisionTrace) :=
  let! w := get in
  let! r := lift (select (w_engine w) (w_env w) gs p (Some (rid req)) (Some (model_sticky req)) (Some (w_tracker w))) in
  let '(g, t, tr) := r in
  let! _ := set_world (with_tracker (get_or (w_tracker w) tr)) in
  ret (g, t).

Definition not_excluded (gs : list Gateway) : list Gateway :=
  List.filter (fun g => negb (bool_decide (name g ∈ excluded_gateway_ids req))) gs.

(** The candidates of the retries: all gateways of the manager, dispatchable
    and not excluded. *)
Definition fresh_candidates : M (list Gateway) :=
  let! w := get in
  let! gs := lift (federated_gateways_to_routing_candidates (w_gateways w)) in
  ret (not_excluded gs).

(** *** The end *)

(** After a successful load. *)
Definition finish (f : Finalizing) : M Phase :=
  if cfg_event_bus cfg then
    match selection_tier (f_trace f) with
    | None => raise (Raised AttributeError)       (* [trace.selection_tier.name] *)
    | Some _ => let! _ := tell (RequestRouted (name (f_gateway f))) in ret (Returned (name (f_gateway f)))
    end
  else ret (Returned (name (f_gateway f))).

(** Up to [ensure_model_loaded_on_remote]. *)
Definition start_load (f : Finalizing) : M Phase :=
  if cfg_load_orchestrator cfg then let! _ := tell (AskedLoad (name (f_gateway f))) in ret (Loading f)
  else finish f.

(** Dropping the optimistic mark. *)
Definition drop_mark : M unit :=
  let! k := reads own_mark in
  match k with
  | None => ret ()
  | Some (i, m) => let! _ := set_mark None in clear_loading true i m
  end.

(** [except BaseException] of [finalize_selection_and_load]. *)
Definition guarded (m : M Phase) : M Phase :=
  fun s => match m s with
           | (inl p, s') => (inl p, s')
           | (inr e, s') => (inr e, snd ((let! _ := drop_mark in release_token) s'))
           end.

(** *** Waiting and selecting again *)

Definition clamp_eviction_wait_timeout (now : Q) (config_timeout : Q) : Q :=
  match capacity_deadline_mono req with
  | Some deadline => fmin config_timeout (fmax 0 (fsub deadline now))
  | None => config_timeout
  end.

(** [_wait_and_retry_selection] up to its loop.  The awaits before the loop
    count as a suspension. *)
Definition enter_retry (caller : WaitCaller) (p : Placement) (mode : ContinuationMode)
    (hold_key : option (string * string)) (per_wake_cap_s : option Q) (defer : bool) : M Phase :=
  let! w := get in
  ret (RetryWait (mkRetry caller p (w_now w) (clamp_eviction_wait_timeout (w_now w) (eviction_wait_timeout_s cfg))
                    mode hold_key per_wake_cap_s defer None None)).

(** [requeue_after_transient_eviction] up to its wait. *)
Definition requeue (p : Placement) (mode : ContinuationMode) (timeout_reason : string)
    (hold_key : option (string * string)) (per_wake_cap_s : option Q) : M Phase :=
  let! _ := release_token in
  let! depth := reads requeue_depth in
  let charge := match mode with cooldown_blocked => false | _ => true end in
  if charge && (eviction_requeue_max_depth cfg <=? depth) then raise (CapacityError timeout_reason)
  else
    let! _ := (if charge then set_depth (depth + 1) else ret ()) in
    enter_retry (FromRequeue timeout_reason) p mode hold_key per_wake_cap_s
      (match hold_key with None => true | Some _ => false end).

(** *** [execute_master_eviction] *)

Inductive EvictionStart :=
  | NoEvictionNeeded
  | Blocked (reason : string) (retry_after_s : option Q) (victim : option string)
  | Awaiting (marked : list ModelId).

Fixpoint mark_all (i : string) (ms : list ModelId) : M (list ModelId) :=
  match ms with
  | [] => ret []
  | m :: ms' => let! b := mark_loading false i m in let! rest := mark_all i ms' in ret (if b then m :: rest else rest)
  end.

Definition start_eviction (f : Finalizing) : M EvictionStart :=
  let i := name (f_gateway f) in
  match get_eviction_plan_for_gateway (f_trace f) i with
  | None => ret NoEvictionNeeded
  | Some plan =>
      match models_to_evict plan with
      | [] => ret NoEvictionNeeded
      | victims =>
          if negb (cfg_forwarder cfg) then ret (Blocked "missing_federation_forwarder" None None)
          else
            let go := (let! marked := mark_all i victims in
                       let! _ := tell (AskedEviction i victims) in ret (Awaiting marked)) in
            if plan_cooldown_override_pending plan then
              let victim_id := get_or ""%string (plan_cooldown_override_victim_id plan) in
              let remaining_s := get_or (0 : Q) (plan_cooldown_override_remaining_s plan) in
              let! w := get in
              let (blocks, o) := oscillation_blocks_override (i, victim_id) COOLDOWN_OVERRIDE_OSCILLATION_WINDOW_S
                                   (w_now w) (w_overrides w) in
              let! _ := set_world (with_overrides o) in
              if blocks then ret (Blocked "cooldown_oscillation_breaker" (Some (fmax 1 remaining_s)) (Some victim_id))
              else let! _ := set_world (with_overrides (record_cooldown_override (i, victim_id) (w_now w) o)) in go
            else go
      end
  end.

(** *** [finalize_selection_and_load] *)

Fixpoint pause_all (ms : list ModelId) : M unit :=
  match ms with
  | [] => ret ()
  | m :: ms' => let! _ := pause (routing_key m) (eviction_victim_pause_s cfg) "eviction_execute_victim_pin" in pause_all ms'
  end.

Definition evict_then_load (f : Finalizing) : M Phase :=
  match selection_tier (f_trace f) with
  | Some T2_FEASIBLE_EVICT =>
      let! w := get in
      let victims := match get_eviction_plan_for_gateway (f_trace f) (name (f_gateway f)) with
                     | Some plan => models_to_evict plan | None => [] end in
      let! _ := (match w_pool w with Some _ => pause_all victims | None => ret () end) in
      let! r := start_eviction f in
      match r with
      | NoEvictionNeeded => start_load f
      | Awaiting marked => ret (Evicting f marked)
      | Blocked reason retry_after victim =>
          if bool_decide (reason = "cooldown_oscillation_breaker"%string) then
            let! _ := drop_mark in
            let hold_key := match victim with
                            | Some v => if bool_decide (v = ""%string) then None else Some (name (f_gateway f), v)
                            | None => None
                            end in
            requeue (f_placement f) cooldown_blocked "eviction_blocked_queue_timeout" hold_key retry_after
          else raise (EvictionBlocked reason)
      end
  | _ => start_load f
  end.

Definition finalize (f : Finalizing) : M Phase :=
  let! marked := (if mmem model (loaded_models (f_gateway f)) then ret false else mark_loading true (name (f_gateway f)) model) in
  let! _ := set_mark (if marked then Some (name (f_gateway f), model) else None) in
  guarded (evict_then_load f).

(** The stretches after the eviction and after the load. *)
Fixpoint clear_all_marks (i : string) (ms : list ModelId) : M unit :=
  match ms with [] => ret () | m :: ms' => let! _ := clear_loading false i m in clear_all_marks i ms' end.

Definition evicted (f : Finalizing) (marked : list ModelId) (ok : bool) : M Phase :=
  if ok then start_load f
  else
    let! _ := clear_all_marks (name (f_gateway f)) marked in
    let! _ := drop_mark in
    requeue (f_placement f) execution_failure "eviction_execute_failure_queue_timeout" None None.

Definition load_refused (f : Finalizing) (retryable : bool) : M Phase :=
  if retryable then
    let! _ := drop_mark in
    requeue (f_placement f) execution_failure "eviction_queue_timeout_post_load_fail" None None
  else raise LoadRefused.

(** *** [acquire_admission_token] *)

Definition catalog_capacity (g : Gateway) : Z :=
  match model_details g !! mkey model with
  | Some d => get_or 1 (max_concurrent_requests d)
  | None => 1
  end.

Definition non_sticky_cold_allow_set (g : Gateway) (gs : list Gateway) (trace : DecisionTrace) : list string :=
  remove_dups (name g :: map name (List.filter (fun g' => mmem model (loaded_models g')) gs)
    ++ map (fun c => name (gateway c)) (List.filter (fun c => bool_decide (tier c = T1_FEASIBLE_NOW)) (candidates trace))).

Definition allow_set (g : Gateway) (gs : list Gateway) (trace : DecisionTrace) (override : option (list string)) : list string :=
  match override with
  | Some l => l
  | None =>
      if model_sticky req then [name g]
      else if negb (mmem model (loaded_models g)) then non_sticky_cold_allow_set g gs trace
      else remove_dups (map name (List.filter (fun g' => mmem model (loaded_models g')) gs))
  end.

(** The sticky guard: a warm gateway instead of a cold load. *)
Definition already_warm (g : Gateway) (gs : list Gateway) : option Gateway :=
  List.find (fun g' => negb (bool_decide (name g' = name g))
                       && (mmem model (loaded_models g') || mmem model (loading_models g'))) gs.

Definition acquire_timeout (now : Q) : option Q :=
  if bool_decide (routing_endpoint_category req = "embedding"%string)
  then (fun d => fmax 0 (fsub d now)) <$> capacity_deadline_mono req
  else None.

(** Up to [acquire_token]; without a pool the request goes on.  A retry is
    always in the scope of an outer [finalize_selection_and_load]. *)
Definition acquire_admission (entry : bool) (p : Placement) (g : Gateway) (trace : DecisionTrace) (gs : list Gateway)
    (override : option (list string)) : M Phase :=
  let cold := negb (mmem model (loaded_models g)) in
  let! _ := (if cold then
               set_world (with_pool (CapacityPool.set_capacity (name g, key)
                                       (Z.min (catalog_capacity g) (loading_phase_cap cfg))))
             else ret ()) in
  let! g := (match (if model_sticky req && cold then already_warm g gs else None) with
             | Some warm =>
                 let! w := get in
                 let! _ := set_world (with_tracker (update_binding model (name warm) (w_tracker w))) in ret warm
             | None => ret g
             end) in
  let! w := get in
  match w_pool w with
  | None => finalize (mkFinalizing g trace p)
  | Some _ => ret (Acquiring (mkAdmission g trace gs (allow_set g gs trace override) (acquire_timeout (w_now w)) p) entry)
  end.

(** After the token. *)
Definition admitted (a : Admission) (t : CapacityToken) : M Phase :=
  let! _ := set_token (Some t) in
  let! _ := tell (GotToken t) in
  let g := if bool_decide (t_gateway_id t = name (a_gateway a)) then a_gateway a
           else get_or (a_gateway a)
                  (List.find (fun g => bool_decide (name g = t_gateway_id t)) (a_gateways_for_routing a)) in
  finalize (mkFinalizing g (a_trace a) (a_placement a)).

Definition not_admitted (a : Admission) (e : error) : M Phase :=
  match e with
  | CancelledError _ => raise Cancelled
  | QueueFullError _ _ _ | CapacityAcquireTimeoutError _ => raise (GatewayCapacity (name (a_gateway a)))
  | _ =>
      let! w := get in
      let! _ := set_world (with_tracker (clear_binding model (w_tracker w))) in
      raise (GatewayCapacity (name (a_gateway a)))
  end.

(** *** [handle_selection_rejection] *)

Definition is_transient_capacity_failure (c : GatewayCandidate) : bool :=
  if failed_any TRANSIENT_CAPACITY_CONSTRAINTS c then true
  else if failed_any RESOURCE_CONSTRAINTS c then negb (failed_any ["can_fit_with_eviction"%string] c)
  else false.

Definition is_permanent_resource_failure (c : GatewayCandidate) : bool :=
  match List.find (fun f => bool_decide (constraint f = "can_fit_with_eviction"%string)) (constraints_failed c) with
  | Some f => negb (constraint_failure_is_retryable f)
  | None => failed_any RESOURCE_CONSTRAINTS c && failed_any ["can_fit_with_eviction"%string] c
  end.

(** The error of a selection that failed for good. *)
Definition rejection (sel : Selection) (trace : option DecisionTrace) : RouteError :=
  let cs := match trace with Some t => candidates t | None => [] end in
  let final :=
    if has_model model (s_federated_gateways sel)
    then NoFeasibleGateway (existsb (fun g => mmem model (available_models g)) (s_gateways_for_routing sel))
    else ModelUnavailable in
  if model_sticky req then
    if existsb is_permanent_resource_failure cs then InsufficientResources
    else if existsb is_transient_capacity_failure cs then CapacityError "capacity_exhausted"
    else final
  else final.

Definition reject (sel : Selection) (trace : DecisionTrace) : M Phase :=
  if existsb (failed_any TRANSIENT_CAPACITY_CONSTRAINTS) (candidates trace)
  then enter_retry (FromRejection sel) (s_placement sel) transient_capacity None None false
  else raise (rejection sel (Some trace)).

(** What the entry point does with a selection, after the waits. *)
Definition proceed (sel : Selection) (g : option Gateway) (trace : DecisionTrace) : M Phase :=
  match g with
  | Some g => acquire_admission true (s_placement sel) g trace (s_gateways_for_routing sel) (s_override sel)
  | None => reject sel trace
  end.

(** *** [_wait_and_retry_selection] *)

Definition busy_blocked (t : DecisionTrace) : list string :=
  map (fun c => name (gateway c))
    (List.filter (failed_any ["eviction_blocked_by_busy_models"%string]) (candidates t)).

(** [_trigger_starvation_drain] *)
Definition drain_keys (w : World) (t : DecisionTrace) : list string :=
  List.filter (fun k => negb (bool_decide (k = key))) (concat (map (w_in_flight w) (busy_blocked t))).

Fixpoint drain (ks : list string) : M unit :=
  match ks with [] => ret () | k :: ks' => let! _ := pause k (drain_duration_s cfg) "starvation_relief" in drain ks' end.

Definition retry_failed (r : RetryWaiting) (trace : option DecisionTrace) : M Phase :=
  match rw_caller r with
  | FromRejection sel => raise (rejection sel trace)
  | FromRequeue reason => raise (CapacityError reason)
  end.

(** The gateway recovered from a rejection goes on with the trace of the
    selection that was rejected, and without a token. *)
Definition retry_succeeded (r : RetryWaiting) (g : Gateway) (trace : DecisionTrace) : M Phase :=
  match rw_caller r with
  | FromRejection sel => finalize (mkFinalizing g (s_trace sel) (s_placement sel))
  | FromRequeue _ =>
      let! gs := fresh_candidates in
      acquire_admission false (rw_placement r) g trace gs None
  end.

Definition hold_of (k : option (string * string)) : M Q :=
  match k with
  | None => ret 0%Q
  | Some k =>
      let! w := get in
      let (left, o) := oscillation_hold_remaining_s k COOLDOWN_OVERRIDE_OSCILLATION_WINDOW_S (w_now w) (w_overrides w) in
      let! _ := set_world (with_overrides o) in ret left
  end.

(** One round of the loop, up to [wait_for_state_change] or its end. *)
Definition retry_round (r : RetryWaiting) : M Phase :=
  let! w := get in
  let elapsed_s := fsub (w_now w) (rw_start r) in
  if fle (rw_timeout_s r) elapsed_s then retry_failed r (rw_trace r)
  else
    let! hold := hold_of (rw_hold_key r) in
    if flt 0 hold then ret (RetryWait r)
    else if rw_defer r then
      ret (RetryWait (mkRetry (rw_caller r) (rw_placement r) (rw_start r) (rw_timeout_s r) (rw_mode r) (rw_hold_key r)
                        (rw_per_wake_cap_s r) false (rw_last_drain r) (rw_trace r)))
    else
      let! gs := fresh_candidates in
      let! gt := select_among gs (rw_placement r) in
      match gt with
      | (Some g, t) => retry_succeeded r g t
      | (None, t) =>
          let! hold := hold_of (rw_hold_key r) in
          if negb (continuation_still_transient t (rw_mode r) hold) then retry_failed r (Some t)
          else
            let! w := get in
            let due := fle (starvation_drain_threshold_s cfg) elapsed_s
                       && match rw_last_drain r with
                          | None => true
                          | Some at_ => fle (drain_duration_s cfg) (fsub (w_now w) at_)
                          end in
            let ks := match w_pool w with Some _ => if due then drain_keys w t else [] | None => [] end in
            let! _ := drain ks in
            ret (RetryWait (mkRetry (rw_caller r) (rw_placement r) (rw_start r) (rw_timeout_s r) (rw_mode r) (rw_hold_key r)
                              (rw_per_wake_cap_s r) false
                              (match ks with [] => rw_last_drain r | _ => Some (w_now w) end) (Some t)))
      end.

(** *** [wait_for_retryable_capacity] *)

Definition DEFAULT_PRE_ROUTE_TIMEOUT_S : Q := 120.

Definition pre_route_timeout (now : Q) : Q :=
  let deadline_remaining := (fun d => fmax 0 (fsub d now)) <$> capacity_deadline_mono req in
  match queue_wait_timeout_s req with
  | Some q => if flt 0 q then match deadline_remaining with Some d => fmin q d | None => q end
              else get_or DEFAULT_PRE_ROUTE_TIMEOUT_S deadline_remaining
  | None => get_or DEFAULT_PRE_ROUTE_TIMEOUT_S deadline_remaining
  end.

Definition with_trace (sel : Selection) (t : DecisionTrace) : Selection :=
  mkSelection (s_gateway sel) t (s_gateways_for_routing sel) (s_federated_gateways sel) (s_placement sel) (s_override sel).

(** Leaving the loop; the entry point now holds this trace. *)
Definition leave_pre_route (sel : Selection) (g : option Gateway) (t : DecisionTrace) : M Phase :=
  let! _ := tell (Demand false) in proceed (with_trace sel t) g t.

(** An exception of the engine leaves the loop through its [finally]. *)
Definition in_pre_route {A : Type} (m : M A) : M A :=
  fun s => match m s with
           | (inr e, s') => (inr e, snd (tell (Demand false) s'))
           | r => r
           end.

Definition pre_route_round (sel : Selection) (start timeout_s : Q) : M Phase :=
  let! w := get in
  if fle timeout_s (fsub (w_now w) start) then leave_pre_route sel None (s_trace sel)
  else
    let! gt := in_pre_route (let! gs := fresh_candidates in select_among gs (s_placement sel)) in
    match gt with
    | (Some g, t) => leave_pre_route sel (Some g) t
    | (None, t) =>
        match extract_retryable_constraint t with
        | None => leave_pre_route sel None t
        | Some _ => ret (PreRoute (with_trace sel t) start timeout_s)
        end
    end.

Definition after_selection (sel : Selection) : M Phase :=
  match s_gateway sel with
  | Some _ => proceed sel (s_gateway sel) (s_trace sel)
  | None =>
      match extract_retryable_constraint (s_trace sel) with
      | None => proceed sel None (s_trace sel)
      | Some _ =>
          let! w := get in
          let! _ := tell (Demand true) in
          pre_route_round sel (w_now w) (pre_route_timeout (w_now w))
      end
  end.

(** *** [apply_non_sticky_overflow] *)

Definition warm_names (gs : list Gateway) : list string :=
  map name (List.filter (fun g => mmem model (loaded_models g)) gs).

Definition overflowed (sel : Selection) (g : Gateway) (t : DecisionTrace) : M Phase :=
  let gs := s_gateways_for_routing sel in
  after_selection (mkSelection (Some g) t gs (s_federated_gateways sel) (s_placement sel)
                     (Some (remove_dups (warm_names gs ++ [name g])))).

Definition apply_non_sticky_overflow (sel : Selection) : M Phase :=
  let! w := get in
  match s_gateway sel, w_pool w with
  | Some g, Some p =>
      if model_sticky req || negb (non_sticky_overflow_enabled (cfg_policy cfg)) then after_selection sel
      else
        let '(available, in_flight, capacity) := CapacityPool.get_slot_info (name g, key) p in
        let queue_pressure := Z.max 0 (in_flight - capacity) in
        let primary_saturated := (0 <? capacity) && (available <=? 0) in
        let queue_over_threshold := non_sticky_overflow_queue_threshold (cfg_policy cfg) <=? queue_pressure in
        if negb (primary_saturated || queue_over_threshold) then after_selection sel
        else
          let! r := lift (select_excluding (w_engine w) (w_env w) (s_gateways_for_routing sel) (s_placement sel) [name g]
                            (Some (rid req)) (Some (model_sticky req)) (Some (w_tracker w))) in
          let '(og, ot, tr) := r in
          let! _ := set_world (with_tracker (get_or (w_tracker w) tr)) in
          match og with
          | None => after_selection sel
          | Some og =>
              if cfg_load_orchestrator cfg && negb (mmem model (loaded_models og)) && negb (mmem model (loading_models og))
              then let! _ := tell (AskedLoad (name og)) in ret (OverflowLoad sel og ot)
              else overflowed sel og ot
          end
  | _, _ => after_selection sel
  end.

(** *** [run_initial_selection] *)

Definition required (fgs : list FederatedGateway) : Z * Z :=
  match List.find (fun fg => bool_decide (is_Some (resources_of model fg))) fgs with
  | Some fg => match resources_of model fg with
               | Some r => (get_or 0 (r_vram_usage r), get_or 0 (r_ram_usage r))
               | None => (0, 0)
               end
  | None => (0, 0)
  end.

Definition placement_for (fgs : list FederatedGateway) : Placement :=
  let (v, r) := required fgs in placement_of model r v None None (routing_endpoint_category req).

Definition select_initially (fgs : list FederatedGateway) : M Phase :=
  let! gs := lift (federated_gateways_to_routing_candidates (List.filter is_gateway_dispatchable fgs)) in
  let! gs := (match excluded_gateway_ids req with
              | [] => ret gs
              | _ =>
                  let kept := not_excluded gs in
                  if existsb (fun g => mmem model (available_models g) || mmem model (loaded_models g)) kept
                  then ret kept else raise AllGatewaysExcluded
              end) in
  let! w := get in
  let banned_ids := map name (List.filter (fun g => w_banned w (name g)) gs) in
  let eligible := List.filter (fun g => negb (w_banned w (name g))) gs in
  let! gs := (match banned_ids, eligible with
              | [], _ => ret gs
              | _, [] => raise (InferenceBanned (sort_by String.ltb banned_ids))
              | _, _ => ret eligible
              end) in
  let p := placement_for fgs in
  let! gt := select_among gs p in
  apply_non_sticky_overflow (mkSelection gt.1 gt.2 gs fgs p None).

(** The last check of the catalogs, and its wait. *)
Definition catalog_round (all healthy_gws : list FederatedGateway) (start timeout_s : Q) : M Phase :=
  let! w := get in
  if fle timeout_s (fsub (w_now w) start) then raise ModelUnavailable
  else if has_model model (healthy_of w) then
    if has_model model (w_gateways w) then select_initially (healthy_of w) else raise ModelUnavailable
  else ret (WaitCatalog all healthy_gws start timeout_s).

Definition check_catalog (all healthy_gws : list FederatedGateway) : M Phase :=
  let! w := get in
  match healthy_gws with
  | [] => select_initially healthy_gws
  | _ =>
      if has_model model all then select_initially healthy_gws
      else
        let remaining := fsub (startup_queue_timeout_s cfg) (w_uptime_s w) in
        if flt 0 remaining then catalog_round all healthy_gws (w_now w) remaining else raise ModelUnavailable
  end.

(** A model whose gateways are all unreachable is waited for. *)
Definition grace_round (all healthy_gws : list FederatedGateway) (start timeout_s : Q) : M Phase :=
  let! w := get in
  if fle timeout_s (fsub (w_now w) start) then check_catalog all healthy_gws
  else if has_model model (healthy_of w) then check_catalog all (healthy_of w)
  else ret (WaitGrace all healthy_gws start timeout_s).

Definition check_model (all healthy_gws : list FederatedGateway) : M Phase :=
  let! w := get in
  let ids := map f_gateway_id healthy_gws in
  if has_model model healthy_gws then check_catalog all healthy_gws
  else if existsb (fun fg => mmem model (f_available_models fg) && negb (bool_decide (f_gateway_id fg ∈ ids))) all
  then grace_round all healthy_gws (w_now w) (model_gateway_grace_timeout_s cfg)
  else check_catalog all healthy_gws.

(** The gateways were listed before the wait for the first one. *)
Definition after_startup (all : list FederatedGateway) : M Phase :=
  let! w := get in
  match healthy_of w with
  | [] => raise NoGateways
  | fgs => check_model all fgs
  end.

Definition startup_round (all : list FederatedGateway) (start timeout_s : Q) : M Phase :=
  let! w := get in
  if fle timeout_s (fsub (w_now w) start) then after_startup all
  else match healthy_of w with
       | [] => ret (WaitStartup all start timeout_s)
       | _ => after_startup all
       end.

Definition run_initial_selection : M Phase :=
  let! w := get in
  match healthy_of w with
  | [] =>
      let remaining := fsub (startup_queue_timeout_s cfg) (w_uptime_s w) in
      if flt 0 remaining then startup_round (w_gateways w) (w_now w) remaining else raise NoGateways
  | fgs => check_model (w_gateways w) fgs
  end.

(** ** The coroutine *)

(** How a suspension ends. *)
Inductive Answer :=
  | Wake                            (* the state changed, or the wait timed out *)
  | TokenGranted (t : CapacityToken)
  | AcquireFailed (e : error)
  | EvictionDone (ok : bool)
  | LoadDone
  | LoadFailed (retryable : bool)
  | CancelHere.

Definition in_finalize (p : Phase) : bool :=
  match p with
  | Acquiring _ entry => negb entry
  | RetryWait r => match rw_caller r with FromRequeue _ => true | FromRejection _ => false end
  | Evicting _ _ | Loading _ => true
  | _ => false
  end.

(** What runs at a suspension that is cancelled. *)
Definition cancelled (p : Phase) : M Phase :=
  let! _ := (match p with
             | PreRoute _ _ _ => tell (Demand false)
             | Evicting f marked => clear_all_marks (name (f_gateway f)) marked
             | _ => ret ()
             end) in
  raise Cancelled.

Definition continue (p : Phase) (a : Answer) : option (M Phase) :=
  match p, a with
  | Returned _, _ | Failed _, _ => None
  | _, CancelHere => Some (cancelled p)
  | WaitStartup all start t, Wake => Some (startup_round all start t)
  | WaitGrace all fgs start t, Wake => Some (grace_round all fgs start t)
  | WaitCatalog all fgs start t, Wake => Some (catalog_round all fgs start t)
  | OverflowLoad sel og ot, LoadDone => Some (overflowed sel og ot)
  | OverflowLoad sel og ot, LoadFailed _ => Some (after_selection sel)
  | PreRoute sel start t, Wake => Some (pre_route_round sel start t)
  | Acquiring a _, TokenGranted t => Some (admitted a t)
  | Acquiring a _, AcquireFailed e => Some (not_admitted a e)
  | RetryWait r, Wake => Some (retry_round r)
  | Evicting f marked, EvictionDone ok => Some (evicted f marked ok)
  | Loading f, LoadDone => Some (finish f)
  | Loading f, LoadFailed retryable => Some (load_refused f retryable)
  | _, _ => None
  end.

Record Session := mkSession {
  phase : Phase;
  ss_token : option CapacityToken;
  ss_mark : option (string * ModelId);
  ss_depth : Z
}.

Definition close (r : (Phase + RouteError) * St) : Session * World * list Effect :=
  let (p, s) := r in
  (mkSession (match p with inl p => p | inr e => Failed e end) (token s) (own_mark s) (requeue_depth s), world s, effects s).

(** The call, and the stretch after an answer. *)
Definition start (w : World) : Session * World * list Effect := close (run_initial_selection (mkSt w None None 0 [])).

Definition resume (a : Answer) (w : World) (s : Session) : option (Session * World * list Effect) :=
  match continue (phase s) a with
  | None => None
  | Some m =>
      let m := if in_finalize (phase s) then guarded m else m in
      Some (close (m (mkSt w (ss_token s) (ss_mark s) (ss_depth s) [])))
  end.

End Run.
