(* ===== verification/RouteOrchestratorProofs.v ===== *)
(** * Correctness of the routing of a request

    What holds of every run of the coroutine of [RouteOrchestrator.v], whatever
    other requests and the gateways do between its stretches. *)
From stdpp Require Import base gmap sets list strings.
From Stdlib Require Import Ascii ZArith QArith Lia.
From S2P Require Import Prelude PyFloat PyString ModelId FederatedGateways RoutingTypes Eviction Feasibility Scoring Engine CapacityPool EvictionExecution RoutingCollectors RouteOrchestrator.
Local Open Scope Z_scope.

(** ** Reasoning about stretches *)

(** [m] from [s] ends in [Q], or in [E] with an exception. *)
Definition wp {A : Type} (m : M A) (Q : A -> St -> Prop) (E : RouteError -> St -> Prop) (s : St) : Prop :=
  match m s with (inl a, s') => Q a s' | (inr e, s') => E e s' end.

Lemma wp_bind {A B : Type} (m : M A) (k : A -> M B) Q E s :
  wp (bind m k) Q E s <-> wp m (fun a s' => wp (k a) Q E s') E s.
Proof. unfold wp, bind. destruct (m s) as [[a|e] s']; done. Qed.

Lemma wp_lift {A : Type} (x : exn A) Q E s :
  (forall a, x = Ok a -> Q a s) -> (forall e, x = Raise e -> E (Raised e) s) -> wp (lift x) Q E s.
Proof. intros H1 H2. destruct x; [by apply H1 | by apply H2]. Qed.

Lemma wp_mono {A : Type} (m : M A) (Q Q' : A -> St -> Prop) (E E' : RouteError -> St -> Prop) s :
  wp m Q E s -> (forall a s', Q a s' -> Q' a s') -> (forall e s', E e s' -> E' e s') -> wp m Q' E' s.
Proof. unfold wp. destruct (m s) as [[a|e] s']; auto. Qed.

(** The tokens and the marks of its model that a request was given and gave
    back: never two of a kind at a time, and only what it has is given back. *)
Fixpoint ledger (held : option CapacityToken * option (string * ModelId)) (fx : list Effect)
  : option (option CapacityToken * option (string * ModelId)) :=
  match fx with
  | [] => Some held
  | GotToken t :: fx' => match held.1 with None => ledger (Some t, held.2) fx' | Some _ => None end
  | ReleasedToken t :: fx' => match held.1 with Some t' => if bool_decide (t_request_id t = t_request_id t' /\ t_gateway_id t = t_gateway_id t')
                                                          then ledger (None, held.2) fx' else None
                                              | None => None end
  | MarkedLoading true i m :: fx' => match held.2 with None => ledger (held.1, Some (i, m)) fx' | Some _ => None end
  | ClearedLoading true i m :: fx' => if bool_decide (held.2 = Some (i, m)) then ledger (held.1, None) fx' else None
  | _ :: fx' => ledger held fx'
  end.

Lemma ledger_app held fx fx' : ledger held (fx ++ fx') = match ledger held fx with Some h => ledger h fx' | None => None end.
Proof.
  revert held. induction fx as [|x fx IH]; intros [tok mark]; simpl; [done|].
  destruct x; try (destruct own); simpl; try apply IH; try (destruct tok; [|done]); try (destruct mark; done);
    try (case_match; [|done]); by rewrite ?IH.
Qed.

(** Effects other than tokens, loads and the marks of the requested model. *)
Definition plain (x : Effect) : bool :=
  match x with
  | GotToken _ | ReleasedToken _ | AskedLoad _ => false
  | MarkedLoading own _ _ | ClearedLoading own _ _ => negb own
  | _ => true
  end.

Lemma ledger_plain held fx : forallb plain fx = true -> ledger held fx = Some held.
Proof. induction fx as [|x fx IH]; simpl; [done|]. destruct x; try (destruct own); simpl; done. Qed.

(** Whether [m] was last marked on gateway [i], or taken back. *)
Definition mark_of (i : string) (m : ModelId) (x : Effect) : option bool :=
  match x with
  | MarkedLoading _ i' m' => if bool_decide (i' = i) && mid_eqb m' m then Some true else None
  | ClearedLoading _ i' m' => if bool_decide (i' = i) && mid_eqb m' m then Some false else None
  | _ => None
  end.

Fixpoint last_mark (i : string) (m : ModelId) (fx : list Effect) : option bool :=
  match fx with
  | [] => None
  | x :: fx' => match last_mark i m fx' with Some b => Some b | None => mark_of i m x end
  end.

Lemma last_mark_app i m fx fx' :
  last_mark i m (fx ++ fx') = match last_mark i m fx' with Some b => Some b | None => last_mark i m fx end.
Proof. induction fx as [|x fx IH]; simpl; [by case_match|]. rewrite IH. by destruct (last_mark i m fx'). Qed.

Definition unloading (i : string) (m : ModelId) (w : World) : Prop :=
  forall fg, fg ∈ w_gateways w -> f_gateway_id fg = i -> mmem m (f_loading_models fg) = false.

(** A mark that was taken back is gone from the gateway. *)
Definition taken_back (fx : list Effect) (w : World) : Prop :=
  forall i m, last_mark i m fx = Some false -> unloading i m w.

Definition tracks (w : World) (fx : list Effect) (w' : World) : Prop :=
  taken_back fx w' /\ forall i m, last_mark i m fx = None -> unloading i m w -> unloading i m w'.

Lemma tracks_trans w1 w2 w3 fx fx' : tracks w1 fx w2 -> tracks w2 fx' w3 -> tracks w1 (fx ++ fx') w3.
Proof.
  intros [H1 K1] [H2 K2]. split; intros i m; rewrite last_mark_app.
  - destruct (last_mark i m fx') as [[]|] eqn:E; [done| |]; intros E1; [by apply H2 | by apply K2, H1].
  - destruct (last_mark i m fx') as [[]|] eqn:E; [done..|]. intros E1 U. by apply K2, K1.
Qed.

Lemma tracks_gateways w w' x : w_gateways w' = w_gateways w -> (forall i m, mark_of i m x = None) -> tracks w [x] w'.
Proof.
  intros E H. split; intros i m; simpl; [by rewrite H|]. intros _ U fg. rewrite E. apply U.
Qed.

Lemma tracks_nil w w' : w_gateways w' = w_gateways w -> tracks w [] w'.
Proof. intros E. split; intros i m; simpl; [done|]. intros _ U fg. rewrite E. apply U. Qed.

Lemma taken_back_tracks fx fx' w w' : taken_back fx w -> tracks w fx' w' -> taken_back (fx ++ fx') w'.
Proof.
  intros H [K1 K2] i m. rewrite last_mark_app. destruct (last_mark i m fx') as [[]|] eqn:E; [done| |]; intros E1; [by apply K1 | by apply K2, H].
Qed.

Definition ids (w : World) : list string := map f_gateway_id (w_gateways w).

(** What the selections of a stretch depend on, besides the gateways. *)
Definition seat (w : World) : list string * DecisionEngine * Env := (ids w, w_engine w, w_env w).

(** [s'] comes after [s] without touching token, mark, depth, engine and the
    ids of the gateways, and if [keep] without touching the gateways. *)
Definition same (keep : bool) (s s' : St) : Prop :=
  token s' = token s /\ own_mark s' = own_mark s /\ requeue_depth s' = requeue_depth s /\
  seat (world s') = seat (world s) /\ (keep = true -> w_gateways (world s') = w_gateways (world s)) /\
  exists fx, effects s' = effects s ++ fx /\ forallb plain fx = true /\ tracks (world s) fx (world s').

Lemma same_refl k s : same k s s.
Proof. repeat split. exists []. rewrite app_nil_r. split; [done|]. split; [done | by apply tracks_nil]. Qed.

Lemma same_trans k s1 s2 s3 : same k s1 s2 -> same k s2 s3 -> same k s1 s3.
Proof.
  intros (T1 & M1 & D1 & I1 & G1 & fx1 & E1 & P1 & K1) (T2 & M2 & D2 & I2 & G2 & fx2 & E2 & P2 & K2).
  do 4 (split; [congruence|]). split; [intros H; rewrite (G2 H); by apply G1|].
  exists (fx1 ++ fx2). rewrite E2, E1, <- app_assoc, forallb_app, P1, P2. split; [done|]. split; [done|]. by eapply tracks_trans.
Qed.

#[local] Hint Resolve same_refl : core.

Definition quiet (k : bool) {A : Type} (m : M A) : Prop := forall s, wp m (fun _ s' => same k s s') (fun _ s' => same k s s') s.
(** Quiet, and without exceptions. *)
Definition calm (k : bool) {A : Type} (m : M A) : Prop := forall s, wp m (fun _ s' => same k s s') (fun _ _ => False) s.

Lemma calm_quiet {A : Type} k (m : M A) : calm k m -> quiet k m.
Proof. intros H s. eapply wp_mono; [apply H | done | done]. Qed.

Lemma quiet_ret {A : Type} k (a : A) : calm k (ret a).
Proof. intros s. apply same_refl. Qed.

Lemma quiet_reads {A : Type} k (f : St -> A) : calm k (reads f).
Proof. intros s. apply same_refl. Qed.

Lemma quiet_set_world k f : (forall w, seat (f w) = seat w /\ w_gateways (f w) = w_gateways w) -> calm k (set_world f).
Proof.
  intros H s. destruct (H (world s)) as [H1 H2]. do 3 (split; [done|]). split; [done|]. split; [done|]. exists [].
  simpl. rewrite app_nil_r. split; [done|]. split; [done | by apply tracks_nil].
Qed.

Lemma on_gateway_ids i f l : map f_gateway_id (on_gateway i (set_loading f) l) = map f_gateway_id l.
Proof. unfold on_gateway. rewrite map_map. apply map_ext. intros fg. by case_bool_decide. Qed.

Lemma quiet_tell k x : plain x = true -> (forall i m, mark_of i m x = None) -> calm k (tell x).
Proof.
  intros H K s. do 4 (split; [done|]). split; [done|]. exists [x]. simpl. rewrite H. split; [done|]. split; [done|].
  by apply tracks_gateways.
Qed.

Lemma quiet_lift {A : Type} k (x : exn A) : quiet k (lift x).
Proof. intros s. apply wp_lift; intros; apply same_refl. Qed.

Lemma quiet_bind {A B : Type} k (m : M A) (f : A -> M B) : quiet k m -> (forall a, quiet k (f a)) -> quiet k (bind m f).
Proof.
  intros Hm Hk s. rewrite wp_bind. eapply wp_mono; [apply Hm | | done].
  intros a s1 H1. eapply wp_mono; [apply Hk | |]; intros ? ? H2; exact (same_trans _ _ _ _ H1 H2).
Qed.

Lemma calm_bind {A B : Type} k (m : M A) (f : A -> M B) : calm k m -> (forall a, calm k (f a)) -> calm k (bind m f).
Proof.
  intros Hm Hk s. rewrite wp_bind. eapply wp_mono; [apply Hm | | done].
  intros a s1 H1. eapply wp_mono; [apply Hk | | done]. intros ? ? H2; exact (same_trans _ _ _ _ H1 H2).
Qed.

Ltac calm := repeat (intros; first [apply calm_bind | apply quiet_ret | apply quiet_reads
                                   | (apply quiet_set_world; intros; split; reflexivity)
                                   | (apply quiet_tell; [reflexivity | done]) | (progress case_match)]).

(** *** Marks *)

(** What marking and taking back do, apart from whose mark it is. *)
Definition marks_step (own : bool) (i : string) (m : ModelId) (up : bool) (s s' : St) : Prop :=
  let x := if up then MarkedLoading own i m else ClearedLoading own i m in
  token s' = token s /\ own_mark s' = own_mark s /\ requeue_depth s' = requeue_depth s /\
  seat (world s') = seat (world s) /\ effects s' = effects s ++ [x] /\ tracks (world s) [x] (world s').

Lemma other_mark i m i' m' (own up : bool) : mark_of i m (if up then MarkedLoading own i' m' else ClearedLoading own i' m') =
  if bool_decide (i' = i) && mid_eqb m' m then Some up else None.
Proof. by destruct up. Qed.

Lemma unloading_other i m i' m' f w : (bool_decide (i' = i) && mid_eqb m' m) = false ->
  (forall l, mid_eqb m' m = false -> mmem m l = false -> mmem m (f l) = false) ->
  unloading i m w -> unloading i m (with_gateways (on_gateway i' (set_loading f)) w).
Proof.
  intros Hn Hf U fg (fg0 & -> & Hin)%list_elem_of_fmap Hi. case_bool_decide as Ei.
  - simpl in *. rewrite <- Hi, Ei, bool_decide_true in Hn by done. simpl in Hn. apply Hf; [done|]. by apply U.
  - by apply U.
Qed.

Lemma mark_loading_spec own i m s :
  wp (mark_loading own i m) (fun b s' => if b : bool then marks_step own i m true s s' else s' = s) (fun _ _ => False) s.
Proof.
  unfold mark_loading. rewrite wp_bind. unfold get, reads, wp at 1. destruct (List.find _ _) as [fg|]; [|done].
  destruct (mmem m _); [done|]. unfold wp, bind, set_world, tell, writes, ret. simpl.
  do 3 (split; [done|]). split; [unfold seat, ids; simpl; by rewrite on_gateway_ids|]. split; [done|].
  split; intros i' m'; simpl; [by case_match|]. destruct (_ && _) eqn:E; [done|]. intros _. apply (unloading_other _ _ i m); [done|].
  intros l Hm Hl. destruct (mmem m l); [done|]. unfold mmem. rewrite existsb_app. fold (mmem m' l). rewrite Hl. simpl.
  by rewrite mid_eqb_sym, Hm.
Qed.

Lemma clear_loading_spec own i m s : wp (clear_loading own i m) (fun _ s' => marks_step own i m false s s') (fun _ _ => False) s.
Proof.
  unfold clear_loading, wp, bind, set_world, tell, writes. simpl.
  do 3 (split; [done|]). split; [unfold seat, ids; simpl; by rewrite on_gateway_ids|]. split; [done|].
  assert (Hf : forall m' l, mmem m' l = false -> mmem m' (List.filter (fun x => negb (mid_eqb x m)) l) = false).
  { intros m' l. unfold mmem. rewrite <- !not_true_iff_false, !existsb_exists. intros H (x & Hx%filter_In & E). apply H. exists x. tauto. }
  split; intros i' m'; simpl; destruct (_ && _) eqn:E; try done.
  - intros _ fg (fg0 & -> & Hin)%list_elem_of_fmap Hi. apply andb_true_iff in E as [Ei Em]. apply bool_decide_eq_true in Ei. subst i'.
    case_bool_decide as Hid; [|done]. simpl. apply not_true_iff_false. unfold mmem. rewrite existsb_exists.
    intros (x & [_ Hx]%filter_In & E'). apply mid_eqb_spec in Em, E'. apply negb_true_iff, not_true_iff_false in Hx.
    apply Hx, mid_eqb_spec. congruence.
  - intros _. apply (unloading_other _ _ i m); [done|]. intros l _. apply Hf.
Qed.

Lemma marks_step_same i m up s s' : marks_step false i m up s s' -> same false s s'.
Proof.
  intros (T & K & D & S & E & R). do 4 (split; [done|]). split; [done|]. eexists. split; [exact E|]. split; [by destruct up | done].
Qed.

Lemma calm_mark_victim i m : calm false (mark_loading false i m).
Proof. intros s. eapply wp_mono; [apply mark_loading_spec | | done]. intros [] s'; [apply marks_step_same | by intros ->]. Qed.

Lemma calm_clear_victim i m : calm false (clear_loading false i m).
Proof. intros s. eapply wp_mono; [apply clear_loading_spec | | done]. intros ? s'. apply marks_step_same. Qed.

Lemma calm_pause k key d r : calm k (pause key d r).
Proof. unfold pause. calm. Qed.

Lemma calm_mark_all i ms : calm false (mark_all i ms).
Proof.
  induction ms as [|m ms IH]; simpl; [apply quiet_ret|]. apply calm_bind; [apply calm_mark_victim|].
  intros b. apply calm_bind; [apply IH|]. intros; apply quiet_ret.
Qed.

Lemma calm_clear_all i ms : calm false (clear_all_marks i ms).
Proof. induction ms as [|m ms IH]; simpl; [apply quiet_ret|]. apply calm_bind; [apply calm_clear_victim | done]. Qed.

(** ** Why a gateway may be used *)

(** What a request has met: [Known] gateways, and names that an engine found
    feasible. *)
Section Why.
Context (req : Request) (Known : FederatedGateway -> Prop) (Found : string -> Prop).
#[local] Abbreviation model := (selected_model req).

(** A snapshot of a gateway the request has met. *)
Definition snap (g : Gateway) : Prop := exists fg, Known fg /\ is_snapshot fg g.

(** The placement is computed from gateways it has met. *)
Definition placement_ok (p : Placement) : Prop := exists fgs, Forall Known fgs /\ p = placement_for req fgs.

Definition warm (g : Gateway) : bool := mmem model (loaded_models g).

(** The gateway was found feasible, or reports the model as loaded, or, for a
    sticky model, as being loaded. *)
Definition justified (g : Gateway) : Prop :=
  snap g /\ (Found (name g) \/ warm g = true \/ (model_sticky req = true /\ mmem model (loading_models g) = true)).

Definition feasible_name (n : string) (t : DecisionTrace) : Prop :=
  exists c, c ∈ candidates t /\ name (gateway c) = n /\ is_feasible c = true.

(** Found feasible by [e] in the environment [env]. *)
Definition feasible_in (e : DecisionEngine) (env : Env) (p : Placement) (g : Gateway) : Prop :=
  exists tier fs plan, evaluate_feasibility (plan_context e env g) (gateway_available_fn e) g p = Ok (tier, fs, plan) /\
    tier <> T0_INFEASIBLE.

(** The world adds nothing to what the request has met. *)
Definition knows (w : World) : Prop :=
  Forall Known (w_gateways w) /\
  forall p g, placement_ok p -> snap g -> feasible_in (w_engine w) (w_env w) p g -> Found (name g).

Definition trace_ok (t : DecisionTrace) : Prop := forall n, feasible_name n t -> Found n.

(** What a selection that succeeded gives. *)
Definition picked (g : Gateway) (t : DecisionTrace) : Prop := justified g /\ trace_ok t /\ is_Some (selection_tier t).

Definition cands (gs : list Gateway) : Prop := NoDup (map name gs) /\ Forall snap gs.

(** The allowed gateways of an admission. *)
Definition allowed_ok (g : Gateway) (gs : list Gateway) (l : list string) : Prop :=
  forall n, n ∈ l -> n = name g \/ Found n \/ exists g', g' ∈ gs /\ name g' = n /\ warm g' = true.

Definition selection_ok (sel : Selection) : Prop :=
  cands (s_gateways_for_routing sel) /\ placement_ok (s_placement sel) /\
  match s_gateway sel with
  | None => selection_tier (s_trace sel) = None /\ s_override sel = None
  | Some g => picked g (s_trace sel) /\
              match s_override sel with
              | Some l => allowed_ok g (s_gateways_for_routing sel) l /\ model_sticky req = false
              | None => True
              end
  end.

Definition idle (tok : option CapacityToken) (mark : option (string * ModelId)) : Prop := tok = None /\ mark = None.

(** Nothing to evict before the load, by the trace that chose the gateway. *)
Definition no_eviction (f : Finalizing) : Prop :=
  exists tier, selection_tier (f_trace f) = Some tier /\
  (tier <> T2_FEASIBLE_EVICT \/
   match get_eviction_plan_for_gateway (f_trace f) (name (f_gateway f)) with
   | Some plan => models_to_evict plan = []
   | None => True
   end).

(** The caller of a retry: a rejected selection has no tier. *)
Definition caller_ok (c : WaitCaller) : Prop :=
  match c with
  | FromRejection sel => selection_tier (s_trace sel) = None /\ placement_ok (s_placement sel)
  | FromRequeue _ => True
  end.

(** The invariant of the suspensions; [may_load] says when a load needs no
    reason in its trace. *)
Definition phase_ok (may_load : Finalizing -> Prop) (p : Phase) (tok : option CapacityToken) (mark : option (string * ModelId)) : Prop :=
  match p with
  | WaitStartup _ _ _ => idle tok mark
  | WaitGrace _ fgs _ _ | WaitCatalog _ fgs _ _ => idle tok mark /\ NoDup (map f_gateway_id fgs) /\ Forall Known fgs
  | OverflowLoad sel og ot =>
      idle tok mark /\ selection_ok sel /\ is_Some (s_gateway sel) /\ s_override sel = None /\ picked og ot /\ model_sticky req = false
  | PreRoute sel _ _ => idle tok mark /\ selection_ok sel /\ s_gateway sel = None
  | Acquiring a _ =>
      idle tok mark /\ picked (a_gateway a) (a_trace a) /\ cands (a_gateways_for_routing a) /\ placement_ok (a_placement a) /\
      allowed_ok (a_gateway a) (a_gateways_for_routing a) (a_allowed a)
  | RetryWait r => idle tok mark /\ placement_ok (rw_placement r) /\ caller_ok (rw_caller r)
  | Evicting f _ => justified (f_gateway f) /\ placement_ok (f_placement f)
  | Loading f => justified (f_gateway f) /\ placement_ok (f_placement f) /\ (no_eviction f \/ may_load f)
  | Returned n => exists g, name g = n /\ justified g
  | Failed _ => idle tok mark
  end.

End Why.

(** Meeting more keeps the invariant. *)
Section Monotone.
Context (req : Request) (K K' : FederatedGateway -> Prop) (F F' : string -> Prop).
Context (HK : forall fg, K fg -> K' fg) (HF : forall n, F n -> F' n).

Lemma snap_mono g : snap K g -> snap K' g.
Proof using HK. intros (fg & H & S). exists fg. auto. Qed.

Lemma placement_mono p : placement_ok req K p -> placement_ok req K' p.
Proof using HK. intros (fgs & H & E). exists fgs. split; [|done]. by eapply Forall_impl. Qed.

Lemma justified_mono g : justified req K F g -> justified req K' F' g.
Proof using HK HF. intros [S H]. split; [by apply snap_mono|]. destruct H as [H|H]; auto. Qed.

Lemma picked_mono g t : picked req K F g t -> picked req K' F' g t.
Proof using HK HF. intros (J & T & S). split; [by apply justified_mono|]. split; [|done]. intros n Hn. by apply HF, T. Qed.

Lemma cands_mono gs : cands K gs -> cands K' gs.
Proof using HK. intros [N S]. split; [done|]. eapply Forall_impl; [exact S | apply snap_mono]. Qed.

Lemma allowed_mono g gs l : allowed_ok req F g gs l -> allowed_ok req F' g gs l.
Proof using HF. intros H n Hn. destruct (H n Hn) as [|[|]]; auto. Qed.

Lemma selection_mono sel : selection_ok req K F sel -> selection_ok req K' F' sel.
Proof using HK HF.
  intros (C & P & H). split; [by apply cands_mono|]. split; [by apply placement_mono|].
  destruct (s_gateway sel); [|done]. destruct H as [J H]. split; [by apply picked_mono|].
  destruct (s_override sel); [|done]. destruct H. split; [by apply allowed_mono | done].
Qed.

Lemma phase_mono ev ev' p tok mark : (forall f, ev f -> ev' f) ->
  phase_ok req K F ev p tok mark -> phase_ok req K' F' ev' p tok mark.
Proof using HK HF.
  intros He. destruct p; simpl; try tauto.
  - intros (? & ? & H). split; [done|]. split; [done|]. by eapply Forall_impl.
  - intros (? & ? & H). split; [done|]. split; [done|]. by eapply Forall_impl.
  - intros (? & ? & ? & ? & ? & ?). split; [done|]. split; [by apply selection_mono|]. split; [done|]. split; [done|].
    split; [by apply picked_mono | done].
  - intros (? & ? & ?). split; [done|]. split; [by apply selection_mono | done].
  - intros (? & ? & ? & ? & ?). split; [done|]. split; [by apply picked_mono|]. split; [by apply cands_mono|].
    split; [by apply placement_mono | by apply allowed_mono].
  - intros (? & ? & C). split; [done|]. split; [by apply placement_mono|]. destruct (rw_caller r); [|done].
    destruct C. split; [done | by apply placement_mono].
  - intros [? ?]. split; [by apply justified_mono | by apply placement_mono].
  - intros (? & ? & H). split; [by apply justified_mono|]. split; [by apply placement_mono|]. destruct H; auto.
  - intros (g & ? & ?). exists g. split; [done | by apply justified_mono].
Qed.

End Monotone.

(** ** The stretches keep the invariant *)

Section Facts.
(** [lo] is the depth, and [h] below what is held, at the start of a stretch;
    [may_load] says for which finalizations it follows an eviction. *)
Context (cfg : Config) (req : Request) (Known : FederatedGateway -> Prop) (Found : string -> Prop)
        (lo : Z) (may_load : Finalizing -> Prop).
#[local] Abbreviation model := (selected_model req).
#[local] Abbreviation snap := (snap Known).
#[local] Abbreviation placement_ok := (placement_ok req Known).
#[local] Abbreviation justified := (justified req Known Found).
#[local] Abbreviation knows := (knows req Known Found).
#[local] Abbreviation picked := (picked req Known Found).
#[local] Abbreviation cands := (cands Known).
#[local] Abbreviation allowed_ok := (allowed_ok req Found).
#[local] Abbreviation selection_ok := (selection_ok req Known Found).
#[local] Abbreviation caller_ok := (caller_ok req Known).
#[local] Abbreviation phase_ok := (phase_ok req Known Found may_load).

Lemma calm_pause_all k ms : calm k (pause_all cfg ms).
Proof. induction ms as [|m ms IH]; simpl; [apply quiet_ret|]. apply calm_bind; [apply calm_pause | done]. Qed.

Lemma calm_drain k ks : calm k (drain cfg ks).
Proof. induction ks as [|key ks IH]; simpl; [apply quiet_ret|]. apply calm_bind; [apply calm_pause | done]. Qed.

Lemma calm_hold_of k key : calm k (hold_of key).
Proof. unfold hold_of. destruct key; [|apply quiet_ret]. apply calm_bind; [apply quiet_reads|]. intros w. destruct (oscillation_hold_remaining_s _ _ _ _). calm. Qed.

Lemma calm_start_eviction f : calm false (start_eviction cfg f).
Proof.
  unfold start_eviction. destruct (get_eviction_plan_for_gateway _ _) as [plan|]; [|apply quiet_ret].
  destruct (models_to_evict plan) as [|m ms]; [apply quiet_ret|]. destruct (negb _); [apply quiet_ret|].
  assert (Hgo : forall i victims, calm false (let! marked := mark_all i victims in let! _ := tell (AskedEviction i victims) in ret (Awaiting marked))).
  { intros. apply calm_bind; [apply calm_mark_all|]. calm. }
  destruct (plan_cooldown_override_pending plan); [|apply Hgo].
  apply calm_bind; [apply quiet_reads|]. intros w. destruct (oscillation_blocks_override _ _ _ _) as [b o].
  apply calm_bind; [by apply quiet_set_world|]. intros _. destruct b; [apply quiet_ret|].
  apply calm_bind; [by apply quiet_set_world|]. intros _. apply Hgo.
Qed.

Lemma start_eviction_spec f s :
  wp (start_eviction cfg f)
    (fun r s' => same false s s' /\ match r with
                              | NoEvictionNeeded => match get_eviction_plan_for_gateway (f_trace f) (name (f_gateway f)) with
                                                    | Some plan => models_to_evict plan = []
                                                    | None => True
                                                    end
                              | _ => True
                              end) (fun _ _ => False) s.
Proof.
  pose proof (calm_start_eviction f s) as H. unfold wp in *.
  destruct (start_eviction cfg f s) as [[r|] s'] eqn:E; [|done]. split; [done|]. destruct r; try done.
  unfold start_eviction in E. destruct (get_eviction_plan_for_gateway _ _) as [plan|]; [|done].
  destruct (models_to_evict plan) as [|m ms]; [done|]. exfalso. destruct (negb _); [done|].
  assert (Hgo : forall i victims s0, (let! marked := mark_all i victims in let! _ := tell (AskedEviction i victims) in ret (Awaiting marked)) s0
            <> (inl NoEvictionNeeded, s')).
  { intros i victims s0. unfold bind, tell, writes, ret. by destruct (mark_all i victims s0) as [[?|?] ?]. }
  destruct (plan_cooldown_override_pending plan); [|by eapply Hgo].
  unfold bind at 1 in E. unfold get, reads in E. destruct (oscillation_blocks_override _ _ _ _) as [[] o].
  - done.
  - unfold bind at 1, set_world at 1, writes at 1 in E. unfold bind at 1, set_world at 1, writes at 1 in E. by eapply Hgo.
Qed.

(** *** What selections give *)

(** A feasible candidate of a trace was evaluated by the engine. *)
Lemma select_feasible e env gs p r sticky tr0 sel t tr n :
  select e env gs p r sticky tr0 = Ok (sel, t, tr) -> feasible_name n t ->
  exists g, g ∈ gs /\ name g = n /\ feasible_in e env p g.
Proof.
  intros (cs & c & Hcs & _ & _ & Hcand & _)%select_inv (c' & Hin & <- & Hf). rewrite Hcand in Hin.
  apply map_exn_spec in Hcs. apply list_elem_of_lookup in Hin as [i Hi].
  destruct (Forall2_lookup_r _ _ _ _ _ Hcs Hi) as (g & Hg & E). apply evaluate_candidate_inv in E as [Eg Ev].
  exists g. split; [by eapply list_elem_of_lookup_2|]. split; [by rewrite Eg|].
  exists (tier c'), (constraints_failed c'), (eviction_plan c'). split; [done|].
  apply is_feasible_spec in Hf. by destruct Hf as [-> | ->].
Qed.

Lemma select_picked e env gs p r sticky tr0 sel t tr w :
  select e env gs p r sticky tr0 = Ok (sel, t, tr) -> e = w_engine w -> env = w_env w ->
  knows w -> placement_ok p -> Forall snap gs ->
  match sel with Some g => picked g t | None => selection_tier t = None end.
Proof.
  intros E -> -> [_ Kn] P S. assert (T : trace_ok Found t).
  { intros n Hn. destruct (select_feasible _ _ _ _ _ _ _ _ _ _ _ E Hn) as (g & Hin & <- & Hf).
    apply (Kn p g P); [|done]. rewrite Forall_forall in S. by apply S. }
  apply select_inv in E as (cs & c & Hcs & Hc & -> & Hcand & _ & Ht & _). destruct c as [c|]; simpl; [|done].
  destruct (selected_candidate _ _ _ _ _ _ _ _ _ _ _ _ Hcs Hc) as (Hin & Hf & Hg & _).
  split; [|by split; [done | rewrite Ht; eauto]]. split; [rewrite Forall_forall in S; by apply S|].
  left. apply T. exists c. by rewrite Hcand.
Qed.

(** *** The bookkeeping *)

Definition depth_ok (d : Z) : Prop := lo <= d <= Z.max 0 (eviction_requeue_max_depth cfg).

(** What a stretch that began holding [h] has done so far. *)
Record booked (h : option CapacityToken * option (string * ModelId)) (s : St) : Prop := mkBooked {
  b_ledger : ledger h (effects s) = Some (token s, own_mark s);
  b_depth : depth_ok (requeue_depth s);
  b_marks : taken_back (effects s) (world s)
}.

Definition clean h (s : St) : Prop := booked h s /\ idle (token s) (own_mark s).

Definition good h (p : Phase) (s : St) : Prop := booked h s /\ phase_ok p (token s) (own_mark s).

(** Outside and inside [finalize_selection_and_load]. *)
Definition fine h (m : M Phase) (s : St) : Prop := wp m (good h) (fun e => good h (Failed e)) s.
Definition inner h (m : M Phase) (s : St) : Prop := wp m (good h) (fun _ => booked h) s.

Lemma booked_same k h s s' : booked h s -> same k s s' -> booked h s'.
Proof.
  intros [L D R] (T & Km & Dd & _ & _ & fx & E & P & Tr). split; [|by rewrite Dd|].
  - rewrite E, ledger_app, L, T, Km. by apply ledger_plain.
  - rewrite E. by eapply taken_back_tracks.
Qed.

Lemma clean_same k h s s' : clean h s -> same k s s' -> clean h s'.
Proof. intros [B [T Km]] S. split; [by eapply booked_same|]. destruct S as (T' & K' & _). split; congruence. Qed.

Lemma fine_inner h m s : fine h m s -> inner h m s.
Proof. intros H. eapply wp_mono; [apply H | done | by intros ? ? [? _]]. Qed.

(** Calm steps before the rest. *)
Lemma wp_calm {A B : Type} k (m : M A) (f : A -> M B) (P : St -> Prop) Q E s :
  calm k m -> (forall s', P s -> same k s s' -> P s') -> P s -> (forall a s', P s' -> wp (f a) Q E s') -> wp (bind m f) Q E s.
Proof.
  intros Hm HP H Hk. rewrite wp_bind. eapply wp_mono; [apply Hm | | done].
  intros a s' S. simpl. apply Hk. by eapply HP.
Qed.

(** *** Cleaning up *)

(** A step that changes what is held, and not the gateways. *)
Lemma booked_step h s x s' : booked h s -> effects s' = effects s ++ [x] -> world s' = world s -> requeue_depth s' = requeue_depth s ->
  (forall i m, mark_of i m x = None) -> ledger (token s, own_mark s) [x] = Some (token s', own_mark s') -> booked h s'.
Proof.
  intros [L D R] E W Ed Hx Hl. split; [by rewrite E, ledger_app, L | by rewrite Ed|].
  rewrite E, W. eapply taken_back_tracks; [exact R | by apply tracks_gateways].
Qed.

Lemma route_release_ok h s : booked h s ->
  wp release_token (fun _ s' => booked h s' /\ token s' = None /\ own_mark s' = own_mark s /\ requeue_depth s' = requeue_depth s)
    (fun _ _ => False) s.
Proof.
  intros B. unfold release_token, wp, bind, reads. simpl. destruct (token s) as [t|] eqn:T; simpl; [|done].
  split; [|done]. eapply (booked_step h s); [done..|]. simpl. rewrite T. by rewrite bool_decide_eq_true_2.
Qed.

Lemma drop_ok h s : booked h s ->
  wp drop_mark (fun _ s' => booked h s' /\ own_mark s' = None /\ token s' = token s /\ requeue_depth s' = requeue_depth s)
    (fun _ _ => False) s.
Proof.
  intros [L D R]. unfold drop_mark. rewrite wp_bind. unfold reads, wp at 1. simpl.
  destruct (own_mark s) as [[i m]|] eqn:Km; [|split; [split; [by rewrite Km | done..] | done]]. rewrite wp_bind. unfold set_mark, writes, wp at 1. simpl.
  eapply wp_mono; [apply (clear_loading_spec true i m) | | done]. intros ? s' (T & K' & Dd & _ & E & Tr). simpl in *.
  split; [|done]. split; [|by rewrite Dd | rewrite E; by eapply taken_back_tracks].
  rewrite E, ledger_app, L, T, K'. simpl. by rewrite bool_decide_eq_true_2.
Qed.

Lemma guarded_ok h m s : inner h m s -> fine h (guarded m) s.
Proof.
  unfold inner, fine, guarded, wp. destruct (m s) as [[p|e] s'] eqn:E; [done|]. intros B.
  pose proof (drop_ok h s' B) as H. unfold wp, bind in *. destruct (drop_mark s') as [[[]|] s1]; [|done].
  destruct H as (B1 & K1 & _). pose proof (route_release_ok h s1 B1) as H. unfold wp in H.
  destruct (release_token s1) as [[[]|] s2]; [|done]. destruct H as (B2 & T2 & K2 & _). simpl.
  split; [done|]. split; [done | congruence].
Qed.

(** *** Finalising *)

Definition final_ok (f : Finalizing) : Prop := justified (f_gateway f) /\ placement_ok (f_placement f).

Lemma finish_ok h f s : booked h s -> justified (f_gateway f) -> inner h (finish cfg f) s.
Proof.
  intros B J. assert (R : forall s', booked h s' -> good h (Returned (name (f_gateway f))) s') by (intros; split; [done | by exists (f_gateway f)]).
  unfold finish, inner. destruct (cfg_event_bus cfg); [|by apply R]. destruct (selection_tier (f_trace f)); [|done]. rewrite wp_bind.
  eapply wp_mono; [apply (quiet_tell true); done | | done]. intros ? s' S. apply R. exact (booked_same true _ _ _ B S).
Qed.

Lemma start_load_ok h f s : booked h s -> final_ok f -> no_eviction f \/ may_load f -> inner h (start_load cfg f) s.
Proof.
  intros B [J P] N. unfold start_load. destruct (cfg_load_orchestrator cfg); [|by apply finish_ok].
  unfold inner, wp, bind, tell, writes, ret. simpl. split; [|done]. by eapply (booked_step h s).
Qed.

Lemma enter_retry_ok h caller p mode k cap d s : clean h s -> placement_ok p -> caller_ok caller ->
  fine h (enter_retry cfg req caller p mode k cap d) s.
Proof. intros [[L D R] I] P Hc. unfold enter_retry, fine, wp, bind, get, reads, ret. simpl. by split. Qed.

Lemma requeue_ok h p mode r k cap s : booked h s -> own_mark s = None -> placement_ok p -> inner h (requeue cfg req p mode r k cap) s.
Proof.
  intros B Km P. unfold requeue, inner. rewrite wp_bind.
  eapply wp_mono; [apply (route_release_ok h s B) | | done]. intros ? s1 (B1 & T1 & K1 & D1). cbv beta.
  rewrite wp_bind. unfold reads, wp at 1. set (charge := match mode with cooldown_blocked => false | _ => true end).
  destruct (charge && _) eqn:Ec; [done|].
  rewrite wp_bind. unfold wp at 1.
  assert (Hgo : forall s2, clean h s2 -> wp (enter_retry cfg req (FromRequeue r) p mode k cap match k with Some _ => false | None => true end)
            (good h) (fun _ => booked h) s2) by (intros; by apply fine_inner, enter_retry_ok).
  destruct charge; [|simpl; apply Hgo; split; [done | split; [done | congruence]]].
  simpl in Ec. apply Z.leb_gt in Ec. unfold set_depth, writes. apply Hgo. simpl.
  destruct B1 as [L1 [D1a D1b] R1]. split; [|split; [done | simpl; congruence]]. split; [done| |done]. unfold depth_ok. simpl. lia.
Qed.

Lemma evict_then_load_ok h f s : booked h s -> final_ok f -> is_Some (selection_tier (f_trace f)) \/ may_load f ->
  inner h (evict_then_load cfg req f) s.
Proof.
  intros B J Hl. unfold evict_then_load.
  assert (Hno : selection_tier (f_trace f) <> Some T2_FEASIBLE_EVICT -> no_eviction f \/ may_load f).
  { intros Ht. destruct Hl as [[t Et]|?]; [left; exists t; split; [done | left; congruence] | by right]. }
  destruct (selection_tier (f_trace f)) as [[]|] eqn:Et; try (apply start_load_ok; [done | done | by apply Hno]).
  unfold inner. apply (wp_calm true _ _ (booked h)); [apply quiet_reads | intros; by eapply booked_same | done |]. intros w s1 B1.
  apply (wp_calm true _ _ (booked h)); [destruct (w_pool w); [apply calm_pause_all | apply quiet_ret] | intros; by eapply booked_same | done |].
  intros ? s2 B2. rewrite wp_bind. eapply wp_mono; [apply (start_eviction_spec f s2) | | done].
  intros r s3 [S3 Hr]. assert (B3 : booked h s3) by (by eapply booked_same).
  destruct r as [|reason retry victim|marked]; [| | by split].
  { apply start_load_ok; [done | done |]. left. exists T2_FEASIBLE_EVICT. by split; [|right]. }
  case_bool_decide; [|done]. rewrite wp_bind. eapply wp_mono; [apply (drop_ok h s3 B3) | | done].
  intros ? s4 (B4 & K4 & _). apply requeue_ok; [done | done | apply J].
Qed.

Lemma finalize_ok h f s : booked h s -> own_mark s = None -> final_ok f -> is_Some (selection_tier (f_trace f)) \/ may_load f ->
  fine h (finalize cfg req f) s.
Proof.
  intros B Km J Hl. unfold finalize, fine. rewrite wp_bind.
  apply (wp_mono _ (fun b s1 => booked h (mkSt (world s1) (token s1) (if b : bool then Some (name (f_gateway f), model) else None)
                                            (requeue_depth s1) (effects s1))) _ (fun _ _ => False)); [| |done].
  { destruct (mmem _ _); [by destruct B; split; simpl; rewrite <- ?Km|].
    eapply wp_mono; [apply mark_loading_spec | | done]. intros [] s1; [|intros ->; by destruct B; split; simpl; rewrite <- ?Km].
    intros (T & K1 & D1 & _ & E & Tr). destruct B as [L D R]. split; simpl; [|by rewrite D1 | rewrite E; by eapply taken_back_tracks].
    rewrite E, ledger_app, L, Km, T. done. }
  intros b s1 B1. rewrite wp_bind. unfold set_mark, writes, wp at 1. by apply guarded_ok, evict_then_load_ok.
Qed.

(** *** Admission *)

Lemma admitted_ok h a t s : clean h s -> picked (a_gateway a) (a_trace a) -> cands (a_gateways_for_routing a) ->
  placement_ok (a_placement a) -> allowed_ok (a_gateway a) (a_gateways_for_routing a) (a_allowed a) ->
  t_gateway_id t ∈ a_allowed a -> fine h (admitted cfg req a t) s.
Proof.
  intros [B [T Km]] (J & _ & Ht) [U S] P A Hin. unfold admitted, fine. rewrite !wp_bind. unfold set_token, tell, writes, wp at 1. simpl.
  rewrite wp_bind. unfold wp at 1. apply finalize_ok; [| done | | by left].
  - eapply (booked_step h s); [done..|]. simpl. by rewrite T.
  - split; [|done]. simpl. case_bool_decide as En; [done|]. destruct (List.find _ _) as [g|] eqn:E; [|done]. simpl.
    pose proof E as E'. apply find_some in E' as [Hg En']. apply bool_decide_eq_true in En'.
    split; [rewrite Forall_forall in S; apply S; by apply list_elem_of_In|].
    destruct (A _ Hin) as [?|[Hf|(g' & Hin' & Hn & Hw)]]; [congruence | left; by rewrite En' | right; left].
    rewrite (find_unique _ g' _ U Hin' Hn) in E. by injection E as ->.
Qed.

Lemma allow_set_ok g t gs o : trace_ok Found t ->
  match o with Some l => allowed_ok g gs l | None => True end -> allowed_ok g gs (allow_set req g gs t o).
Proof.
  intros T Ho. unfold allow_set. destruct o as [l|]; [done|]. destruct (model_sticky req); [by intros n ->%list_elem_of_singleton; left|].
  destruct (mmem model (loaded_models g)) eqn:E; simpl; intros n.
  - rewrite elem_of_remove_dups, list_elem_of_fmap. intros (g' & -> & [Hin Hw]%elem_of_lfilter). right. right. by exists g'.
  - unfold non_sticky_cold_allow_set. rewrite elem_of_remove_dups, elem_of_cons, elem_of_app, !list_elem_of_fmap.
    intros [->|[(g' & -> & [Hin Hw]%elem_of_lfilter)|(c & -> & [Hin Ht]%elem_of_lfilter)]]; [by left | right; right; by exists g' | right; left].
    apply T. exists c. split; [done|]. split; [done|]. apply bool_decide_eq_true in Ht. apply is_feasible_spec. by left.
Qed.

Lemma acquire_admission_ok h entry p g t gs o s : clean h s -> placement_ok p -> picked g t -> cands gs ->
  match o with Some l => allowed_ok g gs l /\ model_sticky req = false | None => True end ->
  fine h (acquire_admission cfg req entry p g t gs o) s.
Proof.
  intros C P J U Ho. unfold acquire_admission, fine.
  apply (wp_calm true _ _ (clean h)); [| intros; by eapply clean_same | done |].
  { destruct (negb _); [by apply quiet_set_world | apply quiet_ret]. }
  intros ? s1 C1. rewrite wp_bind.
  apply (wp_mono _ (fun g' s' => clean h s' /\ picked g' t /\
           match o with Some l => allowed_ok g' gs l | None => True end) _ (fun _ _ => False)); [| | done].
  - destruct (if model_sticky req && _ then _ else None) as [wg|] eqn:Ew.
    + destruct (model_sticky req) eqn:Es; [|done]. destruct (negb _); simpl in Ew; [|done].
      unfold already_warm in Ew. apply find_some in Ew as [Hin Hw]. apply andb_true_iff in Hw as [_ Hw].
      rewrite wp_bind. unfold get, reads, wp at 1. eapply (wp_calm true _ _ (clean h)); [by apply quiet_set_world | intros; by eapply clean_same | done|].
      intros ? s2 C2. split; [done|]. split; [|destruct o; [by destruct Ho | done]].
      destruct J as (_ & T & Ht). split; [|done]. destruct U as [_ S]. rewrite Forall_forall in S.
      split; [apply S; by apply list_elem_of_In|]. apply orb_true_iff in Hw as [Hw|Hw]; [by right; left | by right; right].
    + split; [done|]. split; [done|]. by destruct o; [destruct Ho|].
  - intros g' s2 (C2 & J2 & A2). apply (wp_calm true _ _ (clean h)); [apply quiet_reads | intros; by eapply clean_same | done |].
    intros w s3 C3. destruct (w_pool w).
    + destruct C3 as [B3 I3]. split; [done|]. split; [done|]. split; [done|]. split; [done|]. split; [done|].
      apply allow_set_ok; [apply J2 | done].
    + destruct C3 as [B3 [_ K3]]. destruct J2 as (J2 & _ & Ht). apply finalize_ok; [done | done | done | by left].
Qed.

(** *** Candidates *)

Lemma candidates_cands fgs gs : federated_gateways_to_routing_candidates fgs = Ok gs ->
  NoDup (map f_gateway_id fgs) -> Forall Known fgs -> cands gs.
Proof.
  intros H Hnd Kn. split.
  - rewrite (candidate_names _ _ H). eapply sublist_NoDup; [exact Hnd|]. apply sublist_map, lfilter_sublist.
  - apply candidates_snapshots in H. rewrite Forall_forall. intros g Hg. apply list_elem_of_lookup in Hg as [i Hi].
    destruct (Forall2_lookup_r _ _ _ _ _ H Hi) as (fg & Hfg & S). exists fg. split; [|done].
    apply list_elem_of_lookup_2, elem_of_lfilter in Hfg as [Hfg _]. rewrite Forall_forall in Kn. by apply Kn.
Qed.

Lemma cands_filter f gs : cands gs -> cands (List.filter f gs).
Proof.
  intros [U S]. split; [eapply sublist_NoDup; [exact U|]; apply sublist_map, lfilter_sublist|].
  rewrite Forall_forall in *. intros g [Hg _]%elem_of_lfilter. by apply S.
Qed.

Definition world_ok (w : World) : Prop := NoDup (ids w).

Lemma healthy_ok w : world_ok w -> knows w -> NoDup (map f_gateway_id (healthy_of w)) /\ Forall Known (healthy_of w).
Proof.
  intros H [Kn _]. split; [eapply sublist_NoDup; [exact H|]; apply sublist_map, lfilter_sublist|].
  rewrite Forall_forall in *. intros fg [Hfg _]%elem_of_lfilter. by apply Kn.
Qed.

(** *** Selections *)

Definition ready h (s : St) : Prop := clean h s /\ world_ok (world s) /\ knows (world s).

Lemma ready_same h s s' : ready h s -> same true s s' -> ready h s'.
Proof.
  intros (C & W & Kn) S. split; [by eapply clean_same|]. destruct S as (_ & _ & _ & E & G & _). specialize (G eq_refl).
  unfold seat in E. injection E as E1 E2 E3. split; [by unfold world_ok; rewrite E1|]. unfold knows in *. by rewrite G, E2, E3.
Qed.

Lemma fresh_ok s : world_ok (world s) -> knows (world s) ->
  wp (fresh_candidates req) (fun gs s' => s' = s /\ cands gs) (fun _ s' => s' = s) s.
Proof.
  intros W Kn. unfold fresh_candidates. rewrite wp_bind. unfold get, reads, wp at 1. rewrite wp_bind.
  apply wp_lift; [|done]. intros gs E. split; [done|]. apply cands_filter. eapply candidates_cands; [exact E | done | apply Kn].
Qed.

Lemma select_among_ok gs p s : knows (world s) -> placement_ok p -> Forall snap gs ->
  wp (select_among req gs p)
    (fun gt s' => same true s s' /\ match gt.1 with Some g => picked g gt.2 | None => selection_tier gt.2 = None end)
    (fun _ s' => s' = s) s.
Proof.
  intros Kn P S. unfold select_among. rewrite wp_bind. unfold get, reads, wp at 1. rewrite wp_bind. apply wp_lift; [|done].
  intros [[g t] tr] E. eapply select_picked in E; [|done..]. rewrite wp_bind.
  eapply wp_mono; [by apply (quiet_set_world true) | | done]. intros ? s' Hs. by split.
Qed.


(** *** Rejection and the waits *)

Lemma ready_clean h s : ready h s -> clean h s.
Proof. by intros []. Qed.

#[local] Hint Resolve ready_clean : core.

Lemma clean_failed h e s : clean h s -> good h (Failed e) s.
Proof. done. Qed.

Lemma not_admitted_ok h a e s : clean h s -> fine h (not_admitted req a e) s.
Proof.
  intros C. unfold not_admitted. destruct e; try apply C;
    (unfold fine; apply (wp_calm true _ _ (clean h)); [apply quiet_reads | intros; by eapply clean_same | done |];
     intros w s1 C1; apply (wp_calm true _ _ (clean h)); [by apply quiet_set_world | intros; by eapply clean_same | done |];
     intros ? s2 C2; exact C2).
Qed.

Lemma reject_ok h sel t s : clean h s -> selection_tier (s_trace sel) = None -> placement_ok (s_placement sel) ->
  fine h (reject cfg req sel t) s.
Proof. intros C Ht P. unfold reject. destruct (existsb _ _); [by apply enter_retry_ok | apply C]. Qed.

Lemma proceed_ok h sel g t s : clean h s -> cands (s_gateways_for_routing sel) -> placement_ok (s_placement sel) ->
  match g with
  | Some g => picked g t /\ match s_override sel with
                            | Some l => allowed_ok g (s_gateways_for_routing sel) l /\ model_sticky req = false
                            | None => True end
  | None => selection_tier (s_trace sel) = None
  end -> fine h (proceed cfg req sel g t) s.
Proof.
  intros C U P Hg. unfold proceed. destruct g as [g|]; [|by apply reject_ok]. destruct Hg. by apply acquire_admission_ok.
Qed.

Lemma retry_failed_ok h r t s : clean h s -> fine h (retry_failed req r t) s.
Proof. intros C. unfold retry_failed. destruct (rw_caller r); apply C. Qed.

(** Recovered requests load whatever their trace says. *)
Definition recovers (r : RetryWaiting) : Prop :=
  match rw_caller r with FromRejection _ => forall f, may_load f | FromRequeue _ => True end.

Lemma retry_succeeded_ok h r g t s : ready h s -> picked g t -> placement_ok (rw_placement r) -> caller_ok (rw_caller r) ->
  recovers r -> fine h (retry_succeeded cfg req r g t) s.
Proof.
  intros [C W] J P Hr Hl. unfold retry_succeeded, recovers, caller_ok in *. destruct (rw_caller r) as [sel|reason].
  - apply finalize_ok; [apply C | apply C | split; [apply J | apply Hr] | by right].
  - unfold fine. rewrite wp_bind. eapply wp_mono; [by apply fresh_ok; apply W | |]; cbv beta.
    + intros gs s' [-> U]. by apply acquire_admission_ok.
    + intros e s' ->. exact C.
Qed.

Lemma retry_round_ok h r s : ready h s -> placement_ok (rw_placement r) -> caller_ok (rw_caller r) -> recovers r ->
  fine h (retry_round cfg req r) s.
Proof.
  intros R P Hr Hl. unfold retry_round, fine.
  apply (wp_calm true _ _ (ready h)); [apply quiet_reads | intros; by eapply ready_same | done |]. intros w s1 R1.
  destruct (fle _ _); [by apply retry_failed_ok, ready_clean|].
  apply (wp_calm true _ _ (ready h)); [apply calm_hold_of | intros; by eapply ready_same | done |]. intros hold s2 R2.
  assert (Hwait : forall r' s', ready h s' -> rw_caller r' = rw_caller r -> rw_placement r' = rw_placement r ->
            fine h (ret (RetryWait r')) s').
  { intros r' s' [[B I] _] Er Ep. split; [done|]. split; [done|]. by rewrite Er, Ep. }
  destruct (flt 0 hold); [by apply Hwait|]. destruct (rw_defer r); [by apply Hwait|].
  rewrite wp_bind. eapply wp_mono; [by apply fresh_ok; apply R2 | |]; cbv beta; [|intros e s' ->; by apply clean_failed, ready_clean].
  intros gs s' [-> U]. rewrite wp_bind. eapply wp_mono; [by apply select_among_ok; [apply R2 | done | apply U] | |]; cbv beta;
    [|intros e s' ->; by apply clean_failed, ready_clean].
  intros [[g|] t] s3 [S3 Hg]; simpl in Hg.
  - apply retry_succeeded_ok; [by eapply ready_same | done..].
  - assert (R3 : ready h s3) by (by eapply ready_same).
    apply (wp_calm true _ _ (ready h)); [apply calm_hold_of | intros; by eapply ready_same | done |]. intros hold' s4 R4.
    destruct (negb _); [by apply retry_failed_ok, ready_clean|].
    apply (wp_calm true _ _ (ready h)); [apply quiet_reads | intros; by eapply ready_same | done |]. intros w' s5 R5.
    apply (wp_calm true _ _ (ready h)); [apply calm_drain | intros; by eapply ready_same | done |]. intros ? s6 R6.
    by apply Hwait.
Qed.

Lemma leave_pre_route_ok h sel g t s : clean h s -> selection_ok sel -> s_gateway sel = None ->
  match g with Some g => picked g t | None => selection_tier t = None end ->
  fine h (leave_pre_route cfg req sel g t) s.
Proof.
  intros C (U & P & Hs) Hn Hg. rewrite Hn in Hs. destruct Hs as [_ Ho]. unfold leave_pre_route, fine.
  apply (wp_calm true _ _ (clean h)); [by apply quiet_tell | intros; by eapply clean_same | done |]. intros ? s1 C1.
  apply proceed_ok; [done..|]. simpl. rewrite Ho. by destruct g.
Qed.

Lemma pre_route_round_ok h sel start t s : ready h s -> selection_ok sel -> s_gateway sel = None ->
  fine h (pre_route_round cfg req sel start t) s.
Proof.
  intros R Hs Hn. unfold pre_route_round, fine.
  apply (wp_calm true _ _ (ready h)); [apply quiet_reads | intros; by eapply ready_same | done |]. intros w s1 R1.
  pose proof Hs as (U0 & P & Ht). rewrite Hn in Ht. destruct Ht as [Htier Ho].
  destruct (fle _ _); [apply leave_pre_route_ok; [by apply ready_clean | done..]|].
  rewrite wp_bind.
  apply (wp_mono _ (fun gt s' => ready h s' /\ match gt.1 with Some g => picked g gt.2 | None => selection_tier gt.2 = None end)
           _ (fun _ s' => clean h s')).
  - pose proof (fresh_ok s1 (proj1 (proj2 R1)) (proj2 (proj2 R1))) as Hf. unfold in_pre_route, wp, bind in *.
    assert (Hend : clean h (snd (tell (Demand false) s1))).
    { eapply (clean_same true); [apply ready_clean, R1|]. pose proof (quiet_tell true (Demand false) eq_refl (fun _ _ => eq_refl) s1) as H.
      exact H. }
    destruct (fresh_candidates req s1) as [[gs|e] s2]; [|by subst s2].
    destruct Hf as [-> U]. pose proof (select_among_ok gs (s_placement sel) s1 (proj2 (proj2 R1)) P (proj2 U)) as Hsel. unfold wp in Hsel.
    destruct (select_among req gs (s_placement sel) s1) as [[[g tr]|e] s3]; [|by subst s3].
    destruct Hsel as [S3 Hg]. split; [by eapply ready_same | done].
  - intros [[g|] tr] s2 [R2 Hg]; simpl in Hg.
    + apply leave_pre_route_ok; [by apply ready_clean | done..].
    + destruct (extract_retryable_constraint tr).
      * destruct R2 as [[B I] _]. split; [done|]. split; [done|]. split; [|done]. split; [done|]. split; [done|]. simpl. by rewrite Hn.
      * apply leave_pre_route_ok; [by apply ready_clean | done..].
  - intros e s2 C2. exact C2.
Qed.

Lemma after_selection_ok h sel s : ready h s -> selection_ok sel -> fine h (after_selection cfg req sel) s.
Proof.
  intros R Hs. pose proof Hs as (U & P & H). unfold after_selection. destruct (s_gateway sel) as [g|] eqn:Eg.
  - apply proceed_ok; [by apply ready_clean | done..].
  - destruct (extract_retryable_constraint _).
    + unfold fine. apply (wp_calm true _ _ (ready h)); [apply quiet_reads | intros; by eapply ready_same | done |]. intros w s1 R1.
      apply (wp_calm true _ _ (ready h)); [by apply quiet_tell | intros; by eapply ready_same | done |]. intros ? s2 R2.
      by apply pre_route_round_ok.
    + apply proceed_ok; [by apply ready_clean | done | done | by destruct H].
Qed.

(** *** The first selection *)

Lemma overflowed_ok h sel og ot s : ready h s -> selection_ok sel -> picked og ot ->
  model_sticky req = false -> fine h (overflowed cfg req sel og ot) s.
Proof.
  intros R (U & P & _) J Hns. apply after_selection_ok; [done|]. split; [done|]. split; [done|]. simpl. split; [done|]. split; [|done].
  intros n. rewrite elem_of_remove_dups, elem_of_app, list_elem_of_singleton. unfold warm_names.
  rewrite list_elem_of_fmap. intros [(g' & -> & [Hin Hw]%elem_of_lfilter)| ->]; [|by left].
  right. right. by exists g'.
Qed.

Lemma overflow_ok h sel s : ready h s -> selection_ok sel -> s_override sel = None ->
  fine h (apply_non_sticky_overflow cfg req sel) s.
Proof.
  intros R Hs Ho. unfold apply_non_sticky_overflow, fine. rewrite wp_bind. unfold get, reads, wp at 1.
  destruct (s_gateway sel) as [g|] eqn:Eg; [|by apply after_selection_ok].
  destruct (w_pool (world s)) as [p|]; [|by apply after_selection_ok].
  destruct (model_sticky req) eqn:Es; simpl; [by apply after_selection_ok|].
  destruct (non_sticky_overflow_enabled _); simpl; [|by apply after_selection_ok].
  destruct (CapacityPool.get_slot_info (name g, routing_key model) p) as [[av infl] cap]. destruct (negb _); [by apply after_selection_ok|].
  rewrite wp_bind. apply wp_lift; [|intros; by apply clean_failed, ready_clean]. intros [[og ot] tr] E.
  assert (J : match og with Some og => picked og ot | None => True end).
  { destruct R as (_ & _ & Kn). destruct Hs as ([_ S] & P & _). unfold select_excluding in E.
    destruct (List.filter _ (s_gateways_for_routing sel)) as [|g0 gs0] eqn:Ef; [by injection E as <- <- <-|]. rewrite <- Ef in E.
    eapply select_picked in E; [by destruct og | done | done | exact Kn | exact P |].
    rewrite Forall_forall in *. intros x [Hx _]%elem_of_lfilter. by apply S. }
  apply (wp_calm true _ _ (ready h)); [by apply quiet_set_world | intros; by eapply ready_same | done |]. intros ? s2 R2.
  destruct og as [og|]; [|by apply after_selection_ok].
  destruct (cfg_load_orchestrator cfg && _ && _) eqn:El; [|by apply overflowed_ok].
  unfold wp, bind, tell, writes, ret. simpl. destruct R2 as [[B I] W]. split; [by eapply (booked_step h s2)|].
  split; [done|]. split; [done|]. split; [by rewrite Eg|]. done.
Qed.

Lemma wp_return {A B : Type} (x : M A) (k : A -> M B) (P : A -> Prop) h (Q : B -> St -> Prop) s :
  wp x (fun a s' => s' = s /\ P a) (fun _ s' => s' = s) s -> clean h s ->
  (forall a, P a -> wp (k a) Q (fun e => good h (Failed e)) s) -> wp (bind x k) Q (fun e => good h (Failed e)) s.
Proof.
  intros Hx C Hk. rewrite wp_bind. eapply wp_mono; [exact Hx | |]; cbv beta.
  - intros a s' [-> HP]. by apply Hk.
  - intros e s' ->. exact C.
Qed.

(** Gateways as listed by the manager. *)
Definition listed (fgs : list FederatedGateway) : Prop := NoDup (map f_gateway_id fgs) /\ Forall Known fgs.

Lemma healthy_listed h s : ready h s -> listed (healthy_of (world s)).
Proof. intros (_ & W & Kn). by apply healthy_ok. Qed.

#[local] Hint Resolve healthy_listed : core.

Lemma select_initially_ok h fgs s : ready h s -> listed fgs -> fine h (select_initially cfg req fgs) s.
Proof.
  intros R [U Kn]. unfold select_initially, fine. pose proof (proj1 R) as C.
  apply (wp_return _ _ cands h); [|done|].
  { apply wp_lift; [|done]. intros gs E. split; [done|]. eapply candidates_cands; [exact E | |].
    - eapply sublist_NoDup; [exact U|]. apply sublist_map, lfilter_sublist.
    - rewrite Forall_forall in *. intros x [Hx _]%elem_of_lfilter. by apply Kn. }
  intros gs Ugs. apply (wp_return _ _ cands h); [|done|].
  { destruct (excluded_gateway_ids req); [done|]. destruct (existsb _ _); [|done].
    split; [done|]. by apply cands_filter. }
  intros gs' Ugs'. rewrite wp_bind. unfold get, reads, wp at 1. apply (wp_return _ _ cands h); [|done|].
  { destruct (map name _); [done|]. destruct (List.filter _ gs') eqn:Ef; [done|]. rewrite <- Ef. split; [done|]. by apply cands_filter. }
  intros gs'' Ugs''. assert (P : placement_ok (placement_for req fgs)) by (by exists fgs).
  rewrite wp_bind. eapply wp_mono; [by apply select_among_ok; [apply R | done | apply Ugs''] | |]; cbv beta; [|intros e s' ->; exact C].
  intros [[g|] tr] s' [S Hg]; (apply overflow_ok; [by eapply ready_same | split; [done|]; split; [done|] | done]); done.
Qed.

Lemma waiting_ok h all fgs start t s : ready h s -> listed fgs ->
  good h (WaitGrace all fgs start t) s /\ good h (WaitCatalog all fgs start t) s.
Proof. intros [[B I] W] [U Kn]. done. Qed.

Lemma catalog_round_ok h all fgs start t s : ready h s -> listed fgs -> fine h (catalog_round cfg req all fgs start t) s.
Proof.
  intros R U. unfold catalog_round, fine. rewrite wp_bind. unfold get, reads, wp at 1.
  destruct (fle _ _); [by apply clean_failed, ready_clean|].
  destruct (has_model _ (healthy_of _)); [|by apply waiting_ok].
  destruct (has_model _ (w_gateways _)); [|by apply clean_failed, ready_clean]. apply select_initially_ok; [done | eauto].
Qed.

Lemma check_catalog_ok h all fgs s : ready h s -> listed fgs -> fine h (check_catalog cfg req all fgs) s.
Proof.
  intros R U. unfold check_catalog, fine. rewrite wp_bind. unfold get, reads, wp at 1.
  destruct fgs as [|fg fgs]; [by apply select_initially_ok|]. destruct (has_model _ all); [by apply select_initially_ok|].
  destruct (flt 0 _); [by apply catalog_round_ok | by apply clean_failed, ready_clean].
Qed.

Lemma grace_round_ok h all fgs start t s : ready h s -> listed fgs -> fine h (grace_round cfg req all fgs start t) s.
Proof.
  intros R U. unfold grace_round, fine. rewrite wp_bind. unfold get, reads, wp at 1.
  destruct (fle _ _); [by apply check_catalog_ok|]. destruct (has_model _ _); [|by apply waiting_ok].
  apply check_catalog_ok; [done | eauto].
Qed.

Lemma check_model_ok h all fgs s : ready h s -> listed fgs -> fine h (check_model cfg req all fgs) s.
Proof.
  intros R U. unfold check_model, fine. rewrite wp_bind. unfold get, reads, wp at 1.
  destruct (has_model _ fgs); [by apply check_catalog_ok|]. destruct (existsb _ _); [by apply grace_round_ok | by apply check_catalog_ok].
Qed.

Lemma after_startup_ok h all s : ready h s -> fine h (after_startup cfg req all) s.
Proof.
  intros R. unfold after_startup, fine. rewrite wp_bind. unfold get, reads, wp at 1.
  pose proof (healthy_listed _ _ R) as U. destruct (healthy_of _); [by apply clean_failed, ready_clean | by apply check_model_ok].
Qed.

Lemma startup_round_ok h all start t s : ready h s -> fine h (startup_round cfg req all start t) s.
Proof.
  intros R. unfold startup_round, fine. rewrite wp_bind. unfold get, reads, wp at 1.
  destruct (fle _ _); [by apply after_startup_ok|]. destruct (healthy_of _); [|by apply after_startup_ok].
  destruct R as [[B I] W]. by split.
Qed.

Lemma route_initial_ok h s : ready h s -> fine h (run_initial_selection cfg req) s.
Proof.
  intros R. unfold run_initial_selection, fine. rewrite wp_bind. unfold get, reads, wp at 1.
  pose proof (healthy_listed _ _ R) as U. destruct (healthy_of _); [|by apply check_model_ok].
  destruct (flt 0 _); [by apply startup_round_ok | by apply clean_failed, ready_clean].
Qed.





End Facts.

(** ** Runs *)

Section Runs.
Context (cfg : Config) (req : Request).

(** The pool grants a token of an allowed gateway. *)
Definition answer_ok (p : Phase) (a : Answer) : Prop :=
  match p, a with Acquiring ad _, TokenGranted t => t_gateway_id t ∈ a_allowed ad | _, _ => True end.

(** [reach s fx n]: a run gets to [s] with the effects [fx] after [n] failed
    evictions and loads; worlds and answers are those of the environment. *)
Inductive reach : Session -> list Effect -> nat -> Prop :=
  | reach_start w s w' fx : world_ok w -> start cfg req w = (s, w', fx) -> reach s fx 0
  | reach_resume s fx n a w s' w' fx' :
      reach s fx n -> world_ok w -> answer_ok (phase s) a ->
      resume cfg req a w s = Some (s', w', fx') ->
      reach s' (fx ++ fx') (n + match phase s, a with Evicting _ _, EvictionDone false | Loading _, LoadFailed true => 1 | _, _ => 0 end).

Definition any_load (f : Finalizing) : Prop := True.

(** A load that follows an eviction. *)
Definition just_evicted (p : Phase) (a : Answer) (f : Finalizing) : Prop :=
  exists marked, p = Evicting f marked /\ a = EvictionDone true.

(** A request that was rejected waits for another selection. *)
Definition recovering (p : Phase) : Prop := exists r sel, p = RetryWait r /\ rw_caller r = FromRejection sel.

Definition free_load (p : Phase) (a : Answer) (f : Finalizing) : Prop := recovering p \/ just_evicted p a f.

Section Met.
Context (Known : FederatedGateway -> Prop) (Found : string -> Prop).

Definition session_ok (lo : Z) (may_load : Finalizing -> Prop) (s : Session) : Prop :=
  phase_ok req Known Found may_load (phase s) (ss_token s) (ss_mark s) /\ depth_ok cfg lo (ss_depth s).

Lemma close_fine lo ev h m s0 : fine cfg req Known Found lo ev h m s0 ->
  let '(s, w, fx) := close (m s0) in session_ok lo ev s /\ ledger h fx = Some (ss_token s, ss_mark s) /\ taken_back fx w.
Proof. unfold fine, wp, close. destruct (m s0) as [[p|e] s]; intros [[L D R] P]; (split; [split|]; done). Qed.

(** What runs at a cancellation. *)
Lemma cancelled_spec p s : wp (cancelled p) (fun _ _ => False) (fun _ s' => same false s s') s.
Proof.
  unfold cancelled. rewrite wp_bind.
  assert (Hc : calm false (match p with
                           | PreRoute _ _ _ => tell (Demand false)
                           | Evicting f marked => clear_all_marks (name (f_gateway f)) marked
                           | _ => ret ()
                           end)) by (destruct p; first [apply quiet_ret | by apply quiet_tell | apply calm_clear_all]).
  eapply wp_mono; [apply Hc | intros ? s' S; exact S | done].
Qed.

Lemma cancel_ok lo h ev p s : booked cfg lo h s -> in_finalize p = true \/ idle (token s) (own_mark s) ->
  fine cfg req Known Found lo ev h (if in_finalize p then guarded (cancelled p) else cancelled p) s.
Proof.
  intros B Hi. destruct (in_finalize p).
  - apply guarded_ok. eapply wp_mono; [apply cancelled_spec | done |]; cbv beta. intros e s' S. by eapply booked_same.
  - destruct Hi as [?|I]; [done|]. eapply wp_mono; [apply cancelled_spec | done |]; cbv beta. intros e s' S.
    by apply (clean_same cfg lo false h s).
Qed.

Lemma continue_ok p a m tok mark d w : world_ok w -> knows req Known Found w -> answer_ok p a ->
  phase_ok req Known Found any_load p tok mark -> depth_ok cfg d d -> continue cfg req p a = Some m ->
  fine cfg req Known Found d (free_load p a) (tok, mark) (if in_finalize p then guarded m else m) (mkSt w tok mark d []).
Proof.
  intros W Kn A P D E.
  assert (B : booked cfg d (tok, mark) (mkSt w tok mark d [])) by (by split).
  destruct p; destruct a; simpl in E; try discriminate; injection E as <-; simpl in P;
    try (apply cancel_ok; simpl; tauto); simpl;
    match goal with |- fine _ _ _ _ _ ?x _ _ _ => set (ev := x) end.
  all: try (assert (R : ready cfg req Known Found d (tok, mark) (mkSt w tok mark d [])) by (split; [split; [done | tauto] | done])).
  - by apply startup_round_ok.
  - apply grace_round_ok; [done | apply P].
  - apply catalog_round_ok; [done | apply P].
  - apply overflowed_ok; tauto.
  - apply after_selection_ok; tauto.
  - apply pre_route_round_ok; tauto.
  - destruct P as (I & J & U & P & Al). destruct entry; simpl; [|apply guarded_ok, fine_inner]; by apply admitted_ok; [split|..].
  - destruct P as (I & J & U & P & Al). destruct entry; simpl; [|apply guarded_ok, fine_inner]; apply not_admitted_ok; by split.
  - destruct P as (I & P & Hr). destruct (rw_caller r) eqn:Er.
    + apply retry_round_ok; [done | done | by rewrite Er |]. unfold recovers. rewrite Er. intros f. left. by exists r, sel.
    + apply guarded_ok, fine_inner, retry_round_ok; [done | done | by rewrite Er |]. unfold recovers. by rewrite Er.
  - apply guarded_ok. unfold evicted, inner. destruct ok.
    + apply start_load_ok; [done | done |]. right. right. by exists marked.
    + apply (wp_calm false _ _ (booked cfg d (tok, mark))); [apply calm_clear_all | intros; by eapply booked_same | done |]. intros ? s1 B1.
      rewrite wp_bind. eapply wp_mono; [apply (drop_ok cfg d _ s1 B1) | | done]. intros ? s2 (B2 & K2 & _). by apply requeue_ok; [| |apply P].
  - apply guarded_ok, finish_ok; [done | apply P].
  - apply guarded_ok. unfold load_refused, inner. destruct retryable; [|done].
    rewrite wp_bind. eapply wp_mono; [apply (drop_ok cfg d _ _ B) | | done]. intros ? s2 (B2 & K2 & _). by apply requeue_ok; [| |apply P].
Qed.

(** One answer. *)
Lemma route_resume_ok a w s s' w' fx : world_ok w -> knows req Known Found w -> answer_ok (phase s) a -> session_ok 0 any_load s ->
  resume cfg req a w s = Some (s', w', fx) ->
  session_ok (ss_depth s) (free_load (phase s) a) s' /\ ledger (ss_token s, ss_mark s) fx = Some (ss_token s', ss_mark s') /\ taken_back fx w'.
Proof.
  intros W Kn A [P D] E. unfold resume in E. destruct (continue cfg req (phase s) a) as [m|] eqn:Em; [|done].
  injection E as E. assert (D' : depth_ok cfg (ss_depth s) (ss_depth s)) by (destruct D; split; lia).
  pose proof (close_fine _ _ _ _ _ (continue_ok _ _ _ _ _ _ _ W Kn A P D' Em)) as Hf. by rewrite E in Hf.
Qed.

Lemma route_start_ok w s w' fx : world_ok w -> knows req Known Found w -> start cfg req w = (s, w', fx) ->
  session_ok 0 any_load s /\ ledger (None, None) fx = Some (ss_token s, ss_mark s) /\ taken_back fx w'.
Proof.
  intros W Kn E. unfold start in E.
  pose proof (close_fine 0 any_load (None, None) (run_initial_selection cfg req) (mkSt w None None 0 [])) as Hf.
  rewrite E in Hf. apply Hf, route_initial_ok. split; [|done]. split; [|done]. split; [done| |done]. split; simpl; lia.
Qed.

Lemma session_any lo ev s : 0 <= lo -> session_ok lo ev s -> session_ok 0 any_load s.
Proof.
  intros H [P [D1 D2]]. split; [|split; lia]. eapply phase_mono; [| | |exact P]; done.
Qed.

End Met.

Lemma quiet_fresh k : quiet k (fresh_candidates req).
Proof.
  unfold fresh_candidates. apply quiet_bind; [apply calm_quiet, quiet_reads|]. intros w.
  apply quiet_bind; [apply quiet_lift | intros; apply calm_quiet, quiet_ret].
Qed.

Lemma quiet_select k gs p : quiet k (select_among req gs p).
Proof.
  unfold select_among. apply quiet_bind; [apply calm_quiet, quiet_reads|]. intros w. apply quiet_bind; [apply quiet_lift|].
  intros [[g t] tr]. apply calm_quiet, calm_bind; [by apply quiet_set_world | intros; apply quiet_ret].
Qed.

Lemma knows_all w : knows req (fun _ => True) (fun _ => True) w.
Proof. split; [by apply Forall_forall | done]. Qed.

Lemma reach_ok s fx n : reach s fx n ->
  session_ok (fun _ => True) (fun _ => True) 0 any_load s /\ ledger (None, None) fx = Some (ss_token s, ss_mark s).
Proof.
  induction 1 as [w s w' fx W E|s fx n a w s' w' fx' H IH W A E].
  - destruct (route_start_ok _ _ w s w' fx W (knows_all w) E) as (? & ? & _). done.
  - destruct IH as [Hs L]. destruct (route_resume_ok _ _ _ _ _ _ _ _ W (knows_all w) A Hs E) as (Hs' & L' & _).
    split; [|by rewrite ledger_app, L]. eapply session_any; [|exact Hs']. by destruct Hs as [_ [? _]].
Qed.

(** The stretches of a run: the first, and the one after an answer. *)
Inductive stretch : list Effect -> World -> Prop :=
  | stretch_start w s w' fx : world_ok w -> start cfg req w = (s, w', fx) -> stretch fx w'
  | stretch_resume s fx n a w s' w' fx' :
      reach s fx n -> world_ok w -> answer_ok (phase s) a -> resume cfg req a w s = Some (s', w', fx') -> stretch fx' w'.

(** *** What a request has met *)

(** A run and the worlds of its stretches. *)
Inductive travels : list World -> Session -> Prop :=
  | travels_start w s w' fx : world_ok w -> start cfg req w = (s, w', fx) -> travels [w] s
  | travels_resume ws s a w s' w' fx :
      travels ws s -> world_ok w -> answer_ok (phase s) a -> resume cfg req a w s = Some (s', w', fx) -> travels (w :: ws) s'.

Definition met (ws : list World) (fg : FederatedGateway) : Prop := exists w, w ∈ ws /\ fg ∈ w_gateways w.

(** The engine of one of the worlds found a snapshot of the gateway feasible. *)
Definition found (ws : list World) (n : string) : Prop :=
  exists w p g, w ∈ ws /\ placement_ok req (met ws) p /\ snap (met ws) g /\ feasible_in (w_engine w) (w_env w) p g /\ name g = n.

Lemma met_more w ws fg : met ws fg -> met (w :: ws) fg.
Proof. intros (w0 & H & ?). exists w0. split; [by right | done]. Qed.

Lemma found_more w ws n : found ws n -> found (w :: ws) n.
Proof.
  intros (w0 & p & g & H & P & S & F & E). exists w0, p, g. split; [by right|].
  split; [eapply placement_mono; [apply met_more | done]|]. split; [eapply snap_mono; [apply met_more | done] | done].
Qed.

Lemma knows_met w ws : knows req (met (w :: ws)) (found (w :: ws)) w.
Proof.
  split; [apply Forall_forall; intros fg H; exists w; split; [by left | done]|].
  intros p g P S F. exists w, p, g. split; [by left | done].
Qed.

Lemma travels_ok ws s : travels ws s -> session_ok (met ws) (found ws) 0 any_load s.
Proof.
  induction 1 as [w s w' fx W E|ws s a w s' w' fx H IH W A E].
  - by destruct (route_start_ok _ _ w s w' fx W (knows_met w []) E) as (? & _).
  - assert (Hs : session_ok (met (w :: ws)) (found (w :: ws)) 0 any_load s).
    { destruct IH as [P D]. split; [|done]. eapply phase_mono; [apply met_more | apply found_more | | exact P]. done. }
    destruct (route_resume_ok _ _ _ _ _ _ _ _ W (knows_met w ws) A Hs E) as (Hs' & _).
    eapply session_any; [|exact Hs']. by destruct Hs as [_ [? _]].
Qed.

(** *** Runs as functions *)

Definition answer_okb (p : Phase) (a : Answer) : bool :=
  match p, a with Acquiring ad _, TokenGranted t => bool_decide (t_gateway_id t ∈ a_allowed ad) | _, _ => true end.

Lemma answer_okb_ok p a : answer_okb p a = true -> answer_ok p a.
Proof. destruct p; try done. destruct a; try done. apply bool_decide_eq_true. Qed.

Definition failure (p : Phase) (a : Answer) : nat :=
  match p, a with Evicting _ _, EvictionDone false | Loading _, LoadFailed true => 1 | _, _ => 0 end.

(** The run in which the environment answers [l]. *)
Fixpoint play (s : Session) (fx : list Effect) (n : nat) (l : list (Answer * World)) : option (Session * list Effect * nat) :=
  match l with
  | [] => Some (s, fx, n)
  | (a, w) :: l' =>
      if bool_decide (NoDup (ids w)) && answer_okb (phase s) a then
        match resume cfg req a w s with
        | Some (s', _, fx') => play s' (fx ++ fx') (n + failure (phase s) a) l'
        | None => None
        end
      else None
  end.

Definition run (w : World) (l : list (Answer * World)) : option (Session * list Effect * nat) :=
  let '(s, _, fx) := start cfg req w in if bool_decide (NoDup (ids w)) then play s fx 0 l else None.

Lemma play_reach l s fx n s' fx' n' : reach s fx n -> play s fx n l = Some (s', fx', n') -> reach s' fx' n'.
Proof.
  revert s fx n. induction l as [|[a w] l IH]; intros s fx n H E; simpl in E; [by injection E as <- <- <-|].
  destruct (bool_decide_reflect (NoDup (ids w))) as [W|]; [|done].
  destruct (answer_okb (phase s) a) eqn:A; [|done]. simpl in E.
  destruct (resume cfg req a w s) as [[[s1 w1] fx1]|] eqn:R; [|done].
  apply (IH _ _ _ (reach_resume _ _ _ _ _ _ _ _ H W (answer_okb_ok _ _ A) R) E).
Qed.

Lemma run_reach w l s fx n : run w l = Some (s, fx, n) -> reach s fx n.
Proof.
  unfold run. destruct (start cfg req w) as [[s0 w0] fx0] eqn:E. case_bool_decide as W; [|done].
  apply play_reach. by eapply reach_start.
Qed.

Lemma play_travels l ws s fx n s' fx' n' : travels ws s -> play s fx n l = Some (s', fx', n') -> travels (rev (map snd l) ++ ws) s'.
Proof.
  revert ws s fx n. induction l as [|[a w] l IH]; intros ws s fx n H E; simpl in E; [by injection E as <- <- <-|].
  destruct (bool_decide_reflect (NoDup (ids w))) as [W|]; [|done].
  destruct (answer_okb (phase s) a) eqn:A; [|done]. simpl in E.
  destruct (resume cfg req a w s) as [[[s1 w1] fx1]|] eqn:R; [|done]. simpl. rewrite <- app_assoc.
  exact (IH _ _ _ _ (travels_resume _ _ _ _ _ _ _ H W (answer_okb_ok _ _ A) R) E).
Qed.

Lemma run_travels w l s fx n : run w l = Some (s, fx, n) -> travels (rev (map snd l) ++ [w]) s.
Proof.
  unfold run. destruct (start cfg req w) as [[s0 w0] fx0] eqn:E. case_bool_decide as W; [|done].
  apply play_travels. by eapply travels_start.
Qed.

(** ** Theorems *)

(** C3: Neither slots of the pool nor marks of models as loading are lost to a
    request: it never holds two tokens or two marks of its own, gives back only
    what it has, and at most once; when routing fails it holds none; and
    whatever mark a stretch of it took back last, its own or a victim's, is
    gone from the gateway. *)
Theorem routing_conserves :
  (forall s fx n, reach s fx n ->
     ledger (None, None) fx = Some (ss_token s, ss_mark s) /\
     (forall e, phase s = Failed e -> ss_token s = None /\ ss_mark s = None)) /\
  (forall fx w, stretch fx w -> taken_back fx w).
Proof.
  split.
  - intros s fx n [[P _] L]%reach_ok. split; [done|]. intros e Ep. by rewrite Ep in P.
  - intros fx w [w0 s w' fx' W E|s fx0 n a w0 s' w' fx' H W A E].
    + by destruct (route_start_ok _ _ _ _ _ _ W (knows_all w0) E) as (_ & _ & ?).
    + apply reach_ok in H as [Hs _]. by destruct (route_resume_ok _ _ _ _ _ _ _ _ W (knows_all w0) A Hs E) as (_ & _ & ?).
Qed.

(** C10: Wherever a request is sent, overflowing, waiting for its admission,
    evicting, loading or in the end, recovered requests included, the gateway
    is one of those it met, and an engine it met found it feasible for a
    placement computed from gateways it met, or it reported the model as
    loaded, or, for a sticky model, as being loaded; and the pool may grant the
    request only this gateway, one that was found feasible, or one that
    reported the model as loaded. *)
Theorem target_justified ws s : travels ws s ->
  match phase s with
  | OverflowLoad _ g _ => justified req (met ws) (found ws) g
  | Acquiring a _ =>
      justified req (met ws) (found ws) (a_gateway a) /\
      forall n, n ∈ a_allowed a ->
        n = name (a_gateway a) \/ found ws n \/ exists g, snap (met ws) g /\ name g = n /\ warm req g = true
  | Evicting f _ | Loading f => justified req (met ws) (found ws) (f_gateway f)
  | Returned n => exists g, name g = n /\ justified req (met ws) (found ws) g
  | _ => True
  end.
Proof.
  intros [P _]%travels_ok. destruct (phase s); try done; simpl in P; try apply P.
  destruct P as (_ & (J & _) & [_ S] & _ & A). split; [done|]. intros n Hn. destruct (A n Hn) as [?|[?|(g & Hg & ? & ?)]]; auto.
  right. right. exists g. split; [|done]. rewrite Forall_forall in S. by apply S.
Qed.





(** *** Recovery from a rejection *)

Lemma wp_true {A : Type} (m : M A) (Q : A -> St -> Prop) s : (forall a s', Q a s') -> wp m Q (fun _ _ => True) s.
Proof. intros H. unfold wp. by destruct (m s) as [[a|e] s']. Qed.

Lemma wp_guarded m (Q : Phase -> St -> Prop) s : wp m Q (fun _ _ => True) s -> wp (guarded m) Q (fun _ _ => True) s.
Proof. unfold wp, guarded. by destruct (m s) as [[p|e] s']. Qed.

Definition loads (f : Finalizing) (tok : option CapacityToken) (p : Phase) (s : St) : Prop :=
  forall f', p = Loading f' -> f' = f /\ token s = tok.

Lemma start_load_loads f s : wp (start_load cfg f) (loads f (token s)) (fun _ _ => True) s.
Proof.
  unfold start_load. destruct (cfg_load_orchestrator cfg).
  - intros f' [= <-]. done.
  - unfold finish. destruct (cfg_event_bus cfg); [destruct (selection_tier _); [|done]|]; by intros f'.
Qed.

Lemma finalize_loads f s : wp (finalize cfg req f) (loads f (token s)) (fun _ _ => True) s.
Proof.
  unfold finalize. rewrite wp_bind.
  apply (wp_mono _ (fun _ s1 => token s1 = token s) _ (fun _ _ => False)); [| |done].
  { destruct (mmem _ _); [done|]. eapply wp_mono; [apply mark_loading_spec | | done]. intros [] s1; [by intros (-> & _) | by intros ->]. }
  intros b s1 T1. rewrite wp_bind. unfold set_mark, writes, wp at 1. apply wp_guarded. rewrite <- T1.
  set (s2 := mkSt _ _ _ _ _). change (token s1) with (token s2). clearbody s2. unfold evict_then_load.
  destruct (selection_tier (f_trace f)) as [[]|]; try apply start_load_loads.
  rewrite wp_bind. unfold get, reads, wp at 1. rewrite wp_bind.
  apply (wp_mono _ (fun _ s3 => token s3 = token s2) _ (fun _ _ => False)); [| |done].
  { destruct (w_pool _); [|done]. eapply wp_mono; [apply (calm_pause_all _ true) | | done]. by intros ? s3 (-> & _). }
  intros ? s3 T3. rewrite <- T3, wp_bind. eapply wp_mono; [apply calm_start_eviction | | done].
  intros r s4 (T4 & _). rewrite <- T4. destruct r; [apply start_load_loads | | by intros f'].
  case_bool_decide; [|done]. apply (wp_bind drop_mark). apply wp_true. intros ? s5. unfold requeue.
  rewrite wp_bind. apply wp_true. intros ? s6. rewrite wp_bind. apply wp_true. intros d s7. simpl.
  rewrite wp_bind. apply wp_true. intros ? s8. unfold enter_retry. rewrite wp_bind. apply wp_true. by intros w s9 f'.
Qed.

Lemma recovery_loads r sel s : rw_caller r = FromRejection sel ->
  wp (retry_round cfg req r) (fun p s' => forall f, p = Loading f -> f_trace f = s_trace sel /\ (token s = None -> token s' = None))
    (fun _ _ => True) s.
Proof.
  intros Hc. unfold retry_round. rewrite wp_bind. unfold get, reads, wp at 1.
  destruct (fle _ _); [by unfold retry_failed; rewrite Hc|].
  rewrite wp_bind. eapply wp_mono; [apply (calm_hold_of true) | | done]. intros hold s1 (T1 & _).
  destruct (flt 0 hold); [by intros f|]. destruct (rw_defer r); [by intros f|].
  rewrite wp_bind. eapply wp_mono; [apply (quiet_fresh true) | | done]. intros gs s2 (T2 & _). rewrite wp_bind.
  eapply wp_mono; [apply (quiet_select true) | | done]. intros [[g|] t] s3 (T3 & _).
  - unfold retry_succeeded. rewrite Hc. eapply wp_mono; [apply finalize_loads | | done].
    intros p s4 Hl f ->. destruct (Hl f eq_refl) as [-> T4]. split; [done|]. intros T. congruence.
  - rewrite wp_bind. apply wp_true. intros hold' s4. destruct (negb _); [by unfold retry_failed; rewrite Hc|].
    rewrite wp_bind. apply wp_true. intros w' s5. rewrite wp_bind. apply wp_true. by intros ? s6 f.
Qed.

(** C35: A request that was rejected, waited and was then given a gateway goes there
    without a token of the pool; and if the model is loaded as asked, it fails
    all the same, with an [AttributeError]. *)
Theorem recovered_request_fails s fx n r sel w s1 w1 fx1 f w2 s2 w3 fx2 :
  reach s fx n -> phase s = RetryWait r -> rw_caller r = FromRejection sel ->
  world_ok w -> resume cfg req Wake w s = Some (s1, w1, fx1) -> phase s1 = Loading f ->
  cfg_event_bus cfg = true -> resume cfg req LoadDone w2 s1 = Some (s2, w3, fx2) ->
  ss_token s1 = None /\ phase s2 = Failed (Raised AttributeError).
Proof.
  intros [[P _] _]%reach_ok Ep Hc W E Ef Hb E2. rewrite Ep in P. simpl in P. rewrite Hc in P. destruct P as ([T K] & _ & Ht & _).
  unfold resume in E. rewrite Ep in E. simpl in E. rewrite Hc in E. injection E as E.
  pose proof (recovery_loads r sel (mkSt w (ss_token s) (ss_mark s) (ss_depth s) []) Hc) as H. unfold wp in H.
  unfold close in E. destruct (retry_round _ _ _ _) as [[p|e] st]; simplify_eq/=.
  destruct (H _ eq_refl) as [Htr Htok]. split; [by apply Htok|].
  unfold resume in E2. simpl in E2. injection E2 as E2.
  unfold finish in E2. rewrite Hb, Htr, Ht in E2. unfold guarded, raise, close in E2. simpl in E2. by simplify_eq/=.
Qed.

End Runs.

(** ** Concrete runs *)

Definition the_model : ModelId := sample_id "m".

Definition sample_request (sticky : bool) : Request := mkRequest "r1" the_model sticky [] "generation" (Some 10%Q) None.

Definition sample_config : Config := default_config default_policy.

Definition sample_pool : CapacityPool := new_pool true 10.

(** With [open] circuit breakers no gateway takes requests. *)
Definition sample_world (now : Q) (open : bool) (pool : CapacityPool) (gs : list FederatedGateway) : World :=
  mkWorld now 1001 1000 gs (fun _ => false) (Some pool) ∅
    (mkEngine default_policy None (Some (fun _ _ => negb open)) 120 None) sample_env ∅ (fun _ => []).

Definition with_vram_free (v : Z) (fg : FederatedGateway) : FederatedGateway :=
  mkFederated (f_gateway_id fg) (f_remote_stargate_id fg) (f_node_id fg) (f_is_cloud fg) (f_dispatchable fg)
    (f_ram_free_mb fg) v (f_ram_total_mb fg) (f_vram_total_mb fg) (f_loaded_models fg) (f_busy_models fg)
    (f_loading_models fg) (f_available_models fg) (f_activated_models fg) (f_model_resources fg)
    (f_model_measured_vram fg) (f_model_loaded_at fg) (f_active_requests fg) (f_telemetry_timestamp fg) (f_last_heartbeat fg).

Definition silent (fg : FederatedGateway) : FederatedGateway :=
  mkFederated (f_gateway_id fg) (f_remote_stargate_id fg) (f_node_id fg) (f_is_cloud fg) (f_dispatchable fg)
    (f_ram_free_mb fg) (f_vram_free_mb fg) (f_ram_total_mb fg) (f_vram_total_mb fg) (f_loaded_models fg) (f_busy_models fg)
    (f_loading_models fg) (f_available_models fg) (f_activated_models fg) (f_model_resources fg)
    (f_model_measured_vram fg) (f_model_loaded_at fg) (f_active_requests fg) (f_telemetry_timestamp fg) 0.

Definition edge (n : nat) (loaded : list ModelId) : FederatedGateway :=
  sample_fed (match n with 1%nat => "edge-1" | _ => "edge-2" end) (match n with 1%nat => "remote-1" | _ => "remote-2" end)
    loaded [the_model] [(the_model, sample_res 8000 2000)].

(** Full of another model, which nobody uses. *)
Definition full_edge : FederatedGateway :=
  with_vram_free 4000
    (sample_fed "edge-2" "remote-2" [sample_id "old"] [the_model; sample_id "old"]
       [(the_model, sample_res 18000 2000); (sample_id "old", sample_res 18000 2000)]).

Definition calm_world (now : Q) (open : bool) : World := sample_world now open sample_pool [edge 1 []; edge 2 []].
Definition full_world : World := sample_world 0 false sample_pool [full_edge].

Definition token_of (gateway : string) : CapacityToken := mkToken gateway "m" "r1" false 1 false.

Definition ended (x : option (Session * list Effect * nat)) : Session * list Effect * nat :=
  get_or (mkSession (Failed NoGateways) None None 0, [], 0%nat) x.

(** Admission and load. *)
Definition loaded_run : option (Session * list Effect * nat) :=
  run sample_config (sample_request true) (calm_world 0 false) [(TokenGranted (token_of "edge-1"), calm_world 1 false); (LoadDone, calm_world 2 false)].

(** Admission and eviction, up to its answer. *)
Definition evicting_run : option (Session * list Effect * nat) :=
  run sample_config (sample_request true) full_world [(TokenGranted (token_of "edge-2"), full_world)].

(** The eviction fails: one requeue. *)
Definition requeued_run : option (Session * list Effect * nat) :=
  run sample_config (sample_request true) full_world
    [(TokenGranted (token_of "edge-2"), full_world); (EvictionDone false, full_world)].

(** Breakers stay open for the whole wait for capacity. *)
Definition rejected_run : option (Session * list Effect * nat) :=
  run sample_config (sample_request true) (calm_world 0 true) [(Wake, calm_world 20 true)].

Definition phase_name (s : Session) : string :=
  match phase s with
  | WaitStartup _ _ _ => "startup" | WaitGrace _ _ _ _ => "grace" | WaitCatalog _ _ _ _ => "catalog"
  | OverflowLoad _ _ _ => "overflow" | PreRoute _ _ _ => "pre-route" | Acquiring _ _ => "acquiring"
  | RetryWait _ => "retry" | Evicting _ _ => "evicting" | Loading _ => "loading" | Returned _ => "returned" | Failed _ => "failed"
  end.

Lemma ended_spec r s fx n : ended r = (s, fx, n) -> is_Some r -> r = Some (s, fx, n).
Proof. intros <- [x ->]. reflexivity. Qed.

(** The stretch in which the eviction fails. *)
Definition failing : Session * World * list Effect :=
  get_or (mkSession (Failed NoGateways) None None 0, full_world, [])
    (resume sample_config (sample_request true) (EvictionDone false) full_world (ended evicting_run).1.1).

Lemma failing_stretch : stretch sample_config (sample_request true) failing.2 failing.1.2.
Proof.
  assert (R : is_Some evicting_run) by (vm_compute; eauto).
  assert (N : is_Some (resume sample_config (sample_request true) (EvictionDone false) full_world (ended evicting_run).1.1))
    by (vm_compute; eauto).
  assert (W : world_ok full_world) by (apply (bool_decide_unpack _); vm_compute; exact I).
  assert (A : answer_okb (phase (ended evicting_run).1.1) (EvictionDone false) = true) by (vm_compute; reflexivity).
  unfold failing. destruct (ended evicting_run) as [[s fx] n] eqn:E. apply ended_spec in E; [|exact R].
  change ((s, fx, n).1.1) with s in *. destruct (resume _ _ _ _ s) as [[[s' w'] fx']|] eqn:E'; [|by destruct N].
  exact (stretch_resume _ _ s fx n _ _ s' w' fx' (run_reach _ _ _ _ _ _ _ E) W (answer_okb_ok _ _ A) E').
Qed.

Lemma routing_conserves_witness :
  (let '(s, fx, n) := ended requeued_run in
   phase_name s = "retry"%string /\ length fx = 6%nat /\ n = 1%nat /\ ledger (None, None) fx = Some (ss_token s, ss_mark s)) /\
  last_mark "edge-2" the_model failing.2 = Some false /\ unloading "edge-2" the_model failing.1.2.
Proof.
  split.
  - destruct (ended requeued_run) as [[s fx] n] eqn:E.
    pose proof (proj1 (proj1 (routing_conserves _ _) _ _ _ (run_reach _ _ _ _ _ _ _ (ended_spec _ _ _ _ E ltac:(vm_compute; eauto))))) as L.
    vm_compute in E. injection E as <- <- <-. repeat split; exact L.
  - assert (L : last_mark "edge-2" the_model failing.2 = Some false) by (vm_compute; reflexivity).
    split; [exact L|]. exact (proj2 (routing_conserves _ _) _ _ failing_stretch _ _ L).
Defined.

Lemma target_justified_witness :
  let '(s, _, _) := ended loaded_run in
  phase s = Returned "edge-1" /\
  exists ws g, length ws = 3%nat /\ name g = "edge-1"%string /\ justified (sample_request true) (met ws) (found (sample_request true) ws) g.
Proof.
  destruct (ended loaded_run) as [[s fx] n] eqn:E.
  pose proof (target_justified _ _ _ _ (run_travels _ _ _ _ _ _ _ (ended_spec _ _ _ _ E ltac:(vm_compute; eauto)))) as J.
  vm_compute in E. injection E as <- <- <-. split; [reflexivity|].
  destruct J as (g & Hg & Hj). eexists _, g. split; [|split; [exact Hg | exact Hj]]. reflexivity.
Defined.

Definition named_next (a : Answer) (w : World) (s : Session) : string :=
  match resume sample_config (sample_request true) a w s with Some (s', _, _) => phase_name s' | None => "" end.

Lemma named_loading s : phase_name s = "loading"%string -> exists f, phase s = Loading f.
Proof. unfold phase_name. destruct (phase s); try discriminate. eauto. Qed.

Lemma named_next_inv a w s n : named_next a w s = n -> n <> ""%string ->
  exists s' w' fx, resume sample_config (sample_request true) a w s = Some (s', w', fx) /\ phase_name s' = n.
Proof. unfold named_next. intros <- H. destruct (resume _ _ a w s) as [[[s' w'] fx]|]; [by exists s', w', fx | done]. Qed.



Lemma recovered_request_fails_witness :
  let '(s, fx, n) := ended rejected_run in
  exists s1 w1 fx1 s2 w2 fx2,
    resume sample_config (sample_request true) Wake (calm_world 25 false) s = Some (s1, w1, fx1) /\
    phase_name s1 = "loading"%string /\
    resume sample_config (sample_request true) LoadDone (calm_world 30 false) s1 = Some (s2, w2, fx2) /\
    ss_token s1 = None /\ phase s2 = Failed (Raised AttributeError).
Proof.
  assert (R : is_Some rejected_run) by (vm_compute; eauto).
  assert (N : named_next Wake (calm_world 25 false) (ended rejected_run).1.1 = "loading"%string) by (vm_compute; reflexivity).
  assert (N2 : match resume sample_config (sample_request true) Wake (calm_world 25 false) (ended rejected_run).1.1 with
               | Some (s1, _, _) => named_next LoadDone (calm_world 30 false) s1
               | None => ""
               end = "failed"%string) by (vm_compute; reflexivity).
  assert (C : match phase (ended rejected_run).1.1 with
              | RetryWait r => match rw_caller r with FromRejection _ => true | _ => false end
              | _ => false
              end = true) by (vm_compute; reflexivity).
  assert (W : world_ok (calm_world 25 false)) by (apply (bool_decide_unpack _); vm_compute; exact I).
  destruct (ended rejected_run) as [[s fx] n] eqn:E. apply ended_spec in E; [|exact R].
  change ((s, fx, n).1.1) with s in *.
  destruct (named_next_inv _ _ _ _ N ltac:(discriminate)) as (s1 & w1 & fx1 & E1 & P1). rewrite E1 in N2.
  destruct (named_next_inv _ _ _ _ N2 ltac:(discriminate)) as (s2 & w2 & fx2 & E2 & P2).
  exists s1, w1, fx1, s2, w2, fx2. split; [exact E1|]. split; [exact P1|]. split; [exact E2|].
  apply named_loading in P1 as [f P1].
  destruct (phase s) as [| | | | | |r| | | |] eqn:Ep; try discriminate C. destruct (rw_caller r) as [sel|] eqn:Er; [|discriminate C].
  exact (recovered_request_fails sample_config (sample_request true) s fx n r sel (calm_world 25 false) s1 w1 fx1 f
           (calm_world 30 false) s2 w2 fx2 (run_reach _ _ _ _ _ _ _ E) Ep Er W E1 P1 eq_refl E2).
Defined.

(** *** What the code does at some edges *)

(** A request that is not sticky waits for capacity; meanwhile the model is
    loaded on the gateway it is given.  The allowed gateways are computed from
    the candidates listed before the wait: there are none, and the pool has no
    slot it may ever grant. *)
Example allowed_gateways_stale :
  let w := sample_world 5 false sample_pool [edge 1 [the_model]; edge 2 []] in
  let '(s, _, _) := ended (run sample_config (sample_request false) (calm_world 0 true) [(Wake, w)]) in
  exists a, phase s = Acquiring a true /\ name (a_gateway a) = "edge-1"%string /\ a_allowed a = [] /\ a_timeout_s a = None.
Proof. vm_compute. eexists. repeat split. Qed.

(** A request that was rejected is recovered by a gateway that must first evict:
    it asks for the load at once, and not for the eviction.  Another request
    that starts then evicts. *)
Example recovered_loads_without_eviction :
  let w := sample_world 25 false sample_pool [full_edge] in
  let '(s, fx, _) := ended (run sample_config (sample_request true) (calm_world 0 true) [(Wake, calm_world 20 true); (Wake, w)]) in
  phase_name s = "loading"%string /\ existsb (fun x => match x with AskedEviction _ _ => true | _ => false end) fx = false /\
  phase_name (ended (run sample_config (sample_request true) w [(TokenGranted (token_of "edge-2"), w)])).1.1 = "evicting"%string.
Proof. vm_compute. repeat split. Qed.

(** The first selection asks only the healthy gateways; the ones after a wait
    ask all, and one that does not answer any more is chosen. *)
Example unreachable_after_wait :
  let w := sample_world 5 false sample_pool [silent (edge 1 [])] in
  healthy_of w = [] /\
  let '(s, _, _) := ended (run sample_config (sample_request true) (calm_world 0 true) [(Wake, w)]) in
  exists a, phase s = Acquiring a true /\ name (a_gateway a) = "edge-1"%string.
Proof. split; [reflexivity|]. vm_compute. eexists. repeat split. Qed.

(** The overflow to a gateway that must first evict asks it for the load at
    once, without the eviction. *)
Example overflow_loads_first :
  let busy := with_in_flight {[("edge-1"%string, "m"%string) := 1]} (with_capacity [(("edge-1"%string, "m"%string), 1)] sample_pool) in
  let '(s, fx, _) := ended (run sample_config (sample_request false) (sample_world 0 false busy [edge 1 [the_model]; full_edge]) []) in
  fx = [AskedLoad "edge-2"] /\
  exists sel g t, phase s = OverflowLoad sel g t /\ name g = "edge-2"%string /\ selection_tier t = Some T2_FEASIBLE_EVICT.
Proof. vm_compute. split; [reflexivity|]. do 3 eexists. repeat split. Qed.

(** A request that waited for the first gateway until the end of the startup
    time looks for its model in the list from before the wait. *)
Example startup_list_stale :
  let at_ now gs := mkWorld now 1001 now gs (fun _ => false) (Some sample_pool) ∅ sample_engine sample_env ∅ (fun _ => []) in
  let s := (ended (run sample_config (sample_request true) (at_ 0%Q []) [(Wake, at_ 200%Q [edge 1 []])])).1.1 in
  phase s = Failed ModelUnavailable /\
  phase_name (start sample_config (sample_request true) (at_ 200%Q [edge 1 []])).1.1 = "acquiring"%string.
Proof. split; vm_compute; reflexivity. Qed.
