(* ===== verification/ModelRouter.v ===== *)
(** * The model router ([systems/routing/model_router.py])

    [ModelRouter.route_request], the way of the control plane and of a single
    gateway into the decision engine.  Like [RouteOrchestrator.v] the coroutine
    is cut at its suspensions, the answers come from outside, and between two
    stretches the gateways may change in any way.  Logging is left out. *)
From stdpp Require Import base gmap sets list strings.
From Stdlib Require Import Ascii ZArith QArith Lia.
From S2P Require Import Prelude PyFloat PyString ModelId WireModel RoutingTypes Eviction Feasibility Scoring Engine CapacityPool EvictionExecution RoutingCollectors.
Local Open Scope Z_scope.

(** ** State *)

Record RoutingStats := mkStats {
  total_requests : Z;
  priority_1_hits : Z;
  priority_2_hits : Z;
  priority_3_hits : Z;
  priority_4_hits : Z
}.

(** What of the router matters: its engine, its collaborators, the bindings of
    its own tracker and its counters. *)
Record ModelRouter := mkRouter {
  mr_engine : DecisionEngine;
  mr_event_bus : bool;
  mr_forwarder : bool;
  mr_capacity_pool : bool;
  mr_stability : bindings_t;
  mr_stats : RoutingStats
}.

Definition with_stats (f : RoutingStats -> RoutingStats) (r : ModelRouter) : ModelRouter :=
  mkRouter (mr_engine r) (mr_event_bus r) (mr_forwarder r) (mr_capacity_pool r) (mr_stability r) (f (mr_stats r)).
Definition with_stability (b : bindings_t) (r : ModelRouter) : ModelRouter :=
  mkRouter (mr_engine r) (mr_event_bus r) (mr_forwarder r) (mr_capacity_pool r) b (mr_stats r).

Definition count_request (s : RoutingStats) : RoutingStats :=
  mkStats (total_requests s + 1) (priority_1_hits s) (priority_2_hits s) (priority_3_hits s) (priority_4_hits s).
Definition hit_1 (s : RoutingStats) : RoutingStats :=
  mkStats (total_requests s) (priority_1_hits s + 1) (priority_2_hits s) (priority_3_hits s) (priority_4_hits s).
Definition hit_2 (s : RoutingStats) : RoutingStats :=
  mkStats (total_requests s) (priority_1_hits s) (priority_2_hits s + 1) (priority_3_hits s) (priority_4_hits s).
Definition hit_3 (s : RoutingStats) : RoutingStats :=
  mkStats (total_requests s) (priority_1_hits s) (priority_2_hits s) (priority_3_hits s + 1) (priority_4_hits s).
Definition hit_4 (s : RoutingStats) : RoutingStats :=
  mkStats (total_requests s) (priority_1_hits s) (priority_2_hits s) (priority_3_hits s) (priority_4_hits s + 1).

(** A request is a dict, or an object of which only the model is read. *)
Record RouteRequest := mkRouteRequest {
  rq_is_dict : bool;
  rq_model : option string;
  rq_request_id : option string;
  rq_sticky : bool
}.

(** What a stretch reads: the wall clock, the gateways of the federation, and
    what the engine reads. *)
Record RouterWorld := mkRouterWorld {
  rw_now : Q;
  rw_federated : option (list FederatedGateway);
  rw_env : Env
}.

Inductive RPhase :=
  | AwaitConfiguration (m : ModelId)
  | AwaitTelemetry (p : Placement) (gateways : list Gateway)
  | AwaitToken (p : Placement) (gateways : list Gateway) (selected : Gateway) (trace : DecisionTrace) (allowed : list string)
  | AwaitEviction (selected : Gateway) (trace : DecisionTrace)
  | Routed (g : option Gateway)
  | Escaped (e : error).

(** ** The stretches *)

Section Route.
Context (req : RouteRequest).

Definition the_request_id : option string := if rq_is_dict req then rq_request_id req else None.
Definition is_sticky : bool := rq_is_dict req && rq_sticky req.

Definition validate_and_parse_model (model_id : string) : exn (option ModelId) :=
  match validate_model_id model_id with
  | Some _ => Ok None
  | None => let? m := parse model_id in Ok (Some m)
  end.

Definition collect_candidate_gateways (w : RouterWorld) : exn (list Gateway) :=
  let? stargates := collect_stargates (rw_now w) (rw_federated w) in Ok (map stargate_to_gateway stargates).

Definition stale_gateways (r : ModelRouter) (w : RouterWorld) (gateways : list Gateway) : list Gateway :=
  List.filter (fun g => flt 0 (telemetry_timestamp g)
                        && is_telemetry_stale (rw_now w) g (telemetry_max_age_ms (policy (mr_engine r)))) gateways.

Definition is_warm (trace : DecisionTrace) (g : Gateway) : bool :=
  existsb (fun c => bool_decide (name (gateway c) = name g)
                    && match score_components c with Some s => flt 0 (sc_warm s) | None => false end) (candidates trace).

Definition record_stats (selected : option Gateway) (trace : DecisionTrace) : RoutingStats -> RoutingStats :=
  match selected with
  | Some g => match selection_tier trace with
              | Some T1_FEASIBLE_NOW => if is_warm trace g then hit_1 else hit_2
              | Some T2_FEASIBLE_EVICT => hit_3
              | _ => id
              end
  | None => hit_4
  end.

(** [_execute_local_eviction] up to its suspension. *)
Definition execute_local_eviction (r : ModelRouter) (selected : Gateway) (trace : DecisionTrace) : RPhase :=
  match get_eviction_plan_for_gateway trace (name selected) with
  | None => Routed (Some selected)
  | Some plan =>
      match models_to_evict plan with
      | [] => Routed (Some selected)
      | _ => if mr_forwarder r then AwaitEviction selected trace else Routed None
      end
  end.

(** From the candidates to the admission. *)
Definition route_among (r : ModelRouter) (w : RouterWorld) (p : Placement) (gateways : list Gateway) : RPhase * ModelRouter :=
  match gateways with
  | [] => (Routed None, with_stats hit_4 r)
  | _ =>
      match select (mr_engine r) (rw_env w) gateways p the_request_id None (Some (mr_stability r)) with
      | Raise e => (Escaped e, r)
      | Ok (selected, trace, tr) =>
          let r := with_stats (record_stats selected trace) (with_stability (get_or (mr_stability r) tr) r) in
          match selected with
          | None => (Routed None, r)
          | Some g =>
              if mr_capacity_pool r then
                (AwaitToken p gateways g trace
                   (if is_sticky then [name g]
                    else map name (List.filter (fun g' => mmem (RoutingTypes.model_id p) (loaded_models g')) gateways)), r)
              else (execute_local_eviction r g trace, r)
          end
      end
  end.

Definition route_start (r : ModelRouter) : RPhase * ModelRouter :=
  let r := with_stats count_request r in
  match rq_model req with
  | None => (Routed None, r)
  | Some model_id =>
      if bool_decide (model_id = ""%string) then (Routed None, r)
      else match validate_and_parse_model model_id with
           | Raise e => (Escaped e, r)
           | Ok None => (Routed None, r)
           | Ok (Some m) => (AwaitConfiguration m, r)
           end
  end.

(** The local gateway answers; [refresh_stale_candidates] suspends when it
    should. *)
Definition configured (r : ModelRouter) (w : RouterWorld) (m : ModelId) (local : exn (option ModelMetadata)) : RPhase * ModelRouter :=
  match build_placement m local (rw_now w) (rw_federated w) (rq_model req) "generation" with
  | None => (Routed None, r)
  | Some p =>
      match collect_candidate_gateways w with
      | Raise e => (Escaped e, r)
      | Ok gateways =>
          match stale_gateways r w gateways with
          | [] => route_among r w p gateways
          | _ => if mr_event_bus r then (AwaitTelemetry p gateways, r) else route_among r w p gateways
          end
      end
  end.

Definition refreshed (r : ModelRouter) (w : RouterWorld) (p : Placement) (gateways : list Gateway) (updated : bool) : RPhase * ModelRouter :=
  if updated then match collect_candidate_gateways w with
                  | Raise e => (Escaped e, r)
                  | Ok gateways => route_among r w p gateways
                  end
  else route_among r w p gateways.

Definition token_granted (r : ModelRouter) (gateways : list Gateway) (selected : Gateway) (trace : DecisionTrace)
    (t : CapacityToken) : RPhase * ModelRouter :=
  let g := if bool_decide (t_gateway_id t = name selected) then selected
           else get_or selected (List.find (fun g => bool_decide (name g = t_gateway_id t)) gateways) in
  (execute_local_eviction r g trace, r).

(** How a suspension ends. *)
Inductive RAnswer :=
  | Configuration (local : exn (option ModelMetadata))
  | TelemetryUpdated (updated : bool)
  | Granted (t : CapacityToken)
  | NotGranted
  | EvictionEnded (ok : bool)
  | CancelledHere.

Definition route_resume (a : RAnswer) (r : ModelRouter) (w : RouterWorld) (p : RPhase) : option (RPhase * ModelRouter) :=
  match p, a with
  | Routed _, _ | Escaped _, _ => None
  | _, CancelledHere => Some (Escaped (CancelledError ""), r)
  | AwaitConfiguration m, Configuration local => Some (configured r w m local)
  | AwaitTelemetry p gateways, TelemetryUpdated updated => Some (refreshed r w p gateways updated)
  | AwaitToken _ gateways g trace _, Granted t => Some (token_granted r gateways g trace t)
  | AwaitToken _ _ _ _ _, NotGranted => Some (Routed None, r)
  | AwaitEviction g _, EvictionEnded ok => Some (Routed (if ok then Some g else None), r)
  | _, _ => None
  end.

(** ** Runs *)

(** The gateways have distinct ids, and the pool grants an allowed one. *)
Definition router_world_ok (w : RouterWorld) : Prop :=
  match rw_federated w with Some fgs => NoDup (map f_gateway_id fgs) | None => True end.

Definition granted_ok (p : RPhase) (a : RAnswer) : Prop :=
  match p, a with AwaitToken _ _ _ _ allowed, Granted t => t_gateway_id t ∈ allowed | _, _ => True end.

(** Runs from a request on, with the gateways at which an eviction succeeded;
    the router is shared, so that others may have changed it at every answer. *)
Inductive routing : RPhase -> list string -> Prop :=
  | routing_start r : routing (route_start r).1 []
  | routing_resume p done_at a r w p' : routing p done_at -> router_world_ok w -> granted_ok p a ->
      route_resume a r w p = Some p' ->
      routing p'.1 (match p, a with AwaitEviction g _, EvictionEnded true => name g :: done_at | _, _ => done_at end).

(** ** What is returned *)

(** Why [g] may be used under the trace [t] of a selection among [gs]. *)
Definition usable (m : ModelId) (gs : list Gateway) (t : DecisionTrace) (g : Gateway) : Prop :=
  g ∈ gs /\ ((exists c, c ∈ candidates t /\ gateway c = g /\ is_feasible c = true) \/ mmem m (loaded_models g) = true).

Definition nothing_to_evict (t : DecisionTrace) (g : Gateway) : Prop :=
  match get_eviction_plan_for_gateway t (name g) with Some plan => models_to_evict plan = [] | None => True end.

Definition asked_for (m : ModelId) : Prop :=
  exists s, rq_model req = Some s /\ validate_model_id s = None /\ parse s = Ok m.

Definition rphase_ok (p : RPhase) (done_at : list string) : Prop :=
  match p with
  | AwaitConfiguration m => asked_for m
  | AwaitTelemetry p gs => asked_for (RoutingTypes.model_id p) /\ NoDup (map name gs)
  | AwaitToken p gs g t allowed =>
      asked_for (RoutingTypes.model_id p) /\ NoDup (map name gs) /\ usable (RoutingTypes.model_id p) gs t g /\
      forall n, n ∈ allowed -> n = name g \/ exists g', g' ∈ gs /\ name g' = n /\ mmem (RoutingTypes.model_id p) (loaded_models g') = true
  | AwaitEviction g t => exists m gs, asked_for m /\ usable m gs t g /\ ~ nothing_to_evict t g
  | Routed (Some g) => exists m gs t, asked_for m /\ usable m gs t g /\ (nothing_to_evict t g \/ name g ∈ done_at)
  | Routed None | Escaped _ => True
  end.

Lemma stargates_gateways now live sgs : exn_map (collect_federated_stargate now) live = Ok sgs ->
  map name (map stargate_to_gateway sgs) = map f_gateway_id live.
Proof.
  revert sgs. induction live as [|fg live IH]; intros sgs; simpl; [by intros [= <-]|].
  unfold collect_federated_stargate at 1. destruct (map_model_resources_to_details _); [|done]. simpl.
  destruct (exn_map _ live) as [sgs'|]; [|done]. intros [= <-]. simpl. f_equal. by apply IH.
Qed.

Lemma collected_unique w gs : router_world_ok w -> collect_candidate_gateways w = Ok gs -> NoDup (map name gs).
Proof.
  unfold router_world_ok, collect_candidate_gateways, collect_stargates. destruct (rw_federated w) as [fgs|]; [|intros _ [= <-]; constructor].
  intros H. destruct (exn_map _ _) as [sgs|] eqn:E; [|done]. simpl. destruct (validate_stargate_pool sgs); [|done]. intros [= <-].
  rewrite (stargates_gateways _ _ _ E). eapply sublist_NoDup; [exact H | apply sublist_map, lfilter_sublist].
Qed.

Lemma eviction_rphase_ok r m gs t g l : asked_for m -> usable m gs t g -> rphase_ok (execute_local_eviction r g t) l.
Proof.
  intros A U. assert (H : nothing_to_evict t g -> rphase_ok (Routed (Some g)) l) by (intros N; exists m, gs, t; auto).
  unfold nothing_to_evict in H. unfold execute_local_eviction.
  destruct (get_eviction_plan_for_gateway t (name g)) as [plan|] eqn:E; [|by apply H].
  destruct (models_to_evict plan) as [|v vs] eqn:Ev; [by apply H|]. destruct (mr_forwarder r); [|done].
  exists m, gs. split; [done|]. split; [done|]. unfold nothing_to_evict. by rewrite E, Ev.
Qed.

Lemma route_among_ok r w p gs l : asked_for (RoutingTypes.model_id p) -> NoDup (map name gs) -> rphase_ok (route_among r w p gs).1 l.
Proof.
  intros A N. unfold route_among. destruct gs as [|g0 gs0]; [done|]. set (gs := g0 :: gs0) in *.
  destruct (select _ _ _ _ _ _ _) as [[[sel t] tr]|e] eqn:E; [|done]. destruct sel as [g|]; [|done].
  assert (U : usable (RoutingTypes.model_id p) gs t g).
  { apply select_inv in E as (cs & [c|] & Hcs & Hc & Hsel & Hcand & _); [|done]. injection Hsel as ->.
    destruct (selected_candidate _ _ _ _ _ _ _ _ _ _ _ _ Hcs Hc) as (Hin & Hf & Hg & _).
    split; [done|]. left. exists c. by rewrite Hcand. }
  cbv zeta. match goal with |- context [with_stats ?f ?x] => set (r' := with_stats f x) end. clearbody r'.
  destruct (mr_capacity_pool r'); [|by eapply eviction_rphase_ok].
  split; [done|]. split; [done|]. split; [done|]. intros n. destruct is_sticky.
  - intros ->%list_elem_of_singleton. by left.
  - intros (g' & -> & [Hin Hl]%elem_of_lfilter)%list_elem_of_fmap. right. by exists g'.
Qed.

Lemma build_placement_model m local now fm orig cat p : build_placement m local now fm orig cat = Some p -> RoutingTypes.model_id p = m.
Proof.
  unfold build_placement. destruct local as [[c|]|]; [| |done].
  - destruct (md_ram_usage c), (md_vram_usage c); try done. by intros [= <-].
  - destruct fm as [gs|]; [|done]. destruct (first_with_resources _ _) as [[[v rm] ctx]|]; [|done]. by intros [= <-].
Qed.

(** A routed request asked for a valid model, and the gateway it is sent to is
    one of those collected, which the engine found feasible, or which reports
    the model as loaded; and what its plan names has been evicted before. *)
Theorem router_target p done_at : routing p done_at -> rphase_ok p done_at.
Proof.
  induction 1 as [r|p done_at a r w p' _ IH W G E].
  - unfold route_start. destruct (rq_model req) as [s|] eqn:Er; [|done]. case_bool_decide; [done|].
    unfold validate_and_parse_model. destruct (validate_model_id s) eqn:Ev; [done|]. destruct (parse s) eqn:Ep; [|done]. by exists s.
  - destruct p as [m|p gs|p gs g t al|g t|g|e]; destruct a as [local|up|tk| |ok|]; simpl in E; try discriminate; injection E as <-; try done.
    + unfold configured. destruct (build_placement _ _ _ _ _ _) as [p|] eqn:Eb; [|done].
      apply build_placement_model in Eb. destruct (collect_candidate_gateways w) as [gs|] eqn:Ec; [|done].
      pose proof (collected_unique _ _ W Ec) as N. simpl in IH.
      destruct (stale_gateways r w gs); [|destruct (mr_event_bus r)]; try (split; [by rewrite Eb | done]); apply route_among_ok; congruence.
    + destruct IH as [A N]. unfold refreshed. destruct up; [|by apply route_among_ok].
      destruct (collect_candidate_gateways w) as [gs'|] eqn:Ec; [|done]. apply route_among_ok; [done|]. by eapply collected_unique.
    + destruct IH as (A & N & U & Hal). unfold token_granted. simpl. eapply eviction_rphase_ok; [done|].
      case_bool_decide as Hn; [exact U|]. destruct (Hal _ G) as [|(g' & Hin & Hn' & Hl)]; [done|].
      rewrite (find_unique _ _ _ N Hin Hn'). split; [done | by right].
    + simpl in *. destruct IH as (m & gs & A & U & _). destruct ok; [|done]. exists m, gs, t.
      split; [done|]. split; [done|]. right. apply list_elem_of_here.
Qed.

End Route.

(** ** Examples *)

Definition new_stats : RoutingStats := mkStats 0 0 0 0 0.

Definition sample_router (pool : bool) : ModelRouter := mkRouter sample_engine true true pool ∅ new_stats.

Definition sample_route : RouteRequest := mkRouteRequest true (Some "m-4096"%string) (Some "r1"%string) false.

Definition m4096 : ModelId := match parse "m-4096" with Ok m => m | Raise _ => sample_id "m" end.

Definition sample_router_world (loaded : list ModelId) : RouterWorld :=
  mkRouterWorld 1001 (Some [sample_fed "edge-1" "remote-1" loaded [m4096] [(m4096, sample_res 8000 2000)]]) sample_env.

Definition answered (pool : bool) (loaded : list ModelId) : option (RPhase * ModelRouter) :=
  let '(p, r) := route_start sample_route (sample_router pool) in
  route_resume sample_route (Configuration (Ok None)) r (sample_router_world loaded) p.

(** The resources come from the federated catalog, the model is loaded. *)
Example routes_to_loaded :
  match answered false [m4096] with
  | Some (Routed (Some g), r) => (name g, mr_stats r) = ("edge-1"%string, mkStats 1 1 0 0 0)
  | _ => False
  end.
Proof. vm_compute. reflexivity. Qed.

(** With a pool, a request that is not sticky may only be admitted where its
    model is loaded already: before the first load, nowhere. *)
Example cold_request_allowed_nowhere :
  match answered true [] with Some (AwaitToken _ _ g _ allowed, _) => (name g, allowed) = ("edge-1"%string, []) | _ => False end.
Proof. vm_compute. reflexivity. Qed.

Lemma router_target_witness :
  match answered false [m4096] with
  | Some (Routed (Some g), _) =>
      name g = "edge-1"%string /\ exists m gs t, asked_for sample_route m /\ usable m gs t g /\ (nothing_to_evict t g \/ name g ∈ [])
  | _ => False
  end.
Proof.
  assert (W : router_world_ok (sample_router_world [m4096])) by (apply (bool_decide_unpack _); vm_compute; exact I).
  pose proof (routing_start sample_route (sample_router false)) as R.
  assert (N : match answered false [m4096] with Some (Routed (Some g), _) => name g | _ => ""%string end = "edge-1"%string)
    by (vm_compute; reflexivity).
  unfold answered in *. destruct (route_start sample_route (sample_router false)) as [p r] eqn:Es.
  destruct (route_resume _ _ r _ p) as [[q r']|] eqn:E; [|discriminate N].
  destruct q as [| | | |[g|]|]; try discriminate N. split; [exact N|].
  assert (G : granted_ok p (Configuration (Ok None))) by (destruct p; exact I).
  pose proof (router_target _ _ _ (routing_resume sample_route p [] (Configuration (Ok None)) r _ _ R W G E)) as H.
  destruct p; exact H.
Defined.
