(* ===== verification/DispatchJournal.v ===== *)
(** * The dispatch journal
    ([systems/pipeline/core/execution/dispatch_journal.py],
    [dispatch_journal_transitions.py])

    The SQLite database that outlives the process: one row per dispatched run,
    a log of transitions, the claims by which a stopped run gets its one
    successor, and the pinned requests of lineage roots.  Tables are lists in
    the order of their row ids.  [iso_epoch] is [datetime.fromisoformat]. *)
From stdpp Require Import base list strings.
From Stdlib Require Import ZArith QArith Lia.
From S2P Require Import Prelude PyFloat PyString PyJson.
Open Scope Z_scope.
#[local] Set Default Proof Using "Type".

Record Row := mkRow {
  row_pipeline : string;
  status : string;
  caller_agent : option string;
  started_at : string;
  completed_at : option string;
  completed_at_epoch : option Q;
  updated_at : string;
  updated_at_epoch : Q;
  record_json : list (string * json)
}.

Record Transition := mkTransition {
  tr_execution_id : string;
  tr_status : string;
  tr_at : string;
  tr_at_epoch : Q
}.

Record Lineage := mkLineage {
  lin_pipeline_id : string;
  version : string;
  lin_steps_sha256 : string;
  source_text : string;
  options_json : string
}.

Record Journal := mkJournal {
  dispatch_records : list (string * Row);
  dispatch_record_transitions : list Transition;
  continuation_claims : list (string * (string * string));   (* stop, (successor, claimed_at) *)
  pipeline_lineage : list (string * Lineage)
}.

Definition empty_journal : Journal := mkJournal [] [] [] [].

Definition with_records r (j : Journal) : Journal :=
  mkJournal r (dispatch_record_transitions j) (continuation_claims j) (pipeline_lineage j).
Definition with_claims c (j : Journal) : Journal :=
  mkJournal (dispatch_records j) (dispatch_record_transitions j) c (pipeline_lineage j).

(** The [CHECK] of the table, and the statuses a [started] write respects. *)
Definition valid_status (s : string) : bool :=
  bool_decide (s = "started"%string) || bool_decide (s = "completed"%string) || bool_decide (s = "failed"%string).
Definition terminal_status (s : string) : bool :=
  bool_decide (s = "completed"%string) || bool_decide (s = "failed"%string).

(** [UPDATE ... WHERE execution_id = ?] *)
Definition update_row (execution_id : string) (f : Row -> Row) (rows : list (string * Row)) : list (string * Row) :=
  map (fun kr => if decide (kr.1 = execution_id) then (kr.1, f kr.2) else kr) rows.

Section Journal.
Context (iso_epoch : string -> exn Q).

(** ** [write_transition_sync] *)

Record Write := mkWrite {
  w_execution_id : string;
  w_pipeline : string;
  w_status : string;
  w_caller_agent : option string;
  w_started_at : string;
  w_completed_at : option string;
  w_record_json : list (string * json)
}.

(** The SELECT that precedes the transaction ... *)
Definition read_status (execution_id : string) (j : Journal) : option string :=
  status <$> dget execution_id (dispatch_records j).

Definition at_iso (w : Write) : string :=
  match w_completed_at w with
  | Some c => if bool_decide (w_status w <> "started"%string) && bool_decide (c <> ""%string) then c else w_started_at w
  | None => w_started_at w
  end.

Definition completed_epoch (w : Write) : exn (option Q) :=
  match w_completed_at w with Some c => let? e := iso_epoch c in Ok (Some e) | None => Ok None end.

Definition row_of_write (w : Write) (epoch : option Q) (now_iso : string) (now : Q) : Row :=
  mkRow (w_pipeline w) (w_status w) (w_caller_agent w) (w_started_at w) (w_completed_at w) epoch now_iso now
    (w_record_json w).

(** ... and the transaction, which writes on what was read. *)
Definition apply_write (existing : option string) (w : Write) (now_iso : string) (now : Q) (j : Journal) : exn Journal :=
  let? at_epoch := iso_epoch (at_iso w) in
  let? epoch := completed_epoch w in
  let row := row_of_write w epoch now_iso now in
  let id := w_execution_id w in
  let? records :=
    if bool_decide (w_status w = "started"%string) then
      match existing with
      | None =>
          match dget id (dispatch_records j) with
          | None => Ok (dispatch_records j ++ [(id, row)])
          | Some _ => Raise IntegrityError
          end
      | Some s =>
          Ok (if terminal_status s then dispatch_records j
              else update_row id (fun r =>
                mkRow (w_pipeline w) (w_status w) (w_caller_agent w) (w_started_at w) (completed_at r)
                  (completed_at_epoch r) now_iso now (w_record_json w)) (dispatch_records j))
      end
    else if valid_status (w_status w) then Ok (ddel id (dispatch_records j) ++ [(id, row)])
    else Raise IntegrityError in
  Ok (mkJournal records
        (dispatch_record_transitions j ++ [mkTransition id (w_status w) (at_iso w) at_epoch])
        (continuation_claims j) (pipeline_lineage j)).

Definition write_transition_sync (w : Write) (now_iso : string) (now : Q) (j : Journal) : exn Journal :=
  apply_write (read_status (w_execution_id w) j) w now_iso now j.

Definition fetch_record_sync (execution_id : string) (j : Journal) : option (list (string * json) * string * Q) :=
  (fun r => (record_json r, status r, updated_at_epoch r)) <$> dget execution_id (dispatch_records j).

Definition fetch_terminal_sync (execution_id : string) (j : Journal) : option (list (string * json) * Q) :=
  match dget execution_id (dispatch_records j) with
  | Some r => if terminal_status (status r) then (fun e => (record_json r, e)) <$> completed_at_epoch r else None
  | None => None
  end.

(** ** [sweep_orphan_started_sync] *)

Definition interrupted_error : json :=
  JObj [("code", JStr "interrupted_by_restart"); ("message", JStr "Dispatch interrupted by process restart");
        ("data", JObj [("resumable", JBool true)])]%string.

Definition interrupted_body (now_iso : string) (body : list (string * json)) : list (string * json) :=
  dset "error"%string interrupted_error
    (dset "as_of"%string (JStr now_iso)
      (dset "completed_at"%string (JStr now_iso)
        (dset "state"%string (JStr "failed") (dset "status"%string (JStr "failed") body)))).

Definition interrupted_row (now_iso : string) (now : Q) (r : Row) : Row :=
  mkRow (row_pipeline r) "failed" (caller_agent r) (started_at r) (Some now_iso) (Some now) now_iso now
    (interrupted_body now_iso (record_json r)).

(** Whether the row is of a process that started before. *)
Definition is_orphan (process_started_at : Q) (r : Row) : exn bool :=
  if bool_decide (status r = "started"%string) then
    let? e := iso_epoch (started_at r) in Ok (negb (fle process_started_at e))
  else Ok false.

Fixpoint sweep_rows (now_iso : string) (now process_started_at : Q) (rows : list (string * Row))
  : exn (list (string * Row) * list (string * string)) :=
  match rows with
  | [] => Ok ([], [])
  | (id, r) :: rows' =>
      let? orphan := is_orphan process_started_at r in
      let? rest := sweep_rows now_iso now process_started_at rows' in
      let (rows'', updated) := rest in
      Ok (if orphan then ((id, interrupted_row now_iso now r) :: rows'', (id, row_pipeline r) :: updated)
          else ((id, r) :: rows'', updated))
  end.

Definition sweep_orphan_started_sync (now_iso : string) (now process_started_at : Q) (j : Journal)
  : exn (list (string * string) * Journal) :=
  let? res := sweep_rows now_iso now process_started_at (dispatch_records j) in
  Ok (snd res, with_records (fst res) j).

(** ** Pruning *)

(** The executions whose row satisfies the predicate. *)
Definition selected (p : Row -> bool) (j : Journal) (execution_id : string) : bool :=
  existsb (fun kr => bool_decide (kr.1 = execution_id) && p kr.2) (dispatch_records j).

Definition prune_bound_lineage_sync (p : Row -> bool) (j : Journal) : Journal :=
  mkJournal (dispatch_records j) (dispatch_record_transitions j)
    (List.filter (fun kc => negb (selected p j kc.1)) (continuation_claims j))
    (List.filter (fun kl => negb (selected p j kl.1)) (pipeline_lineage j)).

Definition delete_rows (p : Row -> bool) (j : Journal) : nat * Journal :=
  (length (List.filter (fun kr => p kr.2) (dispatch_records j)),
   with_records (List.filter (fun kr => negb (p kr.2)) (dispatch_records j)) j).

Definition stale_started (cutoff : Q) (r : Row) : bool :=
  bool_decide (status r = "started"%string) && flt (updated_at_epoch r) cutoff.
Definition expired (cutoff : Q) (r : Row) : bool :=
  match completed_at_epoch r with Some e => flt e cutoff | None => false end.

Definition prune_started_sync (now retention_seconds : Q) (j : Journal) : nat * Journal :=
  let p := stale_started (fsub now retention_seconds) in
  delete_rows p (prune_bound_lineage_sync p j).

Definition prune_sync (now retention_seconds : Q) (j : Journal) : nat * nat * Journal :=
  let (started_deleted, j1) := prune_started_sync now retention_seconds j in
  let p := expired (fsub now retention_seconds) in
  let (deleted, j2) := delete_rows p (prune_bound_lineage_sync p j1) in
  (deleted, started_deleted, j2).

(** ** Continuations *)

Record ContinuationClaim := mkClaim { won : bool; claim_successor : string }.

Definition claim_continuation_sync (stop successor claimed_at : string) (j : Journal) : ContinuationClaim * Journal :=
  match dget stop (continuation_claims j) with
  | None => (mkClaim true successor, with_claims (continuation_claims j ++ [(stop, (successor, claimed_at))]) j)
  | Some (existing, _) => (mkClaim false existing, j)
  end.

Definition release_continuation_sync (stop successor : string) (j : Journal) : Journal :=
  with_claims (List.filter (fun kc => negb (bool_decide (kc.1 = stop /\ kc.2.1 = successor))) (continuation_claims j)) j.

Definition read_lineage_sync (root_id : string) (j : Journal) : option Lineage := dget root_id (pipeline_lineage j).

Definition write_lineage_root_sync (root_id : string) (l : Lineage) (j : Journal) : Journal :=
  match dget root_id (pipeline_lineage j) with
  | Some _ => j
  | None => mkJournal (dispatch_records j) (dispatch_record_transitions j) (continuation_claims j)
              (pipeline_lineage j ++ [(root_id, l)])
  end.

(** The first row, in table order, whose successor this is. *)
Definition predecessor_stop_sync (successor : string) (j : Journal) : option string :=
  fst <$> List.find (fun kc => bool_decide (kc.2.1 = successor)) (continuation_claims j).

Fixpoint lineage_loop (fuel : nat) (stop current : string) (seq : nat) (seen : list string) (j : Journal) : string * nat :=
  match fuel with
  | O => (stop, 1%nat)
  | S fuel' =>
      if decide (current ∈ seen) then (stop, 1%nat)
      else match read_lineage_sync current j with
           | Some _ => (current, seq)
           | None => match predecessor_stop_sync current j with
                     | None => (current, seq)
                     | Some predecessor => lineage_loop fuel' stop predecessor (S seq) (current :: seen) j
                     end
           end
  end.

Definition resolve_lineage_root_sync (stop : string) (j : Journal) : string * nat :=
  lineage_loop (S (S (length (continuation_claims j)))) stop stop 1 [] j.

(** [str(error.get("code") or "")]; what is not a string is not a known code. *)
Definition error_code (payload : list (string * json)) : string :=
  match jget "code" (dict_or_empty (jget "error" payload)) with JStr s => s | _ => "" end.

Definition refusal_for_record (payload : list (string * json)) (status : string) : option (string * string) :=
  let err_code := error_code payload in
  if bool_decide (status = "cancelled"%string)
     || bool_decide (err_code ∈ ["pipeline_execution_cancelled"; "cancelled"]%string)
  then Some ("cancelled", "A cancelled run cannot be resumed.")%string
  else if bool_decide (status = "completed"%string) then
    if truthy (jget "stop" (dict_or_empty (jget "result" payload))) then None
    else Some ("not_resumable", "Run completed without a stop and cannot be resumed.")%string
  else if bool_decide (status = "failed"%string) && bool_decide (err_code = "interrupted_by_restart"%string) then None
  else Some ("not_resumable", "Run is not a resumable stop.")%string.

Record ContinuationDecision := mkDecision {
  admitted : bool;
  http_status : Z;
  code : string;
  message : string;
  successor_execution_id : option string;
  lineage_root : option string;
  continuation_seq : nat;
  fresh_claim : bool
}.

Definition refuse (http_status : Z) (code message : string) : ContinuationDecision :=
  mkDecision false http_status code message None None 0 false.

Definition assess_continuation_sync (stop successor steps_sha256 pipeline_id claimed_at : string) (j : Journal)
  : ContinuationDecision * Journal :=
  if bool_decide (strip stop = ""%string) || bool_decide (strip successor = ""%string)
  then (refuse 422 "not_resumable" "resume_of and the successor execution id are required.", j)
  else match fetch_record_sync stop j with
  | None => (refuse 422 "not_resumable" "No execution matches resume_of.", j)
  | Some (payload, status, _) =>
      match refusal_for_record payload status with
      | Some (code, message) => (refuse 422 code message, j)
      | None =>
          let (root, seq) := resolve_lineage_root_sync stop j in
          match read_lineage_sync root j with
          | None =>
              (mkDecision false 422 "not_resumable" "Lineage root was never pinned." None (Some root) seq false, j)
          | Some l =>
              if negb (bool_decide (lin_pipeline_id l = pipeline_id))
                 || negb (bool_decide (lin_steps_sha256 l = steps_sha256))
              then (mkDecision false 422 "lineage_spec_drift" "Pipeline steps hash does not match the lineage root."
                      None (Some root) seq false, j)
              else
                let (claim, j') := claim_continuation_sync stop successor claimed_at j in
                (if won claim
                 then mkDecision true 202 "admitted" "Continuation claimed." (Some (claim_successor claim)) (Some root) seq true
                 else if bool_decide (claim_successor claim = successor)
                 then mkDecision true 202 "admitted" "Continuation already claimed by this successor."
                        (Some (claim_successor claim)) (Some root) seq false
                 else mkDecision false 409 "continuation_claimed" "A continuation of this stop was already claimed."
                        (Some (claim_successor claim)) (Some root) seq false, j')
          end
      end
  end.

(** ** Histories *)

Inductive JOp : Type :=
  | JWrite (w : Write) (now_iso : string) (now : Q)
  | JSweep (now_iso : string) (now process_started_at : Q)
  | JPrune (now retention_seconds : Q)
  | JAssess (stop successor steps_sha256 pipeline_id claimed_at : string)
  | JRelease (stop successor : string)
  | JPin (root_id : string) (l : Lineage).

(** A transaction that raises leaves the database as it was. *)
Definition settle (j : Journal) (r : exn Journal) : Journal := match r with Ok j' => j' | Raise _ => j end.

Definition run_jop (j : Journal) (op : JOp) : Journal :=
  match op with
  | JWrite w iso now => settle j (write_transition_sync w iso now j)
  | JSweep iso now p => settle j (let? r := sweep_orphan_started_sync iso now p j in Ok (snd r))
  | JPrune now ret => snd (prune_sync now ret j)
  | JAssess stop succ sha pid at_ => snd (assess_continuation_sync stop succ sha pid at_ j)
  | JRelease stop succ => release_continuation_sync stop succ j
  | JPin root l => write_lineage_root_sync root l j
  end.

Definition run_jops (ops : list JOp) (j : Journal) : Journal := fold_left run_jop ops j.

(** The primary keys. *)
Record wf (j : Journal) : Prop := {
  wf_records : NoDup (dkeys (dispatch_records j));
  wf_claims : NoDup (dkeys (continuation_claims j));
  wf_lineage : NoDup (dkeys (pipeline_lineage j))
}.

Lemma dkeys_snoc {V} (k : string) (v : V) d : dkeys (d ++ [(k, v)]) = dkeys d ++ [k].
Proof. unfold dkeys. by rewrite map_app. Qed.

Lemma NoDup_snoc_key {V} (k : string) (v : V) d : NoDup (dkeys d) -> dget k d = None -> NoDup (dkeys (d ++ [(k, v)])).
Proof.
  intros H Hk. rewrite dkeys_snoc. apply NoDup_app. split; [done|]. split; [|apply NoDup_singleton].
  intros x Hx ->%list_elem_of_singleton. by apply dget_None in Hk.
Qed.

Lemma NoDup_dkeys_lfilter {V} (p : string * V -> bool) d : NoDup (dkeys d) -> NoDup (dkeys (List.filter p d)).
Proof. intros H. eapply sublist_NoDup; [exact H|]. apply sublist_map, lfilter_sublist. Qed.

Lemma dget_lfilter {V} (p : string * V -> bool) d k v : NoDup (dkeys d) ->
  dget k (List.filter p d) = Some v <-> dget k d = Some v /\ p (k, v) = true.
Proof.
  intros H. split.
  - intros [Hin Hp]%dget_Some_in%elem_of_lfilter. split; [by apply elem_of_dget | done].
  - intros [Hk Hp]. apply elem_of_dget; [by apply NoDup_dkeys_lfilter|]. apply elem_of_lfilter.
    split; [by apply dget_Some_in | done].
Qed.

Lemma dkeys_update id f rows : dkeys (update_row id f rows) = dkeys rows.
Proof. induction rows as [|[k r] rows IH]; simpl; [done|]. destruct (decide (k = id)); simpl; by f_equal. Qed.

Lemma dget_update id f rows k :
  dget k (update_row id f rows) = (if decide (k = id) then f <$> dget k rows else dget k rows).
Proof.
  induction rows as [|[k' r] rows IH]; simpl; [by case_decide|].
  repeat (case_decide; simpl; simplify_eq); done.
Qed.

Lemma sweep_rows_keys iso now p rows rows' updated :
  sweep_rows iso now p rows = Ok (rows', updated) -> dkeys rows' = dkeys rows.
Proof.
  revert rows' updated. induction rows as [|[id r] rows IH]; simpl; intros rows' updated H; [by injection H as <- <-|].
  destruct (is_orphan p r) as [orphan|]; [|done]. simpl in H.
  destruct (sweep_rows iso now p rows) as [[rs up]|] eqn:E; [|done]. simpl in H.
  specialize (IH rs up eq_refl). destruct orphan; injection H as <- <-; simpl; by f_equal.
Qed.

Lemma write_wf existing w iso now j j' : existing = read_status (w_execution_id w) j ->
  apply_write existing w iso now j = Ok j' -> wf j -> wf j'.
Proof.
  intros -> H [Hr Hc Hl]. unfold apply_write in H. inv_bind H. inv_bind H. inv_bind H. injection H as <-.
  split; simpl; [|done..]. destruct (bool_decide (w_status w = "started"%string)).
  - unfold read_status in Ha1. destruct (dget (w_execution_id w) (dispatch_records j)) as [r|] eqn:E; simpl in Ha1.
    + injection Ha1 as <-. destruct (terminal_status (status r)); [done | by rewrite dkeys_update].
    + injection Ha1 as <-. by apply NoDup_snoc_key.
  - destruct (valid_status (w_status w)); [|done]. injection Ha1 as <-.
    apply NoDup_snoc_key; [by apply NoDup_dkeys_ddel | by apply dget_ddel_eq].
Qed.

Lemma prune_step_wf p j : wf j -> wf (snd (delete_rows p (prune_bound_lineage_sync p j))).
Proof. intros [Hr Hc Hl]. split; simpl; by apply NoDup_dkeys_lfilter. Qed.

Lemma run_jop_wf j op : wf j -> wf (run_jop j op).
Proof.
  intros H. destruct op as [w iso now|iso now p|now ret|stop succ sha pid at_|stop succ|root l]; simpl.
  - destruct (write_transition_sync w iso now j) as [j'|] eqn:E; [|done]. simpl. by eapply write_wf.
  - unfold sweep_orphan_started_sync. destruct (sweep_rows iso now p (dispatch_records j)) as [[rows up]|] eqn:E; [|done].
    simpl. destruct H as [Hr Hc Hl]. split; simpl; [|done..]. by rewrite (sweep_rows_keys _ _ _ _ _ _ E).
  - unfold prune_sync, prune_started_sync. simpl. by apply (prune_step_wf _ _ (prune_step_wf _ j H)).
  - unfold assess_continuation_sync, claim_continuation_sync. repeat case_goal; try done. simpl.
    destruct H as [Hr Hc Hl]. split; simpl; [done| |done]. by apply NoDup_snoc_key.
  - destruct H as [Hr Hc Hl]. split; simpl; [done| |done]. by apply NoDup_dkeys_lfilter.
  - unfold write_lineage_root_sync. destruct (dget root (pipeline_lineage j)) eqn:E; [done|].
    destruct H as [Hr Hc Hl]. split; simpl; [done|done|]. by apply NoDup_snoc_key.
Qed.

(** ** Walking to the root *)

(** [n] steps from a run to the stop it continues. *)
Fixpoint ancestor (n : nat) (x : string) (j : Journal) : option string :=
  match n with
  | O => Some x
  | S n' => match predecessor_stop_sync x j with Some y => ancestor n' y j | None => None end
  end.

Lemma ancestor_snoc n x j : ancestor (S n) x j = ancestor n x j ≫= fun y => predecessor_stop_sync y j.
Proof.
  revert x. induction n as [|n IH]; intros x; simpl; [by destruct (predecessor_stop_sync x j)|].
  destruct (predecessor_stop_sync x j) as [y|]; [|done]. apply IH.
Qed.

(** The first [n] runs on the way up from [stop]: each continues the next, and
    none is pinned. *)
Definition path_to (stop : string) (j : Journal) (n : nat) (current : string) (seen : list string) : Prop :=
  length seen = n /\ ancestor n stop j = Some current /\
  (forall y, y ∈ seen <-> exists k, (k < n)%nat /\ ancestor k stop j = Some y) /\
  (forall y, y ∈ seen -> read_lineage_sync y j = None /\ is_Some (predecessor_stop_sync y j)).

Lemma path_step stop j n current seen y : path_to stop j n current seen ->
  read_lineage_sync current j = None -> predecessor_stop_sync current j = Some y ->
  path_to stop j (S n) y (current :: seen).
Proof.
  intros (Hn & Ha & Hs & Hp) Hl Hy. split; [simpl; by rewrite Hn|]. split; [by rewrite ancestor_snoc, Ha|]. split.
  - intros x. rewrite elem_of_cons, Hs. split.
    + intros [->|(k & Hk & Hx)]; [exists n | exists k]; (split; [lia|done]).
    + intros (k & Hk & Hx). destruct (decide (k = n)) as [->|Hne]; [left; congruence | right; exists k; split; [lia|done]].
  - intros x [->|Hx]%elem_of_cons; [split; [done | by exists y] | by apply Hp].
Qed.

(** Back where it was: the way up never ends and meets no pin. *)
Lemma cycle_endless stop j n current seen : path_to stop j n current seen -> current ∈ seen ->
  forall m, exists y, ancestor m stop j = Some y /\ y ∈ seen.
Proof.
  intros (Hn & Ha & Hs & Hp) Hc. induction m as [|m (y & Hy & Hin)].
  - exists stop. split; [done|]. apply Hs. destruct n as [|n].
    + apply nil_length_inv in Hn as ->. by apply elem_of_nil in Hc.
    + exists 0%nat. split; [lia | done].
  - pose proof Hin as Hin'. apply Hs in Hin' as (k & Hk & Hyk).
    destruct (Hp y Hin) as [_ [z Hz]]. exists z. split; [by rewrite ancestor_snoc, Hy|].
    assert (Hz' : ancestor (S k) stop j = Some z) by (by rewrite ancestor_snoc, Hyk).
    destruct (decide (S k = n)) as [E|Hne].
    + rewrite E, Ha in Hz'. injection Hz' as <-. done.
    + apply Hs. exists (S k). split; [lia | done].
Qed.

Lemma predecessor_in x j y : predecessor_stop_sync x j = Some y -> x ∈ map (fun kc => kc.2.1) (continuation_claims j).
Proof.
  unfold predecessor_stop_sync. destruct (List.find _ _) as [[st [su at_]]|] eqn:E; [|done]. intros _.
  apply find_some in E as [Hin Hb]. apply bool_decide_eq_true in Hb. simpl in Hb. subst su.
  apply list_elem_of_fmap. exists (st, (x, at_)). split; [done|]. by apply list_elem_of_In.
Qed.

Definition root_or_cycle (stop root : string) (seq : nat) (j : Journal) : Prop :=
  (exists n, seq = S n /\ ancestor n stop j = Some root /\
     (is_Some (read_lineage_sync root j) \/ predecessor_stop_sync root j = None) /\
     forall k, (k < n)%nat -> exists y, ancestor k stop j = Some y /\ read_lineage_sync y j = None) \/
  (root = stop /\ seq = 1%nat /\
     forall k, exists y, ancestor k stop j = Some y /\ read_lineage_sync y j = None).

Lemma lineage_loop_spec stop j : forall fuel n current seen,
  path_to stop j n current seen -> NoDup seen -> (length (continuation_claims j) + 2 <= n + fuel)%nat ->
  let (root, seq) := lineage_loop fuel stop current (S n) seen j in root_or_cycle stop root seq j.
Proof.
  induction fuel as [|fuel IH]; intros n current seen Hpath Hnd Hfuel.
  - exfalso. destruct Hpath as (Hn & _ & _ & Hp).
    assert (Hle : (length seen <= length (map (fun kc => kc.2.1) (continuation_claims j)))%nat).
    { apply submseteq_length, NoDup_submseteq; [done|]. intros x Hx. destruct (Hp x Hx) as [_ [y Hy]].
      by eapply predecessor_in. }
    rewrite length_map in Hle. lia.
  - simpl. destruct (decide (current ∈ seen)) as [Hin|Hnin].
    + right. split; [done|]. split; [done|]. intros k. destruct (cycle_endless stop j n current seen Hpath Hin k) as (y & Hy & Hys).
      exists y. split; [done|]. destruct Hpath as (_ & _ & _ & Hp). by apply Hp.
    + assert (Hup : forall k, (k < n)%nat -> exists y, ancestor k stop j = Some y /\ read_lineage_sync y j = None).
      { intros k Hk. destruct Hpath as (Hn & Ha & Hs & Hp).
        assert (Hsome : is_Some (ancestor k stop j)).
        { clear -Ha Hk. destruct (ancestor k stop j) as [y|] eqn:E; [by exists y|]. exfalso. revert Ha.
          assert (Hn : forall m, ancestor (m + k) stop j = None).
          { induction m as [|m IHm]; [done|]. change (S m + k)%nat with (S (m + k)). by rewrite ancestor_snoc, IHm. }
          replace n with (n - k + k)%nat by lia. by rewrite Hn. }
        destruct Hsome as [y Hy]. exists y. split; [done|]. apply Hp, Hs. by exists k. }
      pose proof Hpath as (Hn & Ha & _ & _).
      destruct (read_lineage_sync current j) as [l|] eqn:El; [left; exists n; split_and!; try done; left; by exists l|].
      destruct (predecessor_stop_sync current j) as [y|] eqn:Ep; [|left; exists n; by split_and!; try done; right].
      apply IH; [by apply path_step | by apply NoDup_cons | lia].
Qed.

Lemma resolve_spec stop j : let (root, seq) := resolve_lineage_root_sync stop j in root_or_cycle stop root seq j.
Proof.
  apply (lineage_loop_spec stop j _ 0 stop []); [|by apply NoDup_nil|simpl; lia].
  split; [done|]. split; [done|]. split; intros y.
  - split; [by intros ?%elem_of_nil | intros (k & Hk & _); lia].
  - by intros ?%elem_of_nil.
Qed.

(** ** Admission *)

Definition claimed_by (stop : string) (j : Journal) : option string := fst <$> dget stop (continuation_claims j).

(** [stop] may be resumed in the lineage of [root]. *)
Definition resumable (stop successor sha pid root : string) (seq : nat) (j : Journal) : Prop :=
  strip stop <> ""%string /\ strip successor <> ""%string /\
  resolve_lineage_root_sync stop j = (root, seq) /\
  (exists r, dget stop (dispatch_records j) = Some r /\ refusal_for_record (record_json r) (status r) = None) /\
  (exists l, dget root (pipeline_lineage j) = Some l /\ lin_pipeline_id l = pid /\ lin_steps_sha256 l = sha).

Lemma assess_refused stop successor sha pid at_ j : (forall root seq, ~ resumable stop successor sha pid root seq j) ->
  exists d, assess_continuation_sync stop successor sha pid at_ j = (d, j) /\ admitted d = false /\ http_status d = 422.
Proof.
  intros H. unfold assess_continuation_sync.
  destruct (bool_decide (strip stop = ""%string)) eqn:E1; [by eexists|].
  destruct (bool_decide (strip successor = ""%string)) eqn:E2; [by eexists|]. simpl.
  unfold fetch_record_sync. destruct (dget stop (dispatch_records j)) as [r|] eqn:Er; simpl; [|by eexists].
  destruct (refusal_for_record (record_json r) (status r)) as [[c m]|] eqn:Ef; [by eexists|].
  destruct (resolve_lineage_root_sync stop j) as [root seq] eqn:Eroot.
  unfold read_lineage_sync. destruct (dget root (pipeline_lineage j)) as [l|] eqn:El; [|by eexists].
  destruct (bool_decide (lin_pipeline_id l = pid)) eqn:E3; simpl; [|by eexists].
  destruct (bool_decide (lin_steps_sha256 l = sha)) eqn:E4; simpl; [|by eexists].
  to_prop. exfalso. apply (H root seq). split_and!; [done|done|done|by exists r | by exists l].
Qed.

Lemma assess_resumable stop successor sha pid at_ root seq j : resumable stop successor sha pid root seq j ->
  exists d, assess_continuation_sync stop successor sha pid at_ j = (d, snd (claim_continuation_sync stop successor at_ j)) /\
    lineage_root d = Some root /\ continuation_seq d = seq /\
    (admitted d = true <-> claimed_by stop j = None \/ claimed_by stop j = Some successor) /\
    (fresh_claim d = true <-> claimed_by stop j = None) /\
    http_status d = (if admitted d then 202 else 409) /\
    successor_execution_id d = Some (get_or successor (claimed_by stop j)).
Proof.
  clear iso_epoch.
  intros (H1 & H2 & H3 & (r & Hr & Hf) & l & Hl & Hpid & Hsha). unfold assess_continuation_sync.
  rewrite !bool_decide_false by done. simpl. unfold fetch_record_sync. rewrite Hr. simpl. rewrite Hf, H3.
  unfold read_lineage_sync. rewrite Hl. rewrite !bool_decide_true by done. simpl.
  unfold claim_continuation_sync, claimed_by. destruct (dget stop (continuation_claims j)) as [[b at0]|]; simpl.
  - destruct (decide (b = successor)) as [->|Hb].
    + rewrite bool_decide_true by done. eexists. split; [done|]. simpl. naive_solver.
    + rewrite bool_decide_false by done. eexists. split; [done|]. simpl. naive_solver.
  - eexists. split; [done|]. simpl. naive_solver.
Qed.

(** [assess_continuation] is exact.  It admits a resume exactly if both
    ids are given, the journal has a resumable row for the stopped run, the
    root of its lineage is pinned with the same pipeline and steps, and no
    other successor holds the claim; it then answers 202 and the successor
    holds the claim, by a second call as by the first.  A claim held by
    another is answered 409 with its holder, everything else 422, and neither
    changes the journal. *)
Theorem admission_exact stop successor sha pid at_ j :
  let (d, j') := assess_continuation_sync stop successor sha pid at_ j in
  (admitted d = true <->
     (exists root seq, resumable stop successor sha pid root seq j) /\
     (claimed_by stop j = None \/ claimed_by stop j = Some successor)) /\
  (admitted d = true -> http_status d = 202 /\ claimed_by stop j' = Some successor /\
     (fresh_claim d = true <-> claimed_by stop j = None) /\
     forall s, s <> stop -> claimed_by s j' = claimed_by s j) /\
  (admitted d = false -> j' = j /\
     (http_status d = 409 <->
        (exists root seq, resumable stop successor sha pid root seq j) /\
        exists b, b <> successor /\ claimed_by stop j = Some b /\ successor_execution_id d = Some b) /\
     (http_status d = 409 \/ http_status d = 422)).
Proof.
  destruct (resolve_lineage_root_sync stop j) as [root seq] eqn:Eroot.
  assert (Hdec : resumable stop successor sha pid root seq j \/ forall root seq, ~ resumable stop successor sha pid root seq j).
  { assert (Hu : forall root' seq', resumable stop successor sha pid root' seq' j -> root' = root /\ seq' = seq)
      by (intros ? ? (_ & _ & H & _); split; congruence).
    destruct (decide (strip stop = ""%string)); [by right; intros ? ? (H & _)|].
    destruct (decide (strip successor = ""%string)); [by right; intros ? ? (_ & H & _)|].
    destruct (dget stop (dispatch_records j)) as [r|] eqn:Er; [|right; intros ? ? (_ & _ & _ & (r & H & _) & _); congruence].
    destruct (refusal_for_record (record_json r) (status r)) eqn:Ef;
      [right; intros ? ? (_ & _ & _ & (r' & H & H') & _); congruence|].
    destruct (dget root (pipeline_lineage j)) as [l|] eqn:El;
      [|right; intros ? ? H; pose proof (Hu _ _ H) as [-> ->]; destruct H as (_ & _ & _ & _ & l & H & _); congruence].
    destruct (decide (lin_pipeline_id l = pid /\ lin_steps_sha256 l = sha)) as [Hl|Hl].
    - left. split_and!; [done|done|done|by exists r|by exists l].
    - right. intros ? ? H. pose proof (Hu _ _ H) as [-> ->]. destruct H as (_ & _ & _ & _ & l' & H & H').
      rewrite El in H. injection H as <-. done. }
  destruct Hdec as [Hres|Hres].
  - destruct (assess_resumable stop successor sha pid at_ root seq j Hres) as (d & -> & _ & _ & Ha & Hf & Hh & Hs).
    split; [rewrite Ha; split; [intros; split; [by exists root, seq | done] | by intros []]|]. split.
    + intros Had. rewrite Had in Hh. split; [done|]. assert (Had' := Had). apply Ha in Had'.
      unfold claim_continuation_sync, claimed_by in *. destruct (dget stop (continuation_claims j)) as [[b at0]|] eqn:E; simpl in *.
      * rewrite E. destruct Had' as [|[= ->]]; [done|]. by split_and!.
      * rewrite dget_app, E. simpl. rewrite decide_True by done. split; [done|]. split; [done|]. intros s Hne.
        rewrite dget_app. simpl. rewrite decide_False by done. by destruct (dget s (continuation_claims j)).
    + intros Had. rewrite Had in Hh. unfold claim_continuation_sync, claimed_by in *.
      destruct (dget stop (continuation_claims j)) as [[b at0]|]; simpl in *.
      * split; [done|]. split; [|by left]. split; [|done]. intros _. split; [by exists root, seq|]. exists b. split_and!; [|done|done].
        intros ->. assert (admitted d = true) by (apply Ha; by right). congruence.
      * exfalso. assert (admitted d = true) by (apply Ha; by left). congruence.
  - destruct (assess_refused stop successor sha pid at_ j Hres) as (d & -> & -> & ->).
    split; [split; [done | intros [(root' & seq' & H) _]; by apply Hres in H]|]. split; [done|]. intros _.
    split; [done|]. split; [|by right]. split; [done | intros [(root' & seq' & H) _]; by apply Hres in H].
Qed.

(** ** One successor per stop *)

Lemma selected_row p j k r : NoDup (dkeys (dispatch_records j)) -> dget k (dispatch_records j) = Some r ->
  selected p j k = p r.
Proof.
  intros Hnd Hk. unfold selected. apply eq_true_iff_eq. rewrite existsb_exists. split.
  - intros ([k' r'] & Hin & Hb). simpl in Hb. apply andb_true_iff in Hb as [Hkk Hp].
    apply bool_decide_eq_true in Hkk as ->. apply list_elem_of_In, (elem_of_dget _ _ _ Hnd) in Hin. rewrite Hk in Hin. by injection Hin as ->.
  - intros Hp. exists (k, r). split; [by apply list_elem_of_In, dget_Some_in|]. simpl. by rewrite bool_decide_true.
Qed.

Lemma selected_absent p j k : dget k (dispatch_records j) = None -> selected p j k = false.
Proof.
  intros Hk. apply not_true_iff_false. unfold selected. rewrite existsb_exists. intros ([k' r] & Hin & Hb).
  simpl in Hb. apply andb_true_iff in Hb as [Hkk _]. apply bool_decide_eq_true in Hkk as ->. apply dget_None in Hk. apply Hk.
  apply list_elem_of_fmap. exists (k, r). split; [done|]. by apply list_elem_of_In.
Qed.

(** One of the two passes of [prune_sync]. *)
Lemma pass_exact p j : wf j ->
  let (n, j') := delete_rows p (prune_bound_lineage_sync p j) in
  (forall k r, dget k (dispatch_records j') = Some r <-> dget k (dispatch_records j) = Some r /\ p r = false) /\
  (forall k c, dget k (continuation_claims j') = Some c <-> dget k (continuation_claims j) = Some c /\
     forall r, dget k (dispatch_records j) = Some r -> p r = false) /\
  (forall k l, dget k (pipeline_lineage j') = Some l <-> dget k (pipeline_lineage j) = Some l /\
     forall r, dget k (dispatch_records j) = Some r -> p r = false) /\
  (n + length (dispatch_records j') = length (dispatch_records j))%nat.
Proof.
  clear iso_epoch.
  intros [Hr Hc Hl]. simpl. assert (Hsel : forall k, selected p j k = false <->
    forall r, dget k (dispatch_records j) = Some r -> p r = false).
  { intros k. destruct (dget k (dispatch_records j)) as [r|] eqn:E.
    - rewrite (selected_row p j k r Hr E). naive_solver.
    - rewrite selected_absent by done. naive_solver. }
  split; [intros k r; rewrite dget_lfilter by done; simpl; by rewrite negb_true_iff|].
  split; [intros k c; rewrite dget_lfilter by done; simpl; by rewrite negb_true_iff, Hsel|].
  split; [intros k l; rewrite dget_lfilter by done; simpl; by rewrite negb_true_iff, Hsel|].
  induction (dispatch_records j) as [|[k r] rows IH]; simpl; [done|].
  apply NoDup_cons in Hr as [_ Hr']. clear Hsel.
  assert (length (List.filter (fun kr : string * Row => p kr.2) rows) +
          length (List.filter (fun kr : string * Row => negb (p kr.2)) rows) = length rows)%nat as Hlen.
  { clear. induction rows as [|[k r] rows IH]; simpl; [done|]. destruct (p r); simpl; lia. }
  destruct (p r); simpl; lia.
Qed.

Lemma pass_wf p j n j' : delete_rows p (prune_bound_lineage_sync p j) = (n, j') -> wf j -> wf j'.
Proof. intros [= <- <-]. apply prune_step_wf. Qed.

(** [prune_expired] is exact: it removes the rows of runs that completed
    before the cutoff or started and were not updated since, with the claims
    on them and the requests pinned for them, keeps every other row, claim and
    pin, and counts the rows it removed. *)
Theorem prune_exact now retention j :
  wf j ->
  let cutoff := fsub now retention in
  let keep r := stale_started cutoff r = false /\ expired cutoff r = false in
  let '(deleted, started_deleted, j') := prune_sync now retention j in
  (forall k r, dget k (dispatch_records j') = Some r <-> dget k (dispatch_records j) = Some r /\ keep r) /\
  (forall k c, dget k (continuation_claims j') = Some c <->
     dget k (continuation_claims j) = Some c /\ forall r, dget k (dispatch_records j) = Some r -> keep r) /\
  (forall k l, read_lineage_sync k j' = Some l <->
     read_lineage_sync k j = Some l /\ forall r, dget k (dispatch_records j) = Some r -> keep r) /\
  (deleted + started_deleted + length (dispatch_records j') = length (dispatch_records j))%nat.
Proof.
  clear iso_epoch.
  intros H. cbv zeta. unfold prune_sync, prune_started_sync, read_lineage_sync. set (cutoff := fsub now retention).
  pose proof (pass_exact (stale_started cutoff) j H) as H1.
  destruct (delete_rows (stale_started cutoff) (prune_bound_lineage_sync (stale_started cutoff) j)) as [n1 j1] eqn:E1.
  pose proof (pass_exact (expired cutoff) j1 (pass_wf _ _ _ _ E1 H)) as H2.
  destruct (delete_rows (expired cutoff) (prune_bound_lineage_sync (expired cutoff) j1)) as [n2 j2] eqn:E2.
  destruct H1 as (R1 & C1 & L1 & N1), H2 as (R2 & C2 & L2 & N2).
  split; [intros k r; rewrite R2, R1; tauto|].
  split; [intros k c; rewrite C2, C1; setoid_rewrite R1; naive_solver|].
  split; [intros k l; rewrite L2, L1; setoid_rewrite R1; naive_solver | lia].
Qed.

(** Neither releases the claim of [successor] on [stop] nor prunes the row. *)
Definition keeps_claim (stop successor : string) (j : Journal) (op : JOp) : Prop :=
  match op with
  | JRelease s b => ~ (s = stop /\ b = successor)
  | JPrune _ _ => stop ∈ dkeys (dispatch_records (run_jop j op))
  | _ => True
  end.

Fixpoint all_keep_claim (stop successor : string) (ops : list JOp) (j : Journal) : Prop :=
  match ops with
  | [] => True
  | op :: ops' => keeps_claim stop successor j op /\ all_keep_claim stop successor ops' (run_jop j op)
  end.

Lemma write_tables existing w iso now j j' : apply_write existing w iso now j = Ok j' ->
  continuation_claims j' = continuation_claims j /\ pipeline_lineage j' = pipeline_lineage j.
Proof. intros H. unfold apply_write in H. inv_bind H. inv_bind H. inv_bind H. by injection H as <-. Qed.

Lemma write_other existing w iso now j j' id : apply_write existing w iso now j = Ok j' -> w_execution_id w <> id ->
  dget id (dispatch_records j') = dget id (dispatch_records j).
Proof.
  intros H Hne. unfold apply_write in H. inv_bind H. inv_bind H. inv_bind H. injection H as <-. simpl.
  assert (Happ : forall (d : list (string * Row)) r, dget id (d ++ [(w_execution_id w, r)]) = dget id d).
  { intros d r. rewrite dget_app. destruct (dget id d); [done|]. simpl. by rewrite decide_False. }
  destruct (bool_decide (w_status w = "started"%string)).
  - destruct existing as [s|].
    + injection Ha1 as <-. destruct (terminal_status s); [done|]. by rewrite dget_update, decide_False.
    + destruct (dget (w_execution_id w) (dispatch_records j)); [done|]. injection Ha1 as <-. apply Happ.
  - destruct (valid_status (w_status w)); [|done]. injection Ha1 as <-. rewrite Happ. by apply dget_ddel_ne.
Qed.

Lemma assess_state stop successor sha pid at_ j :
  snd (assess_continuation_sync stop successor sha pid at_ j) = j \/
  snd (assess_continuation_sync stop successor sha pid at_ j) = snd (claim_continuation_sync stop successor at_ j).
Proof.
  unfold assess_continuation_sync. destruct (claim_continuation_sync stop successor at_ j) as [c j0].
  repeat case_goal; auto.
Qed.

Lemma claim_kept stop b j op : wf j -> claimed_by stop j = Some b -> keeps_claim stop b j op ->
  claimed_by stop (run_jop j op) = Some b.
Proof.
  intros Hwf Hb Hk. unfold claimed_by in *. destruct op as [w iso now|iso now p|now ret|st succ sha pid at_|st succ|root l];
    cbn [keeps_claim run_jop] in *.
  - destruct (write_transition_sync w iso now j) as [j'|] eqn:E; [|done]. simpl. by destruct (write_tables _ _ _ _ _ _ E) as [-> _].
  - unfold sweep_orphan_started_sync. by destruct (sweep_rows iso now p (dispatch_records j)).
  - pose proof (prune_exact now ret j Hwf) as H. destruct (prune_sync now ret j) as [[n1 n2] j'] eqn:E. cbn [snd] in *.
    destruct H as (HR & HC & _ & _). destruct (dget stop (continuation_claims j)) as [c|] eqn:Ec; [|done].
    apply dkeys_dget in Hk as [r Hr]. apply HR in Hr as [Hr Hkeep].
    assert (Hc' : dget stop (continuation_claims j') = Some c); [|by rewrite Hc'].
    apply HC. split; [done|]. intros r' Hr'. by replace r' with r by congruence.
  - assert (Hcl : forall s x, (fst <$> dget stop (continuation_claims (snd (claim_continuation_sync s x at_ j)))) = Some b).
    { intros s x. unfold claim_continuation_sync. destruct (dget s (continuation_claims j)) as [[? ?]|]; [done|]. simpl.
      rewrite dget_app. by destruct (dget stop (continuation_claims j)). }
    by destruct (assess_state st succ sha pid at_ j) as [-> | ->].
  - destruct (dget stop (continuation_claims j)) as [[b' at0]|] eqn:Ec; [|done]. simpl in Hb. injection Hb as ->.
    assert (Hc' : dget stop (List.filter (fun kc => negb (bool_decide (kc.1 = st /\ kc.2.1 = succ))) (continuation_claims j)) = Some (b, at0)).
    { apply dget_lfilter; [apply (wf_claims j Hwf)|]. split; [done|]. simpl. rewrite bool_decide_false; [done|]. naive_solver. }
    unfold release_continuation_sync. simpl. by rewrite Hc'.
  - unfold write_lineage_root_sync. by destruct (dget root (pipeline_lineage j)).
Qed.

(** C20: A stopped run has one successor.  Once a resume of [stop] has been
    admitted for [a], no resume of it is admitted for another id, whatever
    other operations come in between, unless the claim is released or the
    stopped run is pruned. *)
Theorem one_successor stop a b sha pid at_ sha' pid' at_' ops j :
  wf j -> a <> b ->
  let (d, j1) := assess_continuation_sync stop a sha pid at_ j in
  admitted d = true -> all_keep_claim stop a ops j1 ->
  admitted (fst (assess_continuation_sync stop b sha' pid' at_' (run_jops ops j1))) = false.
Proof.
  intros Hwf Hab. destruct (assess_continuation_sync stop a sha pid at_ j) as [d j1] eqn:E. intros Hd Hops.
  assert (Hc : claimed_by stop j1 = Some a).
  { pose proof (admission_exact stop a sha pid at_ j) as H. rewrite E in H. by apply H. }
  assert (Hwf1 : wf j1) by (pose proof (run_jop_wf j (JAssess stop a sha pid at_) Hwf) as H; simpl in H; by rewrite E in H).
  clear E Hd. unfold run_jops. revert j1 Hc Hwf1 Hops. induction ops as [|op ops IH]; simpl; intros j1 Hc Hwf1 Hops.
  - pose proof (admission_exact stop b sha' pid' at_' j1) as H.
    destruct (assess_continuation_sync stop b sha' pid' at_' j1) as [d' j2]. simpl. destruct H as (H & _).
    apply not_true_iff_false. rewrite H, Hc. intros [_ [?|[= ?]]]; congruence.
  - destruct Hops as [Hop Hops]. apply IH; [by apply claim_kept | by apply run_jop_wf | done].
Qed.

(** ** Lineages *)

Lemma ancestor_None n m x j : ancestor n x j = None -> (n <= m)%nat -> ancestor m x j = None.
Proof. intros H. induction 1 as [|m _ IH]; [done|]. by rewrite ancestor_snoc, IH. Qed.

(** Where a walk ends is determined. *)
Lemma root_unique x r1 s1 r2 s2 j : root_or_cycle x r1 s1 j -> root_or_cycle x r2 s2 j -> r1 = r2 /\ s1 = s2.
Proof.
  assert (Hlt : forall n m r r', (n < m)%nat -> ancestor n x j = Some r -> ancestor m x j = Some r' ->
    (is_Some (read_lineage_sync r j) \/ predecessor_stop_sync r j = None) ->
    (exists y, ancestor n x j = Some y /\ read_lineage_sync y j = None) -> False).
  { intros n m r r' Hnm Hr Hr' He (y & Hy & Hl). replace y with r in Hl by congruence.
    destruct He as [[l Hl']|Hp]; [congruence|].
    assert (HN : ancestor (S n) x j = None) by (by rewrite ancestor_snoc, Hr). by rewrite (ancestor_None _ m _ _ HN) in Hr'. }
  intros [(n & -> & Hn & He & Hu)|(-> & -> & Hc)] [(n' & -> & Hn' & He' & Hu')|(-> & -> & Hc')]; [| | |done].
  - destruct (lt_eq_lt_dec n n') as [[H|H]|H].
    + exfalso. eapply Hlt; [exact H|exact Hn|exact Hn'|exact He|by apply Hu'].
    + subst n'. split; congruence.
    + exfalso. eapply Hlt; [exact H|exact Hn'|exact Hn|exact He'|by apply Hu].
  - exfalso. destruct (Hc' (S n)) as (y & Hy & _). eapply (Hlt n (S n)); [lia|exact Hn|exact Hy|exact He|apply Hc'].
  - exfalso. destruct (Hc (S n')) as (y & Hy & _). eapply (Hlt n' (S n')); [lia|exact Hn'|exact Hy|exact He'|apply Hc].
Qed.

(** [resolve_lineage_root] ends, and finds the root: it follows the claims
    from a run to the stop it continues until the first pinned run or the
    first that continues nothing, and counts the steps from 1.  If the claims
    run in a circle without a pin, it answers the run itself. *)
Theorem lineage_exact stop root seq j :
  resolve_lineage_root_sync stop j = (root, seq) <-> root_or_cycle stop root seq j.
Proof.
  pose proof (resolve_spec stop j) as H. destruct (resolve_lineage_root_sync stop j) as [r s]. split; [by intros [= <- <-]|].
  intros H'. by destruct (root_unique _ _ _ _ _ _ H H') as [-> ->].
Qed.

Lemma predecessor_app claims st su at_ x j j' : continuation_claims j = claims ->
  continuation_claims j' = claims ++ [(st, (su, at_))] ->
  predecessor_stop_sync x j' =
    match predecessor_stop_sync x j with Some y => Some y | None => if decide (x = su) then Some st else None end.
Proof.
  intros <-. unfold predecessor_stop_sync. intros ->. induction (continuation_claims j) as [|[k [v w]] cl IH]; simpl.
  - destruct (decide (x = su)) as [->|]; [by rewrite bool_decide_true | by rewrite bool_decide_false].
  - by destruct (bool_decide (v = x)).
Qed.

(** Continuations of continuations stay in the lineage: when a resume is
    newly admitted for a run that is neither pinned nor a successor already,
    this run has the same root, one further on. *)
Theorem resume_extends_lineage stop successor sha pid at_ j :
  predecessor_stop_sync successor j = None -> read_lineage_sync successor j = None ->
  let (d, j') := assess_continuation_sync stop successor sha pid at_ j in
  admitted d = true -> fresh_claim d = true ->
  exists root, lineage_root d = Some root /\
    resolve_lineage_root_sync stop j = (root, continuation_seq d) /\
    resolve_lineage_root_sync successor j' = (root, S (continuation_seq d)).
Proof.
  intros Hp Hl. pose proof (admission_exact stop successor sha pid at_ j) as H.
  destruct (assess_continuation_sync stop successor sha pid at_ j) as [d j'] eqn:E. intros Hd Hf.
  destruct H as (H & _ & _). apply H in Hd as [(root & seq & Hres) _]. clear H.
  destruct (assess_resumable stop successor sha pid at_ root seq j Hres) as (d' & E' & Hroot & Hseq & _ & Hf' & _).
  rewrite E' in E. injection E as -> <-. exists root. split; [done|]. rewrite Hseq.
  destruct Hres as (_ & _ & Hwalk & _ & l & Hpin & _). split; [done|].
  apply Hf' in Hf. unfold claimed_by in Hf. unfold claim_continuation_sync.
  destruct (dget stop (continuation_claims j)) as [|]; [done|]. simpl.
  set (j1 := with_claims _ j). assert (Hpre : forall x, predecessor_stop_sync x j1 =
    match predecessor_stop_sync x j with Some y => Some y | None => if decide (x = successor) then Some stop else None end)
    by (intros x; by apply (predecessor_app (continuation_claims j) stop successor at_)).
  apply lineage_exact. apply lineage_exact in Hwalk as [(n & -> & Hn & _ & Hu)|(-> & -> & Hc)].
  2: { destruct (Hc 0%nat) as (y & [= <-] & Hy). unfold read_lineage_sync in Hy. congruence. }
  assert (Hne : forall k y, (k < n)%nat -> ancestor k stop j = Some y -> y <> successor).
  { intros k y Hk Hy ->. assert (HN : ancestor (S k) stop j = None) by (by rewrite ancestor_snoc, Hy).
    by rewrite (ancestor_None _ n _ _ HN) in Hn. }
  assert (Hup : forall k, (k <= n)%nat -> ancestor k stop j1 = ancestor k stop j).
  { induction k as [|k IH]; intros Hk; [done|]. rewrite !ancestor_snoc, IH by lia.
    destruct (Hu k ltac:(lia)) as (y & Hy & _). rewrite Hy. simpl. rewrite Hpre, decide_False by (by eapply Hne; [|exact Hy]).
    by destruct (predecessor_stop_sync y j). }
  assert (Hfirst : predecessor_stop_sync successor j1 = Some stop) by (by rewrite Hpre, Hp, decide_True).
  left. exists (S n). split; [done|]. simpl. rewrite Hfirst. split; [by rewrite Hup|]. split; [left; by exists l|].
  intros [|k] Hk; [by exists successor|]. simpl. rewrite Hfirst, Hup by lia. apply Hu. lia.
Qed.

(** ** The sweep and terminal rows *)

Definition orphaned (process_started_at : Q) (r : Row) : bool :=
  match is_orphan process_started_at r with Ok b => b | Raise _ => false end.

Lemma sweep_rows_exact iso now p rows : (forall id r, (id, r) ∈ rows -> is_ok (is_orphan p r) = true) ->
  sweep_rows iso now p rows =
    Ok (map (fun kr => (kr.1, if orphaned p kr.2 then interrupted_row iso now kr.2 else kr.2)) rows,
        map (fun kr => (kr.1, row_pipeline kr.2)) (List.filter (fun kr => orphaned p kr.2) rows)).
Proof.
  induction rows as [|[id r] rows IH]; intros H; simpl; [done|]. rewrite IH by (intros id' r' Hin; apply (H id'); by right).
  assert (Ho : is_orphan p r = Ok (orphaned p r)).
  { pose proof (H id r ltac:(by left)) as Hok. unfold orphaned. by destruct (is_orphan p r). }
  rewrite Ho. simpl. by destruct (orphaned p r).
Qed.

Lemma sweep_rows_ok iso now p rows res : sweep_rows iso now p rows = Ok res ->
  forall id r, (id, r) ∈ rows -> is_ok (is_orphan p r) = true.
Proof.
  revert res. induction rows as [|[k r0] rows IH]; intros res H id r Hin; [by apply elem_of_nil in Hin|]. simpl in H.
  inv_bind H. inv_bind H. apply elem_of_cons in Hin as [[= -> ->]|Hin]; [by rewrite Ha | by eapply IH].
Qed.

Lemma dget_map_rows (f : Row -> Row) (k : string) rows : dget k (map (fun kr => (kr.1, f kr.2)) rows) = f <$> dget k rows.
Proof. induction rows as [|[k' r] rows IH]; simpl; [done|]. by destruct (decide (k = k')). Qed.

Lemma orphaned_started p r : orphaned p r = true -> status r = "started"%string.
Proof. unfold orphaned, is_orphan. destruct (bool_decide (status r = "started"%string)) eqn:E; [by to_prop | done]. Qed.

Lemma interrupted_resumable iso now r : refusal_for_record (record_json (interrupted_row iso now r)) "failed" = None.
Proof.
  unfold refusal_for_record. assert (H : error_code (record_json (interrupted_row iso now r)) = "interrupted_by_restart"%string).
  { unfold error_code, jget. simpl. unfold interrupted_body. by rewrite dget_dset_eq. }
  rewrite H. reflexivity.
Qed.

(** The sweep after a restart is exact.  If the start times of the rows
    parse, every row left [started] by a process that began before this one
    becomes a failed row that can be resumed, all others stay, the answer
    names the changed rows, and a second sweep changes nothing. *)
Theorem sweep_exact iso now p j :
  wf j -> (forall id r, dget id (dispatch_records j) = Some r -> status r = "started"%string -> is_ok (iso_epoch (started_at r)) = true) ->
  exists updated j', sweep_orphan_started_sync iso now p j = Ok (updated, j') /\
    (forall id r, dget id (dispatch_records j) = Some r ->
       dget id (dispatch_records j') = Some (if orphaned p r then interrupted_row iso now r else r)) /\
    (forall id pl, (id, pl) ∈ updated <->
       exists r, dget id (dispatch_records j) = Some r /\ orphaned p r = true /\ row_pipeline r = pl) /\
    (forall id r, dget id (dispatch_records j') = Some r ->
       orphaned p r = false /\
       (dget id (dispatch_records j) <> Some r -> refusal_for_record (record_json r) (status r) = None)) /\
    continuation_claims j' = continuation_claims j /\ pipeline_lineage j' = pipeline_lineage j /\
    forall iso2 now2, sweep_orphan_started_sync iso2 now2 p j' = Ok ([], j').
Proof.
  intros Hwf Hparse. assert (Hok : forall id r, (id, r) ∈ dispatch_records j -> is_ok (is_orphan p r) = true).
  { intros id r Hin. apply (elem_of_dget _ _ _ (wf_records j Hwf)) in Hin. unfold is_orphan.
    destruct (bool_decide (status r = "started"%string)) eqn:E; [|done]. to_prop. specialize (Hparse id r Hin E).
    by destruct (iso_epoch (started_at r)). }
  unfold sweep_orphan_started_sync. rewrite (sweep_rows_exact iso now p _ Hok). simpl. eexists _, _. split; [done|].
  set (f := fun r => if orphaned p r then interrupted_row iso now r else r).
  change (map _ (dispatch_records j)) with (map (fun kr : string * Row => (kr.1, f kr.2)) (dispatch_records j)).
  assert (Hidem : forall r, orphaned p (f r) = false).
  { intros r. unfold f. destruct (orphaned p r) eqn:E; [reflexivity | exact E]. }
  split; [intros id r Hr; simpl; rewrite dget_map_rows, Hr; done|]. split.
  { intros id pl. rewrite list_elem_of_fmap. split.
    - intros ([k r] & [= -> ->] & Hin). apply elem_of_lfilter in Hin as [Hin Ho]. exists r.
      split; [by apply (elem_of_dget _ _ _ (wf_records j Hwf)) | done].
    - intros (r & Hr & Ho & <-). exists (id, r). split; [done|]. apply elem_of_lfilter. split; [by apply dget_Some_in | done]. }
  split.
  { intros id r. simpl. rewrite dget_map_rows. destruct (dget id (dispatch_records j)) as [r0|]; [|done]. simpl. intros [= <-].
    split; [done|]. unfold f. destruct (orphaned p r0); [|done]. intros _. apply interrupted_resumable. }
  split; [done|]. split; [done|]. intros iso2 now2. simpl. rewrite sweep_rows_exact.
  - simpl. f_equal. rewrite !map_map. simpl. f_equal.
    + assert (Hnil : List.filter (fun kr : string * Row => orphaned p kr.2) (map (fun kr : string * Row => (kr.1, f kr.2)) (dispatch_records j)) = []).
      { apply lfilter_nil_iff. intros [k r] Hin. apply list_elem_of_fmap in Hin as ([k' r'] & [= -> ->] & _). apply Hidem. }
      by rewrite Hnil.
    + unfold with_records. simpl. f_equal. apply map_ext. intros [k r]. simpl. by rewrite Hidem.
  - intros id r Hin. apply list_elem_of_fmap in Hin as ([k r0] & [= -> ->] & Hin). specialize (Hok k r0 Hin). unfold f, orphaned.
    destruct (is_orphan p r0) as [[]|] eqn:E; [done| |done]. by rewrite E.
Qed.

(** Neither a terminal write of the run nor a pruning. *)
Definition not_final (id : string) (op : JOp) : Prop :=
  match op with
  | JWrite w _ _ => w_execution_id w = id -> w_status w = "started"%string
  | JPrune _ _ => False
  | _ => True
  end.

Lemma terminal_kept id r j op : wf j -> dget id (dispatch_records j) = Some r -> terminal_status (status r) = true ->
  not_final id op -> dget id (dispatch_records (run_jop j op)) = Some r.
Proof.
  intros Hwf Hr Ht Hop. destruct op as [w iso now|iso now p|now ret|st succ sha pid at_|st succ|root l]; cbn [not_final run_jop] in *; try done.
  - destruct (write_transition_sync w iso now j) as [j'|] eqn:E; [|done]. simpl. unfold write_transition_sync in E.
    destruct (decide (w_execution_id w = id)) as [<-|Hne]; [|by rewrite (write_other _ _ _ _ _ _ _ E)].
    unfold apply_write, read_status in E. inv_bind E. inv_bind E. inv_bind E. injection E as <-. simpl.
    rewrite (bool_decide_true _ (Hop eq_refl)), Hr in Ha1. simpl in Ha1. rewrite Ht in Ha1. by injection Ha1 as <-.
  - unfold sweep_orphan_started_sync. destruct (sweep_rows iso now p (dispatch_records j)) as [res|] eqn:E; [|done]. simpl.
    pose proof (sweep_rows_ok _ _ _ _ _ E) as Hok. rewrite (sweep_rows_exact iso now p _ Hok) in E. injection E as <-. simpl.
    set (f := fun r => if orphaned p r then interrupted_row iso now r else r).
    change (map _ (dispatch_records j)) with (map (fun kr : string * Row => (kr.1, f kr.2)) (dispatch_records j)).
    rewrite dget_map_rows, Hr. simpl. unfold f. destruct (orphaned p r) eqn:Eo; [|done]. apply orphaned_started in Eo.
    by rewrite Eo in Ht.
  - destruct (assess_state st succ sha pid at_ j) as [-> | ->]; [done|]. unfold claim_continuation_sync.
    by destruct (dget st (continuation_claims j)) as [[? ?]|].
  - unfold write_lineage_root_sync. by destruct (dget root (pipeline_lineage j)).
Qed.

(** A finished run stays finished: whatever is written late, swept,
    claimed, released or pinned, its row changes only by another terminal
    write of the run or by pruning. *)
Theorem terminal_stays id r ops j :
  wf j -> dget id (dispatch_records j) = Some r -> terminal_status (status r) = true ->
  Forall (not_final id) ops -> dget id (dispatch_records (run_jops ops j)) = Some r.
Proof.
  intros Hwf Hr Ht Hops. unfold run_jops. revert j Hwf Hr. induction Hops as [|op ops Hop Hops IH]; intros j Hwf Hr; simpl; [done|].
  apply IH; [by apply run_jop_wf | by apply terminal_kept].
Qed.

End Journal.

(** ** Instances *)

(** Time stamps written as numbers of seconds. *)
Definition seconds (s : string) : exn Q :=
  if forallb is_digit (chars s) then Ok (inject_Z (Z.of_N (int_of_digits (chars s)))) else Raise (ValueError "isoformat").

Definition stopped_result : list (string * json) := [("result", JObj [("stop", JObj [("id", JStr "ask")])])]%string.
Definition start_of (id : string) : Write := mkWrite id "chat" "started" None "10" None [].
Definition stop_of (id at_ : string) : Write := mkWrite id "chat" "completed" None "10" (Some at_) stopped_result.
Definition pinned : Lineage := mkLineage "chat" "1" "sha" "hello" "{}".

(** A run that stopped, and another that was running at the restart. *)
Definition some_history : list JOp :=
  [JPin "root" pinned; JWrite (start_of "root") "10" 10; JWrite (stop_of "root" "20") "20" 20;
   JWrite (start_of "lost") "15" 15; JPin "lost" pinned].
Definition some_journal : Journal := run_jops seconds some_history empty_journal.

Lemma run_jops_wf iso_epoch ops j : wf j -> wf (run_jops iso_epoch ops j).
Proof. unfold run_jops. revert j. induction ops as [|op ops IH]; intros j H; simpl; [done|]. by apply IH, run_jop_wf. Qed.

Lemma some_journal_wf : wf some_journal.
Proof. apply run_jops_wf. split; constructor. Qed.

Definition resumed : Journal := snd (assess_continuation_sync "root" "next" "sha" "chat" "21" some_journal).

Lemma dkeys_in_decided (k : string) (d : list (string * Row)) :
  existsb (fun k' => bool_decide (k' = k)) (dkeys d) = true -> k ∈ dkeys d.
Proof. intros (x & Hx & E)%existsb_exists. apply bool_decide_eq_true in E as ->. by apply list_elem_of_In. Qed.

Lemma one_successor_witness :
  admitted (fst (assess_continuation_sync "root" "other" "sha" "chat" "23"
    (run_jops seconds [JSweep "22" 22 21; JRelease "root" "other"; JPrune 22 100] resumed))) = false.
Proof.
  pose proof (one_successor seconds "root" "next" "other" "sha" "chat" "21" "sha" "chat" "23"
    [JSweep "22" 22 21; JRelease "root" "other"; JPrune 22 100] some_journal some_journal_wf ltac:(discriminate)) as H.
  unfold resumed. rewrite (surjective_pairing (assess_continuation_sync "root" "next" "sha" "chat" "21" some_journal)) in H.
  apply H; [vm_compute; reflexivity|]. split; [exact I|]. split; [intros [_ H']; discriminate H'|]. split; [|exact I].
  apply (dkeys_in_decided _ _). vm_compute. reflexivity.
Defined.

Lemma resume_extends_lineage_witness :
  resolve_lineage_root_sync "next" resumed = ("root"%string, 2%nat).
Proof.
  destruct (resume_extends_lineage "root" "next" "sha" "chat" "21" some_journal eq_refl eq_refl eq_refl eq_refl)
    as (root & H1 & _ & H3). injection H1 as <-. exact H3.
Defined.

Lemma prune_exact_witness :
  dget "root"%string (dispatch_records (snd (prune_sync 200 100 some_journal))) = None /\
  dget "root"%string (dispatch_records some_journal) <> None.
Proof.
  split; [|discriminate]. pose proof (prune_exact 200 100 some_journal some_journal_wf) as H. cbv zeta in H.
  destruct (prune_sync 200 100 some_journal) as [[n1 n2] j'] eqn:E. destruct H as (HR & _).
  destruct (dget "root"%string (dispatch_records j')) as [r|] eqn:Er; [|simpl; exact Er]. exfalso.
  apply HR in Er as (Hr & _ & He). vm_compute in Hr. injection Hr as <-. vm_compute in He. discriminate He.
Defined.

Lemma sweep_exact_witness :
  exists updated j', sweep_orphan_started_sync seconds "30" 30 25 some_journal = Ok (updated, j') /\
    ("lost"%string, "chat"%string) ∈ updated.
Proof.
  destruct (sweep_exact seconds "30" 30 25 some_journal some_journal_wf) as (updated & j' & H1 & _ & H2 & _).
  - intros id r Hr _. apply dget_Some_in, list_elem_of_In in Hr. vm_compute in Hr.
    destruct Hr as [[= <- <-]|[[= <- <-]|[]]]; reflexivity.
  - exists updated, j'. split; [exact H1|]. apply H2. eexists. split; [vm_compute; reflexivity|]. split; reflexivity.
Defined.

Lemma terminal_stays_witness :
  dget "root"%string (dispatch_records (run_jops seconds
    [JWrite (start_of "root") "25" 25; JSweep "30" 30 25; JRelease "root" "next"] some_journal))
  = dget "root"%string (dispatch_records some_journal).
Proof.
  destruct (dget "root"%string (dispatch_records some_journal)) as [r|] eqn:E; [|discriminate E].
  apply (terminal_stays seconds "root" r _ some_journal some_journal_wf E).
  - vm_compute in E. injection E as <-. reflexivity.
  - repeat constructor.
Defined.

(** The status is read outside the transaction: a [started] write that read
    before a terminal write of the same run committed reopens the run. *)
Example stale_read_reopens :
  let j0 := run_jops seconds [JWrite (start_of "r") "10" 10] empty_journal in
  let existing := read_status "r" j0 in
  let j1 := run_jops seconds [JWrite (stop_of "r" "20") "20" 20] j0 in
  (status <$> dget "r"%string (dispatch_records (settle j1 (apply_write seconds existing (start_of "r") "21" 21 j1))))
  = Some "started"%string.
Proof. vm_compute. reflexivity. Qed.

(** A stop that is kept is refused as never pinned once its root is pruned. *)
Example pruned_root_blocks_resume :
  let j1 := run_jops seconds [JWrite (start_of "next") "150" 150; JWrite (stop_of "next" "160") "160" 160] resumed in
  let j2 := snd (prune_sync 200 100 j1) in
  admitted (fst (assess_continuation_sync "next" "third" "sha" "chat" "201" j1)) = true /\
  message (fst (assess_continuation_sync "next" "third" "sha" "chat" "201" j2)) = "Lineage root was never pinned."%string.
Proof. vm_compute. by split. Qed.
