(* ===== verification/DispatchTracker.v ===== *)
(** * The dispatch tracker
    ([systems/pipeline/core/execution/async_tracker], [async_tracker_delivery/outcome.py],
    the journal writers of [dispatch_journal.py])

    The records of dispatched pipeline runs in memory, the tasks that deliver
    and journal them, and, joined with the journal, the whole as a transition
    system that survives restarts.  Records are objects that tasks share, so
    they live in a heap.  What only the delivery sender reads of a record
    (the poster's identity, the subject, the thread's disposition) and the
    labels [work_key], [resolved_contract], [resolved_model] are left out. *)
From stdpp Require Import base list strings relations.
From Stdlib Require Import ZArith QArith Lia.
From S2P Require Import Prelude PyFloat PyString PyJson DispatchJournal.
Open Scope Z_scope.
#[local] Set Default Proof Using "Type".

(** ** Records *)

Record StepStop := mkStop {
  kind : string;
  stop_reason : option string;
  payload : list (string * json);
  resume_key : option string
}.

Record PipelineExecutionResult := mkResult {
  content : string;
  model : string;
  model_entity_id : option string;
  usage : json;
  duration_s : Q;
  reasoning : json;
  hints : list json;                 (* absent or empty alike *)
  stop : option StepStop;
  archive_uri : option string;
  tool_errors : list json
}.

Record PipelineExecutionError := mkError {
  error_code_ : string;
  error_message : string;
  error_data : json
}.

Inductive OutcomeStatus : Type := delivered | failed_delivery | skipped.

Record DeliveryOutcome := mkDelivery {
  outcome : OutcomeStatus;
  failure_reason : option string;
  delivery_mode : option string;
  thread : option string;
  sidecar_uri : option string;
  content_sha256 : option string
}.

Inductive RunStatus : Type := running | completed | failed.
#[export] Instance RunStatus_eq_dec : EqDecision RunStatus.
Proof. solve_decision. Defined.

Definition status_text (s : RunStatus) : string :=
  match s with running => "running" | completed => "completed" | failed => "failed" end.

Definition is_terminal (s : RunStatus) : bool := match s with running => false | _ => true end.

Record PipelineExecutionRecord := mkRecord {
  execution_id : string;
  pipeline : string;
  run_status : RunStatus;
  rec_started_at : string;
  started_at_monotonic : Q;
  rec_completed_at : option string;
  completed_at_monotonic : option Q;
  result : option PipelineExecutionResult;
  error : option PipelineExecutionError;
  result_delivery : option (list (string * json));
  rec_caller_agent : option string;
  terminal_event : bool;
  output_contract : string;
  target_thread : option string;
  to_thread : bool;                  (* op == "to_thread" *)
  op : option string;
  thread_reply_observed_at : option string;
  endpoint_request_id : option string;
  delivery : option DeliveryOutcome
}.

(** *** [to_dict] *)

Definition jopt (o : option string) : json := match o with Some s => JStr s | None => JNull end.

Definition stop_to_dict (s : StepStop) : json :=
  JObj [("kind", JStr (kind s)); ("reason", jopt (stop_reason s)); ("payload", JObj (payload s));
        ("resume_key", jopt (resume_key s))]%string.

Definition result_to_dict (r : PipelineExecutionResult) : json :=
  JObj [("content", JStr (content r)); ("model", JStr (model r)); ("model_entity_id", jopt (model_entity_id r));
        ("usage", usage r); ("duration_s", JNum (duration_s r)); ("reasoning", reasoning r);
        ("hints", JArr (hints r));
        ("stop", match stop r with Some s => stop_to_dict s | None => JNull end);
        ("archive_uri", jopt (archive_uri r)); ("tool_errors", JArr (tool_errors r))]%string.

Definition error_to_dict (e : PipelineExecutionError) : json :=
  JObj [("code", JStr (error_code_ e)); ("message", JStr (error_message e)); ("data", error_data e)]%string.

(** [DeliveryState.to_dict], where the hints are prose. *)
Definition outcome_text (s : OutcomeStatus) : string :=
  match s with delivered => "delivered" | failed_delivery => "failed" | skipped => "skipped" end.

Definition recovery_kind (d : DeliveryOutcome) : string :=
  match sidecar_uri d with
  | Some u => if bool_decide (u = ""%string) then
                match outcome d with delivered => "thread" | _ => "pipeline_result" end
              else "sidecar"
  | None => match outcome d with delivered => "thread" | _ => "pipeline_result" end
  end.

Definition delivery_to_dict (execution_id : string) (hint : string) (d : DeliveryOutcome) : json :=
  JObj [("attempted", JBool true); ("status", JStr (outcome_text (outcome d))); ("mode", jopt (delivery_mode d));
        ("thread", jopt (thread d)); ("sidecar_uri", jopt (sidecar_uri d)); ("content_sha256", jopt (content_sha256 d));
        ("failure_reason", jopt (failure_reason d));
        ("recovery", JObj [("kind", JStr (recovery_kind d)); ("thread", jopt (thread d));
                           ("execution_id", JStr execution_id); ("sidecar_uri", jopt (sidecar_uri d));
                           ("hint", JStr hint)])]%string.

Section Dicts.
Context (recovery_hint : string -> DeliveryOutcome -> string).

(** The entries before and after [status] and [state]; both journal writers
    take these two out. *)
Definition dict_rest (r : PipelineExecutionRecord) : list (string * json) :=
  [("execution_id", JStr (execution_id r)); ("pipeline", JStr (pipeline r));
   ("started_at", JStr (rec_started_at r)); ("completed_at", jopt (rec_completed_at r));
   ("result", match result r with Some x => result_to_dict x | None => JNull end);
   ("error", match error r with Some x => error_to_dict x | None => JNull end);
   ("caller_agent", jopt (rec_caller_agent r)); ("output_contract", JStr (output_contract r));
   ("target_thread", jopt (target_thread r)); ("op", jopt (op r));
   ("thread_reply_observed_at", jopt (thread_reply_observed_at r));
   ("endpoint_request_id", jopt (endpoint_request_id r));
   ("delivery", match delivery r with
                | Some d => delivery_to_dict (execution_id r) (recovery_hint (execution_id r) d) d
                | None => JNull
                end)]%string.

Definition to_dict (r : PipelineExecutionRecord) : list (string * json) :=
  take 2 (dict_rest r)
  ++ [("status", JStr (status_text (run_status r))); ("state", JStr (status_text (run_status r)))]%string
  ++ drop 2 (dict_rest r).

Definition without_status (d : list (string * json)) : list (string * json) :=
  List.filter (fun kv => negb (bool_decide (kv.1 = "status"%string)) && negb (bool_decide (kv.1 = "state"%string))) d.

(** [d.update(extra)] *)
Definition dict_update (d extra : list (string * json)) : list (string * json) :=
  fold_left (fun d kv => dset kv.1 kv.2 d) extra d.

(** [status_basis("status", ...)] *)
Definition status_basis (status as_of scope : string) (extra : list (string * json)) : list (string * json) :=
  dict_update
    [("status", JStr status); ("as_of", JStr as_of); ("source", JStr "pipeline_dispatch_journal");
     ("scope", JStr scope); ("epoch", JObj [("writer", JStr "pipeline_dispatch_journal")]);
     ("recovery", JObj [("consulted", JArr [JStr "pipeline_tracker"; JStr "pipeline_dispatch_journal"])])]%string
    extra.

Definition started_payload (r : PipelineExecutionRecord) : list (string * json) :=
  status_basis "started" (rec_started_at r) ("execution:" +:+ execution_id r) (without_status (to_dict r)).

Definition terminal_payload (completed_at : string) (r : PipelineExecutionRecord) : list (string * json) :=
  status_basis (status_text (run_status r)) completed_at ("execution:" +:+ execution_id r)
    (("state"%string, JStr (status_text (run_status r))) :: without_status (to_dict r)).

End Dicts.

(** ** The tracker *)

Inductive Event : Type :=
  | DispatchAsync (execution_id : string)
  | DispatchRejected (pipeline : string)
  | DispatchCompleted (execution_id : string) (status : RunStatus)
  | DeliverySkipped (execution_id : string)
  | TrackerExpired (execution_id : string) (status : RunStatus).

(** Pending tasks.  A journal writer runs on the event loop up to its
    [to_thread] call, then on a thread; the [started] write reads the row's
    status before its transaction. *)
Inductive Task : Type :=
  | StartedBegin (r : nat)
  | StartedRead (w : Write)
  | StartedApply (existing : option string) (w : Write)
  | TerminalBegin (r : nat)
  | TerminalApply (r : nat) (body : list (string * json))
  | Deliver (r : nat)
  | DispatchAdmit (r : nat).

Record Tracker := mkTracker {
  records : list (string * nat);
  heap : list PipelineExecutionRecord;
  pending : list Task;
  emitted : list Event
}.

(** The configuration; the writers are installed at startup. *)
Record Config := mkConfig {
  max_records : nat;
  retention_seconds : Q;
  has_event_bus : bool;
  has_delivery_sender : bool;
  has_agent_bus_token : bool
}.

Section Tracker.
Context (cfg : Config).

Definition with_tasks (ts : list Task) (t : Tracker) : Tracker :=
  mkTracker (records t) (heap t) ts (emitted t).
Definition schedule (k : Task) (t : Tracker) : Tracker := with_tasks (pending t ++ [k]) t.
Definition emit (e : Event) (t : Tracker) : Tracker :=
  if has_event_bus cfg then mkTracker (records t) (heap t) (pending t) (emitted t ++ [e]) else t.
Definition with_record (r : nat) (x : PipelineExecutionRecord) (t : Tracker) : Tracker :=
  mkTracker (records t) (<[r := x]> (heap t)) (pending t) (emitted t).

(** *** [_prune_terminal_records] *)

Definition is_expired (now : Q) (t : Tracker) (kr : string * nat) : bool :=
  match heap t !! kr.2 with
  | Some x => match completed_at_monotonic x with
              | Some c => flt (retention_seconds cfg) (fsub now c)
              | None => false
              end
  | None => false
  end.

Definition prune_terminal_records (now : Q) (t : Tracker) : Tracker :=
  let gone := List.filter (is_expired now t) (records t) in
  fold_left (fun t' kr =>
      let t'' := mkTracker (ddel kr.1 (records t')) (heap t') (pending t') (emitted t') in
      match heap t !! kr.2 with Some x => emit (TrackerExpired kr.1 (run_status x)) t'' | None => t'' end)
    gone t.

(** *** Deliveries and journal entries *)

Definition has_delivery_config (x : PipelineExecutionRecord) : bool :=
  bool_decide (is_Some (result_delivery x)) || (to_thread x && bool_decide (is_Some (target_thread x))).

Definition schedule_delivery (r : nat) (x : PipelineExecutionRecord) (t : Tracker) : Tracker :=
  if negb (has_delivery_sender cfg) then t
  else if to_thread x && negb (bool_decide (run_status x = completed)) &&
          negb (bool_decide (run_status x = failed) && bool_decide (output_contract x = "thread"%string)
                && bool_decide (is_Some (target_thread x)) && bool_decide (is_Some (error x)))
  then t
  else if negb (has_delivery_config x) then emit (DeliverySkipped (execution_id x)) t
  else schedule (Deliver r) t.

Definition schedule_journal (r : nat) (t : Tracker) : Tracker := schedule (TerminalBegin r) t.

(** *** [register_execution] *)

Record Request := mkRequest {
  q_execution_id : string;
  q_pipeline : string;
  q_started_at : string;
  q_result_delivery : option (list (string * json));
  q_caller_agent : option string;
  q_output_contract : string;
  q_target_thread : option string;
  q_op : option string;
  q_endpoint_request_id : option string
}.

Definition new_record (now : Q) (q : Request) : PipelineExecutionRecord :=
  mkRecord (q_execution_id q) (q_pipeline q) running (q_started_at q) now None None None None
    (q_result_delivery q) (q_caller_agent q) false (q_output_contract q) (q_target_thread q)
    (bool_decide (q_op q = Some "to_thread"%string)) (q_op q) None (q_endpoint_request_id q) None.

Definition first_terminal (t : Tracker) : option string :=
  fst <$> List.find (fun kr => match heap t !! kr.2 with Some x => is_terminal (run_status x) | None => false end) (records t).

Definition admit_record (now : Q) (q : Request) (t : Tracker) : Tracker :=
  let r := length (heap t) in
  let t1 := mkTracker (dset (q_execution_id q) r (records t)) (heap t ++ [new_record now q]) (pending t) (emitted t) in
  let t2 := emit (DispatchAsync (q_execution_id q)) t1 in
  let wants_admit := match q_result_delivery q with
                     | Some d => negb (bool_decide (d = [])) && truthy (jget "bus_thread" d)
                     | None => false
                     end in
  schedule (StartedBegin r) (if wants_admit && has_agent_bus_token cfg then schedule (DispatchAdmit r) t2 else t2).

Definition register_execution (now : Q) (q : Request) (t : Tracker) : exn nat * Tracker :=
  let t := prune_terminal_records now t in
  if (max_records cfg <=? length (records t))%nat then
    match first_terminal t with
    | Some terminal_id =>
        (Ok (length (heap t)), admit_record now q (mkTracker (ddel terminal_id (records t)) (heap t) (pending t) (emitted t)))
    | None => (Raise TrackerCapacityError, emit (DispatchRejected (q_pipeline q)) t)
    end
  else (Ok (length (heap t)), admit_record now q t).

(** *** [complete_execution] and [fail_execution] *)

Definition finish (s : RunStatus) (res : option PipelineExecutionResult) (err : option PipelineExecutionError)
    (now_iso : string) (now : Q) (x : PipelineExecutionRecord) : PipelineExecutionRecord :=
  mkRecord (execution_id x) (pipeline x) s (rec_started_at x) (started_at_monotonic x) (Some now_iso) (Some now)
    (match res with Some _ => res | None => result x end) (match err with Some _ => err | None => error x end)
    (result_delivery x) (rec_caller_agent x) true (output_contract x) (target_thread x) (to_thread x) (op x)
    (thread_reply_observed_at x) (endpoint_request_id x) (delivery x).

(** The record of a run that is known and not terminal. *)
Definition open_record (id : string) (t : Tracker) : option (nat * PipelineExecutionRecord) :=
  match dget id (records t) with
  | Some r => match heap t !! r with
              | Some x => if is_terminal (run_status x) then None else Some (r, x)
              | None => None
              end
  | None => None
  end.

Definition complete_execution (id : string) (res : PipelineExecutionResult) (now_iso : string) (now : Q) (t : Tracker) : Tracker :=
  match open_record id t with
  | None => t
  | Some (r, x) =>
      let x' := finish completed (Some res) None now_iso now x in
      let t1 := schedule_delivery r x' (emit (DispatchCompleted id completed) (with_record r x' t)) in
      if to_thread x' then t1 else schedule_journal r t1
  end.

Definition fail_execution (id : string) (err : PipelineExecutionError) (now_iso : string) (now : Q) (t : Tracker) : Tracker :=
  match open_record id t with
  | None => t
  | Some (r, x) =>
      let x' := finish failed None (Some err) now_iso now x in
      schedule_journal r (schedule_delivery r x' (emit (DispatchCompleted id failed) (with_record r x' t)))
  end.

Definition get_record (now : Q) (id : string) (t : Tracker) : option nat * Tracker :=
  let t := prune_terminal_records now t in (dget id (records t), t).

(** What [wait_for_terminal] waits for, if it waits. *)
Definition must_wait (id : string) (timeout_seconds : Q) (t : Tracker) : bool :=
  match open_record id t with Some _ => negb (Qle_bool timeout_seconds 0) | None => false end.

(** *** [_run_delivery_with_outcome], once the sender has answered: [None] for
    a legacy sender and for one that raised. *)

Definition demoted (reason : string) (text : string) (x : PipelineExecutionRecord) : PipelineExecutionRecord :=
  mkRecord (execution_id x) (pipeline x) failed (rec_started_at x) (started_at_monotonic x) (rec_completed_at x)
    (completed_at_monotonic x) (result x) (Some (mkError reason text JNull)) (result_delivery x) (rec_caller_agent x)
    (terminal_event x) (output_contract x) (target_thread x) (to_thread x) (op x) (thread_reply_observed_at x)
    (endpoint_request_id x) (delivery x).

Definition with_delivery (d : DeliveryOutcome) (x : PipelineExecutionRecord) : PipelineExecutionRecord :=
  mkRecord (execution_id x) (pipeline x) (run_status x) (rec_started_at x) (started_at_monotonic x) (rec_completed_at x)
    (completed_at_monotonic x) (result x) (error x) (result_delivery x) (rec_caller_agent x)
    (terminal_event x) (output_contract x) (target_thread x) (to_thread x) (op x) (thread_reply_observed_at x)
    (endpoint_request_id x) (Some d).

(** [failure_reason or "delivery_failed"] *)
Definition reason_of (d : DeliveryOutcome) : string :=
  match failure_reason d with
  | Some s => if bool_decide (s = ""%string) then "delivery_failed" else s
  | None => "delivery_failed"
  end.

Definition run_delivery (r : nat) (x : PipelineExecutionRecord) (res : option DeliveryOutcome) (text : string) (t : Tracker) : Tracker :=
  match res with
  | None => if to_thread x then schedule_journal r t else t
  | Some d =>
      if to_thread x then
        let x1 := with_delivery d x in
        schedule_journal r
          (match outcome d, run_status x with
           | failed_delivery, completed =>
               emit (DispatchCompleted (execution_id x) failed) (with_record r (demoted (reason_of d) text x1) t)
           | _, _ => with_record r x1 t
           end)
      else t
  end.

(** ** Histories of the tracker *)

Inductive TOp : Type :=
  | TRegister (now : Q) (q : Request)
  | TComplete (id : string) (res : PipelineExecutionResult) (now_iso : string) (now : Q)
  | TFail (id : string) (err : PipelineExecutionError) (now_iso : string) (now : Q)
  | TGet (now : Q) (id : string)
  | TDelivered (r : nat) (res : option DeliveryOutcome) (text : string).

Definition run_top (t : Tracker) (o : TOp) : Tracker :=
  match o with
  | TRegister now q => snd (register_execution now q t)
  | TComplete id res iso now => complete_execution id res iso now t
  | TFail id err iso now => fail_execution id err iso now t
  | TGet now id => snd (get_record now id t)
  | TDelivered r res text => match heap t !! r with Some x => run_delivery r x res text t | None => t end
  end.

Definition empty_tracker : Tracker := mkTracker [] [] [] [].
Definition run_tops (ops : list TOp) : Tracker := fold_left run_top ops empty_tracker.

Definition heap_ids (t : Tracker) : list string := map execution_id (heap t).

(** Execution ids are fresh (they are UUIDs). *)
Definition fresh_op (t : Tracker) (o : TOp) : Prop :=
  match o with TRegister _ q => q_execution_id q ∉ heap_ids t | _ => True end.

Fixpoint fresh_ops (ops : list TOp) (t : Tracker) : Prop :=
  match ops with [] => True | o :: ops' => fresh_op t o /\ fresh_ops ops' (run_top t o) end.

(** The terminal statuses announced of a run, in order. *)
Definition completions (id : string) (evs : list Event) : list RunStatus :=
  omap (fun e => match e with
                 | DispatchCompleted id' s => if decide (id' = id) then Some s else None
                 | _ => None
                 end) evs.

Definition announced (x : PipelineExecutionRecord) (l : list RunStatus) : Prop :=
  match run_status x with
  | running => l = []
  | completed => l = [completed]
  | failed => l = [failed] \/ (to_thread x = true /\ l = [completed; failed])
  end.

Record TInv (t : Tracker) : Prop := {
  ti_keys : NoDup (dkeys (records t));
  ti_refs : forall id r, dget id (records t) = Some r -> exists x, heap t !! r = Some x /\ execution_id x = id;
  ti_ids : NoDup (heap_ids t);
  ti_size : (length (records t) <= max_records cfg)%nat;
  ti_running : forall r x, heap t !! r = Some x -> run_status x = running ->
                completed_at_monotonic x = None /\ terminal_event x = false;
  ti_known : forall id, id ∉ heap_ids t -> completions id (emitted t) = [];
  ti_announced : has_event_bus cfg = true -> forall r x, heap t !! r = Some x ->
                announced x (completions (execution_id x) (emitted t))
}.

(** *** Events, pruning and eviction touch no run *)

Lemma emit_frame e t : records (emit e t) = records t /\ heap (emit e t) = heap t /\ pending (emit e t) = pending t.
Proof. unfold emit. by destruct (has_event_bus cfg). Qed.

Lemma completions_snoc id evs e : completions id (evs ++ [e]) = completions id evs ++ completions id [e].
Proof. unfold completions. apply omap_app. Qed.

Lemma emit_completions id e t : completions id (emitted (emit e t)) =
  completions id (emitted t) ++ (if has_event_bus cfg then completions id [e] else []).
Proof. unfold emit. destruct (has_event_bus cfg); simpl; [apply completions_snoc | by rewrite app_nil_r]. Qed.

Lemma emit_other id e t : completions id [e] = [] -> completions id (emitted (emit e t)) = completions id (emitted t).
Proof. intros H. rewrite emit_completions, H. destruct (has_event_bus cfg); apply app_nil_r. Qed.

(** What an operation on the record table alone leaves. *)
Definition same_runs (t t' : Tracker) : Prop :=
  heap t' = heap t /\ pending t' = pending t /\ forall id, completions id (emitted t') = completions id (emitted t).

Lemma emit_same e t : (forall id, completions id [e] = []) -> same_runs t (emit e t).
Proof. intros H. destruct (emit_frame e t) as (_ & H2 & H3). split_and!; [done|done|]. intros id. by apply emit_other. Qed.

Lemma ddel_length {V} (k : string) (d : list (string * V)) v : dget k d = Some v -> (length d = S (length (ddel k d)))%nat.
Proof.
  induction d as [|[k' v'] d IH]; simpl; [done|]. destruct (decide (k = k')); [done|]. intros H. simpl. by rewrite IH.
Qed.

Lemma ddel_length_le {V} (k : string) (d : list (string * V)) : (length (ddel k d) <= length d)%nat.
Proof. induction d as [|[k' v'] d IH]; simpl; [done|]. destruct (decide (k = k')); simpl; lia. Qed.

Lemma prune_spec now t : TInv t ->
  let t' := prune_terminal_records now t in
  same_runs t t' /\ NoDup (dkeys (records t')) /\ (length (records t') <= length (records t))%nat /\
  forall id r, dget id (records t') = Some r <-> dget id (records t) = Some r /\ is_expired now t (id, r) = false.
Proof.
  intros H. unfold prune_terminal_records. set (step := fun t' kr => _). set (gone := List.filter _ _).
  assert (Hgen : forall l t0, same_runs t t0 -> NoDup (dkeys (records t0)) -> (length (records t0) <= length (records t))%nat ->
    let t' := fold_left step l t0 in
    same_runs t t' /\ NoDup (dkeys (records t')) /\ (length (records t') <= length (records t))%nat /\
    forall id r, dget id (records t') = Some r <-> dget id (records t0) = Some r /\ id ∉ map fst l).
  { induction l as [|[k r0] l IH]; intros t0 Hs Hnd Hlen; simpl.
    - split_and!; [done|done|done|]. intros id r. split; [intros ?; split; [done | by intros ?%elem_of_nil] | by intros []].
    - assert (Hstep : same_runs t (step t0 (k, r0)) /\ records (step t0 (k, r0)) = ddel k (records t0)).
      { unfold step. simpl. destruct Hs as (Hh & Hp & Hc). set (t1 := mkTracker _ _ _ _).
        assert (Hs1 : same_runs t t1) by (by split_and!).
        destruct (heap t !! r0) as [x|]; [|done].
        destruct (emit_frame (TrackerExpired k (run_status x)) t1) as (E1 & E2 & E3).
        destruct Hs1 as (S1 & S2 & S3).
        split; [|by rewrite E1]. split_and!; [by rewrite E2 | by rewrite E3|].
        intros id. rewrite emit_other by done. apply S3. }
      destruct Hstep as [Hs1 Hrec]. destruct (IH (step t0 (k, r0)) Hs1) as (A & B & C & D).
      + rewrite Hrec. by apply NoDup_dkeys_ddel.
      + rewrite Hrec. pose proof (ddel_length_le k (records t0)). lia.
      + split_and!; [done|done|done|]. intros id r. rewrite D, Hrec, not_elem_of_cons. destruct (decide (id = k)) as [->|Hne].
        * rewrite dget_ddel_eq by done. naive_solver.
        * rewrite dget_ddel_ne by done. naive_solver. }
  destruct (Hgen gone t) as (A & B & C & D); [by split_and!|by apply ti_keys|done|]. split_and!; [done|done|done|].
  intros id r. rewrite D. split; intros [Hr Hx]; (split; [done|]).
  - apply not_true_iff_false. intros He. apply Hx, list_elem_of_fmap. exists (id, r). split; [done|].
    apply elem_of_lfilter. split; [by apply dget_Some_in | done].
  - intros ([k r'] & -> & Hin)%list_elem_of_fmap. apply elem_of_lfilter in Hin as [Hin He].
    apply (elem_of_dget _ _ _ (ti_keys t H)) in Hin. simpl in *. replace r' with r in He by congruence. congruence.
Qed.

Lemma running_not_expired now t id r x : TInv t -> heap t !! r = Some x -> run_status x = running ->
  is_expired now t (id, r) = false.
Proof. intros H Hx Hr. unfold is_expired. simpl. rewrite Hx. by destruct (ti_running t H r x Hx Hr) as [-> _]. Qed.

Lemma same_runs_inv t t' : TInv t -> same_runs t t' -> NoDup (dkeys (records t')) ->
  (length (records t') <= length (records t))%nat ->
  (forall id r, dget id (records t') = Some r -> dget id (records t) = Some r) -> TInv t'.
Proof.
  intros [K R I S N U A] (Hh & Hp & Hc) Hk Hl Hd. unfold heap_ids in *. split; rewrite ?Hh; try done.
  - intros id r Hr. apply R. by apply Hd.
  - unfold heap_ids. by rewrite Hh.
  - lia.
  - unfold heap_ids. rewrite Hh. intros id Hid. rewrite Hc. by apply U.
  - intros Hb r x Hx. rewrite Hc. by eapply A.
Qed.

Lemma prune_inv now t : TInv t -> TInv (prune_terminal_records now t).
Proof.
  intros H. destruct (prune_spec now t H) as (A & B & C & D). apply (same_runs_inv t); try done.
  intros id r Hr. by apply D in Hr as [Hr _].
Qed.

(** *** Runs that begin and end *)

Lemma record_id t r x : heap t !! r = Some x -> execution_id x ∈ heap_ids t.
Proof. intros H. apply list_elem_of_fmap. exists x. split; [done|]. by eapply list_elem_of_lookup_2. Qed.

Lemma same_record t r r' x x' : TInv t -> heap t !! r = Some x -> heap t !! r' = Some x' ->
  execution_id x = execution_id x' -> r = r'.
Proof.
  intros H Hx Hx' He. apply (NoDup_lookup (heap_ids t) r r' (execution_id x) (ti_ids t H)).
  - unfold heap_ids. by rewrite list_lookup_fmap, Hx.
  - unfold heap_ids. rewrite list_lookup_fmap, Hx'. simpl. by rewrite He.
Qed.

Lemma heap_ids_insert t r x x' : heap t !! r = Some x -> execution_id x' = execution_id x ->
  map execution_id (<[r := x']> (heap t)) = heap_ids t.
Proof.
  intros Hx He. unfold heap_ids. change (map execution_id) with (fmap (M := list) execution_id).
  rewrite list_fmap_insert, He. apply list_insert_id. by rewrite list_lookup_fmap, Hx.
Qed.

Lemma update_inv t t' r x x' : TInv t -> heap t !! r = Some x -> records t' = records t ->
  heap t' = <[r := x']> (heap t) -> execution_id x' = execution_id x ->
  (run_status x' = running -> completed_at_monotonic x' = None /\ terminal_event x' = false) ->
  (forall id, id <> execution_id x -> completions id (emitted t') = completions id (emitted t)) ->
  (has_event_bus cfg = true -> announced x' (completions (execution_id x) (emitted t'))) -> TInv t'.
Proof.
  intros H Hx Hrec Hheap He Hrun Hoth Hann. assert (Hids : heap_ids t' = heap_ids t).
  { unfold heap_ids at 1. rewrite Hheap. by eapply heap_ids_insert. }
  pose proof (lookup_lt_Some _ _ _ Hx) as Hlt. split.
  - rewrite Hrec. by apply ti_keys.
  - rewrite Hrec. intros id r0 Hr. destruct (ti_refs t H id r0 Hr) as (x0 & Hx0 & Hid). rewrite Hheap.
    destruct (decide (r0 = r)) as [->|Hne].
    + exists x'. rewrite list_lookup_insert_eq by done. split; [done|]. congruence.
    + exists x0. by rewrite list_lookup_insert_ne.
  - rewrite Hids. by apply ti_ids.
  - rewrite Hrec. by apply ti_size.
  - rewrite Hheap. intros r0 x0 Hr0. destruct (decide (r0 = r)) as [->|Hne].
    + rewrite list_lookup_insert_eq in Hr0 by done. injection Hr0 as <-. done.
    + rewrite list_lookup_insert_ne in Hr0 by done. by eapply ti_running.
  - intros id. rewrite Hids. intros Hid. rewrite Hoth; [by apply ti_known|]. intros ->. by apply Hid, (record_id t r).
  - intros Hb r0 x0. rewrite Hheap. destruct (decide (r0 = r)) as [->|Hne].
    + rewrite list_lookup_insert_eq by done. intros [= <-]. rewrite He. by apply Hann.
    + rewrite list_lookup_insert_ne by done. intros Hr0. rewrite Hoth; [by eapply ti_announced|].
      intros Heq. by apply Hne, (same_record t r0 r x0 x).
Qed.

Lemma schedule_inv k t : TInv t -> TInv (schedule k t).
Proof. intros [K R I S N U A]. by split. Qed.

Lemma admit_inv now q t : TInv t -> q_execution_id q ∉ heap_ids t -> (length (records t) < max_records cfg)%nat ->
  TInv (admit_record now q t).
Proof.
  intros H Hf Hl. unfold admit_record. set (t1 := mkTracker _ _ _ _). set (t2 := emit _ t1).
  assert (Hk : q_execution_id q ∉ dkeys (records t)).
  { intros [r Hr]%dkeys_dget. destruct (ti_refs t H _ _ Hr) as (x & Hx & Hid). apply Hf. rewrite <- Hid.
    by apply (record_id t r). }
  assert (H2 : TInv t2); [|apply schedule_inv; destruct (_ && _); [by apply schedule_inv | done]].
  destruct (emit_frame (DispatchAsync (q_execution_id q)) t1) as (E1 & E2 & _). fold t2 in E1, E2.
  assert (Hc : forall id, completions id (emitted t2) = completions id (emitted t))
    by (intros id; exact (emit_other id (DispatchAsync _) t1 eq_refl)).
  assert (Hids : heap_ids t2 = heap_ids t ++ [q_execution_id q]) by (unfold heap_ids; rewrite E2; simpl; by rewrite map_app).
  split.
  - rewrite E1. by apply NoDup_dkeys_dset, ti_keys.
  - rewrite E1, E2. intros id r. simpl. destruct (decide (id = q_execution_id q)) as [->|Hne].
    + rewrite dget_dset_eq. intros [= <-]. exists (new_record now q). split; [|done]. by rewrite lookup_app_r, Nat.sub_diag.
    + rewrite dget_dset_ne by done. intros Hr. destruct (ti_refs t H _ _ Hr) as (x & Hx & Hid). exists x.
      split; [|done]. rewrite lookup_app_l; [done | by eapply lookup_lt_Some].
  - rewrite Hids. apply NoDup_app. split; [by apply ti_ids|]. split; [|apply NoDup_singleton].
    intros id Hid Hs. apply list_elem_of_singleton in Hs. by subst id.
  - rewrite E1. unfold t1. cbn [records]. rewrite <- (length_map fst), (dkeys_dset_absent _ _ _ Hk : map fst _ = _).
    rewrite length_app. unfold dkeys. rewrite length_map. simpl. lia.
  - rewrite E2. intros r x. simpl. intros [Hr|[_ Hr]]%lookup_app_Some; [by eapply ti_running|].
    by apply list_lookup_singleton_Some in Hr as [_ <-].
  - rewrite Hids. intros id Hid. rewrite Hc. apply ti_known; [done|]. set_solver.
  - intros Hb r x. rewrite E2, Hc. simpl. intros [Hr|[_ Hr]]%lookup_app_Some; [by eapply ti_announced|].
    apply list_lookup_singleton_Some in Hr as [_ <-]. by apply (ti_known t H).
Qed.

Lemma open_record_spec id t r x : TInv t -> open_record id t = Some (r, x) ->
  dget id (records t) = Some r /\ heap t !! r = Some x /\ run_status x = running /\ execution_id x = id.
Proof.
  intros H. unfold open_record. destruct (dget id (records t)) as [r0|] eqn:Er; [|done].
  destruct (ti_refs t H id r0 Er) as (x0 & Hx0 & Hid). rewrite Hx0. destruct (is_terminal (run_status x0)) eqn:E; [done|].
  intros [= <- <-]. split_and!; [done|done| |done]. by destruct (run_status x0).
Qed.

Lemma schedule_delivery_frame r x t : records (schedule_delivery r x t) = records t /\ heap (schedule_delivery r x t) = heap t /\
  forall id, completions id (emitted (schedule_delivery r x t)) = completions id (emitted t).
Proof.
  unfold schedule_delivery. destruct (negb (has_delivery_sender cfg)); [done|]. case_match; [done|].
  destruct (negb (has_delivery_config x)); [|done]. destruct (emit_frame (DeliverySkipped (execution_id x)) t) as (? & ? & _).
  split_and!; [done|done|]. intros id. by apply emit_other.
Qed.

(** The core of both terminal transitions. *)
Lemma finish_inv id r x x' s t t' : TInv t -> open_record id t = Some (r, x) ->
  execution_id x' = id -> run_status x' = s -> s <> running ->
  let t1 := schedule_delivery r x' (emit (DispatchCompleted id s) (with_record r x' t)) in
  records t' = records t1 -> heap t' = heap t1 -> emitted t' = emitted t1 -> TInv t'.
Proof.
  intros H Ho Hid Hs Hne t1 Hr Hh He. destruct (open_record_spec id t r x H Ho) as (Hg & Hx & Hrun & Hxid).
  destruct (schedule_delivery_frame r x' (emit (DispatchCompleted id s) (with_record r x' t))) as (F1 & F2 & F3).
  destruct (emit_frame (DispatchCompleted id s) (with_record r x' t)) as (G1 & G2 & _).
  apply (update_inv t t' r x x'); try done.
  - by rewrite Hr; unfold t1; rewrite F1, G1.
  - by rewrite Hh; unfold t1; rewrite F2, G2.
  - congruence.
  - congruence.
  - intros id' Hne'. rewrite He. unfold t1. rewrite F3, emit_other; [done|]. simpl. rewrite decide_False by congruence. done.
  - intros Hb. rewrite He. unfold t1. rewrite F3, emit_completions, Hb, Hxid. simpl. rewrite decide_True by done.
    pose proof (ti_announced t H Hb r x Hx) as Ha. unfold announced in Ha. rewrite Hrun, Hxid in Ha. rewrite Ha.
    unfold announced. rewrite Hs. destruct s; [done|done|by left].
Qed.

Lemma run_top_inv o t : TInv t -> fresh_op t o -> TInv (run_top t o).
Proof.
  intros H Hf. destruct o as [now q|id res iso now|id err iso now|now id|r res text]; simpl.
  - pose proof (prune_inv now t H) as H0. destruct (prune_spec now t H) as ((Hh & _) & _).
    assert (Hf' : q_execution_id q ∉ heap_ids (prune_terminal_records now t)) by (unfold heap_ids; by rewrite Hh).
    unfold register_execution. set (t0 := prune_terminal_records now t) in *.
    destruct (max_records cfg <=? length (records t0))%nat eqn:El.
    + apply Nat.leb_le in El. unfold first_terminal. destruct (List.find _ _) as [[k r]|] eqn:Ek; simpl.
      * apply find_some in Ek as [Hin _]. apply list_elem_of_In, (elem_of_dget _ _ _ (ti_keys _ H0)) in Hin.
        set (t1 := mkTracker _ _ _ _). assert (Hlen := ddel_length _ _ _ Hin). pose proof (ti_size _ H0) as Hsz.
        apply admit_inv; [|done|simpl; lia]. apply (same_runs_inv t0); [done|by split_and!|by apply NoDup_dkeys_ddel, ti_keys|simpl; lia|].
        intros id r0. simpl. destruct (decide (id = k)) as [->|Hne]; [by rewrite (dget_ddel_eq _ _ (ti_keys _ H0))|].
        by rewrite dget_ddel_ne.
      * destruct (emit_frame (DispatchRejected (q_pipeline q)) t0) as (F1 & F2 & F3).
        apply (same_runs_inv t0); [done|by apply emit_same|rewrite F1; by apply ti_keys|by rewrite F1|by rewrite F1].
    + apply Nat.leb_gt in El. by apply admit_inv.
  - unfold complete_execution. destruct (open_record id t) as [[r x]|] eqn:E; [|done].
    destruct (open_record_spec id t r x H E) as (_ & _ & _ & Hid).
    destruct (to_thread _); by apply (finish_inv id r x (finish completed (Some res) None iso now x) completed t _ H E).
  - unfold fail_execution. destruct (open_record id t) as [[r x]|] eqn:E; [|done].
    destruct (open_record_spec id t r x H E) as (_ & _ & _ & Hid).
    by apply (finish_inv id r x (finish failed None (Some err) iso now x) failed t _ H E).
  - by apply prune_inv.
  - destruct (heap t !! r) as [x|] eqn:Ex; [|done]. unfold run_delivery.
    destruct res as [d|]; [|destruct (to_thread x); [by apply schedule_inv | done]]. destruct (to_thread x) eqn:Et; [|done].
    destruct (outcome d) eqn:Eo, (run_status x) eqn:Es;
      try (apply (update_inv t _ r x (with_delivery d x)); try done; simpl;
           [by eapply ti_running; rewrite ?Es | intros Hb; pose proof (ti_announced t H Hb r x Ex) as Ha; exact Ha]).
    destruct (emit_frame (DispatchCompleted (execution_id x) failed)
                (with_record r (demoted (reason_of d) text (with_delivery d x)) t)) as (F1 & F2 & _).
    apply (update_inv t _ r x (demoted (reason_of d) text (with_delivery d x))); try done.
    + intros id Hne. unfold schedule_journal. simpl. rewrite emit_other; [done|]. simpl. by rewrite decide_False.
    + intros Hb. unfold schedule_journal. simpl. rewrite emit_completions, Hb. simpl. rewrite decide_True by done.
      pose proof (ti_announced t H Hb r x Ex) as Ha. unfold announced in Ha. rewrite Es in Ha. rewrite Ha. right. by split.
Qed.

Lemma empty_inv : TInv empty_tracker.
Proof. split; try done; try apply NoDup_nil_2; simpl; lia. Qed.

Lemma run_tops_inv ops : fresh_ops ops empty_tracker -> TInv (run_tops ops).
Proof.
  unfold run_tops. generalize empty_inv. generalize empty_tracker. induction ops as [|o ops IH]; intros t H; simpl; [done|].
  intros [Ho Hops]. apply IH; [by apply run_top_inv | done].
Qed.

(** ** What the tracker promises *)

Definition is_running (t : Tracker) (kr : string * nat) : bool :=
  match heap t !! kr.2 with Some x => bool_decide (run_status x = running) | None => false end.

Lemma prune_running now t : TInv t ->
  List.filter (is_running t) (records (prune_terminal_records now t)) ≡ₚ List.filter (is_running t) (records t).
Proof.
  intros H. destruct (prune_spec now t H) as (_ & Hnd & _ & Hr). pose proof (ti_keys t H) as Hk.
  assert (Hnd' : forall l : list (string * nat), NoDup (dkeys l) -> NoDup l) by (intros l Hl; by apply (NoDup_fmap_1 fst)).
  apply NoDup_Permutation; [by apply NoDup_lfilter, Hnd'|by apply NoDup_lfilter, Hnd'|]. intros [id r].
  rewrite !elem_of_lfilter. split; intros [Hin Hrun]; (split; [|done]).
  - apply (elem_of_dget _ _ _ Hnd), Hr in Hin as [Hin _]. by apply dget_Some_in.
  - apply (elem_of_dget _ _ _ Hk) in Hin. apply dget_Some_in, Hr. split; [done|]. unfold is_running in Hrun. simpl in Hrun.
    destruct (heap t !! r) as [x|] eqn:E; [|done]. to_prop. by eapply running_not_expired.
Qed.

Lemma first_terminal_None t : TInv t -> first_terminal t = None <-> forall kr, kr ∈ records t -> is_running t kr = true.
Proof.
  intros H. unfold first_terminal. set (p := fun kr : string * nat => _).
  assert (Hp : forall kr, kr ∈ records t -> is_running t kr = negb (p kr)).
  { intros [id r] Hin. apply (elem_of_dget _ _ _ (ti_keys t H)) in Hin. destruct (ti_refs t H id r Hin) as (x & Hx & _).
    unfold is_running, p. simpl. rewrite Hx. by destruct (run_status x). }
  split.
  - intros Hn kr Hin. rewrite (Hp kr Hin). destruct (List.find p (records t)) eqn:E; [done|].
    by rewrite (find_none _ _ E kr (proj1 (list_elem_of_In _ _) Hin)).
  - intros Hall. destruct (List.find p (records t)) as [kr|] eqn:E; [|done]. apply find_some in E as [Hin Hb].
    apply list_elem_of_In in Hin. specialize (Hall kr Hin). rewrite (Hp kr Hin), Hb in Hall. done.
Qed.

Lemma admit_tables now q t : records (admit_record now q t) = dset (q_execution_id q) (length (heap t)) (records t) /\
  heap (admit_record now q t) = heap t ++ [new_record now q].
Proof. unfold admit_record, schedule, with_tasks, emit. by destruct (_ && _), (has_event_bus cfg). Qed.

Lemma all_running t : TInv t -> first_terminal t = None -> List.filter (is_running t) (records t) = records t.
Proof.
  intros H Hf. rewrite <- (lfilter_true (records t)) at 2. apply lfilter_ext_in. by apply first_terminal_None.
Qed.

Lemma running_kept now t id r : TInv t -> dget id (records t) = Some r -> is_running t (id, r) = true ->
  dget id (records (prune_terminal_records now t)) = Some r.
Proof.
  intros H Hr Hrun. destruct (prune_spec now t H) as (_ & _ & _ & Hkeep). apply Hkeep. split; [done|].
  unfold is_running in Hrun. simpl in Hrun. destruct (heap t !! r) as [x|] eqn:E; [|done]. to_prop. by eapply running_not_expired.
Qed.

(** The tracker is bounded and loses no active run: it never holds more
    than [max_records] records; registering a run is refused exactly when that
    many runs are running; whether refused or not it drops no running one, and
    an admitted run is found under its id. *)
Theorem tracker_capacity ops now q :
  fresh_ops ops empty_tracker -> fresh_op (run_tops ops) (TRegister now q) ->
  let t := run_tops ops in
  let (res, t') := register_execution now q t in
  (length (records t') <= max_records cfg)%nat /\
  (res = Raise TrackerCapacityError <-> (max_records cfg <= length (List.filter (is_running t) (records t)))%nat) /\
  (forall id r, dget id (records t) = Some r -> is_running t (id, r) = true -> dget id (records t') = Some r) /\
  (forall r, res = Ok r -> dget (q_execution_id q) (records t') = Some r /\ heap t' !! r = Some (new_record now q)).
Proof.
  intros Hops Hfresh t. assert (H : TInv t) by (by apply run_tops_inv). fold t in Hfresh. simpl in Hfresh.
  assert (Hsize : forall o, fresh_op t o -> (length (records (run_top t o)) <= max_records cfg)%nat)
    by (intros o Ho; by apply ti_size, run_top_inv).
  specialize (Hsize (TRegister now q) Hfresh). simpl in Hsize.
  pose proof (prune_running now t H) as Hperm. pose proof (prune_inv now t H) as H0.
  destruct (prune_spec now t H) as ((Hheap & _) & _ & _ & Hkeep). revert Hsize. unfold register_execution.
  set (t0 := prune_terminal_records now t) in *.
  assert (Hrunning : forall kr, is_running t0 kr = is_running t kr) by (intros kr; unfold is_running; by rewrite Hheap).
  assert (Hkept : forall id r, dget id (records t) = Some r -> is_running t (id, r) = true -> dget id (records t0) = Some r)
    by (intros id r; by apply running_kept).
  assert (Hne : forall id r, dget id (records t) = Some r -> id <> q_execution_id q).
  { intros id r Hr ->. destruct (ti_refs t H _ _ Hr) as (x & Hx & Hid). apply Hfresh. rewrite <- Hid. by apply (record_id t r). }
  destruct (max_records cfg <=? length (records t0))%nat eqn:El.
  - apply Nat.leb_le in El. destruct (first_terminal t0) as [k|] eqn:Ef; cbn [snd]; intros Hsize.
    + destruct (admit_tables now q (mkTracker (ddel k (records t0)) (heap t0) (pending t0) (emitted t0))) as [Er Eh]. rewrite Er in *. rewrite Eh. cbn [records heap].
      unfold first_terminal in Ef. destruct (List.find _ (records t0)) as [[k' rk]|] eqn:Ek; [|done]. injection Ef as ->.
      apply find_some in Ek as [Hin Hb]. apply list_elem_of_In in Hin.
      assert (Hnr : is_running t0 (k, rk) = false) by (unfold is_running; simpl in *; destruct (heap t0 !! rk) as [x|]; [by destruct (run_status x)|done]).
      split; [done|]. split; [|split].
      * split; [done|]. intros Hle. exfalso. rewrite <- Hperm in Hle.
        assert (length (List.filter (is_running t) (records t0)) < length (List.filter (fun _ => true) (records t0)))%nat as Hlt.
        { apply (lfilter_length_lt _ _ _ (k, rk)); [done|done|done|by rewrite <- Hrunning]. }
        rewrite lfilter_true in Hlt. pose proof (ti_size t0 H0). lia.
      * intros id r Hr Hrun. rewrite dget_dset_ne by (apply not_eq_sym; by eapply Hne). pose proof (Hkept id r Hr Hrun) as Hr0.
        rewrite dget_ddel_ne; [done|]. intros <-. apply (elem_of_dget _ _ _ (ti_keys t0 H0)) in Hin.
        rewrite <- Hrunning in Hrun. congruence.
      * intros r [= <-]. rewrite dget_dset_eq. split; [done|]. by rewrite lookup_app_r, Nat.sub_diag.
    + destruct (emit_frame (DispatchRejected (q_pipeline q)) t0) as (F1 & F2 & _). rewrite F1 in *.
      split; [done|]. split; [split; [intros _; rewrite <- Hperm, (lfilter_ext_in _ _ _ (fun kr _ => eq_sym (Hrunning kr))), (all_running t0 H0 Ef); done | done]|]. split; [done|].
      intros r [=].
  - apply Nat.leb_gt in El. cbn [snd]. intros Hsize. destruct (admit_tables now q t0) as [Er Eh]. rewrite Er in *. rewrite Eh.
    split; [done|]. split; [|split].
    + split; [done|]. intros Hle. exfalso. rewrite <- Hperm in Hle.
      pose proof (lfilter_length_le (fun _ => true) (is_running t) (records t0) ltac:(done)) as Hlen. rewrite lfilter_true in Hlen. lia.
    + intros id r Hr Hrun. rewrite dget_dset_ne by (apply not_eq_sym; by eapply Hne). by apply Hkept.
    + intros r [= <-]. rewrite dget_dset_eq. split; [done|]. by rewrite lookup_app_r, Nat.sub_diag.
Qed.

(** Every end of a run is announced, exactly once: with an event bus, the
    completion events of a run are none while it is running and then the one
    that carries its status; only a run whose result was to be posted to a
    thread and could not be has two, completed and then failed. *)
Theorem dispatch_announced ops r x :
  has_event_bus cfg = true -> fresh_ops ops empty_tracker -> heap (run_tops ops) !! r = Some x ->
  announced x (completions (execution_id x) (emitted (run_tops ops))).
Proof. intros Hb Hops Hx. by apply (ti_announced _ (run_tops_inv ops Hops)) with r. Qed.

End Tracker.

(** ** Instances *)

Definition small : Config := mkConfig 1 100 true false false.
Definition request (id : string) : Request := mkRequest id "chat" "10" None None "inline" None None None.
Definition small_result : PipelineExecutionResult := mkResult "answer" "m" None JNull 1 JNull [] None None [].

Lemma tracker_capacity_witness :
  fst (register_execution small 12 (request "b") (run_tops small [TRegister 10 (request "a")])) = Raise TrackerCapacityError.
Proof.
  pose proof (tracker_capacity small [TRegister 10 (request "a")] 12 (request "b")) as H. cbv zeta in H.
  destruct (register_execution small 12 (request "b") (run_tops small [TRegister 10 (request "a")])) as [res t'].
  destruct H as (_ & H & _).
  - split; [apply not_elem_of_nil | done].
  - intros [?|?%elem_of_nil]%elem_of_cons; done.
  - apply H. vm_compute. reflexivity.
Defined.

Lemma dispatch_announced_witness :
  completions "a" (emitted (run_tops small [TRegister 10 (request "a"); TComplete "a" small_result "12" 12;
    TComplete "a" small_result "13" 13])) = [completed].
Proof.
  set (ops := [_; _; _]). destruct (heap (run_tops small ops) !! 0%nat) as [x|] eqn:Hx; [|discriminate Hx].
  pose proof (dispatch_announced small ops 0 x eq_refl) as H. vm_compute in Hx. injection Hx as <-.
  apply H; [|reflexivity]. split; [apply not_elem_of_nil | done].
Defined.
