(* ===== verification/DispatchRecovery.v ===== *)
(** * Tracker and journal together
    ([async_tracker/journal.py], [dispatch_journal.py],
    [proxy/stargate/runtime/dispatch_journal_startup.py])

    The journal writers are tasks that run whenever the event loop and the
    threads get to them, in any order; a restart loses the tracker and its
    tasks, keeps the journal, and sweeps it.  The theorem is what a caller who
    polls or resumes relies on: the journal says of a run what the tracker
    said. *)
From stdpp Require Import base list strings relations.
From Stdlib Require Import ZArith QArith Lia.
From S2P Require Import Prelude PyFloat PyString PyJson DispatchJournal DispatchTracker.
Open Scope Z_scope.
#[local] Set Default Proof Using "Type".

Section System.
Context (iso_epoch : string -> exn Q) (recovery_hint : string -> DeliveryOutcome -> string) (cfg : Config).

Record System := mkSystem { tracker : Tracker; journal : Journal }.

Inductive Action : Type :=
  | Register (now : Q) (q : Request)
  | CompleteRun (id : string) (res : PipelineExecutionResult) (now_iso : string) (now : Q)
  | FailRun (id : string) (err : PipelineExecutionError) (now_iso : string) (now : Q)
  | Poll (now : Q) (id : string)
  | RunTask (k : nat) (sent : option DeliveryOutcome) (text now_iso : string) (now : Q)
  | OnJournal (o : JOp)
  | Restart (now_iso : string) (now process_started_at : Q).

(** *** The journal writers: [journal_transition], [journal_terminal] *)

Definition started_write (x : PipelineExecutionRecord) : Write :=
  mkWrite (execution_id x) (pipeline x) "started" (rec_caller_agent x) (rec_started_at x) None
    (started_payload recovery_hint x).

(** [_write_terminal_sync], on the thread. *)
Definition terminal_write (x : PipelineExecutionRecord) (completed_at : string) (body : list (string * json)) : Write :=
  mkWrite (execution_id x) (pipeline x) (status_text (run_status x)) (rec_caller_agent x) (rec_started_at x)
    (Some completed_at) body.

Definition run_task (k : nat) (sent : option DeliveryOutcome) (text now_iso : string) (now : Q) (s : System) : System :=
  match pending (tracker s) !! k with
  | None => s
  | Some task =>
      let t := with_tasks (delete k (pending (tracker s))) (tracker s) in
      match task with
      | StartedBegin r =>
          match heap t !! r with
          | Some x => mkSystem (schedule (StartedRead (started_write x)) t) (journal s)
          | None => mkSystem t (journal s)
          end
      | StartedRead w => mkSystem (schedule (StartedApply (read_status (w_execution_id w) (journal s)) w) t) (journal s)
      | StartedApply existing w =>
          mkSystem t (settle (journal s) (apply_write iso_epoch existing w now_iso now (journal s)))
      | TerminalBegin r =>
          match heap t !! r with
          | Some x =>
              match is_terminal (run_status x), rec_completed_at x with
              | true, Some c => mkSystem (schedule (TerminalApply r (terminal_payload recovery_hint c x)) t) (journal s)
              | _, _ => mkSystem t (journal s)
              end
          | None => mkSystem t (journal s)
          end
      | TerminalApply r body =>
          match heap t !! r with
          | Some x =>
              match rec_completed_at x with
              | Some c => mkSystem t (settle (journal s)
                            (write_transition_sync iso_epoch (terminal_write x c body) now_iso now (journal s)))
              | None => mkSystem t (journal s)
              end
          | None => mkSystem t (journal s)
          end
      | Deliver r =>
          match heap t !! r with
          | Some x => mkSystem (run_delivery cfg r x sent text t) (journal s)
          | None => mkSystem t (journal s)
          end
      | DispatchAdmit _ => mkSystem t (journal s)
      end
  end.

Definition step (s : System) (a : Action) : System :=
  match a with
  | Register now q => mkSystem (snd (register_execution cfg now q (tracker s))) (journal s)
  | CompleteRun id res iso now => mkSystem (complete_execution cfg id res iso now (tracker s)) (journal s)
  | FailRun id err iso now => mkSystem (fail_execution cfg id err iso now (tracker s)) (journal s)
  | Poll now id => mkSystem (snd (get_record cfg now id (tracker s))) (journal s)
  | RunTask k sent text iso now => run_task k sent text iso now s
  | OnJournal o => mkSystem (tracker s) (run_jop iso_epoch (journal s) o)
  | Restart iso now p =>
      mkSystem empty_tracker (settle (journal s) (let? r := sweep_orphan_started_sync iso_epoch iso now p (journal s) in Ok (snd r)))
  end.

(** Execution ids are fresh, the time stamps are those of the clock, and the
    journal is otherwise used for continuations.  (Pruning is left out: it
    only forgets runs older than the retention.) *)
Definition allowed (s : System) (a : Action) : Prop :=
  match a with
  | Register _ q => q_execution_id q ∉ heap_ids (tracker s) /\
      dget (q_execution_id q) (dispatch_records (journal s)) = None /\ is_ok (iso_epoch (q_started_at q)) = true
  | CompleteRun _ _ iso _ | FailRun _ _ iso _ => is_ok (iso_epoch iso) = true
  | OnJournal o => match o with JAssess _ _ _ _ _ | JRelease _ _ | JPin _ _ => True | _ => False end
  | _ => True
  end.

Fixpoint run (acts : list Action) (s : System) : System :=
  match acts with [] => s | a :: acts' => run acts' (step s a) end.
Fixpoint all_allowed (acts : list Action) (s : System) : Prop :=
  match acts with [] => True | a :: acts' => allowed s a /\ all_allowed acts' (step s a) end.

Definition initial : System := mkSystem empty_tracker empty_journal.

(** ** What the journal says of a record *)

(** The refusal of a resume, read off the record. *)
Definition record_refusal (x : PipelineExecutionRecord) : option (string * string) :=
  let code := match error x with Some e => error_code_ e | None => "" end in
  if bool_decide (code ∈ ["pipeline_execution_cancelled"; "cancelled"]%string)
  then Some ("cancelled", "A cancelled run cannot be resumed.")%string
  else match run_status x with
  | completed => match result x ≫= stop with
                 | Some _ => None
                 | None => Some ("not_resumable", "Run completed without a stop and cannot be resumed.")%string
                 end
  | failed => if bool_decide (code = "interrupted_by_restart"%string) then None
              else Some ("not_resumable", "Run is not a resumable stop.")%string
  | running => Some ("not_resumable", "Run is not a resumable stop.")%string
  end.

Lemma terminal_payload_get c x k : k ∈ ["result"; "error"]%string ->
  jget k (terminal_payload recovery_hint c x) =
    (if decide (k = "result"%string) then match result x with Some y => result_to_dict y | None => JNull end
     else match error x with Some y => error_to_dict y | None => JNull end).
Proof. intros H. repeat (apply elem_of_cons in H as [->|H]; [reflexivity|]). by apply elem_of_nil in H. Qed.

Lemma terminal_payload_refusal c x : is_terminal (run_status x) = true ->
  refusal_for_record (terminal_payload recovery_hint c x) (status_text (run_status x)) = record_refusal x.
Proof.
  intros Ht. unfold refusal_for_record, record_refusal.
  assert (Hcode : error_code (terminal_payload recovery_hint c x) = match error x with Some e => error_code_ e | None => "" end).
  { unfold error_code. rewrite terminal_payload_get by (right; by left). simpl. destruct (error x); reflexivity. }
  rewrite Hcode. rewrite terminal_payload_get by by left. simpl.
  destruct (run_status x); [done| |]; simpl.
  - destruct (bool_decide (_ ∈ _)); [done|]. simpl. destruct (result x) as [y|]; [|done]. simpl. by destruct (stop y).
  - destruct (bool_decide (_ ∈ _)); [done|]. simpl. by destruct (bool_decide (_ = "interrupted_by_restart"%string)).
Qed.

(** ** The invariant *)

Definition started_id (h : list PipelineExecutionRecord) (k : Task) : option string :=
  match k with
  | StartedBegin r => execution_id <$> h !! r
  | StartedRead w | StartedApply _ w => Some (w_execution_id w)
  | _ => None
  end.
Definition deliver_of (k : Task) : option nat := match k with Deliver r => Some r | _ => None end.
Definition terminal_of (k : Task) : option nat :=
  match k with TerminalBegin r | TerminalApply r _ => Some r | _ => None end.

(** The status will not change any more. *)
Definition final (P : list Task) (r : nat) (x : PipelineExecutionRecord) : Prop :=
  is_terminal (run_status x) = true /\ (run_status x = completed -> to_thread x = true -> Deliver r ∉ P).

(** Its end gets a journal entry. *)
Definition journaled (x : PipelineExecutionRecord) : Prop :=
  to_thread x = false \/ run_status x = failed \/
  (has_delivery_sender cfg = true /\ has_delivery_config x = true).

(** A pending task will write it. *)
Definition owed (P : list Task) (r : nat) (x : PipelineExecutionRecord) : Prop :=
  (exists k, k ∈ P /\ terminal_of k = Some r) \/ (run_status x = completed /\ to_thread x = true /\ Deliver r ∈ P).

Definition parses (s : string) : Prop := is_ok (iso_epoch s) = true.

Definition write_ok (h : list PipelineExecutionRecord) (w : Write) : Prop :=
  w_status w = "started"%string /\ w_completed_at w = None /\ parses (w_started_at w) /\
  w_execution_id w ∈ map execution_id h.

Definition task_ok (h : list PipelineExecutionRecord) (P : list Task) (k : Task) : Prop :=
  match k with
  | StartedBegin r => is_Some (h !! r)
  | StartedRead w => write_ok h w
  | StartedApply existing w =>
      write_ok h w /\ match existing with Some s => terminal_status s = true | None => True end
  | TerminalBegin r => exists x, h !! r = Some x /\ final P r x
  | TerminalApply r body => exists x, h !! r = Some x /\ final P r x /\
      refusal_for_record body (status_text (run_status x)) = record_refusal x
  | Deliver r => exists x, h !! r = Some x /\ is_terminal (run_status x) = true
  | DispatchAdmit _ => True
  end.

Definition row_ok (P : list Task) (r : nat) (x : PipelineExecutionRecord) (row : Row) : Prop :=
  status row = "started"%string \/
  (status row = status_text (run_status x) /\ final P r x /\
   refusal_for_record (record_json row) (status row) = record_refusal x).

Record V (h : list PipelineExecutionRecord) (P : list Task) (j : Journal) : Prop := {
  v_wf : wf j;
  v_ids : NoDup (map execution_id h);
  v_time : forall r x, h !! r = Some x -> parses (rec_started_at x) /\
             (is_terminal (run_status x) = true -> exists c, rec_completed_at x = Some c /\ parses c);
  v_rowtime : forall id row, dget id (dispatch_records j) = Some row -> parses (started_at row);
  v_tasks : forall k, k ∈ P -> task_ok h P k;
  v_started : NoDup (omap (started_id h) P);
  v_fresh : forall id row, id ∈ omap (started_id h) P -> dget id (dispatch_records j) = Some row ->
              terminal_status (status row) = true;
  v_deliver : NoDup (omap deliver_of P);
  v_rows : forall r x row, h !! r = Some x -> dget (execution_id x) (dispatch_records j) = Some row -> row_ok P r x row;
  v_done : forall r x, h !! r = Some x -> is_terminal (run_status x) = true -> journaled x ->
             owed P r x \/ exists row, dget (execution_id x) (dispatch_records j) = Some row /\ terminal_status (status row) = true
}.

Lemma final_mono P P' r x : (Deliver r ∈ P' -> Deliver r ∈ P) -> final P r x -> final P' r x.
Proof. intros H [Ht Hd]. split; [done|]. intros H1 H2 H3. by apply (Hd H1 H2), H. Qed.

Lemma task_mono h P P' k : (forall r, Deliver r ∈ P' -> Deliver r ∈ P) -> task_ok h P k -> task_ok h P' k.
Proof.
  intros H. destruct k; simpl; try done; intros (x & Hx & Hf).
  - exists x. split; [done|]. eapply final_mono; [apply H|done].
  - destruct Hf as [Hf Hb]. exists x. split_and!; [done| |done]. eapply final_mono; [apply H|done].
Qed.

Lemma row_mono P P' r x row : (Deliver r ∈ P' -> Deliver r ∈ P) -> row_ok P r x row -> row_ok P' r x row.
Proof. intros H [?|(H1 & H2 & H3)]; [by left|]. right. split_and!; [done| |done]. by eapply final_mono. Qed.

Lemma owed_mono P P' r x : (forall k, k ∈ P -> k ∈ P') -> owed P r x -> owed P' r x.
Proof. intros H [(k & Hk & Ht)|(H1 & H2 & H3)]; [left; exists k | right]; auto. Qed.

(** The order of the pending tasks does not matter. *)
Lemma V_perm h P P' j : P ≡ₚ P' -> V h P j -> V h P' j.
Proof.
  intros Hp [W I T RT K S F D R N].
  assert (Hd : forall r, Deliver r ∈ P' -> Deliver r ∈ P) by (intros r; by rewrite Hp).
  split; try done.
  - intros k Hk. apply (task_mono h P); [done|]. apply K. by rewrite Hp.
  - by rewrite <- Hp.
  - intros id row. rewrite <- Hp. apply F.
  - by rewrite <- Hp.
  - intros r x row Hx Hrow. apply (row_mono P); [apply Hd|]. by apply R.
  - intros r x Hx Ht Hj. destruct (N r x Hx Ht Hj) as [Ho|H]; [left|by right]. eapply owed_mono; [|exact Ho]. intros k. by rewrite Hp.
Qed.

(** A task that does not deliver is replaced by its next stretch. *)
Lemma V_next h k k' P j : V h (k :: P) j -> started_id h k' = started_id h k -> deliver_of k = None -> deliver_of k' = None ->
  terminal_of k' = terminal_of k -> task_ok h (k :: P) k' -> V h (k' :: P) j.
Proof.
  intros [W I T RT K S F D R N] Hs Hk Hk' Ht Hok. assert (Hd : forall r, Deliver r ∈ k' :: P -> Deliver r ∈ k :: P).
  { intros r [<-|?]%elem_of_cons; [done | by right]. }
  split; try done.
  - intros k0 [->|Hin]%elem_of_cons; (eapply task_mono; [apply Hd|]); [done|]. apply K. by right.
  - simpl in *. by rewrite Hs.
  - intros id row. simpl. rewrite Hs. apply F.
  - simpl in *. by rewrite Hk', Hk in *.
  - intros r x row Hx Hrow. eapply row_mono; [apply Hd|]. by apply R.
  - intros r x Hx Hte Hj. destruct (N r x Hx Hte Hj) as [[(k0 & [->|Hin]%elem_of_cons & H)|(H1 & H2 & H3)]|H]; [| | |by right]; left.
    + left. exists k'. split; [by left | by rewrite Ht].
    + left. exists k0. split; [by right | done].
    + right. split_and!; [done|done|]. apply elem_of_cons in H3 as [<-|H3]; [done | by right].
Qed.

(** A task ends that owes nothing any more. *)
Lemma V_drop h k P j : V h (k :: P) j -> deliver_of k = None ->
  (forall r x, terminal_of k = Some r -> h !! r = Some x ->
     exists row, dget (execution_id x) (dispatch_records j) = Some row /\ terminal_status (status row) = true) ->
  V h P j.
Proof.
  intros [W I T RT K S F D R N] Hk Hrow. assert (Hd : forall r, Deliver r ∈ P -> Deliver r ∈ k :: P) by (intros r; by right).
  split; try done.
  - intros k0 Hin. eapply task_mono; [apply Hd|]. apply K. by right.
  - simpl in S. destruct (started_id h k); [by apply NoDup_cons in S as [_ S] | done].
  - intros id row Hid. apply F. simpl. destruct (started_id h k); [by right | done].
  - simpl in D. by rewrite Hk in D.
  - intros r x row Hx Hr. eapply row_mono; [apply Hd|]. by apply R.
  - intros r x Hx Hte Hj. destruct (N r x Hx Hte Hj) as [[(k0 & [->|Hin]%elem_of_cons & H)|(H1 & H2 & H3)]|H]; [| | |by right].
    + right. by eapply Hrow.
    + left. left. by exists k0.
    + left. right. split_and!; [done|done|]. by apply elem_of_cons in H3 as [<-|H3].
Qed.

(** What the journal is else used for. *)
Lemma V_journal h P j j' : V h P j -> wf j' -> dispatch_records j' = dispatch_records j -> V h P j'.
Proof. intros [W I T RT K S F D R N] Hwf He. split; rewrite ?He; done. Qed.

(** A task that owes nothing begins. *)
Lemma V_admit h P r j : V h P j -> V h (DispatchAdmit r :: P) j.
Proof.
  intros [W I T RT K S F D R N]. assert (Hd : forall r0, Deliver r0 ∈ DispatchAdmit r :: P -> Deliver r0 ∈ P).
  { intros r0 [?|?]%elem_of_cons; done. }
  split; try done.
  - intros k [->|Hk]%elem_of_cons; [done|]. eapply task_mono; [apply Hd|]. by apply K.
  - intros r0 x row Hx Hr. eapply row_mono; [apply Hd|]. by apply R.
  - intros r0 x Hx Ht Hj. destruct (N r0 x Hx Ht Hj) as [Ho|?]; [left|by right]. eapply owed_mono; [|exact Ho]. intros k Hk. by right.
Qed.

(** *** A run begins *)

Lemma started_known h P j id : V h P j -> id ∈ omap (started_id h) P -> id ∈ map execution_id h.
Proof.
  intros HV (k & Hk & Hs)%list_elem_of_omap. pose proof (v_tasks _ _ _ HV k Hk) as Hok. destruct k as [r|w|e w|r|r b|r|r]; simpl in *; try done.
  - destruct (h !! r) as [x|] eqn:Hx; [|done]. injection Hs as <-. apply list_elem_of_fmap. exists x. split; [done|].
    by eapply list_elem_of_lookup_2.
  - injection Hs as <-. apply Hok.
  - injection Hs as <-. apply Hok.
Qed.

Lemma omap_ext_in {A B} (f g : A -> option B) (l : list A) : (forall x, x ∈ l -> f x = g x) -> omap f l = omap g l.
Proof.
  induction l as [|x l IH]; intros H; [done|]. cbn. assert (E : f x = g x) by (apply H; by left).
  destruct (f x), (g x); simplify_eq; [f_equal|]; apply IH; intros y Hy; apply H; by right.
Qed.

Lemma started_app h x P j : V h P j -> omap (started_id (h ++ [x])) P = omap (started_id h) P.
Proof.
  intros HV. apply omap_ext_in. intros k Hk. pose proof (v_tasks _ _ _ HV k Hk) as Hok. destruct k as [r|w|e w|r|r b|r|r]; simpl in *; try done.
  rewrite lookup_app_l; [done|]. by eapply lookup_lt_is_Some_1.
Qed.

Lemma task_app h x P k : task_ok h P k -> task_ok (h ++ [x]) P k.
Proof.
  assert (Happ : forall r y, h !! r = Some y -> (h ++ [x]) !! r = Some y) by (intros r y Hy; by apply lookup_app_l_Some).
  assert (Hw : forall w, write_ok h w -> write_ok (h ++ [x]) w).
  { intros w (H1 & H2 & H3 & H4). split_and!; [done|done|done|]. rewrite map_app. set_solver. }
  destruct k as [r|w|e w|r|r b|r|r]; simpl; try done.
  - intros [y Hy]. exists y. by apply Happ.
  - apply Hw.
  - intros [H1 H2]. split; [by apply Hw | done].
  - intros (y & Hy & H). exists y. split; [by apply Happ | done].
  - intros (y & Hy & H). exists y. split; [by apply Happ | done].
  - intros (y & Hy & H). exists y. split; [by apply Happ | done].
Qed.

Lemma V_register h P j x : V h P j -> execution_id x ∉ map execution_id h -> dget (execution_id x) (dispatch_records j) = None ->
  parses (rec_started_at x) -> run_status x = running -> V (h ++ [x]) (StartedBegin (length h) :: P) j.
Proof.
  intros HV Hid Hrow Hp Hrun. pose proof HV as [W I T RT K S F D R N].
  assert (Hnew : (h ++ [x]) !! length h = Some x) by (by rewrite lookup_app_r, Nat.sub_diag).
  assert (Hcase : forall r y, (h ++ [x]) !! r = Some y -> h !! r = Some y \/ y = x).
  { intros r y [Hy|[_ Hy]]%lookup_app_Some; [by left|]. by apply list_lookup_singleton_Some in Hy as [_ <-]; right. }
  assert (Hd : forall r, Deliver r ∈ StartedBegin (length h) :: P -> Deliver r ∈ P) by (intros r [?|?]%elem_of_cons; done).
  assert (Hst : omap (started_id (h ++ [x])) (StartedBegin (length h) :: P) = execution_id x :: omap (started_id h) P).
  { cbn. rewrite Hnew. cbn. f_equal. exact (started_app h x P j HV). }
  split; rewrite ?Hst; try done.
  - rewrite map_app. apply NoDup_app. split; [done|]. split; [|apply NoDup_singleton]. intros y Hy Hs.
    apply list_elem_of_singleton in Hs. by subst y.
  - intros r y [Hy| ->]%Hcase; [by eapply T|]. split; [done|]. by rewrite Hrun.
  - intros k [->|Hk]%elem_of_cons; [by exists x|]. eapply task_mono; [apply Hd|]. by apply task_app, K.
  - apply NoDup_cons. split; [|done]. intros Hin. by apply Hid, (started_known h P j).
  - intros id row [->|Hin]%elem_of_cons Hr; [congruence|]. by eapply F.
  - intros r y row [Hy| ->]%Hcase Hr; [|congruence]. eapply row_mono; [apply Hd|]. by apply R.
  - intros r y [Hy| ->]%Hcase Ht Hj; [|by rewrite Hrun in Ht]. destruct (N r y Hy Ht Hj) as [Ho|?]; [left|by right].
    eapply owed_mono; [|exact Ho]. intros k Hk. by right.
Qed.

(** *** A run ends, or its end is revised *)

Section Update.
Context (h : list PipelineExecutionRecord) (r : nat) (x x' : PipelineExecutionRecord).
Hypothesis (Hx : h !! r = Some x) (Hid : execution_id x' = execution_id x).

Lemma ids_update : map execution_id (<[r := x']> h) = map execution_id h.
Proof using Hx Hid.
  change (map execution_id) with (fmap (M := list) execution_id). rewrite list_fmap_insert, Hid.
  apply list_insert_id. by rewrite list_lookup_fmap, Hx.
Qed.

Lemma lookup_update r0 : (<[r := x']> h) !! r0 = if decide (r0 = r) then Some x' else h !! r0.
Proof using Hx.
  case_decide as E; [subst r0; apply list_lookup_insert_eq; by eapply lookup_lt_Some | by apply list_lookup_insert_ne].
Qed.

Lemma started_update k : started_id (<[r := x']> h) k = started_id h k.
Proof using Hx Hid. destruct k as [r0| | | | | |]; try done. simpl. rewrite lookup_update. case_decide as E; [|done]. subst r0. by rewrite Hx; simpl; f_equal. Qed.

Lemma write_update w : write_ok h w -> write_ok (<[r := x']> h) w.
Proof using Hx Hid. intros (H1 & H2 & H3 & H4). split_and!; [done|done|done|]. by rewrite ids_update. Qed.

Context (P P' : list Task).
(** What was settled of the record still is, and the same. *)
Hypothesis (Hkeep : final P r x ->
  final P' r x' /\ run_status x' = run_status x /\ record_refusal x' = record_refusal x).
Hypothesis (Hnew : forall k, k ∈ P' -> k ∈ P \/ k = Deliver r \/ k = TerminalBegin r).
Hypothesis (Hterm : is_terminal (run_status x') = true).

Lemma final_other r0 y : r0 <> r -> final P r0 y -> final P' r0 y.
Proof using Hnew. intros Hne. apply final_mono. intros Hin. destruct (Hnew _ Hin) as [?|[?|?]]; [done|congruence|done]. Qed.

Lemma task_update k : task_ok h P k -> task_ok (<[r := x']> h) P' k.
Proof using Hx Hid Hkeep Hnew Hterm.
  destruct k as [r0|w|e w|r0|r0 b|r0|r0]; simpl; try done.
  - rewrite lookup_update. case_decide; [by eexists | done].
  - apply write_update.
  - intros [H1 H2]. split; [by apply write_update | done].
  - intros (y & Hy & Hf). rewrite lookup_update. case_decide as E; [|exists y; split; [done | by apply final_other]].
    subst r0. simplify_eq. exists x'. split; [done|]. by apply Hkeep.
  - intros (y & Hy & Hf & Hb). rewrite lookup_update.
    case_decide as E; [|exists y; split_and!; [done | by apply final_other | done]].
    subst r0. simplify_eq. destruct (Hkeep Hf) as (Hf' & E1 & E2). exists x'. rewrite E1, E2. by split_and!.
  - intros (y & Hy & Ht). rewrite lookup_update. case_decide as E; [by exists x' | by exists y].
Qed.

Lemma row_update r0 y y' row : h !! r0 = Some y -> (<[r := x']> h) !! r0 = Some y' -> row_ok P r0 y row -> row_ok P' r0 y' row.
Proof using Hx Hid Hkeep Hnew Hterm.
  intros Hy. rewrite lookup_update. case_decide as E; intros Hy' [?|(H1 & H2 & H3)]; try by left.
  - subst r0. simplify_eq. right. destruct (Hkeep H2) as (Hf' & -> & ->). by split_and!.
  - simplify_eq. right. split_and!; [done | by apply final_other | done].
Qed.

Lemma V_update j : V h P j -> rec_started_at x' = rec_started_at x ->
  (exists c, rec_completed_at x' = Some c /\ parses c) ->
  (forall k, k ∈ P -> k ∈ P' \/ k = Deliver r) ->
  omap (started_id h) P' = omap (started_id h) P ->
  NoDup (omap deliver_of P') ->
  (TerminalBegin r ∈ P' -> final P' r x') ->
  (journaled x' -> owed P' r x' \/
     exists row, dget (execution_id x) (dispatch_records j) = Some row /\ terminal_status (status row) = true) ->
  V (<[r := x']> h) P' j.
Proof using Hx Hid Hkeep Hnew Hterm.
  intros [W I T RT K S F D R N] Hs Hc Hold Hst HD Hfin Hjour.
  assert (Hst' : omap (started_id (<[r := x']> h)) P' = omap (started_id h) P).
  { rewrite <- Hst. apply omap_ext_in. intros k _. apply started_update. }
  assert (Hcase : forall r0 y, (<[r := x']> h) !! r0 = Some y -> (r0 = r /\ y = x') \/ (r0 <> r /\ h !! r0 = Some y)).
  { intros r0 y. rewrite lookup_update. case_decide; [|by right]. intros [= <-]. by left. }
  split; rewrite ?Hst'; try done.
  - by rewrite ids_update.
  - intros r0 y [[-> ->]|[Hne Hy]]%Hcase; [|by eapply T]. rewrite Hs. split; [by eapply T | done].
  - intros k Hk. destruct (Hnew k Hk) as [H|[-> | ->]]; [by apply task_update, K| |]; simpl; exists x'; rewrite lookup_update, decide_True by done; split; auto.
  - intros r0 y row Hy Hr. destruct (Hcase r0 y Hy) as [[-> ->]|[Hne Hy0]].
    + rewrite Hid in Hr. by eapply row_update; [exact Hx|exact Hy|apply R].
    + by eapply row_update; [exact Hy0|exact Hy|apply R].
  - intros r0 y [[-> ->]|[Hne Hy]]%Hcase Ht Hj; [rewrite Hid; auto|]. destruct (N r0 y Hy Ht Hj) as [Ho|Ho]; [left|by right].
    destruct Ho as [(k & Hk & Hto)|(H1 & H2 & H3)]; [left; exists k|right; split_and!; [done|done|]].
    + split; [|done]. destruct (Hold k Hk) as [?|?]; [done|]. by subst k.
    + destruct (Hold _ H3) as [?|?]; [done|]. congruence.
Qed.

End Update.

(** The delivery that the end of a run schedules. *)
Definition wants_delivery (x : PipelineExecutionRecord) : bool :=
  has_delivery_sender cfg && has_delivery_config x &&
  negb (to_thread x && negb (bool_decide (run_status x = completed)) &&
        negb (bool_decide (run_status x = failed) && bool_decide (output_contract x = "thread"%string)
              && bool_decide (is_Some (target_thread x)) && bool_decide (is_Some (error x)))).

Lemma schedule_delivery_pending r x t :
  pending (schedule_delivery cfg r x t) = pending t ++ (if wants_delivery x then [Deliver r] else []).
Proof.
  unfold schedule_delivery, wants_delivery. destruct (has_delivery_sender cfg); simpl; [|by rewrite app_nil_r].
  match goal with |- context [if ?b then t else _] => destruct b end; simpl; [by rewrite andb_false_r, app_nil_r|].
  rewrite andb_true_r. destruct (has_delivery_config x); simpl; [done|].
  destruct (emit_frame cfg (DeliverySkipped (execution_id x)) t) as (_ & _ & ->). by rewrite app_nil_r.
Qed.

Lemma V_finish h P j r x x' (d b : bool) : V h P j -> h !! r = Some x -> run_status x = running ->
  execution_id x' = execution_id x -> rec_started_at x' = rec_started_at x -> is_terminal (run_status x') = true ->
  (exists c, rec_completed_at x' = Some c /\ parses c) ->
  (b = true -> run_status x' = completed -> to_thread x' = false) ->
  (journaled x' -> b = true \/ (run_status x' = completed /\ to_thread x' = true /\ d = true)) ->
  V (<[r := x']> h) (P ++ (if d then [Deliver r] else []) ++ (if b then [TerminalBegin r] else [])) j.
Proof.
  clear recovery_hint. intros HV Hx Hrun Hid Hs Ht Hc Hb Hj. set (T := (if d then _ else _) ++ _).
  assert (HT : forall k, k ∈ T <-> (d = true /\ k = Deliver r) \/ (b = true /\ k = TerminalBegin r)).
  { intros k. unfold T. rewrite elem_of_app. destruct d, b; rewrite ?list_elem_of_singleton, ?elem_of_nil; naive_solver. }
  assert (Hno : Deliver r ∉ P).
  { intros Hin. destruct (v_tasks _ _ _ HV _ Hin) as (y & Hy & Hty). simplify_eq. by rewrite Hrun in Hty. }
  apply (V_update h r x x' Hx Hid P _); try done.
  - intros [Hf _]. by rewrite Hrun in Hf.
  - intros k [?|[[_ ->]|[_ ->]]%HT]%elem_of_app; auto.
  - intros k Hk. left. apply elem_of_app. by left.
  - rewrite omap_app. assert (HTs : omap (started_id h) T = []) by (unfold T; by destruct d, b). by rewrite HTs, app_nil_r.
  - rewrite omap_app. apply NoDup_app. split; [apply (v_deliver _ _ _ HV)|]. split.
    + intros r0 (k & Hk & E)%list_elem_of_omap (k' & Hk' & E')%list_elem_of_omap.
      apply HT in Hk' as [[_ ->]|[_ ->]]; [|done]. injection E' as <-. destruct k; try done. injection E as ->. done.
    + unfold T. destruct d, b; simpl; repeat constructor; set_solver.
  - intros Hin. split; [done|]. intros H1 H2. apply elem_of_app in Hin as [Hin|[[_ [=]]|[Hbt _]]%HT].
    + destruct (v_tasks _ _ _ HV _ Hin) as (y & Hy & Hf & _). simplify_eq. by rewrite Hrun in Hf.
    + by rewrite Hb in H2.
  - intros [Hbt|(H1 & H2 & H3)]%Hj; left; [left; exists (TerminalBegin r)|right; split_and!; [done|done|]].
    + split; [|done]. apply elem_of_app. right. apply HT. by right.
    + apply elem_of_app. right. apply HT. by left.
Qed.

Definition VT (t : Tracker) (j : Journal) : Prop := V (heap t) (pending t) j.

Lemma open_record_running id t r x : open_record id t = Some (r, x) -> heap t !! r = Some x /\ run_status x = running.
Proof.
  unfold open_record. destruct (dget id (records t)) as [r0|]; [|done]. destruct (heap t !! r0) as [x0|] eqn:Hx; [|done].
  destruct (is_terminal (run_status x0)) eqn:E; [done|]. intros [= <- <-]. split; [done|]. by destruct (run_status x0).
Qed.

(** What the announcement and the scheduling of an end leave. *)
Lemma ended_frame r x' e t :
  let t1 := schedule_delivery cfg r x' (emit cfg e (with_record r x' t)) in
  heap t1 = <[r := x']> (heap t) /\ pending t1 = pending t ++ (if wants_delivery x' then [Deliver r] else []).
Proof.
  cbv zeta. destruct (schedule_delivery_frame cfg r x' (emit cfg e (with_record r x' t))) as (_ & -> & _).
  rewrite schedule_delivery_pending. by destruct (emit_frame cfg e (with_record r x' t)) as (_ & -> & ->).
Qed.

Lemma V_complete id res iso now t j : parses iso -> VT t j -> VT (complete_execution cfg id res iso now t) j.
Proof.
  intros Hp HV. unfold complete_execution. destruct (open_record id t) as [[r x]|] eqn:E; [|done].
  apply open_record_running in E as [Hx Hrun]. set (x' := finish completed (Some res) None iso now x).
  destruct (ended_frame r x' (DispatchCompleted id completed) t) as [Hh Hpend]. set (t1 := schedule_delivery _ _ _ _) in *.
  pose proof (V_finish (heap t) (pending t) j r x x' (wants_delivery x') (negb (to_thread x')) HV Hx Hrun) as H.
  unfold VT. destruct (to_thread x') eqn:Et; simpl in *; rewrite Hh, Hpend, ?app_nil_r, <- ?app_assoc in *; apply H; try done; try by exists iso.
  - intros [H1|[?|[H1 H2]]]; [change (to_thread x = false) in H1; congruence|done|]. right. split_and!; [done|done|]. unfold wants_delivery. rewrite H1, H2.
    change (run_status x') with completed. rewrite bool_decide_true by done. by rewrite andb_false_r.
  - by left.
Qed.

Lemma V_fail id err iso now t j : parses iso -> VT t j -> VT (fail_execution cfg id err iso now t) j.
Proof.
  intros Hp HV. unfold fail_execution. destruct (open_record id t) as [[r x]|] eqn:E; [|done].
  apply open_record_running in E as [Hx Hrun]. set (x' := finish failed None (Some err) iso now x).
  destruct (ended_frame r x' (DispatchCompleted id failed) t) as [Hh Hpend]. set (t1 := schedule_delivery _ _ _ _) in *.
  unfold VT. simpl. rewrite Hh, Hpend, <- app_assoc.
  apply (V_finish (heap t) (pending t) j r x x' (wants_delivery x') true HV Hx Hrun); try done; [by exists iso | by left].
Qed.

Lemma V_delivered h P j r x x' : V h (Deliver r :: P) j -> h !! r = Some x ->
  execution_id x' = execution_id x -> rec_started_at x' = rec_started_at x -> rec_completed_at x' = rec_completed_at x ->
  to_thread x' = to_thread x -> is_terminal (run_status x') = true ->
  (run_status x = failed \/ to_thread x = false -> run_status x' = run_status x /\ record_refusal x' = record_refusal x) ->
  V (<[r := x']> h) (P ++ (if to_thread x then [TerminalBegin r] else [])) j.
Proof.
  clear recovery_hint. intros HV Hx Hid Hs Hc Hto Ht Hsame.
  pose proof (v_deliver _ _ _ HV) as Hnd. cbn in Hnd. apply NoDup_cons in Hnd as [Hno Hnd].
  assert (HnoP : Deliver r ∉ P) by (intros Hin; apply Hno, list_elem_of_omap; by exists (Deliver r)).
  destruct (v_tasks _ _ _ HV (Deliver r) ltac:(by left)) as (y & Hy & Hterm). rewrite Hx in Hy. injection Hy as <-.
  assert (Hfin : final (P ++ (if to_thread x then [TerminalBegin r] else [])) r x').
  { split; [done|]. intros _ _ [?|Hin]%elem_of_app; [done|].
    destruct (to_thread x); [by apply list_elem_of_singleton in Hin | by apply elem_of_nil in Hin]. }
  apply (V_update h r x x' Hx Hid (Deliver r :: P) _); try done.
  - intros [_ Hf]. split; [done|]. apply Hsame. destruct (to_thread x); [left|by right].
    destruct (run_status x); [done| |done]. exfalso. apply Hf; [done|done|by left].
  - intros k [?|Hin]%elem_of_app; [left; by right|]. destruct (to_thread x); [|by apply elem_of_nil in Hin].
    right. right. by apply list_elem_of_singleton in Hin.
  - rewrite Hc. by apply (v_time _ _ _ HV r).
  - intros k [->|Hin]%elem_of_cons; [by right|]. left. apply elem_of_app. by left.
  - rewrite omap_app. destruct (to_thread x); apply app_nil_r.
  - rewrite omap_app. destruct (to_thread x); simpl; rewrite app_nil_r; done.
  - intros Hj. destruct (to_thread x) eqn:Et.
    + left. left. exists (TerminalBegin r). split; [|done]. apply elem_of_app. right. by left.
    + destruct (v_done _ _ _ HV r x Hx Hterm ltac:(by left)) as [[(k & [->|Hk]%elem_of_cons & H)|(_ & H & _)]|H];
        [done| |congruence|by right].
      left. left. exists k. split; [|done]. apply elem_of_app. by left.
Qed.

Lemma V_run_delivery r x sent text t j : V (heap t) (Deliver r :: pending t) j -> heap t !! r = Some x ->
  VT (run_delivery cfg r x sent text t) j.
Proof.
  intros HV Hx. pose proof (V_delivered (heap t) (pending t) j r x) as H. unfold VT, run_delivery.
  assert (Hterm : is_terminal (run_status x) = true).
  { destruct (v_tasks _ _ _ HV (Deliver r) ltac:(by left)) as (y & Hy & ?). by simplify_eq. }
  assert (Hsame : VT (if to_thread x then schedule_journal r t else t) j).
  { specialize (H x HV Hx). rewrite list_insert_id in H by done. unfold VT. destruct (to_thread x); simpl in *; [|rewrite app_nil_r in H]; by apply H. }
  destruct sent as [d|]; [|exact Hsame]. destruct (to_thread x) eqn:Et; [|exact Hsame].
  match goal with |- V _ (pending (schedule_journal r ?u)) _ => set (t' := u) end.
  assert (Hpend : pending t' = pending t).
  { unfold t'. destruct (outcome d), (run_status x); try done. by destruct (emit_frame cfg (DispatchCompleted (execution_id x) failed) (with_record r (demoted (reason_of d) text (with_delivery d x)) t)) as (_ & _ & ->). }
  simpl. rewrite Hpend. unfold t'. destruct (outcome d), (run_status x) eqn:Es; try done;
    try (apply (H (with_delivery d x)); try done; cbn [run_status with_delivery]; first [by rewrite Es | by intros _; split]).
  destruct (emit_frame cfg (DispatchCompleted (execution_id x) failed) (with_record r (demoted (reason_of d) text (with_delivery d x)) t)) as (_ & -> & _).
  apply H; try done. by intros [?|?].
Qed.

(** *** The writers *)

Lemma V_started_read h w P j : V h (StartedRead w :: P) j ->
  V h (StartedApply (read_status (w_execution_id w) j) w :: P) j.
Proof.
  intros HV. apply (V_next h (StartedRead w) _ P j HV); try done.
  pose proof (v_tasks _ _ _ HV (StartedRead w) ltac:(by left)) as Hw. split; [exact Hw|].
  unfold read_status. destruct (dget (w_execution_id w) (dispatch_records j)) as [row|] eqn:Hr; [|done]. simpl.
  apply (v_fresh _ _ _ HV (w_execution_id w) row); [|done]. by left.
Qed.

(** The row of a run is replaced or added. *)
Lemma V_row h P j j' id row : V h P j -> wf j' ->
  (forall k, dget k (dispatch_records j') = if decide (k = id) then Some row else dget k (dispatch_records j)) ->
  parses (started_at row) ->
  (id ∈ omap (started_id h) P -> terminal_status (status row) = true) ->
  (forall r x, h !! r = Some x -> execution_id x = id -> row_ok P r x row) ->
  (forall row0, dget id (dispatch_records j) = Some row0 -> terminal_status (status row0) = true -> terminal_status (status row) = true) ->
  V h P j'.
Proof.
  intros [W I T RT K S F D R N] Hwf Hget Hp Hf Hr Ht. split; try done.
  - intros k row0. rewrite Hget. case_decide; [by intros [= <-] | apply RT].
  - intros k row0 Hk. rewrite Hget. case_decide as E; [|by apply F]. intros [= <-]. apply Hf. by rewrite <- E.
  - intros r x row0 Hx. rewrite Hget. case_decide as E; [|by apply R]. intros [= <-]. by apply Hr.
  - intros r x Hx Hte Hj. destruct (N r x Hx Hte Hj) as [Ho|(row0 & Hr0 & Ht0)]; [by left|right]. rewrite Hget.
    case_decide as E; [exists row | by exists row0]. split; [done|]. apply (Ht row0); [|done]. by rewrite <- E.
Qed.

Lemma V_started_apply h e w P j iso now : V h (StartedApply e w :: P) j ->
  V h P (settle j (apply_write iso_epoch e w iso now j)).
Proof.
  intros HV. destruct (v_tasks _ _ _ HV (StartedApply e w) ltac:(by left)) as [(Hs & Hc & Hp & _) He].
  pose proof (v_started _ _ _ HV) as Hnd. cbn in Hnd. apply NoDup_cons in Hnd as [Hno _].
  assert (HP : V h P j) by (by apply (V_drop h (StartedApply e w) P j HV)).
  pose proof (v_wf _ _ _ HP) as [Hwr Hwc Hwl]. unfold apply_write.
  assert (Hat : at_iso w = w_started_at w) by (unfold at_iso; by rewrite Hc).
  unfold parses in Hp. unfold completed_epoch. rewrite Hat, Hc, Hs. destruct (iso_epoch (w_started_at w)) eqn:Ei; [|done].
  rewrite bool_decide_true by done. simpl. destruct e as [s|].
  - rewrite He. simpl. by eapply V_journal; [exact HP|split|].
  - destruct (dget (w_execution_id w) (dispatch_records j)) as [row|] eqn:Hr; simpl; [exact HP|].
    eapply (V_row h P j _ (w_execution_id w) (row_of_write w None iso now) HP); simpl.
    + split; simpl; [|done..]. by apply NoDup_snoc_key.
    + intros k. rewrite dget_app. case_decide as E; [subst k; rewrite Hr; simpl; by rewrite decide_True|].
      destruct (dget k (dispatch_records j)); [done|]. simpl. by rewrite decide_False.
    + unfold parses. by rewrite Ei.
    + done.
    + intros r x _ _. by left.
    + by rewrite Hr.
Qed.

Lemma V_terminal_begin h r P j x c : V h (TerminalBegin r :: P) j -> h !! r = Some x -> is_terminal (run_status x) = true ->
  V h (TerminalApply r (terminal_payload recovery_hint c x) :: P) j.
Proof.
  intros HV Hx Ht. apply (V_next h (TerminalBegin r) _ P j HV); try done.
  destruct (v_tasks _ _ _ HV (TerminalBegin r) ltac:(by left)) as (y & Hy & Hf). rewrite Hx in Hy. injection Hy as <-.
  exists x. split_and!; [done|done|]. by apply terminal_payload_refusal.
Qed.

Lemma V_terminal_apply h r body P j x c iso now : V h (TerminalApply r body :: P) j -> h !! r = Some x -> rec_completed_at x = Some c ->
  V h P (settle j (write_transition_sync iso_epoch (terminal_write x c body) iso now j)).
Proof.
  clear recovery_hint.
  intros HV Hx Hc. destruct (v_tasks _ _ _ HV (TerminalApply r body) ltac:(by left)) as (y & Hy & Hf & Hb).
  rewrite Hx in Hy. injection Hy as <-. destruct Hf as [Ht Hd].
  destruct (v_time _ _ _ HV r x Hx) as [Hps Hpc]. destruct (Hpc Ht) as (c' & Hc' & Hp). rewrite Hc in Hc'. injection Hc' as <-.
  set (w := terminal_write x c body).
  assert (Hok : exists row j', write_transition_sync iso_epoch w iso now j = Ok j' /\
    dispatch_records j' = ddel (execution_id x) (dispatch_records j) ++ [(execution_id x, row)] /\
    status row = status_text (run_status x) /\ started_at row = rec_started_at x /\ record_json row = body).
  { unfold write_transition_sync, apply_write. unfold parses in *.
    assert (Hat : is_ok (iso_epoch (at_iso w)) = true) by (unfold at_iso, w; simpl; by destruct (_ && _)).
    destruct (iso_epoch (at_iso w)); [|done]. unfold completed_epoch. simpl. destruct (iso_epoch c); [|done]. simpl.
    assert (Hns : status_text (run_status x) <> "started"%string) by (by destruct (run_status x)).
    rewrite bool_decide_false by done. assert (Hv : valid_status (status_text (run_status x)) = true) by (by destruct (run_status x)).
    rewrite Hv. simpl. eexists _, _. split; [done|]. by split_and!. }
  destruct Hok as (row & j' & Hw & Hrec & Hst & Hsa & Hjson). rewrite Hw. simpl. pose proof (v_wf _ _ _ HV) as Hwf.
  assert (Hget : forall k, dget k (dispatch_records j') = if decide (k = execution_id x) then Some row else dget k (dispatch_records j)).
  { intros k. rewrite Hrec, dget_app. case_decide as E; [subst k; rewrite (dget_ddel_eq _ _ (wf_records _ Hwf)); simpl; by rewrite decide_True|].
    rewrite dget_ddel_ne by done. destruct (dget k (dispatch_records j)); [done|]. simpl. by rewrite decide_False. }
  assert (Htr : terminal_status (status row) = true) by (rewrite Hst; by destruct (run_status x)).
  assert (HV' : V h (TerminalApply r body :: P) j').
  { eapply (V_row h _ j j' (execution_id x) row HV); [by eapply write_wf|done|by rewrite Hsa|done| |done].
    intros r0 y Hy Hid. assert (Er : r0 = r).
    { apply (NoDup_lookup (map execution_id h) r0 r (execution_id x) (v_ids _ _ _ HV)); rewrite list_lookup_fmap.
      - by rewrite Hy; simpl; rewrite Hid. - by rewrite Hx. }
    subst r0. rewrite Hx in Hy. injection Hy as <-. right. split; [done|]. split; [by split|]. by rewrite Hjson, Hst. }
  apply (V_drop h _ P j' HV'); [done|]. intros r0 y [= <-] Hy. rewrite Hx in Hy. injection Hy as <-. exists row.
  rewrite Hget, decide_True by done. done.
Qed.

(** ** The system *)

Lemma prune_frame now t : heap (prune_terminal_records cfg now t) = heap t /\
  pending (prune_terminal_records cfg now t) = pending t.
Proof.
  unfold prune_terminal_records. generalize (List.filter (is_expired cfg now t) (records t)). intros l.
  assert (H : forall t0, heap t0 = heap t -> pending t0 = pending t ->
    let t' := fold_left (fun t' kr =>
      let t'' := mkTracker (ddel kr.1 (records t')) (heap t') (pending t') (emitted t') in
      match heap t !! kr.2 with Some x => emit cfg (TrackerExpired kr.1 (run_status x)) t'' | None => t'' end) l t0 in
    heap t' = heap t /\ pending t' = pending t); [|by apply H].
  induction l as [|[k r] l IH]; intros t0 Hh Hp; simpl; [done|]. destruct (heap t !! r) as [x|]; apply IH; try done.
  - by destruct (emit_frame cfg (TrackerExpired k (run_status x)) (mkTracker (ddel k (records t0)) (heap t0) (pending t0) (emitted t0))) as (_ & -> & _).
  - by destruct (emit_frame cfg (TrackerExpired k (run_status x)) (mkTracker (ddel k (records t0)) (heap t0) (pending t0) (emitted t0))) as (_ & _ & ->).
Qed.

Lemma V_admit_record now q t j : VT t j -> q_execution_id q ∉ heap_ids t ->
  dget (q_execution_id q) (dispatch_records j) = None -> parses (q_started_at q) -> VT (admit_record cfg now q t) j.
Proof.
  intros HV Hid Hr Hp. unfold admit_record. set (t1 := mkTracker _ _ _ _).
  destruct (emit_frame cfg (DispatchAsync (q_execution_id q)) t1) as (_ & Eh & Ep). set (t2 := emit cfg _ t1) in *.
  pose proof (V_register (heap t) (pending t) j (new_record now q) HV Hid Hr Hp eq_refl) as H1.
  unfold VT. set (b := _ && _). destruct b; simpl; rewrite Eh, Ep; simpl.
  - apply (V_admit _ _ (length (heap t))) in H1. eapply V_perm; [|exact H1].
    rewrite <- app_assoc. simpl. rewrite <- Permutation_middle. apply perm_skip. apply Permutation_cons_append.
  - eapply V_perm; [|exact H1]. apply Permutation_cons_append.
Qed.

Lemma V_registers now q t j : VT t j -> q_execution_id q ∉ heap_ids t ->
  dget (q_execution_id q) (dispatch_records j) = None -> parses (q_started_at q) ->
  VT (snd (register_execution cfg now q t)) j.
Proof.
  intros HV Hid Hr Hp. unfold register_execution. destruct (prune_frame now t) as [Eh Ep].
  set (t0 := prune_terminal_records cfg now t) in *. assert (H0 : VT t0 j) by (unfold VT; by rewrite Eh, Ep).
  assert (Hid0 : q_execution_id q ∉ heap_ids t0) by (unfold heap_ids; by rewrite Eh).
  destruct (max_records cfg <=? length (records t0))%nat; [|by apply V_admit_record].
  destruct (first_terminal t0) as [k|]; simpl; [by apply V_admit_record|].
  destruct (emit_frame cfg (DispatchRejected (q_pipeline q)) t0) as (_ & E1 & E2). unfold VT. by rewrite E1, E2.
Qed.

Lemma V_run_task k sent text iso now s : VT (tracker s) (journal s) ->
  let s' := run_task k sent text iso now s in VT (tracker s') (journal s').
Proof.
  intros HV. cbv zeta. unfold run_task. destruct (pending (tracker s) !! k) as [task|] eqn:Hk; [|exact HV].
  assert (HP : V (heap (tracker s)) (task :: delete k (pending (tracker s))) (journal s)).
  { eapply V_perm; [|exact HV]. by apply delete_Permutation. }
  set (t := with_tasks (delete k (pending (tracker s))) (tracker s)).
  assert (Hsnoc : forall k' j, V (heap t) (k' :: pending t) j -> VT (schedule k' t) j).
  { intros k' j H. eapply V_perm; [|exact H]. apply Permutation_cons_append. }
  assert (Hdrop : terminal_of task = None -> deliver_of task = None -> VT t (journal s)).
  { intros Ht Hd. apply (V_drop _ task); [exact HP|done|]. intros r x. by rewrite Ht. }
  destruct task as [r|w|e w|r|r body|r|r]; cbn [tracker journal].
  - destruct (heap t !! r) as [x|] eqn:Hx; cbn [tracker journal]; [|by apply Hdrop].
    apply Hsnoc. apply (V_next _ (StartedBegin r) _ _ _ HP); try done; [simpl in *; by rewrite Hx|].
    destruct (v_time _ _ _ HP r x Hx) as [Hp _]. split_and!; [done|done|done|]. simpl. apply list_elem_of_fmap. exists x. split; [done|].
    by eapply list_elem_of_lookup_2.
  - by apply Hsnoc, V_started_read.
  - by eapply V_started_apply.
  - destruct (v_tasks _ _ _ HP (TerminalBegin r) ltac:(by left)) as (x & Hx & Hf). change (heap t) with (heap (tracker s)). rewrite Hx.
    destruct Hf as [Ht Hd]. rewrite Ht. destruct (v_time _ _ _ HP r x Hx) as [_ Hc]. destruct (Hc Ht) as (c & -> & _). cbn [tracker journal].
    by apply Hsnoc, V_terminal_begin.
  - destruct (v_tasks _ _ _ HP (TerminalApply r body) ltac:(by left)) as (x & Hx & [Ht Hd] & _). change (heap t) with (heap (tracker s)). rewrite Hx.
    destruct (v_time _ _ _ HP r x Hx) as [_ Hc]. destruct (Hc Ht) as (c & Hrc & _). rewrite Hrc. cbn [tracker journal].
    by eapply V_terminal_apply.
  - destruct (v_tasks _ _ _ HP (Deliver r) ltac:(by left)) as (x & Hx & _). change (heap t) with (heap (tracker s)). rewrite Hx. cbn [tracker journal].
    by apply V_run_delivery.
  - by apply Hdrop.
Qed.

Lemma V_restart iso now p h P j : V h P j ->
  VT empty_tracker (run_jop iso_epoch j (JSweep iso now p)).
Proof.
  intros [W I T RT K S F D R N]. pose proof (run_jop_wf iso_epoch j (JSweep iso now p) W) as Hwf. split; try done; try apply NoDup_nil_2;
    try (intros ? H%elem_of_nil; done); try (intros ? ? H%elem_of_nil; done).
  intros id row. simpl. unfold sweep_orphan_started_sync.
  destruct (sweep_rows iso_epoch iso now p (dispatch_records j)) as [res|] eqn:E; simpl; [|apply RT].
  pose proof (sweep_rows_ok _ _ _ _ _ _ E) as Hok. rewrite (sweep_rows_exact iso_epoch iso now p _ Hok) in E. injection E as <-.
  simpl. set (f := fun r => if orphaned iso_epoch p r then interrupted_row iso now r else r).
  change (map _ (dispatch_records j)) with (map (fun kr : string * Row => (kr.1, f kr.2)) (dispatch_records j)). rewrite dget_map_rows.
  destruct (dget id (dispatch_records j)) as [row0|] eqn:Er; [|done]. simpl. intros [= <-]. unfold f. pose proof (RT id row0 Er).
  by destruct (orphaned iso_epoch p row0).
Qed.

Lemma V_on_journal h P j o : V h P j ->
  match o with JAssess _ _ _ _ _ | JRelease _ _ | JPin _ _ => True | _ => False end -> V h P (run_jop iso_epoch j o).
Proof.
  intros HV Ho. apply (V_journal h P j); [done|by apply run_jop_wf, (v_wf h P)|].
  destruct o as [| | |st su sha pid at_|st su|root l]; try done; simpl.
  - destruct (assess_state st su sha pid at_ j) as [-> | ->]; [done|]. unfold claim_continuation_sync.
    by destruct (dget st (continuation_claims j)) as [[? ?]|].
  - unfold write_lineage_root_sync. by destruct (dget root (pipeline_lineage j)).
Qed.

Definition VS (s : System) : Prop := VT (tracker s) (journal s).

Lemma VS_step a s : allowed s a -> VS s -> VS (step s a).
Proof.
  intros Ha HV. destruct a as [now q|id res iso now|id err iso now|now id|k sent text iso now|o|iso now p]; cbn [allowed] in Ha.
  - destruct Ha as (H1 & H2 & H3). by apply V_registers.
  - by apply V_complete.
  - by apply V_fail.
  - unfold VS, step, get_record, VT. cbn [tracker journal snd]. destruct (prune_frame now (tracker s)) as [-> ->]. exact HV.
  - by apply V_run_task.
  - by apply V_on_journal.
  - by eapply V_restart.
Qed.

Lemma VS_run acts s : all_allowed acts s -> VS s -> VS (run acts s).
Proof. revert s. induction acts as [|a acts IH]; intros s; simpl; [done|]. intros [Ha Has] HV. apply IH; [done|]. by apply VS_step. Qed.

Lemma VS_initial : VS initial.
Proof. split; try done; try apply NoDup_nil_2;
    try (intros ? H%elem_of_nil; done); try (intros ? ? H%elem_of_nil; done). split; apply NoDup_nil_2. Qed.

(** *** Rows no live run owns *)








(** ** What the journal promises *)

(** C5: The journal follows the tracker, in whatever order the writers run, as
    long as execution ids are fresh and no row is pruned ([allowed]).  Its row
    of a dispatched run says [started], or says how the run ended and lets a
    resume through exactly if that end can be resumed; an end that a delivery
    may still revise is not in it.  Once the run has ended and neither its
    delivery nor a writer is pending, its end is in the journal, except that of
    a completed run to a thread for which there is no delivery sender or
    configuration ([journaled]; see [undelivered_end_is_lost]). *)
Theorem journal_follows acts r x :
  all_allowed acts initial -> heap (tracker (run acts initial)) !! r = Some x ->
  let rows := dispatch_records (journal (run acts initial)) in
  let P := pending (tracker (run acts initial)) in
  let says row := status row = status_text (run_status x) /\ final P r x /\
    refusal_for_record (record_json row) (status row) = record_refusal x in
  (forall row, dget (execution_id x) rows = Some row -> status row = "started"%string \/ says row) /\
  (is_terminal (run_status x) = true -> journaled x ->
   (forall k, k ∈ P -> deliver_of k <> Some r /\ terminal_of k <> Some r) ->
   exists row, dget (execution_id x) rows = Some row /\ says row).
Proof.
  intros Hacts Hx rows P says. pose proof (VS_run acts initial Hacts VS_initial) as HV.
  assert (Hrows : forall row, dget (execution_id x) rows = Some row -> status row = "started"%string \/ says row)
    by (intros row Hr; by apply (v_rows _ _ _ HV r)).
  split; [done|]. intros Ht Hj Hno. destruct (v_done _ _ _ HV r x Hx Ht Hj) as [[(k & Hk & E)|(_ & _ & Hin)]|(row & Hr & Hte)].
  - by destruct (Hno k Hk).
  - by destruct (Hno _ Hin).
  - exists row. split; [done|]. destruct (Hrows row Hr) as [E|]; [by rewrite E in Hte | done].
Qed.


End System.

(** ** Instances *)

Definition hint_of (_ : string) (_ : DeliveryOutcome) : string := "hint".
Definition no_sender : Config := mkConfig 10 100 true false false.
Definition request_of (op : string) : Request :=
  mkRequest "run" "chat" "10" None None "thread" (Some "thread-1") (Some op) None.
Definition an_answer : PipelineExecutionResult := mkResult "answer" "m" None JNull 1 JNull [] None None [].

Definition dispatched (op : string) : list Action :=
  [Register 10 (request_of op); RunTask 0 None "" "10" 10; RunTask 0 None "" "10" 10; RunTask 0 None "" "10" 10].
Definition answered (op : string) : list Action :=
  dispatched op ++ [CompleteRun "run" an_answer "20" 20; RunTask 0 None "" "21" 21; RunTask 0 None "" "21" 21].


Lemma answered_allowed op : all_allowed seconds hint_of no_sender (answered op) initial.
Proof. split; [|done]. split; [apply not_elem_of_nil | done]. Qed.

Lemma journal_follows_witness :
  exists row, dget "run"%string (dispatch_records (journal (run seconds hint_of no_sender (answered "generate") initial))) = Some row /\
    status row = "completed"%string.
Proof.
  set (s := run seconds hint_of no_sender (answered "generate") initial).
  destruct (heap (tracker s) !! 0%nat) as [x|] eqn:Hx; [|discriminate Hx].
  destruct (journal_follows seconds hint_of no_sender (answered "generate") 0 x (answered_allowed "generate") Hx) as [_ H].
  vm_compute in Hx. injection Hx as <-. destruct (H eq_refl (or_introl eq_refl)) as (row & Hr & Hs & _).
  - intros k Hk. exfalso. revert Hk. apply not_elem_of_nil.
  - exists row. split; [exact Hr | exact Hs].
Defined.


(** Without a delivery sender, a completed [to_thread] run never gets its end
    journaled: after a restart the journal calls it interrupted, and admits a
    resume of a run that was completed. *)
Example undelivered_end_is_lost :
  let s := run seconds hint_of no_sender (answered "to_thread") initial in
  let j := run_jops seconds [JPin "run" pinned] (journal (step seconds hint_of no_sender s (Restart "30" 30 29))) in
  (run_status <$> heap (tracker s) !! 0%nat) = Some completed /\ pending (tracker s) = [] /\
  (record_refusal <$> heap (tracker s) !! 0%nat) =
    Some (Some ("not_resumable", "Run completed without a stop and cannot be resumed."))%string /\
  (status <$> dget "run"%string (dispatch_records j)) = Some "failed"%string /\
  admitted (fst (assess_continuation_sync "run" "next" "sha" "chat" "31" j)) = true.
Proof. vm_compute. by split_and!. Qed.
